(* ===== verification/_CoqProject ===== *)
-Q . S2P
Prelude.v
Urlencode.v
Uuidv7.v
SeqId.v
Hooks.v
VarScopes.v
Linearization.v
Retry.v
Ledger.v
Shmem.v
SumType.v
Bgworker.v
Modules.v
Paths.v
LocalFs.v
Dshash.v
Httpd.v
Router.v
EventLoop.v
Suspension.v
FunSig.v
Regex.v
Arenas.v
Worker.v
Extension.v
Sql.v
Cascading.v
Httpc.v
Yregress.v
CText.v
SqliteReader.v
SqliteDump.v
SqliteType.v
Csv.v
