(* ===== verification/Prelude.v ===== *)
(** * Omnigres: a verification development of its native extensions

    Omnigres is a set of PostgreSQL extensions (C and C++ under
    src/extensions) loaded into database backends by the extension loader
    [omni].  This library models the parts of them that carry logic of their
    own, function by function, and proves what makes each part correct; where
    the code does not do what it means to, the theorem says what it does.

    ** The parts and their files

    - [Prelude]: outcomes of C code in a backend (value, [ereport(ERROR)],
      undefined behaviour), a state-and-error monad, machine integers, byte
      order, shared lemmas, tactics and hint databases.
    - [Urlencode]: omni_web/urlencode.c, percent-encoding and decoding of text.
    - [Uuidv7]: omni_polyfill/uuidv7.c, UUID version 7 with the per-backend
      ascending clock.
    - [SeqId]: omni_seq/id.h, prefixed identifiers at all their widths.
    - [Hooks]: omni/hook_harness.c with [register_hook] (omni/omni.c), the
      default hooks (omni/init.c) and [hooks()] (omni/module.c): the arrays of
      entry points a backend dispatches PostgreSQL's hooks to.
    - [VarScopes]: omni_var/txn.c, session.c, statement.c; submodules [Txn],
      [Session], [Statement], and [Spec], the contract of [Txn].
    - [Linearization]: omni_txn/linearization.c, the shared control block in
      which committing transactions record conflicts for the running ones.
    - [Retry]: omni_txn/retry.c, run on top of [Linearization]: every attempt
      ends with its transaction callbacks.
    - [Ledger]: omni_ledger/omni_ledger.c, the triggers that collect, post and
      check balances, with the account cache and its invalidation.
    - [Shmem]: the named shared memory of omni/omni.c: shared table of
      reference-counted chunks, acquisitions per backend.
    - [SumType]: omni_types/sum_type.c, sum_type.h and unit.c: layout of values
      in memory, the cache of definitions, casts, text and binary forms,
      comparison, hashing, definition of types.
    - [Bgworker]: requests for background workers of omni/omni.c and the
      one-shot transaction callbacks of omni/hook_harness.c that carry them
      out.
    - [Modules]: loading, initialization and unloading of modules in
      omni/omni.c.  Unloading purges the hook tables of [Hooks] and the
      acquisitions of [Shmem]; its submodule [Demo] is a loader with three
      modules.
    - [Paths]: omni_vfs/pg_path_v15.c and omni_vfs.c, canonical and absolute
      paths, rewritten in place in a buffer of bytes.
    - [LocalFs]: omni_vfs/local_fs.c on top of [Paths]: mounts, the check that
      a path stays inside its mount, listing, reading and writing.
    - [Dshash]: omni/dshash.c, the scan, growth and buckets of shared hash
      tables, while other backends change them.
    - [Httpd]: the listening sockets of omni_httpd (master_worker.c, fd.c, the
      reload in http_worker.c): from the table of listeners through the master
      and a UNIX socket to the listeners of a worker.
    - [Router]: routing and answering of requests in http_worker.c, with
      urlpattern.cpp, http_status_reasons.h and [http_response] of
      omni_httpd.c.
    - [EventLoop]: omni_httpd/event_loop.c with [on_message] of http_worker.c
      and [websocket_send] of omni_httpd.c: the two threads of a worker and
      the messages between them.  That a handler answers a request with one
      message is [Router.handler_answers_once].
    - [Suspension]: the flags, mutex and condition variables with which the
      main thread of a worker suspends the event loop during a reload
      (http_worker.c, event_loop.c).
    - [FunSig]: omni_types/funsig_type.c, types whose values are the functions
      of one signature.
    - [Regex]: omni_regex/pcre2.c, the cache of compiled expressions with the
      memory its keys point to, and the matching functions.
    - [Arenas]: omni_shmem/omni_shmem.cpp with the arenas of deps/oink.hpp:
      named allocations in segments of shared memory that backends open and
      close.
    - [Worker]: omni_worker/omni_worker.cpp and handlers.cpp with the messages
      of deps/oink.hpp: a pool of workers that run statements and timers.
    - [Extension]: omni/extension.c, what happens around CREATE, ALTER and DROP
      EXTENSION, between the two calls of a wrapping hook
      ([Hooks.wrap_hook_brackets]); module [Startup]: omni/workers.c and
      omni/utils.c.
    - [Sql]: omni_sql/lib.c and omni_sql.c, parse trees and what is done with
      them, scripts split into statements, execution with parameters.
    - [Cascading]: omni_httpd/cascading_query.c on the parse trees of [Sql]: an
      aggregate that makes one statement of many queries.
    - [Httpc]: omni_httpc/omni_httpc.c, the requests of a call of the HTTP
      client, from their options over redirects to their rows.
    - [Yregress]: the test runner under src/pg_yregress (test.c, pg_yregress.c,
      instance.c), with the comparison of nodes of libfyaml (deps/libfyaml):
      documents of tests, the transactions they run in, and the report.
    - [CText]: texts as the C and C++ code has them, for the files below.
    - [SqliteReader]: the parts of SQLite (deps/sqlite-3.48.0/sqlite3.c) that
      read what a dump writes: tokenizer, keywords, literals, [replace] and
      [char], and the formats of its printf; with a reader for lists of
      INSERT statements and for SELECT, the fragment of the grammar a dump
      uses.
    - [SqliteDump]: omni_sqlite/sqlite3_db_dump.c, a database as SQL
      statements; module [Mem] is a database in memory.
    - [SqliteType]: omni_sqlite/omni_sqlite.cpp and sqlite.cpp with the
      expanded objects of its deps/cppgres.hpp: databases as values of the type
      [sqlite], whose text form is made by [SqliteDump].
    - [Csv]: omni_csv/omni_csv.cpp with the parser, the guess of the format and
      the writer of its deps/csv.hpp.

    ** How code becomes definitions

    A definition has the name of the C function it translates and follows its
    order of checks and calls.  Static variables and shared memory are the
    state of the monad [M]; an error keeps the state reached so far, since
    [ereport] does not undo writes to memory.  A read or write outside a
    buffer, a NULL dereference and the use of freed memory are the outcome
    [Undefined], so a theorem that a call returns [Ok] also says that it does
    none of these.  SQL NULL is [None].  A w-bit integer is a [Z] wrapped by
    [wrap_u w] or [wrap_s w] where the code converts or may overflow.
    What PostgreSQL does (catalogs, function calls, snapshots, the clock,
    random bytes, the database encoding) is a parameter; the properties of it
    that a theorem needs are named hypotheses or classes ([SumType.PgLaws],
    [SumType.VariantBinary], [SumType.VariantText], [SumType.VariantOrder],
    [FunSig.PgFunctions], [Regex.LibLaws], [Sql.ConvLaws],
    [Cascading.SqlLaws], [Yregress.Transactions], [SqliteDump.Dump.holds_table]
    and [SqliteDump.Dump.holds_database], what SQLite answers to the queries of
    a dump), each with an instance on a concrete backend.  What the rest of
    SQLite does to a database is the record [SqliteType.Value.engine].

    ** What the theorems show

    - Refinement: [VarScopes.txn_vars_refine] (transaction variables against a
      stack of frames), [Hooks.iterate_hooks_chain] and
      [Hooks.wrap_hook_brackets] (dispatch against the chain of hooks),
      [Httpd.reload_serves_listeners] (master, descriptors and worker against
      the table of listeners), [Router.serve_routes_refines] (arrays, plans and
      caches against the choice of routes by priority),
      [Cascading.cascading_query_means] (the statement built from queries
      against the queries whose predecessors have no rows),
      [SqliteDump.Dump.dump_restores] (the text of a dump against the rows of
      the tables, through the tokenizer of SQLite).
    - Equivalence: [Paths.canonicalize_path_normalizes] (the state machine that
      rewrites a path in place against splitting, dropping and joining),
      [Regex.regex_cache_transparent] (the cache against compiling).
    - Invariants over operations: [Hooks.register_hook_invariant],
      [Ledger.insert_transfers_keeps_limits], [Shmem.shmem_acquisitions_live]
      (over every interleaving of the operations of all backends),
      [SumType.sum_type_variants_fit], [Modules.load_module_registers],
      [Dshash.resize_keeps_entries], [EventLoop.event_loop_invariant] (over
      every interleaving of the threads), [Worker.messages_alive] (over every
      interleaving of backends and workers).
    - Types: [Router.route_args_typed], the arguments of handlers;
      [FunSig.call_signature_typed], calls through a signature;
      [Sql.parameters_typed], parameters of statements;
      [SqliteType.Value.query_records_typed], records of queries on SQLite.
    - Functional behaviour: posting of transfers, sharing by name, restoring
      after a rollback, monotonic identifiers, agreement of the comparison
      operators of sum types, background workers at the time
      they were asked for, statements run in their order by the pool
      ([Worker.statements_in_order]), functions found by signature, functions
      moved to the library of the new version of their extension, workers for
      the databases of a cluster, scripts split with nothing lost
      ([Sql.raw_statements_grouped]), requests sent and answered over redirects
      ([Httpc.http_execute_answers]), the verdicts on query tests against what
      their documents expect ([Yregress.query_verdict]) and their report
      ([Yregress.test_reports_item]), stored SQLite databases that are changed
      ([SqliteType.Value.stored_database_updated]), and [Modules.load_pending_modules_reconciles]: a
      backend ends up with exactly the modules of [pg_extension], and the
      callbacks made are those that takes.
    - Round trips: URL and URI encoding, identifiers in text and binary form,
      UUID timestamps, sum types through casts, text and binary form, files
      written and read, WebSocket messages relayed in pieces, regular
      expressions read and printed, values stored in an arena by one backend
      and read by another, texts in a dump of a SQLite database
      ([SqliteDump.Dump.quoted_string_reads_back]), parameters bound to a
      statement of SQLite and selected
      ([SqliteType.Value.parameters_come_back]), rows written and read as
      comma-separated values ([Csv.Format.csv_agg_parse_roundtrip]).
    - Safety, bounds, termination and liveness: the URL decoders stay inside
      their buffers on any input; a path below a mount stays inside it;
      [local_fs_read] returns the bytes asked for in memory of their size; a
      scan of a hash table returns what stays in it once, and ends; [retry]
      and the reload of the master end; a linearized read after a conflicting
      commit fails; a request is answered once ([Router.handler_answers_once],
      [EventLoop.event_loop_drains]); a read from an arena stays inside its
      allocation; the statements of a dump are built inside their buffers
      ([SqliteDump.Dump.appendText_in_bounds]); any comma-separated values are
      read inside their text ([Csv.Format.csv_read_within]); [regex_matches] ends; no timer runs twice, and only its owner
      cancels it; the event loop stands still during a
      reload and serves requests after it ([Suspension]); a test that is to be
      rolled back leaves no trace ([Yregress.test_isolated]).
    - Error paths and defects: inputs on which a function reads or writes
      outside its memory, dereferences NULL, loses a value or breaks an
      ordering, each proved on the model and listed as a finding.

    ** Bounds and fuel

    Loops over data are structural.  [Urlencode.encode_loop] and [decode_loop]
    take as fuel the length of the input and consume at least one byte per
    turn; [Hooks.reorganize_type] takes the number of entries, one per turn;
    [Retry.retry_loop] takes the number of attempts; [SumType.lookup_loop]
    takes two turns, enough whatever the cache holds
    ([SumType.lookup_sumtype_cache_ends]).  [SeqId.digits] prints up to 20
    digits, enough for 64 bits.  The loops of [Paths] take the length of the
    buffer, one byte or component per turn; a chain of [Dshash] is followed for
    as many turns as there are items, and a scan for one turn more than there
    are entries; [Httpd.try_listen] takes three attempts, after which the
    system has chosen a port; [EventLoop.relay_loop] takes the number of bytes,
    of which a turn consumes at least nine; [Regex.matches_loop] takes the
    length of the subject plus two, since every match but the first is not
    empty and begins where the last one ended; [Httpc.run] takes
    [MAX_REDIRECTS] plus one, since every redirect is counted.
    [Yregress.yinstance_connect] takes one turn for an instance that is
    connected ([Yregress.connect_connected]) and one more for each connection
    lost while it is initialized; [connect_from] comes back once per restart,
    of which there are at most as many as steps.  [SqliteReader.Reader.tokenize]
    takes the length of the text plus one, since every token has a byte at
    least; [dec_digits] prints up to 20 digits; [SqliteDump.Dump.unused_loop]
    takes the length of the text plus one, since every string that is tried
    and found is at a position of its own ([SqliteDump.Dump.unused_string_ends]).
    [Csv.Format.parse_loop] takes the length of the data plus one, since every
    turn consumes a character ([Csv.Format.parse_step_shorter]); [read_csv]
    takes two more than the length, one read being enough for the texts of the
    theorems, which are shorter than a chunk of ten million bytes.

    ** Assumptions of the models

    Little-endian 64-bit platform (layout of sum types).  A function runs
    without interleaving with other backends, except in [Shmem], whose step
    relation interleaves whole operations of all backends, in [Dshash], where
    other backends act at every wait for a lock, in [EventLoop], whose steps are
    the functions that hold the lock of a message, in [Suspension], whose
    steps are the accesses to the shared flags, and in [Arenas] and [Worker],
    whose steps are calls of backends and turns of the threads of workers.  The
    requests of a call of the HTTP client, which share nothing but the buffer
    of their content lengths, are followed one after the other.  Memory
    allocation does not fail.  Compressed and out-of-line varlena values reach the code
    through PostgreSQL's detoasting.

    ** Not modelled

    The locks and configuration variables of [omni] and of omni_httpd, which
    are declarations passed to PostgreSQL; the start of the workers and the
    autostart statements of omni_worker, the TLS set-up and the list of
    connections of the HTTP client, the command line and the start of servers
    in pg_yregress, which are sequences of calls of the operating system and of
    libraries; the deparser of omni_sql, which is PostgreSQL's own, once for
    each of its versions; and the bindings to third-party libraries for XML and
    YAML, which make one or two calls of them.  Of SQLite, csv-parser, H2O, PCRE2, Boost and libfyaml, only the functions named above are
    modelled, the rest is parameters.  Callbacks of modules cannot reach the
    loader's own variables in [Modules], where they are a parameter. *)

From stdpp Require Import base tactics list gmap strings numbers sorting.
From Stdlib Require Import ZArith Lia.

Set Default Proof Using "Type".

(** ** Outcomes of C code running inside a PostgreSQL backend

    A backend function either returns, leaves through [ereport(ERROR, ...)]
    (a [longjmp] to the enclosing [PG_TRY] or to the main loop), or does
    something C gives no meaning to (a read outside a buffer, a NULL pointer
    dereferenced).  The third outcome is kept apart from errors so that a
    theorem of the form [f x = Ok y] also says that [f] does nothing
    undefined. *)

Record pg_error := PgError { errcode : string; errmsg : string }.

(** [ereport(ERROR, errmsg(...))] without an [errcode] *)
Definition ERRCODE_INTERNAL_ERROR : string := "XX000".
Definition ERRCODE_T_R_SERIALIZATION_FAILURE : string := "40001".
Definition ERRCODE_INVALID_PARAMETER_VALUE : string := "22023".

Definition elog (msg : string) : pg_error := PgError ERRCODE_INTERNAL_ERROR msg.

Inductive result (A : Type) : Type :=
  | Ok (a : A)
  | Err (e : pg_error)
  | Undefined (why : string).

Arguments Ok {A} a.
Arguments Err {A} e.
Arguments Undefined {A} why.

#[export] Instance result_ret : MRet result := @Ok.
#[export] Instance result_bind : MBind result := λ A B f r,
  match r with
  | Ok a => f a
  | Err e => Err e
  | Undefined w => Undefined w
  end.

Definition raise {A} (msg : string) : result A := Err (elog msg).

Definition is_Ok {A} (r : result A) : Prop := ∃ a, r = Ok a.

(** ** State and errors

    [ereport] does not undo writes to the memory of the backend (static
    variables, shared memory), so the state reached when the error is raised
    is part of the outcome. *)

Definition M (S A : Type) : Type := S → result A * S.

#[export] Instance M_ret S : MRet (M S) := λ A a s, (Ok a, s).
#[export] Instance M_bind S : MBind (M S) := λ A B f m s,
  match m s with
  | (Ok a, s') => f a s'
  | (Err e, s') => (Err e, s')
  | (Undefined w, s') => (Undefined w, s')
  end.

Section StateOps.
Context {S : Type}.
Definition get_st : M S S := λ s, (Ok s, s).
Definition put_st (s' : S) : M S unit := λ _, (Ok (), s').
Definition modify_st (f : S → S) : M S unit := λ s, (Ok (), f s).
Definition throw {A} (e : pg_error) : M S A := λ s, (Err e, s).
Definition ereport {A} (msg : string) : M S A := throw (elog msg).
Definition undefined {A} (w : string) : M S A := λ s, (Undefined w, s).
Definition lift_r {A} (r : result A) : M S A := λ s, (r, s).
End StateOps.

Definition when {S} (b : bool) (m : M S unit) : M S unit :=
  if b then m else mret ().

(** Computing through a bind. *)
Lemma lift_bind {S A C} (r : result A) (f : A → M S C) a st :
  r = Ok a → (lift_r r ≫= f) st = f a st.
Proof. by intros ->. Qed.

Lemma bind_ok {S A C} (m : M S A) (f : A → M S C) a s s' :
  m s = (Ok a, s') → (m ≫= f) s = f a s'.
Proof. unfold mbind, M_bind. by intros ->. Qed.

Lemma bind_assoc_ok {S A B C} (m : M S A) (f : A → M S B) (g : B → M S C) b s s' :
  (m ≫= f) s = (Ok b, s') → (x ← m; y ← f x; g y) s = g b s'.
Proof.
  unfold mbind, M_bind. destruct (m s) as [[a|e|w] s1]; [|done|done]. by intros ->.
Qed.

Lemma get_bind {S C} (f : S → M S C) s : (get_st ≫= f) s = f s s.
Proof. done. Qed.

Lemma modify_bind {S C} (g : S → S) (f : unit → M S C) s : (modify_st g ≫= f) s = f () (g s).
Proof. done. Qed.

(** A loop over a list with early exit through the monad. *)
Fixpoint for_each {S A} (f : A → M S unit) (l : list A) : M S unit :=
  match l with
  | [] => mret ()
  | x :: l' => _ ← f x; for_each f l'
  end.

Lemma for_each_app {S A} (f : A → M S unit) l1 l2 s s1 :
  for_each f l1 s = (Ok (), s1) → for_each f (l1 ++ l2) s = for_each f l2 s1.
Proof.
  revert s. induction l1 as [|x l1 IH]; intros s; simpl; [by intros [= ->]|].
  unfold mbind, M_bind. destruct (f x s) as [[[]|e|w] s']; [apply IH|done|done].
Qed.

(** ** Machine integers

    A [w]-bit integer is a [Z]; conversions wrap explicitly. *)

Local Open Scope Z_scope.

Definition wrap_u (w : Z) (z : Z) : Z := z mod 2 ^ w.
Definition wrap_s (w : Z) (z : Z) : Z := (z + 2 ^ (w - 1)) mod 2 ^ w - 2 ^ (w - 1).

Definition in_u (w : Z) (z : Z) : Prop := 0 <= z < 2 ^ w.
Definition in_s (w : Z) (z : Z) : Prop := - 2 ^ (w - 1) <= z < 2 ^ (w - 1).

#[export] Instance in_u_dec w z : Decision (in_u w z).
Proof. unfold in_u. apply _. Defined.
#[export] Instance in_s_dec w z : Decision (in_s w z).
Proof. unfold in_s. apply _. Defined.

(** One byte of a buffer, and the value of a (signed) [char] holding it. *)
Definition byte_ok (b : Z) : Prop := 0 <= b < 256.
#[export] Instance byte_ok_dec b : Decision (byte_ok b).
Proof. unfold byte_ok. apply _. Defined.

Definition schar (b : Z) : Z := if b <? 128 then b else b - 256.

Create HintDb omni.
Create Rewrite HintDb omni_rw.

Lemma pow2_pos w : 0 <= w → 0 < 2 ^ w.
Proof. intros. apply Z.pow_pos_nonneg; lia. Qed.

Lemma pow2_half w : 0 < w → 2 ^ w = 2 * 2 ^ (w - 1).
Proof. intros. rewrite <- Z.pow_succ_r by lia. f_equal; lia. Qed.

Lemma wrap_u_id w z : in_u w z → wrap_u w z = z.
Proof. intros. apply Z.mod_small, H. Qed.

Lemma wrap_u_in w z : 0 <= w → in_u w (wrap_u w z).
Proof. intros. apply Z.mod_pos_bound. by apply pow2_pos. Qed.

Lemma wrap_s_id w z : 0 < w → in_s w z → wrap_s w z = z.
Proof.
  intros Hw [H1 H2]. unfold wrap_s. pose proof (pow2_half w Hw).
  rewrite Z.mod_small; lia.
Qed.

Lemma wrap_s_in w z : 0 < w → in_s w (wrap_s w z).
Proof.
  intros Hw. unfold wrap_s, in_s. pose proof (pow2_half w Hw).
  pose proof (Z.mod_pos_bound (z + 2 ^ (w - 1)) (2 ^ w) ltac:(apply pow2_pos; lia)). lia.
Qed.

Lemma wrap_s_mod w z : 0 < w → (wrap_s w z) mod 2 ^ w = z mod 2 ^ w.
Proof.
  intros Hw. unfold wrap_s.
  rewrite Zminus_mod_idemp_l. f_equal. lia.
Qed.

Lemma wrap_s_cong w a b : 0 < w → a mod 2 ^ w = b mod 2 ^ w → wrap_s w a = wrap_s w b.
Proof.
  intros Hw E. unfold wrap_s.
  rewrite <- (Zplus_mod_idemp_l a), <- (Zplus_mod_idemp_l b), E. done.
Qed.

#[export] Hint Resolve pow2_pos wrap_u_in wrap_s_in : omni.

(** ** Network byte order

    [be_bytes n z] is what [memcpy] copies out of an [n]-byte integer that
    went through [pg_hton16/32/64], [be_val] the (unsigned) value
    [pg_ntoh16/32/64] makes of such bytes. *)

Fixpoint be_bytes (n : nat) (z : Z) : list Z :=
  match n with
  | O => []
  | S n' => Z.land (Z.shiftr z (8 * Z.of_nat n')) 255 :: be_bytes n' z
  end.

Fixpoint be_val (l : list Z) : Z :=
  match l with
  | [] => 0
  | b :: l' => Z.lor (Z.shiftl b (8 * Z.of_nat (length l'))) (be_val l')
  end.

Lemma be_bytes_length n z : length (be_bytes n z) = n.
Proof. induction n; simpl; congruence. Qed.

Lemma land_255 z : Z.land z 255 = z mod 256.
Proof. change 255 with (Z.ones 8). by rewrite Z.land_ones. Qed.

Lemma be_bytes_ok n z : Forall byte_ok (be_bytes n z).
Proof.
  induction n; simpl; constructor; auto.
  rewrite land_255. apply Z.mod_pos_bound. lia.
Qed.

Lemma lor_shiftl_add a b k : 0 <= k → 0 <= b < 2 ^ k → Z.lor (Z.shiftl a k) b = a * 2 ^ k + b.
Proof.
  intros Hk Hb. rewrite <- Z.add_nocarry_lor; [by rewrite Z.shiftl_mul_pow2|].
  rewrite <- (Z.mod_small b (2 ^ k)) by done.
  apply Z.bits_inj'. intros i Hi. rewrite Z.land_spec, Z.bits_0.
  destruct (Z.lt_ge_cases i k).
  - by rewrite Z.shiftl_spec_low.
  - by rewrite Z.mod_pow2_bits_high, andb_false_r.
Qed.

Lemma be_val_bound l : Forall byte_ok l → 0 <= be_val l < 2 ^ (8 * Z.of_nat (length l)).
Proof.
  induction 1 as [|b l Hb _ IH]; simpl; [lia|].
  rewrite lor_shiftl_add by lia. unfold byte_ok in Hb.
  replace (8 * Z.of_nat (S (length l))) with (8 + 8 * Z.of_nat (length l)) by lia.
  rewrite Z.pow_add_r by lia. change (2 ^ 8) with 256. nia.
Qed.

Lemma be_val_be_bytes n z : be_val (be_bytes n z) = z mod 2 ^ (8 * Z.of_nat n).
Proof.
  induction n as [|n IH]; simpl; [by rewrite Z.mod_1_r|].
  rewrite be_bytes_length, IH, lor_shiftl_add; [|lia|apply Z.mod_pos_bound; lia].
  rewrite land_255, Z.shiftr_div_pow2 by lia.
  replace (8 * Z.of_nat (S n)) with (8 * Z.of_nat n + 8) by lia.
  rewrite Z.pow_add_r by lia. change (2 ^ 8) with 256.
  rewrite (Z.rem_mul_r z (2 ^ (8 * Z.of_nat n)) 256) by lia. lia.
Qed.

Lemma be_bytes_be_val l : Forall byte_ok l → be_bytes (length l) (be_val l) = l.
Proof.
  assert (G : ∀ l x, Forall byte_ok l →
    be_bytes (length l) (x * 2 ^ (8 * Z.of_nat (length l)) + be_val l) = l).
  { clear l. induction l as [|b l IH]; intros x Hl; simpl; [done|].
    apply Forall_cons_1 in Hl as [Hb Hl]. pose proof (be_val_bound l Hl).
    rewrite lor_shiftl_add by lia.
    set (q := 2 ^ (8 * Z.of_nat (length l))) in *.
    replace (2 ^ (8 * Z.of_nat (S (length l)))) with (256 * q)
      by (unfold q; rewrite <- (Z.pow_add_r 2 8) by lia; f_equal; lia).
    replace (x * (256 * q) + (b * q + be_val l)) with ((x * 256 + b) * q + be_val l) by lia.
    f_equal; [|by apply IH].
    rewrite land_255, Z.shiftr_div_pow2 by lia. fold q.
    rewrite Z.div_add_l by lia. rewrite (Z.div_small (be_val l)) by done.
    rewrite Z.add_0_r, Z.add_comm, Z_mod_plus_full. by apply Z.mod_small. }
  intros Hl. pose proof (G l 0 Hl) as E. by rewrite Z.mul_0_l, Z.add_0_l in E.
Qed.

(** Only the low [n] bytes matter. *)
Lemma be_bytes_cong n a b : a mod 2 ^ (8 * Z.of_nat n) = b mod 2 ^ (8 * Z.of_nat n) →
  be_bytes n a = be_bytes n b.
Proof.
  intros E. pose proof (be_bytes_be_val (be_bytes n a) (be_bytes_ok n a)) as Ha.
  pose proof (be_bytes_be_val (be_bytes n b) (be_bytes_ok n b)) as Hb.
  rewrite be_bytes_length, be_val_be_bytes in Ha, Hb. rewrite <- Ha, <- Hb. by rewrite E.
Qed.

Lemma be_val_app a b : Forall byte_ok b →
  be_val (a ++ b) = be_val a * 2 ^ (8 * Z.of_nat (length b)) + be_val b.
Proof.
  intros Hb. pose proof (be_val_bound b Hb).
  assert (G : be_val (a ++ b) = Z.lor (Z.shiftl (be_val a) (8 * Z.of_nat (length b))) (be_val b)).
  { induction a as [|x a IH]; [by rewrite Z.shiftl_0_l|].
    cbn [app be_val]. rewrite IH, length_app, Z.shiftl_lor, Z.shiftl_shiftl, Z.lor_assoc by lia.
    do 2 f_equal. f_equal. lia. }
  rewrite G. by apply lor_shiftl_add; [lia|].
Qed.

Lemma be_val_cons b l : Forall byte_ok l →
  be_val (b :: l) = b * 2 ^ (8 * Z.of_nat (length l)) + be_val l.
Proof. intros Hl. apply lor_shiftl_add; [lia|]. by apply be_val_bound. Qed.

#[export] Hint Rewrite be_bytes_length be_val_be_bytes : omni_rw.
#[export] Hint Resolve be_bytes_ok : omni.

(** ** Tactics of the development *)

(** Case analysis on the outermost test of a hypothesis or of the goal. *)
Ltac break_test :=
  match goal with
  | |- context [if ?b then _ else _] => destruct b eqn:?
  | H : context [if ?b then _ else _] |- _ => destruct b eqn:?
  end.

(** Follow an equation [m s = (Ok a, s')] (or [r = Ok a]) through the binds
    of a computation. *)
Ltac step_ok :=
  repeat match goal with
  | H : Ok _ = Ok _ |- _ => injection H as H; subst
  | H : (_, _) = (_, _) |- _ => injection H as H; subst
  | H : Err _ = Ok _ |- _ => discriminate H
  | H : Undefined _ = Ok _ |- _ => discriminate H
  end; simplify_eq/=.

Tactic Notation "by_wrap" := unfold wrap_u, wrap_s, in_u, in_s in *; lia.

(** Linear arithmetic with [/] and [mod] by constants. *)
Ltac div_lia := Z.to_euclidean_division_equations; lia.

(** A closed decidable fact, by computation. *)
Ltac by_decide := refine (bool_decide_unpack _ _); vm_compute; exact I.

(** ** Lists updated and searched by position *)

Lemma existsb_eqb_In (x : Z) l : existsb (Z.eqb x) l = true ↔ x ∈ l.
Proof.
  rewrite existsb_exists. split.
  - intros (y & Hy & ->%Z.eqb_eq). by apply list_elem_of_In.
  - intros. exists x. rewrite Z.eqb_refl. by rewrite <- list_elem_of_In.
Qed.

(** ** Sums over the values of a map *)

Definition map_sum {K A} `{Countable K} (f : A → Z) (m : gmap K A) : Z :=
  map_fold (λ _ x n, f x + n) 0 m.

Section MapSum.
Context {K A : Type} `{Countable K} (f : A → Z).
Implicit Types m : gmap K A.

Definition at_key m k : Z := match m !! k with Some v => f v | None => 0 end.

Lemma map_sum_delete m k : map_sum f m = at_key m k + map_sum f (delete k m).
Proof.
  unfold map_sum, at_key. destruct (m !! k) as [v|] eqn:E.
  - rewrite (map_fold_delete_L _ 0 k v m); [done| |done]. intros. lia.
  - by rewrite delete_id.
Qed.

Lemma map_sum_insert m k v : map_sum f (<[k := v]> m) = f v + map_sum f m - at_key m k.
Proof.
  rewrite (map_sum_delete (<[k := v]> m) k), (map_sum_delete m k).
  unfold at_key. rewrite lookup_insert_eq, delete_insert_eq. lia.
Qed.

Lemma map_sum_nonneg m : (∀ x, 0 <= f x) → 0 <= map_sum f m.
Proof.
  intros Hf. unfold map_sum. apply (map_fold_weak_ind (λ r _, 0 <= r)); [done|].
  intros k x m' r _ Hr. specialize (Hf x). lia.
Qed.

Lemma at_key_le m k : (∀ x, 0 <= f x) → at_key m k <= map_sum f m.
Proof. intros Hf. rewrite (map_sum_delete m k). pose proof (map_sum_nonneg (delete k m) Hf). lia. Qed.
End MapSum.

(** ** C strings *)

(** The bytes of a string literal, without its terminator. *)
Fixpoint str_bytes (s : string) : list Z :=
  match s with
  | EmptyString => []
  | String c s' => Z.of_nat (Ascii.nat_of_ascii c) :: str_bytes s'
  end.

(** [strchr(s, c) != NULL]: the terminating NUL is part of the string. *)
Definition strchr_found (s : list Z) (c : Z) : bool := (c =? 0) || existsb (Z.eqb c) s.

(** A decidable fact about every byte, by computation. *)
Lemma byte_forall (P : Z → bool) :
  forallb P (seqZ 0 256) = true → ∀ b, byte_ok b → P b = true.
Proof.
  intros H b Hb. rewrite forallb_forall in H. apply H.
  apply list_elem_of_In, elem_of_seqZ. unfold byte_ok in Hb. lia.
Qed.

Definition ok_eqb (r : result Z) (z : Z) : bool :=
  match r with Ok a => a =? z | _ => false end.

Lemma ok_eqb_true r z : ok_eqb r z = true → r = Ok z.
Proof. destruct r; simpl; try done. by intros ->%Z.eqb_eq. Qed.

(** ** Outcomes that are never undefined *)

(** [safe P r]: [r] is a value with property [P] or a reported error. *)
Definition safe {A} (P : A → Prop) (r : result A) : Prop :=
  match r with Ok a => P a | Err _ => True | Undefined _ => False end.

Lemma safe_bind {A B} (P : A → Prop) (Q : B → Prop) r (f : A → result B) :
  safe P r → (∀ a, P a → safe Q (f a)) → safe Q (r ≫= f).
Proof. destruct r; simpl; auto. Qed.

Lemma safe_mono {A} (P Q : A → Prop) r : safe P r → (∀ a, P a → Q a) → safe Q r.
Proof. destruct r; simpl; auto. Qed.

Lemma safe_if {A} (P : A → Prop) (b : bool) r1 r2 :
  (b = true → safe P r1) → (b = false → safe P r2) → safe P (if b then r1 else r2).
Proof. destruct b; auto. Qed.

#[export] Hint Resolve safe_bind safe_if : omni.

(** ** A number that is not used *)

Lemma fresh_max (X : gset Z) : 1 + set_fold Z.max 0 X ∉ X.
Proof.
  assert (H : ∀ y, y ∈ X → y <= set_fold Z.max 0 X).
  { apply (set_fold_ind_L (λ r Y, ∀ y, y ∈ Y → y <= r) Z.max 0); [set_solver|].
    intros x Y r _ IH y [->%elem_of_singleton|Hy]%elem_of_union; [lia|]. specialize (IH y Hy). lia. }
  intros Hin%H. lia.
Qed.
