(* ===== verification/Urlencode.v ===== *)
(** * Percent-encoding of text: [omni_web/urlencode.c]

    [url_encode], [url_decode], [uri_encode] and [uri_decode] over texts as
    lists of bytes.  The encoding of the database ([pg_mblen]) and the UTF-8
    conversions of PostgreSQL ([unicode_to_utf8], [pg_utf_mblen]) are
    parameters.  A text is the [len] bytes of the varlena: reading past them
    is [Undefined].  The loops take fuel; [length] of the input is shown to be
    enough. *)

From stdpp Require Import base tactics list strings numbers.
From Stdlib Require Import ZArith Lia.
From S2P Require Import Prelude.

Local Open Scope Z_scope.

Module Urlencode.

Definition hex_chars : list Z := str_bytes "0123456789ABCDEF".

Definition hexlookup : list Z :=
  [-1; -1; -1; -1; -1; -1; -1; -1; -1; -1; -1; -1; -1; -1; -1; -1; -1; -1; -1; -1; -1; -1;
   -1; -1; -1; -1; -1; -1; -1; -1; -1; -1; -1; -1; -1; -1; -1; -1; -1; -1; -1; -1; -1; -1;
   -1; -1; -1; -1; 0;  1;  2;  3;  4;  5;  6;  7;  8;  9;  -1; -1; -1; -1; -1; -1; -1; 10;
   11; 12; 13; 14; 15; -1; -1; -1; -1; -1; -1; -1; -1; -1; -1; -1; -1; -1; -1; -1; -1; -1;
   -1; -1; -1; -1; -1; -1; -1; -1; -1; 10; 11; 12; 13; 14; 15; -1; -1; -1; -1; -1; -1; -1;
   -1; -1; -1; -1; -1; -1; -1; -1; -1; -1; -1; -1; -1; -1; -1; -1; -1; -1].

(** The value of a hexadecimal digit; [c] is a signed [char]. *)
Definition get_hex (b : Z) : result Z :=
  let c := schar b in
  let res := if (0 <? c) && (c <? 127)
             then nth (Z.to_nat (wrap_u 8 c)) hexlookup (-1) else -1 in
  if res <? 0
  then Err (PgError ERRCODE_INVALID_PARAMETER_VALUE "invalid hexadecimal digit")
  else Ok (wrap_u 8 res).

(** The test both loops share: copied as it is. *)
Definition plain (unreserved_special : list Z) (b : Z) : bool :=
  let c := schar b in
  ((48 <=? c) && (c <=? 57)) || ((97 <=? c) && (c <=? 122)) || ((65 <=? c) && (c <=? 90))
  || strchr_found unreserved_special b.

(** The three characters written for one byte. *)
Definition percent (b : Z) : list Z :=
  [37; nth (Z.to_nat (Z.land (Z.shiftr b 4) 15)) hex_chars 0;
       nth (Z.to_nat (Z.land b 15)) hex_chars 0].

Definition decode_utf16_pair (c1 c2 : Z) : Z :=
  wrap_u 32 (wrap_u 32 (65536 + Z.shiftl (Z.land c1 1023) 10) + Z.land c2 1023).

(** [(get_hex(h) << 4) | get_hex(l)] stored into an [unsigned char]. *)
Definition hex_byte (h l : Z) : result Z :=
  a ← get_hex h; b ← get_hex l; Ok (wrap_u 8 (Z.lor (Z.shiftl a 4) b)).

(** [read_ptr[k]], and the byte whose digits are at [k] and [k + 1]. *)
Definition char_at (rem : list Z) (k : nat) : result Z :=
  match rem !! k with Some b => Ok b | None => Undefined "read past the end of the text" end.

Definition hex_at (rem : list Z) (k : nat) : result Z :=
  h ← char_at rem k; l ← char_at rem (S k); hex_byte h l.

(** [strncpy(dst, src, n)]: stops reading at a NUL and pads with NULs; [src]
    is the initialised part of the source. *)
Fixpoint strncpy (src : list Z) (n : nat) : result (list Z) :=
  match n, src with
  | O, _ => Ok []
  | S _, [] => Undefined "strncpy reads past the initialised buffer"
  | S n', b :: src' => if b =? 0 then Ok (replicate n 0) else
                       out ← strncpy src' n'; Ok (b :: out)
  end.

Lemma strncpy_all buf : 0 ∉ buf → strncpy buf (length buf) = Ok buf.
Proof.
  induction buf as [|b buf IH]; intros Hn; [done|]. cbn [length strncpy].
  apply not_elem_of_cons in Hn as [Hb Hn].
  rewrite (proj2 (Z.eqb_neq b 0)) by congruence. by rewrite (IH Hn).
Qed.

Section Text.
(** Length in bytes of the multibyte character at the start of the text,
    in the database encoding. *)
Variable pg_mblen : list Z → Z.
(** The UTF-8 bytes of a code point, and the length of the character
    starting a buffer. *)
Variable unicode_to_utf8 : Z → list Z.
Variable pg_utf_mblen : list Z → Z.

(** The loop of [encode]: [rem] is what is left to process, the result
    what is still to be written. *)
Fixpoint encode_loop (fuel : nat) (unreserved_special rem : list Z) : result (list Z) :=
  match fuel, rem with
  | _, [] => Ok []
  | O, _ => Undefined "out of fuel"
  | S fuel', c :: _ =>
      let mblen := pg_mblen rem in
      if (mblen =? 1) && plain unreserved_special c then
        out ← encode_loop fuel' unreserved_special (drop 1 rem); Ok (c :: out)
      else if Z.of_nat (length rem) <? mblen then
        Undefined "read past the end of the text"
      else
        out ← encode_loop fuel' unreserved_special (drop (Z.to_nat mblen) rem);
        Ok (flat_map percent (take (Z.to_nat mblen) rem) ++ out)
  end.

Definition encode (in_text unreserved_special : list Z) : result (list Z) :=
  encode_loop (length in_text) unreserved_special in_text.

Fixpoint decode_loop (fuel : nat) (unreserved_special rem : list Z) : result (list Z) :=
  match fuel, rem with
  | _, [] => Ok []
  | O, _ => Undefined "out of fuel"
  | S fuel', c :: _ =>
      if negb (c =? 37) then
        if plain unreserved_special c then
          out ← decode_loop fuel' unreserved_special (drop 1 rem); Ok (c :: out)
        else raise "unaccepted chars in url code"
      else if (length rem <=? 1)%nat then raise "incomplete input string"
      else
      u ← char_at rem 1;
      if (u =? 117) || (u =? 85) then
        if (length rem <? 6)%nat then raise "incomplete input string" else
        b1 ← hex_at rem 2;
        b2 ← hex_at rem 4;
        let c1 := Z.lor b2 (Z.shiftl b1 8) in
        '(u, used) ←
          (if (55296 <=? c1) && (c1 <=? 56319) then
             if (length rem <? 10)%nat then raise "incomplete input string" else
             b1 ← hex_at rem 6;
             b2 ← hex_at rem 8;
             let c2 := Z.lor b2 (Z.shiftl b1 8) in
             if negb ((56320 <=? c2) && (c2 <=? 57343)) then raise "invalid utf16 input char"
             else Ok (decode_utf16_pair c1 c2, 10%nat)
           else Ok (c1, 6%nat));
        let buffer := unicode_to_utf8 u in
        w ← strncpy buffer (Z.to_nat (pg_utf_mblen buffer));
        out ← decode_loop fuel' unreserved_special (drop used rem);
        Ok (w ++ out)
      else if (length rem <? 3)%nat then raise "incomplete input string"
      else
        b ← hex_at rem 1;
        out ← decode_loop fuel' unreserved_special (drop 3 rem);
        Ok (b :: out)
  end.

Definition decode (in_text unreserved_special : list Z) : result (list Z) :=
  decode_loop (length in_text) unreserved_special in_text.

Definition url_unreserved : list Z := str_bytes ".-~_".
Definition uri_unreserved : list Z := str_bytes "-_.!~*'();/?:@&=+$,#".

Definition url_encode (t : list Z) := encode t url_unreserved.
Definition url_decode (t : list Z) := decode t url_unreserved.
Definition uri_encode (t : list Z) := encode t uri_unreserved.
Definition uri_decode (t : list Z) := decode t uri_unreserved.

(** A text in the database encoding: at every character boundary the
    character is not empty and does not run past the end. *)
Inductive mb_text : list Z → Prop :=
  | mb_nil : mb_text []
  | mb_char s :
      s ≠ [] → 1 <= pg_mblen s <= Z.of_nat (length s) →
      mb_text (drop (Z.to_nat (pg_mblen s)) s) → mb_text s.

(** How one byte of a text is written. *)
Definition written (un : list Z) (b : Z) (t : list Z) : Prop :=
  (plain un b = true ∧ t = [b]) ∨ t = percent b.

Lemma flat_map_percent_written un l : Forall2 (written un) l (map percent l).
Proof. induction l; simpl; constructor; [by right|done]. Qed.

Lemma encode_loop_written un s :
  mb_text s → ∀ fuel, (length s <= fuel)%nat →
  ∃ ts, Forall2 (written un) s ts ∧ encode_loop fuel un s = Ok (concat ts).
Proof.
  induction 1 as [|s Hne Hlen _ IH]; intros fuel Hf.
  { exists []. split; [constructor|by destruct fuel]. }
  destruct s as [|c s]; [done|]. destruct fuel as [|fuel]; [simpl in Hf; lia|].
  set (n := pg_mblen (c :: s)) in *.
  assert (Hd : (length (drop (Z.to_nat n) (c :: s)) <= fuel)%nat)
    by (rewrite length_drop; simpl in *; lia).
  destruct (IH fuel Hd) as (ts & Hw & He).
  cbn [encode_loop]. fold n.
  destruct ((n =? 1) && plain un c) eqn:Hp.
  - apply andb_true_iff in Hp as [Hn1%Z.eqb_eq Hp].
    rewrite Hn1 in Hw, He. change (Z.to_nat 1) with 1%nat in *.
    rewrite He. exists ([c] :: ts). split; [|done].
    constructor; [by left|done].
  - rewrite (proj2 (Z.ltb_ge _ _)) by lia. rewrite He.
    exists (map percent (take (Z.to_nat n) (c :: s)) ++ ts). split.
    + rewrite <- (take_drop (Z.to_nat n) (c :: s)) at 1.
      apply Forall2_app; [apply flat_map_percent_written|done].
    + simpl. by rewrite concat_app, flat_map_concat_map.
Qed.

Lemma hex_byte_percent b : byte_ok b →
  hex_byte (nth (Z.to_nat (Z.land (Z.shiftr b 4) 15)) hex_chars 0)
           (nth (Z.to_nat (Z.land b 15)) hex_chars 0) = Ok b.
Proof.
  intros Hb. apply ok_eqb_true.
  apply (byte_forall (λ b, ok_eqb (hex_byte (nth (Z.to_nat (Z.land (Z.shiftr b 4) 15)) hex_chars 0)
    (nth (Z.to_nat (Z.land b 15)) hex_chars 0)) b)); [by vm_compute|done].
Qed.

Lemma hex_char_not_u b : byte_ok b →
  let h := nth (Z.to_nat (Z.land (Z.shiftr b 4) 15)) hex_chars 0 in
  ((h =? 117) || (h =? 85)) = false.
Proof.
  intros Hb. apply negb_true_iff.
  apply (byte_forall (λ b, negb ((nth (Z.to_nat (Z.land (Z.shiftr b 4) 15)) hex_chars 0 =? 117)
    || (nth (Z.to_nat (Z.land (Z.shiftr b 4) 15)) hex_chars 0 =? 85)))); [by vm_compute|done].
Qed.

Lemma decode_percent un b rest fuel : byte_ok b →
  decode_loop (S fuel) un (percent b ++ rest) =
  (out ← decode_loop fuel un rest; Ok (b :: out)).
Proof.
  intros Hb. unfold percent. cbn [app decode_loop].
  cbn -[nth hex_chars hex_byte decode_loop Z.eqb]. change (37 =? 37) with true.
  cbn -[nth hex_chars hex_byte decode_loop Z.eqb].
  rewrite (hex_char_not_u b Hb). cbn -[nth hex_chars hex_byte decode_loop].
  by rewrite (hex_byte_percent b Hb).
Qed.

Lemma decode_plain un b rest fuel : plain un b = true → plain un 37 = false →
  decode_loop (S fuel) un (b :: rest) =
  (out ← decode_loop fuel un rest; Ok (b :: out)).
Proof.
  intros Hp H37. cbn [decode_loop].
  destruct (b =? 37) eqn:E; [apply Z.eqb_eq in E; congruence|]. simpl. by rewrite Hp.
Qed.

Lemma decode_written un s ts : plain un 37 = false → Forall byte_ok s →
  Forall2 (written un) s ts → ∀ fuel, (length (concat ts) <= fuel)%nat →
  decode_loop fuel un (concat ts) = Ok s.
Proof.
  intros H37 Hs Hw. revert Hs.
  induction Hw as [|b t s ts Hbt _ IH]; intros Hs fuel Hf; [by destruct fuel|].
  apply Forall_cons_1 in Hs as [Hb Hs].
  destruct Hbt as [[Hp ->]| ->].
  - destruct fuel as [|fuel]; [simpl in Hf; lia|]. simpl in Hf. cbn [concat app].
    rewrite decode_plain by done. rewrite IH by (done || lia). done.
  - destruct fuel as [|fuel]; [simpl in Hf; lia|]. rewrite concat_cons.
    rewrite decode_percent by done. simpl in Hf. rewrite IH by (done || lia). done.
Qed.

Lemma written_length un s ts : Forall2 (written un) s ts →
  (length (concat ts) <= 3 * length s)%nat.
Proof.
  induction 1 as [|b t s ts Hbt _ IH]; simpl; [lia|].
  rewrite length_app. destruct Hbt as [[_ ->]| ->]; simpl in *; lia.
Qed.

Lemma roundtrip un s : plain un 37 = false → Forall byte_ok s → mb_text s →
  ∃ e, encode s un = Ok e ∧ decode e un = Ok s ∧ (length e <= 3 * length s)%nat.
Proof.
  intros H37 Hb Hs.
  destruct (encode_loop_written un s Hs (length s)) as (ts & Hw & He); [lia|].
  exists (concat ts). split; [done|]. split; [|by eapply written_length].
  by apply (decode_written un s ts).
Qed.

(** What the code relies on of PostgreSQL's UTF-8 functions: a code point
    takes at most four bytes, and [pg_utf_mblen] does not claim more bytes
    than [unicode_to_utf8] wrote. *)
Definition utf8_len_ok : Prop := ∀ u,
  (length (unicode_to_utf8 u) <= 4)%nat ∧
  pg_utf_mblen (unicode_to_utf8 u) <= Z.of_nat (length (unicode_to_utf8 u)).

Lemma strncpy_length src n : (n <= length src)%nat →
  safe (λ w, length w = n) (strncpy src n).
Proof.
  revert n; induction src as [|b src IH]; intros [|n] Hn; simpl in *; try done; [lia|].
  apply safe_if; intros _; [simpl; by rewrite length_replicate|].
  eapply safe_bind; [apply IH; lia|]. intros w Hw. simpl. by rewrite Hw.
Qed.

Lemma get_hex_safe b : safe (λ _, True) (get_hex b).
Proof. unfold get_hex. by apply safe_if. Qed.

Lemma hex_byte_safe h l : safe (λ _, True) (hex_byte h l).
Proof.
  unfold hex_byte. eapply safe_bind; [apply get_hex_safe|]. intros a _.
  eapply safe_bind; [apply get_hex_safe|]. done.
Qed.

Lemma char_at_safe rem k : (k < length rem)%nat → safe (λ _, True) (char_at rem k).
Proof. intros Hk. unfold char_at. by destruct (lookup_lt_is_Some_2 rem k Hk) as [b ->]. Qed.

Lemma hex_at_safe rem k : (S k < length rem)%nat → safe (λ _, True) (hex_at rem k).
Proof.
  intros Hk. unfold hex_at. eapply safe_bind; [apply char_at_safe; lia|]. intros h _.
  eapply safe_bind; [by apply char_at_safe|]. intros l _. apply hex_byte_safe.
Qed.

Lemma decode_loop_safe un : utf8_len_ok → ∀ fuel rem, (length rem <= fuel)%nat →
  safe (λ t, (length t <= length rem)%nat) (decode_loop fuel un rem).
Proof.
  intros Hutf. induction fuel as [|fuel IH]; intros rem Hf.
  { destruct rem; [done|simpl in Hf; lia]. }
  destruct rem as [|c rest]; [simpl; lia|]. cbn [decode_loop].
  set (rem := c :: rest) in *.
  assert (Hr : length rem = S (length rest)) by done.
  apply safe_if; intros _; [apply safe_if; intros _; [|done]|].
  { eapply safe_bind; [apply IH; rewrite length_drop; lia|].
    intros t Ht. rewrite length_drop in Ht. simpl in *. lia. }
  apply safe_if; intros H1; [done|]. apply Nat.leb_gt in H1.
  eapply safe_bind; [by apply char_at_safe|]. intros x _. apply safe_if; intros _.
  - apply safe_if; intros H6; [done|]. apply Nat.ltb_ge in H6.
    eapply safe_bind; [apply hex_at_safe; lia|]. intros b1 _.
    eapply safe_bind; [apply hex_at_safe; lia|]. intros b2 _.
    apply (safe_bind (λ p, (6 <= snd p <= length rem)%nat)).
    { apply safe_if; intros _; [|simpl; lia].
      apply safe_if; intros H10; [done|]. apply Nat.ltb_ge in H10.
      eapply safe_bind; [apply hex_at_safe; lia|]. intros b1' _.
      eapply safe_bind; [apply hex_at_safe; lia|]. intros b2' _.
      apply safe_if; intros _; [done|]. simpl. lia. }
    intros [u used] Hused. destruct (Hutf u) as [H4 Hmb].
    eapply safe_bind; [apply strncpy_length; lia|]. intros w Hw. simpl in Hw.
    eapply safe_bind; [apply IH; rewrite length_drop; simpl in *; lia|].
    intros t Ht. rewrite length_drop in Ht. simpl in *. rewrite length_app. lia.
  - apply safe_if; intros H3; [done|]. apply Nat.ltb_ge in H3.
    eapply safe_bind; [apply hex_at_safe; lia|]. intros b _.
    eapply safe_bind; [apply IH; rewrite length_drop; simpl in *; lia|].
    intros t Ht. rewrite length_drop in Ht. simpl in *. lia.
Qed.

(** One iteration on an escape of one unit, and on a surrogate pair. *)
Definition write_code_point (fuel : nat) (un : list Z) (u : Z) (rest : list Z) :=
  w ← strncpy (unicode_to_utf8 u) (Z.to_nat (pg_utf_mblen (unicode_to_utf8 u)));
  out ← decode_loop fuel un rest;
  Ok (w ++ out).

Lemma decode_one_unit fuel un d1 d2 d3 d4 rest b1 b2 c1 :
  hex_byte d1 d2 = Ok b1 → hex_byte d3 d4 = Ok b2 → Z.lor b2 (Z.shiftl b1 8) = c1 →
  ¬ (55296 <= c1 <= 56319) →
  decode_loop (S fuel) un (37 :: 117 :: d1 :: d2 :: d3 :: d4 :: rest) =
  write_code_point fuel un c1 rest.
Proof.
  intros H1 H2 H3 Hc. cbn -[hex_byte strncpy Z.shiftl Z.lor Z.leb].
  rewrite H1, H2. cbn -[strncpy Z.shiftl Z.lor Z.leb]. rewrite H3.
  by replace ((55296 <=? c1) && (c1 <=? 56319)) with false by lia.
Qed.

Lemma decode_pair fuel un d1 d2 d3 d4 e1 e2 e3 e4 rest b1 b2 b3 b4 c1 c2 :
  hex_byte d1 d2 = Ok b1 → hex_byte d3 d4 = Ok b2 → Z.lor b2 (Z.shiftl b1 8) = c1 →
  hex_byte e1 e2 = Ok b3 → hex_byte e3 e4 = Ok b4 → Z.lor b4 (Z.shiftl b3 8) = c2 →
  55296 <= c1 <= 56319 → 56320 <= c2 <= 57343 →
  decode_loop (S fuel) un
    (37 :: 117 :: d1 :: d2 :: d3 :: d4 :: e1 :: e2 :: e3 :: e4 :: rest) =
  write_code_point fuel un (decode_utf16_pair c1 c2) rest.
Proof.
  intros H1 H2 H3 G1 G2 G3 Hc1 Hc2.
  cbn -[hex_byte strncpy Z.shiftl Z.lor Z.leb decode_utf16_pair].
  rewrite H1, H2. cbn -[hex_byte strncpy Z.shiftl Z.lor Z.leb decode_utf16_pair].
  rewrite H3. replace ((55296 <=? c1) && (c1 <=? 56319)) with true by lia.
  rewrite G1, G2. cbn -[strncpy Z.shiftl Z.lor Z.leb decode_utf16_pair].
  rewrite G3. by replace ((56320 <=? c2) && (c2 <=? 57343)) with true by lia.
Qed.

Lemma write_code_point_all fuel un u : 0 ∉ unicode_to_utf8 u →
  pg_utf_mblen (unicode_to_utf8 u) = Z.of_nat (length (unicode_to_utf8 u)) →
  write_code_point fuel un u [] = Ok (unicode_to_utf8 u).
Proof.
  intros H0 Hl. unfold write_code_point. rewrite Hl, Nat2Z.id, strncpy_all by done.
  destruct fuel; simpl; by rewrite app_nil_r.
Qed.

Lemma written_charset un s ts : Forall byte_ok s → Forall2 (written un) s ts →
  Forall (λ b, plain un b = true ∨ b = 37 ∨ b ∈ hex_chars) (concat ts).
Proof.
  intros Hs Hw. revert Hs. induction Hw as [|b t s ts Hbt _ IH]; intros Hs; [constructor|].
  apply Forall_cons_1 in Hs as [Hb Hs]. simpl. apply Forall_app. split; [|auto].
  assert (Hhex : ∀ z, nth (Z.to_nat (Z.land z 15)) hex_chars 0 ∈ hex_chars).
  { intros z. apply list_elem_of_In, nth_In. change 15 with (Z.ones 4).
    rewrite Z.land_ones by done. pose proof (Z.mod_pos_bound z (2 ^ 4)).
    change (length hex_chars) with 16%nat. lia. }
  destruct Hbt as [[Hp ->]| ->]; unfold percent.
  - constructor; [by left|constructor].
  - constructor; [by right; left|].
    constructor; [right; right; apply Hhex|].
    constructor; [right; right; apply Hhex|constructor].
Qed.
End Text.

(** The escape [%uHHHH] (one UTF-16 unit) or [%uHHHHHHHH] (a surrogate pair)
    of a code point. *)
Definition hex4 (c : Z) : list Z :=
  map (λ k, nth (Z.to_nat (Z.land (Z.shiftr c k) 15)) hex_chars 0) [12; 8; 4; 0].

Definition utf16_escape (u : Z) : list Z :=
  [37; 117] ++
  (if u <? 65536 then hex4 u
   else hex4 (55296 + Z.shiftr (u - 65536) 10) ++ hex4 (56320 + Z.land (u - 65536) 1023)).

Lemma land_15 z : Z.land z 15 = z mod 16.
Proof. change 15 with (Z.ones 4). by rewrite Z.land_ones. Qed.

Lemma land_1023 z : Z.land z 1023 = z mod 1024.
Proof. change 1023 with (Z.ones 10). by rewrite Z.land_ones. Qed.

Lemma hex4_bytes c : 0 <= c < 65536 →
  ∃ d1 d2 d3 d4, hex4 c = [d1; d2; d3; d4] ∧
    hex_byte d1 d2 = Ok (Z.shiftr c 8) ∧ hex_byte d3 d4 = Ok (Z.land c 255) ∧
    Z.lor (Z.land c 255) (Z.shiftl (Z.shiftr c 8) 8) = c.
Proof.
  intros Hc. unfold hex4. cbn [map]. repeat eexists.
  - rewrite <- (hex_byte_percent (Z.shiftr c 8)).
    + rewrite Z.shiftr_shiftr by done. done.
    + rewrite Z.shiftr_div_pow2 by done. unfold byte_ok. change (2 ^ 8) with 256.
      split; [apply Z.div_pos; lia|apply Z.div_lt_upper_bound; lia].
  - rewrite <- (hex_byte_percent (Z.land c 255)).
    + f_equal; f_equal; f_equal.
      * rewrite land_255, !land_15, !Z.shiftr_div_pow2 by done. change (2 ^ 4) with 16.
        change 256 with (16 * 16). rewrite (Z.rem_mul_r c 16 16) by lia.
        rewrite Z.add_comm, Z.mul_comm, Z.div_add_l by lia.
        rewrite (Z.div_small (c mod 16)) by (apply Z.mod_pos_bound; lia).
        by rewrite Z.add_0_r, Z.mod_mod.
      * rewrite land_255, !land_15, Z.shiftr_0_r.
        rewrite Z.mod_mod_divide; [done|by exists 16].
    + rewrite land_255. apply Z.mod_pos_bound. lia.
  - rewrite Z.lor_comm, lor_shiftl_add by (rewrite ?land_255; try apply Z.mod_pos_bound; lia).
    rewrite land_255, Z.shiftr_div_pow2 by done. change (2 ^ 8) with 256.
    rewrite Z.mul_comm. symmetry. apply Z.div_mod. lia.
Qed.

Lemma surrogates_range v : 0 <= v < 1048576 →
  (0 <= Z.shiftr v 10 < 1024) ∧ (0 <= Z.land v 1023 < 1024).
Proof.
  intros Hv. rewrite land_1023, Z.shiftr_div_pow2 by done. change (2 ^ 10) with 1024.
  split; [|apply Z.mod_pos_bound; lia].
  split; [apply Z.div_pos; lia|apply Z.div_lt_upper_bound; lia].
Qed.

Lemma decode_utf16_pair_surrogates v : 0 <= v < 1048576 →
  decode_utf16_pair (55296 + Z.shiftr v 10) (56320 + Z.land v 1023) = 65536 + v.
Proof.
  intros Hv. unfold decode_utf16_pair.
  rewrite !land_1023, Z.shiftr_div_pow2, Z.shiftl_mul_pow2 by done. change (2 ^ 10) with 1024.
  assert (0 <= v / 1024 < 1024)
    by (split; [apply Z.div_pos; lia|apply Z.div_lt_upper_bound; lia]).
  pose proof (Z.mod_pos_bound v 1024 ltac:(lia)).
  replace (55296 + v / 1024) with (v / 1024 + 54 * 1024) by lia.
  replace (56320 + v mod 1024) with (v mod 1024 + 55 * 1024) by lia.
  rewrite !Z_mod_plus_full, Z.mod_mod by lia. rewrite (Z.mod_small (v / 1024) 1024) by done.
  rewrite (wrap_u_id 32 (65536 + _)) by (unfold in_u; lia).
  pose proof (Z.div_mod v 1024). rewrite wrap_u_id; unfold in_u; lia.
Qed.

(** C37. [url_decode] undoes [url_encode] and [uri_decode] undoes
    [uri_encode]: on every text that is valid in the database encoding the
    encoder returns, writes at most [3 * len] bytes (the size it allocates),
    and the decoder gives the text back. *)
Theorem url_uri_roundtrip pg_mblen unicode_to_utf8 pg_utf_mblen s :
  Forall byte_ok s → mb_text pg_mblen s →
  (∃ e, url_encode pg_mblen s = Ok e ∧ (length e <= 3 * length s)%nat ∧
        url_decode unicode_to_utf8 pg_utf_mblen e = Ok s) ∧
  (∃ e, uri_encode pg_mblen s = Ok e ∧ (length e <= 3 * length s)%nat ∧
        uri_decode unicode_to_utf8 pg_utf_mblen e = Ok s).
Proof.
  intros Hb Hs. split.
  - destruct (roundtrip pg_mblen unicode_to_utf8 pg_utf_mblen url_unreserved s)
      as (e & He & Hd & Hl); eauto.
  - destruct (roundtrip pg_mblen unicode_to_utf8 pg_utf_mblen uri_unreserved s)
      as (e & He & Hd & Hl); eauto.
Qed.

Lemma url_uri_roundtrip_witness :
  ∃ e, url_encode (λ _, 1) (str_bytes "50% off & more") = Ok e ∧
       url_decode (λ u, [u]) (λ _, 1) e = Ok (str_bytes "50% off & more").
Proof.
  edestruct (url_uri_roundtrip (λ _, 1) (λ u, [u]) (λ _, 1) (str_bytes "50% off & more"))
    as [(e & He & _ & Hd) _].
  - by_decide.
  - repeat (apply mb_char; [done|simpl; lia|]; simpl). apply mb_nil.
  - exists e. split; assumption.
Defined.

(** The decoders are memory safe and terminate: on any bytes whatever,
    [url_decode] and [uri_decode] either report an error or return a text no
    longer than the input, which is the size of the buffer they allocate;
    no byte is read past the input. *)
Theorem decode_safe unicode_to_utf8 pg_utf_mblen un s :
  utf8_len_ok unicode_to_utf8 pg_utf_mblen →
  safe (λ t, (length t <= length s)%nat) (decode unicode_to_utf8 pg_utf_mblen s un).
Proof. intros H. by apply decode_loop_safe. Qed.

Lemma decode_safe_witness :
  safe (λ t, (length t <= 9)%nat)
    (decode (λ u, [u]) (λ _, 1) (str_bytes "a%u0041%4") url_unreserved).
Proof. apply (decode_safe (λ u, [u]) (λ _, 1)). intros u. simpl. lia. Defined.

(** The output of the encoders is made of unreserved characters, [%] and
    upper-case hexadecimal digits only. *)
Theorem encode_charset pg_mblen un s :
  Forall byte_ok s → mb_text pg_mblen s →
  ∃ e, encode pg_mblen s un = Ok e ∧
       Forall (λ b, plain un b = true ∨ b = 37 ∨ b ∈ hex_chars) e.
Proof.
  intros Hb Hs.
  destruct (encode_loop_written pg_mblen un s Hs (length s)) as (ts & Hw & He); [lia|].
  exists (concat ts). split; [done|]. by eapply written_charset.
Qed.

Lemma encode_charset_witness :
  ∃ e, encode (λ _, 1) (str_bytes "a b") url_unreserved = Ok e ∧
       Forall (λ b, plain url_unreserved b = true ∨ b = 37 ∨ b ∈ hex_chars) e.
Proof.
  apply encode_charset.
  - by_decide.
  - repeat (apply mb_char; [done|simpl; lia|]; simpl). apply mb_nil.
Defined.

(** The [%u] escapes: for every Unicode scalar value the decoder turns
    its UTF-16 escape (one unit, or a surrogate pair) into the UTF-8 bytes
    PostgreSQL gives for that code point. *)
Theorem decode_utf16_escape unicode_to_utf8 pg_utf_mblen un u :
  0 <= u < 1114112 → ¬ (55296 <= u < 57344) →
  0 ∉ unicode_to_utf8 u →
  pg_utf_mblen (unicode_to_utf8 u) = Z.of_nat (length (unicode_to_utf8 u)) →
  decode unicode_to_utf8 pg_utf_mblen (utf16_escape u) un = Ok (unicode_to_utf8 u).
Proof.
  intros Hu Hs H0 Hl.
  unfold decode, utf16_escape. destruct (u <? 65536) eqn:E.
  - apply Z.ltb_lt in E. destruct (hex4_bytes u) as (d1 & d2 & d3 & d4 & -> & H1 & H2 & H3); [lia|].
    cbn [app length]. erewrite decode_one_unit by (exact H1 || exact H2 || exact H3 || lia).
    by apply write_code_point_all.
  - apply Z.ltb_ge in E. assert (Hv : 0 <= u - 65536 < 1048576) by lia.
    pose proof (surrogates_range _ Hv) as [Hsh Hlo].
    destruct (hex4_bytes (55296 + Z.shiftr (u - 65536) 10))
      as (d1 & d2 & d3 & d4 & -> & H1 & H2 & H3); [lia|].
    destruct (hex4_bytes (56320 + Z.land (u - 65536) 1023))
      as (e1 & e2 & e3 & e4 & -> & G1 & G2 & G3); [lia|].
    cbn [app length]. rewrite (decode_pair _ _ _ _ _ _ _ _ _ _ _ _ _ _ _ _ _ _ _ H1 H2 H3 G1 G2 G3)
      by lia.
    rewrite decode_utf16_pair_surrogates by done.
    replace (65536 + (u - 65536)) with u by lia. by apply write_code_point_all.
Qed.

Lemma decode_utf16_escape_witness :
  decode (λ u, [240; 159; 152; 128]) (λ _, 4) (utf16_escape 128512) url_unreserved
  = Ok [240; 159; 152; 128].
Proof.
  apply (decode_utf16_escape (λ u, [240; 159; 152; 128]) (λ _, 4) url_unreserved 128512).
  - lia.
  - lia.
  - by_decide.
  - reflexivity.
Defined.
End Urlencode.
