(* ===== verification/Uuidv7.v ===== *)
(** * UUID version 7: [omni_polyfill/uuidv7.c]

    The generator with its per-backend clock ([previous_ns], the state of the
    monad), the shifted generator, and the extraction functions.  The clock,
    the random bytes ([pg_strong_random]), [timestamptz_pl_interval] and the
    Julian-date constants of PostgreSQL are parameters.  [int64] arithmetic
    wraps. *)

From stdpp Require Import base tactics list strings numbers sorting.
From Stdlib Require Import ZArith Lia.
From S2P Require Import Prelude.

Local Open Scope Z_scope.

Module Uuidv7.

Definition NS_PER_S : Z := 1000000000.
Definition NS_PER_MS : Z := 1000000.
Definition NS_PER_US : Z := 1000.
Definition SUBMS_BITS : Z := 12.
Definition UUID_LEN : nat := 16.

(** The two builds: 10 bits on Darwin and MSVC, 12 elsewhere. *)
Inductive platform := Bits10 | Bits12.

Definition SUBMS_MINIMAL_STEP_BITS (p : platform) : Z :=
  match p with Bits10 => 10 | Bits12 => 12 end.

Definition SUBMS_MINIMAL_STEP_NS (p : platform) : Z :=
  Z.quot NS_PER_MS (Z.shiftl 1 (SUBMS_MINIMAL_STEP_BITS p)) + 1.

Definition data (uuid : list Z) (i : nat) : Z := nth i uuid 0.

(** Set the given UUID version and the variant bits *)
Definition uuid_set_version (version : Z) (uuid : list Z) : list Z :=
  let uuid := <[6%nat := wrap_u 8 (Z.lor (Z.land (data uuid 6) 15) (Z.shiftl version 4))]> uuid in
  <[8%nat := wrap_u 8 (Z.lor (Z.land (data uuid 8) 63) 128)]> uuid.

(** What [clock_gettime] (or [gettimeofday]) stored, in nanoseconds. *)
Record clock := Clock { tv_sec : Z; tv_nsec : Z }.
Definition clock_ns (t : clock) : Z := wrap_s 64 (tv_sec t * NS_PER_S + tv_nsec t).

(** The state is the static [previous_ns]. *)
Definition get_real_time_ns_ascending (p : platform) (t : clock) : M Z Z := λ previous_ns,
  let ns := clock_ns t in
  let least := wrap_s 64 (previous_ns + SUBMS_MINIMAL_STEP_NS p) in
  let ns := if ns <=? least then least else ns in
  (Ok ns, ns).

(** [random]: the eight bytes [pg_strong_random] filled in, [None] when it
    failed. *)
Definition generate_uuidv7 (p : platform) (ns : Z) (random : option (list Z)) : result (list Z) :=
  let unix_ts_ms := Z.quot ns NS_PER_MS in
  let time := map (λ k, wrap_u 8 (Z.shiftr unix_ts_ms k)) [40; 32; 24; 16; 8; 0] in
  let increased_clock_precision :=
    wrap_s 32 (Z.quot (Z.rem ns NS_PER_MS * Z.shiftl 1 SUBMS_BITS) NS_PER_MS) in
  let uuid := time ++ [wrap_u 8 (Z.shiftr increased_clock_precision 8);
                       wrap_u 8 increased_clock_precision] in
  match random with
  | None => raise "could not generate random values"
  | Some r =>
      let uuid := uuid ++ r in
      let uuid := match p with
                  | Bits10 => <[7%nat := Z.lxor (data uuid 7) (Z.shiftr (data uuid 8) 6)]> uuid
                  | Bits12 => uuid
                  end in
      Ok (uuid_set_version 7 uuid)
  end.

Definition uuidv7_ (p : platform) (t : clock) (random : option (list Z)) : M Z (list Z) :=
  ns ← get_real_time_ns_ascending p t;
  lift_r (generate_uuidv7 p ns random).

(** The bytes [uuid_cmp] compares with [memcmp]. *)
Fixpoint memcmp_lt (a b : list Z) : bool :=
  match a, b with
  | x :: a', y :: b' => (x <? y) || ((x =? y) && memcmp_lt a' b')
  | _, _ => false
  end.

Section Timestamps.
(** PostgreSQL's Julian dates and units, and its interval addition. *)
Variables POSTGRES_EPOCH_JDATE UNIX_EPOCH_JDATE SECS_PER_DAY USECS_PER_SEC : Z.
Variable Interval : Type.
Variable timestamptz_pl_interval : Z → Interval → result Z.

Definition GREGORIAN_EPOCH_JDATE : Z := 2299161.

Definition unix_to_postgres_us : Z :=
  (POSTGRES_EPOCH_JDATE - UNIX_EPOCH_JDATE) * SECS_PER_DAY * USECS_PER_SEC.

Definition uuidv7_interval_ (p : platform) (shift : Interval) (t : clock)
    (random : option (list Z)) : M Z (list Z) :=
  ns ← get_real_time_ns_ascending p t;
  let ts := wrap_s 64 (Z.quot ns NS_PER_US - unix_to_postgres_us) in
  ts ← lift_r (timestamptz_pl_interval ts shift);
  let ns := wrap_s 64 ((ts + unix_to_postgres_us) * NS_PER_US + Z.rem ns NS_PER_US) in
  lift_r (generate_uuidv7 p ns random).

(** [None] is SQL NULL. *)
Definition uuid_extract_timestamp_ (uuid : list Z) : option Z :=
  if negb (Z.land (data uuid 8) 192 =? 128) then None else
  let version := Z.shiftr (data uuid 6) 4 in
  if version =? 1 then
    let tms := wrap_u 64 (Z.shiftl (data uuid 0) 24 + Z.shiftl (data uuid 1) 16 +
                          Z.shiftl (data uuid 2) 8 + data uuid 3 + Z.shiftl (data uuid 4) 40 +
                          Z.shiftl (data uuid 5) 32 + Z.shiftl (Z.land (data uuid 6) 15) 56 +
                          Z.shiftl (data uuid 7) 48) in
    Some (wrap_s 64 (Z.quot tms 10 -
      (POSTGRES_EPOCH_JDATE - GREGORIAN_EPOCH_JDATE) * SECS_PER_DAY * USECS_PER_SEC))
  else if version =? 7 then
    let tms := wrap_u 64 (data uuid 5 + Z.shiftl (data uuid 4) 8 + Z.shiftl (data uuid 3) 16 +
                          Z.shiftl (data uuid 2) 24 + Z.shiftl (data uuid 1) 32 +
                          Z.shiftl (data uuid 0) 40) in
    Some (wrap_s 64 (wrap_s 64 (tms * NS_PER_US) - unix_to_postgres_us))
  else None.
End Timestamps.

Definition uuid_extract_version_ (uuid : list Z) : option Z :=
  if negb (Z.land (data uuid 8) 192 =? 128) then None
  else Some (wrap_u 16 (Z.shiftr (data uuid 6) 4)).

(** ** The layout of a generated identifier *)

Definition ms_of (ns : Z) : Z := ns / NS_PER_MS.
Definition prec_of (ns : Z) : Z := (ns mod NS_PER_MS) * 4096 / NS_PER_MS.

Definition ns_ok (ns : Z) : Prop := 0 <= ns < 2 ^ 63.

Lemma ms_of_bound ns : ns_ok ns → 0 <= ms_of ns < 2 ^ 48.
Proof.
  intros [H1 H2]. unfold ms_of, NS_PER_MS. split; [apply Z.div_pos; lia|].
  apply Z.div_lt_upper_bound; lia.
Qed.

Lemma prec_of_bound ns : 0 <= prec_of ns < 4096.
Proof.
  unfold prec_of, NS_PER_MS. pose proof (Z.mod_pos_bound ns 1000000).
  split; [apply Z.div_pos; lia|apply Z.div_lt_upper_bound; lia].
Qed.

Lemma time_bytes ms : map (λ k, wrap_u 8 (Z.shiftr ms k)) [40; 32; 24; 16; 8; 0] = be_bytes 6 ms.
Proof. cbn [map be_bytes]. by rewrite !land_255. Qed.

Lemma lxor_low x y : 0 <= x < 256 → 0 <= y < 4 →
  Z.lxor x y / 4 = x / 4 ∧ 0 <= Z.lxor x y < 256.
Proof.
  intros Hx Hy.
  assert (C : forallb (λ y, forallb (λ x, (Z.lxor x y / 4 =? x / 4) && (0 <=? Z.lxor x y)
    && (Z.lxor x y <? 256)) (seqZ 0 256)) [0; 1; 2; 3] = true) by by vm_compute.
  rewrite forallb_forall in C. specialize (C y).
  assert (In y [0; 1; 2; 3]) as Hy' by (simpl; lia). apply C in Hy'.
  pose proof (byte_forall _ Hy' x Hx) as G. cbv beta in G. lia.
Qed.

Lemma shiftr6 x : byte_ok x → 0 <= Z.shiftr x 6 < 4.
Proof.
  intros [H1 H2]. rewrite Z.shiftr_div_pow2 by done. change (2 ^ 6) with 64.
  split; [apply Z.div_pos; lia|apply Z.div_lt_upper_bound; lia].
Qed.

(** The version nibble over a 4-bit value, and the variant bits. *)
Lemma version_byte h : 0 <= h < 16 → wrap_u 8 (Z.lor (Z.land h 15) (Z.shiftl 7 4)) = 112 + h.
Proof.
  intros Hh. apply Z.eqb_eq.
  assert (C : forallb (λ h, wrap_u 8 (Z.lor (Z.land h 15) (Z.shiftl 7 4)) =? 112 + h)
    (seqZ 0 16) = true) by by vm_compute.
  rewrite forallb_forall in C. apply C. apply list_elem_of_In, elem_of_seqZ. lia.
Qed.

Lemma variant_byte b : byte_ok b →
  wrap_u 8 (Z.lor (Z.land b 63) 128) = 128 + b mod 64.
Proof.
  intros Hb. apply Z.eqb_eq.
  by apply (byte_forall (λ b, wrap_u 8 (Z.lor (Z.land b 63) 128) =? 128 + b mod 64)); [by vm_compute|].
Qed.

Lemma generate_shape p ns r0 r : ns_ok ns → byte_ok r0 →
  ∃ low, generate_uuidv7 p ns (Some (r0 :: r)) =
         Ok (be_bytes 6 (ms_of ns) ++ [112 + prec_of ns / 256; low; 128 + r0 mod 64] ++ r) ∧
    0 <= low < 256 ∧ low / 4 = prec_of ns mod 256 / 4 ∧
    (p = Bits12 → low = prec_of ns mod 256).
Proof.
  intros Hns Hr. pose proof (prec_of_bound ns) as Hp.
  pose proof (Z.mod_pos_bound (prec_of ns) 256 ltac:(lia)).
  pose proof (shiftr6 r0 Hr).
  destruct (lxor_low (prec_of ns mod 256) (Z.shiftr r0 6)) as [Hx1 Hx2]; [done..|].
  assert (Hprec : wrap_s 32 (Z.quot (Z.rem ns NS_PER_MS * Z.shiftl 1 SUBMS_BITS) NS_PER_MS)
    = prec_of ns).
  { unfold ns_ok in Hns. rewrite Z.rem_mod_nonneg by (unfold NS_PER_MS; lia).
    pose proof (Z.mod_pos_bound ns NS_PER_MS ltac:(unfold NS_PER_MS; lia)).
    change (Z.shiftl 1 SUBMS_BITS) with 4096.
    rewrite Z.quot_div_nonneg by (unfold NS_PER_MS in *; lia).
    apply wrap_s_id; [done|]. change (in_s 32 (prec_of ns)). unfold in_s; lia. }
  assert (Hms : Z.quot ns NS_PER_MS = ms_of ns)
    by (unfold ns_ok in Hns; apply Z.quot_div_nonneg; unfold NS_PER_MS; lia).
  assert (Hhi : wrap_u 8 (Z.lor (Z.land (wrap_u 8 (Z.shiftr (prec_of ns) 8)) 15) (Z.shiftl 7 4))
    = 112 + prec_of ns / 256).
  { rewrite Z.shiftr_div_pow2 by done. change (2 ^ 8) with 256.
    assert (0 <= prec_of ns / 256 < 16)
      by (split; [apply Z.div_pos; lia|apply Z.div_lt_upper_bound; lia]).
    rewrite (wrap_u_id 8 (prec_of ns / 256)) by (unfold in_u; lia). by apply version_byte. }
  unfold generate_uuidv7. rewrite Hprec, Hms, time_bytes. cbn [be_bytes].
  exists (match p with Bits10 => Z.lxor (prec_of ns mod 256) (Z.shiftr r0 6)
                     | Bits12 => prec_of ns mod 256 end).
  split; [|destruct p; (split; [lia|split; [lia|done]])].
  unfold uuid_set_version, data.
  destruct p; cbn [app nth insert list_insert]; rewrite Hhi, variant_byte by done; done.
Qed.

(** [uuid_of p ns u]: [u] is an identifier generated for the instant [ns]. *)
Definition uuid_of (p : platform) (ns : Z) (u : list Z) : Prop :=
  ns_ok ns ∧ ∃ low rest,
    u = (be_bytes 6 (ms_of ns) ++ [112 + prec_of ns / 256; low]) ++ rest ∧
    0 <= low < 256 ∧ low / 4 = prec_of ns mod 256 / 4 ∧
    (p = Bits12 → low = prec_of ns mod 256).

Lemma generate_uuid_of p ns r0 r : ns_ok ns → byte_ok r0 →
  ∃ u, generate_uuidv7 p ns (Some (r0 :: r)) = Ok u ∧ uuid_of p ns u.
Proof.
  intros Hns Hr. destruct (generate_shape p ns r0 r Hns Hr) as (low & -> & H).
  eexists; split; [done|]. split; [done|]. exists low, (128 + r0 mod 64 :: r).
  split; [|done]. rewrite <- app_assoc. done.
Qed.

Lemma memcmp_lt_prefix p1 p2 r1 r2 : length p1 = length p2 →
  Forall byte_ok p1 → Forall byte_ok p2 → be_val p1 < be_val p2 →
  memcmp_lt (p1 ++ r1) (p2 ++ r2) = true.
Proof.
  revert p2. induction p1 as [|x p1 IH]; intros [|y p2] Hl H1 H2 Hlt; simpl in *; try lia.
  apply Forall_cons_1 in H1 as [Hx H1]. apply Forall_cons_1 in H2 as [Hy H2].
  injection Hl as Hl.
  pose proof (be_val_bound p1 H1). pose proof (be_val_bound p2 H2). rewrite Hl in *.
  rewrite !lor_shiftl_add in Hlt by lia. set (q := 2 ^ (8 * Z.of_nat (length p2))) in *.
  destruct (Z.lt_total x y) as [?|[->|?]].
  - by rewrite (proj2 (Z.ltb_lt x y)).
  - rewrite Z.eqb_refl, IH by (done || nia). by rewrite orb_true_r.
  - exfalso. nia.
Qed.

(** The time of an identifier, in units of 1/4096 ms, between the instants
    it stands for. *)
Lemma ticks_bounds ns :
  (ms_of ns * 4096 + prec_of ns) * NS_PER_MS <= ns * 4096 <
  (ms_of ns * 4096 + prec_of ns + 1) * NS_PER_MS.
Proof.
  unfold ms_of, prec_of, NS_PER_MS.
  pose proof (Z.div_mod ns 1000000 ltac:(lia)).
  pose proof (Z.div_mod (ns mod 1000000 * 4096) 1000000 ltac:(lia)).
  pose proof (Z.mod_pos_bound (ns mod 1000000 * 4096) 1000000 ltac:(lia)). lia.
Qed.

Lemma be_val_pair a b : 0 <= b < 256 → be_val [a; b] = a * 256 + b.
Proof.
  intros Hb. cbn [be_val length]. change (8 * Z.of_nat 1) with 8. change (8 * Z.of_nat 0) with 0.
  rewrite Z.lor_0_r, Z.shiftl_0_r. by apply (lor_shiftl_add a b 8).
Qed.

Lemma uuid_of_lt p n1 n2 u1 u2 :
  uuid_of p n1 u1 → uuid_of p n2 u2 → n1 + SUBMS_MINIMAL_STEP_NS p <= n2 →
  memcmp_lt u1 u2 = true.
Proof.
  intros (Hn1 & l1 & r1 & -> & Hl1 & Hq1 & He1) (Hn2 & l2 & r2 & -> & Hl2 & Hq2 & He2) Hstep.
  pose proof (ms_of_bound n1 Hn1). pose proof (ms_of_bound n2 Hn2).
  pose proof (prec_of_bound n1). pose proof (prec_of_bound n2).
  pose proof (ticks_bounds n1) as T1. pose proof (ticks_bounds n2) as T2.
  assert (B : ∀ n l, 0 <= prec_of n < 4096 → 0 <= l < 256 →
    Forall byte_ok (be_bytes 6 (ms_of n)) ∧ Forall byte_ok [112 + prec_of n / 256; l]).
  { intros n l Hp Hl. split; [apply be_bytes_ok|].
    assert (0 <= prec_of n / 256 < 16)
      by (split; [apply Z.div_pos; lia|apply Z.div_lt_upper_bound; lia]).
    repeat constructor; unfold byte_ok; lia. }
  destruct (B n1 l1) as [B1 B1']; [done..|]. destruct (B n2 l2) as [B2 B2']; [done..|].
  apply memcmp_lt_prefix; [done|by apply Forall_app_2|by apply Forall_app_2|].
  rewrite !be_val_app, !be_val_be_bytes, !(Z.mod_small (ms_of _)) by done.
  rewrite !be_val_pair by done. change (2 ^ (8 * Z.of_nat (length _))) with 65536.
  pose proof (Z.div_mod (prec_of n1) 256 ltac:(lia)).
  pose proof (Z.div_mod (prec_of n2) 256 ltac:(lia)).
  assert (Hd : ms_of n1 * 4096 + prec_of n1 + match p with Bits10 => 4 | Bits12 => 1 end
               <= ms_of n2 * 4096 + prec_of n2).
  { destruct p; [assert (n1 + 977 <= n2) by exact Hstep|assert (n1 + 245 <= n2) by exact Hstep];
      unfold NS_PER_MS in *; lia. }
  clear T1 T2 Hstep B B1 B1' B2 B2'.
  assert (Hms : ms_of n1 < ms_of n2 ∨ ms_of n1 = ms_of n2) by (destruct p; lia).
  destruct Hms as [Hms|Hms]; [div_lia|].
  destruct p; [clear He1 He2; div_lia|]. rewrite (He1 eq_refl), (He2 eq_refl). lia.
Qed.

(** A backend generating identifiers one after the other. *)
Fixpoint uuidv7_run (p : platform) (calls : list (clock * list Z)) : M Z (list (list Z)) :=
  match calls with
  | [] => mret []
  | (t, random) :: calls =>
      u ← uuidv7_ p t (Some random);
      us ← uuidv7_run p calls;
      mret (u :: us)
  end.

Lemma step_ns_small p : 0 < SUBMS_MINIMAL_STEP_NS p <= 977.
Proof. destruct p; vm_compute; split; congruence || done. Qed.

Lemma uuidv7_run_after p calls : ∀ prev horizon,
  0 <= prev <= horizon →
  Forall (λ c, clock_ns (fst c) <= horizon ∧ ∃ r0 r, snd c = r0 :: r ∧ byte_ok r0) calls →
  horizon + 977 * Z.of_nat (length calls) < 2 ^ 63 →
  ∃ us st, uuidv7_run p calls prev = (Ok us, st) ∧
    Forall (λ u, ∃ ns, prev + SUBMS_MINIMAL_STEP_NS p <= ns ∧ uuid_of p ns u) us ∧
    StronglySorted (λ a b, memcmp_lt a b = true) us.
Proof.
  pose proof (step_ns_small p) as Hs.
  induction calls as [|[t r] calls IH]; intros prev horizon Hprev Hc Hh.
  { exists [], prev. split; [done|]. split; constructor. }
  apply Forall_cons_1 in Hc as [[Ht (r0 & r' & Hr & Hr0)] Hc]. simpl in Ht, Hr, Hh. subst r.
  simpl length in Hh.
  set (least := prev + SUBMS_MINIMAL_STEP_NS p).
  set (ns := if clock_ns t <=? least then least else clock_ns t).
  assert (Hns : least <= ns <= horizon + 977) by (unfold ns, least; destruct (Z.leb_spec (clock_ns t)
    (prev + SUBMS_MINIMAL_STEP_NS p)); lia).
  assert (Hok : ns_ok ns) by (unfold ns_ok; lia).
  destruct (generate_uuid_of p ns r0 r' Hok Hr0) as (u & Hu & Hof).
  destruct (IH ns (horizon + 977)) as (us & st & Hrun & Hall & Hsort); [lia| |lia|].
  { eapply Forall_impl; [exact Hc|]. intros c [? ?]. split; [lia|done]. }
  exists (u :: us), st. split; [|split].
  - cbn [uuidv7_run]. unfold mbind, M_bind, uuidv7_, get_real_time_ns_ascending, mbind, M_bind, lift_r.
    rewrite (wrap_s_id 64 (prev + _)) by (unfold in_s; lia). fold least. fold ns.
    rewrite Hu. unfold mbind, M_bind in Hrun. rewrite Hrun. done.
  - constructor; [exists ns; split; [unfold least in *; lia|done]|].
    eapply Forall_impl; [exact Hall|]. intros v (n & ? & ?). exists n. split; [lia|done].
  - constructor; [done|]. eapply Forall_impl; [exact Hall|].
    intros v (n & ? & ?). by eapply uuid_of_lt.
Qed.

(** C38. Identifiers generated by one backend are strictly increasing in the
    order of [uuid_cmp], whatever the wall clock does (it may stand still or
    go backwards) and on both kinds of platforms, until the clock is within
    [977] ns per call of overflowing 64 bits. *)
Theorem uuidv7_monotonic p calls prev horizon :
  0 <= prev <= horizon →
  Forall (λ c, clock_ns (fst c) <= horizon ∧ ∃ r0 r, snd c = r0 :: r ∧ byte_ok r0) calls →
  horizon + 977 * Z.of_nat (length calls) < 2 ^ 63 →
  ∃ us st, uuidv7_run p calls prev = (Ok us, st) ∧ length us = length calls ∧
    StronglySorted (λ a b, memcmp_lt a b = true) us.
Proof.
  intros H1 H2 H3. destruct (uuidv7_run_after p calls prev horizon H1 H2 H3)
    as (us & st & Hr & _ & Hs).
  exists us, st. split; [done|]. split; [|done]. clear -Hr.
  revert prev us Hr. induction calls as [|[t r] calls IH]; intros prev us Hr.
  - by injection Hr as <- <-.
  - cbn [uuidv7_run] in Hr. unfold mbind, M_bind in Hr.
    destruct (uuidv7_ p t (Some r) prev) as [[u| |] s']; try done.
    destruct (uuidv7_run p calls s') as [[us'| |] s''] eqn:E; try done.
    injection Hr as <- <-. simpl. f_equal. by eapply IH.
Qed.

Lemma uuidv7_monotonic_witness :
  ∃ us st, uuidv7_run Bits12 [(Clock 1700000000 5, repeat 255 8); (Clock 1699999999 0, repeat 0 8)] 0
           = (Ok us, st) ∧ length us = 2%nat ∧ StronglySorted (λ a b, memcmp_lt a b = true) us.
Proof.
  apply (uuidv7_monotonic Bits12
    [(Clock 1700000000 5, repeat 255 8); (Clock 1699999999 0, repeat 0 8)] 0 1700000000000000005).
  - lia.
  - constructor; [|constructor; [|constructor]]; (split; [vm_compute; congruence|]).
    + exists 255, (repeat 255 7). split; [reflexivity|unfold byte_ok; lia].
    + exists 0, (repeat 0 7). split; [reflexivity|unfold byte_ok; lia].
  - vm_compute. reflexivity.
Defined.

Lemma six_bytes b0 b1 b2 b3 b4 b5 : Forall byte_ok [b1; b2; b3; b4; b5] →
  b5 + Z.shiftl b4 8 + Z.shiftl b3 16 + Z.shiftl b2 24 + Z.shiftl b1 32 + Z.shiftl b0 40
  = be_val [b0; b1; b2; b3; b4; b5].
Proof.
  intros H. rewrite !Z.shiftl_mul_pow2 by done.
  repeat (apply Forall_cons_1 in H as [? H]).
  rewrite !be_val_cons by (repeat (apply Forall_cons_2; [assumption|]); constructor).
  cbn [length be_val]. change (8 * Z.of_nat 5) with 40. change (8 * Z.of_nat 4) with 32.
  change (8 * Z.of_nat 3) with 24. change (8 * Z.of_nat 2) with 16.
  change (8 * Z.of_nat 1) with 8. change (8 * Z.of_nat 0) with 0. lia.
Qed.

(** The timestamp and the version survive generation: every identifier
    generated for an instant of the [int64] nanosecond range carries version
    7 and the RFC 9562 variant, and [uuid_extract_timestamp_] returns that
    instant truncated to milliseconds (in microseconds since the PostgreSQL
    epoch). *)
Theorem uuidv7_extract p ns r0 r pg_jdate unix_jdate secs usecs :
  ns_ok ns → byte_ok r0 →
  ∃ u, generate_uuidv7 p ns (Some (r0 :: r)) = Ok u ∧
    uuid_extract_version_ u = Some 7 ∧
    uuid_extract_timestamp_ pg_jdate unix_jdate secs usecs u =
      Some (wrap_s 64 (ns / NS_PER_MS * 1000 - (pg_jdate - unix_jdate) * secs * usecs)).
Proof.
  intros Hns Hr. destruct (generate_shape p ns r0 r Hns Hr) as (low & -> & _).
  eexists; split; [done|].
  pose proof (prec_of_bound ns). pose proof (ms_of_bound ns Hns).
  assert (H6 : Z.shiftr (112 + prec_of ns / 256) 4 = 7)
    by (rewrite Z.shiftr_div_pow2 by done; change (2 ^ 4) with 16; div_lia).
  assert (H8 : Z.land (128 + r0 mod 64) 192 = 128).
  { apply Z.eqb_eq. by apply (byte_forall (λ r0, Z.land (128 + r0 mod 64) 192 =? 128));
      [by vm_compute|]. }
  pose proof (be_val_be_bytes 6 (ms_of ns)) as Hv. rewrite Z.mod_small in Hv by done.
  pose proof (be_bytes_ok 6 (ms_of ns)) as Hb.
  cbn [be_bytes] in *. unfold uuid_extract_version_, uuid_extract_timestamp_, data.
  cbn [app nth]. rewrite H8, H6. split; [done|]. cbn [negb Z.eqb Pos.eqb].
  rewrite six_bytes by (by apply Forall_cons_1 in Hb as [_ Hb]).
  rewrite Hv, wrap_u_id by (unfold in_u; lia). f_equal. unfold NS_PER_US, unix_to_postgres_us.
  rewrite (wrap_s_id 64 (ms_of ns * 1000)) by (unfold in_s; lia). done.
Qed.

Lemma uuidv7_extract_witness :
  ∃ u, generate_uuidv7 Bits10 1700000000123456789 (Some (repeat 255 8)) = Ok u ∧
    uuid_extract_version_ u = Some 7 ∧
    uuid_extract_timestamp_ 2451545 2440588 86400 1000000 u = Some 753315200123000.
Proof.
  destruct (uuidv7_extract Bits10 1700000000123456789 255 (repeat 255 7) 2451545 2440588 86400 1000000)
    as (u & H1 & H2 & H3).
  - unfold ns_ok. lia.
  - unfold byte_ok. lia.
  - exists u. split; [exact H1|]. split; [exact H2|]. rewrite H3. reflexivity.
Defined.
End Uuidv7.
