(* ===== verification/SeqId.v ===== *)
(** * Prefixed identifiers: [omni_seq/id.h]

    The header is included once per pair of widths ([PREFIX_SIZE],
    [VAL_SIZE]) by [omni_seq.c]; the section variables are these widths in
    bits.  A C string is the list of its bytes before the NUL, SQL NULL is
    [None], and [errno], which [id_in] reads without clearing it, is the
    state of the monad.  [strtoll] and the [%d] conversions are those of the
    C library. *)

From stdpp Require Import base tactics list strings numbers.
From Stdlib Require Import ZArith Lia.
From S2P Require Import Prelude.

Local Open Scope Z_scope.

Module SeqId.

Record st := St { prefix : Z; val : Z }.

#[export] Instance st_eq_dec : EqDecision st.
Proof. solve_decision. Defined.

Definition ERANGE : Z := 34.
Definition LLONG_MAX : Z := 2 ^ 63 - 1.
Definition LLONG_MIN : Z := - 2 ^ 63.

(** ** The C library: [strchr], [strtoll] in base 10, [printf("%d")] *)

(** What follows the first [c] of the string. *)
Fixpoint strchr_after (c : Z) (s : list Z) : option (list Z) :=
  match s with
  | [] => None
  | x :: s' => if x =? c then Some s' else strchr_after c s'
  end.

Definition is_space (c : Z) : bool := (c =? 32) || ((9 <=? c) && (c <=? 13)).
Definition is_digit (c : Z) : bool := (48 <=? c) && (c <=? 57).

Fixpoint skip_space (s : list Z) : list Z :=
  match s with
  | c :: s' => if is_space c then skip_space s' else s
  | [] => []
  end.

Fixpoint scan_digits (acc : Z) (s : list Z) : Z :=
  match s with
  | c :: s' => if is_digit c then scan_digits (acc * 10 + (c - 48)) s' else acc
  | [] => acc
  end.

Definition scan_int (s : list Z) : Z :=
  match skip_space s with
  | c :: s' => if c =? 45 then - scan_digits 0 s'
               else if c =? 43 then scan_digits 0 s'
               else scan_digits 0 (c :: s')
  | [] => 0
  end.

(** The state is [errno]: set to [ERANGE] on overflow, else left alone. *)
Definition strtoll (s : list Z) : M Z Z := λ errno,
  let n := scan_int s in
  if LLONG_MAX <? n then (Ok LLONG_MAX, ERANGE)
  else if n <? LLONG_MIN then (Ok LLONG_MIN, ERANGE)
  else (Ok n, errno).

Fixpoint digits (fuel : nat) (n : Z) : list Z :=
  match fuel with
  | O => []
  | S fuel' => if n <? 10 then [48 + n] else digits fuel' (n / 10) ++ [48 + n mod 10]
  end.

(** 20 digits hold any 64-bit integer. *)
Definition print_int (n : Z) : list Z :=
  if n <? 0 then 45 :: digits 20 (- n) else digits 20 n.

Section Id.
Variables PREFIX_SIZE VAL_SIZE : Z.

Definition id_in (arg : option (list Z)) : M Z (option st) :=
  match arg with
  | None => mret None
  | Some input =>
      match strchr_after 58 input with
      | None => ereport "invalid input format"
      | Some split1 =>
          p ← strtoll input;
          errno ← get_st;
          if errno =? ERANGE then ereport "range error" else
          v ← strtoll split1;
          errno ← get_st;
          if errno =? ERANGE then ereport "range error" else
          mret (Some (St (wrap_s PREFIX_SIZE p) (wrap_s VAL_SIZE (wrap_s PREFIX_SIZE v))))
      end
  end.

Definition id_out (arg : option st) : option (list Z) :=
  match arg with
  | None => None
  | Some x => Some (print_int (prefix x) ++ [58] ++ print_int (val x))
  end.

Definition prefix_bytes : nat := Z.to_nat (PREFIX_SIZE / 8).
Definition val_bytes : nat := Z.to_nat (VAL_SIZE / 8).

(** The value read and the new [input->cursor]. *)
Definition id_recv (arg : option (list Z)) : result (option (st * nat)) :=
  match arg with
  | None => Ok None
  | Some input =>
      if negb (length input =? prefix_bytes + val_bytes)%nat
      then raise "input length is incorrect"
      else Ok (Some (St (wrap_s PREFIX_SIZE (be_val (take prefix_bytes input)))
                        (wrap_s VAL_SIZE (be_val (take val_bytes (drop prefix_bytes input)))),
                     length input))
  end.

Definition id_send (arg : option st) : option (list Z) :=
  match arg with
  | None => None
  | Some x => Some (be_bytes prefix_bytes (prefix x) ++ be_bytes val_bytes (val x))
  end.

(** Both arguments, unless one is NULL. *)
Definition strict2 {A} (f : st → st → A) (a b : option st) : option A :=
  match a, b with Some x, Some y => Some (f x y) | _, _ => None end.

Definition id_eq := strict2 (λ a b, (prefix a =? prefix b) && (val a =? val b)).
Definition id_neq := strict2 (λ a b, negb ((prefix a =? prefix b) && (val a =? val b))).
Definition id_leq := strict2 (λ a b, (prefix a <=? prefix b) && (val a <=? val b)).
Definition id_lt := strict2 (λ a b, (prefix a <? prefix b) && (val a <? val b)).
Definition id_geq := strict2 (λ a b, (prefix b <=? prefix a) && (val b <=? val a)).
Definition id_gt := strict2 (λ a b, (prefix b <? prefix a) && (val b <? val a)).

Definition id_cmp := strict2 (λ a b,
  if (prefix b <? prefix a) && (val b <? val a) then 1
  else if prefix a <? prefix b then -1
  else if val b <? val a then 1
  else if val a <? val b then -1
  else 0).

(** [nextval_oid]: PostgreSQL's sequence function. *)
Definition id_nextval (nextval_oid : Z → result Z) (arg0 : option Z) (arg1 : option Z)
  : result (option st) :=
  match arg0, arg1 with
  | Some p, Some sequence_oid =>
      nextval ← nextval_oid sequence_oid;
      Ok (Some (St (wrap_s PREFIX_SIZE p) (wrap_s VAL_SIZE nextval)))
  | _, _ => Ok None
  end.

Definition id_make (arg0 arg1 : option Z) : option st :=
  match arg0, arg1 with
  | Some p, Some v => Some (St (wrap_s PREFIX_SIZE p) (wrap_s VAL_SIZE v))
  | _, _ => None
  end.

(** A value of the type: each field fits its width. *)
Definition id_ok (x : st) : Prop := in_s PREFIX_SIZE (prefix x) ∧ in_s VAL_SIZE (val x).
End Id.

(** The widths [omni_seq.c] instantiates. *)
Definition width (w : Z) : Prop := w = 16 ∨ w = 32 ∨ w = 64.

Lemma width_bytes w : width w → 8 * Z.of_nat (Z.to_nat (w / 8)) = w ∧ 0 < w.
Proof. intros [->|[->| ->]]; done. Qed.

Lemma in_s_64 w z : width w → in_s w z → in_s 64 z.
Proof. intros [->|[->| ->]]; unfold in_s; lia. Qed.

Lemma wrap_be_roundtrip w z : width w → in_s w z →
  wrap_s w (be_val (be_bytes (Z.to_nat (w / 8)) z)) = z.
Proof.
  intros Hw Hz. pose proof (width_bytes w Hw) as [E H0].
  rewrite be_val_be_bytes, E, <- (wrap_s_id w z) at 1 by done.
  rewrite <- (wrap_s_id w z) at 2 by done.
  apply wrap_s_cong; [done|]. by rewrite Z.mod_mod, wrap_s_mod by (pose proof (pow2_pos w); lia).
Qed.

(** ** Printing and scanning decimals *)

Lemma digits_scan fuel n acc rest : 0 <= n < 10 ^ Z.of_nat fuel →
  (∀ c, head rest = Some c → is_digit c = false) → (0 < fuel)%nat →
  ∃ k, 0 <= k ∧ scan_digits acc (digits fuel n ++ rest) = acc * 10 ^ k + n.
Proof.
  intros Hn Hrest Hf.
  assert (G : ∀ n acc rest, 0 <= n < 10 ^ Z.of_nat fuel → ∃ k, 0 <= k ∧
    scan_digits acc (digits fuel n ++ rest) = scan_digits (acc * 10 ^ k + n) rest).
  { clear -Hf. induction fuel as [|fuel IH]; intros n acc rest Hn; [lia|]. cbn [digits].
    destruct (Z.ltb_spec n 10).
    - exists 1. split; [done|]. cbn [app scan_digits]. unfold is_digit.
      replace ((48 <=? 48 + n) && (48 + n <=? 57)) with true by lia. f_equal. lia.
    - destruct fuel as [|fuel']; [simpl in Hn; lia|].
      rewrite Nat2Z.inj_succ, Z.pow_succ_r in Hn by lia.
      destruct (IH ltac:(lia) (n / 10) acc ([48 + n mod 10] ++ rest)) as (k & Hk & E);
        [split; [apply Z.div_pos; lia|apply Z.div_lt_upper_bound; lia]|].
      exists (Z.succ k). split; [lia|]. rewrite <- app_assoc, E. cbn [app scan_digits].
      pose proof (Z.mod_pos_bound n 10 ltac:(lia)). unfold is_digit.
      replace ((48 <=? 48 + n mod 10) && (48 + n mod 10 <=? 57)) with true by lia.
      f_equal. rewrite Z.pow_succ_r by done. pose proof (Z.div_mod n 10). lia. }
  destruct (G n acc rest Hn) as (k & Hk & E). exists k. split; [done|]. rewrite E.
  destruct rest as [|c rest]; [done|]. cbn [scan_digits]. by rewrite (Hrest c).
Qed.

Lemma digits_head fuel n : 0 <= n → (0 < fuel)%nat → 0 <= n < 10 ^ Z.of_nat fuel →
  ∃ c l, digits fuel n = c :: l ∧ is_digit c = true.
Proof.
  revert n. induction fuel as [|fuel IH]; intros n H0 Hf Hn; [lia|]. cbn [digits].
  destruct (Z.ltb_spec n 10).
  - exists (48 + n), []. split; [done|]. unfold is_digit. lia.
  - destruct fuel as [|fuel']; [simpl in Hn; lia|].
    rewrite Nat2Z.inj_succ, Z.pow_succ_r in Hn by lia.
    destruct (IH (n / 10)) as (c & l & E & Hc); [apply Z.div_pos; lia|lia|
      split; [apply Z.div_pos; lia|apply Z.div_lt_upper_bound; lia]|].
    exists c, (l ++ [48 + n mod 10]). by rewrite E.
Qed.

Lemma scan_print_int n rest : in_s 64 n → (∀ c, head rest = Some c → is_digit c = false) →
  scan_int (print_int n ++ rest) = n.
Proof.
  intros Hn Hrest. unfold in_s in Hn. unfold print_int, scan_int.
  destruct (Z.ltb_spec n 0).
  - cbn [app skip_space is_space]. change (is_space 45) with false. cbn [Z.eqb Pos.eqb].
    destruct (digits_scan 20 (- n) 0 rest) as (k & _ & E); [simpl; lia|done|lia|].
    change (45 =? 45) with true. cbv iota. rewrite E. lia.
  - destruct (digits_head 20 n) as (c & l & E & Hc); [lia|lia|simpl; lia|].
    destruct (digits_scan 20 n 0 rest) as (k & _ & E2); [simpl; lia|done|lia|].
    rewrite E in *. cbn [app skip_space]. unfold is_digit in Hc.
    replace (is_space c) with false by (unfold is_space; lia).
    rewrite (proj2 (Z.eqb_neq c 45)), (proj2 (Z.eqb_neq c 43)) by lia.
    change (c :: l ++ rest) with ((c :: l) ++ rest). rewrite E2. lia.
Qed.

Lemma strtoll_print n rest errno : in_s 64 n → (∀ c, head rest = Some c → is_digit c = false) →
  strtoll (print_int n ++ rest) errno = (Ok n, errno).
Proof.
  intros Hn Hr. unfold strtoll. rewrite scan_print_int by done.
  unfold in_s in Hn. unfold LLONG_MAX, LLONG_MIN.
  destruct (Z.ltb_spec (2 ^ 63 - 1) n); [lia|]. by destruct (Z.ltb_spec n (- 2 ^ 63)); [lia|].
Qed.

Lemma strchr_after_app c a b : c ∉ a → strchr_after c (a ++ c :: b) = Some b.
Proof.
  induction a as [|x a IH]; intros Hc; simpl.
  - by rewrite Z.eqb_refl.
  - apply not_elem_of_cons in Hc as [Hx Ha].
    rewrite (proj2 (Z.eqb_neq x c)) by congruence. by apply IH.
Qed.

Lemma digits_no_colon fuel n : 0 <= n → 58 ∉ digits fuel n.
Proof.
  revert n. induction fuel as [|fuel IH]; intros n Hn; cbn [digits]; [apply not_elem_of_nil|].
  destruct (Z.ltb_spec n 10).
  - rewrite list_elem_of_singleton. lia.
  - rewrite elem_of_app, list_elem_of_singleton. pose proof (Z.mod_pos_bound n 10 ltac:(lia)).
    intros [?|?]; [|lia]. by apply (IH (n / 10)); [apply Z.div_pos; lia|].
Qed.

Lemma print_no_colon n : 58 ∉ print_int n.
Proof.
  unfold print_int. destruct (Z.ltb_spec n 0); [|by apply digits_no_colon].
  apply not_elem_of_cons. split; [done|]. apply digits_no_colon. lia.
Qed.

Lemma id_in_print P V x errno : width P → width V → id_ok P V x → errno ≠ ERANGE →
  ∃ s, id_out (Some x) = Some s ∧
  id_in P V (Some s) errno =
    (Ok (Some (St (prefix x) (wrap_s V (wrap_s P (val x))))), errno).
Proof.
  intros HP HV [Hp Hv] He. eexists; split; [done|]. unfold id_in.
  cbn [app]. rewrite strchr_after_app by apply print_no_colon.
  unfold mbind, M_bind, get_st.
  rewrite strtoll_print; [|by apply (in_s_64 P)|by intros c [= <-]].
  rewrite (proj2 (Z.eqb_neq _ _)) by done.
  rewrite <- (app_nil_r (print_int (val x))).
  rewrite strtoll_print; [|by apply (in_s_64 V)|done].
  rewrite (proj2 (Z.eqb_neq _ _)) by done.
  rewrite (wrap_s_id P (prefix x)) by (done || by apply width_bytes). done.
Qed.

(** [id_recv] reads back what [id_send] wrote. *)
Lemma id_recv_send P V x : width P → width V → id_ok P V x →
  id_recv P V (id_send P V (Some x)) = Ok (Some (x, (prefix_bytes P + val_bytes V)%nat)).
Proof.
  intros HP HV [Hp Hv]. unfold id_send, id_recv.
  rewrite length_app, !be_bytes_length, Nat.eqb_refl. simpl.
  rewrite take_app_length' by (by rewrite be_bytes_length).
  rewrite drop_app_length' by (by rewrite be_bytes_length).
  rewrite take_ge by (rewrite be_bytes_length; lia).
  unfold prefix_bytes, val_bytes. rewrite !wrap_be_roundtrip by done. by destruct x.
Qed.

(** Binary round trip: for every pair of widths [omni_seq] instantiates,
    [id_recv] reads back what [id_send] wrote, and marks the whole message as
    consumed. *)
Theorem id_binary_roundtrip P V x :
  width P → width V → id_ok P V x →
  ∃ bs, id_send P V (Some x) = Some bs ∧ Forall byte_ok bs ∧
        id_recv P V (Some bs) = Ok (Some (x, length bs)).
Proof.
  intros HP HV Hx. eexists; split; [done|]. split; [apply Forall_app_2; apply be_bytes_ok|].
  pose proof (id_recv_send P V x HP HV Hx) as E. cbn [id_send] in E. rewrite E.
  by rewrite length_app, !be_bytes_length.
Qed.

Lemma id_binary_roundtrip_witness :
  ∃ bs, id_send 16 64 (Some (St (-3) 1234567890123)) = Some bs ∧ Forall byte_ok bs ∧
        id_recv 16 64 (Some bs) = Ok (Some (St (-3) 1234567890123, length bs)).
Proof.
  apply id_binary_roundtrip; [left; reflexivity|right; right; reflexivity|].
  split; unfold in_s; simpl; lia.
Defined.

(** Text round trip: an identifier whose value fits the width of the
    prefix is read back by [id_in] from what [id_out] prints, provided
    [errno] was not already [ERANGE]. *)
Theorem id_text_roundtrip P V x errno :
  width P → width V → id_ok P V x → in_s P (val x) → errno ≠ ERANGE →
  ∃ s, id_out (Some x) = Some s ∧ id_in P V (Some s) errno = (Ok (Some x), errno).
Proof.
  intros HP HV Hx Hfit He.
  destruct (id_in_print P V x errno HP HV Hx He) as (s & Hs & E).
  exists s. split; [done|]. rewrite E. destruct Hx as [_ Hv].
  rewrite (wrap_s_id P), (wrap_s_id V) by (done || by apply width_bytes). by destruct x.
Qed.

Lemma id_text_roundtrip_witness :
  ∃ s, id_out (Some (St 7 (-42))) = Some s ∧ id_in 16 64 (Some s) 0 = (Ok (Some (St 7 (-42))), 0).
Proof.
  apply id_text_roundtrip; try (left; reflexivity); try (right; right; reflexivity).
  - split; unfold in_s; simpl; lia.
  - unfold in_s; simpl; lia.
  - unfold ERANGE; lia.
Defined.

(** [id_in] converts the value to the type of the *prefix*: when the
    prefix is narrower than the value, some valid identifiers are printed by
    [id_out] and silently read back as a different identifier. *)
Theorem id_in_truncates_val P V :
  width P → width V → P < V →
  ∃ x s y, id_ok P V x ∧ id_out (Some x) = Some s ∧
    id_in P V (Some s) 0 = (Ok (Some y), 0) ∧ y ≠ x.
Proof.
  intros HP HV HPV. set (x := St 0 (2 ^ (P - 1))).
  pose proof (proj2 (width_bytes P HP)). pose proof (proj2 (width_bytes V HV)).
  assert (Hx : id_ok P V x).
  { pose proof (pow2_pos (P - 1)). pose proof (pow2_pos (V - 1)).
    pose proof (Z.pow_lt_mono_r 2 (P - 1) (V - 1) ltac:(lia) ltac:(lia) ltac:(lia)).
    split; unfold in_s; simpl; lia. }
  destruct (id_in_print P V x 0 HP HV Hx) as (s & Hs & E); [done|].
  exists x, s. eexists. split; [done|]. split; [done|]. split; [exact E|].
  intros Eq. apply (f_equal val) in Eq. simpl in Eq.
  pose proof (wrap_s_in P (2 ^ (P - 1)) ltac:(lia)) as Hin.
  assert (Hin' : in_s V (wrap_s P (2 ^ (P - 1)))).
  { pose proof (Z.pow_le_mono_r 2 (P - 1) (V - 1) ltac:(lia) ltac:(lia)). unfold in_s in *. lia. }
  rewrite (wrap_s_id V) in Eq by done. unfold in_s in Hin. lia.
Qed.

Lemma id_in_truncates_val_witness :
  ∃ x s y, id_ok 16 32 x ∧ id_out (Some x) = Some s ∧
    id_in 16 32 (Some s) 0 = (Ok (Some y), 0) ∧ y ≠ x.
Proof. apply id_in_truncates_val; [left; reflexivity|right; left; reflexivity|lia]. Defined.

(** The comparison support function of the btree operator class is not
    an order: it answers 0 for two different identifiers with the same value,
    and answers "less" both ways round for others; [<] and [>=], declared as
    each other's negators, can both be false. *)
Theorem id_cmp_not_an_order p1 p2 v1 v2 :
  p1 < p2 → v1 < v2 →
  id_cmp (Some (St p2 v1)) (Some (St p1 v1)) = Some 0 ∧
  id_eq (Some (St p2 v1)) (Some (St p1 v1)) = Some false ∧
  id_cmp (Some (St p2 v1)) (Some (St p1 v2)) = Some (-1) ∧
  id_cmp (Some (St p1 v2)) (Some (St p2 v1)) = Some (-1) ∧
  id_lt (Some (St p2 v1)) (Some (St p1 v2)) = Some false ∧
  id_geq (Some (St p2 v1)) (Some (St p1 v2)) = Some false.
Proof.
  intros Hp Hv. unfold id_cmp, id_eq, id_lt, id_geq, strict2; simpl.
  split_and!; f_equal; repeat break_test; lia.
Qed.

Lemma id_cmp_not_an_order_witness :
  id_cmp (Some (St 2 5)) (Some (St 1 5)) = Some 0 ∧
  id_cmp (Some (St 2 5)) (Some (St 1 6)) = Some (-1) ∧
  id_cmp (Some (St 1 6)) (Some (St 2 5)) = Some (-1).
Proof.
  destruct (id_cmp_not_an_order 1 2 5 6) as (H1 & _ & H2 & H3 & _); [lia|lia|].
  split; [exact H1|]. split; [exact H2|exact H3].
Defined.

(** Where the identifiers carry one prefix (those drawn by one node) the
    comparison function is the order of their values, and [=] is equality on
    all identifiers. *)
Theorem id_cmp_same_prefix p v1 v2 a b :
  id_cmp (Some (St p v1)) (Some (St p v2)) =
    Some (match v1 ?= v2 with Lt => -1 | Eq => 0 | Gt => 1 end) ∧
  (id_eq (Some a) (Some b) = Some true ↔ a = b) ∧
  (id_neq (Some a) (Some b) = Some true ↔ a ≠ b).
Proof.
  assert (E : (prefix a =? prefix b) && (val a =? val b) = true ↔ a = b).
  { destruct a as [pa va], b as [pb vb]; simpl.
    rewrite andb_true_iff, !Z.eqb_eq. split; [by intros [-> ->]|by intros [= -> ->]]. }
  split; [|split].
  - unfold id_cmp, strict2; simpl. rewrite Z.ltb_irrefl. simpl.
    unfold Z.ltb. rewrite (Z.compare_antisym v1 v2). by destruct (v1 ?= v2).
  - unfold id_eq, strict2. rewrite <- E. by split; [intros [= ->]|intros ->].
  - unfold id_neq, strict2. rewrite <- E.
    destruct ((prefix a =? prefix b) && (val a =? val b)); naive_solver.
Qed.
End SeqId.
