(* ===== verification/Hooks.v ===== *)
(** * Hook dispatch: [omni/hook_harness.c], [register_hook] of [omni/omni.c],
      the hook tables set up by [_PG_init] of [omni/init.c] and the
      [hooks()] function of [omni/module.c]

    A backend keeps, for every hook type, an array of entry points.  The
    state of the monad is these arrays together with the rest of the backend
    ([W]): a hook function may change both, and the iteration re-reads the
    array at every step, as the macro does.  Function pointers are the
    elements of a type [F], run by the parameter [call_hook]. *)

From stdpp Require Import base tactics list gmap strings numbers.
From Stdlib Require Import ZArith Lia.
From S2P Require Import Prelude.

Module Hooks.

(** ** Types of hooks ([omni_hook_type]) *)

Definition omni_hook_emit_log : nat := 0.
Definition omni_hook_check_password : nat := 1.
Definition omni_hook_needs_fmgr : nat := 6.
Definition omni_hook_planner : nat := 14.
Definition omni_hook_executor_start : nat := 20.
Definition omni_hook_executor_run : nat := 21.
Definition omni_hook_executor_finish : nat := 22.
Definition omni_hook_executor_end : nat := 23.
Definition omni_hook_process_utility : nat := 24.
Definition omni_hook_xact_callback : nat := 25.
Definition OMNI_HOOK_TYPE_COUNT : nat := 32.

(** The names [hooks()] shows ([hook_types.h]); the others are NULL. *)
Definition omni_hook_types (t : nat) : option string :=
  if (t =? omni_hook_executor_start)%nat then Some "executor_start"
  else if (t =? omni_hook_executor_run)%nat then Some "executor_run"
  else if (t =? omni_hook_executor_finish)%nat then Some "executor_finish"
  else if (t =? omni_hook_executor_end)%nat then Some "executor_end"
  else if (t =? omni_hook_needs_fmgr)%nat then Some "needs_fmgr"
  else if (t =? omni_hook_process_utility)%nat then Some "process_utility"
  else if (t =? omni_hook_emit_log)%nat then Some "emit_hook"
  else if (t =? omni_hook_check_password)%nat then Some "check_password"
  else if (t =? omni_hook_xact_callback)%nat then Some "xact_callback"
  else if (t =? omni_hook_planner)%nat then Some "planner"
  else None.

(** A module is known by the address of its handle. *)
Abbreviation handle := nat (only parsing).

Inductive hook_next_action := hook_next_action_finish | hook_next_action_next.

(** The union [omni_hook_return_value], with the members the harness uses. *)
Inductive omni_hook_return_value :=
  | ptr_null
  | bool_value (b : bool)
  | PlannedStmt_value (p : nat).

(** [omni_hook_handle]; [ctx] is a pointer, [None] when NULL. *)
Record omni_hook_handle := HookHandle {
  hh_handle : option handle;
  ctx : option nat;
  next_action : hook_next_action;
  returns : omni_hook_return_value
}.

Section Harness.
(** Function pointers, the other state of the backend, and the arguments
    of a hook. *)
Context {F W A : Type}.

Record hook_entry_point := EntryPoint {
  ep_handle : option handle;
  fn : F;
  state_index : Z;
  ep_name : string
}.

Record omni_hook := OmniHook {
  hook_type : nat;
  hook_fn : F;
  hook_name : string;
  wrap : bool
}.

(** [hook_entry_points]: the array of each type; a type whose array was
    never allocated (NULL) has no entry. *)
Abbreviation tables := (gmap nat (list hook_entry_point)).

Variable call_hook : F → A → omni_hook_handle → M (tables * W) omni_hook_handle.

Definition entry_points (t : nat) (tabs : tables) : list hook_entry_point :=
  default [] (tabs !! t).

(** ** [register_hook] *)

Definition bump (e : hook_entry_point) : hook_entry_point :=
  EntryPoint (ep_handle e) (fn e) (state_index e + 1) (ep_name e).

Definition new_entry (h : handle) (hook : omni_hook) (count : nat) : hook_entry_point :=
  EntryPoint (Some h) (hook_fn hook) (Z.of_nat count - 1) (hook_name hook).

Definition register_hook (h : handle) (hook : omni_hook) : M tables unit := λ tabs,
  let t := hook_type hook in
  if negb (t <? OMNI_HOOK_TYPE_COUNT)%nat then (Undefined "hook type out of range", tabs)
  else if wrap hook then
    match tabs !! t with
    | None => (Undefined "pfree of a NULL pointer", tabs)
    | Some eps =>
        let count := (length eps + 2)%nat in
        let e := new_entry h hook count in
        (Ok (), <[t := e :: (bump <$> eps) ++ [e]]> tabs)
    end
  else
    let eps := entry_points t tabs in
    let count := S (length eps) in
    (Ok (), <[t := eps ++ [new_entry h hook count]]> tabs).

(** ** [reorganize_hooks] *)

(** The entries after the removed one, [j] being the index of the first. *)
Fixpoint shift_down (j : nat) (eps : list hook_entry_point) : list hook_entry_point :=
  match eps with
  | [] => []
  | e :: eps' =>
      (if (Z.of_nat j <=? state_index e)%Z
       then EntryPoint (ep_handle e) (fn e) (state_index e - 1) (ep_name e) else e)
      :: shift_down (S j) eps'
  end.

(** A hook without a module ("default") or of an initialized module. *)
Definition still_loaded (initialized_modules : list handle) (e : hook_entry_point) : bool :=
  match ep_handle e with
  | None => true
  | Some h => bool_decide (h ∈ initialized_modules)
  end.

Fixpoint reorganize_type (fuel : nat) (initialized_modules : list handle) (i : nat)
    (eps : list hook_entry_point) : list hook_entry_point :=
  match fuel, eps !! i with
  | S fuel', Some hook =>
      if still_loaded initialized_modules hook
      then reorganize_type fuel' initialized_modules (S i) eps
      else reorganize_type fuel' initialized_modules i
             (take i eps ++ shift_down (S i) (drop (S i) eps))
  | _, _ => eps
  end.

Definition reorganize_hooks (initialized_modules : list handle) (tabs : tables) : tables :=
  (λ eps, reorganize_type (length eps) initialized_modules 0 eps) <$> tabs.

(** ** [iterate_hooks] *)

(** [ctxs]: a variable-length array on the stack; [None] is a slot not yet
    written. *)
Abbreviation ctx_array := (list (option (option nat))).

(** The body of the loop for index [i]: whether a hook asked to finish,
    the array and the value returned so far. *)
Definition hook_step (t : nat) (args : A) (i : nat) (ctxs : ctx_array)
    (retval : omni_hook_return_value) : M (tables * W) (bool * ctx_array * omni_hook_return_value) :=
  s ← get_st;
  match entry_points t (fst s) !! i with
  | None => undefined "entry point out of bounds"
  | Some hook =>
      let ctxs := <[i := Some None]> ctxs in
      if (state_index hook <? 0)%Z then undefined "ctxs out of bounds" else
      match ctxs !! Z.to_nat (state_index hook) with
      | None => undefined "ctxs out of bounds"
      | Some None => undefined "ctxs slot not initialised"
      | Some (Some c) =>
          h ← call_hook (fn hook) args
                (HookHandle (ep_handle hook) c hook_next_action_next retval);
          mret (match next_action h with
                | hook_next_action_next => false
                | hook_next_action_finish => true
                end, <[i := Some (ctx h)]> ctxs, returns h)
      end
  end.

Fixpoint hook_loop (t : nat) (args : A) (idxs : list nat) (ctxs : ctx_array)
    (retval : omni_hook_return_value) : M (tables * W) (bool * ctx_array * omni_hook_return_value) :=
  match idxs with
  | [] => mret (false, ctxs, retval)
  | i :: idxs' =>
      r ← hook_step t args i ctxs retval;
      match r with
      | (true, ctxs, retval) => mret (true, ctxs, retval)
      | (false, ctxs, retval) => hook_loop t args idxs' ctxs retval
      end
  end.

Definition iterate_hooks (t : nat) (args : A) : M (tables * W) omni_hook_return_value :=
  s ← get_st;
  let n := length (entry_points t (fst s)) in
  r ← hook_loop t args (rev (seq 0 n)) (replicate n None) ptr_null;
  mret (snd r).

(** ** The dispatchers installed in PostgreSQL's hook variables *)

(** [load_pending_modules] of [omni.c]. *)
Variable load_pending_modules : M (tables * W) unit.

(** A zeroed union reads as [false]; any other member is not a bool. *)
Definition as_bool (r : omni_hook_return_value) : M (tables * W) bool :=
  match r with
  | ptr_null => mret false
  | bool_value b => mret b
  | PlannedStmt_value _ => undefined "inactive member of a union"
  end.

Definition as_PlannedStmt (r : omni_hook_return_value) : M (tables * W) (option nat) :=
  match r with
  | ptr_null => mret None
  | PlannedStmt_value p => mret (Some p)
  | bool_value _ => undefined "inactive member of a union"
  end.

Definition omni_needs_fmgr_hook (args : A) : M (tables * W) bool :=
  r ← iterate_hooks omni_hook_needs_fmgr args; as_bool r.

Definition omni_check_password_hook (args : A) : M (tables * W) unit :=
  _ ← iterate_hooks omni_hook_check_password args; mret ().

Definition omni_planner_hook (args : A) : M (tables * W) (option nat) :=
  r ← iterate_hooks omni_hook_planner args; as_PlannedStmt r.

Definition omni_executor_start_hook (args : A) : M (tables * W) unit :=
  _ ← load_pending_modules;
  _ ← iterate_hooks omni_hook_executor_start args; mret ().

Definition omni_executor_run_hook (args : A) : M (tables * W) unit :=
  _ ← iterate_hooks omni_hook_executor_run args; mret ().

Definition omni_executor_finish_hook (args : A) : M (tables * W) unit :=
  _ ← iterate_hooks omni_hook_executor_finish args; mret ().

Definition omni_executor_end_hook (args : A) : M (tables * W) unit :=
  _ ← iterate_hooks omni_hook_executor_end args;
  load_pending_modules.

(** [transaction_stmt]: the utility statement is a [TransactionStmt]. *)
Definition omni_process_utility_hook (transaction_stmt : bool) (args : A) : M (tables * W) unit :=
  _ ← iterate_hooks omni_hook_process_utility args;
  when (negb transaction_stmt) load_pending_modules.

Definition omni_emit_log_hook (args : A) : M (tables * W) unit :=
  _ ← iterate_hooks omni_hook_emit_log args; mret ().

(** ** [hooks()]: hook type, hook name, id of the module, position

    [hook_id] is the [id] of the handle; a NULL column is [None]. *)

Variable hook_id : handle → Z.

Definition hooks_of_type (t : nat) (eps : list hook_entry_point)
  : list (option string * string * option Z * nat) :=
  rev (imap (λ i e, (omni_hook_types t, ep_name e, hook_id <$> ep_handle e,
                     (length eps - i)%nat)) eps).

Definition hooks (tabs : tables) : list (option string * string * option Z * nat) :=
  flat_map (λ t, hooks_of_type t (entry_points t tabs)) (seq 0 OMNI_HOOK_TYPE_COUNT).
End Harness.

Arguments hook_entry_point : clear implicits.
Arguments omni_hook : clear implicits.

(** ** The default hooks and the tables [_PG_init] builds *)

Section Defaults.
Context {S A : Type}.

(** PostgreSQL's own functions. *)
Variables standard_planner : A → M S nat.
Variables standard_ExecutorStart standard_ExecutorRun standard_ExecutorFinish
          standard_ExecutorEnd standard_ProcessUtility : A → M S unit.

(** [saved == NULL ? standard(...) : saved(...)] *)
Definition saved_or {R} (saved : option (A → M S R)) (standard : A → M S R) (args : A) : M S R :=
  match saved with None => standard args | Some f => f args end.

Definition default_emit_log (saved : option (A → M S unit)) (h : omni_hook_handle) (args : A) :=
  _ ← saved_or saved (λ _, mret ()) args; mret (M := M S) h.

Definition default_check_password_hook (saved : option (A → M S unit)) (h : omni_hook_handle)
    (args : A) :=
  _ ← saved_or saved (λ _, mret ()) args; mret (M := M S) h.

Definition default_needs_fmgr (saved : option (A → M S bool)) (h : omni_hook_handle) (args : A) :=
  b ← saved_or saved (λ _, mret false) args;
  mret (M := M S) (HookHandle (hh_handle h) (ctx h) (next_action h) (bool_value b)).

Definition default_planner (saved : option (A → M S nat)) (h : omni_hook_handle) (args : A) :=
  p ← saved_or saved standard_planner args;
  mret (M := M S) (HookHandle (hh_handle h) (ctx h) (next_action h) (PlannedStmt_value p)).

Definition default_executor_start (saved : option (A → M S unit)) (h : omni_hook_handle) (args : A) :=
  _ ← saved_or saved standard_ExecutorStart args; mret (M := M S) h.

Definition default_executor_run (saved : option (A → M S unit)) (h : omni_hook_handle) (args : A) :=
  _ ← saved_or saved standard_ExecutorRun args; mret (M := M S) h.

Definition default_executor_finish (saved : option (A → M S unit)) (h : omni_hook_handle) (args : A) :=
  _ ← saved_or saved standard_ExecutorFinish args; mret (M := M S) h.

Definition default_executor_end (saved : option (A → M S unit)) (h : omni_hook_handle) (args : A) :=
  _ ← saved_or saved standard_ExecutorEnd args; mret (M := M S) h.

Definition default_process_utility (saved : option (A → M S unit)) (h : omni_hook_handle) (args : A) :=
  _ ← saved_or saved standard_ProcessUtility args; mret (M := M S) h.
End Defaults.

(** The hook types that get a "default" entry point: always, or only when a
    hook was installed before omni. *)
Definition default_hooks (saved_hooks : nat → bool) (t : nat) : bool :=
  if decide (t ∈ [omni_hook_needs_fmgr; omni_hook_emit_log; omni_hook_check_password])
  then saved_hooks t
  else bool_decide (t ∈ [omni_hook_planner; omni_hook_executor_start; omni_hook_executor_run;
                         omni_hook_executor_finish; omni_hook_executor_end;
                         omni_hook_process_utility]).

Definition init_entry_points {F} (default_fn : nat → F) (saved_hooks : nat → bool)
  : gmap nat (list (hook_entry_point F)) :=
  list_to_map ((λ t, (t, [EntryPoint None (default_fn t) 0 "default"]))
    <$> filter (λ t, default_hooks saved_hooks t = true) (seq 0 OMNI_HOOK_TYPE_COUNT)).

(** ** Properties *)

Section Facts.
Context {F W A : Type}.
Implicit Types (eps : list (hook_entry_point F)) (tabs : gmap nat (list (hook_entry_point F))).

(** What the harness asserts before it reads [ctxs[state_index]]. *)
Definition table_ok eps : Prop :=
  ∀ i e, eps !! i = Some e → (Z.of_nat i <= state_index e < Z.of_nat (length eps))%Z.

Definition tables_ok tabs : Prop := ∀ t eps, tabs !! t = Some eps → table_ok eps.

(** No entry reads the context of another one. *)
Definition plain eps : Prop := ∀ i e, eps !! i = Some e → state_index e = Z.of_nat i.

Lemma plain_ok eps : plain eps → table_ok eps.
Proof. intros H i e Hi. rewrite (H i e Hi). apply lookup_lt_Some in Hi. lia. Qed.

Lemma table_ok_wrap eps h hook : table_ok eps →
  table_ok (new_entry h hook (length eps + 2) :: (bump <$> eps) ++ [new_entry h hook (length eps + 2)]).
Proof.
  intros H i e Hi. cbn [length]. rewrite length_app, length_fmap. cbn [length].
  destruct i as [|i]; simpl in Hi; [injection Hi as <-; simpl; lia|].
  apply lookup_app_Some in Hi as [Hi|[Hl Hi]].
  - rewrite list_lookup_fmap in Hi. destruct (eps !! i) as [e'|] eqn:E; [|done].
    injection Hi as <-. specialize (H i e' E). simpl. lia.
  - rewrite length_fmap in *. apply list_lookup_singleton_Some in Hi as [Hi <-]. simpl. lia.
Qed.

Lemma table_ok_append eps h hook : table_ok eps →
  table_ok (eps ++ [new_entry h hook (S (length eps))]).
Proof.
  intros H i e Hi. rewrite length_app. cbn [length].
  apply lookup_app_Some in Hi as [Hi|[Hl Hi]].
  - specialize (H i e Hi). lia.
  - apply list_lookup_singleton_Some in Hi as [Hi <-]. simpl. lia.
Qed.

Lemma register_hook_tables_ok h hook tabs tabs' :
  tables_ok tabs → register_hook h hook tabs = (Ok (), tabs') → tables_ok tabs'.
Proof.
  intros Hok Hr. unfold register_hook in Hr.
  destruct (negb _); [done|]. destruct (wrap hook).
  - destruct (tabs !! hook_type hook) as [eps|] eqn:E; [|done]. injection Hr as <-.
    intros t eps' Ht. apply lookup_insert_Some in Ht as [[<- <-]|[_ Ht]]; [|by eapply Hok].
    apply table_ok_wrap. by eapply Hok.
  - injection Hr as <-.
    intros t eps' Ht. apply lookup_insert_Some in Ht as [[<- <-]|[_ Ht]]; [|by eapply Hok].
    apply table_ok_append. unfold entry_points.
    destruct (tabs !! hook_type hook) as [eps|] eqn:E; [by eapply Hok|]. intros i e Hi. done.
Qed.

(** The tables of a backend that has only registered hooks since
    [_PG_init]. *)
Inductive registered (default_fn : nat → F) (saved_hooks : nat → bool) :
    gmap nat (list (hook_entry_point F)) → Prop :=
  | registered_init : registered default_fn saved_hooks (init_entry_points default_fn saved_hooks)
  | registered_step tabs h hook tabs' :
      registered default_fn saved_hooks tabs →
      register_hook h hook tabs = (Ok (), tabs') →
      registered default_fn saved_hooks tabs'.

Lemma init_entry_points_ok (default_fn : nat → F) saved_hooks :
  tables_ok (init_entry_points default_fn saved_hooks).
Proof.
  intros t eps Ht. unfold init_entry_points in Ht.
  apply elem_of_list_to_map_2 in Ht. apply list_elem_of_fmap in Ht as (t' & [= -> ->] & _).
  intros i e Hi. apply list_lookup_singleton_Some in Hi as [-> <-]. simpl. lia.
Qed.

Lemma registered_tables_ok default_fn saved_hooks tabs :
  registered default_fn saved_hooks tabs → tables_ok tabs.
Proof.
  induction 1 as [|tabs h hook tabs' _ IH Hr]; [apply init_entry_points_ok|].
  by eapply register_hook_tables_ok.
Qed.

(** *** Removal of hooks *)

Definition erase (e : hook_entry_point F) : option nat * F * string :=
  (ep_handle e, fn e, ep_name e).

Lemma shift_down_erase j eps : erase <$> shift_down j eps = erase <$> eps.
Proof.
  revert j. induction eps as [|e eps IH]; intros j; [done|]. cbn. rewrite IH.
  by destruct (_ <=? _)%Z.
Qed.

Lemma shift_down_length j eps : length (shift_down j eps) = length eps.
Proof. revert j. induction eps; intros j; cbn; congruence. Qed.

Lemma still_loaded_erase ms (e e' : hook_entry_point F) :
  erase e = erase e' → still_loaded ms e = still_loaded ms e'.
Proof. unfold erase, still_loaded. by intros [= -> _ _]. Qed.

Lemma filter_erase ms eps eps' : erase <$> eps = erase <$> eps' →
  erase <$> filter (λ e, still_loaded ms e = true) eps =
  erase <$> filter (λ e, still_loaded ms e = true) eps'.
Proof.
  revert eps'. induction eps as [|e eps IH]; intros [|e' eps'] H; try done.
  injection H as H1 H2 H3 H4. assert (He : erase e = erase e') by (unfold erase; congruence).
  rewrite !filter_cons, (still_loaded_erase ms e e' He).
  destruct (decide _); cbn; rewrite (IH eps' H4); [by rewrite He|done].
Qed.

Lemma reorganize_type_erase ms : ∀ fuel i eps, (length eps - i <= fuel)%nat →
  erase <$> reorganize_type fuel ms i eps =
  (erase <$> take i eps) ++ (erase <$> filter (λ e, still_loaded ms e = true) (drop i eps)).
Proof.
  induction fuel as [|fuel IH]; intros i eps Hf.
  - simpl. rewrite drop_ge by lia. rewrite take_ge by lia. simpl. by rewrite app_nil_r.
  - cbn [reorganize_type]. destruct (eps !! i) as [hook|] eqn:E.
    + pose proof (lookup_lt_Some _ _ _ E) as Hi.
      rewrite (drop_S eps hook i E), filter_cons.
      destruct (still_loaded ms hook) eqn:Hk.
      * rewrite decide_True by done. rewrite IH by lia.
        rewrite (take_S_r eps i hook E), fmap_app, <- app_assoc. done.
      * rewrite decide_False by congruence. rewrite IH.
        -- rewrite take_app_length' by (rewrite length_take; lia).
           rewrite drop_app_length' by (rewrite length_take; lia).
           f_equal. apply filter_erase, shift_down_erase.
        -- rewrite length_app, shift_down_length, length_take, length_drop. lia.
    + apply lookup_ge_None in E. rewrite take_ge, drop_ge by lia. simpl. by rewrite app_nil_r.
Qed.

(** *** Dispatch *)

Variable call_hook : F → A → omni_hook_handle →
                     M (gmap nat (list (hook_entry_point F)) * W) omni_hook_handle.

(** The hook functions leave the tables alone. *)
Definition keeps_tables : Prop := ∀ f a h tabs w, fst (snd (call_hook f a h (tabs, w))) = tabs.

(** The reference: call the hooks of a list one after the other, each with
    no context, passing on the value returned, until one asks to finish. *)
Fixpoint run_chain (args : A) eps (retval : omni_hook_return_value)
  : M (gmap nat (list (hook_entry_point F)) * W) (bool * omni_hook_return_value) :=
  match eps with
  | [] => mret (false, retval)
  | e :: eps' =>
      h ← call_hook (fn e) args (HookHandle (ep_handle e) None hook_next_action_next retval);
      match next_action h with
      | hook_next_action_finish => mret (true, returns h)
      | hook_next_action_next => run_chain args eps' (returns h)
      end
  end.

Lemma run_chain_tables args eps : keeps_tables → ∀ ret tabs w,
  fst (snd (run_chain args eps ret (tabs, w))) = tabs.
Proof.
  intros Hk. induction eps as [|e eps IH]; intros ret tabs w; [done|].
  cbn [run_chain]. unfold mbind, M_bind.
  pose proof (Hk (fn e) args (HookHandle (ep_handle e) None hook_next_action_next ret) tabs w) as Hk'.
  destruct (call_hook _ _ _ _) as [[h|er|u] [tabs' w']]; cbn in Hk'; subst tabs'; [|done|done].
  destruct (next_action h); [done|apply IH].
Qed.

Definition with_ctxs (ctxs : list (option (option nat)))
    (r : result (bool * omni_hook_return_value)) :
    result (bool * list (option (option nat)) * omni_hook_return_value) :=
  match r with
  | Ok (fin, ret) => Ok (fin, ctxs, ret)
  | Err e => Err e
  | Undefined u => Undefined u
  end.

Definition finishes (h : omni_hook_handle) : bool :=
  match next_action h with
  | hook_next_action_next => false
  | hook_next_action_finish => true
  end.

(** One step at an entry whose [state_index] names a written slot. *)
Lemma hook_step_eq t args i ctxs retval tabs w e j c :
  entry_points t tabs !! i = Some e → state_index e = Z.of_nat j →
  <[i := Some None]> ctxs !! j = Some (Some c) →
  hook_step call_hook t args i ctxs retval (tabs, w) =
  (h ← call_hook (fn e) args (HookHandle (ep_handle e) c hook_next_action_next retval);
   mret (finishes h, <[i := Some (ctx h)]> (<[i := Some None]> ctxs), returns h)) (tabs, w).
Proof.
  intros He Hj Hc. unfold hook_step, get_st, mbind, M_bind. cbn [fst]. rewrite He, Hj.
  rewrite (proj2 (Z.ltb_ge _ _)) by lia. by rewrite Nat2Z.id, Hc.
Qed.

Lemma hook_loop_app t args l1 l2 : ∀ ctxs retval s,
  hook_loop call_hook t args (l1 ++ l2) ctxs retval s =
  (r ← hook_loop call_hook t args l1 ctxs retval;
   match r with
   | (true, ctxs, retval) => mret (true, ctxs, retval)
   | (false, ctxs, retval) => hook_loop call_hook t args l2 ctxs retval
   end) s.
Proof.
  induction l1 as [|i l1 IH]; intros ctxs retval s; [done|].
  cbn [app hook_loop]. unfold mbind, M_bind in *.
  destruct (hook_step _ _ _ _ _ _ s) as [[[[[|] cs] r]|e|u] s0]; done.
Qed.

(** The loop over a range of entries that keep their context to
    themselves. *)
Lemma hook_loop_plain (t : nat) (args : A) tabs eps lo :
  keeps_tables → entry_points t tabs = eps →
  ∀ k retval ctxs w, (lo + k <= length eps)%nat → length ctxs = length eps →
  (∀ i e, (lo <= i < lo + k)%nat → eps !! i = Some e → state_index e = Z.of_nat i) →
  ∃ ctxs', length ctxs' = length ctxs ∧
    (∀ j, ¬ (lo <= j < lo + k)%nat → ctxs' !! j = ctxs !! j) ∧
    hook_loop call_hook t args (rev (seq lo k)) ctxs retval (tabs, w) =
    (with_ctxs ctxs' (fst (run_chain args (rev (take k (drop lo eps))) retval (tabs, w))),
     snd (run_chain args (rev (take k (drop lo eps))) retval (tabs, w))).
Proof.
  intros Hkeep Ht. induction k as [|k IH]; intros retval ctxs w Hk Hl Hp.
  { exists ctxs. split; [done|]. split; [done|]. done. }
  rewrite seq_S, rev_app_distr. cbn [rev app].
  destruct (lookup_lt_is_Some_2 eps (lo + k)) as [e He]; [lia|].
  rewrite (take_S_r (drop lo eps) k e), rev_app_distr by by rewrite lookup_drop.
  cbn [rev app run_chain hook_loop]. unfold mbind at 1, M_bind at 1.
  rewrite (hook_step_eq t args (lo + k) ctxs retval tabs w e (lo + k) None);
    [|by rewrite Ht|by apply Hp; [lia|]|apply list_lookup_insert_eq; lia].
  unfold mbind, M_bind.
  pose proof (Hkeep (fn e) args
    (HookHandle (ep_handle e) None hook_next_action_next retval) tabs w) as Hk'.
  destruct (call_hook _ _ _ (tabs, w)) as [[h|er|u] [tabs' w']] eqn:Ec; cbn in Hk'; subst tabs'.
  2,3: exists ctxs; done.
  set (cs := <[(lo + k)%nat := Some (ctx h)]> (<[(lo + k)%nat := Some None]> ctxs)).
  assert (Hcs : length cs = length ctxs) by (unfold cs; by rewrite !length_insert).
  assert (Hne : ∀ j, ¬ (lo <= j < lo + S k)%nat → cs !! j = ctxs !! j).
  { intros j Hj. unfold cs. by rewrite !list_lookup_insert_ne by lia. }
  unfold finishes. cbn. destruct (next_action h); [by exists cs|].
  destruct (IH (returns h) cs w') as (ctxs' & Hl' & Hsame & E); [lia|congruence| |].
  { intros i e' Hi. apply Hp. lia. }
  exists ctxs'. split; [congruence|]. split; [|exact E].
  intros j Hj. rewrite Hsame by lia. by apply Hne.
Qed.

(** The table after [register_hook] with [wrap]: the hook around the
    others. *)
Definition wrapped (e : hook_entry_point F) eps : list (hook_entry_point F) :=
  e :: (bump <$> eps) ++ [e].

Lemma wrapped_length e eps : length (wrapped e eps) = S (S (length eps)).
Proof. unfold wrapped. cbn. rewrite length_app, length_fmap. cbn. lia. Qed.

Lemma wrapped_last e eps : wrapped e eps !! S (length eps) = Some e.
Proof.
  unfold wrapped. rewrite lookup_cons, lookup_app_r by (by rewrite length_fmap).
  by rewrite length_fmap, Nat.sub_diag.
Qed.

Lemma wrapped_mid e eps : take (length eps) (drop 1 (wrapped e eps)) = bump <$> eps.
Proof. unfold wrapped. cbn. rewrite drop_0. by rewrite take_app_length' by (by rewrite length_fmap). Qed.

Lemma wrapped_plain e eps i e' : plain eps → (1 <= i < 1 + length eps)%nat →
  wrapped e eps !! i = Some e' → state_index e' = Z.of_nat i.
Proof.
  intros Hp Hi. destruct i as [|i]; [lia|]. unfold wrapped. rewrite lookup_cons.
  rewrite lookup_app_l by (rewrite length_fmap; lia). rewrite list_lookup_fmap.
  destruct (eps !! i) as [x|] eqn:Ex; [|done]. intros [= <-]. cbn. rewrite (Hp i x Ex). lia.
Qed.

(** The iteration below the outer call of a wrapping hook that left [c]. *)
Lemma wrap_tail t args tabs eps e cs c ret w : keeps_tables → plain eps →
  entry_points t tabs = wrapped e eps → state_index e = Z.of_nat (S (length eps)) →
  length cs = S (S (length eps)) → cs !! S (length eps) = Some (Some c) →
  (r ← hook_loop call_hook t args (rev (seq 1 (length eps)) ++ [0]) cs ret;
   mret (snd r)) (tabs, w) =
  (r ← run_chain args (rev (bump <$> eps)) ret;
   if fst r : bool then mret (snd r) else
   h2 ← call_hook (fn e) args (HookHandle (ep_handle e) c hook_next_action_next (snd r));
   mret (returns h2)) (tabs, w).
Proof.
  intros Hk Hp Ht He Hl Hc. unfold mbind at 1, M_bind at 1. rewrite hook_loop_app.
  destruct (hook_loop_plain t args tabs (wrapped e eps) 1 Hk Ht (length eps) ret cs w)
    as (cs' & Hl' & Hsame & E).
  { rewrite wrapped_length. lia. } { by rewrite wrapped_length. }
  { intros i e' Hi. by apply wrapped_plain. }
  rewrite wrapped_mid in E. unfold mbind at 1, M_bind at 1. rewrite E. clear E.
  unfold mbind at 1, M_bind at 1.
  pose proof (run_chain_tables args (rev (bump <$> eps)) Hk ret tabs w) as Hts.
  destruct (run_chain _ _ _ _) as [[[fin r]|er|u] [tabs' w']]; cbn in Hts |- *; [|done|done].
  subst tabs'. destruct fin; [done|].
  unfold mbind at 1, M_bind at 1.
  rewrite (hook_step_eq t args 0 cs' r tabs w' e (S (length eps)) c).
  - unfold mbind, M_bind. destruct (call_hook _ _ _ _) as [[h2|er|u] s2]; try done.
    cbn. by destruct (finishes h2).
  - by rewrite Ht.
  - done.
  - rewrite list_lookup_insert_ne by lia. rewrite Hsame by lia. done.
Qed.
End Facts.

(** The asserts of the dispatcher never fail in a backend that only
    registers hooks: in every table reachable from the ones [_PG_init] builds
    by calls of [register_hook], wrapping or not, each entry's [state_index]
    is at least its own index and below the number of entries. *)
Theorem register_hook_invariant {F} (default_fn : nat → F) saved_hooks tabs t eps :
  registered default_fn saved_hooks tabs → tabs !! t = Some eps → table_ok eps.
Proof. intros H Ht. by eapply registered_tables_ok. Qed.

Lemma register_hook_invariant_witness :
  table_ok [EntryPoint (Some 7) 1 2 "w"; EntryPoint None 0 1 "default"; EntryPoint (Some 7) 1 2 "w"].
Proof.
  apply (register_hook_invariant (λ _, 0) (λ _, false)
    (<[24 := [EntryPoint (Some 7) 1 2%Z "w"; EntryPoint None 0 1%Z "default";
              EntryPoint (Some 7) 1 2%Z "w"]]> (init_entry_points (λ _, 0) (λ _, false))) 24).
  - eapply (registered_step _ _ _ 7 (OmniHook 24 1 "w" true)); [apply registered_init|].
    reflexivity.
  - reflexivity.
Defined.

(** [reorganize_hooks] removes exactly the entry points of the modules
    that are no longer initialized and keeps the others in their order, for
    every hook type. *)
Theorem reorganize_hooks_filters {F} ms (tabs : gmap nat (list (hook_entry_point F))) t :
  (erase <$> entry_points t (reorganize_hooks ms tabs)) =
  (erase <$> filter (λ e, still_loaded ms e = true) (entry_points t tabs)).
Proof.
  unfold entry_points, reorganize_hooks. rewrite lookup_fmap.
  destruct (tabs !! t) as [eps|]; [|done]. simpl.
  rewrite reorganize_type_erase by lia. by rewrite take_0, drop_0.
Qed.

(** Dispatch refines its specification: with hooks registered without
    [wrap], running a hook type calls every hook exactly once, last registered
    first and the default last, each with an empty context, passes the return
    value along and stops at the first hook that asks to finish. *)
Theorem iterate_hooks_chain {F W A} (call_hook : F → A → omni_hook_handle →
    M (gmap nat (list (hook_entry_point F)) * W) omni_hook_handle) tabs t args w :
  keeps_tables call_hook → plain (entry_points t tabs) →
  iterate_hooks call_hook t args (tabs, w) =
  (r ← run_chain call_hook args (rev (entry_points t tabs)) ptr_null; mret (snd r)) (tabs, w).
Proof.
  intros Hk Hp. unfold iterate_hooks, mbind, M_bind, get_st. cbn [fst].
  set (eps := entry_points t tabs) in *.
  destruct (hook_loop_plain call_hook t args tabs eps 0 Hk eq_refl (length eps) ptr_null
    (replicate (length eps) None) w) as (ctxs' & _ & _ & E).
  - lia.
  - by rewrite length_replicate.
  - intros i e _. apply Hp.
  - rewrite E, drop_0, take_ge by lia.
    clear E. by destruct (run_chain _ _ _ _ _) as [[[fin ret]|er|u] s1].
Qed.

Lemma iterate_hooks_chain_witness :
  let call := (λ (f : nat) (_ : unit) h s, (Ok (HookHandle (hh_handle h) (ctx h)
                 (if f =? 2 then hook_next_action_finish else hook_next_action_next)%nat
                 (bool_value (f =? 1))), (fst s, f :: snd s)))%nat in
  let tabs := {[ 3 := [EntryPoint None 0 0%Z "default"; EntryPoint (Some 5) 1 1%Z "a"] ]} in
  iterate_hooks call 3 () (tabs, []) = (Ok (bool_value false), (tabs, [0; 1])).
Proof.
  intros call tabs. unfold call, tabs. rewrite iterate_hooks_chain.
  - reflexivity.
  - intros f a h tabs' w. reflexivity.
  - intros i e Hi. unfold entry_points in Hi. rewrite lookup_singleton_eq in Hi.
    destruct i as [|[|i]]; cbn in Hi; simplify_eq; reflexivity.
Defined.

(** A wrapping hook brackets the hooks registered before it: it is
    called once before them, and, unless one of them (or itself) asks to
    finish, once more after all of them, and that second call receives the
    context the first call left. *)
Theorem wrap_hook_brackets {F W A} (call_hook : F → A → omni_hook_handle →
    M (gmap nat (list (hook_entry_point F)) * W) omni_hook_handle) tabs tabs' eps h hook args w :
  keeps_tables call_hook → wrap hook = true →
  tabs !! hook_type hook = Some eps → plain eps →
  register_hook h hook tabs = (Ok (), tabs') →
  iterate_hooks call_hook (hook_type hook) args (tabs', w) =
  (h1 ← call_hook (hook_fn hook) args (HookHandle (Some h) None hook_next_action_next ptr_null);
   match next_action h1 with
   | hook_next_action_finish => mret (returns h1)
   | hook_next_action_next =>
       r ← run_chain call_hook args (rev (bump <$> eps)) (returns h1);
       if fst r : bool then mret (snd r) else
       h2 ← call_hook (hook_fn hook) args
              (HookHandle (Some h) (ctx h1) hook_next_action_next (snd r));
       mret (returns h2)
   end) (tabs', w).
Proof.
  intros Hk Hw Ht Hp Hr. set (n := length eps).
  set (e := new_entry h hook (n + 2)). set (eps' := wrapped e eps).
  assert (Ht' : entry_points (hook_type hook) tabs' = eps').
  { unfold register_hook in Hr. destruct (negb _); [done|]. rewrite Hw, Ht in Hr.
    injection Hr as <-. unfold entry_points. by rewrite lookup_insert_eq. }
  assert (He : state_index e = Z.of_nat (S n)) by (unfold e; simpl; lia).
  unfold iterate_hooks, mbind at 1, M_bind at 1, get_st. cbn [fst].
  rewrite Ht'. unfold eps'. rewrite wrapped_length, (seq_S (S (length eps)) 0), rev_app_distr.
  cbn [rev app seq hook_loop Nat.add].
  unfold mbind at 1 2, M_bind at 1 2.
  rewrite (hook_step_eq call_hook _ _ (S n) _ _ tabs' w e (S n) None);
    [|rewrite Ht'; apply wrapped_last|done|apply list_lookup_insert_eq; rewrite length_replicate; lia].
  unfold mbind at 1 2, M_bind at 1 2. cbn [fn ep_handle e new_entry].
  pose proof (Hk (hook_fn hook) args (HookHandle (Some h) None hook_next_action_next ptr_null) tabs' w) as Hk'.
  destruct (call_hook _ _ _ (tabs', w)) as [[h1|er|u] [tabs1 w1]] eqn:Ec; cbn in Hk'; subst tabs1;
    [|done|done].
  unfold finishes. cbn [mret M_ret]. destruct (next_action h1); [done|].
  apply (wrap_tail call_hook _ _ _ eps e); [done..| |].
  - rewrite !length_insert, length_replicate. done.
  - apply list_lookup_insert_eq. rewrite length_insert, length_replicate. lia.
Qed.

(** A hook function for the examples: [1] leaves a context, any other does
    nothing; the log records the function and the context it was given. *)
Definition logging_hook (f : nat) (_ : unit) (h : omni_hook_handle)
  : M (gmap nat (list (hook_entry_point nat)) * list (nat * option nat)) omni_hook_handle := λ s,
  (Ok (HookHandle (hh_handle h) (if (f =? 1)%nat then Some 42 else ctx h)
         (next_action h) (returns h)),
   (fst s, snd s ++ [(f, ctx h)])).

Lemma logging_hook_keeps : keeps_tables logging_hook.
Proof. by intros f a h tabs w. Qed.

Definition example_init : gmap nat (list (hook_entry_point nat)) :=
  init_entry_points (λ _, 0) (λ _, false).

Lemma wrap_hook_brackets_witness :
  let hook := OmniHook omni_hook_process_utility 1 "w" true in
  snd (snd (iterate_hooks logging_hook omni_hook_process_utility ()
    (snd (register_hook 7 hook example_init), []))) =
  [(1, None); (0, None); (1, Some 42)].
Proof.
  intros hook.
  rewrite (wrap_hook_brackets logging_hook example_init _ [EntryPoint None 0 0%Z "default"] 7 hook).
  - vm_compute. reflexivity.
  - apply logging_hook_keeps.
  - reflexivity.
  - reflexivity.
  - intros [|i] e Hi; cbn in Hi; simplify_eq; reflexivity.
  - reflexivity.
Defined.

(** [reorganize_hooks] does not repair the [state_index] of a wrapping
    hook when a hook inside it is removed: after module 5 registers a
    [process_utility] hook, module 7 wraps that type and module 5 is unloaded,
    the outer entry at index 0 still names the slot past the end of the
    array, the dispatcher's assertion [state_index < entry_points_count]
    fails, and the iteration reads [ctxs] out of bounds. *)
Theorem reorganize_hooks_breaks_wrapped :
  let inner := OmniHook omni_hook_process_utility 2 "a" false in
  let outer := OmniHook omni_hook_process_utility 1 "w" true in
  let tabs := snd (register_hook 7 outer (snd (register_hook 5 inner example_init))) in
  registered (λ _, 0) (λ _, false) tabs ∧
  state_index <$> entry_points omni_hook_process_utility (reorganize_hooks [7] tabs) !! 0 = Some 3%Z ∧
  length (entry_points omni_hook_process_utility (reorganize_hooks [7] tabs)) = 3 ∧
  fst (iterate_hooks logging_hook omni_hook_process_utility ()
    (reorganize_hooks [7] tabs, [])) = Undefined "ctxs out of bounds".
Proof.
  intros inner outer tabs. repeat split; [|vm_compute; reflexivity..].
  apply (registered_step _ _ (snd (register_hook 5 inner example_init)) 7 outer); [|reflexivity].
  apply (registered_step _ _ example_init 5 inner); [apply registered_init|reflexivity].
Qed.
End Hooks.
