(* ===== verification/VarScopes.v ===== *)
(** * Scoped variables: [omni_var/txn.c], [session.c] and [statement.c]

    Transaction variables keep a chain of values, one per subtransaction that
    set them; the abort of a subtransaction walks the chain back.  [Txn]
    models [set], [get] and the two callbacks, and the backend that calls
    them (begin, savepoints, end of transaction); [Spec] is the contract, a
    stack of frames.  [Session] and [Statement] model the two other scopes.

    Values are elements of [D], the contents of a datum; the memory context
    that owns a table is modelled by what happens to the table when the
    context is deleted. *)

From stdpp Require Import base tactics list gmap strings numbers sorting.
From Stdlib Require Import ZArith Lia.
From S2P Require Import Prelude.

Module VarScopes.

Definition InvalidOid : Z := 0.
Definition InvalidTransactionId : Z := 0.

(** [VariableValue]; [value] is [None] when [isnull]. *)
Record VariableValue (D : Type) := VV {
  isnull : bool;
  oid : Z;
  subxactid : Z;
  value : option D
}.
Arguments VV {D}.
Arguments isnull {D}.
Arguments oid {D}.
Arguments subxactid {D}.
Arguments value {D}.

(** [Variable]: the value [variable_value] points to, followed by the values
    its [previous] pointers lead to.  A value that was allocated but not
    written is [None]. *)
Abbreviation Variable' D := (list (option (VariableValue D))).

(** A [HTAB *]: NULL, a table whose memory context was deleted, or a table. *)
Inductive htab (E : Type) := TabNull | TabFreed | TabLive (m : gmap string E).
Arguments TabNull {E}.
Arguments TabFreed {E}.
Arguments TabLive {E} m.

(** Deleting the memory context of the table. *)
Definition free_htab {E} (t : htab E) : htab E :=
  match t with TabLive _ => TabFreed | t => t end.

Section Values.
Context {D : Type}.
(** PostgreSQL's [get_typbyval], [get_typlen] and
    [PG_DETOAST_DATUM_COPY]. *)
Variables (typbyval : Z → bool) (typlen : Z → Z) (detoast : D → D).

(** The value stored for argument 1, copied into the memory context of the
    table unless it is passed by value; [palloc] of a negative length is
    [palloc] of a huge [Size]. *)
Definition store_value (value_type : Z) (arg : option D) : result (option D) :=
  if typbyval value_type then Ok arg
  else match arg with
  | None => Ok None
  | Some d =>
      if (typlen value_type =? -1)%Z then Ok (Some (detoast d))
      else if (typlen value_type <? 0)%Z then raise "invalid memory alloc request size"
      else Ok (Some d)
  end.

(** The guards [set*] and [get*] start with. *)
Definition check_args (what : string) (name : option string) (value_type : Z) : result string :=
  match name with
  | None => raise "variable name must not be a null"
  | Some n => if (value_type =? InvalidOid)%Z then raise what else Ok n
  end.

Definition SET_TYPE_ERROR : string := "value type can't be inferred".
Definition GET_TYPE_ERROR : string := "default value type can't be inferred".

(** What [get*] returns for a variable that was found. *)
Definition read_value (vvar : option (VariableValue D)) (value_type : Z) : result (option D) :=
  match vvar with
  | None => Undefined "value not initialised"
  | Some v =>
      if isnull v then Ok None
      else if negb (oid v =? value_type)%Z then raise "type mismatch"
      else Ok (value v)
  end.
End Values.

(** ** Transaction scope ([txn.c]) *)

Inductive SubXactEvent :=
  | SUBXACT_EVENT_START_SUB | SUBXACT_EVENT_COMMIT_SUB
  | SUBXACT_EVENT_ABORT_SUB | SUBXACT_EVENT_PRE_COMMIT_SUB.

Inductive XactEvent :=
  | XACT_EVENT_COMMIT | XACT_EVENT_PARALLEL_COMMIT | XACT_EVENT_ABORT
  | XACT_EVENT_PARALLEL_ABORT | XACT_EVENT_PREPARE | XACT_EVENT_PRE_COMMIT
  | XACT_EVENT_PARALLEL_PRE_COMMIT | XACT_EVENT_PRE_PREPARE.

Module Txn.
Section Txn.
Context {D : Type}.
Variables (typbyval : Z → bool) (typlen : Z → Z) (detoast : D → D).
(** [PG_MAJORVERSION_NUM >= 16] *)
Variable pg16 : bool.

Record state := State {
  last_used_txnid : Z;
  current_tab : htab (Variable' D);
  subtransaction_callback_registered : bool;
  transaction_callback_registered : bool
}.

Definition initial : state := State InvalidTransactionId TabNull false false.

Definition set_current_tab (t : htab (Variable' D)) (s : state) : state :=
  State (last_used_txnid s) t (subtransaction_callback_registered s)
    (transaction_callback_registered s).

(** The chain after the abort of [xact_id]; [None]: the variable is
    removed. *)
Fixpoint restore (xact_id : Z) (chain : Variable' D) : option (Variable' D) :=
  match chain with
  | Some v :: previous =>
      if (xact_id <=? subxactid v)%Z
      then match previous with [] => None | _ => restore xact_id previous end
      else Some chain
  | _ => Some chain
  end.

(** Every value the walk looks at was written. *)
Fixpoint restore_defined (xact_id : Z) (chain : Variable' D) : bool :=
  match chain with
  | [] => true
  | None :: _ => false
  | Some v :: previous => if (xact_id <=? subxactid v)%Z then restore_defined xact_id previous else true
  end.

Definition subtransaction_callback (event : SubXactEvent) (xact_id : Z) : M state unit := λ s,
  match event with
  | SUBXACT_EVENT_ABORT_SUB =>
      match current_tab s with
      | TabNull => (Ok (), s)
      | TabFreed => (Undefined "use of a table whose context was deleted", s)
      | TabLive m =>
          if decide (map_Forall (λ _ c, restore_defined xact_id c = true) m)
          then (Ok (), set_current_tab (TabLive (omap (restore xact_id) m)) s)
          else (Undefined "value not initialised", s)
      end
  | _ => (Ok (), s)
  end.

Definition transaction_callback (event : XactEvent) : M state unit := λ s,
  match event with
  | XACT_EVENT_ABORT | XACT_EVENT_COMMIT | XACT_EVENT_PARALLEL_ABORT
  | XACT_EVENT_PARALLEL_COMMIT =>
      (Ok (), State (last_used_txnid s) (current_tab s) false
                (if pg16 then false else transaction_callback_registered s))
  | _ => (Ok (), s)
  end.

(** [txnid]: [GetTopTransactionId()]; [subtxnid]:
    [GetCurrentSubTransactionId()]. *)
Definition set (txnid subtxnid : Z) (name : option string) (value_type : Z) (arg : option D)
  : M state (option D) :=
  n ← lift_r (check_args SET_TYPE_ERROR name value_type);
  _ ← modify_st (λ s, State (last_used_txnid s) (current_tab s) true true);
  s ← get_st;
  _ ← when (negb (last_used_txnid s =? txnid)%Z)
        (modify_st (λ s, State txnid (TabLive ∅) true true));
  s ← get_st;
  match current_tab s with
  | TabNull => undefined "table is NULL"
  | TabFreed => undefined "use of a table whose context was deleted"
  | TabLive m =>
      (* HASH_ENTER, then the value to write with its [previous] *)
      slot ← match m !! n with
             | None => mret (None, [])
             | Some (Some v :: previous) =>
                 if (subxactid v <? subtxnid)%Z
                 then mret (None, Some v :: previous)
                 else mret (Some v, [])
             | Some _ => undefined "value not initialised"
             end;
      let '(vvar, previous) := slot in
      _ ← put_st (set_current_tab (TabLive (<[n := vvar :: previous]> m)) s);
      v ← lift_r (store_value typbyval typlen detoast value_type arg);
      _ ← put_st (set_current_tab (TabLive (<[n :=
            Some (VV (bool_decide (arg = None)) value_type subtxnid v) :: previous]> m)) s);
      mret v
  end.

(** [txnid]: [GetTopTransactionIdIfAny()] *)
Definition get (txnid : option Z) (name : option string) (value_type : Z) (dflt : option D)
  : M state (option D) :=
  n ← lift_r (check_args GET_TYPE_ERROR name value_type);
  s ← get_st;
  if bool_decide (txnid = Some (last_used_txnid s)) then
    match current_tab s with
    | TabNull => undefined "table is NULL"
    | TabFreed => undefined "use of a table whose context was deleted"
    | TabLive m =>
        match m !! n with
        | Some (vvar :: _) => lift_r (read_value vvar value_type)
        | Some [] => undefined "variable_value is NULL"
        | None => mret dflt
        end
    end
  else mret dflt.
End Txn.
Arguments state : clear implicits.
End Txn.

(** ** Session scope ([session.c]) *)

Module Session.
Section Session.
Context {D : Type}.
Variables (typbyval : Z → bool) (typlen : Z → Z) (detoast : D → D).

(** [session_tab]; it lives in [TopMemoryContext].  [previous] is never
    read in this scope. *)
Abbreviation state := (htab (option (VariableValue D))).

Definition set_session (name : option string) (value_type : Z) (arg : option D)
  : M state (option D) :=
  n ← lift_r (check_args SET_TYPE_ERROR name value_type);
  _ ← modify_st (λ s, match s with TabNull => TabLive ∅ | s => s end);
  s ← get_st;
  match s with
  | TabLive m =>
      (* the value [variable_value] points to from here on *)
      let vvar := None in
      _ ← put_st (TabLive (<[n := vvar]> m));
      v ← lift_r (store_value typbyval typlen detoast value_type arg);
      _ ← put_st (TabLive (<[n := Some (VV (bool_decide (arg = None)) value_type 0 v)]> m));
      mret v
  | _ => undefined "use of a table whose context was deleted"
  end.

Definition get_session (name : option string) (value_type : Z) (dflt : option D)
  : M state (option D) :=
  n ← lift_r (check_args GET_TYPE_ERROR name value_type);
  s ← get_st;
  match s with
  | TabNull => mret dflt
  | TabFreed => undefined "use of a table whose context was deleted"
  | TabLive m =>
      match m !! n with
      | Some vvar => lift_r (read_value vvar value_type)
      | None => mret dflt
      end
  end.
End Session.
End Session.

(** ** Statement scope ([statement.c])

    The table belongs to the [PortalContext] of the portal that first set a
    variable, and is recognised by the portal's [creation_time]. *)

Module Statement.
Section Statement.
Context {D : Type}.
Variables (typbyval : Z → bool) (typlen : Z → Z) (detoast : D → D).

(** [ActivePortal], with the [PortalContext] that dies with it. *)
Record portal := Portal { creation_time : Z; PortalContext : nat }.

(** A table or a value, with the context that owns it. *)
Record state := State {
  statement_tab : option (nat * gmap string (nat * option (VariableValue D)));
  last_portal : Z;
  deleted : gset nat
}.

Definition initial : state := State None 0 ∅.

(** The portal is dropped, and its context with it. *)
Definition drop_portal (p : portal) (s : state) : state :=
  State (statement_tab s) (last_portal s) ({[ PortalContext p ]} ∪ deleted s).

Definition current (p : portal) (s : state) : bool :=
  bool_decide (is_Some (statement_tab s)) && (last_portal s =? creation_time p)%Z.

Definition set_statement (p : portal) (name : option string) (value_type : Z) (arg : option D)
  : M state (option D) :=
  n ← lift_r (check_args SET_TYPE_ERROR name value_type);
  s ← get_st;
  _ ← when (negb (current p s))
        (put_st (State (Some (PortalContext p, ∅)) (creation_time p) (deleted s)));
  s ← get_st;
  match statement_tab s with
  | None => undefined "table is NULL"
  | Some (owner, m) =>
      if decide (owner ∈ deleted s) then undefined "use of a table whose context was deleted" else
      let found := bool_decide (is_Some (m !! n)) in
      let node := if found then PortalContext p else owner in
      let write c vv := put_st (State (Some (owner, <[n := (c, vv)]> m)) (last_portal s) (deleted s)) in
      _ ← write node None;
      v ← lift_r (store_value typbyval typlen detoast value_type arg);
      _ ← write (if typbyval value_type || bool_decide (arg = None) then node else PortalContext p)
            (Some (VV (bool_decide (arg = None)) value_type 0 v));
      mret v
  end.

Definition get_statement (p : portal) (name : option string) (value_type : Z) (dflt : option D)
  : M state (option D) :=
  n ← lift_r (check_args GET_TYPE_ERROR name value_type);
  s ← get_st;
  if negb (current p s) then mret dflt else
  match statement_tab s with
  | None => undefined "table is NULL"
  | Some (owner, m) =>
      if decide (owner ∈ deleted s) then undefined "use of a table whose context was deleted" else
      match m !! n with
      | None => mret dflt
      | Some (c, vvar) =>
          if decide (c ∈ deleted s) then undefined "use of a value whose context was deleted"
          else lift_r (read_value vvar value_type)
      end
  end.
End Statement.
Arguments state : clear implicits.
End Statement.

(** ** The backend that calls them

    A transaction has a top-level transaction id, assigned on demand, and a
    stack of subtransaction ids, the innermost first and the top level last;
    ids are handed out in increasing order and not reused
    ([GetCurrentSubTransactionId] starts at 1 in every transaction). *)

Inductive op {D : Type} :=
  | OBegin
  | OSet (name : option string) (value_type : Z) (arg : option D)
  | OGet (name : option string) (value_type : Z) (dflt : option D)
  | OSavepoint
  | ORelease
  | ORollback
  | OEnd (event : XactEvent).
Arguments op : clear implicits.

Section Backend.
Context {D : Type}.
Variables (typbyval : Z → bool) (typlen : Z → Z) (detoast : D → D) (pg16 : bool).

Record backend := Backend {
  vars : Txn.state D;
  xid : option Z;
  subs : list Z;
  next_sub : Z;
  next_xid : Z
}.

Definition initial : backend := Backend Txn.initial None [] 1 3.

Definition on_vars {A} (m : M (Txn.state D) A) : M backend A := λ b,
  let '(r, v) := m (vars b) in
  (r, Backend v (xid b) (subs b) (next_sub b) (next_xid b)).

(** [GetTopTransactionId()] *)
Definition assign_xid : M backend Z := λ b,
  match xid b with
  | Some x => (Ok x, b)
  | None => (Ok (next_xid b),
             Backend (vars b) (Some (next_xid b)) (subs b) (next_sub b) (next_xid b + 1))
  end.

Definition set_subs (l : list Z) (n : Z) (b : backend) : backend :=
  Backend (vars b) (xid b) l n (next_xid b).

(** The end of a transaction calls the transaction callback, if it is
    registered, and deletes [TopTransactionContext]. *)
Definition end_transaction (event : XactEvent) : M backend unit :=
  b ← get_st;
  _ ← when (Txn.transaction_callback_registered (vars b))
        (on_vars (Txn.transaction_callback pg16 event));
  modify_st (λ b, Backend (Txn.set_current_tab (free_htab (Txn.current_tab (vars b))) (vars b))
                    None [] 1 (next_xid b)).

(** One request; requests PostgreSQL does not accept in a state do
    nothing. *)
Definition step (o : op D) : M backend (option D) :=
  b ← get_st;
  match o, subs b with
  | OBegin, [] => _ ← put_st (set_subs [1%Z] 2 b); mret None
  | OSet name ty arg, sub :: _ =>
      _ ← lift_r (check_args SET_TYPE_ERROR name ty);
      txnid ← assign_xid;
      on_vars (Txn.set typbyval typlen detoast txnid sub name ty arg)
  | OGet name ty dflt, _ :: _ => on_vars (Txn.get (xid b) name ty dflt)
  | OSavepoint, _ :: _ =>
      _ ← put_st (set_subs (next_sub b :: subs b) (next_sub b + 1) b); mret None
  | ORelease, _ :: sub :: rest =>
      _ ← put_st (set_subs (sub :: rest) (next_sub b) b); mret None
  | ORollback, sub :: parent :: rest =>
      _ ← when (Txn.subtransaction_callback_registered (vars b))
            (on_vars (Txn.subtransaction_callback SUBXACT_EVENT_ABORT_SUB sub));
      _ ← modify_st (λ b, set_subs (parent :: rest) (next_sub b) b); mret None
  | OEnd event, _ :: _ => _ ← end_transaction event; mret None
  | _, _ => mret None
  end.

Fixpoint run (ops : list (op D)) (b : backend) : list (result (option D)) :=
  match ops with
  | [] => []
  | o :: ops' => let '(r, b') := step o b in r :: run ops' b'
  end.
End Backend.
Arguments backend : clear implicits.

(** ** The contract: a stack of frames *)

Module Spec.
Section Spec.
Context {D : Type}.
Variables (typbyval : Z → bool) (typlen : Z → Z) (detoast : D → D).

Abbreviation frame := (gmap string (Z * option D)).

Fixpoint lookup_var (fs : list frame) (n : string) : option (Z * option D) :=
  match fs with
  | [] => None
  | f :: fs' => match f !! n with Some v => Some v | None => lookup_var fs' n end
  end.

Definition read (v : option (Z * option D)) (ty : Z) (dflt : option D) : result (option D) :=
  match v with
  | None => Ok dflt
  | Some (_, None) => Ok None
  | Some (oid, Some d) => if (oid =? ty)%Z then Ok (Some d) else raise "type mismatch"
  end.

(** [set] writes the innermost frame, a savepoint adds one, its release
    merges it into the enclosing one and its rollback drops it. *)
Definition step (o : op D) (fs : list frame) : result (option D) * list frame :=
  match o, fs with
  | OBegin, [] => (Ok None, [∅])
  | OSet name ty arg, f :: fs' =>
      match check_args SET_TYPE_ERROR name ty with
      | Ok n => match store_value typbyval typlen detoast ty arg with
                | Ok v => (Ok v, <[n := (ty, v)]> f :: fs')
                | Err e => (Err e, fs)
                | Undefined w => (Undefined w, fs)
                end
      | Err e => (Err e, fs)
      | Undefined w => (Undefined w, fs)
      end
  | OGet name ty dflt, _ :: _ =>
      (n ← check_args GET_TYPE_ERROR name ty; read (lookup_var fs n) ty dflt, fs)
  | OSavepoint, _ :: _ => (Ok None, ∅ :: fs)
  | ORelease, f :: g :: fs' => (Ok None, f ∪ g :: fs')
  | ORollback, _ :: g :: fs' => (Ok None, g :: fs')
  | OEnd _, _ :: _ => (Ok None, [])
  | _, _ => (Ok None, fs)
  end.

Fixpoint run (ops : list (op D)) (fs : list frame) : list (result (option D)) :=
  match ops with
  | [] => []
  | o :: ops' => let '(r, fs') := step o fs in r :: run ops' fs'
  end.
End Spec.
End Spec.

(** The requests for which the code keeps the contract: a [set] whose value
    can be copied and which does not throw away the values of enclosing
    subtransactions, and any end of transaction but [PREPARE TRANSACTION]. *)
Section Discipline.
Context {D : Type}.
Variables (typbyval : Z → bool) (typlen : Z → Z) (detoast : D → D) (pg16 : bool).

(** The variables of the running transaction. *)
Definition live_tab (b : backend D) : gmap string (Variable' D) :=
  if bool_decide (xid b = Some (Txn.last_used_txnid (vars b)))
  then match Txn.current_tab (vars b) with TabLive m => m | _ => ∅ end
  else ∅.

Definition older (sub : Z) (n : option (VariableValue D)) : bool :=
  match n with Some v => (subxactid v <? sub)%Z | None => true end.

Definition keeps_history (b : backend D) (n : string) : bool :=
  match subs b, live_tab b !! n with
  | sub :: _, Some (head :: previous) =>
      older sub head || forallb (λ p, negb (older sub p)) previous
  | _, _ => true
  end.

Definition op_ok (b : backend D) (o : op D) : bool :=
  match o with
  | OSet (Some n) ty _ => (typbyval ty || (-1 <=? typlen ty)%Z) && keeps_history b n
  | OEnd XACT_EVENT_COMMIT | OEnd XACT_EVENT_ABORT => true
  | OEnd _ => false
  | _ => true
  end.

Fixpoint run_ok (ops : list (op D)) (b : backend D) : bool :=
  match ops with
  | [] => true
  | o :: ops' => op_ok b o && run_ok ops' (snd (step typbyval typlen detoast pg16 o b))
  end.
End Discipline.

(** ** The refinement *)

Section Refinement.
Context {D : Type}.
Variables (typbyval : Z → bool) (typlen : Z → Z) (detoast : D → D) (pg16 : bool).
Implicit Types (b : backend D) (c : Variable' D) (fs : list (gmap string (Z * option D))).

(** A value as the contract sees it. *)
Definition abs (v : VariableValue D) : Z * option D := (oid v, value v).

Definition below (bound : option Z) (v : VariableValue D) : bool :=
  match bound with None => true | Some z => (subxactid v <? z)%Z end.

(** The first value of the chain set below [bound]. *)
Fixpoint view (bound : option Z) c : option (Z * option D) :=
  match c with
  | [] => None
  | None :: c' => view bound c'
  | Some v :: c' => if below bound v then Some (abs v) else view bound c'
  end.

(** The chain gives every suffix of the stack of frames its value: the
    innermost frames without a bound, the others below the id of the frame
    that would be rolled back. *)
Fixpoint agree (n : string) c (bound : option Z) fs (ss : list Z) : Prop :=
  view bound c = Spec.lookup_var fs n ∧
  match fs, ss with
  | _ :: fs', z :: ss' => agree n c (Some z) fs' ss'
  | [], [] => True
  | _, _ => False
  end.

Lemma agree_ext n c c' : ∀ fs ss B B',
  (∀ z, z ∈ ss → view (Some z) c = view (Some z) c') → view B c = view B' c' →
  agree n c B fs ss → agree n c' B' fs ss.
Proof.
  induction fs as [|f fs IH]; intros [|z ss] B B' Hz HB; cbn; rewrite HB; try tauto.
  intros [H1 H2]. split; [done|]. apply (IH ss (Some z)); [|apply Hz; constructor|done].
  intros y Hy. apply Hz. by constructor.
Qed.

Lemma agree_length n c : ∀ fs ss B, agree n c B fs ss → length fs = length ss.
Proof.
  induction fs as [|f fs IH]; intros [|z ss] B; cbn; try tauto.
  intros [_ H]. f_equal. by eapply IH.
Qed.

(** Values as the code writes them. *)
Definition written (v : VariableValue D) : Prop := isnull v = true ↔ value v = None.

Definition chain_ok (bound : Z) c : Prop :=
  c ≠ [] ∧ Forall (λ n, ∃ v, n = Some v ∧ written v ∧ (1 <= subxactid v < bound)%Z) c.

Lemma view_head bound c v c' : chain_ok bound c → c = Some v :: c' → view None c = Some (abs v).
Proof. by intros _ ->. Qed.

Lemma view_bound bound c : chain_ok bound c → view (Some bound) c = view None c.
Proof.
  intros [Hne Hc]. destruct Hc as [|x c (v & -> & _ & Hv)]; [done|]. cbn.
  by rewrite (proj2 (Z.ltb_lt _ _)) by lia.
Qed.

Lemma view_low bound c z : chain_ok bound c → (z <= 1)%Z → view (Some z) c = None.
Proof.
  intros [_ Hc] Hz. induction Hc as [|x c (v & -> & _ & Hv) _ IH]; [done|]. cbn.
  by rewrite (proj2 (Z.ltb_ge _ _)) by lia.
Qed.

Lemma restore_ok bound z c : chain_ok bound c →
  Txn.restore_defined z c = true ∧
  match Txn.restore z c with
  | None => view (Some z) c = None
  | Some c' => chain_ok bound c' ∧ view None c' = view (Some z) c
  end ∧
  (∀ y, (y <= z)%Z → view (Some y) (default [] (Txn.restore z c)) = view (Some y) c).
Proof.
  intros [Hne Hc]. induction Hc as [|x c (v & -> & Hw & Hv) Hc IH]; [done|]. cbn.
  destruct (Z.leb_spec z (subxactid v)) as [Hz|Hz].
  - rewrite (proj2 (Z.ltb_ge _ _)) by lia. destruct c as [|x' c].
    + repeat split; try done. intros y Hy. cbn. by rewrite (proj2 (Z.ltb_ge _ _)) by lia.
    + destruct IH as (H1 & H2 & H3); [done|]. repeat split; [done|done|].
      intros y Hy. rewrite H3 by done. by rewrite (proj2 (Z.ltb_ge (subxactid v) y)) by lia.
  - rewrite (proj2 (Z.ltb_lt _ _)) by lia. repeat split; try done.
    constructor; [|done]. eauto.
Qed.

(** The chains of the running transaction and the frames; [tab] is
    [live_tab]. *)
Definition tab_ok (tab : gmap string (Variable' D)) (ss : list Z) (bound : Z) fs : Prop :=
  (∀ n c, tab !! n = Some c → chain_ok bound c) ∧
  (∀ n, agree n (default [] (tab !! n)) None fs ss).

Record R b fs : Prop := MkR {
  R_subs : StronglySorted Z.gt (subs b);
  R_sub_bounds : Forall (λ z, 1 <= z < next_sub b)%Z (subs b);
  R_next_sub : (1 <= next_sub b)%Z;
  R_xid : ∀ x, xid b = Some x → subs b ≠ [] ∧ (0 < x < next_xid b)%Z;
  R_next : (0 < next_xid b ∧ Txn.last_used_txnid (vars b) < next_xid b)%Z;
  R_live : xid b = Some (Txn.last_used_txnid (vars b)) →
    (∃ m, Txn.current_tab (vars b) = TabLive m) ∧
    Txn.subtransaction_callback_registered (vars b) = true ∧
    Txn.transaction_callback_registered (vars b) = true;
  R_idle : xid b ≠ Some (Txn.last_used_txnid (vars b)) →
    Txn.subtransaction_callback_registered (vars b) = false;
  R_tab : tab_ok (live_tab b) (subs b) (next_sub b) fs
}.

Lemma agree_empty n ss : agree n [] None (replicate (length ss) ∅) ss.
Proof.
  cut (∀ B, agree n [] B (replicate (length ss) ∅) ss); [auto|].
  induction ss as [|z ss IH]; intros B; cbn; [done|]. split; [|apply IH].
  clear. induction ss; cbn; [done|]. done.
Qed.

Lemma R_initial : R initial [].
Proof.
  split; cbn; try done; try constructor; try lia; try done.
Qed.

(** *** One request *)

Lemma R_frames b fs : R b fs → length fs = length (subs b).
Proof. intros H. destruct (R_tab _ _ H) as [_ Ha]. eapply agree_length, (Ha ""). Qed.

Lemma tab_view_bound tab ss bound fs n : tab_ok tab ss bound fs →
  view (Some bound) (default [] (tab !! n)) = view None (default [] (tab !! n)).
Proof. intros [Hc _]. destruct (tab !! n) as [c|] eqn:E; [|done]. by apply view_bound, (Hc n). Qed.

Lemma chain_ok_mono x y c : (x <= y)%Z → chain_ok x c → chain_ok y c.
Proof.
  intros Hb [Hne Hc]. split; [done|]. eapply Forall_impl; [done|].
  intros z (v & -> & Hw & Hv). exists v. repeat split; try apply Hw; lia.
Qed.

Lemma tab_ok_push tab ss bound fs : tab_ok tab ss bound fs →
  tab_ok tab (bound :: ss) (bound + 1) (∅ :: fs).
Proof.
  intros H. pose proof H as [Hc Ha]. split.
  - intros n c E. eapply chain_ok_mono; [|by apply (Hc n)]. lia.
  - intros n. cbn. rewrite lookup_empty. pose proof (Ha n) as Hn. split.
    + destruct fs; apply Hn.
    + eapply agree_ext; [done| |apply Hn]. symmetry. by eapply tab_view_bound.
Qed.

Lemma tab_ok_merge tab s t ss bound f g fs : tab_ok tab (s :: t :: ss) bound (f :: g :: fs) →
  tab_ok tab (t :: ss) bound (f ∪ g :: fs).
Proof.
  intros [Hc Ha]. split; [done|]. intros n. destruct (Ha n) as (H1 & _ & H2). split; [|done].
  rewrite H1. cbn. rewrite lookup_union. by destruct (f !! n), (g !! n).
Qed.

Lemma tab_ok_pop tab z ss bound f fs : StronglySorted Z.gt (z :: ss) →
  tab_ok tab (z :: ss) bound (f :: fs) → tab_ok (omap (Txn.restore z) tab) ss bound fs.
Proof.
  intros Hs [Hc Ha]. apply StronglySorted_inv in Hs as [_ Hs]. split.
  - intros n c'. rewrite lookup_omap. destruct (tab !! n) as [c|] eqn:E; [|done]. cbn.
    destruct (restore_ok bound z c (Hc n c E)) as (_ & H & _). intros Hr. rewrite Hr in H. apply H.
  - intros n. destruct (Ha n) as [_ H]. rewrite lookup_omap.
    destruct (tab !! n) as [c|] eqn:E; cbn in *.
    + destruct (restore_ok bound z c (Hc n c E)) as (_ & H1 & H2).
      eapply agree_ext; [| |exact H].
      * intros y Hy. rewrite Forall_forall in Hs. rewrite H2; [done|]. apply Hs in Hy. lia.
      * destruct (Txn.restore z c); cbn; [symmetry; apply H1|done].
    + by eapply agree_ext; [| |exact H].
Qed.

Lemma view_none z sub c : (z <= sub)%Z → forallb (λ p, negb (older sub p)) c = true →
  view (Some z) c = None.
Proof.
  intros Hz. induction c as [|[v|] c IH]; cbn; [done| |done].
  intros [H1 H2]%andb_prop. apply negb_true_iff, Z.ltb_ge in H1.
  rewrite (proj2 (Z.ltb_ge _ _)) by lia. by apply IH.
Qed.

(** What [set] leaves as [previous] of the value it writes. *)
Definition kept (sub : Z) (c : option (Variable' D)) : Variable' D :=
  match c with
  | Some (Some v :: previous) => if (subxactid v <? sub)%Z then Some v :: previous else []
  | _ => []
  end.

Lemma view_kept z sub (c : option (Variable' D)) : (z <= sub)%Z →
  (∀ v previous, c = Some (Some v :: previous) →
    older sub (Some v) || forallb (λ p, negb (older sub p)) previous = true) →
  (∀ c', c = Some c' → ∃ v p, c' = Some v :: p) →
  view (Some z) (kept sub c) = view (Some z) (default [] c).
Proof.
  intros Hz Hk Hc. destruct c as [c|]; [|done].
  destruct (Hc c eq_refl) as (v & p & ->). cbn. specialize (Hk v p eq_refl).
  cbn in Hk. destruct (Z.ltb_spec (subxactid v) sub) as [Hv|Hv]; [done|].
  rewrite (proj2 (Z.ltb_ge _ _)) by lia. symmetry. by apply (view_none z sub).
Qed.

Lemma agree_insert n n' c B v f fs ss : n ≠ n' →
  agree n' c B (f :: fs) ss → agree n' c B (<[n := v]> f :: fs) ss.
Proof. intros Hn. cbn. by rewrite lookup_insert_ne. Qed.

Lemma tab_ok_set tab sub ss bound f fs n (v : VariableValue D) :
  StronglySorted Z.gt (sub :: ss) → (1 <= sub < bound)%Z → written v → subxactid v = sub →
  (∀ v0 previous, tab !! n = Some (Some v0 :: previous) →
    older sub (Some v0) || forallb (λ p, negb (older sub p)) previous = true) →
  tab_ok tab (sub :: ss) bound (f :: fs) →
  tab_ok (<[n := Some v :: kept sub (tab !! n)]> tab) (sub :: ss) bound (<[n := abs v]> f :: fs).
Proof.
  intros Hs Hb Hw Hv Hk [Hc Ha]. apply StronglySorted_inv in Hs as [_ Hs].
  assert (Hcons : ∀ c', tab !! n = Some c' → ∃ v p, c' = Some v :: p).
  { intros c' E. destruct (Hc n c' E) as [Hne HF].
    destruct HF as [|x p (v0 & -> & _)]; [done|]. by exists v0, p. }
  split; intros n'.
  - intros c. destruct (decide (n = n')) as [<-|Hn]; [|rewrite lookup_insert_ne by done; apply Hc].
    rewrite lookup_insert_eq. intros [= <-]. split; [done|]. constructor.
    + exists v. rewrite Hv. eauto.
    + destruct (tab !! n) as [c|] eqn:E; [|constructor].
      destruct (Hcons c eq_refl) as (v0 & p & ->). cbn. destruct (_ <? _)%Z; [|constructor].
      apply (Hc n _ E).
  - destruct (decide (n = n')) as [<-|Hn].
    + rewrite lookup_insert_eq. cbn. rewrite lookup_insert_eq. split; [done|].
      destruct (Ha n) as [_ H]. eapply agree_ext; [| |exact H]; [intros z Hz|]; cbn; rewrite Hv.
      * rewrite Forall_forall in Hs. pose proof (Hs z Hz).
        rewrite (proj2 (Z.ltb_ge _ _)) by lia. symmetry. apply view_kept; [lia|done..].
      * rewrite Z.ltb_irrefl. symmetry. by apply view_kept.
    + rewrite lookup_insert_ne by done. by apply agree_insert.
Qed.

Lemma store_value_ok ty arg : typbyval ty || (-1 <=? typlen ty)%Z = true →
  ∃ v, store_value typbyval typlen detoast ty arg = Ok v ∧ (arg = None ↔ v = None).
Proof.
  unfold store_value. destruct (typbyval ty); cbn; [by eauto|].
  intros H%Z.leb_le. destruct arg as [d|]; [|by eauto].
  destruct (Z.eqb_spec (typlen ty) (-1)); [by eexists|].
  rewrite (proj2 (Z.ltb_ge _ _)) by lia. by eexists.
Qed.

Definition new_value (sub ty : Z) (arg v : option D) : VariableValue D :=
  VV (bool_decide (arg = None)) ty sub v.

Lemma set_eval st x sub n ty arg v m :
  ty ≠ InvalidOid → store_value typbyval typlen detoast ty arg = Ok v →
  (Txn.last_used_txnid st = x ∧ Txn.current_tab st = TabLive m ∨
   Txn.last_used_txnid st ≠ x ∧ m = ∅) →
  (∀ c, m !! n = Some c → ∃ v0 p, c = Some v0 :: p) →
  Txn.set typbyval typlen detoast x sub (Some n) ty arg st =
  (Ok v, Txn.State x (TabLive (<[n := Some (new_value sub ty arg v) :: kept sub (m !! n)]> m))
           true true).
Proof.
  intros Hty Hv Hm Hc. unfold Txn.set, check_args. rewrite (proj2 (Z.eqb_neq _ _)) by done.
  unfold mbind, M_bind, lift_r, modify_st, get_st, put_st, mret, M_ret, Txn.set_current_tab.
  cbn. assert (E : when (negb (Txn.last_used_txnid st =? x)%Z)
     (λ _ : Txn.state D, (Ok (), Txn.State x (TabLive ∅) true true))
     (Txn.State (Txn.last_used_txnid st) (Txn.current_tab st) true true) =
     (Ok (), Txn.State x (TabLive m) true true)).
  { destruct Hm as [[<- ->]|[H ->]]; [by rewrite Z.eqb_refl|].
    by rewrite (proj2 (Z.eqb_neq _ _)). }
  rewrite E. cbn. destruct (m !! n) as [c|] eqn:En.
  - destruct (Hc c eq_refl) as (v0 & p & ->). cbn.
    destruct (_ <? _)%Z; cbn; rewrite Hv; cbn; by rewrite insert_insert_eq || done.
  - cbn. rewrite Hv. cbn. done.
Qed.

(** The requests that only move the stack of subtransactions. *)
Lemma R_set_subs b fs fs' l n : R b fs → StronglySorted Z.gt l →
  Forall (λ z, 1 <= z < n)%Z l → l ≠ [] → tab_ok (live_tab b) l n fs' →
  R (set_subs l n b) fs'.
Proof.
  intros H Hs Hb Hne Ht. split; try done.
  - destruct Hb as [|z l Hz]; [done|]. cbn. lia.
  - intros x Hx. split; [done|]. by apply (R_xid _ _ H).
  - apply (R_next _ _ H).
  - apply (R_live _ _ H).
  - apply (R_idle _ _ H).
Qed.

Lemma live_tab_None b : xid b = None → live_tab b = ∅.
Proof. intros H. unfold live_tab. by rewrite H. Qed.

Lemma R_no_xid b fs : R b fs → subs b = [] → xid b = None.
Proof.
  intros H Hs. destruct (xid b) as [x|] eqn:E; [|done]. by destruct (R_xid _ _ H x E).
Qed.

Lemma step_begin b fs : R b fs → subs b = [] → R (set_subs [1%Z] 2 b) [∅].
Proof.
  intros H Hs. apply (R_set_subs _ _ _ _ _ H); try done.
  - repeat constructor.
  - repeat constructor; lia.
  - rewrite live_tab_None by by eapply R_no_xid. split; [done|]. by intros n.
Qed.

Lemma step_savepoint b fs : R b fs → R (set_subs (next_sub b :: subs b) (next_sub b + 1) b) (∅ :: fs).
Proof.
  intros H. pose proof (R_sub_bounds _ _ H) as Hb. rewrite Forall_forall in Hb.
  apply (R_set_subs _ _ _ _ _ H); [| |done|by apply tab_ok_push, (R_tab _ _ H)].
  - constructor; [apply (R_subs _ _ H)|]. apply Forall_forall. intros z Hz. specialize (Hb z Hz). lia.
  - constructor.
    + pose proof (R_next_sub _ _ H). lia.
    + apply Forall_forall. intros z Hz. specialize (Hb z Hz). lia.
Qed.

Lemma step_release b f g fs z y ss : R b (f :: g :: fs) → subs b = z :: y :: ss →
  R (set_subs (y :: ss) (next_sub b) b) (f ∪ g :: fs).
Proof.
  intros H Hs. pose proof (R_subs _ _ H) as H1. pose proof (R_sub_bounds _ _ H) as H2.
  pose proof (R_tab _ _ H) as H3. rewrite Hs in *.
  apply (R_set_subs _ _ _ _ _ H); [| |done|].
  - by apply StronglySorted_inv in H1 as [H1 _].
  - by apply Forall_cons_1 in H2 as [_ H2].
  - by eapply tab_ok_merge.
Qed.

Lemma live_tab_live b m : xid b = Some (Txn.last_used_txnid (vars b)) →
  Txn.current_tab (vars b) = TabLive m → live_tab b = m.
Proof. intros H1 H2. unfold live_tab. by rewrite bool_decide_eq_true_2, H2. Qed.

Lemma live_tab_idle b : xid b ≠ Some (Txn.last_used_txnid (vars b)) → live_tab b = ∅.
Proof. intros H1. unfold live_tab. by rewrite bool_decide_eq_false_2. Qed.

Lemma step_rollback b f fs z y ss : R b (f :: fs) → subs b = z :: y :: ss →
  ∃ b', step typbyval typlen detoast pg16 ORollback b = (Ok None, b') ∧ R b' fs.
Proof.
  intros H Hs. unfold step, mbind, M_bind, get_st. rewrite Hs.
  pose proof (R_subs _ _ H) as H1. pose proof (R_sub_bounds _ _ H) as H2.
  pose proof (R_tab _ _ H) as H3. rewrite Hs in *.
  pose proof (tab_ok_pop _ _ _ _ _ _ H1 H3) as Hpop.
  apply StronglySorted_inv in H1 as [H1 _]. apply Forall_cons_1 in H2 as [_ H2].
  destruct (decide (xid b = Some (Txn.last_used_txnid (vars b)))) as [Hl|Hl].
  - destruct (R_live _ _ H Hl) as ([m Hm] & Hr1 & Hr2). rewrite Hr1.
    rewrite (live_tab_live b m Hl Hm) in *. cbn. unfold on_vars. cbn. rewrite Hm.
    rewrite decide_True.
    2:{ intros n c E. apply (restore_ok (next_sub b)). by apply H3 in E. }
    eexists. split; [reflexivity|]. split; cbn; try done.
    + apply (R_next_sub _ _ H).
    + intros x Hx. split; [done|]. by apply (R_xid _ _ H).
    + apply (R_next _ _ H).
    + intros _. eauto.
    + unfold live_tab. cbn. by rewrite bool_decide_eq_true_2.
  - rewrite (R_idle _ _ H Hl). rewrite (live_tab_idle b Hl) in *. cbn.
    eexists. split; [reflexivity|]. apply (R_set_subs _ _ _ _ _ H); try done.
    by rewrite (live_tab_idle b Hl).
Qed.

Lemma step_end b f fs e : R b (f :: fs) → e = XACT_EVENT_COMMIT ∨ e = XACT_EVENT_ABORT →
  ∃ b', end_transaction pg16 e b = (Ok (), b') ∧ R b' [].
Proof.
  intros H He. unfold end_transaction, mbind, M_bind, get_st, modify_st.
  assert (G : ∀ v, Txn.last_used_txnid v = Txn.last_used_txnid (vars b) →
    Txn.subtransaction_callback_registered v = false →
    R (Backend (Txn.set_current_tab (free_htab (Txn.current_tab v)) v) None [] 1 (next_xid b)) []).
  { intros v Hv Hs. split; cbn; try done; try constructor; try lia; try done.
    - pose proof (R_next _ _ H). lia.
    - rewrite Hv. apply (R_next _ _ H). }
  destruct (Txn.transaction_callback_registered (vars b)) eqn:Et; cbn.
  - unfold on_vars. destruct He as [-> | ->]; cbn; eexists; (split; [reflexivity|]);
      by apply (G (Txn.State _ _ false _)).
  - eexists. split; [reflexivity|]. apply G; [done|].
    destruct (decide (xid b = Some (Txn.last_used_txnid (vars b)))) as [Hl|Hl].
    + destruct (R_live _ _ H Hl) as (_ & _ & Hr). congruence.
    + by apply (R_idle _ _ H).
Qed.

Lemma step_get b fs name ty dflt : R b fs →
  Txn.get (xid b) name ty dflt (vars b) =
  (n ← check_args GET_TYPE_ERROR name ty; Spec.read (Spec.lookup_var fs n) ty dflt, vars b).
Proof.
  intros H. unfold Txn.get, mbind, M_bind, result_bind, lift_r, get_st.
  destruct (check_args _ _ _) as [n|e|w]; [|done|done].
  destruct (R_tab _ _ H) as [Hc Ha]. specialize (Ha n).
  assert (Hv : view None (default [] (live_tab b !! n)) = Spec.lookup_var fs n)
    by (destruct fs; apply Ha).
  destruct (decide (xid b = Some (Txn.last_used_txnid (vars b)))) as [Hl|Hl].
  - rewrite bool_decide_eq_true_2 by done.
    destruct (R_live _ _ H Hl) as ([m Hm] & _). rewrite Hm.
    rewrite (live_tab_live b m Hl Hm) in *.
    destruct (m !! n) as [c|] eqn:En; cbn in Hv; rewrite <- Hv; [|done].
    destruct (Hc n c En) as [Hne HF]. destruct HF as [|x c (v & -> & Hw & _)]; [done|].
    cbn. unfold written in Hw. destruct (value v) as [d|] eqn:Ed.
    + destruct (isnull v); [by destruct Hw as [Hw _]; discriminate Hw|].
      by destruct (oid v =? ty)%Z.
    + by rewrite (proj2 Hw).
  - rewrite bool_decide_eq_false_2 by done. rewrite (live_tab_idle b Hl) in Hv. cbn in Hv.
    by rewrite <- Hv.
Qed.

Lemma assign_xid_eval b fs : R b fs → ∃ x b1,
  assign_xid b = (Ok x, b1) ∧ xid b1 = Some x ∧ vars b1 = vars b ∧ subs b1 = subs b ∧
  next_sub b1 = next_sub b ∧ (0 < x < next_xid b1)%Z ∧
  (Txn.last_used_txnid (vars b) < next_xid b1)%Z ∧
  (Txn.last_used_txnid (vars b) = x ↔ xid b = Some (Txn.last_used_txnid (vars b))).
Proof.
  intros H. pose proof (R_next _ _ H) as Hn. unfold assign_xid. destruct (xid b) as [x|] eqn:E.
  - exists x, b. repeat split; try done; try apply (R_xid _ _ H x E); try lia.
    + by intros ->.
    + congruence.
  - eexists _, _. split; [reflexivity|]. cbn. repeat split; try done; lia.
Qed.

Lemma step_set b f fs z ss n ty arg : R b (f :: fs) → subs b = z :: ss → ty ≠ InvalidOid →
  typbyval ty || (-1 <=? typlen ty)%Z = true → keeps_history b n = true →
  ∃ v b', store_value typbyval typlen detoast ty arg = Ok v ∧
    step typbyval typlen detoast pg16 (OSet (Some n) ty arg) b = (Ok v, b') ∧
    R b' (<[n := (ty, v)]> f :: fs).
Proof.
  intros H Hs Hty Hlen Hk. destruct (store_value_ok ty arg Hlen) as (v & Hv & Hnull).
  exists v. destruct (assign_xid_eval b _ H) as (x & b1 & Ea & Hx & Hvars & Hsubs & Hns & Hx0 & Hnx & Hiff).
  pose proof (R_tab _ _ H) as Htab. pose proof (R_subs _ _ H) as Hsort.
  pose proof (R_sub_bounds _ _ H) as Hbd. rewrite Hs in Htab, Hsort, Hbd.
  assert (Hcons : ∀ c, live_tab b !! n = Some c → ∃ v0 p, c = Some v0 :: p).
  { intros c E. destruct (proj1 Htab n c E) as [Hne HF].
    destruct HF as [|y p (v0 & -> & _)]; [done|]. by exists v0, p. }
  assert (Hm : Txn.last_used_txnid (vars b) = x ∧ Txn.current_tab (vars b) = TabLive (live_tab b) ∨
               Txn.last_used_txnid (vars b) ≠ x ∧ live_tab b = ∅).
  { destruct (decide (Txn.last_used_txnid (vars b) = x)) as [E|E].
    - left. split; [done|]. apply Hiff in E. destruct (R_live _ _ H E) as ([m Hm] & _).
      by rewrite (live_tab_live b m E Hm).
    - right. split; [done|]. apply live_tab_idle. by rewrite <- Hiff. }
  pose proof (set_eval (vars b) x z n ty arg v (live_tab b) Hty Hv Hm Hcons) as Eset.
  eexists. split; [done|]. split.
  - unfold step, mbind, M_bind, get_st. rewrite Hs. unfold lift_r. cbn [check_args].
    rewrite (proj2 (Z.eqb_neq ty _)) by done. rewrite Ea. unfold on_vars. rewrite Hvars, Eset.
    reflexivity.
  - assert (Hset : tab_ok (<[n := Some (new_value z ty arg v) :: kept z (live_tab b !! n)]> (live_tab b))
      (z :: ss) (next_sub b) (<[n := abs (new_value z ty arg v)]> f :: fs)).
    { apply tab_ok_set; try done.
      - by apply Forall_cons_1 in Hbd as [Hbd _].
      - unfold written, new_value. cbn. by rewrite bool_decide_eq_true.
      - intros v0 p E. unfold keeps_history in Hk. by rewrite Hs, E in Hk. }
    split; cbn; rewrite ?Hsubs, ?Hns, ?Hs; try done.
    + apply (R_next_sub _ _ H).
    + rewrite Hx. intros y [= <-]. done.
    + lia.
    + intros _. eauto.
    + unfold live_tab at 1. cbn. rewrite Hx. by rewrite bool_decide_eq_true_2.
Qed.

Lemma step_refines b fs o : R b fs → op_ok typbyval typlen b o = true →
  ∃ b', step typbyval typlen detoast pg16 o b =
          (fst (Spec.step typbyval typlen detoast o fs), b') ∧
        R b' (snd (Spec.step typbyval typlen detoast o fs)).
Proof.
  intros H Ho. pose proof (R_frames b fs H) as Hlen.
  assert (Hid : ∃ b', (Ok (None : option D), b) = (Ok None, b') ∧ R b' fs) by eauto.
  destruct o as [|name ty arg|name ty dflt| | | |e].
  - unfold step, mbind, M_bind, get_st. destruct (subs b) as [|z ss] eqn:Hs, fs as [|f fs]; try done.
    eexists. split; [reflexivity|]. by eapply step_begin.
  - destruct (subs b) as [|z ss] eqn:Hs, fs as [|f fs]; try done.
    { unfold step, mbind, M_bind, get_st. by rewrite Hs. }
    cbn [Spec.step]. destruct name as [n|]; [|].
    2:{ unfold step, mbind, M_bind, get_st. rewrite Hs. by exists b. }
    destruct (Z.eqb_spec ty InvalidOid) as [->|Hty].
    { unfold step, mbind, M_bind, get_st. rewrite Hs. by exists b. }
    cbn in Ho. apply andb_prop in Ho as [H1 H2].
    destruct (step_set b f fs z ss n ty arg H Hs Hty H1 H2) as (v & b' & Hv & E & HR).
    exists b'. unfold check_args. rewrite (proj2 (Z.eqb_neq ty _)) by done. by rewrite Hv.
  - unfold step, mbind at 1, M_bind at 1, get_st.
    destruct (subs b) as [|z ss] eqn:Hs, fs as [|f fs]; try done.
    unfold on_vars. rewrite (step_get b (f :: fs)) by done. exists b. split; [|done].
    by destruct b.
  - unfold step, mbind, M_bind, get_st. destruct (subs b) as [|z ss] eqn:Hs, fs as [|f fs]; try done.
    eexists. split; [reflexivity|]. rewrite <- Hs. by apply step_savepoint.
  - unfold step, mbind, M_bind, get_st.
    destruct (subs b) as [|z [|y ss]] eqn:Hs, fs as [|f [|g fs]]; try done.
    eexists. split; [reflexivity|]. by eapply step_release.
  - destruct (subs b) as [|z [|y ss]] eqn:Hs, fs as [|f [|g fs]]; try done.
    1,2: unfold step, mbind, M_bind, get_st; by rewrite Hs.
    by eapply step_rollback.
  - destruct (subs b) as [|z ss] eqn:Hs, fs as [|f fs]; try done.
    { unfold step, mbind, M_bind, get_st. by rewrite Hs. }
    destruct (step_end b f fs e H) as (b' & E & HR); [by destruct e; auto|].
    exists b'. unfold step, mbind, M_bind, get_st. rewrite Hs. by rewrite E.
Qed.

Lemma run_refines : ∀ ops b fs, R b fs →
  run_ok typbyval typlen detoast pg16 ops b = true →
  run typbyval typlen detoast pg16 ops b = Spec.run typbyval typlen detoast ops fs.
Proof.
  induction ops as [|o ops IH]; intros b fs H Hok; [done|].
  cbn in Hok. apply andb_prop in Hok as [Ho Hok].
  destruct (step_refines b fs o H Ho) as (b' & E & HR). cbn.
  rewrite E in *. destruct (Spec.step _ _ _ o fs) as [r fs']. cbn in *. f_equal. by apply IH.
Qed.

Lemma restore_spec z c v p : Txn.restore_defined z c = true →
  Txn.restore z c = Some (Some v :: p) ↔
  ∃ newer, c = newer ++ Some v :: p ∧ (subxactid v < z)%Z ∧
           Forall (λ x, ∃ w, x = Some w ∧ (z <= subxactid w)%Z) newer.
Proof.
  induction c as [|[w|] c IH]; cbn; intros Hd; [|destruct (Z.leb_spec z (subxactid w)) as [Hz|Hz]|done].
  - split; [done|]. intros (newer & E & _). by destruct newer.
  - assert (Hc : match c with [] => None | _ :: _ => Txn.restore z c end = Some (Some v :: p) ↔
                 Txn.restore z c = Some (Some v :: p)) by (by destruct c).
    rewrite Hc, (IH Hd). split.
    + intros (newer & -> & Hv & HF). exists (Some w :: newer). repeat split; [done|].
      constructor; [|done]. eauto.
    + intros ([|x newer] & E & Hv & HF); [injection E as -> ->; lia|].
      injection E as <- ->. apply Forall_cons_1 in HF as [_ HF]. eauto.
  - split.
    + intros [= -> ->]. exists []. auto.
    + intros ([|x newer] & E & Hv & HF); [by injection E as -> ->|].
      injection E as <- _. apply Forall_cons_1 in HF as [(w' & [= <-] & Hw) _]. lia.
Qed.
End Refinement.

(** ** Properties *)

(** C1. The transaction variables keep their contract: for every sequence of
    requests of a session (begin, set, get, savepoint, release, rollback,
    commit, abort) in which no [set] discards the value of an enclosing
    subtransaction and every value can be copied, the values and errors the
    code returns are those of a stack of frames in which [set] writes the
    innermost frame, release merges and rollback drops it. *)
Theorem txn_vars_refine {D} typbyval typlen (detoast : D → D) pg16 ops :
  run_ok typbyval typlen detoast pg16 ops initial = true →
  run typbyval typlen detoast pg16 ops initial = Spec.run typbyval typlen detoast ops [].
Proof. apply run_refines, R_initial. Qed.

Definition int4 : Z := 23.

(** A value set at the top level, overwritten in a savepoint that is rolled
    back, and another one set in a released savepoint. *)
Definition example_ops : list (op Z) :=
  [OBegin; OSet (Some "x") int4 (Some 1%Z); OSavepoint; OSet (Some "x") int4 (Some 2%Z);
   OSavepoint; OSet (Some "y") int4 None; ORelease; OGet (Some "x") int4 (Some 0%Z);
   ORollback; OGet (Some "x") int4 (Some 0%Z); OGet (Some "y") int4 (Some 7%Z);
   OEnd XACT_EVENT_COMMIT; OBegin; OGet (Some "x") int4 (Some 0%Z)].

Lemma txn_vars_refine_witness :
  run (λ _, true) (λ _, 4%Z) id true example_ops initial =
  [Ok None; Ok (Some 1%Z); Ok None; Ok (Some 2%Z); Ok None; Ok None; Ok None; Ok (Some 2%Z);
   Ok None; Ok (Some 1%Z); Ok (Some 7%Z); Ok None; Ok None; Ok (Some 0%Z)].
Proof. rewrite txn_vars_refine; [|vm_compute; reflexivity]. vm_compute. reflexivity. Defined.

(** A second [set] in the same subtransaction loses the value of the
    enclosing one: it writes [previous = NULL], so the rollback of the
    savepoint removes the variable instead of restoring the value set before
    the savepoint, which the contract returns. *)
Theorem txn_second_set_loses_outer_value :
  let ops := [OBegin; OSet (Some "x") int4 (Some 1%Z); OSavepoint;
              OSet (Some "x") int4 (Some 2%Z); OSet (Some "x") int4 (Some 3%Z);
              ORollback; OGet (Some "x") int4 (Some 0%Z)] in
  last (run (λ _, true) (λ _, 4%Z) id true ops initial) = Some (Ok (Some 0%Z)) ∧
  last (Spec.run (λ _, true) (λ _, 4%Z) id ops []) = Some (Ok (Some 1%Z)).
Proof. vm_compute. done. Qed.

(** [PREPARE TRANSACTION] leaves the subtransaction callback registered
    with a table that died with the transaction's memory context: the abort
    of a savepoint in the next transaction, which sets no variable, walks
    freed memory. *)
Theorem txn_prepare_leaves_dangling_table pg16 :
  last (run (λ _, true) (λ _, 4%Z) id pg16
    [OBegin; OSet (Some "x") int4 (Some 1%Z); OEnd XACT_EVENT_PREPARE;
     OBegin; OSavepoint; ORollback] initial) =
  Some (Undefined "use of a table whose context was deleted").
Proof. destruct pg16; vm_compute; reflexivity. Qed.

(** The rollback of a subtransaction keeps, for every variable, exactly
    the part of the chain that starts at the latest value set before that
    subtransaction, whatever was set in it and in the subtransactions inside
    it; a variable without such a value is gone. *)
Theorem txn_abort_restores {D} (m m' : gmap string (Variable' D)) st st' z n :
  Txn.current_tab st = TabLive m →
  Txn.subtransaction_callback SUBXACT_EVENT_ABORT_SUB z st = (Ok (), st') →
  Txn.current_tab st' = TabLive m' →
  ∀ v p, m' !! n = Some (Some v :: p) ↔
    ∃ newer, m !! n = Some (newer ++ Some v :: p) ∧ (subxactid v < z)%Z ∧
             Forall (λ x, ∃ w, x = Some w ∧ (z <= subxactid w)%Z) newer.
Proof.
  intros Hm Hcb Hm' v p. unfold Txn.subtransaction_callback in Hcb. rewrite Hm in Hcb.
  destruct (decide _) as [Hdef|]; [|done]. injection Hcb as <-. cbn in Hm'. injection Hm' as <-.
  rewrite lookup_omap. destruct (m !! n) as [c|] eqn:E; cbn.
  - specialize (Hdef n c E). clear E. rewrite (restore_spec z c v p Hdef).
    split; intros (newer & H); exists newer; intuition congruence.
  - split; [done|]. by intros (? & ? & _).
Qed.

Lemma txn_abort_restores_witness :
  ({[ "x" := [Some (VV false int4 1 (Some 1%Z))] ]} : gmap string (Variable' Z)) !! "x"
    = Some [Some (VV false int4 1 (Some 1%Z))] ↔
  ∃ newer, ({[ "x" := [Some (VV false int4 3 (Some 2%Z)); Some (VV false int4 1 (Some 1%Z))] ]}
              : gmap string (Variable' Z)) !! "x"
             = Some (newer ++ [Some (VV false int4 1 (Some 1%Z))]) ∧
           (subxactid (VV false int4 1 (Some 1%Z)) < 2)%Z ∧
           Forall (λ x, ∃ w, x = Some w ∧ (2 <= subxactid w)%Z) newer.
Proof.
  apply (txn_abort_restores
    {[ "x" := [Some (VV false int4 3 (Some 2%Z)); Some (VV false int4 1 (Some 1%Z))] ]}
    {[ "x" := [Some (VV false int4 1 (Some 1%Z))] ]}
    (Txn.State 3 (TabLive {[ "x" := [Some (VV false int4 3 (Some 2%Z)); Some (VV false int4 1 (Some 1%Z))] ]}) true true)
    (Txn.State 3 (TabLive {[ "x" := [Some (VV false int4 1 (Some 1%Z))] ]}) true true));
    vm_compute; reflexivity.
Defined.

(** A session variable is returned by [get_session] as [set_session]
    stored it, until it is set again: setting another variable does not
    change it, a NULL stays NULL whatever the default, and another type is
    refused. *)
Theorem session_get_set {D} typbyval typlen (detoast : D → D) s s' n ty arg v ty' dflt :
  Session.set_session typbyval typlen detoast (Some n) ty arg s = (Ok v, s') →
  ty' ≠ InvalidOid →
  Session.get_session (Some n) ty' dflt s' =
    (match arg with
     | None => Ok None
     | Some _ => if (ty =? ty')%Z then Ok v else raise "type mismatch"
     end, s') ∧
  ∀ n' , n' ≠ n → fst (Session.get_session (Some n') ty' dflt s') =
                  fst (Session.get_session (Some n') ty' dflt s).
Proof.
  intros Hset Hty'. unfold Session.set_session, Session.get_session in *.
  unfold mbind, M_bind, lift_r, modify_st, get_st, put_st, mret, M_ret in *. cbn in *.
  rewrite (proj2 (Z.eqb_neq ty' _)) by done. destruct (Z.eqb_spec ty InvalidOid); [done|].
  cbn in Hset. assert (Hs : ∃ m, match s with TabNull => TabLive ∅ | s => s end = TabLive m ∧
      (s = TabLive m ∨ s = TabNull ∧ m = ∅)) by (destruct s; eauto; done).
  destruct Hs as (m & Em & Hs). rewrite Em in Hset.
  destruct (store_value _ _ _ _ _) as [v0|e|w] eqn:Ev; cbn in Hset; [|done|done].
  injection Hset as -> <-. rewrite lookup_insert_eq. split.
  - unfold read_value. cbn. destruct arg; cbn; [by destruct (ty =? ty')%Z|done].
  - intros n' Hn. rewrite lookup_insert_ne by done.
    destruct Hs as [->|[-> ->]]; [by destruct (m !! n')|]. by rewrite lookup_empty.
Qed.

Lemma session_get_set_witness :
  let s := snd (Session.set_session (λ _, true) (λ _, 4%Z) id (Some "x") int4 (Some 5%Z) TabNull) in
  Session.get_session (Some "x") int4 None s = (Ok (Some 5%Z), s) ∧
  ∀ n', n' ≠ "x" → fst (Session.get_session (Some n') int4 None s) = Ok None.
Proof.
  intros s. apply (session_get_set (λ _, true) (λ _, 4%Z) id TabNull s "x" int4 (Some 5%Z)
    (Some 5%Z) int4 None); [reflexivity|done].
Defined.

(** Two portals with the same [creation_time] share the statement
    variables although each has its own memory context: once the first is
    dropped, [get_statement] from the second reads the deleted table. *)
Theorem statement_portals_share_table {D} (d : D) t c1 c2 : c1 ≠ c2 →
  let p1 := Statement.Portal t c1 in
  let p2 := Statement.Portal t c2 in
  let s := snd (Statement.set_statement (λ _, true) (λ _, 4%Z) id p1 (Some "x") int4 (Some d)
                  Statement.initial) in
  fst (Statement.get_statement p1 (Some "x") int4 None s) = Ok (Some d) ∧
  fst (Statement.get_statement p2 (Some "x") int4 None (Statement.drop_portal p1 s)) =
    Undefined "use of a table whose context was deleted".
Proof.
  intros Hc p1 p2 s.
  assert (Hs : s = Statement.State (Some (c1, {[ "x" := (c1, Some (VV false int4 0 (Some d))) ]})) t ∅).
  { unfold s, Statement.set_statement, mbind, M_bind, lift_r, get_st, put_st, mret, M_ret. cbn.
    by rewrite decide_False by set_solver. }
  unfold Statement.get_statement, mbind, M_bind, lift_r, get_st, mret, M_ret, Statement.current.
  rewrite Hs. cbn -[lookup]. rewrite Z.eqb_refl. cbn -[lookup].
  rewrite lookup_singleton_eq, decide_False by apply not_elem_of_empty. split; [done|].
  by rewrite decide_True by (apply elem_of_union; left; by apply elem_of_singleton).
Qed.

Lemma statement_portals_share_table_witness :
  1 ≠ 2 ∧
  fst (Statement.get_statement (Statement.Portal 9 2) (Some "x") int4 None
    (Statement.drop_portal (Statement.Portal 9 1)
      (snd (Statement.set_statement (λ _, true) (λ _, 4%Z) id (Statement.Portal 9 1) (Some "x") int4
              (Some 3) Statement.initial)))) =
    Undefined "use of a table whose context was deleted".
Proof.
  split; [done|].
  apply (statement_portals_share_table 3 9 1 2). done.
Defined.
End VarScopes.
