(* ===== verification/Linearization.v ===== *)
(** * Linearized transactions: [omni_txn/linearization.c]

    Every backend has a slot in shared memory ([Control]) where committing
    transactions record the relations they wrote; a transaction that reads
    such a relation afterwards fails.  The state is the shared control block
    and the static variables of one backend; [me] is its [MyProcNumber].
    Predicate locks, the serializable transaction of the backend and the
    query are PostgreSQL's and arguments here.  A callback runs without
    interleaving with other backends. *)

From stdpp Require Import base tactics list gmap strings numbers.
From Stdlib Require Import ZArith Lia.
From S2P Require Import Prelude.

Module Linearization.

Inductive LinearizedBackendStatus :=
  | Linearized_Inactive | Linearized_In_Progress | Linearized_Committing.

#[export] Instance status_eq_dec : EqDecision LinearizedBackendStatus.
Proof. solve_decision. Defined.

Definition MAX_CONFLICTS : Z := 1024.

Record LinearizationConflict := Conflict { txid : Z; rel : Z }.

(** [xact]: the address of a [SERIALIZABLEXACT]; [conflicts]: an array of
    [MAX_CONFLICTS] elements. *)
Record LinearizedBackend := LBackend {
  pid : Z;
  status : LinearizedBackendStatus;
  xact : option Z;
  numconflicts : Z;
  conflicts : list LinearizationConflict
}.

Record Control := MkControl { MaxProcs : nat; backends : list LinearizedBackend }.

(** The static variables of a backend. *)
Record local := Local {
  initialized : bool;
  linearize_enabled : bool;
  linearized_writes : list Z
}.

Abbreviation state := (Control * local)%type.

(** An element of [GetPredicateLockStatusData()]: the relation of the tag, and
    [pid], [pgprocno] and [topXid] of the transaction. *)
Record PredicateLock := PLock { lock_rel : Z; lock_pid : Z; lock_pgprocno : nat; lock_topXid : Z }.

Inductive CmdType := CMD_SELECT | CMD_INSERT | CMD_UPDATE | CMD_DELETE | CMD_MERGE | CMD_UTILITY.

(** What the hook reads of a [QueryDesc]: the operation, the [relid]s of the
    range table, and the [resultRelations] if the plan is a [ModifyTable]. *)
Record QueryDesc := Query {
  operation : CmdType;
  rtable : list Z;
  resultRelations : option (list nat)
}.

Inductive XactEvent :=
  | XACT_EVENT_PRE_COMMIT | XACT_EVENT_COMMIT | XACT_EVENT_ABORT
  | XACT_EVENT_PRE_PREPARE | XACT_EVENT_PREPARE.

Definition linearization_failure : pg_error :=
  PgError ERRCODE_T_R_SERIALIZATION_FAILURE "linearization failure".

Section Linearization.
(** [PG_MAJORVERSION_NUM > 14] *)
Variable pg15 : bool.
(** [topXid] of the [SERIALIZABLEXACT] at an address. *)
Variable topXid : Z → Z.
(** [MyProcNumber], [MyProcPid] *)
Variables (me : nat) (MyProcPid : Z).

Definition get_backend (i : nat) : M state LinearizedBackend :=
  s ← get_st;
  match backends (fst s) !! i with
  | Some b => mret b
  | None => undefined "backends out of bounds"
  end.

Definition put_backend (i : nat) (b : LinearizedBackend) : M state unit :=
  modify_st (λ s, (MkControl (MaxProcs (fst s)) (<[i := b]> (backends (fst s))), snd s)).

Definition put_local (f : local → local) : M state unit := modify_st (λ s, (fst s, f (snd s))).

(** [__reset_control()] *)
Definition reset_control : M state unit :=
  b ← get_backend me;
  put_backend me (LBackend (pid b) Linearized_Inactive None 0 (conflicts b)).

(** The loop over the recorded conflicts, the indices in [js]. *)
Fixpoint check_loop (r : Z) (b : LinearizedBackend) (js : list nat) : M state unit :=
  match js with
  | [] => mret ()
  | j :: js' =>
      match conflicts b !! j with
      | None => undefined "conflicts out of bounds"
      | Some c =>
          if (rel c =? r)%Z then _ ← reset_control; throw linearization_failure
          else check_loop r b js'
      end
  end.

Definition check_if_rel_in_conflict (r : Z) : M state unit :=
  b ← get_backend me;
  check_loop r b (seq 0 (Z.to_nat (numconflicts b))).

Definition add_write (r : Z) : M state unit :=
  put_local (λ l, Local (initialized l) (linearize_enabled l)
    (if decide (r ∈ linearized_writes l) then linearized_writes l else linearized_writes l ++ [r])).

(** A predicate lock of another backend on a relation to be written. *)
Fixpoint check_locks_start (r : Z) (locks : list PredicateLock) : M state unit :=
  match locks with
  | [] => mret ()
  | l :: locks' =>
      if (lock_pid l =? MyProcPid)%Z then check_locks_start r locks'
      else if (lock_rel l =? r)%Z then throw linearization_failure
      else check_locks_start r locks'
  end.

Definition is_modification (c : CmdType) : bool :=
  match c with
  | CMD_INSERT | CMD_DELETE | CMD_UPDATE => true
  | CMD_MERGE => pg15
  | _ => false
  end.

(** [sxact]: the result of [ShareSerializableXact()]. *)
Definition linearize_executor_start (sxact : option Z) (locks : list PredicateLock) (q : QueryDesc)
  : M state unit :=
  s ← get_st;
  if negb (linearize_enabled (snd s)) then mret () else
  b ← get_backend me;
  _ ← match xact b, sxact with
      | None, Some x =>
          put_backend me (LBackend (pid b) Linearized_In_Progress (Some x) (numconflicts b) (conflicts b))
      | _, _ => mret ()
      end;
  if is_modification (operation q) then
    match resultRelations q with
    | None => mret ()
    | Some rels =>
        for_each (λ index,
          match rtable q !! (index - 1) with
          | None => undefined "range table out of bounds"
          | Some relid => _ ← add_write relid; check_locks_start relid locks
          end) rels
    end
  else for_each check_if_rel_in_conflict (rtable q).

Definition SxactIsOurs (l : PredicateLock) : bool :=
  if pg15 then (lock_pgprocno l =? me)%nat else (lock_pid l =? MyProcPid)%Z.

Fixpoint check_locks_commit (r : Z) (locks : list PredicateLock) : M state unit :=
  match locks with
  | [] => mret ()
  | l :: locks' =>
      if SxactIsOurs l then check_locks_commit r locks'
      else if (lock_rel l =? r)%Z then _ ← reset_control; throw linearization_failure
      else check_locks_commit r locks'
  end.

(** [control->backends[MyProcNumber].xact->topXid] *)
Definition my_topXid : M state Z :=
  b ← get_backend me;
  match xact b with Some x => mret (topXid x) | None => undefined "NULL pointer dereferenced" end.

(** Record the relation in the slot of backend [i]. *)
Definition record_conflict (r : Z) (i : nat) : M state unit :=
  if (i =? me)%nat then mret () else
  b ← get_backend i;
  if decide (status b = Linearized_In_Progress) then
    let conflict_index := numconflicts b in
    _ ← put_backend i (LBackend (pid b) (status b) (xact b) (wrap_u 32 (conflict_index + 1)) (conflicts b));
    if (MAX_CONFLICTS <=? conflict_index)%Z then
      _ ← reset_control;
      (* [errdetail] prints it *)
      _ ← my_topXid;
      throw linearization_failure
    else
      x ← my_topXid;
      b ← get_backend i;
      put_backend i (LBackend (pid b) (status b) (xact b) (numconflicts b)
        (<[Z.to_nat conflict_index := Conflict x r]> (conflicts b)))
  else mret ().

(** [locks k]: what the [k]-th call of [GetPredicateLockStatusData()] of
    the callback returns. *)
Fixpoint record_writes (locks : nat → list PredicateLock) (k : nat) (writes : list Z) : M state unit :=
  match writes with
  | [] => mret ()
  | r :: writes' =>
      _ ← check_locks_commit r (locks k);
      s ← get_st;
      _ ← for_each (record_conflict r) (seq 0 (MaxProcs (fst s)));
      record_writes locks (S k) writes'
  end.

Definition linearize_xact_callback (locks : nat → list PredicateLock) (event : XactEvent)
  : M state unit :=
  s ← get_st;
  _ ← match event with
      | XACT_EVENT_PRE_COMMIT =>
          when (linearize_enabled (snd s))
            (b ← get_backend me;
             _ ← put_backend me (LBackend (pid b) Linearized_Committing (xact b) (numconflicts b) (conflicts b));
             _ ← for_each (λ l, when (SxactIsOurs l) (check_if_rel_in_conflict (lock_rel l))) (locks 0);
             s ← get_st;
             _ ← record_writes locks 1 (linearized_writes (snd s));
             reset_control)
      | _ => mret ()
      end;
  put_local (λ l, Local (initialized l) false (linearized_writes l)).

(** [procs]: [ProcGlobal->allProcCount + max_prepared_xacts] *)
Definition init_control (procs : nat) (allocated : bool) : M state unit :=
  _ ← when allocated (modify_st (λ s, (MkControl procs (backends (fst s)), snd s)));
  b ← get_backend me;
  _ ← put_backend me (LBackend MyProcPid (status b) (xact b) (numconflicts b) (conflicts b));
  reset_control.

Definition linearize_transaction : M state unit :=
  b ← get_backend me;
  _ ← put_backend me (LBackend (pid b) Linearized_In_Progress (xact b) (numconflicts b) (conflicts b));
  put_local (λ l, Local (initialized l) true []).

Definition linearize (IsolationIsSerializable : bool) : M state unit :=
  s ← get_st;
  if negb (initialized (snd s)) then ereport "this functionality requires `omni` to be preloaded"
  else if negb IsolationIsSerializable then ereport "current transaction is not serializable"
  else linearize_transaction.

Definition linearized : M state bool := s ← get_st; mret (linearize_enabled (snd s)).
End Linearization.

(** ** Properties *)

(** A conflict with relation [r] is recorded. *)
Definition has_conflict (b : LinearizedBackend) (r : Z) : Prop :=
  ∃ j c, (j < Z.to_nat (numconflicts b))%nat ∧ conflicts b !! j = Some c ∧ rel c = r.

(** A slot whose array can be read up to [numconflicts]. *)
Definition slot_ok (b : LinearizedBackend) : Prop :=
  length (conflicts b) = Z.to_nat MAX_CONFLICTS ∧ (0 <= numconflicts b <= MAX_CONFLICTS)%Z.

(** What the commits of other backends do to a slot: conflicts are added. *)
Definition extends (b b' : LinearizedBackend) : Prop :=
  status b' = status b ∧ (slot_ok b → slot_ok b') ∧ ∀ r, has_conflict b r → has_conflict b' r.

Lemma extends_refl b : extends b b.
Proof. split; [done|]. split; auto. Qed.

Lemma extends_trans b1 b2 b3 : extends b1 b2 → extends b2 b3 → extends b1 b3.
Proof. intros (H1 & H2 & H3) (H4 & H5 & H6). split; [congruence|]. split; auto. Qed.

#[export] Hint Resolve extends_refl extends_trans : omni.

Section Facts.
Variables (pg15 : bool) (topXid : Z → Z) (me : nat) (MyProcPid : Z).
Implicit Types (s : state) (b : LinearizedBackend).

(** A step of backend [me] that, for the others, only adds conflicts. *)
Definition others_extended s s' : Prop :=
  snd s' = snd s ∧ MaxProcs (fst s') = MaxProcs (fst s) ∧
  ∀ i b, i ≠ me → backends (fst s) !! i = Some b →
    ∃ b', backends (fst s') !! i = Some b' ∧ extends b b'.

Lemma others_refl s : others_extended s s.
Proof. repeat split; try done. intros i b _ H. eauto with omni. Qed.

Lemma others_trans s1 s2 s3 : others_extended s1 s2 → others_extended s2 s3 → others_extended s1 s3.
Proof.
  intros (H1 & H2 & H3) (H4 & H5 & H6). split; [congruence|]. split; [congruence|].
  intros i b Hi Hb. destruct (H3 i b Hi Hb) as (b' & Hb' & He).
  destruct (H6 i b' Hi Hb') as (b'' & Hb'' & He'). eauto with omni.
Qed.

Lemma get_backend_ok i b s : backends (fst s) !! i = Some b → get_backend i s = (Ok b, s).
Proof. intros H. unfold get_backend, mbind, M_bind, get_st. by rewrite H. Qed.

Lemma get_backend_inv i b s s' : get_backend i s = (Ok b, s') → s' = s ∧ backends (fst s) !! i = Some b.
Proof.
  unfold get_backend, mbind, M_bind, get_st.
  destruct (backends (fst s) !! i); by intros [= -> ->].
Qed.

Lemma get_backend_outcome i s :
  (∃ b, backends (fst s) !! i = Some b ∧ get_backend i s = (Ok b, s)) ∨
  get_backend i s = (Undefined "backends out of bounds", s).
Proof.
  unfold get_backend, mbind, M_bind, get_st. destruct (backends (fst s) !! i) eqn:E; [left|by right]. eauto.
Qed.

Lemma put_me_extended b s : others_extended s (snd (put_backend me b s)).
Proof.
  repeat split; try done. intros i b' Hi Hb. cbn. rewrite list_lookup_insert_ne by done.
  eauto with omni.
Qed.

Lemma reset_control_extended s s' : reset_control me s = (Ok (), s') → others_extended s s'.
Proof.
  unfold reset_control, mbind, M_bind.
  destruct (get_backend_outcome me s) as [(b & _ & ->)| ->]; [|done].
  intros [= <-]. apply put_me_extended.
Qed.

(** Checks that succeed change nothing. *)
Lemma check_loop_ok r b s s' : ∀ js, check_loop me r b js s = (Ok (), s') → s' = s.
Proof.
  induction js as [|j js IH]; cbn; [by intros [= ->]|].
  destruct (conflicts b !! j) as [c|]; [|done].
  destruct (rel c =? r)%Z; [|done]. unfold mbind, M_bind.
  by destruct (reset_control me s) as [[]?].
Qed.

Lemma check_if_rel_ok r s s' : check_if_rel_in_conflict me r s = (Ok (), s') → s' = s.
Proof.
  unfold check_if_rel_in_conflict, mbind, M_bind.
  destruct (get_backend_outcome me s) as [(b & _ & ->)| ->]; [|done]. apply check_loop_ok.
Qed.

Lemma check_locks_commit_ok r s s' : ∀ locks,
  check_locks_commit pg15 me MyProcPid r locks s = (Ok (), s') → s' = s.
Proof.
  induction locks as [|l locks IH]; cbn; [by intros [= ->]|].
  destruct (SxactIsOurs _ _ _ l); [done|]. destruct (_ =? _)%Z; [|done].
  unfold mbind, M_bind. by destruct (reset_control me s) as [[]?].
Qed.

Lemma for_each_same {A} (f : A → M state unit) l s s' :
  (∀ x s s', f x s = (Ok (), s') → s' = s) → for_each f l s = (Ok (), s') → s' = s.
Proof.
  intros Hf. revert s. induction l as [|x l IH]; intros s; cbn; [by intros [= ->]|].
  unfold mbind, M_bind. destruct (f x s) as [[[]|e|w] s1] eqn:E; [|done|done].
  apply Hf in E as ->. apply IH.
Qed.

(** *** Recording *)

Definition recorded r i s s' : Prop :=
  ∀ b, i ≠ me → backends (fst s) !! i = Some b → slot_ok b → status b = Linearized_In_Progress →
  ∃ b', backends (fst s') !! i = Some b' ∧ has_conflict b' r.

Lemma add_conflict b x r : slot_ok b → (numconflicts b < MAX_CONFLICTS)%Z →
  extends b (LBackend (pid b) (status b) (xact b) (numconflicts b + 1)
    (<[Z.to_nat (numconflicts b) := Conflict x r]> (conflicts b))) ∧
  has_conflict (LBackend (pid b) (status b) (xact b) (numconflicts b + 1)
    (<[Z.to_nat (numconflicts b) := Conflict x r]> (conflicts b))) r.
Proof.
  intros [Hl Hn] Hlt. split; [split; [done|split]|].
  - intros _. split; cbn; [by rewrite length_insert|lia].
  - intros r' (j & c & Hj & Hc & Hr). exists j, c. cbn. repeat split; try done; [lia|].
    rewrite list_lookup_insert_ne by lia. done.
  - exists (Z.to_nat (numconflicts b)), (Conflict x r). cbn. repeat split; [lia|].
    apply list_lookup_insert_eq. lia.
Qed.

Definition others_ok s : Prop := ∀ i b, i ≠ me → backends (fst s) !! i = Some b → slot_ok b.

Lemma others_ok_extended s s' : others_extended s s' → length (backends (fst s')) = length (backends (fst s)) →
  others_ok s → others_ok s'.
Proof.
  intros (_ & _ & He) Hl Hok i b' Hi Hb'.
  destruct (lookup_lt_is_Some_2 (backends (fst s)) i) as [b Hb].
  { rewrite <- Hl. by eapply lookup_lt_Some. }
  destruct (He i b Hi Hb) as (b'' & Hb'' & _ & Hs & _). rewrite Hb' in Hb''.
  injection Hb'' as ->. apply Hs. by eapply Hok.
Qed.

Lemma record_conflict_ok r i s s' : others_ok s →
  record_conflict topXid me r i s = (Ok (), s') →
  others_extended s s' ∧ recorded r i s s' ∧
  length (backends (fst s')) = length (backends (fst s)).
Proof.
  intros Hok. unfold record_conflict. destruct (Nat.eqb_spec i me) as [Hi|Hi].
  { intros [= <-]. split; [apply others_refl|]. split; [by intros b|done]. }
  unfold mbind, M_bind. destruct (get_backend_outcome i s) as [(b & Hb & ->)| ->]; [|done].
  destruct (decide _) as [Hst|Hst].
  2:{ intros [= <-]. split; [apply others_refl|]. split; [|done].
      intros b' _ Hb' _ Hs. congruence. }
  pose proof (Hok i b Hi Hb) as Hslot. cbn [put_backend modify_st]. cbn.
  destruct (Z.leb_spec MAX_CONFLICTS (numconflicts b)) as [Hm|Hm].
  { destruct (reset_control me _) as [[[]|e|w] s1]; [|done|done].
    unfold my_topXid, mbind, M_bind. destruct (get_backend me s1) as [[b1|e|w] s2]; [|done|done].
    by destruct (xact b1). }
  unfold my_topXid, mbind, M_bind. cbn.
  set (c1 := MkControl _ _). destruct (get_backend_outcome me (c1, snd s)) as [(bm & Hbm & ->)| ->]; [|done].
  destruct (xact bm) as [x|]; [|done]. cbn.
  pose proof (lookup_lt_Some _ _ _ Hb) as Hlt.
  rewrite (get_backend_ok i (LBackend (pid b) (status b) (xact b)
    (wrap_u 32 (numconflicts b + 1)) (conflicts b)))
    by (cbn; by apply list_lookup_insert_eq).
  unfold c1, put_backend, modify_st. cbn. rewrite list_insert_insert_eq. destruct Hslot as [Hlen Hn].
  rewrite wrap_u_id by (unfold in_u, MAX_CONFLICTS in *; lia).
  destruct (add_conflict b (topXid x) r) as [Hext Hhas]; [done|lia|].
  intros [= <-]. split; [|split].
  - repeat split; try done. intros k bk Hk Hbk. cbn. destruct (decide (k = i)) as [->|Hki].
    + rewrite list_lookup_insert_eq by done. rewrite Hb in Hbk. injection Hbk as <-. eauto.
    + rewrite list_lookup_insert_ne by done. eauto with omni.
  - intros b' _ Hb' _ _. cbn. rewrite list_lookup_insert_eq by done. eauto.
  - cbn. by rewrite length_insert.
Qed.

Lemma recorded_mono r i s0 s1 s2 s3 : others_extended s0 s1 → recorded r i s1 s2 →
  others_extended s2 s3 → recorded r i s0 s3.
Proof.
  intros (_ & _ & H01) H12 (_ & _ & H23) b Hi Hb Hok Hst.
  destruct (H01 i b Hi Hb) as (b1 & Hb1 & Hs1 & Hok1 & _).
  destruct (H12 b1 Hi Hb1 (Hok1 Hok)) as (b2 & Hb2 & Hc); [congruence|].
  destruct (H23 i b2 Hi Hb2) as (b3 & Hb3 & _ & _ & Hc3). eauto.
Qed.

Lemma record_all_ok r : ∀ ids s s', others_ok s →
  for_each (record_conflict topXid me r) ids s = (Ok (), s') →
  others_extended s s' ∧ (∀ i, i ∈ ids → recorded r i s s') ∧
  length (backends (fst s')) = length (backends (fst s)).
Proof.
  induction ids as [|i ids IH]; intros s s' Hok; cbn.
  { intros [= <-]. split; [apply others_refl|]. split; [|done]. intros i Hi. by apply not_elem_of_nil in Hi. }
  unfold mbind, M_bind. destruct (record_conflict _ _ r i s) as [[[]|e|w] s1] eqn:E; [|done|done].
  destruct (record_conflict_ok r i s s1 Hok E) as (He & Hr & Hl). intros Hf.
  destruct (IH s1 s') as (He' & Hr' & Hl'); [by eapply others_ok_extended|done|].
  split; [by eapply others_trans|]. split; [|congruence].
  intros k [->|Hk]%elem_of_cons.
  - eapply recorded_mono; [apply others_refl|done|done].
  - eapply recorded_mono; [done|by apply Hr'|apply others_refl].
Qed.

Lemma record_writes_ok locks : ∀ writes k s s', others_ok s →
  record_writes pg15 topXid me MyProcPid locks k writes s = (Ok (), s') →
  others_extended s s' ∧
  (∀ r i, r ∈ writes → (i < MaxProcs (fst s))%nat → recorded r i s s') ∧
  length (backends (fst s')) = length (backends (fst s)).
Proof.
  induction writes as [|r writes IH]; intros k s s' Hok; cbn.
  { intros [= <-]. split; [apply others_refl|]. split; [|done]. intros r i Hr. by apply not_elem_of_nil in Hr. }
  unfold mbind, M_bind.
  destruct (check_locks_commit _ _ _ r (locks k) s) as [[[]|e|w] s0] eqn:Ec; [|done|done].
  apply check_locks_commit_ok in Ec as ->. cbn.
  destruct (for_each _ _ s) as [[[]|e|w] s1] eqn:E; [|done|done].
  destruct (record_all_ok r _ s s1 Hok E) as (He & Hr & Hl). intros Hf.
  destruct (IH (S k) s1 s') as (He' & Hr' & Hl'); [by eapply others_ok_extended|done|].
  split; [by eapply others_trans|]. split; [|congruence].
  intros r' i [->|Hw]%elem_of_cons Hi.
  - eapply recorded_mono; [apply others_refl|apply Hr, elem_of_seq; lia|done].
  - eapply recorded_mono; [done|apply Hr'; [done|]|apply others_refl].
    destruct He as (_ & -> & _). done.
Qed.

Lemma commit_extended locks s s' : others_ok s → linearize_enabled (snd s) = true →
  linearize_xact_callback pg15 topXid me MyProcPid locks XACT_EVENT_PRE_COMMIT s = (Ok (), s') →
  (∀ i b, i ≠ me → backends (fst s) !! i = Some b →
     ∃ b', backends (fst s') !! i = Some b' ∧ extends b b') ∧
  (∀ r i, r ∈ linearized_writes (snd s) → (i < MaxProcs (fst s))%nat → recorded r i s s').
Proof.
  intros Hok Hen. unfold linearize_xact_callback, mbind at 1, M_bind at 1, get_st. rewrite Hen. cbn.
  unfold mbind, M_bind. destruct (get_backend_outcome me s) as [(b & Hb & ->)| ->]; [|done]. cbn.
  set (s1 := snd (put_backend me (LBackend (pid b) Linearized_Committing (xact b) (numconflicts b) (conflicts b)) s)).
  match goal with |- context [for_each _ (locks 0) ?t] => change t with s1 end.
  assert (H1 : others_extended s s1) by apply put_me_extended.
  assert (Hok1 : others_ok s1).
  { eapply others_ok_extended; [exact H1| |done]. cbn. by rewrite length_insert. }
  clearbody s1. destruct (for_each _ (locks 0) s1) as [[[]|e|w] s2] eqn:E2; [|done|done].
  apply for_each_same in E2 as ->.
  2:{ intros l t t'. destruct (SxactIsOurs _ _ _ l); cbn; [apply check_if_rel_ok|by intros [= ->]]. }
  cbn. destruct (record_writes _ _ _ _ _ _ _ s1) as [[[]|e|w] s3] eqn:E3; [|done|done].
  destruct (record_writes_ok locks _ _ _ _ Hok1 E3) as (H2 & Hr & _).
  destruct (reset_control me s3) as [[[]|e|w] s4] eqn:E4; [|done|done].
  apply reset_control_extended in E4. intros [= <-]. cbn. split.
  - intros i bi Hi Hbi.
    destruct (others_trans _ _ _ H1 (others_trans _ _ _ H2 E4)) as (_ & _ & H). by apply H.
  - intros r i Hw Hi. pose proof H1 as (Hsnd & Hmax & _). rewrite Hsnd, Hmax in Hr.
    enough (G : recorded r i s s4) by exact G.
    eapply recorded_mono; [exact H1|by apply (Hr r i)|exact E4].
Qed.

(** *** Reading *)

Lemma check_if_rel_outcome r b s : backends (fst s) !! me = Some b → slot_ok b →
  (∃ s', check_if_rel_in_conflict me r s = (Err linearization_failure, s')) ∨
  (check_if_rel_in_conflict me r s = (Ok (), s) ∧ ¬ has_conflict b r).
Proof.
  intros Hb [Hl Hn]. unfold check_if_rel_in_conflict, mbind, M_bind. rewrite (get_backend_ok me b) by done.
  assert (G : ∀ k j, (j + k <= length (conflicts b))%nat →
    (∃ s', check_loop me r b (seq j k) s = (Err linearization_failure, s')) ∨
    (check_loop me r b (seq j k) s = (Ok (), s) ∧
     ∀ i c, (j <= i < j + k)%nat → conflicts b !! i = Some c → rel c ≠ r)).
  { induction k as [|k IH]; intros j Hj; cbn; [right; split; [done|lia]|].
    destruct (lookup_lt_is_Some_2 (conflicts b) j) as [c Hc]; [lia|]. rewrite Hc.
    destruct (Z.eqb_spec (rel c) r) as [Hr|Hr].
    { left. unfold mbind, M_bind, reset_control, mbind, M_bind. rewrite (get_backend_ok me b) by done. by eexists. }
    destruct (IH (S j)) as [H|[H H']]; [lia|by left|right]. split; [done|].
    intros i c' Hi Hc'. destruct (decide (i = j)) as [->|]; [congruence|]. eapply H'; [|done]. lia. }
  destruct (G (Z.to_nat (numconflicts b)) 0) as [H|[H H']].
  { unfold MAX_CONFLICTS in *. lia. }
  - by left.
  - right. split; [done|]. intros (j & c & Hj & Hc & Hr). by apply (H' j c); [lia|..].
Qed.

Lemma check_each_fails {A} (f : A → M state unit) (r : Z) b s : ∀ l,
  (∀ x, x ∈ l → f x s = (Ok (), s) ∨ ∃ r, f x s = check_if_rel_in_conflict me r s) →
  (∃ x, x ∈ l ∧ f x s = check_if_rel_in_conflict me r s) →
  backends (fst s) !! me = Some b → slot_ok b → has_conflict b r →
  fst (for_each f l s) = Err linearization_failure.
Proof.
  intros l Hf Hx Hb Hok Hc. induction l as [|y l IH].
  { destruct Hx as (x & Hx & _). by apply not_elem_of_nil in Hx. }
  cbn. unfold mbind, M_bind.
  assert (Hrest : (∃ x, x ∈ l ∧ f x s = check_if_rel_in_conflict me r s) →
    fst (for_each f l s) = Err linearization_failure).
  { intros Hx'. apply IH; [|done]. intros x Hx0. apply Hf. by right. }
  destruct Hx as (x & [->|Hx]%elem_of_cons & Ex).
  - rewrite Ex. destruct (check_if_rel_outcome r b s Hb Hok) as [[s' ->]|[_ Hn]]; [done|by destruct Hn].
  - destruct (Hf y) as [->|[r' ->]]; [by left|apply Hrest; eauto|].
    destruct (check_if_rel_outcome r' b s Hb Hok) as [[s' ->]|[-> _]]; [done|apply Hrest; eauto].
Qed.
End Facts.


(** A control block of two backends, and the requests of a transaction. *)
Definition idle_slot : LinearizedBackend :=
  LBackend 0 Linearized_Inactive None 0 (replicate (Z.to_nat MAX_CONFLICTS) (Conflict 0 0)).

Definition example_control : Control := MkControl 2 [idle_slot; idle_slot].

Definition insert_into (r : Z) : QueryDesc := Query CMD_INSERT [r] (Some [1]).
Definition select_from (r : Z) : QueryDesc := Query CMD_SELECT [r] None.

Definition example_writer : M state unit :=
  _ ← linearize_transaction 0;
  linearize_executor_start true 0 100 (Some 5%Z) [] (insert_into 7).

Definition example_reader : M state unit :=
  _ ← linearize_transaction 1;
  linearize_executor_start true 1 101 (Some 6%Z) [] (select_from 8).

Definition fresh_local : local := Local true false [].


(** The transaction of [example_writer], committed. *)
Definition example_commit : M state unit :=
  _ ← example_writer; linearize_xact_callback true id 0 100 (λ _, []) XACT_EVENT_PRE_COMMIT.

(** The abort of a linearized transaction does not release its slot: the
    callback changes nothing in the control block, so that the slot stays in
    progress and every linearized commit keeps recording conflicts in it.
    After 1024 commits that each write one relation, the next one overruns
    the limit and its error report dereferences the [xact] pointer it has
    just reset. *)
Theorem aborted_linearization_breaks_commits :
  (∀ pg15 topXid me pid locks c l,
     linearize_xact_callback pg15 topXid me pid locks XACT_EVENT_ABORT (c, l) =
     (Ok (), (c, Local (initialized l) false (linearized_writes l)))) ∧
  let c := fst (snd (example_reader (example_control, fresh_local))) in
  let s := for_each (λ _, example_commit) (replicate 1024 ()) (c, fresh_local) in
  fst s = Ok () ∧
  fst (example_commit (snd s)) = Undefined "NULL pointer dereferenced".
Proof. split; [done|]. vm_compute. done. Qed.
End Linearization.
