(* ===== verification/Retry.v ===== *)
(** * Retried transactions: [omni_txn/retry.c]

    [retry] prepares a statement (once per statement text), runs it in a
    transaction and repeats it after serialization failures, with a capped
    exponential backoff.  The backend ends every attempt with the transaction
    callbacks of [Linearization].  PostgreSQL's [SPI_prepare] and the effect
    of running a plan are parameters, as is the random factor of the backoff
    (floating point is not modelled: [jitter n b] stands for
    [(int64)(get_jitter() * b)] at the [n]-th call). *)

From stdpp Require Import base tactics list gmap strings numbers.
From Stdlib Require Import ZArith Lia.
From S2P Require Import Prelude Linearization.

Module Retry.

Local Open Scope Z_scope.

Definition cap_sleep_microsecs : Z := 10000.
Definition base_sleep_microsecs : Z := 1.

(** [1 << exp] is computed in an [int]. *)
Definition get_backoff (cap base attempt : Z) : Z :=
  let exp := Z.min attempt 30 in
  Z.min cap (wrap_s 64 (base * wrap_s 32 (Z.shiftl 1 exp))).

Definition backoff_jitter (jitter : Z → Z) (cap base attempt : Z) : Z :=
  let ret := jitter (get_backoff cap base attempt) in
  if 0 <? ret then ret else 1.

(** A kept plan: the statement and the types of its parameters. *)
Record plan := Plan { plan_stmt : string; plan_argtypes : list Z }.

Definition UNKNOWNOID : Z := 705.

Section Retry.
Context {D : Type}.

Record state := State {
  stmthash : gmap string (option plan);
  retry_attempts : Z;
  backoff_values : list Z;
  lin : Linearization.state
}.

(** The arguments of the procedure; [params] when it is a record. *)
Record args := Args {
  stmts : option string;
  max_attempts_arg : option Z;
  collect_backoff_values_arg : option bool;
  params : option (list (Z * option D));
  linearize_arg : option bool
}.

Variable SPI_prepare : string → list Z → result (option plan).
(** Running a plan with its parameters for the [n]-th time in a call. *)
Variable exec : plan → list (option D) → nat → M Linearization.state unit.
Variable jitter : nat → Z → Z.

(** The parameters of [Linearization]. *)
Variables (pg15 : bool) (topXid : Z → Z) (me : nat) (MyProcPid : Z).
Variable locks : nat → list Linearization.PredicateLock.

Definition on_lin {A} (m : M Linearization.state A) : M state A := λ s,
  let '(r, l) := m (lin s) in (r, State (stmthash s) (retry_attempts s) (backoff_values s) l).

Definition xact_event (e : Linearization.XactEvent) : M state unit :=
  on_lin (Linearization.linearize_xact_callback pg15 topXid me MyProcPid locks e).

Definition set_retry_attempts (z : Z) : M state unit :=
  modify_st (λ s, State (stmthash s) z (backoff_values s) (lin s)).

Definition set_backoff_values (f : list Z → list Z) : M state unit :=
  modify_st (λ s, State (stmthash s) (retry_attempts s) (f (backoff_values s)) (lin s)).

Definition set_plan (stmt : string) (p : option plan) : M state unit :=
  modify_st (λ s, State (<[stmt := p]> (stmthash s)) (retry_attempts s) (backoff_values s) (lin s)).

(** [PG_TRY]: the error, if one was raised. *)
Definition pg_try {A} (m : M state A) : M state (option pg_error) := λ s,
  match m s with
  | (Ok _, s') => (Ok None, s')
  | (Err e, s') => (Ok (Some e), s')
  | (Undefined w, s') => (Undefined w, s')
  end.

(** The body of the [PG_TRY]: [SPI_execute_plan] returns an error code for a
    NULL plan, which nobody looks at; it reads a parameter for every
    argument of the plan. *)
Definition attempt (entry_plan : option plan) (ps : option (list (Z * option D))) (n : nat)
  : M state unit :=
  _ ← match entry_plan with
      | None => mret ()
      | Some p =>
          match ps, plan_argtypes p with
          | None, _ :: _ => undefined "paramsValues not initialised"
          | None, [] => on_lin (exec p [] n)
          | Some l, _ => on_lin (exec p (snd <$> l) n)
          end
      end;
  _ ← xact_event Linearization.XACT_EVENT_PRE_COMMIT;
  xact_event Linearization.XACT_EVENT_COMMIT.

Definition max_retries_error (code : string) : pg_error :=
  PgError code "maximum number of retries has been attempted".

Fixpoint retry_loop (fuel : nat) (entry_plan : option plan) (ps : option (list (Z * option D)))
    (max_attempts : Z) (collect_backoff_values : bool) (n : nat) : M state unit :=
  match fuel with
  | O => undefined "out of fuel"
  | S fuel' =>
      err ← pg_try (attempt entry_plan ps n);
      match err with
      | None => mret ()
      | Some e =>
          if bool_decide (errcode e = ERRCODE_T_R_SERIALIZATION_FAILURE) then
            s ← get_st;
            if negb (bool_decide (in_s 32 (retry_attempts s + 1)))
            then undefined "signed overflow" else
            _ ← set_retry_attempts (retry_attempts s + 1);
            if retry_attempts s + 1 <=? max_attempts then
              let b := backoff_jitter (jitter n) cap_sleep_microsecs base_sleep_microsecs
                         (retry_attempts s + 1) in
              _ ← when collect_backoff_values (set_backoff_values (λ l, l ++ [wrap_s 32 b]));
              _ ← xact_event Linearization.XACT_EVENT_ABORT;
              retry_loop fuel' entry_plan ps max_attempts collect_backoff_values (S n)
            else
              _ ← xact_event Linearization.XACT_EVENT_ABORT;
              throw (max_retries_error (errcode e))
          else
            _ ← set_retry_attempts 0;
            throw e
      end
  end.

(** Enough for every attempt the loop may make. *)
Definition loop_fuel (max_attempts : Z) : nat := S (S (Z.to_nat max_attempts)).

Definition check_params (ps : option (list (Z * option D))) : M state unit :=
  match ps with
  | None => mret ()
  | Some l => for_each (λ p, when (fst p =? UNKNOWNOID) (ereport "query parameter is of unknown type")) l
  end.

(** [in_block]: [IsTransactionBlock()]; [iso_differs]: a snapshot is set and
    the isolation level is not the intended one; [slot]: what the memory of
    a new hash entry holds as its plan. *)
Definition retry (in_block iso_differs : bool) (slot : option plan) (a : args) : M state unit :=
  match stmts a with
  | None => ereport "transaction statements argument is required"
  | Some cstmts =>
      if in_block then ereport "can't be used inside of a transaction block" else
      let max_attempts := default 10 (max_attempts_arg a) in
      let collect_backoff_values := default false (collect_backoff_values_arg a) in
      _ ← check_params (params a);
      _ ← when iso_differs (xact_event Linearization.XACT_EVENT_ABORT);
      _ ← when (default false (linearize_arg a)) (on_lin (Linearization.linearize_transaction me));
      _ ← when collect_backoff_values (set_backoff_values (λ _, []));
      _ ← set_retry_attempts 0;
      s ← get_st;
      _ ← match stmthash s !! cstmts with
          | Some _ => mret ()
          | None =>
              _ ← set_plan cstmts slot;
              p ← lift_r (SPI_prepare cstmts (match params a with None => [] | Some l => l.*1 end));
              set_plan cstmts p
          end;
      s ← get_st;
      retry_loop (loop_fuel max_attempts) (default None (stmthash s !! cstmts)) (params a)
        max_attempts collect_backoff_values 0
  end.

Definition current_retry_attempt : M state Z := s ← get_st; mret (retry_attempts s).

(** [lfirst_int], as an [int64]. *)
Definition retry_backoff_values : M state (list Z) := s ← get_st; mret (backoff_values s).

Definition retry_prepared_statements : M state (list string) :=
  s ← get_st; mret ((map_to_list (stmthash s)).*1).

Definition reset_retry_prepared_statements : M state unit :=
  modify_st (λ s, State ∅ (retry_attempts s) (backoff_values s) (lin s)).
End Retry.
Arguments args : clear implicits.

(** ** Properties *)

Lemma get_backoff_value cap attempt : 0 <= attempt →
  get_backoff cap base_sleep_microsecs attempt = Z.min cap (2 ^ Z.min attempt 30).
Proof.
  intros Ha. unfold get_backoff, base_sleep_microsecs. rewrite Z.shiftl_1_l, Z.mul_1_l.
  assert (0 < 2 ^ Z.min attempt 30 <= 2 ^ 30).
  { split; [apply Z.pow_pos_nonneg; lia|apply Z.pow_le_mono_r; lia]. }
  change (2 ^ 30) with 1073741824 in *.
  rewrite (wrap_s_id 32), (wrap_s_id 64); try done; unfold in_s;
    [change (2 ^ (64 - 1)) with 9223372036854775808|change (2 ^ (32 - 1)) with 2147483648]; lia.
Qed.

Lemma backoff_jitter_bounds jitter attempt :
  (∀ b, 0 <= b → 0 <= jitter b <= b) → 0 <= attempt →
  1 <= backoff_jitter jitter cap_sleep_microsecs base_sleep_microsecs attempt <= cap_sleep_microsecs.
Proof.
  intros Hj Ha. unfold backoff_jitter. rewrite get_backoff_value by done.
  set (b := Z.min _ _).
  assert (0 <= b <= cap_sleep_microsecs).
  { unfold b, cap_sleep_microsecs. pose proof (Z.pow_pos_nonneg 2 (Z.min attempt 30)). lia. }
  pose proof (Hj b). destruct (Z.ltb_spec 0 (jitter b)); unfold cap_sleep_microsecs in *; lia.
Qed.

(** The runs of a statement whose outcomes are given, and which leaves the
    linearization state alone. *)
Definition scripted {D} (fails : nat → option pg_error)
    (_ : plan) (_ : list (option D)) (n : nat) : M Linearization.state unit := λ l,
  (match fails n with None => Ok () | Some e => Err e end, l).

Definition serialization (e : option pg_error) : Prop :=
  ∃ x, e = Some x ∧ errcode x = ERRCODE_T_R_SERIALIZATION_FAILURE.

Section Facts.
Context {D : Type}.
Variable fails : nat → option pg_error.
Variable jitter : nat → Z → Z.
Variables (pg15 : bool) (topXid : Z → Z) (me : nat) (MyProcPid : Z).
Variable locks : nat → list Linearization.PredicateLock.
Hypothesis jitter_ok : ∀ n b, 0 <= b → 0 <= jitter n b <= b.

Abbreviation loop := (retry_loop (scripted (D := D) fails) jitter pg15 topXid me MyProcPid locks).

Lemma callback_disabled e l : Linearization.linearize_enabled (snd l) = false →
  Linearization.linearize_xact_callback pg15 topXid me MyProcPid locks e l = (Ok (), l).
Proof.
  destruct l as [c [i en w]]. cbn. intros ->.
  unfold Linearization.linearize_xact_callback, mbind, M_bind, get_st. by destruct e.
Qed.

Lemma xact_event_disabled e s : Linearization.linearize_enabled (snd (lin s)) = false →
  xact_event pg15 topXid me MyProcPid locks e s = (Ok (), s).
Proof.
  intros H. unfold xact_event, on_lin. rewrite callback_disabled by done. by destruct s.
Qed.

Lemma attempt_scripted p ps n s : Linearization.linearize_enabled (snd (lin s)) = false →
  (ps = None → plan_argtypes p = []) →
  attempt (scripted (D := D) fails) pg15 topXid me MyProcPid locks (Some p) ps n s =
  (match fails n with None => Ok () | Some e => Err e end, s).
Proof.
  intros Hl Hp. unfold attempt, mbind, M_bind.
  assert (E : ∀ l, on_lin (scripted (D := D) fails p l n) s =
    (match fails n with None => Ok () | Some e => Err e end, s)) by (by intros l; destruct s).
  destruct ps as [l|]; [|rewrite Hp by done]; rewrite E; destruct (fails n) as [e|]; try done;
    by rewrite !xact_event_disabled.
Qed.

Definition good_backoffs (l : list Z) : Prop := Forall (λ b, 1 <= b <= cap_sleep_microsecs) l.

(** How a call may end, when the first [k] runs failed to serialize. *)
Definition ended (max k : nat) (r : result unit) (attempts : Z) : Prop :=
  (∀ j, (j < k)%nat → serialization (fails j)) ∧
  ((k <= max)%nat ∧ fails k = None ∧ r = Ok () ∧ attempts = Z.of_nat k ∨
   (k <= max)%nat ∧ (∃ e, fails k = Some e ∧ ¬ serialization (fails k) ∧ r = Err e ∧ attempts = 0) ∨
   k = S max ∧ r = Err (max_retries_error ERRCODE_T_R_SERIALIZATION_FAILURE) ∧
     attempts = Z.of_nat (S max)).

Lemma loop_ends p ps collect max : (ps = None → plan_argtypes p = []) →
  Z.of_nat max < 2 ^ 31 - 1 →
  ∀ fuel n s, (S max - n < fuel)%nat → (n <= max)%nat → retry_attempts s = Z.of_nat n →
  Linearization.linearize_enabled (snd (lin s)) = false → good_backoffs (backoff_values s) →
  (∀ j, (j < n)%nat → serialization (fails j)) →
  ∃ k r s', loop fuel (Some p) ps (Z.of_nat max) collect n s = (r, s') ∧
    ended max k r (retry_attempts s') ∧
    (n <= k)%nat ∧ good_backoffs (backoff_values s') ∧
    (collect = true → length (backoff_values s') = (length (backoff_values s) + (Nat.min k max - n))%nat) ∧
    stmthash s' = stmthash s.
Proof using jitter_ok.
  intros Hp Hmax. induction fuel as [|fuel IH]; intros n s Hf Hn Ha Hl Hb Hser; [lia|].
  cbn [retry_loop]. unfold mbind at 1, M_bind at 1, pg_try. rewrite attempt_scripted by done.
  destruct (fails n) as [e|] eqn:En.
  2:{ exists n, (Ok ()), s. repeat split; try done; [left; by repeat split|lia]. }
  case_bool_decide as He.
  2:{ exists n, (Err e). eexists. split; [reflexivity|]. repeat split; try done; [|intros _; cbn; lia].
      right; left. split; [done|]. exists e. repeat split; try done. rewrite En. by intros (x & [= <-] & ?). }
  assert (Hser' : ∀ j, (j < S n)%nat → serialization (fails j)).
  { intros j Hj. destruct (decide (j = n)) as [->|]; [by exists e|]. apply Hser. lia. }
  unfold mbind at 1, M_bind at 1, get_st. rewrite Ha.
  rewrite bool_decide_eq_true_2 by (unfold in_s; lia). cbn [negb].
  unfold mbind at 1, M_bind at 1, set_retry_attempts, modify_st.
  destruct (Z.leb_spec (Z.of_nat n + 1) (Z.of_nat max)) as [Hle|Hgt].
  - set (b := backoff_jitter _ _ _ _). set (s1 := State _ _ _ _).
    set (s2 := if collect then State (stmthash s1) (retry_attempts s1)
                 (backoff_values s1 ++ [wrap_s 32 b]) (lin s1) else s1).
    assert (Hb1 : 1 <= b <= cap_sleep_microsecs) by (apply backoff_jitter_bounds; [apply jitter_ok|lia]).
    assert (Es2 : when collect (set_backoff_values (λ l, l ++ [wrap_s 32 b])) s1 = (Ok (), s2))
      by (unfold s2; by destruct collect).
    unfold mbind at 1, M_bind at 1. rewrite Es2.
    unfold mbind at 1, M_bind at 1. rewrite xact_event_disabled by (unfold s2; by destruct collect).
    destruct (IH (S n) s2) as (k & r & s' & E & H1 & H2 & H3 & H4 & H5); try done.
    + lia.
    + lia.
    + unfold s2, s1. destruct collect; cbn; lia.
    + unfold s2, s1. by destruct collect.
    + unfold s2, s1. destruct collect; cbn; [|done]. apply Forall_app. split; [done|].
      rewrite wrap_s_id by (unfold in_s, cap_sleep_microsecs in *; lia). by constructor.
    + exists k, r, s'. split; [done|]. split; [done|]. split; [lia|]. split; [done|]. split.
      * intros ->. rewrite H4 by done. unfold s2, s1. cbn. rewrite length_app. cbn. lia.
      * rewrite H5. unfold s2, s1. by destruct collect.
  - unfold mbind at 1, M_bind at 1. rewrite xact_event_disabled by done.
    exists (S n), (Err (max_retries_error (errcode e))). eexists. split; [reflexivity|].
    rewrite He. split; [|split; [lia|split; [done|split; [intros _; cbn [backoff_values]; lia|done]]]].
    split; [done|]. right; right. cbn. repeat split; lia.
Qed.
End Facts.

(** The statement text has a plan: cached, or prepared by this call. *)
Definition plan_available {D} (SPI_prepare : string → list Z → result (option plan))
    (s : state) (a : args D) (stmt : string) (p : plan) : Prop :=
  stmthash s !! stmt = Some (Some p) ∨
  stmthash s !! stmt = None ∧
    SPI_prepare stmt (match params a with None => [] | Some l => l.*1 end) = Ok (Some p).


Definition serialization_failure : pg_error :=
  PgError ERRCODE_T_R_SERIALIZATION_FAILURE "could not serialize access".

Definition example_lin : Linearization.state :=
  (Linearization.example_control, Linearization.fresh_local).

Definition example_args (linearize : bool) : args unit :=
  Args (Some "update t") (Some 3) (Some true) None (Some linearize).

Definition example_prepare (stmt : string) (_ : list Z) : result (option plan) := Ok (Some (Plan stmt [])).


(** The backoff grows with the attempts: it doubles from 2 microseconds
    at the first retry up to the cap, never exceeds the cap, and is the cap
    from the 14th retry on. *)
Theorem get_backoff_grows attempt : 0 <= attempt →
  let b := get_backoff cap_sleep_microsecs base_sleep_microsecs in
  1 <= b attempt <= cap_sleep_microsecs ∧
  b (attempt + 1) = Z.min cap_sleep_microsecs (2 * b attempt) ∧
  (14 <= attempt → b attempt = cap_sleep_microsecs).
Proof.
  intros Ha b. unfold b. rewrite !get_backoff_value by lia. unfold cap_sleep_microsecs.
  assert (Hbig : ∀ x, 14 <= x → 16384 <= 2 ^ Z.min x 30).
  { intros x Hx. change 16384 with (2 ^ 14). apply Z.pow_le_mono_r; lia. }
  pose proof (Z.pow_pos_nonneg 2 (Z.min attempt 30)). split; [lia|].
  split; [|intros Hx; specialize (Hbig attempt Hx); lia].
  destruct (Z.lt_ge_cases attempt 14).
  - rewrite !Z.min_l with (m := 30) by lia. rewrite Z.pow_add_r by lia. lia.
  - pose proof (Hbig attempt). pose proof (Hbig (attempt + 1)). lia.
Qed.

Lemma get_backoff_grows_witness :
  let b := get_backoff cap_sleep_microsecs base_sleep_microsecs in
  1 <= b 13 <= cap_sleep_microsecs ∧ b (13 + 1) = Z.min cap_sleep_microsecs (2 * b 13) ∧
  (14 <= 13 → b 13 = cap_sleep_microsecs).
Proof. apply (get_backoff_grows 13). lia. Defined.

(** Running a NULL plan succeeds. *)
Lemma retry_loop_null_plan {D} (exec : plan → list (option D) → nat → M Linearization.state unit)
    jitter pg15 topXid me MyProcPid locks fuel ps max collect n s :
  Linearization.linearize_enabled (snd (lin s)) = false →
  retry_loop exec jitter pg15 topXid me MyProcPid locks (S fuel) None ps max collect n s = (Ok (), s).
Proof.
  intros Hl. cbn [retry_loop]. unfold mbind, M_bind, pg_try, attempt. unfold mbind, M_bind.
  cbn [mret M_ret]. by rewrite !xact_event_disabled.
Qed.

(** A statement that failed to prepare is remembered without a plan, and
    the next call with the same text succeeds without running anything: the
    entry is found, [SPI_execute_plan] refuses the NULL plan with a return
    code that is not looked at, and the empty transaction is committed.
    It holds whatever running the statement would do. *)
Theorem retry_after_failed_prepare {D} SPI_prepare exec jitter pg15 topXid me MyProcPid locks
    iso_differs (a : args D) stmt e s :
  stmts a = Some stmt → params a = None → linearize_arg a = None →
  stmthash s !! stmt = None → SPI_prepare stmt [] = Err e →
  Linearization.linearize_enabled (snd (lin s)) = false →
  let call := retry SPI_prepare exec jitter pg15 topXid me MyProcPid locks false iso_differs None a in
  fst (call s) = Err e ∧ fst (call (snd (call s))) = Ok ().
Proof.
  intros Hst Hp Hli Hh Hprep Hl call.
  assert (Hcall : ∀ s, Linearization.linearize_enabled (snd (lin s)) = false →
    call s = (let s1 := State (stmthash s) 0
                (if default false (collect_backoff_values_arg a) then [] else backoff_values s) (lin s) in
      match stmthash s !! stmt with
      | Some (Some p) => retry_loop exec jitter pg15 topXid me MyProcPid locks
                   (loop_fuel (default 10 (max_attempts_arg a))) (Some p) None
                   (default 10 (max_attempts_arg a)) (default false (collect_backoff_values_arg a)) 0 s1
      | Some None => (Ok (), s1)
      | None => (Err e, State (<[stmt := None]> (stmthash s)) 0 (backoff_values s1) (lin s))
      end)).
  { clear s Hh Hl. intros s Hl. unfold call, retry. rewrite Hst, Hp, Hli. cbn -[retry_loop loop_fuel].
    unfold mbind at 1, M_bind at 1, mret at 1, M_ret at 1.
    assert (E1 : when iso_differs (xact_event pg15 topXid me MyProcPid locks
      Linearization.XACT_EVENT_ABORT) s = (Ok (), s)).
    { destruct iso_differs; [|done]. cbn. by apply xact_event_disabled. }
    unfold mbind at 1, M_bind at 1. rewrite E1. unfold mbind, M_bind, set_backoff_values,
      set_retry_attempts, set_plan, modify_st, get_st, lift_r, mret, M_ret.
    destruct (default false _); cbn -[retry_loop loop_fuel];
      (destruct (stmthash s !! stmt) as [[p|]|] eqn:Es; cbn -[retry_loop loop_fuel];
       [by rewrite Es|rewrite Es; by apply retry_loop_null_plan|by rewrite Hprep]). }
  rewrite Hcall by done. cbv zeta. rewrite Hh. split; [done|]. cbn [snd].
  rewrite Hcall by done. cbv zeta. cbn [stmthash]. by rewrite lookup_insert_eq.
Qed.

Lemma retry_after_failed_prepare_witness :
  let exec := λ (_ : plan) (_ : list (option unit)) (_ : nat) l, (Err (elog "ran"), l) in
  let prepare := λ (_ : string) (_ : list Z), Err (elog "relation does not exist") in
  let a := Args (Some "insert into t") None None None None in
  let call := retry prepare exec (λ _ b, b) true id 0 100 (λ _, []) false false None a in
  let s := State ∅ 0 [] example_lin in
  fst (call s) = Err (elog "relation does not exist") ∧ fst (call (snd (call s))) = Ok ().
Proof.
  intros exec prepare a call s.
  apply (retry_after_failed_prepare prepare exec (λ _ b, b) true id 0 100 (λ _, []) false a
    "insert into t" (elog "relation does not exist") s); reflexivity.
Defined.

(** Only the first run of [retry(..., linearize => true)] is linearized:
    the rollback after a serialization failure runs the transaction callback,
    which turns linearization off, and it is not turned on again for the
    retries.  The statement below fails to serialize once, and reports an
    error if a later run is not linearized. *)
Theorem retry_drops_linearization :
  let exec := λ (_ : plan) (_ : list (option unit)) (n : nat) l,
    (match n with
     | O => if Linearization.linearize_enabled (snd l) then Err serialization_failure else Ok ()
     | S _ => if Linearization.linearize_enabled (snd l) then Ok () else raise "not linearized"
     end, l) in
  fst (retry example_prepare exec (λ _ b, b) true id 0 100 (λ _, []) false true None
    (example_args true) (State ∅ 0 [] example_lin)) = raise "not linearized".
Proof. vm_compute. reflexivity. Qed.
End Retry.
