(* ===== verification/Ledger.v ===== *)
(** * Ledger transfers: [omni_ledger/omni_ledger.c]

    Triggers on the [transfers] and [accounts] tables: a row trigger collects
    the balances of a statement, a statement trigger posts them to the
    balance slots of the accounts and checks the limits, and a trigger on
    [accounts] allows nothing but closing one.  Every backend caches the
    accounts it has seen; a shared transaction id announces closures.

    The state is that of one backend ([local]) and what it shares with the
    others ([shared]: the announced transaction id, and the two tables the C
    code reads and writes with their constraints from [migrate/1_core.sql]).
    A UUID is a [Z].  [env] is what the code asks PostgreSQL for. *)

From stdpp Require Import base tactics list gmap strings numbers.
From Stdlib Require Import ZArith Lia.
From S2P Require Import Prelude.

Module Ledger.

Local Open Scope Z_scope.

Definition ACCOUNT_DEBITS_ALLOWED_TO_EXCEED_CREDITS : Z := Z.shiftl 1 0.
Definition ACCOUNT_CREDITS_ALLOWED_TO_EXCEED_DEBITS : Z := Z.shiftl 1 1.
Definition ACCOUNT_CLOSED : Z := Z.shiftl 1 7.
Definition ACCOUNT_INVALID : Z := 0.
Definition InvalidTransactionId : Z := 0.
Definition FirstNormalTransactionId : Z := 3.

(** A cached account; the fields of an entry that were not written are
    [None]. *)
Record Account := MkAccount { ledger_id : option Z; flags : Z; txid : option Z }.

(** A row of the [accounts] table. *)
Record account_row := Row {
  row_ledger : Z;
  debits_allowed_to_exceed_credits : bool;
  credits_allowed_to_exceed_debits : bool;
  closed : bool
}.

(** The postings of a statement to an account: [uint64] sums. *)
Record Balance := MkBalance { credited : Z; debited : Z }.

Record local := Local {
  accounts : option (gmap Z Account);
  invalidation_announcement_pending : bool;
  observed_invalidation_announcement_at : Z;
  balances : option (gmap Z Balance);
  last_command_id : Z;
  last_transaction_id : Z
}.

(** [slots]: for every account, the totals (debited, credited) of its
    slots. *)
Record shared := Shared {
  invalidation : Z;
  accounts_tab : gmap Z account_row;
  slots : gmap Z (gmap Z (Z * Z))
}.

Abbreviation state := (local * shared)%type.

Record env := Env {
  xid : Z;                  (* GetCurrentTransactionId() *)
  command_id : Z;           (* GetCurrentCommandId(false) *)
  xmin : Z;                 (* GetActiveSnapshot()->xmin *)
  serializable : bool;      (* XactIsoLevel == XACT_SERIALIZABLE *)
  slot : Z                  (* MyProcNumber *)
}.

(** [TransactionIdPrecedes], [TransactionIdFollowsOrEquals] *)
Definition TransactionIdIsNormal (x : Z) : bool := FirstNormalTransactionId <=? x.
Definition TransactionIdIsValid (x : Z) : bool := negb (x =? InvalidTransactionId).

Definition TransactionIdPrecedes (a b : Z) : bool :=
  if negb (TransactionIdIsNormal a) || negb (TransactionIdIsNormal b) then a <? b
  else wrap_s 32 (a - b) <? 0.

Definition TransactionIdFollowsOrEquals (a b : Z) : bool :=
  if negb (TransactionIdIsNormal a) || negb (TransactionIdIsNormal b) then b <=? a
  else 0 <=? wrap_s 32 (a - b).

Definition upd_local (f : local → local) : M state unit := modify_st (λ s, (f (fst s), snd s)).
Definition upd_shared (f : shared → shared) : M state unit := modify_st (λ s, (fst s, f (snd s))).

Definition set_accounts (a : gmap Z Account) : M state unit :=
  upd_local (λ l, Local (Some a) (invalidation_announcement_pending l)
    (observed_invalidation_announcement_at l) (balances l) (last_command_id l) (last_transaction_id l)).

Definition set_pending (b : bool) : M state unit :=
  upd_local (λ l, Local (accounts l) b
    (observed_invalidation_announcement_at l) (balances l) (last_command_id l) (last_transaction_id l)).

Definition set_observed (z : Z) : M state unit :=
  upd_local (λ l, Local (accounts l) (invalidation_announcement_pending l) z
    (balances l) (last_command_id l) (last_transaction_id l)).

Definition set_balances (b : option (gmap Z Balance)) (cmd txn : Z) : M state unit :=
  upd_local (λ l, Local (accounts l) (invalidation_announcement_pending l)
    (observed_invalidation_announcement_at l) b cmd txn).

Definition set_slots (f : gmap Z (gmap Z (Z * Z)) → gmap Z (gmap Z (Z * Z))) : M state unit :=
  upd_shared (λ s, Shared (invalidation s) (accounts_tab s) (f (slots s))).

(** ** Announcement of closures *)

Definition init_invalidation (allocated : bool) : M state unit :=
  when allocated (upd_shared (λ s, Shared InvalidTransactionId (accounts_tab s) (slots s))).

Inductive XactEvent :=
  | XACT_EVENT_COMMIT | XACT_EVENT_PARALLEL_COMMIT | XACT_EVENT_ABORT
  | XACT_EVENT_PARALLEL_ABORT | XACT_EVENT_PREPARE | XACT_EVENT_PRE_COMMIT
  | XACT_EVENT_PARALLEL_PRE_COMMIT | XACT_EVENT_PRE_PREPARE.

Definition xact_callback (e : env) (event : XactEvent) : M state unit :=
  match event with
  | XACT_EVENT_COMMIT | XACT_EVENT_PARALLEL_COMMIT | XACT_EVENT_ABORT | XACT_EVENT_PARALLEL_ABORT =>
      s ← get_st;
      _ ← when (invalidation_announcement_pending (fst s))
            (_ ← upd_shared (λ s, Shared (xid e) (accounts_tab s) (slots s));
             set_observed InvalidTransactionId);
      set_pending false
  | _ => mret ()
  end.

Definition invalidated (e : env) : M state bool :=
  s ← get_st;
  if invalidation_announcement_pending (fst s) then mret true else
  let current := xmin e in
  let observed := observed_invalidation_announcement_at (fst s) in
  if negb (TransactionIdIsValid current) ||
     (TransactionIdIsValid observed && TransactionIdFollowsOrEquals current observed)
  then mret false
  else
    _ ← set_observed current;
    mret (TransactionIdPrecedes (invalidation (snd s)) current).

(** ** Accounts *)

Definition account_flags (r : account_row) : Z :=
  Z.lor (Z.lor (if debits_allowed_to_exceed_credits r then ACCOUNT_DEBITS_ALLOWED_TO_EXCEED_CREDITS else 0)
               (if credits_allowed_to_exceed_debits r then ACCOUNT_CREDITS_ALLOWED_TO_EXCEED_DEBITS else 0))
        (if closed r then ACCOUNT_CLOSED else 0).

(** The scan of the table by primary key. *)
Definition scan_account (e : env) (sh : shared) (id : Z) : Account :=
  match accounts_tab sh !! id with
  | Some r => MkAccount (Some (row_ledger r)) (account_flags r) (Some (xid e))
  | None => MkAccount None ACCOUNT_INVALID None
  end.

Definition find_account (e : env) (id : Z) : M state Account :=
  inv ← invalidated e;
  _ ← when inv (set_accounts ∅);
  s ← get_st;
  match accounts (fst s) with
  | None => undefined "hash_search in a NULL table"
  | Some accs =>
      match accs !! id with
      | Some acc => mret acc
      | None =>
          let acc := scan_account e (snd s) id in
          _ ← set_accounts (<[id := acc]> accs);
          mret acc
      end
  end.

Definition has_flag (a : Account) (f : Z) : bool := Z.land (flags a) f =? f.

(** ** [calculate_account_balances]: after insert, for each row *)

Record transfer := Transfer { debit_account_id : Z; credit_account_id : Z; amount : Z }.

(** [HASH_ENTER], the new entry zeroed. *)
Definition balance_of (bs : gmap Z Balance) (id : Z) : Balance := default (MkBalance 0 0) (bs !! id).

(** Both entries exist before either sum is changed. *)
Definition add_transfer (t : transfer) (bs : gmap Z Balance) : gmap Z Balance :=
  let d := balance_of bs (debit_account_id t) in
  let bs := <[debit_account_id t := d]> bs in
  let c := balance_of bs (credit_account_id t) in
  let bs := <[credit_account_id t := c]> bs in
  let bs := <[debit_account_id t := MkBalance (credited d) (wrap_u 64 (debited d + amount t))]> bs in
  let c := balance_of bs (credit_account_id t) in
  <[credit_account_id t := MkBalance (wrap_u 64 (credited c + amount t)) (debited c)]> bs.

(** [row]: the inserted row when called as an insert trigger. *)
Definition calculate_account_balances (e : env) (called_as_trigger : bool) (row : option transfer)
  : M state unit :=
  s ← get_st;
  match accounts (fst s) with
  | None => ereport "omni extension is required for omni_ledger"
  | Some _ =>
      _ ← when (negb (xid e =? last_transaction_id (fst s)) ||
                negb (last_command_id (fst s) =? command_id e) ||
                bool_decide (balances (fst s) = None))
            (set_balances (Some ∅) (command_id e) (xid e));
      if negb called_as_trigger then ereport "must be called as a trigger" else
      match row with
      | None => mret ()
      | Some t =>
          if debit_account_id t =? credit_account_id t
          then ereport "can't transfer from and to the same account" else
          a ← find_account e (debit_account_id t);
          if has_flag a ACCOUNT_CLOSED then ereport "can't transfer from a closed account" else
          a ← find_account e (credit_account_id t);
          if has_flag a ACCOUNT_CLOSED then ereport "can't transfer to a closed account" else
          s ← get_st;
          match balances (fst s) with
          | None => undefined "hash_search in a NULL table"
          | Some bs => set_balances (Some (add_transfer t bs)) (last_command_id (fst s))
                         (last_transaction_id (fst s))
          end
      end
  end.

(** ** [update_account_balances]: after insert, for each statement *)

Definition MAX_BIGINT : Z := 2 ^ 63 - 1.

(** [amount + amount], a [bigint] that is not negative. *)
Definition amount_add (a b : Z) : result Z :=
  if MAX_BIGINT <? a + b then raise "bigint out of range"
  else if a + b <? 0 then raise "value for domain amount violates check constraint" else Ok (a + b).

Definition slot_of (sls : gmap Z (gmap Z (Z * Z))) (acc sl : Z) : Z * Z :=
  default (0, 0) (default ∅ (sls !! acc) !! sl).

(** The insert of both plans, on conflict adding to the slot. *)
Definition post (acc sl : Z) (d c : Z) : M state unit :=
  s ← get_st;
  if (d <? 0) || (c <? 0) then ereport "value for domain amount violates check constraint" else
  let '(d0, c0) := slot_of (slots (snd s)) acc sl in
  d' ← lift_r (amount_add d d0);
  c' ← lift_r (amount_add c c0);
  set_slots (λ m, <[acc := <[sl := (d', c')]> (default ∅ (m !! acc))]> m).

(** [sum] over the slots of an account. *)
Definition total_debited (sh : shared) (acc : Z) : Z := map_sum fst (default ∅ (slots sh !! acc)).
Definition total_credited (sh : shared) (acc : Z) : Z := map_sum snd (default ∅ (slots sh !! acc)).

(** [::bigint] *)
Definition to_bigint (z : Z) : result Z :=
  if (z <? - 2 ^ 63) || (MAX_BIGINT <? z) then raise "bigint out of range" else Ok z.

(** The body of the loop, for the balance of one account.  The query of the
    checking plan sums the slots as they were before its own insert. *)
Definition post_balance (e : env) (acc_id : Z) (bal : Balance) : M state unit :=
  acc ← find_account e acc_id;
  s ← get_st;
  _ ← set_accounts (<[acc_id := MkAccount (ledger_id acc) (flags acc) (Some (xid e))]>
                      (default ∅ (accounts (fst s))));
  let debits_not_allowed_to_exceed_credits :=
    Z.land (flags acc) ACCOUNT_DEBITS_ALLOWED_TO_EXCEED_CREDITS =? 0 in
  let credits_are_not_allowed_to_exceed_credits :=
    Z.land (flags acc) ACCOUNT_CREDITS_ALLOWED_TO_EXCEED_DEBITS =? 0 in
  let need_to_check := ((0 <? debited bal) && debits_not_allowed_to_exceed_credits) ||
                       ((0 <? credited bal) && credits_are_not_allowed_to_exceed_credits) in
  _ ← post acc_id (slot e) (wrap_s 64 (debited bal)) (wrap_s 64 (credited bal));
  if need_to_check then
    d ← lift_r (to_bigint (total_debited (snd s) acc_id));
    c ← lift_r (to_bigint (total_credited (snd s) acc_id));
    let d := wrap_s 64 (d + debited bal) in
    let c := wrap_s 64 (c + credited bal) in
    if (c <? d) && debits_not_allowed_to_exceed_credits then ereport "debit exceeds credit"
    else if (d <? c) && credits_are_not_allowed_to_exceed_credits then ereport "credit exceeds debit"
    else mret ()
  else mret ().

Definition update_account_balances (e : env) (called_as_trigger for_statement : bool) : M state unit :=
  if negb (serializable e) then ereport "Ledger transfers must be done in a serializable transaction"
  else if negb called_as_trigger then ereport "must be called as a trigger"
  else if negb for_statement then mret ()
  else
    s ← get_st;
    match balances (fst s) with
    | None => undefined "hash_seq_init of a NULL table"
    | Some bs =>
        _ ← for_each (λ p, post_balance e (fst p) (snd p)) (map_to_list bs);
        s ← get_st;
        set_balances None (last_command_id (fst s)) (last_transaction_id (fst s))
    end.

(** An [INSERT] into [transfers]: the row triggers, then the statement
    trigger. *)
Definition insert_transfers (e : env) (rows : list transfer) : M state unit :=
  _ ← for_each (λ t, calculate_account_balances e true (Some t)) rows;
  update_account_balances e true true.

(** ** [deny_operation_on_accounts]: before delete or update, for each row *)

Inductive trigger_event :=
  | FIRED_BY_INSERT (new_tuple : account_row)
  | FIRED_BY_UPDATE (tuple new_tuple : account_row)
  | FIRED_BY_DELETE (tuple : account_row).

(** The row to go on with; [None] is NULL. *)
Definition deny_operation_on_accounts (e : env) (called_as_trigger : bool) (ev : trigger_event)
  : M state (option account_row) :=
  if negb called_as_trigger then ereport "must be called as a trigger" else
  match ev with
  | FIRED_BY_INSERT _ => mret None
  | FIRED_BY_DELETE _ =>
      if negb (serializable e)
      then ereport "account closure must be done in a serializable transaction"
      else undefined "tg_newtuple is NULL"
  | FIRED_BY_UPDATE tuple new_tuple =>
      if negb (serializable e)
      then ereport "account closure must be done in a serializable transaction"
      else
        let fl := wrap_u 8 (account_flags tuple) in
        let new_fl := wrap_u 8 (account_flags new_tuple) in
        if (row_ledger tuple =? row_ledger new_tuple) && negb (fl =? new_fl) &&
           (Z.lor fl ACCOUNT_CLOSED =? new_fl)
        then _ ← set_pending true; mret (Some new_tuple)
        else ereport "Accounts are immutable with the exception of closure"
  end.

(** An [UPDATE] of one row of [accounts]. *)
Definition update_account (e : env) (id : Z) (new_row : account_row) : M state unit :=
  s ← get_st;
  match accounts_tab (snd s) !! id with
  | None => mret ()
  | Some old =>
      r ← deny_operation_on_accounts e true (FIRED_BY_UPDATE old new_row);
      match r with
      | None => mret ()
      | Some r => upd_shared (λ sh, Shared (invalidation sh) (<[id := r]> (accounts_tab sh)) (slots sh))
      end
  end.

(** ** The accounts a transaction or a statement affected *)

Definition TransactionIdEquals (a : option Z) (b : Z) : result bool :=
  match a with Some x => Ok (x =? b) | None => Undefined "txid not initialised" end.

Fixpoint list_accounts (since_txn : Z) (l : list (Z * Account)) : result (list (Z * option Z)) :=
  match l with
  | [] => Ok []
  | (id, acc) :: l' =>
      same ← TransactionIdEquals (txid acc) since_txn;
      rest ← list_accounts since_txn l';
      Ok (if same : bool then rest else (id, ledger_id acc) :: rest)
  end.

(** [since_txn]: [GetCurrentTransactionIdIfAny()] *)
Definition transaction_affected_accounts (since_txn : Z) : M state (list (Z * option Z)) :=
  s ← get_st;
  match accounts (fst s) with
  | None => mret []
  | Some accs =>
      if negb (TransactionIdIsValid since_txn) then mret []
      else lift_r (list_accounts since_txn (map_to_list accs))
  end.

Fixpoint find_accounts (e : env) (ids : list Z) : M state (list (Z * Account)) :=
  match ids with
  | [] => mret []
  | id :: ids' => acc ← find_account e id; rest ← find_accounts e ids'; mret ((id, acc) :: rest)
  end.

Definition statement_affected_accounts (e : env) (since_txn : Z) : M state (list (Z * option Z)) :=
  s ← get_st;
  match balances (fst s) with
  | None => mret []
  | Some bs =>
      if negb (TransactionIdIsValid since_txn) then mret []
      else accs ← find_accounts e (map_to_list bs).*1; lift_r (list_accounts since_txn accs)
  end.

(** ** Properties *)

Definition post_to (acc : Z) (d c : Z) (sh sh' : shared) : Prop :=
  accounts_tab sh' = accounts_tab sh ∧
  ∀ x, total_debited sh' x = total_debited sh x + (if decide (x = acc) then d else 0) ∧
       total_credited sh' x = total_credited sh x + (if decide (x = acc) then c else 0).

Lemma post_ok acc sl d c l sh l' sh' : post acc sl d c (l, sh) = (Ok (), (l', sh')) →
  l' = l ∧ 0 <= d ∧ 0 <= c ∧ post_to acc d c sh sh'.
Proof.
  unfold post, mbind, M_bind, get_st. cbn [fst snd].
  destruct ((d <? 0) || (c <? 0)) eqn:Eneg; [done|]. apply orb_false_iff in Eneg as [Hd Hc].
  destruct (slot_of (slots sh) acc sl) as [d0 c0] eqn:E0.
  unfold lift_r, amount_add. destruct (MAX_BIGINT <? d + d0); [done|]; destruct (d + d0 <? 0); [done|].
  destruct (MAX_BIGINT <? c + c0); [done|]; destruct (c + c0 <? 0); [done|].
  intros [= <- <-]. split; [done|]. split; [lia|]. split; [lia|]. split; [done|].
  intros x. unfold total_debited, total_credited. cbn. destruct (decide (x = acc)) as [->|Hx].
  - rewrite lookup_insert_eq. cbn. rewrite !map_sum_insert. unfold slot_of, at_key in *.
    destruct (default ∅ (slots sh !! acc) !! sl) as [[d1 c1]|]; injection E0 as -> ->; cbn; lia.
  - rewrite lookup_insert_ne by done. lia.
Qed.

(** *** Looking up accounts *)

(** What does not depend on the cache. *)
Definition same_balances (l l' : local) : Prop :=
  balances l' = balances l ∧ last_command_id l' = last_command_id l ∧
  last_transaction_id l' = last_transaction_id l.

(** The cache agrees with the table. *)
Definition row_flags (sh : shared) (id : Z) : Z :=
  match accounts_tab sh !! id with Some r => account_flags r | None => ACCOUNT_INVALID end.

Definition coherent (l : local) (sh : shared) : Prop :=
  ∀ accs id acc, accounts l = Some accs → accs !! id = Some acc → flags acc = row_flags sh id.

Lemma invalidated_ok e s r s' : invalidated e s = (r, s') →
  ∃ b, r = Ok b ∧ snd s' = snd s ∧ same_balances (fst s) (fst s') ∧ accounts (fst s') = accounts (fst s).
Proof.
  unfold invalidated, mbind, M_bind, get_st. destruct (invalidation_announcement_pending _).
  { intros [= <- <-]. by eexists. }
  destruct (_ || _); intros [= <- <-]; by eexists.
Qed.

Lemma scan_account_flags e sh id : flags (scan_account e sh id) = row_flags sh id.
Proof. unfold scan_account, row_flags. by destruct (accounts_tab sh !! id). Qed.

Lemma find_account_ok e id s acc s' : find_account e id s = (Ok acc, s') →
  snd s' = snd s ∧ same_balances (fst s) (fst s') ∧ is_Some (accounts (fst s')) ∧
  (coherent (fst s) (snd s) → coherent (fst s') (snd s') ∧ flags acc = row_flags (snd s) id).
Proof.
  unfold find_account, mbind, M_bind.
  destruct (invalidated e s) as [r s1] eqn:Ei.
  destruct (invalidated_ok e s r s1 Ei) as (b & -> & Hsh & Hb & Ha).
  set (s2 := if b then snd (set_accounts ∅ s1) else s1).
  assert (E2 : when b (set_accounts ∅) s1 = (Ok (), s2)) by (unfold s2; by destruct b).
  rewrite E2. unfold get_st.
  assert (Hsh2 : snd s2 = snd s) by (unfold s2; by destruct b).
  assert (Hb2 : same_balances (fst s) (fst s2)) by (unfold s2; by destruct b).
  assert (Hc2 : coherent (fst s) (snd s) → coherent (fst s2) (snd s2)).
  { intros Hc. unfold s2. destruct b; cbn.
    - by intros accs i a [= <-].
    - unfold coherent. rewrite Ha, Hsh. apply Hc. }
  clearbody s2. clear E2. destruct (accounts (fst s2)) as [accs|] eqn:Es2; [|done].
  destruct (accs !! id) as [a|] eqn:Ea.
  - intros [= <- <-]. repeat split; try apply Hb2; try done; [by auto|].
    rewrite <- Hsh2. by eapply Hc2.
  - intros [= <- <-]. cbn. repeat split; try apply Hb2; try done.
    + intros accs' i a' [= <-]. destruct (decide (i = id)) as [->|Hi].
      * rewrite lookup_insert_eq. intros [= <-]. apply scan_account_flags.
      * rewrite lookup_insert_ne by done. by apply Hc2.
    + rewrite <- Hsh2. apply scan_account_flags.
Qed.

(** *** Posting *)

(** The limits an account's flags set on its totals. *)
Definition within_limits (fl : Z) (d c : Z) : Prop :=
  (Z.land fl ACCOUNT_DEBITS_ALLOWED_TO_EXCEED_CREDITS = 0 → d <= c) ∧
  (Z.land fl ACCOUNT_CREDITS_ALLOWED_TO_EXCEED_DEBITS = 0 → c <= d).

Definition small (b : Balance) : Prop := 0 <= debited b < 2 ^ 63 ∧ 0 <= credited b < 2 ^ 63.

Lemma to_bigint_ok z z' : to_bigint z = Ok z' → z' = z.
Proof. unfold to_bigint. destruct (_ || _); [done|]. by intros [= ->]. Qed.

Lemma post_balance_ok e acc_id bal s s' : small bal →
  post_balance e acc_id bal s = (Ok (), s') →
  same_balances (fst s) (fst s') ∧ post_to acc_id (debited bal) (credited bal) (snd s) (snd s') ∧
  (coherent (fst s) (snd s) → coherent (fst s') (snd s') ∧
   (in_s 64 (total_debited (snd s') acc_id) → in_s 64 (total_credited (snd s') acc_id) →
    within_limits (row_flags (snd s) acc_id) (total_debited (snd s) acc_id) (total_credited (snd s) acc_id) →
    within_limits (row_flags (snd s) acc_id) (total_debited (snd s') acc_id) (total_credited (snd s') acc_id))).
Proof.
  intros [Hd Hc]. unfold post_balance, mbind at 1, M_bind at 1.
  destruct (find_account e acc_id s) as [[acc|er|w] s1] eqn:Ef; [|done|done].
  destruct (find_account_ok e acc_id s acc s1 Ef) as (Hsh & Hb & Hacc & Hco).
  unfold mbind at 1 2, M_bind at 1 2, get_st, set_accounts, upd_local, modify_st.
  destruct Hacc as [accs Haccs]. rewrite Haccs. cbn [default from_option id].
  set (l2 := Local _ _ _ _ _ _). rewrite !wrap_s_id by (done || (unfold in_s; lia)).
  unfold mbind at 1, M_bind at 1.
  destruct (post acc_id (slot e) (debited bal) (credited bal) (l2, snd s1)) as [[[]|er|w] [l3 sh3]] eqn:Ep;
    [|done|done].
  apply post_ok in Ep as (-> & _ & _ & Hpost). rewrite Hsh in *.
  assert (Hco2 : coherent (fst s) (snd s) → coherent l2 sh3 ∧ flags acc = row_flags (snd s) acc_id).
  { intros [H1 H2]%Hco. split; [|done]. intros accs' i a [= <-].
    unfold row_flags. rewrite (proj1 Hpost). destruct (decide (i = acc_id)) as [->|Hi].
    - rewrite lookup_insert_eq. intros [= <-]. cbn. by rewrite H2.
    - rewrite lookup_insert_ne by done. intros Ha. by apply (H1 accs). }
  pose proof (proj2 Hpost acc_id) as [Htd Htc]. rewrite !decide_True in Htd, Htc by done.
  set (need := _ || _). destruct need eqn:En.
  - unfold mbind, M_bind, lift_r.
    destruct (to_bigint (total_debited (snd s) acc_id)) as [td|er|w] eqn:Ed; [|done|done].
    destruct (to_bigint (total_credited (snd s) acc_id)) as [tc|er|w] eqn:Ec; [|done|done].
    apply to_bigint_ok in Ed as ->. apply to_bigint_ok in Ec as ->. cbv zeta.
    match goal with |- context [if ?t then _ else _] => destruct t eqn:E1; [done|] end.
    match goal with |- context [if ?t then _ else _] => destruct t eqn:E2; [done|] end.
    intros [= <-]. split; [done|]. split; [done|]. intros [H1 H2]%Hco2. split; [done|].
    intros Hind Hinc Hlim. cbn in *. rewrite <- H2 in *. rewrite Htd, Htc in *.
    rewrite !wrap_s_id in E1, E2 by done.
    split; intros Hf; rewrite Hf in *; cbn in *; rewrite andb_true_r in *; lia.
  - intros [= <-]. split; [done|]. split; [done|]. intros [H1 H2]%Hco2. split; [done|].
    intros _ _ [L1 L2]. cbn in *. rewrite <- H2 in *. rewrite Htd, Htc in *.
    unfold need in En. apply orb_false_iff in En as [En1 En2].
    split; intros Hf; rewrite Hf in *; cbn in *; rewrite andb_true_r in *;
      [specialize (L1 eq_refl)|specialize (L2 eq_refl)]; lia.
Qed.

(** What a list of balances posts to account [x]. *)
Fixpoint posted (f : Balance → Z) (x : Z) (l : list (Z * Balance)) : Z :=
  match l with
  | [] => 0
  | (k, b) :: l' => (if decide (x = k) then f b else 0) + posted f x l'
  end.

Lemma posted_none f x l : x ∉ l.*1 → posted f x l = 0.
Proof.
  induction l as [|[k b] l IH]; cbn; [done|]. rewrite not_elem_of_cons. intros [H1 H2].
  rewrite decide_False by done. by rewrite IH.
Qed.

Lemma posted_some f x b l : NoDup l.*1 → (x, b) ∈ l → posted f x l = f b.
Proof.
  induction l as [|[k b'] l IH]; cbn; intros Hn Hin; [by apply not_elem_of_nil in Hin|].
  pose proof (NoDup_cons_1_1 _ _ Hn) as Hk. apply NoDup_cons_1_2 in Hn. apply elem_of_cons in Hin as [[= <- <-]|Hin].
  - rewrite decide_True by done. rewrite posted_none by done. lia.
  - rewrite decide_False; [by apply IH|]. intros ->. apply Hk. by eapply list_elem_of_fmap_2'.
Qed.

Lemma posted_map f x (bs : gmap Z Balance) : f (MkBalance 0 0) = 0 →
  posted f x (map_to_list bs) = f (balance_of bs x).
Proof.
  intros H0. unfold balance_of. destruct (bs !! x) as [b|] eqn:E.
  - apply posted_some; [apply NoDup_fst_map_to_list|]. by apply elem_of_map_to_list.
  - cbn. rewrite H0. apply posted_none. intros ((k & b) & -> & Hin)%list_elem_of_fmap.
    apply elem_of_map_to_list in Hin. cbn in E. congruence.
Qed.

Lemma post_balances_ok e : ∀ l s s', NoDup l.*1 → Forall (λ p, small (snd p)) l →
  for_each (λ p, post_balance e (fst p) (snd p)) l s = (Ok (), s') →
  same_balances (fst s) (fst s') ∧ accounts_tab (snd s') = accounts_tab (snd s) ∧
  (∀ x, total_debited (snd s') x = total_debited (snd s) x + posted debited x l ∧
        total_credited (snd s') x = total_credited (snd s) x + posted credited x l) ∧
  (coherent (fst s) (snd s) → coherent (fst s') (snd s') ∧
   ∀ x, in_s 64 (total_debited (snd s') x) → in_s 64 (total_credited (snd s') x) →
    within_limits (row_flags (snd s) x) (total_debited (snd s) x) (total_credited (snd s) x) →
    within_limits (row_flags (snd s) x) (total_debited (snd s') x) (total_credited (snd s') x)).
Proof.
  induction l as [|[k b] l IH]; intros s s' Hn Hs; cbn.
  { intros [= <-]. split; [done|]. split; [done|]. split; [lia|]. auto. }
  pose proof (NoDup_cons_1_1 _ _ Hn) as Hk. apply NoDup_cons_1_2 in Hn. apply Forall_cons_1 in Hs as [Hb Hs].
  unfold mbind, M_bind. destruct (post_balance e k b s) as [[[]|er|w] s1] eqn:Ep; [|done|done].
  apply post_balance_ok in Ep as (Hsb & [Htab Hpost] & Hco); [|done]. intros Hf.
  apply IH in Hf as (Hsb' & Htab' & Hpost' & Hco'); [|done|done].
  assert (Hrow : ∀ x, row_flags (snd s1) x = row_flags (snd s) x) by (intros x; unfold row_flags; by rewrite Htab).
  split; [unfold same_balances in *; intuition congruence|]. split; [congruence|]. split.
  - intros x. destruct (Hpost' x) as [-> ->], (Hpost x) as [-> ->]. lia.
  - intros [H1 Hl]%Hco. destruct (Hco' H1) as [H2 Hl']. split; [done|].
    intros x Hd Hc Hw. specialize (Hl' x). rewrite Hrow in Hl'. apply Hl'; [done..|].
    destruct (decide (x = k)) as [->|Hx].
    + destruct (Hpost' k) as [Ed Ec]. rewrite posted_none in Ed, Ec by done.
      apply Hl; [by rewrite <- (Z.add_0_r (total_debited _ _)), <- Ed
                |by rewrite <- (Z.add_0_r (total_credited _ _)), <- Ec|done].
    + destruct (Hpost x) as [-> ->]. rewrite !decide_False by done. by rewrite !Z.add_0_r.
Qed.

(** *** The rows of a statement *)

Definition debits (x : Z) (rows : list transfer) : Z :=
  foldr (λ t n, (if decide (debit_account_id t = x) then amount t else 0) + n) 0 rows.
Definition credits (x : Z) (rows : list transfer) : Z :=
  foldr (λ t n, (if decide (credit_account_id t = x) then amount t else 0) + n) 0 rows.
Definition amounts (rows : list transfer) : Z := foldr (λ t n, amount t + n) 0 rows.

Lemma add_transfer_balance t bs x : debit_account_id t ≠ credit_account_id t →
  balance_of (add_transfer t bs) x =
  MkBalance (if decide (credit_account_id t = x) then wrap_u 64 (credited (balance_of bs x) + amount t)
             else credited (balance_of bs x))
            (if decide (debit_account_id t = x) then wrap_u 64 (debited (balance_of bs x) + amount t)
             else debited (balance_of bs x)).
Proof.
  intros Hne. unfold add_transfer, balance_of.
  destruct (decide (credit_account_id t = x)) as [<-|Hc].
  - rewrite lookup_insert_eq. cbn. rewrite decide_False by done.
    rewrite lookup_insert_ne, lookup_insert_eq by done. cbn.
    by rewrite lookup_insert_ne by done.
  - rewrite lookup_insert_ne by done. destruct (decide (debit_account_id t = x)) as [<-|Hd].
    + by rewrite lookup_insert_eq.
    + rewrite !lookup_insert_ne by done. cbn. by destruct (bs !! x) as [[]|].
Qed.

Lemma calculate_ok e t s s' :
  calculate_account_balances e true (Some t) s = (Ok (), s') →
  debit_account_id t ≠ credit_account_id t ∧ snd s' = snd s ∧
  last_command_id (fst s') = command_id e ∧ last_transaction_id (fst s') = xid e ∧
  balances (fst s') = Some (add_transfer t
    (if (xid e =? last_transaction_id (fst s)) && (last_command_id (fst s) =? command_id e)
     then default ∅ (balances (fst s)) else ∅)) ∧
  (coherent (fst s) (snd s) → coherent (fst s') (snd s') ∧
   Z.land (row_flags (snd s) (debit_account_id t)) ACCOUNT_CLOSED ≠ ACCOUNT_CLOSED ∧
   Z.land (row_flags (snd s) (credit_account_id t)) ACCOUNT_CLOSED ≠ ACCOUNT_CLOSED).
Proof.
  unfold calculate_account_balances, mbind at 1, M_bind at 1, get_st.
  destruct (accounts (fst s)) as [accs|] eqn:Ea; [|done].
  set (bs0 := if _ && _ then _ else _).
  set (s1 := (Local (accounts (fst s)) (invalidation_announcement_pending (fst s))
    (observed_invalidation_announcement_at (fst s)) (Some bs0) (command_id e) (xid e), snd s)).
  unfold mbind at 1, M_bind at 1.
  match goal with |- context [when ?t ?m s] => assert (E1 : when t m s = (Ok (), s1)) end.
  { unfold s1, bs0. destruct s as [[ac pe ob ba lc lt] sh]. cbn in *.
    destruct (Z.eqb_spec (xid e) lt) as [<-|]; [|done].
    destruct (Z.eqb_spec lc (command_id e)) as [->|]; [|done]. by destruct ba. }
  rewrite E1. cbn [negb]. destruct (Z.eqb_spec (debit_account_id t) (credit_account_id t)) as [|Hne]; [done|].
  unfold mbind at 1, M_bind at 1.
  destruct (find_account e (debit_account_id t) s1) as [[a|er|w] s2] eqn:E2; [|done|done].
  destruct (has_flag a ACCOUNT_CLOSED) eqn:Hcl1; [done|]. unfold mbind at 1, M_bind at 1.
  destruct (find_account e (credit_account_id t) s2) as [[a'|er|w] s3] eqn:E3; [|done|done].
  destruct (has_flag a' ACCOUNT_CLOSED) eqn:Hcl2; [done|]. unfold mbind at 1, M_bind at 1.
  apply find_account_ok in E2 as (Hsh2 & (Hb2 & Hl2 & Ht2) & _ & Hco2).
  apply find_account_ok in E3 as (Hsh3 & (Hb3 & Hl3 & Ht3) & _ & Hco3).
  rewrite Hb3, Hb2. cbn [balances s1 fst]. intros [= <-]. cbn.
  split; [done|]. split; [by rewrite Hsh3, Hsh2|].
  split; [by rewrite Hl3, Hl2|]. split; [by rewrite Ht3, Ht2|]. split; [done|].
  intros Hco. assert (Hco1 : coherent (fst s1) (snd s1)) by exact Hco.
  destruct (Hco2 Hco1) as [H2 F2]. destruct (Hco3 H2) as [H3 F3]. cbn in F2. rewrite Hsh2 in F3. cbn in F3.
  unfold has_flag in *. apply Z.eqb_neq in Hcl1, Hcl2. rewrite F2 in Hcl1. rewrite F3 in Hcl2. done.
Qed.

(** The balances the next row of the statement adds to. *)
Definition in_flight (e : env) (l : local) : gmap Z Balance :=
  if (xid e =? last_transaction_id l) && (last_command_id l =? command_id e)
  then default ∅ (balances l) else ∅.

Definition open_row (sh : shared) (t : transfer) : Prop :=
  Z.land (row_flags sh (debit_account_id t)) ACCOUNT_CLOSED ≠ ACCOUNT_CLOSED ∧
  Z.land (row_flags sh (credit_account_id t)) ACCOUNT_CLOSED ≠ ACCOUNT_CLOSED.

Definition room (bs : gmap Z Balance) (n : Z) : Prop := ∀ x,
  0 <= debited (balance_of bs x) ∧ debited (balance_of bs x) + n < 2 ^ 63 ∧
  0 <= credited (balance_of bs x) ∧ credited (balance_of bs x) + n < 2 ^ 63.

Lemma amounts_nonneg rows : Forall (λ t, 0 <= amount t) rows → 0 <= amounts rows.
Proof.
  induction 1 as [|t rows Ht _ IH]; [done|]. change (0 <= amount t + amounts rows). lia.
Qed.

Lemma rows_ok e : ∀ rows s s', Forall (λ t, 0 <= amount t) rows →
  room (in_flight e (fst s)) (amounts rows) →
  for_each (λ t, calculate_account_balances e true (Some t)) rows s = (Ok (), s') →
  snd s' = snd s ∧ (balances (fst s) = Some (in_flight e (fst s)) ∨ rows ≠ [] →
     balances (fst s') = Some (in_flight e (fst s'))) ∧
  (∀ x, debited (balance_of (in_flight e (fst s')) x) =
          debited (balance_of (in_flight e (fst s)) x) + debits x rows ∧
        credited (balance_of (in_flight e (fst s')) x) =
          credited (balance_of (in_flight e (fst s)) x) + credits x rows) ∧
  room (in_flight e (fst s')) 0 ∧
  (coherent (fst s) (snd s) → coherent (fst s') (snd s') ∧ Forall (open_row (snd s)) rows).
Proof.
  induction rows as [|t rows IH]; intros s s' Ha Hroom; cbn [for_each].
  { intros [= <-]. split; [done|]. split; [by intros [?|?]|]. split; [intros x; cbn; lia|].
    split; [done|]. intros Hc. split; [done|constructor]. }
  apply Forall_cons_1 in Ha as [Ha Has]. pose proof (amounts_nonneg rows Has).
  change (amounts (t :: rows)) with (amount t + amounts rows) in Hroom.
  unfold mbind, M_bind.
  destruct (calculate_account_balances e true (Some t) s) as [[[]|er|w] s1] eqn:E1; [|done|done].
  destruct (calculate_ok e t s s1 E1) as (Hne & Hsh & Hlc & Hlt & Hb & Hco).
  change (if _ && _ then _ else _) with (in_flight e (fst s)) in Hb.
  assert (Hin : in_flight e (fst s1) = add_transfer t (in_flight e (fst s))).
  { unfold in_flight at 1. rewrite Hlc, Hlt, !Z.eqb_refl, Hb. done. }
  assert (Hbal : ∀ x, debited (balance_of (in_flight e (fst s1)) x) =
      debited (balance_of (in_flight e (fst s)) x) + (if decide (debit_account_id t = x) then amount t else 0) ∧
    credited (balance_of (in_flight e (fst s1)) x) =
      credited (balance_of (in_flight e (fst s)) x) + (if decide (credit_account_id t = x) then amount t else 0)).
  { intros x. rewrite Hin, (add_transfer_balance t _ x Hne). cbn [debited credited]. specialize (Hroom x).
    split; destruct (decide _); try lia; apply wrap_u_id; unfold in_u; lia. }
  intros Hf. apply IH in Hf as (Hsh' & Hb' & Hx & Hr & Hc'); [|done|].
  2:{ intros x. specialize (Hroom x). destruct (Hbal x) as [-> ->].
      do 2 destruct (decide _); lia. }
  split; [congruence|]. split; [|split; [|split; [done|]]].
  - intros _. apply Hb'. left. by rewrite Hb, Hin.
  - intros x. destruct (Hx x) as [-> ->], (Hbal x) as [-> ->].
    change (debits x (t :: rows)) with ((if decide (debit_account_id t = x) then amount t else 0) + debits x rows).
    change (credits x (t :: rows)) with ((if decide (credit_account_id t = x) then amount t else 0) + credits x rows).
    lia.
  - intros [H1 [H2 H3]]%Hco. destruct (Hc' H1) as [H4 H5]. split; [done|].
    rewrite Hsh in H5. by constructor.
Qed.

(** A new statement: its command or transaction differs from the last one
    the backend collected balances for, or nothing is left of that one. *)
Definition fresh_statement (e : env) (l : local) : Prop := in_flight e l = ∅.

Lemma insert_transfers_ok e rows s s' : rows ≠ [] → Forall (λ t, 0 <= amount t) rows →
  amounts rows < 2 ^ 63 → fresh_statement e (fst s) →
  insert_transfers e rows s = (Ok (), s') →
  accounts_tab (snd s') = accounts_tab (snd s) ∧
  (∀ x, total_debited (snd s') x = total_debited (snd s) x + debits x rows ∧
        total_credited (snd s') x = total_credited (snd s) x + credits x rows) ∧
  balances (fst s') = None ∧
  (coherent (fst s) (snd s) → coherent (fst s') (snd s') ∧ Forall (open_row (snd s)) rows ∧
   ∀ x, in_s 64 (total_debited (snd s') x) → in_s 64 (total_credited (snd s') x) →
    within_limits (row_flags (snd s) x) (total_debited (snd s) x) (total_credited (snd s) x) →
    within_limits (row_flags (snd s) x) (total_debited (snd s') x) (total_credited (snd s') x)).
Proof.
  intros Hne Ha Hsum Hfresh. unfold insert_transfers, mbind at 1, M_bind at 1.
  destruct (for_each _ rows s) as [[[]|er|w] s1] eqn:E1; [|done|done].
  assert (Hroom : room (in_flight e (fst s)) (amounts rows)).
  { rewrite Hfresh. intros x. change (balance_of ∅ x) with (MkBalance 0 0). cbn [debited credited]. pose proof (amounts_nonneg rows Ha). lia. }
  apply rows_ok in E1 as (Hsh & Hb & Hx & Hr & Hco); [|done|done].
  unfold update_account_balances. destruct (serializable e); [|done]. cbn [negb].
  unfold mbind, M_bind, get_st. rewrite Hb by auto.
  destruct (for_each _ _ s1) as [[[]|er|w] s2] eqn:E2; [|done|done].
  apply post_balances_ok in E2 as (Hsb & Htab & Hpost & Hco2).
  2: apply NoDup_fst_map_to_list.
  2:{ apply Forall_forall. intros [k b] Hin%list_elem_of_In%elem_of_map_to_list. specialize (Hr k).
      unfold balance_of in Hr. rewrite Hin in Hr.
      change (default (MkBalance 0 0) (Some b)) with b in Hr. unfold small. cbn [snd]. lia. }
  intros [= <-]. cbn. rewrite Hsh in *. split; [done|]. split; [|split; [done|]].
  - intros x. destruct (Hpost x) as [-> ->]. rewrite !posted_map by done.
    destruct (Hx x) as [-> ->]. by rewrite Hfresh.
  - intros [H1 H2]%Hco. destruct (Hco2 H1) as [H3 H4]. split; [exact H3|]. split; [done|]. exact H4.
Qed.


(** Two accounts, the first one may be overdrawn, and a backend that has not
    seen either. *)
Definition example_shared : shared :=
  Shared 0 {[ 1 := Row 7 true false false; 2 := Row 7 false true false ]} ∅.
Definition example_local : local := Local (Some ∅) false 0 None 0 0.
Definition example_env : env := Env 100 1 99 true 5.
Definition example_rows : list transfer := [Transfer 1 2 100; Transfer 1 2 20; Transfer 2 1 30].




(** The only change of an account the trigger lets through is its
    closing: ledger and allowances stay, [closed] goes from false to true, in a
    serializable transaction; a closed account is never reopened and any
    other update is an error.  The balance of the account plays no part. *)
Theorem deny_operation_allows_only_closing e old new s r s' :
  deny_operation_on_accounts e true (FIRED_BY_UPDATE old new) s = (r, s') →
  (is_Ok r ↔ serializable e = true ∧ closed old = false ∧
             new = Row (row_ledger old) (debits_allowed_to_exceed_credits old)
                       (credits_allowed_to_exceed_debits old) true) ∧
  (is_Ok r → r = Ok (Some new) ∧ invalidation_announcement_pending (fst s') = true ∧ snd s' = snd s) ∧
  (¬ is_Ok r → (∃ er, r = Err er) ∧ s' = s).
Proof.
  unfold deny_operation_on_accounts. cbn [negb].
  destruct (serializable e); cbn [negb].
  2:{ intros [= <- <-]. split; [|split]; [|by intros [x Hx]|by eauto].
      split; [by intros [x Hx]|]. by intros [H _]. }
  assert (Hiff : (row_ledger old =? row_ledger new) &&
      negb (wrap_u 8 (account_flags old) =? wrap_u 8 (account_flags new)) &&
      (Z.lor (wrap_u 8 (account_flags old)) ACCOUNT_CLOSED =? wrap_u 8 (account_flags new)) = true ↔
    closed old = false ∧ new = Row (row_ledger old) (debits_allowed_to_exceed_credits old)
                       (credits_allowed_to_exceed_debits old) true).
  { destruct old as [lo d c cl], new as [ln d' c' cl']. cbn.
    destruct (Z.eqb_spec lo ln) as [->|Hl].
    - destruct d, c, cl, d', c', cl'; (split; [intros H; vm_compute in H; try discriminate H; done|
        intros [H1 H2]; try discriminate H1; try discriminate H2; vm_compute; reflexivity]).
    - cbn. split; [done|]. intros [_ [= -> _ _ _]]. done. }
  destruct (_ && _ && _) eqn:Et.
  - intros [= <- <-]. split; [|split]; [|done|by intros []; eexists].
    split; [intros _; split; [done|]; by apply Hiff|by eexists].
  - intros [= <- <-]. split; [|split]; [|by intros [x Hx]|by eauto].
    split; [by intros [x Hx]|]. intros [_ H]. apply Hiff in H. congruence.
Qed.

Lemma deny_operation_allows_only_closing_witness :
  let s := (example_local, example_shared) in
  let old := Row 7 true false false in
  let new := Row 7 true false true in
  let out := deny_operation_on_accounts example_env true (FIRED_BY_UPDATE old new) s in
  is_Ok (fst out) ↔ serializable example_env = true ∧ closed old = false ∧
    new = Row (row_ledger old) (debits_allowed_to_exceed_credits old)
              (credits_allowed_to_exceed_debits old) true.
Proof.
  intros s old new out.
  apply (proj1 (deny_operation_allows_only_closing example_env old new s (fst out) (snd out) eq_refl)).
Defined.

(** The announcement of a closure is not seen by a backend that has
    looked for one before: once [observed_invalidation_announcement_at] is
    set, every later snapshot is taken for an old one and the cache is kept,
    whatever was announced.  In the example, a backend that has cached the
    accounts transfers to account 2 after another backend closed it and
    committed. *)
Theorem closure_not_observed :
  (∀ e l sh, invalidation_announcement_pending l = false →
     TransactionIdIsValid (observed_invalidation_announcement_at l) = true →
     TransactionIdFollowsOrEquals (xmin e) (observed_invalidation_announcement_at l) = true →
     invalidated e (l, sh) = (Ok false, (l, sh))) ∧
  let s1 := snd (insert_transfers example_env example_rows (example_local, example_shared)) in
  let closer := Env 110 1 109 true 6 in
  let s2 := snd ((_ ← update_account closer 2 (Row 7 false true true);
                  xact_callback closer XACT_EVENT_COMMIT) (example_local, snd s1)) in
  closed <$> accounts_tab (snd s2) !! 2 = Some true ∧ invalidation (snd s2) = 110 ∧
  fst (insert_transfers (Env 120 1 119 true 5) [Transfer 1 2 50] (fst s1, snd s2)) = Ok ().
Proof.
  split.
  - intros e l sh Hp Ho Hf. unfold invalidated, mbind, M_bind, get_st. cbn [fst].
    by rewrite Hp, Ho, Hf, orb_true_r.
  - vm_compute. done.
Qed.

(** Two requests make the triggers dereference a NULL pointer: deleting
    an account in a serializable transaction, as a delete has no new tuple,
    and an insert into [transfers] that inserts no row, as no row trigger has
    created the table of balances the statement trigger scans. *)
Theorem ledger_triggers_null_dereference e l sh row :
  serializable e = true →
  fst (deny_operation_on_accounts e true (FIRED_BY_DELETE row) (l, sh)) =
    Undefined "tg_newtuple is NULL" ∧
  (balances l = None →
   fst (insert_transfers e [] (l, sh)) = Undefined "hash_seq_init of a NULL table").
Proof.
  intros He. unfold deny_operation_on_accounts. rewrite He. split; [done|].
  intros Hb. unfold insert_transfers, update_account_balances, mbind, M_bind, get_st. cbn.
  rewrite He. cbn. by rewrite Hb.
Qed.

Lemma ledger_triggers_null_dereference_witness :
  fst (deny_operation_on_accounts example_env true (FIRED_BY_DELETE (Row 7 true false false))
         (example_local, example_shared)) = Undefined "tg_newtuple is NULL" ∧
  fst (insert_transfers example_env [] (example_local, example_shared)) =
    Undefined "hash_seq_init of a NULL table".
Proof.
  destruct (ledger_triggers_null_dereference example_env example_local example_shared
    (Row 7 true false false) eq_refl) as [H1 H2].
  split; [exact H1|apply H2; reflexivity].
Defined.

(** [transaction_affected_accounts] and [statement_affected_accounts]
    return the opposite of what they are for: an account whose cached [txid]
    is the current transaction is left out; and after the statement trigger
    has posted the balances the latter has nothing to look at. *)
Theorem affected_accounts_inverted :
  let s' := snd (insert_transfers example_env example_rows (example_local, example_shared)) in
  fst (transaction_affected_accounts (xid example_env) s') = Ok [] ∧
  fst (transaction_affected_accounts 101 s') = Ok [(2, Some 7); (1, Some 7)] ∧
  fst (statement_affected_accounts example_env (xid example_env) s') = Ok [].
Proof. vm_compute. done. Qed.
End Ledger.
