(* ===== verification/Shmem.v ===== *)
(** * Named shared memory: the allocation functions of [omni/omni.c],
      [deinitialize_backend] and [shmem_allocations()] of [omni/module.c]

    Modules share chunks of a DSA area by name.  The shared hash table maps a
    module id and a name to a chunk with a reference counter; every backend
    keeps the list of keys it has acquired.  [state] is the shared table and
    heap with the list of one backend; [system] is all backends. *)

From Stdlib Require Import ZArith Lia.
From stdpp Require Import base tactics list gmap strings numbers.
From S2P Require Import Prelude.

Module Shmem.

Local Open Scope Z_scope.

Definition NAMEDATALEN : Z := 64.

(** [ModuleAllocationKey] *)
Abbreviation key := (Z * string)%type.

(** [ModuleAllocation] *)
Record ModuleAllocation := Allocation { dsa_pointer : nat; alloc_size : Z; refcounter : Z }.

(** A key of [backend_shmem_acquisitions].  [strncpy] with [sizeof - 1] leaves
    the last byte of [name] as [palloc] returned it, and the table hashes and
    compares all the bytes: [last_nul] tells if that byte is 0.  [held] is the
    address the caller got with it (not part of the C structure). *)
Record acquisition := Acquisition { acq_key : key; last_nul : bool; held : nat }.

Record shared := Shared {
  omni_allocations : gmap key ModuleAllocation;
  heap : gset nat;       (* chunks of the DSA area in use *)
  next_chunk : nat
}.

Abbreviation state := (shared * list acquisition)%type.

(** What the functions use of a handle: its [id] and [magic.revision]. *)
Record handle := Handle { id : Z; revision : Z }.

Inductive HASHACTION := HASH_FIND | HASH_ENTER | HASH_REMOVE | HASH_ENTER_NULL.

Record dsa_ref := DsaRef { pointer : nat; alloc : bool }.

(** A call of the initialization callback: the address and [allocated]; a
    callback before revision 3 has no such argument. *)
Abbreviation init_call := (nat * option bool)%type.

Definition set_allocations (f : gmap key ModuleAllocation → gmap key ModuleAllocation) : M state unit :=
  modify_st (λ s, (Shared (f (omni_allocations (fst s))) (heap (fst s)) (next_chunk (fst s)), snd s)).

Definition set_acquisitions (f : list acquisition → list acquisition) : M state unit :=
  modify_st (λ s, (fst s, f (snd s))).

(** [dsa_allocate0], [dsa_free] *)
Definition dsa_allocate0 : M state nat := λ s,
  (Ok (next_chunk (fst s)),
   (Shared (omni_allocations (fst s)) ({[ next_chunk (fst s) ]} ∪ heap (fst s)) (S (next_chunk (fst s))),
    snd s)).

Definition dsa_free (p : nat) : M state unit :=
  modify_st (λ s, (Shared (omni_allocations (fst s)) (heap (fst s) ∖ {[ p ]}) (next_chunk (fst s)), snd s)).

Definition is_enter (a : HASHACTION) : bool :=
  match a with HASH_ENTER | HASH_ENTER_NULL => true | _ => false end.

(** [pg_atomic_add_fetch_u32], [pg_atomic_sub_fetch_u32] on the counter *)
Definition count (d : Z) (a : ModuleAllocation) : ModuleAllocation :=
  Allocation (dsa_pointer a) (alloc_size a) (wrap_u 32 (refcounter a + d)).

Arguments count : simpl never.

(** The entry found or made: [found] and the result, which is not set when
    nothing is found. *)
Definition find_or_allocate_shmem_dsa (h : handle) (name : string) (size : Z) (init : bool)
    (action : HASHACTION) : M state (option dsa_ref * bool * list init_call) :=
  ptr ← (if is_enter action then dsa_allocate0 else mret 0%nat);
  if NAMEDATALEN - 1 <? Z.of_nat (String.length name) then ereport "name must be under 64 bytes long"
  else if size =? 0 then ereport "size must be larger than 0" else
  let k := (id h, name) in
  s ← get_st;
  let entry := omni_allocations (fst s) !! k in
  let found := bool_decide (is_Some entry) in
  result ← match action with
           | HASH_ENTER | HASH_ENTER_NULL =>
               let a := default (Allocation ptr size 0) entry in
               _ ← set_allocations <[k := count 1 a]>;
               mret (Some (DsaRef (dsa_pointer a) true))
           | HASH_FIND =>
               match entry with
               | None => mret None
               | Some a =>
                   _ ← set_allocations <[k := count 1 a]>;
                   mret (Some (DsaRef (dsa_pointer a) true))
               end
           | HASH_REMOVE =>
               match entry with
               | None => mret None
               | Some a =>
                   let a' := count (-1) a in
                   if refcounter a' =? 0
                   then _ ← set_allocations (delete k); mret (Some (DsaRef (dsa_pointer a) false))
                   else _ ← set_allocations <[k := a']>; mret (Some (DsaRef (dsa_pointer a) true))
               end
           end;
  let calls := match result with
               | None => []
               | Some ref =>
                   if negb init then []
                   else if negb found then
                     if is_enter action
                     then [(pointer ref, if revision h <? 3 then None else Some true)] else []
                   else match action with
                        | HASH_REMOVE => []
                        | _ => if 3 <=? revision h then [(pointer ref, Some false)] else []
                        end
               end in
  mret (result, found, calls).

(** [byte]: the last byte of the memory [palloc] returns for the key. *)
Definition find_or_allocate_shmem (byte : Z) (h : handle) (name : string) (size : Z) (init find : bool)
  : M state (option nat * bool * list init_call) :=
  r ← find_or_allocate_shmem_dsa h name size init (if find then HASH_FIND else HASH_ENTER);
  let '(ref, found, calls) := r in
  match (if negb found && find then None else ref) with
  | None => mret (None, found, calls)
  | Some ref =>
      _ ← set_acquisitions (λ l, l ++ [Acquisition (id h, name) (byte =? 0) (pointer ref)]);
      mret (Some (pointer ref), found, calls)
  end.

Definition allocate_shmem (byte : Z) (h : handle) (name : string) (size : Z) (init : bool) :=
  find_or_allocate_shmem byte h name size init false.

Definition lookup_shmem (byte : Z) (h : handle) (name : string) :=
  find_or_allocate_shmem byte h name 1 false true.

(** [module_id == id && strcmp(key->name, name) == 0]: a name of 63 bytes is
    terminated by the last byte. *)
Definition acq_matches (k : key) (a : acquisition) : bool :=
  bool_decide (acq_key a = k) && (last_nul a || (Z.of_nat (String.length (snd k)) <? NAMEDATALEN - 1)).

Definition deallocate_shmem (h : handle) (name : string) : M state bool :=
  r ← find_or_allocate_shmem_dsa h name 1 false HASH_REMOVE;
  let '(ref, found, _) := r in
  match ref with
  | None => mret found
  | Some ref =>
      _ ← set_acquisitions (filter (λ a, acq_matches (id h, name) a = false));
      _ ← when (negb (alloc ref)) (dsa_free (pointer ref));
      mret found
  end.

(** The part of [unload_module] that forgets the acquisitions of a module. *)
Definition forget_module (module_id : Z) : M state unit :=
  set_acquisitions (filter (λ a, fst (acq_key a) ≠ module_id)).

(** The part of [deinitialize_backend] after the modules were reloaded:
    [initialized_modules] by their ids. *)
Definition release_one (module_id : Z) (a : acquisition) : M state unit :=
  if (fst (acq_key a) =? module_id) && last_nul a
  then set_allocations (alter (count (-1)) (acq_key a)) else mret ().

Definition release_acquisitions (initialized_modules : list Z) : M state unit :=
  s ← get_st;
  _ ← for_each (λ m, for_each (release_one m) (snd s)) initialized_modules;
  set_acquisitions (λ _, []).

(** [shmem_allocations()]: name, module, size, references *)
Definition shmem_allocations (sh : shared) : list (string * Z * Z * Z) :=
  (λ p, (snd (fst p), fst (fst p), alloc_size (snd p), refcounter (snd p)))
    <$> map_to_list (omni_allocations sh).

(** ** The backends together *)

Record system := System { sh : shared; backends : gmap nat (list acquisition) }.

Definition acqs (y : system) (b : nat) : list acquisition := default [] (backends y !! b).

(** Backend [b] runs [m]. *)
Definition runs {A} (m : M state A) (y : system) (b : nat) (r : A) (y' : system) : Prop :=
  m (sh y, acqs y b) = (Ok r, (sh y', acqs y' b)) ∧
  backends y' = <[b := acqs y' b]> (backends y).

(** Counters stay below 2^32. *)
Definition counters_small (s : shared) : Prop :=
  ∀ k a, omni_allocations s !! k = Some a → refcounter a + 1 < 2 ^ 32.

(** A backend releases only what it has acquired, under a name of less than 63
    bytes (the key of a longer one may not be recognised); the modules initialized in
    a backend are distinct. *)
Inductive step : system → system → Prop :=
  | step_allocate y y' b byte h name size init r :
      counters_small (sh y) → runs (allocate_shmem byte h name size init) y b r y' → step y y'
  | step_lookup y y' b byte h name r :
      counters_small (sh y) → runs (lookup_shmem byte h name) y b r y' → step y y'
  | step_deallocate y y' b h name r :
      (∃ a, a ∈ acqs y b ∧ acq_key a = (id h, name)) →
      Z.of_nat (String.length name) < NAMEDATALEN - 1 →
      runs (deallocate_shmem h name) y b r y' → step y y'
  | step_unload y y' b module_id :
      runs (forget_module module_id) y b () y' → step y y'
  | step_exit y y' b mods :
      NoDup mods → runs (release_acquisitions mods) y b () y' → step y y'.

Inductive reachable : system → Prop :=
  | reachable_init : reachable (System (Shared ∅ ∅ 1) ∅)
  | reachable_step y y' : reachable y → step y y' → reachable y'.

(** How often the backends have acquired a key. *)
Definition acq_count (k : key) (l : list acquisition) : Z :=
  Z.of_nat (length (filter (λ a, acq_key a = k) l)).

Definition holders (y : system) (k : key) : Z := map_sum (acq_count k) (backends y).

Definition references (s : shared) (k : key) : Z :=
  match omni_allocations s !! k with Some a => refcounter a | None => 0 end.

Record inv (y : system) : Prop := Inv {
  inv_count : ∀ k, holders y k <= references (sh y) k;
  inv_live : ∀ k a, omni_allocations (sh y) !! k = Some a →
    dsa_pointer a ∈ heap (sh y) ∧ 0 <= refcounter a < 2 ^ 32;
  inv_distinct : ∀ k1 k2 a1 a2, omni_allocations (sh y) !! k1 = Some a1 →
    omni_allocations (sh y) !! k2 = Some a2 → dsa_pointer a1 = dsa_pointer a2 → k1 = k2;
  inv_next : ∀ p, p ∈ heap (sh y) → (p < next_chunk (sh y))%nat;
  inv_held : ∀ b a, a ∈ acqs y b →
    dsa_pointer <$> omni_allocations (sh y) !! acq_key a = Some (held a)
}.

(** ** Properties *)

Lemma acq_count_nonneg k l : 0 <= acq_count k l.
Proof. unfold acq_count. lia. Qed.

Lemma acq_count_app k l l' : acq_count k (l ++ l') = acq_count k l + acq_count k l'.
Proof. unfold acq_count. rewrite list.filter_app, length_app. lia. Qed.

Lemma acq_count_pos k l a : a ∈ l → acq_key a = k → 1 <= acq_count k l.
Proof.
  intros Hin Hk. unfold acq_count.
  assert (a ∈ filter (λ a, acq_key a = k) l) as H by (by apply list_elem_of_filter).
  destruct (filter _ l); [by apply not_elem_of_nil in H|]. cbn. lia.
Qed.

Lemma acq_count_filter k (P : acquisition → Prop) `{∀ a, Decision (P a)} l :
  acq_count k (filter P l) <= acq_count k l.
Proof.
  unfold acq_count. rewrite list_filter_filter.
  enough (length (filter (λ a, acq_key a = k ∧ P a) l) <= length (filter (λ a, acq_key a = k) l))%nat by lia.
  induction l as [|a l IH]; [done|]. rewrite !filter_cons. repeat destruct (decide _); cbn; lia || tauto.
Qed.

Lemma holders_update y s b l k :
  holders (System s (<[b := l]> (backends y))) k = acq_count k l + holders y k - acq_count k (acqs y b).
Proof.
  unfold holders. cbn. rewrite map_sum_insert. unfold at_key, acqs.
  destruct (backends y !! b); cbn; [lia|]. change (acq_count k []) with 0. lia.
Qed.

Lemma holders_pos y k b a : a ∈ acqs y b → acq_key a = k → 1 <= holders y k.
Proof.
  intros Hin Hk. pose proof (at_key_le (acq_count k) (backends y) b (acq_count_nonneg k)) as H.
  unfold holders, at_key, acqs in *. destruct (backends y !! b) as [l|]; cbn in Hin.
  - pose proof (acq_count_pos k l a Hin Hk). lia.
  - by apply not_elem_of_nil in Hin.
Qed.

Lemma acqs_update s b l y b' :
  acqs (System s (<[b := l]> (backends y))) b' = if decide (b' = b) then l else acqs y b'.
Proof.
  unfold acqs. cbn. destruct (decide (b' = b)) as [->|Hb]; [by rewrite lookup_insert_eq|].
  by rewrite lookup_insert_ne.
Qed.

(** Acquiring a chunk, new or not. *)
Lemma inv_acquire y b k nul p size s' :
  inv y → references (sh y) k + 1 < 2 ^ 32 →
  omni_allocations s' = <[k := Allocation p size (references (sh y) k + 1)]> (omni_allocations (sh y)) →
  heap (sh y) ⊆ heap s' → p ∈ heap s' → (∀ x, x ∈ heap s' → (x < next_chunk s')%nat) →
  (∀ a, omni_allocations (sh y) !! k = Some a → dsa_pointer a = p) →
  (omni_allocations (sh y) !! k = None → p ∉ heap (sh y)) →
  inv (System s' (<[b := acqs y b ++ [Acquisition k nul p]]> (backends y))).
Proof.
  intros Hinv Hlt Ha Hheap Hp Hnext Hsame Hnew.
  assert (Href : 0 <= references (sh y) k).
  { unfold references. destruct (_ !! k) as [a|] eqn:E; [|done]. apply (inv_live y Hinv k a E). }
  assert (Hptr : ∀ k' a, omni_allocations (sh y) !! k' = Some a → dsa_pointer a = p → k' = k).
  { intros k' a Hk' Hpa. destruct (omni_allocations (sh y) !! k) as [a0|] eqn:E0.
    - apply (inv_distinct y Hinv k' k a a0); [done|done|]. rewrite (Hsame a0 eq_refl). done.
    - destruct (inv_live y Hinv k' a Hk') as [Hin _]. rewrite Hpa in Hin. by destruct (Hnew eq_refl). }
  split; cbn [sh backends].
  - intros k'. rewrite holders_update, acq_count_app. pose proof (inv_count y Hinv k') as Hc.
    unfold references in *. rewrite Ha. unfold acq_count at 2. rewrite filter_cons, filter_nil. cbn.
    destruct (decide (k = k')) as [<-|Hk].
    + rewrite lookup_insert_eq. cbn. lia.
    + rewrite lookup_insert_ne by done. cbn. lia.
  - intros k' a. rewrite Ha. destruct (decide (k = k')) as [<-|Hk].
    + rewrite lookup_insert_eq. intros [= <-]. cbn. lia || (split; [done|lia]).
    + rewrite lookup_insert_ne by done. intros E. destruct (inv_live y Hinv k' a E). split; [set_solver|done].
  - intros k1 k2 a1 a2. rewrite Ha.
    destruct (decide (k = k1)) as [<-|H1], (decide (k = k2)) as [<-|H2];
      rewrite ?lookup_insert_eq, ?lookup_insert_ne by done; [done| | |by apply (inv_distinct y Hinv)].
    + intros [= <-] E2 E. symmetry. by eapply Hptr.
    + intros E1 [= <-] E. by eapply Hptr.
  - done.
  - intros b' a. rewrite acqs_update, Ha. intros Hin.
    assert (Hcase : a ∈ acqs y b' ∨ a = Acquisition k nul p).
    { destruct (decide (b' = b)) as [->|]; [|by left].
      apply elem_of_app in Hin as [?|Hin%list_elem_of_singleton]; auto. }
    destruct Hcase as [Hin'| ->]; [|by rewrite lookup_insert_eq].
    pose proof (inv_held y Hinv b' a Hin') as Hh.
    destruct (decide (k = acq_key a)) as [Hk|Hk]; [|by rewrite lookup_insert_ne].
    rewrite <- Hk in Hh. rewrite <- Hk, lookup_insert_eq.
    destruct (omni_allocations (sh y) !! k) as [a0|] eqn:E0; [|done]. cbn in *.
    by rewrite <- (Hsame a0 eq_refl).
Qed.

(** *** What the operations do *)

Lemma count_up a : 0 <= refcounter a → refcounter a + 1 < 2 ^ 32 →
  count 1 a = Allocation (dsa_pointer a) (alloc_size a) (refcounter a + 1).
Proof. intros H1 H2. unfold count. by rewrite wrap_u_id by (unfold in_u; lia). Qed.

Lemma allocate_ok byte h name size init s l r s' l' :
  (∀ a, omni_allocations s !! (id h, name) = Some a → 0 <= refcounter a ∧ refcounter a + 1 < 2 ^ 32) →
  allocate_shmem byte h name size init (s, l) = (Ok r, (s', l')) →
  let k := (id h, name) in
  let a := default (Allocation (next_chunk s) size 0) (omni_allocations s !! k) in
  l' = l ++ [Acquisition k (byte =? 0) (dsa_pointer a)] ∧
  s' = Shared (<[k := Allocation (dsa_pointer a) (alloc_size a) (refcounter a + 1)]> (omni_allocations s))
         ({[ next_chunk s ]} ∪ heap s) (S (next_chunk s)) ∧
  fst r = (Some (dsa_pointer a), bool_decide (is_Some (omni_allocations s !! k))).
Proof.
  intros Hr. unfold allocate_shmem, find_or_allocate_shmem, find_or_allocate_shmem_dsa.
  cbn [is_enter]. unfold mbind, M_bind, dsa_allocate0, get_st. cbn [fst snd].
  destruct (_ <? _); [done|]. destruct (size =? 0); [done|].
  cbn. destruct (omni_allocations s !! (id h, name)) as [a|] eqn:E.
  - destruct (Hr a eq_refl). cbn. rewrite (count_up a) by lia. intros [= <- <- <-]. done.
  - cbn. rewrite count_up by (cbn; lia). intros [= <- <- <-]. done.
Qed.

Lemma lookup_ok byte h name s l r s' l' :
  (∀ a, omni_allocations s !! (id h, name) = Some a → 0 <= refcounter a ∧ refcounter a + 1 < 2 ^ 32) →
  lookup_shmem byte h name (s, l) = (Ok r, (s', l')) →
  let k := (id h, name) in
  match omni_allocations s !! k with
  | None => s' = s ∧ l' = l ∧ fst r = (None, false)
  | Some a =>
      l' = l ++ [Acquisition k (byte =? 0) (dsa_pointer a)] ∧
      s' = Shared (<[k := Allocation (dsa_pointer a) (alloc_size a) (refcounter a + 1)]> (omni_allocations s))
             (heap s) (next_chunk s) ∧
      fst r = (Some (dsa_pointer a), true)
  end.
Proof.
  intros Hr. unfold lookup_shmem, find_or_allocate_shmem, find_or_allocate_shmem_dsa.
  cbn [is_enter]. unfold mbind, M_bind, mret, M_ret, get_st. cbn [fst snd].
  destruct (_ <? _); [done|]. cbn.
  destruct (omni_allocations s !! (id h, name)) as [a|] eqn:E.
  - destruct (Hr a eq_refl). cbn. rewrite (count_up a) by lia. by intros [= <- <- <-].
  - cbn. by intros [= <- <- <-].
Qed.

Lemma deallocate_ok h name s l r s' l' a :
  omni_allocations s !! (id h, name) = Some a → 1 <= refcounter a < 2 ^ 32 →
  deallocate_shmem h name (s, l) = (Ok r, (s', l')) →
  let k := (id h, name) in
  l' = filter (λ a, acq_matches k a = false) l ∧
  s' = (if decide (refcounter a = 1)
        then Shared (delete k (omni_allocations s)) (heap s ∖ {[ dsa_pointer a ]}) (next_chunk s)
        else Shared (<[k := Allocation (dsa_pointer a) (alloc_size a) (refcounter a - 1)]>
                       (omni_allocations s)) (heap s) (next_chunk s)).
Proof.
  intros E Hr. unfold deallocate_shmem, find_or_allocate_shmem_dsa.
  cbn [is_enter]. unfold mbind, M_bind, mret, M_ret, get_st. cbn [fst snd].
  destruct (_ <? _); [done|]. cbn. rewrite E.
  assert (Ec : count (-1) a = Allocation (dsa_pointer a) (alloc_size a) (refcounter a - 1)).
  { unfold count. rewrite wrap_u_id by (unfold in_u; lia). done. }
  rewrite Ec. cbn. destruct (decide (refcounter a = 1)) as [H1|H1].
  - rewrite (proj2 (Z.eqb_eq _ _)) by lia. by intros [= <- <- <-].
  - rewrite (proj2 (Z.eqb_neq _ _)) by lia. by intros [= <- <- <-].
Qed.

(** *** Release at exit *)

Definition released (m : Z) (k : key) (l : list acquisition) : Z :=
  if fst k =? m then Z.of_nat (length (filter (λ a, acq_key a = k ∧ last_nul a = true) l)) else 0.

Lemma released_bound m k l : 0 <= released m k l <= acq_count k l.
Proof.
  unfold released, acq_count. destruct (_ =? _); [|lia].
  enough (length (filter (λ a, acq_key a = k ∧ last_nul a = true) l) <=
          length (filter (λ a, acq_key a = k) l))%nat by lia.
  induction l as [|a l IH]; [done|]. rewrite !filter_cons. repeat destruct (decide _); cbn; lia || tauto.
Qed.

Lemma released_cons m k a l : released m k (a :: l) =
  (if decide (k = acq_key a ∧ fst k = m ∧ last_nul a = true) then 1 else 0) + released m k l.
Proof.
  unfold released. rewrite filter_cons. destruct (Z.eqb_spec (fst k) m) as [Hm|Hm].
  - destruct (decide (acq_key a = k ∧ last_nul a = true)) as [[H1 H2]|H1].
    + rewrite decide_True by done. cbn. lia.
    + rewrite decide_False; [lia|]. intros (-> & _ & ?). tauto.
  - rewrite decide_False by tauto. lia.
Qed.

(** The table with [f k] references less at every key. *)
Definition lowered (f : key → Z) (s s' : shared) : Prop :=
  heap s' = heap s ∧ next_chunk s' = next_chunk s ∧
  ∀ k, omni_allocations s' !! k =
       (λ a, Allocation (dsa_pointer a) (alloc_size a) (refcounter a - f k)) <$> omni_allocations s !! k.

Definition can_lower (f : key → Z) (s : shared) : Prop :=
  ∀ k a, omni_allocations s !! k = Some a → f k <= refcounter a < 2 ^ 32.

Lemma release_module_ok m l0 : ∀ l s, can_lower (λ k, released m k l) s →
  ∃ s', for_each (release_one m) l (s, l0) = (Ok (), (s', l0)) ∧ lowered (λ k, released m k l) s s'.
Proof.
  induction l as [|a l IH]; intros s Hs.
  { exists s. split; [done|]. split; [done|]. split; [done|]. intros k. unfold released. cbn.
    destruct (_ !! k) as [[p z r]|]; cbn; [|done]. do 2 f_equal. destruct (_ =? _); lia. }
  cbn [for_each]. unfold mbind, M_bind.
  set (s1 := if (fst (acq_key a) =? m) && last_nul a
             then Shared (alter (count (-1)) (acq_key a) (omni_allocations s)) (heap s) (next_chunk s) else s).
  assert (E1 : release_one m a (s, l0) = (Ok (), (s1, l0))).
  { unfold release_one, s1. by destruct (_ && _). }
  rewrite E1.
  assert (H1 : lowered (λ k, if decide (k = acq_key a ∧ fst k = m ∧ last_nul a = true) then 1 else 0) s s1).
  { unfold s1. split; [by destruct (_ && _)|]. split; [by destruct (_ && _)|]. intros k.
    destruct (Z.eqb_spec (fst (acq_key a)) m) as [Hm|Hm]; cbn.
    2:{ rewrite decide_False by (intros (-> & ? & _); done).
        destruct (_ !! k) as [[]|]; cbn; [|done]. do 2 f_equal. lia. }
    destruct (last_nul a) eqn:Hn; cbn.
    2:{ rewrite decide_False by (intros (_ & _ & ?); done).
        destruct (_ !! k) as [[]|]; cbn; [|done]. do 2 f_equal. lia. }
    destruct (decide (acq_key a = k)) as [<-|Hk].
    - rewrite lookup_alter_eq, decide_True by done. specialize (Hs (acq_key a)).
      destruct (_ !! acq_key a) as [al|] eqn:Ea; cbn; [|done]. specialize (Hs al eq_refl).
      rewrite released_cons, decide_True in Hs by done. pose proof (released_bound m (acq_key a) l).
      unfold count. rewrite wrap_u_id by (unfold in_u; lia). do 2 f_equal.
    - rewrite lookup_alter_ne by done. rewrite decide_False by (intros (-> & _); done).
      destruct (_ !! k) as [[]|]; cbn; [|done]. do 2 f_equal. lia. }
  destruct H1 as (Hh1 & Hn1 & Ha1).
  destruct (IH s1) as (s' & E' & Hh & Hn & Ha).
  { intros k al Hk. rewrite Ha1 in Hk. destruct (omni_allocations s !! k) as [al0|] eqn:E0; [|done].
    injection Hk as <-. specialize (Hs k al0 E0). cbn beta in Hs. rewrite released_cons in Hs. cbn.
    destruct (decide _); lia. }
  exists s'. split; [done|]. split; [congruence|]. split; [congruence|]. intros k.
  rewrite Ha, Ha1. destruct (omni_allocations s !! k) as [al|]; cbn; [|done].
  do 2 f_equal. rewrite released_cons. lia.
Qed.

Lemma release_modules_ok l0 l : ∀ mods s, NoDup mods →
  can_lower (λ k, if decide (fst k ∈ mods) then acq_count k l else 0) s →
  ∃ s' f, for_each (λ m, for_each (release_one m) l) mods (s, l0) = (Ok (), (s', l0)) ∧
    lowered f s s' ∧ ∀ k, 0 <= f k <= (if decide (fst k ∈ mods) then acq_count k l else 0).
Proof.
  induction mods as [|m mods IH]; intros s Hnd Hs.
  { exists s, (λ _, 0). split; [done|]. split; [|intros k; rewrite decide_False by apply not_elem_of_nil; lia].
    split; [done|]. split; [done|]. intros k. destruct (_ !! k) as [[]|]; cbn; [|done]. do 2 f_equal. lia. }
  pose proof (NoDup_cons_1_1 _ _ Hnd) as Hm. apply NoDup_cons_1_2 in Hnd.
  assert (Hrel : ∀ k, released m k l <= (if decide (fst k ∈ m :: mods) then acq_count k l else 0)).
  { intros k. pose proof (released_bound m k l). destruct (decide (fst k ∈ m :: mods)) as [|Hn]; [lia|].
    unfold released. rewrite (proj2 (Z.eqb_neq _ _)); [done|]. intros Hk. apply Hn. rewrite Hk. by left. }
  destruct (release_module_ok m l0 l s) as (s1 & E1 & Hh1 & Hn1 & Ha1).
  { intros k a Hk. specialize (Hs k a Hk). specialize (Hrel k). cbn in Hs. lia. }
  destruct (IH s1) as (s' & f & E' & (Hh & Hn & Ha) & Hf); [done| |].
  { intros k a Hk. rewrite Ha1 in Hk. destruct (omni_allocations s !! k) as [a0|] eqn:E0; [|done].
    injection Hk as <-. specialize (Hs k a0 E0). specialize (Hrel k). cbn in *.
    pose proof (released_bound m k l). destruct (decide (fst k ∈ mods)) as [Hin|Hin]; [|lia].
    rewrite decide_True in Hs by by right. unfold released.
    rewrite (proj2 (Z.eqb_neq _ _)) by (intros Hk; by rewrite Hk in Hin). lia. }
  exists s', (λ k, released m k l + f k). split; [|split].
  - cbn [for_each]. unfold mbind, M_bind. by rewrite E1.
  - split; [congruence|]. split; [congruence|]. intros k. rewrite Ha, Ha1.
    destruct (omni_allocations s !! k); cbn; [|done]. do 2 f_equal. lia.
  - intros k. specialize (Hf k). specialize (Hrel k). pose proof (released_bound m k l).
    destruct (decide (fst k ∈ mods)) as [Hin|Hin]; [|lia].
    assert (released m k l = 0) as ->.
    { unfold released. by rewrite (proj2 (Z.eqb_neq _ _)) by (intros Hk; by rewrite Hk in Hin). }
    rewrite decide_True by by right. lia.
Qed.

Lemma references_some s k a : omni_allocations s !! k = Some a → references s k = refcounter a.
Proof. unfold references. by intros ->. Qed.

Lemma lowered_zero s : lowered (λ _, 0) s s.
Proof.
  split; [done|]. split; [done|]. intros k. destruct (_ !! k) as [[]|]; cbn; [|done]. do 2 f_equal. lia.
Qed.

(** A backend drops acquisitions, and references with them. *)
Lemma inv_shrink y b l s' f : inv y → lowered f (sh y) s' →
  (∀ k, 0 <= f k <= acq_count k (acqs y b) - acq_count k l) → (∀ a, a ∈ l → a ∈ acqs y b) →
  inv (System s' (<[b := l]> (backends y))).
Proof.
  intros Hi (Hh & Hn & Ha) Hf Hl.
  assert (Hge : ∀ k a, omni_allocations (sh y) !! k = Some a → f k <= refcounter a).
  { intros k a E. pose proof (inv_count y Hi k) as Hc. rewrite (references_some _ _ _ E) in Hc.
    specialize (Hf k). pose proof (acq_count_nonneg k l).
    pose proof (at_key_le (acq_count k) (backends y) b (acq_count_nonneg k)) as Hle.
    unfold holders, at_key, acqs in *. destruct (backends y !! b) as [l0|]; cbn in Hf; [lia|].
    change (acq_count k []) with 0 in Hf. pose proof (inv_live y Hi k a E). lia. }
  split; cbn [sh backends].
  - intros k. rewrite holders_update. pose proof (inv_count y Hi k) as Hc. specialize (Hf k).
    unfold references in *. rewrite Ha. destruct (omni_allocations (sh y) !! k) as [a|]; cbn; lia.
  - intros k a. rewrite Ha, Hh. destruct (omni_allocations (sh y) !! k) as [a0|] eqn:E; [|done].
    intros [= <-]. destruct (inv_live y Hi k a0 E) as [Hp Hr]. split; [done|].
    specialize (Hge k a0 E). specialize (Hf k). cbn. lia.
  - intros k1 k2 a1 a2. rewrite !Ha.
    destruct (omni_allocations (sh y) !! k1) as [b1|] eqn:E1; [|done].
    destruct (omni_allocations (sh y) !! k2) as [b2|] eqn:E2; [|done].
    intros [= <-] [= <-]. cbn. by apply (inv_distinct y Hi).
  - rewrite Hh, Hn. apply (inv_next y Hi).
  - intros b' a. rewrite acqs_update, Ha. intros Hin.
    assert (Hin' : a ∈ acqs y b') by (destruct (decide (b' = b)) as [->|]; auto).
    pose proof (inv_held y Hi b' a Hin') as Hh'.
    by destruct (omni_allocations (sh y) !! acq_key a).
Qed.

(** *** The invariant *)

Lemma runs_system {A} (m : M state A) y b r y' : runs m y b r y' →
  y' = System (sh y') (<[b := acqs y' b]> (backends y)).
Proof. intros [_ Hb]. destruct y' as [s bs]. cbn in *. by rewrite <- Hb. Qed.

Lemma inv_counters y k a : inv y → counters_small (sh y) → omni_allocations (sh y) !! k = Some a →
  0 <= refcounter a ∧ refcounter a + 1 < 2 ^ 32.
Proof. intros Hi Hc E. split; [apply (inv_live y Hi k a E)|by apply (Hc k)]. Qed.

Lemma step_allocate_inv y y' b byte h name size init r : inv y → counters_small (sh y) →
  runs (allocate_shmem byte h name size init) y b r y' → inv y'.
Proof.
  intros Hi Hc Hr. rewrite (runs_system _ _ _ _ _ Hr). destruct Hr as [Hr _].
  apply allocate_ok in Hr as (Hl & Hs & _); [|intros a; by apply inv_counters].
  rewrite Hl, Hs. clear Hl Hs. set (k := (id h, name)).
  destruct (omni_allocations (sh y) !! k) as [a|] eqn:E; cbn.
  - pose proof (inv_counters y k a Hi Hc E). destruct (inv_live y Hi k a E) as [Hp _].
    eapply (inv_acquire y b k _ _ (alloc_size a)); cbn; rewrite ?(references_some _ _ _ E); try done; try lia.
    + set_solver.
    + set_solver.
    + intros x [->%elem_of_singleton|Hx]%elem_of_union; [lia|]. apply (inv_next y Hi) in Hx. lia.
    + intros a' Ha'. congruence.
    + congruence.
  - assert (Href : references (sh y) k = 0) by (unfold references; by rewrite E).
    eapply (inv_acquire y b k _ _ size); cbn; rewrite ?Href; try done; try lia.
    + set_solver.
    + set_solver.
    + intros x [->%elem_of_singleton|Hx]%elem_of_union; [lia|]. apply (inv_next y Hi) in Hx. lia.
    + intros a' Ha'. congruence.
    + intros _ Hin. apply (inv_next y Hi) in Hin. lia.
Qed.

Lemma step_lookup_inv y y' b byte h name r : inv y → counters_small (sh y) →
  runs (lookup_shmem byte h name) y b r y' → inv y'.
Proof.
  intros Hi Hc Hr. rewrite (runs_system _ _ _ _ _ Hr). destruct Hr as [Hr _].
  apply lookup_ok in Hr; [|intros a; by apply inv_counters].
  destruct (omni_allocations (sh y) !! (id h, name)) as [a|] eqn:E.
  - destruct Hr as (Hl & Hs & _). rewrite Hl, Hs.
    pose proof (inv_counters y _ a Hi Hc E). destruct (inv_live y Hi _ a E) as [Hp _].
    eapply (inv_acquire y b (id h, name) _ _ (alloc_size a)); cbn; rewrite ?(references_some _ _ _ E); try done; try lia.
    + apply (inv_next y Hi).
    + intros a' Ha'. congruence.
    + congruence.
  - destruct Hr as (Hs & Hl & _). rewrite Hl, Hs. apply inv_shrink with (f := λ _, 0); [done|apply lowered_zero|lia|done].
Qed.

Lemma filter_matches k l : Z.of_nat (String.length (snd k)) < NAMEDATALEN - 1 →
  (∀ k', acq_count k' (filter (λ a, acq_matches k a = false) l) =
         if decide (k' = k) then 0 else acq_count k' l) ∧
  (∀ a, a ∈ filter (λ a, acq_matches k a = false) l → a ∈ l ∧ acq_key a ≠ k).
Proof.
  intros Hlen. assert (Hm : ∀ a, acq_matches k a = false ↔ acq_key a ≠ k).
  { intros a. unfold acq_matches. rewrite (proj2 (Z.ltb_lt _ _)) by done. rewrite orb_true_r, andb_true_r.
    apply bool_decide_eq_false. }
  split.
  - intros k'. induction l as [|a l IH]; [by destruct (decide _)|].
    rewrite filter_cons. unfold acq_count in *. destruct (decide (acq_matches k a = false)) as [H|H].
    + rewrite Hm in H. rewrite !filter_cons. destruct (decide (acq_key a = k')) as [<-|]; [|done].
      rewrite decide_False in * by done. cbn. lia.
    + rewrite IH. destruct (decide (k' = k)) as [->|Hk]; [done|]. rewrite filter_cons, decide_False; [done|].
      intros <-. apply H. by apply Hm.
  - intros a [H1 H2]%list_elem_of_filter. by rewrite Hm in H1.
Qed.

Lemma step_deallocate_inv y y' b h name r : inv y →
  (∃ a, a ∈ acqs y b ∧ acq_key a = (id h, name)) → Z.of_nat (String.length name) < NAMEDATALEN - 1 →
  runs (deallocate_shmem h name) y b r y' → inv y'.
Proof.
  intros Hi (a0 & Hin & Hk) Hlen Hr. rewrite (runs_system _ _ _ _ _ Hr). destruct Hr as [Hr _].
  set (k := (id h, name)) in *.
  pose proof (holders_pos y k b a0 Hin Hk) as Hpos. pose proof (inv_count y Hi k) as Hc.
  pose proof (acq_count_pos k _ a0 Hin Hk) as Hown.
  destruct (omni_allocations (sh y) !! k) as [a|] eqn:E.
  2:{ unfold references in Hc. rewrite E in Hc. lia. }
  rewrite (references_some _ _ _ E) in Hc. destruct (inv_live y Hi k a E) as [Hp Hlt].
  apply (deallocate_ok h name _ _ _ _ _ a) in Hr as [Hl Hs]; [|done|lia].
  fold k in Hl, Hs. destruct (filter_matches k (acqs y b) Hlen) as [Hcnt Hkeep].
  rewrite Hl, Hs. clear Hl Hs. destruct (decide (refcounter a = 1)) as [H1|H1].
  - assert (Hother : ∀ b' x, x ∈ acqs (System (sh y) (<[b := filter (λ a, acq_matches k a = false) (acqs y b)]>
        (backends y))) b' → acq_key x ≠ k ∧ x ∈ acqs y b').
    { intros b' x Hx. split.
      - intros Hxk. pose proof (holders_pos _ _ _ _ Hx Hxk) as Hh.
        rewrite holders_update, Hcnt, decide_True in Hh by done. lia.
      - rewrite acqs_update in Hx. destruct (decide (b' = b)) as [->|]; [|done]. by apply Hkeep. }
    split; cbn [sh backends omni_allocations heap next_chunk].
    + intros k'. rewrite holders_update, Hcnt. pose proof (inv_count y Hi k') as Hc'. unfold references in *.
      destruct (decide (k' = k)) as [->|Hk'].
      * cbn. rewrite lookup_delete_eq. lia.
      * cbn. rewrite lookup_delete_ne by done. lia.
    + intros k' a'. cbn. rewrite lookup_delete_Some. intros [Hne E'].
      destruct (inv_live y Hi k' a' E') as [Hp' Hr']. split; [|done].
      apply elem_of_difference. split; [done|]. rewrite elem_of_singleton. intros Heq.
      apply Hne. symmetry. by apply (inv_distinct y Hi k' k a' a).
    + intros k1 k2 a1 a2. rewrite !lookup_delete_Some. intros [_ E1] [_ E2]. by apply (inv_distinct y Hi).
    + intros p [Hp' _]%elem_of_difference. by apply (inv_next y Hi).
    + intros b' x Hx. destruct (Hother b' x Hx) as [Hxk Hx']. rewrite lookup_delete_ne by done.
      by apply (inv_held y Hi b').
  - apply inv_shrink with (f := λ k', if decide (k' = k) then 1 else 0); [done| | |].
    + split; [done|]. split; [done|]. intros k'. cbn. destruct (decide (k' = k)) as [->|Hk'].
      * by rewrite lookup_insert_eq, E.
      * rewrite lookup_insert_ne by done. destruct (_ !! k') as [[]|]; cbn; [|done]. do 2 f_equal. lia.
    + intros k'. rewrite Hcnt. pose proof (acq_count_nonneg k' (acqs y b)).
      destruct (decide (k' = k)) as [->|]; lia.
    + intros x Hx. by apply Hkeep.
Qed.

Lemma step_unload_inv y y' b m : inv y → runs (forget_module m) y b () y' → inv y'.
Proof.
  intros Hi Hr. rewrite (runs_system _ _ _ _ _ Hr). destruct Hr as [Hr _].
  unfold forget_module, set_acquisitions, modify_st in Hr. cbn in Hr. injection Hr as Hs Hl.
  rewrite <- Hl, <- Hs. apply inv_shrink with (f := λ _, 0); [done|apply lowered_zero| |].
  - intros k. pose proof (acq_count_filter k (λ a, fst (acq_key a) ≠ m) (acqs y b)). lia.
  - by intros a [_ Ha]%list_elem_of_filter.
Qed.

Lemma step_exit_inv y y' b mods : inv y → NoDup mods → runs (release_acquisitions mods) y b () y' → inv y'.
Proof.
  intros Hi Hnd Hr. rewrite (runs_system _ _ _ _ _ Hr). destruct Hr as [Hr _].
  unfold release_acquisitions, mbind, M_bind, get_st in Hr. cbn in Hr.
  destruct (release_modules_ok (acqs y b) (acqs y b) mods (sh y) Hnd) as (s' & f & E & Hlow & Hf).
  { intros k a E. destruct (inv_live y Hi k a E) as [_ Hr']. split; [|lia].
    pose proof (inv_count y Hi k) as Hc. rewrite (references_some _ _ _ E) in Hc.
    pose proof (at_key_le (acq_count k) (backends y) b (acq_count_nonneg k)) as Hle.
    unfold holders, at_key, acqs in *. destruct (decide _); [|lia].
    destruct (backends y !! b); cbn; [lia|]. change (acq_count k []) with 0. lia. }
  rewrite E in Hr. cbn in Hr. injection Hr as Hs Hl. rewrite <- Hl, <- Hs.
  apply inv_shrink with (f := f); [done|done| |].
  - intros k. specialize (Hf k). change (acq_count k []) with 0. pose proof (acq_count_nonneg k (acqs y b)).
    destruct (decide _); lia.
  - intros a Ha. by apply not_elem_of_nil in Ha.
Qed.

Lemma reachable_inv y : reachable y → inv y.
Proof.
  induction 1 as [|y y' _ IH Hs].
  - split; cbn; try done. intros b a Ha. by apply not_elem_of_nil in Ha.
  - destruct Hs as [? ? ? ? ? ? ? ? ? Hc Hr|? ? ? ? ? ? ? Hc Hr|? ? ? ? ? ? Ha Hl Hr|? ? ? ? Hr|? ? ? ? Hn Hr].
    + by eapply step_allocate_inv.
    + by eapply step_lookup_inv.
    + by eapply step_deallocate_inv.
    + by eapply step_unload_inv.
    + by eapply step_exit_inv.
Qed.

(** C13. No backend is left with an address of freed shared memory: in every
    state the backends can reach by allocating, looking up, deallocating what
    they acquired, unloading modules and exiting, each acquisition of each
    backend still has its table entry, the entry has the address the backend
    got, the chunk is in use, it has at least as many references as the
    backends have acquisitions, and it belongs to no other name. *)
Theorem shmem_acquisitions_live y b a : reachable y → a ∈ acqs y b →
  ∃ al, omni_allocations (sh y) !! acq_key a = Some al ∧ dsa_pointer al = held a ∧
    held a ∈ heap (sh y) ∧ 1 <= holders y (acq_key a) <= refcounter al ∧
    ∀ k' al', omni_allocations (sh y) !! k' = Some al' → dsa_pointer al' = held a → k' = acq_key a.
Proof.
  intros Hr Hin. pose proof (reachable_inv y Hr) as Hi. pose proof (inv_held y Hi b a Hin) as Hh.
  destruct (omni_allocations (sh y) !! acq_key a) as [al|] eqn:E; [|done]. injection Hh as Hh.
  destruct (inv_live y Hi _ al E) as [Hp _]. exists al. split; [done|]. split; [done|].
  split; [by rewrite <- Hh|]. split.
  - pose proof (holders_pos y _ b a Hin eq_refl). pose proof (inv_count y Hi (acq_key a)) as Hc.
    by rewrite (references_some _ _ _ E) in Hc.
  - intros k' al' E' Hp'. apply (inv_distinct y Hi k' _ al' al); [done|done|congruence].
Qed.

Definition example_handle : handle := Handle 1 7.

(** Backend 1 allocates, backend 2 looks the name up, backend 1 exits. *)
Definition example_shared : shared :=
  Shared {[ (1, "c") := Allocation 1 8 1 ]} {[ 1%nat ]} 2.

Lemma shmem_acquisitions_live_witness :
  let y := System example_shared {[ 1%nat := [Acquisition (1, "c") true 1%nat] ]} in
  ∃ al, omni_allocations (sh y) !! (1, "c") = Some al ∧ dsa_pointer al = 1%nat ∧
    1%nat ∈ heap (sh y) ∧ 1 <= holders y (1, "c") <= refcounter al ∧
    ∀ k' al', omni_allocations (sh y) !! k' = Some al' → dsa_pointer al' = 1%nat → k' = (1, "c").
Proof.
  intros y. apply (shmem_acquisitions_live y 1 (Acquisition (1, "c") true 1%nat)).
  - eapply (reachable_step (System (Shared ∅ ∅ 1) ∅)); [apply reachable_init|].
    eapply (step_allocate _ _ 1 0 example_handle "c" 8 false).
    + intros k a. cbn. by rewrite lookup_empty.
    + split; vm_compute; reflexivity.
  - apply elem_of_cons. by left.
Defined.

(** Memory is shared by name: the first allocation of a name makes the
    chunk and runs the initialization callback on it as newly allocated; after
    it, allocations and lookups of that name by any backend, with a handle of
    the same module, return the same address as found and run the callback, if
    its revision has the argument, as not allocated. *)
Theorem shmem_shared_by_name byte byte' h h' name size size' s l l2 r s1 l1 :
  omni_allocations s !! (id h, name) = None → id h' = id h → 0 < size' →
  allocate_shmem byte h name size true (s, l) = (Ok r, (s1, l1)) →
  let p := next_chunk s in
  r = (Some p, false, [(p, if revision h <? 3 then None else Some true)]) ∧
  fst (allocate_shmem byte' h' name size' true (s1, l2)) =
    Ok (Some p, true, if 3 <=? revision h' then [(p, Some false)] else []) ∧
  fst (lookup_shmem byte' h' name (s1, l2)) = Ok (Some p, true, []).
Proof.
  intros E Hid Hsize. unfold lookup_shmem, allocate_shmem, find_or_allocate_shmem, find_or_allocate_shmem_dsa.
  unfold mbind, M_bind, dsa_allocate0, mret, M_ret, get_st. rewrite Hid. cbn.
  destruct (_ <? _); [done|]. destruct (size =? 0); [done|]. cbn. rewrite E. cbn.
  intros [= <- <- <-]. rewrite (proj2 (Z.eqb_neq size' 0)) by lia. cbn.
  rewrite lookup_insert_eq. done.
Qed.

Lemma shmem_shared_by_name_witness :
  let first := allocate_shmem 0 example_handle "c" 8 true (Shared ∅ ∅ 1, []) in
  fst first = Ok (Some 1%nat, false, [(1%nat, Some true)]) ∧
  fst (lookup_shmem 0 example_handle "c" (fst (snd first), [])) = Ok (Some 1%nat, true, []).
Proof.
  intros first.
  destruct (shmem_shared_by_name 0 0 example_handle example_handle "c" 8 8 (Shared ∅ ∅ 1) [] []
    (Some 1%nat, false, [(1%nat, Some true)]) (fst (snd first)) (snd (snd first))) as (_ & _ & H).
  - reflexivity.
  - reflexivity.
  - reflexivity.
  - vm_compute. reflexivity.
  - split; [vm_compute; reflexivity|exact H].
Defined.

(** Allocating a name that exists leaks a chunk: the chunk allocated
    tentatively, before the table was looked at, stays in use and no entry of
    the table refers to it, so that nothing will free it. *)
Theorem shmem_allocate_existing_leaks byte h name size init y b r y' al :
  reachable y → counters_small (sh y) → omni_allocations (sh y) !! (id h, name) = Some al →
  runs (allocate_shmem byte h name size init) y b r y' →
  fst r = (Some (dsa_pointer al), true) ∧
  next_chunk (sh y) ∈ heap (sh y') ∧ (next_chunk (sh y) ∉ heap (sh y)) ∧
  ∀ k al', omni_allocations (sh y') !! k = Some al' → dsa_pointer al' ≠ next_chunk (sh y).
Proof.
  intros Hre Hc E [Hr _]. pose proof (reachable_inv y Hre) as Hi.
  apply allocate_ok in Hr as (_ & Hs & Hf); [|intros a; by apply inv_counters].
  rewrite E in Hs, Hf. cbn in Hs, Hf. rewrite Hs. cbn.
  assert (Hnew : ∀ k al', omni_allocations (sh y) !! k = Some al' → dsa_pointer al' ≠ next_chunk (sh y)).
  { intros k al' E' Heq. destruct (inv_live y Hi k al' E') as [Hp _]. apply (inv_next y Hi) in Hp. lia. }
  split; [done|]. split; [apply elem_of_union; left; by apply elem_of_singleton|]. split.
  - intros Hin. apply (inv_next y Hi) in Hin. lia.
  - intros k al'. destruct (decide ((id h, name) = k)) as [<-|Hk].
    + rewrite lookup_insert_eq. intros [= <-]. cbn. by apply (Hnew (id h, name)).
    + rewrite lookup_insert_ne by done. apply Hnew.
Qed.

Lemma shmem_allocate_existing_leaks_witness :
  let y := System example_shared {[ 1%nat := [Acquisition (1, "c") true 1%nat] ]} in
  (2%nat ∉ heap (sh y)) ∧
  2%nat ∈ heap (fst (snd (allocate_shmem 0 example_handle "c" 8 false (sh y, [])))).
Proof.
  intros y.
  assert (Hre : reachable y).
  { eapply (reachable_step (System (Shared ∅ ∅ 1) ∅)); [apply reachable_init|].
    eapply (step_allocate _ _ 1 0 example_handle "c" 8 false).
    + intros k a. cbn. by rewrite lookup_empty.
    + split; vm_compute; reflexivity. }
  set (s' := fst (snd (allocate_shmem 0 example_handle "c" 8 false (sh y, [])))).
  destruct (shmem_allocate_existing_leaks 0 example_handle "c" 8 false y 2
    (Some 1%nat, true, []) (System s' (<[2%nat := [Acquisition (1, "c") true 1%nat]]> (backends y)))
    (Allocation 1 8 1)) as (_ & H1 & H2 & _).
  - exact Hre.
  - intros k a. cbn. rewrite lookup_singleton_Some. intros [_ <-]. reflexivity.
  - reflexivity.
  - split; vm_compute; reflexivity.
  - split; [exact H2|exact H1].
Defined.
End Shmem.
