(* ===== verification/SumType.v ===== *)
(** * Sum types: [omni_types/sum_type.c], [sum_type.h] and [unit.c]

    A value of a sum type is a discriminant followed by the bytes of a value
    of one of its variants, in a fixed-size chunk or inside a varlena.  The
    model keeps that layout: a pointer is the memory from its address to the
    end of the allocation, a byte of memory that nothing has written is
    indeterminate, and a by-value [Datum] is its eight bytes in memory order
    (little-endian, 64-bit).  A copy that leaves an allocation is [Undefined];
    the bytes an eight-byte load takes from beyond the allocation are
    indeterminate.

    The catalogs, the function manager and the operator lookup belong to
    PostgreSQL: they are the fields of [PgBackend], with the properties used
    of them in [PgLaws].  The state of the monad is [sumtypehash], the
    backend-local cache of the rows of [omni_types.sum_types]. *)

From stdpp Require Import base tactics list gmap strings numbers.
From Stdlib Require Import ZArith Lia.
From S2P Require Import Prelude SeqId.

Local Open Scope Z_scope.

Module SumType.

(** ** Memory *)

(** [None]: indeterminate *)

Notation mem := (list (option Z)).

Inductive datum :=
  | DWord (w : mem)
  | DPtr (m : mem).

#[export] Instance datum_eq_dec : EqDecision datum.
Proof. solve_decision. Defined.

(** [n] bytes read at offset [off] (the source of a [memcpy]). *)
Definition peek (off : nat) (n : Z) (m : mem) : result mem :=
  if n <? 0 then Undefined "memcpy of a negative length" else
  if (off + Z.to_nat n <=? length m)%nat then Ok (take (Z.to_nat n) (drop off m))
  else Undefined "read outside the allocation".

(** [bs] written at offset [off]. *)
Definition poke (off : nat) (bs m : mem) : result mem :=
  if (off + length bs <=? length m)%nat
  then Ok (take off m ++ bs ++ drop (off + length bs) m)
  else Undefined "write outside the allocation".

Definition palloc (n : Z) : mem := replicate (Z.to_nat n) None.

Definition le_bytes (n : nat) (z : Z) : mem := Some <$> rev (be_bytes n z).

(** The bytes of a scalar, all of which must have been written. *)
Fixpoint known (m : mem) : option (list Z) :=
  match m with
  | [] => Some []
  | c :: m' => b ← c; bs ← known m'; Some (b :: bs)
  end.

Definition scalar (m : mem) : result (list Z) :=
  match known m with Some bs => Ok bs | None => Undefined "indeterminate value" end.

Definition le_u32 (off : nat) (m : mem) : result Z :=
  bs ← peek off 4 m; bs ← scalar bs; Ok (be_val (rev bs)).

(** A [Datum] loaded through a pointer: what lies beyond the allocation is indeterminate. *)
Definition load_word (m : mem) : datum := DWord (take 8 (m ++ replicate 8 None)).

Definition DatumGetPointer (d : datum) : result mem :=
  match d with DPtr m => Ok m | DWord _ => Undefined "not a pointer" end.

(** ** Varlena headers *)

Definition VARHDRSZ : Z := 4.
Definition SIZEOF_DISCRIMINANT : Z := 4.
(** [sizeof(VarSizeVariant)]: the discriminant and the header of [data] *)
Definition SIZEOF_VarSizeVariant : Z := 8.

Definition SET_VARSIZE (off : nat) (len : Z) (m : mem) : result mem :=
  poke off (le_bytes 4 (Z.shiftl len 2)) m.

Definition VARATT_IS_1B (m : mem) : result bool :=
  match m with
  | Some b :: _ => Ok (Z.land b 1 =? 1)
  | _ => Undefined "indeterminate varlena header"
  end.

Definition VARSIZE_ANY (m : mem) : result Z :=
  short ← VARATT_IS_1B m;
  if (short : bool) then
    match m with Some b :: _ => Ok (Z.shiftr b 1) | _ => Undefined "indeterminate varlena header" end
  else h ← le_u32 0 m; Ok (Z.shiftr h 2).

(** Offset of [VARDATA_ANY(p)] from [p]. *)
Definition vardata_off (m : mem) : result nat :=
  short ← VARATT_IS_1B m; Ok (if (short : bool) then 1%nat else 4%nat).

Definition VARSIZE_ANY_EXHDR (m : mem) : result Z :=
  n ← VARSIZE_ANY m; off ← vardata_off m; Ok (n - Z.of_nat off).

(** Neither compressed nor out of line. *)
Definition plain (m : mem) : bool :=
  match m with
  | Some b :: _ => (Z.land b 3 =? 0) || ((Z.land b 1 =? 1) && negb (b =? 1))
  | _ => false
  end.

(** ** The backend *)

Definition InvalidOid : Z := 0.
Definition OidIsValid (o : Z) : bool := negb (o =? InvalidOid).

(** The columns of [pg_type] the code reads. *)
Record pg_type := PgType {
  typname : string;
  typlen : Z;
  typbyval : bool;
  typpseudo : bool;       (* typcategory = TYPCATEGORY_PSEUDOTYPE *)
  typcomposite : bool;    (* typtype = TYPTYPE_COMPOSITE *)
  typdomain : bool;       (* typtype = TYPTYPE_DOMAIN *)
  typelem : Z;
  typinput : Z;
  typoutput : Z;
  typreceive : Z;
  typsend : Z;
  typmodin : Z;
}.

Class PgBackend := {
  (** [SearchSysCache1(TYPEOID, oid)] *)
  type_tuple : Z → option pg_type;
  format_type_be : Z → list Z;
  PG_DETOAST_DATUM_PACKED : mem → mem;
  OidInputFunctionCall : Z → list Z → Z → Z → result datum;
  OidOutputFunctionCall : Z → datum → result (list Z);
  OidReceiveFunctionCall : Z → mem → Z → Z → result datum;
  OidSendFunctionCall : Z → datum → result mem;
  (** function, collation, arguments; the result is a by-value [Datum] *)
  FunctionCall1Coll : Z → Z → datum → result Z;
  FunctionCall2Coll : Z → Z → datum → datum → result Z;
  OpernameGetOprid : string → Z → Z → Z;
  OpernameGetCandidates : string → list Z;
  func_match_argtypes : list Z → list Z → list Z;
  func_select_candidate : list Z → list Z → option Z;
  get_opcode : Z → Z;
  GetDefaultOpClass : Z → string → Z;
  get_opclass_family : Z → Z;
  get_opfamily_proc : Z → Z → Z → Z → Z;
}.

Record SumTypeCacheEntry := Entry {
  xmin : Z;
  variant_type_oids : list Z;
  variant_eq_ops : list Z;
  variant_opc_hash : list Z;
  variant_opc_btree : list Z;
}.

Notation sumtypehash := (gmap Z SumTypeCacheEntry).

(** What the code sees of the database when it runs: the active snapshot (if
    any), the rows of [omni_types.sum_types], and the entry, if any, that
    deleting a key from the hash table moves into the slot of that key. *)
Record world := World {
  snapshot_xmin : option Z;
  sum_types : list (Z * list Z);
  moved_into_slot : sumtypehash → Z → option SumTypeCacheEntry;
}.

Section Ops.
Context `{B : PgBackend}.

(** *** Operator lookup *)

Definition oper_select_candidate (argtypes candidates : list Z) : Z :=
  match func_match_argtypes argtypes candidates with
  | [] => InvalidOid
  | [c] => c
  | cs => match func_select_candidate argtypes cs with
          | Some c => c
          | None => InvalidOid
          end
  end.

Definition lookup_operator (type : Z) (name : string) : Z :=
  let oid := OpernameGetOprid name type type in
  if OidIsValid oid then oid else
  match OpernameGetCandidates name with
  | [] => oid
  | clist => oper_select_candidate [type; type] clist
  end.

(** *** The cache *)

(** The entry built from the row of [sum_types] for the type. *)
Definition scan_sum_types (W : world) (x : Z) (sum_type_oid : Z) : option SumTypeCacheEntry :=
  '(_, oids) ← list_find (λ row, row.1 = sum_type_oid) (sum_types W) ≫= (λ p, Some p.2);
  Some (Entry x oids
          ((λ t, lookup_operator t "=") <$> oids)
          ((λ t, GetDefaultOpClass t "hash") <$> oids)
          ((λ t, GetDefaultOpClass t "btree") <$> oids)).

Definition snapshot (W : world) : Z := default 0 (snapshot_xmin W).

(** One turn of the loop per unit of fuel: [Some r] when the loop ends with
    [matching_entry_found ? entry : NULL] equal to [r]. *)
Fixpoint lookup_loop (fuel : nat) (W : world) (oid : Z)
  : M sumtypehash (option SumTypeCacheEntry) :=
  match fuel with
  | O => undefined "the loop does not end"
  | S fuel' =>
      h ← get_st;
      match h !! oid with
      | None =>
          match scan_sum_types W (snapshot W) oid with
          | Some e => _ ← put_st (<[oid := e]> h); mret (Some e)
          | None => mret None
          end
      | Some e =>
          if xmin e =? snapshot W then mret (Some e) else
          _ ← put_st (delete oid h);
          (* [entry] still points to the slot of the deleted entry *)
          let entry := default e (moved_into_slot W h oid) in
          if xmin entry =? snapshot W then mret None
          else lookup_loop fuel' W oid
      end
  end.

Definition lookup_sumtype_cache : world → Z → M sumtypehash (option SumTypeCacheEntry) :=
  lookup_loop 2.

(** *** Values *)

(** [p->values[i]] of an [oidvector]. *)
Definition values_at (l : list Z) (i : Z) : result Z :=
  if i <? 0 then Undefined "index below the vector" else
  match l !! Z.to_nat i with
  | Some o => Ok o
  | None => Undefined "index beyond the vector"
  end.

Definition SearchTypeOid (oid : Z) : result pg_type :=
  match type_tuple oid with
  | Some t => Ok t
  | None => Undefined "no pg_type tuple"
  end.

(** The bytes [memcpy] takes from the variant. *)
Definition variant_bytes (byval : bool) (value : datum) (n : Z) : result mem :=
  match byval, value with
  | true, DWord w => peek 0 n w
  | true, DPtr _ => Undefined "the bytes of an address"
  | false, _ => m ← DatumGetPointer value; peek 0 n m
  end.

Definition make_variant (sum_type_len discriminant variant_type_len : Z)
    (variant_byval : bool) (variant_value : datum) : result datum :=
  if negb (sum_type_len =? -1) then
    fixed ← poke 0 (le_bytes 4 discriminant) (palloc sum_type_len);
    bs ← variant_bytes variant_byval variant_value variant_type_len;
    fixed ← poke 4 bs fixed;
    Ok (DPtr fixed)
  else
    variant_value ← (if variant_type_len =? -1
                     then m ← DatumGetPointer variant_value; Ok (DPtr (PG_DETOAST_DATUM_PACKED m))
                     else Ok variant_value);
    sz ← (if variant_type_len =? -1
          then m ← DatumGetPointer variant_value; VARSIZE_ANY m
          else Ok variant_type_len);
    let len := VARHDRSZ + SIZEOF_VarSizeVariant + sz in
    varsize ← SET_VARSIZE 0 len (palloc len);
    off ← vardata_off varsize;
    varsize ← poke off (le_bytes 4 discriminant) varsize;
    varsize ← SET_VARSIZE (off + 4) sz varsize;
    bs ← variant_bytes variant_byval variant_value sz;
    varsize ← (if variant_byval
               then doff ← vardata_off (drop (off + 4) varsize); poke (off + 4 + doff) bs varsize
               else poke (off + 4) bs varsize);
    Ok (DPtr varsize).

(** The variant, its value (left alone when the type has no entry) and the
    discriminant. *)
Definition get_variant_val (W : world) (arg : datum) (sum_type_oid : Z)
  : M sumtypehash (Z * option datum * Z) :=
  sum_typtup ← lift_r (SearchTypeOid sum_type_oid);
  m ← lift_r (DatumGetPointer arg);
  let m := if typlen sum_typtup =? -1 then PG_DETOAST_DATUM_PACKED m else m in
  off ← lift_r (if typlen sum_typtup =? -1 then vardata_off m else Ok 0%nat);
  u ← lift_r (le_u32 off m);
  let discriminant := wrap_s 32 u in
  entry ← lookup_sumtype_cache W sum_type_oid;
  match entry with
  | None => mret (InvalidOid, None, discriminant)
  | Some e =>
      variant ← lift_r (values_at (variant_type_oids e) discriminant);
      typtup ← lift_r (SearchTypeOid variant);
      let data := drop (off + 4) m in
      val ← lift_r (if typlen sum_typtup =? -1
                    then if typbyval typtup
                         then doff ← vardata_off data; Ok (load_word (drop doff data))
                         else Ok (DPtr data)
                    else if typbyval typtup then Ok (load_word data) else Ok (DPtr data));
      mret (variant, Some val, discriminant)
  end.

(** A variable read before anything was assigned to it. *)
Definition initialised {A} (o : option A) : result A :=
  match o with Some a => Ok a | None => Undefined "uninitialised variable" end.

(** The argument [variant(v)] is never NULL below; a result [None] is SQL
    NULL. *)
Definition sum_variant (W : world) (sum_type_oid : Z) (arg : option datum)
  : M sumtypehash (option Z) :=
  match arg with
  | None => ereport "Sum type value can't be null"
  | Some arg =>
      '(variant, _, _) ← get_variant_val W arg sum_type_oid;
      mret (if variant =? InvalidOid then None else Some variant)
  end.

Definition sum_cast_to (W : world) (sum_type_oid variant_type_oid : Z) (arg : datum)
  : M sumtypehash (option datum) :=
  '(variant, val, _) ← get_variant_val W arg sum_type_oid;
  if negb (variant =? variant_type_oid) then mret None else
  val ← lift_r (initialised val);
  mret (Some val).

(** The index at which the search loops over the variants stop. *)
Fixpoint find_variant (p : Z → bool) (i : Z) (oids : list Z) : option (Z * Z) :=
  match oids with
  | [] => None
  | o :: oids' => if p o then Some (i, o) else find_variant p (i + 1) oids'
  end.

Definition sum_cast_from (W : world) (sum_type_oid variant_type_oid : Z) (arg : datum)
  : M sumtypehash datum :=
  entry ← lookup_sumtype_cache W sum_type_oid;
  match entry ≫= (λ e, find_variant (Z.eqb variant_type_oid) 0 (variant_type_oids e)) with
  | None => ereport "No valid variant found"
  | Some (discriminant, _) =>
      sum_typtup ← lift_r (SearchTypeOid sum_type_oid);
      typtup ← lift_r (SearchTypeOid variant_type_oid);
      lift_r (make_variant (typlen sum_typtup) discriminant (typlen typtup) (typbyval typtup) arg)
  end.

(** *** Text *)

(** [strncmp(input, name, strlen(name)) == 0 && input[strlen(name)] == '('] *)
Definition names_variant (input : list Z) (variant : Z) : bool :=
  let name := format_type_be variant in
  bool_decide (take (length name) input = name) &&
  bool_decide (input !! length name = Some 40).

Definition typioparam (oid : Z) (t : pg_type) : Z :=
  if OidIsValid (typelem t) then typelem t else oid.

(** [strchr(input, '(') + 1] *)
Definition after_paren (input : list Z) : result (list Z) :=
  match SeqId.strchr_after 40 input with
  | Some rest => Ok rest
  | None => Undefined "strchr found no parenthesis"
  end.

Definition sum_in (W : world) (sum_type_oid : Z) (input : list Z) : M sumtypehash datum :=
  match input !! (length input - 1)%nat with
  | None => undefined "input[-1] of an empty string"
  | Some c =>
      if negb (c =? 41) then ereport "Invalid syntax" else
      sum_typtup ← lift_r (SearchTypeOid sum_type_oid);
      entry ← lookup_sumtype_cache W sum_type_oid;
      let '(discriminant, variant) :=
        default (0, InvalidOid)
          (entry ≫= λ e, find_variant (names_variant input) 0 (variant_type_oids e)) in
      typtup ← lift_r (SearchTypeOid variant);
      rest ← lift_r (after_paren input);
      (* the copy stops before the closing parenthesis *)
      let modified_input := take (length rest - 1) rest in
      result ← lift_r (OidInputFunctionCall (typinput typtup) modified_input
                         (typioparam variant typtup) (typmodin typtup));
      lift_r (make_variant (typlen sum_typtup) discriminant (typlen typtup) (typbyval typtup) result)
  end.

Definition sum_out (W : world) (sum_type_oid : Z) (arg : datum) : M sumtypehash (list Z) :=
  '(variant, val, _) ← get_variant_val W arg sum_type_oid;
  typtup ← lift_r (SearchTypeOid variant);
  val ← lift_r (initialised val);
  out ← lift_r (OidOutputFunctionCall (typoutput typtup) val);
  mret (format_type_be variant ++ [40] ++ out ++ [41]).

(** *** Binary *)

(** The check of [sum_recv], in 32-bit arithmetic. *)
Definition discriminant_refused (dim1 discriminant : Z) : bool :=
  dim1 <? wrap_s 32 (discriminant + 1).

Definition sum_recv (W : world) (sum_type_oid : Z) (input : mem) : M sumtypehash datum :=
  let input := PG_DETOAST_DATUM_PACKED input in
  n ← lift_r (VARSIZE_ANY_EXHDR input);
  if n <? SIZEOF_DISCRIMINANT then ereport "input is too short to fit a discriminant" else
  sum_typtup ← lift_r (SearchTypeOid sum_type_oid);
  off ← lift_r (vardata_off input);
  bs ← lift_r (peek off 4 input);
  bs ← lift_r (scalar bs);
  let discriminant := wrap_s 32 (be_val bs) in
  entry ← lookup_sumtype_cache W sum_type_oid;
  variant ← (match entry with
             | Some e =>
                 if discriminant_refused (Z.of_nat (length (variant_type_oids e))) discriminant
                 then ereport "invalid discriminant"
                 else lift_r (values_at (variant_type_oids e) discriminant)
             | None => mret InvalidOid
             end);
  if variant =? InvalidOid then ereport "No valid variant found" else
  typtup ← lift_r (SearchTypeOid variant);
  string ← lift_r (peek (off + 4) (n - SIZEOF_DISCRIMINANT) input);
  result ← lift_r (OidReceiveFunctionCall (typreceive typtup) string
                     (typioparam variant typtup) (typmodin typtup));
  lift_r (make_variant (typlen sum_typtup) discriminant (typlen typtup) (typbyval typtup) result).

(** The message [sum_send] builds around what the variant's function sent. *)
Definition frame (discriminant : Z) (out : mem) : result mem :=
  n ← VARSIZE_ANY out;
  let len := SIZEOF_DISCRIMINANT + n in
  bytes ← SET_VARSIZE 0 len (palloc len);
  off ← vardata_off bytes;
  bytes ← poke off (Some <$> be_bytes 4 discriminant) bytes;
  ooff ← vardata_off out;
  m ← VARSIZE_ANY_EXHDR out;
  data ← peek ooff m out;
  poke (off + 4) data bytes.

Definition sum_send (W : world) (sum_type_oid : Z) (arg : datum) : M sumtypehash mem :=
  '(variant, val, discriminant) ← get_variant_val W arg sum_type_oid;
  typtup ← lift_r (SearchTypeOid variant);
  val ← lift_r (initialised val);
  out ← lift_r (OidSendFunctionCall (typsend typtup) val);
  lift_r (frame discriminant out).

(** *** Comparison and hashing *)

Inductive cmp_operator :=
  | OP_EQUAL | OP_NOT_EQUAL | OP_LESS | OP_LESS_EQUAL | OP_GREATER | OP_GREATER_EQUAL.

Definition operator_names (op : cmp_operator) : string :=
  match op with
  | OP_EQUAL => "=" | OP_NOT_EQUAL => "<>" | OP_LESS => "<"
  | OP_LESS_EQUAL => "<=" | OP_GREATER => ">" | OP_GREATER_EQUAL => ">="
  end.

(** The answer for values of different variants; [OP_NOT_EQUAL] falls
    through to the operator of the first variant. *)
Definition compare_discriminants (op : cmp_operator) (d1 d2 : Z) : option bool :=
  match op with
  | OP_EQUAL => Some false
  | OP_NOT_EQUAL => None
  | OP_LESS => Some (d1 <? d2)
  | OP_LESS_EQUAL => Some (d1 <=? d2)
  | OP_GREATER => Some (d2 <=? d1)
  | OP_GREATER_EQUAL => Some (d2 <=? d1)
  end.

Definition sum_binary_op (W : world) (type : Z) (op : cmp_operator) (arg1 arg2 : datum)
    (collation : Z) : M sumtypehash bool :=
  '(variant1, val1, discriminant1) ← get_variant_val W arg1 type;
  '(variant2, val2, discriminant2) ← get_variant_val W arg2 type;
  match (if negb (variant1 =? variant2)
         then compare_discriminants op discriminant1 discriminant2 else None) with
  | Some answer => mret answer
  | None =>
      op_oid ← (match op with
                | OP_EQUAL =>
                    h ← get_st;
                    match h !! type with
                    | Some e => lift_r (values_at (variant_eq_ops e) discriminant1)
                    | None => mret InvalidOid
                    end
                | _ => mret (lookup_operator variant1 (operator_names op))
                end);
      if negb (OidIsValid op_oid) then ereport "operator does not exist" else
      let eq_func_oid := get_opcode op_oid in
      if negb (OidIsValid eq_func_oid)
      then ereport "operator does not have a valid underlying function" else
      val1 ← lift_r (initialised val1);
      val2 ← lift_r (initialised val2);
      result ← lift_r (FunctionCall2Coll eq_func_oid collation val1 val2);
      mret (negb (result =? 0))
  end.

Definition sum_equal (W : world) (type : Z) (arg1 arg2 : datum) (collation : Z) :=
  sum_binary_op W type OP_EQUAL arg1 arg2 collation.

(** The operator class cached for the variant, or the one of the catalog
    when the type is not cached. *)
Definition variant_opclass (type : Z) (am : string) (cached : SumTypeCacheEntry → list Z)
    (variant discriminant : Z) : M sumtypehash Z :=
  h ← get_st;
  match h !! type with
  | Some e => lift_r (values_at (cached e) discriminant)
  | None => mret (GetDefaultOpClass variant am)
  end.

Definition sum_compare (W : world) (type : Z) (arg1 arg2 : datum) (collation : Z)
  : M sumtypehash Z :=
  '(variant1, val1, discriminant1) ← get_variant_val W arg1 type;
  '(variant2, val2, discriminant2) ← get_variant_val W arg2 type;
  if negb (variant1 =? variant2) then mret (if discriminant1 <? discriminant2 then -1 else 1) else
  opclass ← variant_opclass type "btree" variant_opc_btree variant1 discriminant1;
  if negb (OidIsValid opclass) then ereport "No default btree opclass for type" else
  let operand := match type_tuple variant1 with
                 | Some t => if typcomposite t then 2249 (* RECORDOID *) else variant1
                 | None => variant1
                 end in
  let cmp_proc_oid := get_opfamily_proc (get_opclass_family opclass) operand operand 1 in
  if negb (OidIsValid cmp_proc_oid) then ereport "No cmp function found in opclass" else
  val1 ← lift_r (initialised val1);
  val2 ← lift_r (initialised val2);
  lift_r (FunctionCall2Coll cmp_proc_oid collation val1 val2).

Definition sum_eq := sum_equal.
Definition sum_neq (W : world) (type : Z) (arg1 arg2 : datum) (collation : Z) :=
  r ← sum_equal W type arg1 arg2 collation; mret (M := M sumtypehash) (negb r).
Definition sum_lt (W : world) (type : Z) := sum_binary_op W type OP_LESS.
Definition sum_lte (W : world) (type : Z) := sum_binary_op W type OP_LESS_EQUAL.
Definition sum_gt (W : world) (type : Z) := sum_binary_op W type OP_GREATER.
Definition sum_gte (W : world) (type : Z) := sum_binary_op W type OP_GREATER_EQUAL.
Definition sum_cmp := sum_compare.

(** [h ^ (discriminant + 0x9e3779b9 + (h << 6) + (h >> 2))], unsigned since
    the constant is. *)
Definition mix (h discriminant : Z) : Z :=
  wrap_s 32 (Z.lxor (wrap_u 32 h)
    (wrap_u 32 (discriminant + 0x9e3779b9 + Z.shiftl h 6 + Z.shiftr h 2))).

Definition sum_hash (W : world) (type : Z) (arg1 : datum) (collation : Z) : M sumtypehash Z :=
  '(variant1, val1, discriminant) ← get_variant_val W arg1 type;
  opclass ← variant_opclass type "hash" variant_opc_hash variant1 discriminant;
  if negb (OidIsValid opclass) then ereport "No default hash opclass for type" else
  let hash_proc_oid := get_opfamily_proc (get_opclass_family opclass) variant1 variant1 1 in
  if negb (OidIsValid hash_proc_oid) then ereport "No hash function found in opclass" else
  val1 ← lift_r (initialised val1);
  r ← lift_r (FunctionCall1Coll hash_proc_oid collation val1);
  mret (mix (wrap_s 32 r) discriminant).

(** *** Definition of a sum type *)

Record sizing := Sizing {
  variant_size : Z;
  varlen : bool;
  binary_io : bool;
  can_hash : bool;
  can_cmp : bool;
}.

(** One turn of the loop of [sum_type] over the array of variants. *)
Definition size_variant (s : sizing) (elem : option Z) : result sizing :=
  match elem with
  | None => Ok s
  | Some elem =>
      match type_tuple elem with
      | None => raise "Type OID is invalid"
      | Some typ =>
          if typpseudo typ then raise "Pseudo-types can't be variants" else
          Ok {| variant_size := if typlen typ =? -1 then variant_size s
                                else Z.max (variant_size s) (typlen typ);
                varlen := varlen s || (typlen typ =? -1);
                binary_io := binary_io s && OidIsValid (typsend typ) && OidIsValid (typreceive typ);
                can_hash := can_hash s && negb (typcomposite typ)
                            && OidIsValid (GetDefaultOpClass elem "hash");
                can_cmp := can_cmp s && OidIsValid (GetDefaultOpClass elem "btree") |}
      end
  end.

Fixpoint size_variants (s : sizing) (arr : list (option Z)) : result sizing :=
  match arr with
  | [] => Ok s
  | elem :: arr' => s ← size_variant s elem; size_variants s arr'
  end.

(** [int16 type_size] *)
Definition type_size (s : sizing) : Z :=
  if varlen s then -1 else wrap_s 16 (SIZEOF_DISCRIMINANT + variant_size s).

(** What the definition of a type leaves in the catalogs; procedures are
    referred to by name. *)
Inductive catalog_object :=
  | ProcedureCreate (name : string) (rettype : Z) (prosrc : string) (argtypes : list Z)
  | TypeCreate (name : string) (len : Z) (input output : string) (receive send : option string)
      (extended : bool)
  | ArrayTypeCreate (name : string)
  | OperatorCreate (name proc commutator negator : string) (can_merge can_hash : bool)
  | CastCreate (source target : Z) (proc : string)
  | SumTypesRow (typ : Z) (variants : list Z).

Definition CSTRINGOID : Z := 2275.
Definition BYTEAOID : Z := 17.
Definition BOOLOID : Z := 16.
Definition INT4OID : Z := 23.

Definition io_procs (name : string) (t : Z) (s : sizing) : list catalog_object :=
  [ ProcedureCreate (name +:+ "_in") t "sum_in" [CSTRINGOID];
    ProcedureCreate (name +:+ "_out") CSTRINGOID "sum_out" [t] ] ++
  (if binary_io s
   then [ ProcedureCreate (name +:+ "_recv") t "sum_recv" [BYTEAOID];
          ProcedureCreate (name +:+ "_send") BYTEAOID "sum_send" [t] ]
   else []).

Definition the_type (name : string) (s : sizing) : list catalog_object :=
  [ TypeCreate name (type_size s) (name +:+ "_in") (name +:+ "_out")
      (if binary_io s then Some (name +:+ "_recv") else None)
      (if binary_io s then Some (name +:+ "_send") else None)
      (type_size s =? -1);
    ArrayTypeCreate name ].

(** A boolean function and the operator it implements. *)
Definition operator (name : string) (t : Z) (s : sizing)
    (suffix prosrc op commutator negator : string) : list catalog_object :=
  [ ProcedureCreate (name +:+ suffix) BOOLOID prosrc [t; t];
    OperatorCreate op (name +:+ suffix) commutator negator (can_cmp s) (can_hash s) ].

Definition operators (name : string) (t : Z) (s : sizing) : list catalog_object :=
  (if can_hash s then [ ProcedureCreate (name +:+ "_hash") INT4OID "sum_hash" [t] ] else []) ++
  operator name t s "_eq" "sum_eq" "=" "=" "<>" ++
  operator name t s "_neq" "sum_neq" "<>" "<>" "=" ++
  (if can_cmp s
   then [ ProcedureCreate (name +:+ "_cmp") INT4OID "sum_cmp" [t; t] ] ++
        operator name t s "_lt" "sum_lt" "<" ">" ">=" ++
        operator name t s "_lte" "sum_lte" "<=" ">=" ">" ++
        operator name t s "_gt" "sum_gt" ">" "<" "<=" ++
        operator name t s "_gte" "sum_gte" ">=" "<=" "<"
   else []).

Definition casts (name : string) (t : Z) (target : Z) : result (list catalog_object) :=
  typ ← SearchTypeOid target;
  let f_cast_to := typname typ +:+ "_from_" +:+ name in
  let f_cast_from := name +:+ "_from_" +:+ typname typ in
  Ok ([ ProcedureCreate f_cast_to target "sum_cast_to" [t];
        ProcedureCreate f_cast_from t "sum_cast_from" [target] ] ++
      (if typdomain typ then []
       else [ CastCreate t target f_cast_to; CastCreate target t f_cast_from ])).

Fixpoint all_casts (name : string) (t : Z) (arr : list (option Z)) : result (list catalog_object) :=
  match arr with
  | [] => Ok []
  | None :: arr' => all_casts name t arr'
  | Some target :: arr' =>
      l ← casts name t target; l' ← all_casts name t arr'; Ok (l ++ l')
  end.

(** The trigger on [omni_types.sum_types]: [count] counts the NULL elements
    and [count(distinct ...)] does not. *)
Definition sum_type_unique_variants_trigger (variants : list (option Z)) : result (list Z) :=
  let oids := omap (λ v, v) variants in
  if (length (remove_dups oids) <? length variants)%nat
  then raise "Sum types can not contain duplicate variants" else Ok oids.

(** [t] is the OID that [TypeShellMake] gives to the new type. *)
Definition sum_type (t : Z) (name : option string) (arr : option (list (option Z)))
  : result (Z * list catalog_object) :=
  match name with
  | None => raise "sum type must have a non-NULL name"
  | Some name =>
  match arr with
  | None => raise "sum type must have a non-NULL array of variants"
  | Some arr =>
      s ← size_variants (Sizing 0 false true true true) arr;
      oids ← sum_type_unique_variants_trigger arr;
      cs ← all_casts name t arr;
      Ok (t, io_procs name t s ++ the_type name s ++ operators name t s ++
             [SumTypesRow t oids] ++ cs)
  end end.

Definition array_append (sum_type_oid variant : Z) (row : Z * list Z) : result (Z * list Z) :=
  if row.1 =? sum_type_oid
  then oids ← sum_type_unique_variants_trigger (Some <$> (row.2 ++ [variant])); Ok (row.1, oids)
  else Ok row.

Fixpoint update_rows (f : Z * list Z → result (Z * list Z)) (rows : list (Z * list Z))
  : result (list (Z * list Z)) :=
  match rows with
  | [] => Ok []
  | r :: rows' => r ← f r; rows' ← update_rows f rows'; Ok (r :: rows')
  end.

(** The rows of [omni_types.sum_types] after the call. *)
Definition add_variant (rows : list (Z * list Z)) (sum_type_oid variant_type_oid : option Z)
  : result (list (Z * list Z)) :=
  match sum_type_oid with
  | None => raise "sum type must have a non-NULL value"
  | Some sum_type_oid =>
  match variant_type_oid with
  | None => raise "variant type must have a non-NULL value"
  | Some variant_type_oid =>
      sum_typtup ← SearchTypeOid sum_type_oid;
      variant_typtup ← SearchTypeOid variant_type_oid;
      let sum_type_len := typlen sum_typtup in
      let variant_type_len := typlen variant_typtup in
      if negb (sum_type_len =? -1) &&
         ((variant_type_len <? 0) ||
          (wrap_u 64 (sum_type_len - SIZEOF_DISCRIMINANT) <? variant_type_len))
      then raise "variant type size must not be larger than that of the largest existing variant type's"
      else update_rows (array_append sum_type_oid variant_type_oid) rows
  end end.
End Ops.

(** ** [unit.c]

    The result of each function on a non-NULL argument; NULL gives NULL. *)
Definition strict {A B} (f : A → B) (arg : option A) : option B := f <$> arg.

Definition PG_RETURN_CHAR (c : Z) : datum := DWord (le_bytes 8 c).

Definition unit_in : option (list Z) → option datum := strict (λ _, PG_RETURN_CHAR 0).
Definition unit_out : option datum → option (list Z) := strict (λ _, []).
Definition unit_recv : option mem → option datum := strict (λ _, PG_RETURN_CHAR 0).
(** a static [varattrib_1b] whose header says one byte *)
Definition unit_send : option datum → option mem := strict (λ _, [Some (Z.lor (Z.shiftl 1 1) 1)]).
Definition unit : datum := PG_RETURN_CHAR 0.

(** ** Memory lemmas *)

Lemma peek_mid a b c off n :
  off = length a → n = Z.of_nat (length b) → peek off n (a ++ b ++ c) = Ok b.
Proof.
  intros -> ->. unfold peek. rewrite (proj2 (Z.ltb_ge _ _)) by lia.
  rewrite Nat2Z.id, drop_app_length, take_app_length.
  by rewrite (proj2 (Nat.leb_le _ _)) by (rewrite !length_app; lia).
Qed.

Lemma poke_mid a old c bs off :
  off = length a → length old = length bs → poke off bs (a ++ old ++ c) = Ok (a ++ bs ++ c).
Proof.
  intros -> E. unfold poke.
  rewrite (proj2 (Nat.leb_le _ _)) by (rewrite !length_app; lia).
  rewrite take_app_length, <- E. do 3 f_equal.
  rewrite app_assoc, <- length_app. apply drop_app_length.
Qed.

Lemma poke_length off bs m m' : poke off bs m = Ok m' → length m' = length m.
Proof.
  unfold poke. case_match eqn:E; [|done]. apply Nat.leb_le in E. intros H.
  assert (m' = take off m ++ bs ++ drop (off + length bs) m) as -> by congruence.
  rewrite !length_app, length_take, length_drop. lia.
Qed.

(** Some [length bs] cells lie at [off]. *)
Lemma mem_split (m : mem) off n : (off + n <= length m)%nat →
  ∃ a old c, m = a ++ old ++ c ∧ length a = off ∧ length old = n.
Proof.
  intros. exists (take off m), (take n (drop off m)), (drop n (drop off m)).
  rewrite !take_drop, !length_take, length_drop. repeat split; lia.
Qed.

Lemma peek_length off n m bs : peek off n m = Ok bs → Z.of_nat (length bs) = n.
Proof.
  unfold peek. repeat (case_match; try discriminate). intros [= <-].
  apply Nat.leb_le in H0. apply Z.ltb_ge in H. rewrite length_take, length_drop. lia.
Qed.

Lemma peek_prefix n m bs : peek 0 n m = Ok bs → ∃ rest, m = bs ++ rest.
Proof.
  unfold peek. repeat (case_match; try discriminate). intros [= <-].
  exists (drop (Z.to_nat n) m). rewrite drop_0. by rewrite take_drop.
Qed.

Lemma peek_app off n m m' bs : peek off n m = Ok bs → peek off n (m ++ m') = Ok bs.
Proof.
  unfold peek. case_match; [done|]. case_match; [|done]. intros [= <-].
  apply Nat.leb_le in H0. rewrite (proj2 (Nat.leb_le _ _)) by (rewrite length_app; lia).
  rewrite drop_app_le, take_app_le by (rewrite ?length_drop; lia). done.
Qed.

Lemma le_bytes_length n z : length (le_bytes n z) = n.
Proof. unfold le_bytes. by rewrite length_fmap, length_rev, be_bytes_length. Qed.

Lemma palloc_length n : length (palloc n) = Z.to_nat n.
Proof. apply length_replicate. Qed.

Lemma known_some bs : known (Some <$> bs) = Some bs.
Proof. induction bs as [|b bs IH]; [done|]. cbn. by rewrite IH. Qed.

Lemma scalar_some bs : scalar (Some <$> bs) = Ok bs.
Proof. unfold scalar. by rewrite known_some. Qed.

Lemma le_u32_at a z c off : off = length a → le_u32 off (a ++ le_bytes 4 z ++ c) = Ok (z mod 2 ^ 32).
Proof.
  intros ->. unfold le_u32. rewrite peek_mid by (rewrite ?le_bytes_length; done). cbn [mbind result_bind].
  unfold le_bytes. rewrite scalar_some. cbn [mbind result_bind].
  by rewrite rev_involutive, be_val_be_bytes.
Qed.

Lemma le_u32_app off m m' u : le_u32 off m = Ok u → le_u32 off (m ++ m') = Ok u.
Proof.
  unfold le_u32. destruct (peek off 4 m) eqn:E; [|done..]. by rewrite (peek_app _ _ _ m' _ E).
Qed.

(** A header written by [SET_VARSIZE] has four bytes. *)
Lemma le_head z : ∃ tl, le_bytes 4 z = Some (z mod 256) :: tl.
Proof. eexists. unfold le_bytes. cbn. by rewrite land_255, Z.shiftr_0_r. Qed.

Lemma header_4b len m : vardata_off (le_bytes 4 (Z.shiftl len 2) ++ m) = Ok 4%nat
  ∧ plain (le_bytes 4 (Z.shiftl len 2) ++ m) = true.
Proof.
  destruct (le_head (Z.shiftl len 2)) as [tl ->]. rewrite Z.shiftl_mul_pow2 by lia.
  change (2 ^ 2) with 4. unfold vardata_off, VARATT_IS_1B, plain. cbn [app mbind result_bind].
  change 1 with (Z.ones 1) at 1 3. change 3 with (Z.ones 2) at 1. rewrite !Z.land_ones by lia.
  change (2 ^ 1) with 2. change (2 ^ 2) with 4.
  replace ((len * 4) mod 256 mod 2) with 0 by div_lia.
  replace ((len * 4) mod 256 mod 4) with 0 by div_lia. done.
Qed.

Lemma VARSIZE_ANY_4b len m : 0 <= len < 2 ^ 30 →
  VARSIZE_ANY (le_bytes 4 (Z.shiftl len 2) ++ m) = Ok len.
Proof.
  intros Hlen. destruct (header_4b len m) as [Hoff _].
  unfold VARSIZE_ANY, vardata_off in *.
  destruct (VARATT_IS_1B _) as [[|]| |]; try discriminate. cbn [mbind result_bind].
  pose proof (le_u32_at [] (Z.shiftl len 2) m 0 eq_refl) as E. cbn [app] in E.
  rewrite E. cbn [mbind result_bind].
  rewrite Z.mod_small, Z.shiftr_shiftl_l by (rewrite ?Z.shiftl_mul_pow2; lia).
  by rewrite Z.shiftl_0_r.
Qed.

Lemma VARATT_IS_1B_app m m' b : VARATT_IS_1B m = Ok b → VARATT_IS_1B (m ++ m') = Ok b.
Proof. by destruct m as [|[]]. Qed.

Lemma VARSIZE_ANY_app m m' n : VARSIZE_ANY m = Ok n → VARSIZE_ANY (m ++ m') = Ok n.
Proof.
  unfold VARSIZE_ANY. destruct (VARATT_IS_1B m) as [b| |] eqn:E; [|done..].
  rewrite (VARATT_IS_1B_app _ m' _ E). cbn [mbind result_bind]. destruct b; [by destruct m as [|[]]|].
  destruct (le_u32 0 m) eqn:E'; [|done..]. by rewrite (le_u32_app _ _ m' _ E').
Qed.

Lemma plain_app m m' : plain m = true → plain (m ++ m') = true.
Proof. by destruct m as [|[]]. Qed.

Lemma some_length (bs : list Z) : length (Some <$> bs) = length bs.
Proof. apply length_fmap. Qed.

Lemma app_mem_length (a b : mem) : length (a ++ b) = (length a + length b)%nat.
Proof. apply length_app. Qed.

Create Rewrite HintDb mem.
#[local] Hint Rewrite le_bytes_length palloc_length some_length be_bytes_length app_mem_length : mem.
Ltac mem_len := autorewrite with mem; cbn [length]; lia.

(** ** Values and their layout *)

(** [d] is a value of type [t] made of the bytes [bs]: two data with the same
    bytes are the same value of the type, whatever surrounds them. *)
Definition datum_is (t : pg_type) (d : datum) (bs : mem) : Prop :=
  if typlen t =? -1
  then ∃ rest, d = DPtr (bs ++ rest) ∧ VARSIZE_ANY bs = Ok (Z.of_nat (length bs)) ∧ plain bs = true
  else variant_bytes (typbyval t) d (typlen t) = Ok bs.

(** What [pg_type] guarantees: a by-value type fits a [Datum]. *)
Definition type_ok (t : pg_type) : bool :=
  (-1 <=? typlen t) && (negb (typbyval t) || ((0 <=? typlen t) && (typlen t <=? 8))).

(** The variant fits the sum type. *)
Definition fits (sum_type_len variant_type_len : Z) : bool :=
  (sum_type_len =? -1) ||
  ((0 <=? variant_type_len) && (variant_type_len <=? sum_type_len - SIZEOF_DISCRIMINANT)).

(** The properties of the backend the layout relies on. *)
Class PgLaws `{B : PgBackend} : Prop := {
  detoast_plain m : plain m = true → PG_DETOAST_DATUM_PACKED m = m;
}.

(** Where the value of the variant lies behind the discriminant. *)
Inductive laid_out (t : pg_type) (sum_len : Z) (i : Z) (bs : mem) : datum → Prop :=
  | laid_fixed tail :
      sum_len <> -1 →
      laid_out t sum_len i bs (DPtr (le_bytes 4 i ++ bs ++ tail))
  | laid_var_byval len sz :
      sum_len = -1 → typbyval t = true →
      laid_out t sum_len i bs
        (DPtr (le_bytes 4 (Z.shiftl len 2) ++ le_bytes 4 i ++ le_bytes 4 (Z.shiftl sz 2) ++ bs))
  | laid_var_byref len tail :
      sum_len = -1 → typbyval t = false →
      laid_out t sum_len i bs (DPtr (le_bytes 4 (Z.shiftl len 2) ++ le_bytes 4 i ++ bs ++ tail)).

Section Layout.
Context `{L : PgLaws}.

Lemma variant_bytes_length byval d n bs : variant_bytes byval d n = Ok bs → Z.of_nat (length bs) = n.
Proof. destruct byval, d; try discriminate; apply peek_length. Qed.

(** The bytes a fixed-size or detoasted variable-size variant is copied
    from, and their number. *)
Lemma datum_is_bytes t d bs : type_ok t = true → datum_is t d bs →
  variant_bytes (typbyval t) d (Z.of_nat (length bs)) = Ok bs ∧
  (typlen t = -1 → ∃ m, d = DPtr m ∧ PG_DETOAST_DATUM_PACKED m = m ∧
                        VARSIZE_ANY m = Ok (Z.of_nat (length bs))) ∧
  (typlen t ≠ -1 → typlen t = Z.of_nat (length bs)).
Proof.
  unfold datum_is, type_ok. intros Ht. case_match eqn:E.
  - apply Z.eqb_eq in E. intros (rest & -> & Hsz & Hp).
    assert (typbyval t = false) as -> by (destruct (typbyval t); [simpl in Ht; lia|done]).
    split; [apply (peek_mid [] bs rest); done|]. split; [|done]. intros _.
    exists (bs ++ rest). split; [done|].
    split; [by apply detoast_plain, plain_app|by apply VARSIZE_ANY_app].
  - apply Z.eqb_neq in E. intros Hbs. pose proof (variant_bytes_length _ _ _ _ Hbs) as El.
    by rewrite El.
Qed.

Lemma make_variant_fixed sum_len i t d bs :
  sum_len ≠ -1 → fits sum_len (typlen t) = true → type_ok t = true → datum_is t d bs →
  ∃ s, make_variant sum_len i (typlen t) (typbyval t) d = Ok s ∧ laid_out t sum_len i bs s.
Proof.
  intros Hs Hf Ht Hd. destruct (datum_is_bytes t d bs Ht Hd) as (Hb & _ & Hl).
  unfold fits in Hf. rewrite (proj2 (Z.eqb_neq _ _) Hs) in Hf. simpl in Hf.
  unfold SIZEOF_DISCRIMINANT in Hf. rewrite <- (Hl ltac:(lia)) in Hb.
  unfold make_variant. rewrite (proj2 (Z.eqb_neq _ _) Hs), Hb. cbn [negb].
  destruct (mem_split (palloc sum_len) 0 4 ltac:(mem_len)) as (a & old & c & E & Ha & Hold).
  destruct a; [|done]. pose proof (palloc_length sum_len) as Hc.
  rewrite E in *. rewrite poke_mid by mem_len. cbn [app mbind result_bind] in *.
  destruct (mem_split c 0 (length bs)) as (a & old' & c' & -> & Ha' & Hold').
  { revert Hc. autorewrite with mem. lia. }
  destruct a; [|done]. cbn [app]. rewrite poke_mid by mem_len.
  eexists. split; [done|]. by constructor.
Qed.

(** The chunk for [n] bytes behind three headers, as [SET_VARSIZE] and the
    discriminant are written into it. *)
Lemma var_chunk n i sz :
  let len := VARHDRSZ + SIZEOF_VarSizeVariant + Z.of_nat n in
  (varsize ← SET_VARSIZE 0 len (palloc len);
   off ← vardata_off varsize;
   varsize ← poke off (le_bytes 4 i) varsize;
   varsize ← SET_VARSIZE (off + 4) sz varsize;
   Ok (off, varsize)) =
  Ok (4%nat, le_bytes 4 (Z.shiftl len 2) ++ le_bytes 4 i ++ le_bytes 4 (Z.shiftl sz 2)
             ++ replicate n None).
Proof.
  intros len. unfold SET_VARSIZE.
  replace (palloc len) with ([] ++ palloc 4 ++ palloc 4 ++ palloc 4 ++ replicate n (@None Z)).
  2: { unfold palloc. cbn [app]. rewrite <- !replicate_add. f_equal.
       unfold len, VARHDRSZ, SIZEOF_VarSizeVariant. lia. }
  rewrite poke_mid by mem_len. cbn [app mbind result_bind].
  rewrite (proj1 (header_4b _ _)). cbn [mbind result_bind].
  rewrite poke_mid by mem_len. cbn [mbind result_bind].
  rewrite (app_assoc (le_bytes 4 (Z.shiftl len 2))).
  rewrite poke_mid by mem_len. cbn [mbind result_bind]. by rewrite <- app_assoc.
Qed.

(** The bytes and size [make_variant] works with in the variable-size case. *)
Lemma var_source t d bs : type_ok t = true → datum_is t d bs →
  (d' ← (if typlen t =? -1
         then m ← DatumGetPointer d; Ok (DPtr (PG_DETOAST_DATUM_PACKED m)) else Ok d);
   sz ← (if typlen t =? -1 then m ← DatumGetPointer d'; VARSIZE_ANY m else Ok (typlen t));
   Ok (d', sz)) = Ok (d, Z.of_nat (length bs)).
Proof.
  intros Ht Hd. destruct (datum_is_bytes t d bs Ht Hd) as (_ & Hv & Hl).
  destruct (Z.eqb_spec (typlen t) (-1)) as [E|E].
  - destruct (Hv E) as (m & -> & Em & Es). cbn. by rewrite Em, Es.
  - cbn. by rewrite Hl.
Qed.

Lemma make_variant_var i t d bs : type_ok t = true → datum_is t d bs →
  ∃ s, make_variant (-1) i (typlen t) (typbyval t) d = Ok s ∧ laid_out t (-1) i bs s.
Proof.
  intros Ht Hd. destruct (datum_is_bytes t d bs Ht Hd) as (Hb & _).
  pose proof (var_source t d bs Ht Hd) as G. unfold make_variant. cbn [negb Z.eqb Pos.eqb].
  destruct (if typlen t =? -1 then _ else Ok d) as [d'| |]; try discriminate G.
  cbn [mbind result_bind] in *. cbv zeta.
  destruct (if typlen t =? -1 then _ else Ok (typlen t)) as [sz| |]; try discriminate G.
  cbn [mbind result_bind] in *. injection G as -> ->.
  pose proof (var_chunk (length bs) i (Z.of_nat (length bs))) as C. cbv zeta in C.
  destruct (SET_VARSIZE 0 _ _) as [v1| |]; try discriminate C. cbn [mbind result_bind] in *.
  destruct (vardata_off v1) as [off| |]; try discriminate C. cbn [mbind result_bind] in *.
  destruct (poke off _ v1) as [v2| |]; try discriminate C. cbn [mbind result_bind] in *.
  destruct (SET_VARSIZE _ _ v2) as [v3| |]; try discriminate C. cbn [mbind result_bind] in *.
  set (hdr := le_bytes 4 (Z.shiftl (VARHDRSZ + SIZEOF_VarSizeVariant + _) 2)) in *.
  set (disc := le_bytes 4 i) in *. set (vhdr := le_bytes 4 (Z.shiftl (Z.of_nat (length bs)) 2)) in *.
  assert (off = 4%nat) as -> by congruence.
  assert (v3 = hdr ++ disc ++ vhdr ++ replicate (length bs) None) as -> by congruence.
  rewrite Hb. cbn [mbind result_bind]. clear C.
  assert (Hh : length (hdr ++ disc) = 8%nat) by (unfold hdr, disc; mem_len).
  rewrite (app_assoc hdr disc). destruct (typbyval t) eqn:Eb.
  - assert (Hv : ∀ m, vardata_off (vhdr ++ m) = Ok 4%nat) by (intros; apply header_4b).
    rewrite drop_app_length' by lia. rewrite Hv. cbn [mbind result_bind].
    rewrite (app_assoc _ vhdr), <- (app_nil_r (replicate _ _)).
    rewrite poke_mid by (rewrite ?length_replicate; unfold vhdr, hdr, disc; mem_len).
    eexists. split; [done|]. rewrite app_nil_r, <- !app_assoc. by constructor.
  - destruct (mem_split (vhdr ++ replicate (length bs) None) 0 (length bs))
      as (a & old & c & E & Ha & Hold); [rewrite length_app, length_replicate; lia|].
    destruct a; [|done]. cbn [app] in E. rewrite E. rewrite poke_mid by lia.
    eexists. split; [done|]. rewrite <- !app_assoc. by constructor.
Qed.

Lemma make_variant_laid_out sum_len i t d bs :
  fits sum_len (typlen t) = true → type_ok t = true → datum_is t d bs →
  ∃ s, make_variant sum_len i (typlen t) (typbyval t) d = Ok s ∧ laid_out t sum_len i bs s.
Proof.
  intros Hf Ht Hd. destruct (decide (sum_len = -1)) as [->|Hs].
  - by apply make_variant_var.
  - by apply make_variant_fixed.
Qed.

(** The bytes at the head of a memory are a value read from there. *)
Lemma datum_is_load t d bs tail : type_ok t = true → datum_is t d bs →
  datum_is t (if typbyval t then load_word (bs ++ tail) else DPtr (bs ++ tail)) bs.
Proof.
  intros Ht Hd. pose proof (datum_is_bytes t d bs Ht Hd) as (_ & _ & Hl).
  unfold datum_is, type_ok in *. case_match eqn:E.
  - apply Z.eqb_eq in E. destruct Hd as (rest & -> & ? & ?).
    destruct (typbyval t); [simpl in Ht; lia|]. by exists tail.
  - apply Z.eqb_neq in E. rewrite (Hl E) in *. destruct (typbyval t); simpl in *.
    + unfold load_word. rewrite <- app_assoc.
      assert (Hn : (length bs <= 8)%nat) by lia.
      rewrite take_app_ge by done. by apply (peek_mid [] bs).
    + by apply (peek_mid [] bs tail).
Qed.
End Layout.

(** ** The cache *)

Section Cache.
Context `{B : PgBackend}.
Variable W : world.

(** The entry cached for the type, if the loop takes it for current, is the
    one the table gives; if it is out of date, its slot does not receive an
    up-to-date entry of another type when it is deleted. *)
Definition coherent (h : sumtypehash) (oid : Z) : Prop :=
  match h !! oid with
  | None => True
  | Some e =>
      if xmin e =? snapshot W then scan_sum_types W (snapshot W) oid = Some e
      else ∀ e', moved_into_slot W h oid = Some e' → xmin e' ≠ snapshot W
  end.

(** The cache after a lookup. *)
Definition cached (h : sumtypehash) (oid : Z) : sumtypehash :=
  match scan_sum_types W (snapshot W) oid with
  | Some e => <[oid := e]> h
  | None => delete oid h
  end.

Lemma scan_xmin x oid e : scan_sum_types W x oid = Some e → xmin e = x.
Proof.
  unfold scan_sum_types. destruct (list_find _ _) as [[? []]|]; [|done]. by intros [= <-].
Qed.

(** The lookup as a case analysis. *)
Lemma lookup_sumtype_cache_unfold h oid :
  lookup_sumtype_cache W oid h =
  let found h' :=
    match scan_sum_types W (snapshot W) oid with
    | Some e => (Ok (Some e), <[oid := e]> h')
    | None => (Ok None, h')
    end in
  match h !! oid with
  | None => found h
  | Some e =>
      if xmin e =? snapshot W then (Ok (Some e), h)
      else if xmin (default e (moved_into_slot W h oid)) =? snapshot W
      then (Ok None, delete oid h) else found (delete oid h)
  end.
Proof.
  unfold lookup_sumtype_cache. cbn [lookup_loop].
  unfold mbind, M_bind, get_st, put_st, mret, M_ret. cbn beta iota zeta.
  destruct (h !! oid) as [e|]; [|by destruct (scan_sum_types _ _ _)].
  destruct (xmin e =? _); [done|]. destruct (xmin (default _ _) =? _); [done|].
  rewrite lookup_delete_eq. by destruct (scan_sum_types _ _ _).
Qed.

Lemma lookup_sumtype_cache_ok h oid : coherent h oid →
  lookup_sumtype_cache W oid h = (Ok (scan_sum_types W (snapshot W) oid), cached h oid).
Proof.
  rewrite lookup_sumtype_cache_unfold. unfold coherent, cached. cbn zeta.
  destruct (h !! oid) as [e|] eqn:E.
  - destruct (xmin e =? snapshot W) eqn:Ex.
    + intros ->. by rewrite insert_id.
    + intros Hm. replace (xmin (default e _) =? snapshot W) with false.
      * destruct (scan_sum_types _ _ _); [by rewrite insert_delete_eq|done].
      * symmetry. destruct (moved_into_slot W h oid) as [e'|]; [|done].
        by apply Z.eqb_neq, Hm.
  - intros _. destruct (scan_sum_types _ _ _); [done|]. by rewrite delete_id.
Qed.

Lemma cached_lookup h oid : cached h oid !! oid = scan_sum_types W (snapshot W) oid.
Proof.
  unfold cached. destruct (scan_sum_types _ _ _) eqn:E.
  - by rewrite lookup_insert_eq.
  - by rewrite lookup_delete_eq.
Qed.

Lemma coherent_cached h oid : coherent (cached h oid) oid.
Proof.
  unfold coherent. rewrite cached_lookup. destruct (scan_sum_types _ _ _) eqn:E; [|done].
  by rewrite (scan_xmin _ _ _ E), Z.eqb_refl.
Qed.

Lemma cached_cached h oid : cached (cached h oid) oid = cached h oid.
Proof.
  unfold cached at 1. rewrite <- (cached_lookup h).
  destruct (cached h oid !! oid) eqn:E; [by apply insert_id|by apply delete_id].
Qed.

(** Two turns of the loop are enough, whatever the cache holds. *)
Lemma lookup_sumtype_cache_ends h oid : is_Ok (lookup_sumtype_cache W oid h).1.
Proof.
  rewrite lookup_sumtype_cache_unfold. cbn zeta.
  repeat case_match; by eexists.
Qed.
End Cache.

Section Values.
Context `{L : PgLaws}.
Variable W : world.

(** The sum type [oid] has the variant [v] (of type tuple [t]) at index [i]. *)
Definition has_variant (oid i v : Z) (t : pg_type) : Prop :=
  0 <= i < 2 ^ 31 ∧ type_tuple v = Some t ∧ type_ok t = true ∧
  ∃ st e, type_tuple oid = Some st ∧ fits (typlen st) (typlen t) = true ∧
          scan_sum_types W (snapshot W) oid = Some e ∧ NoDup (variant_type_oids e) ∧
          variant_type_oids e !! Z.to_nat i = Some v.

(** [s] is a value of the sum type: variant [i], whose bytes are [bs]. *)
Definition sum_value (oid i v : Z) (t : pg_type) (bs : mem) (s : datum) : Prop :=
  has_variant oid i v t ∧ (∃ d, datum_is t d bs) ∧
  ∃ st, type_tuple oid = Some st ∧ laid_out t (typlen st) i bs s.

Lemma wrap_discriminant i : 0 <= i < 2 ^ 31 → wrap_s 32 (i mod 2 ^ 32) = i.
Proof. intros. rewrite Z.mod_small by lia. apply wrap_s_id; [lia|]. unfold in_s. lia. Qed.

Lemma values_at_lookup l i o : 0 <= i → l !! Z.to_nat i = Some o → values_at l i = Ok o.
Proof. intros Hi E. unfold values_at. rewrite (proj2 (Z.ltb_ge _ _) Hi). by rewrite E. Qed.

Lemma SearchTypeOid_ok oid t : type_tuple oid = Some t → SearchTypeOid oid = Ok t.
Proof. unfold SearchTypeOid. by intros ->. Qed.

Lemma get_variant_val_ok h oid i v t bs s :
  coherent W h oid → sum_value oid i v t bs s →
  ∃ d, get_variant_val W s oid h = (Ok (v, Some d, i), cached W h oid) ∧ datum_is t d bs.
Proof.
  intros Hc ((Hi & Hv & Hok & st & e & Hst & Hf & He & _ & Hvi) & [d Hd] & st' & Hst' & Hs).
  rewrite Hst in Hst'. injection Hst' as <-.
  pose proof (λ tail, datum_is_load t d bs tail Hok Hd) as Hload.
  pose proof (lookup_sumtype_cache_ok W h oid Hc) as Hl. rewrite He in Hl.
  apply values_at_lookup in Hvi; [|lia].
  apply SearchTypeOid_ok in Hst, Hv.
  unfold get_variant_val. rewrite (lift_bind _ _ _ _ Hst).
  destruct Hs as [tail Hn|len sz Hn Hb|len tail Hn Hb];
    rewrite (lift_bind _ _ _ _ (eq_refl : DatumGetPointer (DPtr _) = _)).
  - apply Z.eqb_neq in Hn. rewrite Hn. rewrite (lift_bind _ _ 0%nat _ eq_refl).
    rewrite (lift_bind _ _ _ _ (le_u32_at [] i (bs ++ tail) 0 eq_refl)).
    rewrite wrap_discriminant by done. rewrite (bind_ok _ _ _ _ _ Hl).
    rewrite (lift_bind _ _ _ _ Hvi), (lift_bind _ _ _ _ Hv).
    rewrite drop_app_length' by mem_len. specialize (Hload tail).
    destruct (typbyval t); eexists; (split; [reflexivity|done]).
  - rewrite Hn. cbn [Z.eqb Pos.eqb]. cbv zeta. rewrite detoast_plain by apply header_4b.
    rewrite (lift_bind _ _ _ _ (proj1 (header_4b _ _))).
    rewrite (lift_bind _ _ _ _ (le_u32_at (le_bytes 4 (Z.shiftl len 2)) i _ 4 ltac:(mem_len))).
    rewrite wrap_discriminant by done. rewrite (bind_ok _ _ _ _ _ Hl).
    rewrite (lift_bind _ _ _ _ Hvi), (lift_bind _ _ _ _ Hv), Hb.
    rewrite app_assoc, drop_app_length' by mem_len. rewrite (proj1 (header_4b _ _)).
    cbn [mbind result_bind]. rewrite drop_app_length' by mem_len.
    specialize (Hload []). rewrite Hb, app_nil_r in Hload. by eexists.
  - rewrite Hn. cbn [Z.eqb Pos.eqb]. cbv zeta. rewrite detoast_plain by apply header_4b.
    rewrite (lift_bind _ _ _ _ (proj1 (header_4b _ _))).
    rewrite (lift_bind _ _ _ _ (le_u32_at (le_bytes 4 (Z.shiftl len 2)) i _ 4 ltac:(mem_len))).
    rewrite wrap_discriminant by done. rewrite (bind_ok _ _ _ _ _ Hl).
    rewrite (lift_bind _ _ _ _ Hvi), (lift_bind _ _ _ _ Hv), Hb.
    rewrite app_assoc, drop_app_length' by mem_len.
    specialize (Hload tail). rewrite Hb in Hload. by eexists.
Qed.
End Values.

(** ** Casts *)

Section Casts.
Context `{L : PgLaws}.
Variable W : world.

Lemma find_variant_first p k oids i o :
  oids !! i = Some o → p o = true →
  (∀ j o', (j < i)%nat → oids !! j = Some o' → p o' = false) →
  find_variant p k oids = Some (k + Z.of_nat i, o).
Proof.
  revert k i. induction oids as [|x oids IH]; intros k [|i] Hi Hp Hlt; try done; cbn in *.
  - injection Hi as ->. rewrite Hp. by rewrite Z.add_0_r.
  - rewrite (Hlt 0%nat x) by (done || lia). rewrite (IH (k + 1) i); [do 2 f_equal; lia|done..|].
    intros j o' Hj E. by apply (Hlt (S j)); [lia|].
Qed.

(** A search that only the variant [v] satisfies finds its index. *)
Lemma find_variant_index p oids i v :
  0 <= i → oids !! Z.to_nat i = Some v → p v = true → NoDup oids →
  (∀ o, o ∈ oids → p o = true → o = v) → find_variant p 0 oids = Some (i, v).
Proof.
  intros Hi Hv Hp Hnd Hu. rewrite (find_variant_first p 0 oids (Z.to_nat i) v Hv Hp).
  - do 2 f_equal. lia.
  - intros j o' Hj E. destruct (p o') eqn:Ep; [|done].
    rewrite (Hu o') in E by (done || by eapply list_elem_of_lookup_2).
    pose proof (NoDup_lookup _ _ _ _ Hnd E Hv). lia.
Qed.

(** The value that [make_variant] builds for a variant of the type. *)
Lemma make_sum_value oid i v t d bs st :
  has_variant W oid i v t → datum_is t d bs → type_tuple oid = Some st →
  ∃ s, make_variant (typlen st) i (typlen t) (typbyval t) d = Ok s ∧ sum_value W oid i v t bs s.
Proof.
  intros Hv Hd Hst. pose proof Hv as (_ & _ & Hok & st' & e & Hst' & Hf & _).
  rewrite Hst in Hst'. injection Hst' as <-.
  destruct (make_variant_laid_out (typlen st) i t d bs Hf Hok Hd) as (s & Hm & Hs).
  exists s. split; [done|]. split; [done|]. split; [by exists d|]. by exists st.
Qed.

Lemma sum_cast_from_ok h oid i v t d bs :
  coherent W h oid → has_variant W oid i v t → datum_is t d bs →
  ∃ s, sum_cast_from W oid v d h = (Ok s, cached W h oid) ∧ sum_value W oid i v t bs s.
Proof.
  intros Hc Hv Hd. pose proof Hv as (Hi & Ht & _ & st & e & Hst & _ & He & Hnd & Hvi).
  destruct (make_sum_value oid i v t d bs st Hv Hd Hst) as (s & Hm & Hs).
  exists s. split; [|done]. unfold sum_cast_from.
  pose proof (lookup_sumtype_cache_ok W h oid Hc) as Hl. rewrite He in Hl.
  rewrite (bind_ok _ _ _ _ _ Hl). cbn [mbind option_bind].
  rewrite (find_variant_index _ _ i v) by (done || lia || naive_solver lia).
  apply SearchTypeOid_ok in Hst, Ht. rewrite (lift_bind _ _ _ _ Hst), (lift_bind _ _ _ _ Ht).
  by rewrite Hm.
Qed.

Lemma sum_cast_to_ok h oid i v t bs s v' :
  coherent W h oid → sum_value W oid i v t bs s →
  ∃ d, datum_is t d bs ∧
       sum_cast_to W oid v' s h = (Ok (if v =? v' then Some d else None), cached W h oid).
Proof.
  intros Hc Hs. destruct (get_variant_val_ok W h oid i v t bs s Hc Hs) as (d & Hg & Hd).
  exists d. split; [done|]. unfold sum_cast_to. rewrite (bind_ok _ _ _ _ _ Hg).
  by destruct (v =? v').
Qed.

(** Casting a value of a variant to the sum type stores it under the
    index of the variant in the row of [omni_types.sum_types]; casting the
    result back to that variant gives the same value (the same bytes of its
    type), casting it to any other variant gives NULL, and [variant()]
    reports the variant.  This holds for fixed-size and variable-size sum
    types and for variants passed by value, by reference and as varlena. *)
Theorem sum_cast_roundtrip h oid i v t d bs :
  coherent W h oid → has_variant W oid i v t → v ≠ InvalidOid → datum_is t d bs →
  ∃ s h' d', sum_cast_from W oid v d h = (Ok s, h') ∧
    sum_value W oid i v t bs s ∧
    sum_cast_to W oid v s h' = (Ok (Some d'), h') ∧ datum_is t d' bs ∧
    (∀ v', v' ≠ v → sum_cast_to W oid v' s h' = (Ok None, h')) ∧
    sum_variant W oid (Some s) h' = (Ok (Some v), h').
Proof.
  intros Hc Hv Hv0 Hd. destruct (sum_cast_from_ok h oid i v t d bs Hc Hv Hd) as (s & Hm & Hs).
  pose proof (coherent_cached W h oid) as Hc'. set (h' := cached W h oid) in *.
  destruct (sum_cast_to_ok h' oid i v t bs s v Hc' Hs) as (d' & Hd' & Ht).
  unfold h' in Ht at 2. rewrite cached_cached, Z.eqb_refl in Ht.
  exists s, h', d'. do 4 (split; [done|]). split.
  - intros v' Hne. destruct (sum_cast_to_ok h' oid i v t bs s v' Hc' Hs) as (d2 & _ & Ht2).
    unfold h' in Ht2 at 2. rewrite cached_cached in Ht2.
    by rewrite (proj2 (Z.eqb_neq v v')) in Ht2 by done.
  - unfold sum_variant. destruct (get_variant_val_ok W h' oid i v t bs s Hc' Hs) as (d2 & Hg & _).
    rewrite (bind_ok _ _ _ _ _ Hg). unfold h' at 1. rewrite cached_cached.
    by rewrite (proj2 (Z.eqb_neq v InvalidOid)) by done.
Qed.
End Casts.

(** ** Binary and text representation

    What a sum type asks of its variants: that their own functions read back
    what they write.  [zs] are the bytes of the value; the message is a bytea
    with a four-byte header, as [pq_endtypsend] builds it. *)

Class VariantBinary `{B : PgBackend} (v : Z) (t : pg_type) : Prop := {
  receive_send d zs : Forall byte_ok zs → datum_is t d (Some <$> zs) →
    ∃ payload d',
      OidSendFunctionCall (typsend t) d =
        Ok (le_bytes 4 (Z.shiftl (4 + Z.of_nat (length payload)) 2) ++ payload) ∧
      Z.of_nat (length payload) < 2 ^ 29 ∧
      OidReceiveFunctionCall (typreceive t) payload (typioparam v t) (typmodin t) = Ok d' ∧
      datum_is t d' (Some <$> zs);
}.

Class VariantText `{B : PgBackend} (v : Z) (t : pg_type) : Prop := {
  input_output d zs : Forall byte_ok zs → datum_is t d (Some <$> zs) →
    ∃ out d',
      OidOutputFunctionCall (typoutput t) d = Ok out ∧
      OidInputFunctionCall (typinput t) out (typioparam v t) (typmodin t) = Ok d' ∧
      datum_is t d' (Some <$> zs);
}.

Section Representation.
Context `{L : PgLaws}.
Variable W : world.

Lemma vardata_4b len m : vardata_off (le_bytes 4 (Z.shiftl len 2) ++ m) = Ok 4%nat.
Proof. apply header_4b. Qed.

Lemma exhdr_4b len m : 0 <= len < 2 ^ 30 →
  VARSIZE_ANY_EXHDR (le_bytes 4 (Z.shiftl len 2) ++ m) = Ok (len - 4).
Proof. intros. unfold VARSIZE_ANY_EXHDR. by rewrite VARSIZE_ANY_4b, vardata_4b. Qed.

Lemma frame_ok i payload :
  Z.of_nat (length payload) < 2 ^ 29 →
  frame i (le_bytes 4 (Z.shiftl (4 + Z.of_nat (length payload)) 2) ++ payload) =
  Ok (le_bytes 4 (Z.shiftl (8 + Z.of_nat (length payload)) 2)
      ++ (Some <$> be_bytes 4 i) ++ payload).
Proof.
  intros Hn. set (n := Z.of_nat (length payload)) in *. unfold frame.
  rewrite VARSIZE_ANY_4b by lia. cbn [mbind result_bind]. cbv zeta. unfold SIZEOF_DISCRIMINANT.
  replace (4 + (4 + n)) with (8 + n) by lia. unfold SET_VARSIZE.
  replace (palloc (8 + n)) with ([] ++ palloc 4 ++ palloc 4 ++ palloc n ++ []).
  2: { unfold palloc. cbn [app]. rewrite app_nil_r, <- !replicate_add. f_equal. lia. }
  rewrite poke_mid by mem_len. cbn [app mbind result_bind].
  rewrite !vardata_4b. cbn [mbind result_bind].
  rewrite poke_mid by mem_len. cbn [mbind result_bind].
  rewrite exhdr_4b by lia. cbn [mbind result_bind].
  rewrite <- (app_nil_r (le_bytes 4 (Z.shiftl (4 + n) 2) ++ payload)), <- app_assoc.
  rewrite peek_mid by (fold n; mem_len). cbn [mbind result_bind].
  rewrite (app_assoc (le_bytes 4 (Z.shiftl (8 + n) 2))). rewrite poke_mid by mem_len.
  by rewrite app_nil_r, <- app_assoc.
Qed.

Lemma sum_send_ok h oid i v t zs s :
  coherent W h oid → sum_value W oid i v t (Some <$> zs) s → Forall byte_ok zs →
  VariantBinary v t →
  ∃ payload d, Z.of_nat (length payload) < 2 ^ 29 ∧ datum_is t d (Some <$> zs) ∧
    OidReceiveFunctionCall (typreceive t) payload (typioparam v t) (typmodin t) = Ok d ∧
    sum_send W oid s h =
      (Ok (le_bytes 4 (Z.shiftl (8 + Z.of_nat (length payload)) 2)
           ++ (Some <$> be_bytes 4 i) ++ payload), cached W h oid).
Proof.
  intros Hc Hs Hz Hio. pose proof Hs as ((_ & Ht & _) & _).
  destruct (get_variant_val_ok W h oid i v t _ s Hc Hs) as (d & Hg & Hd).
  destruct (receive_send d zs Hz Hd) as (payload & d' & Hsend & Hn & Hrecv & Hd').
  exists payload, d'. do 3 (split; [done|]).
  unfold sum_send. rewrite (bind_ok _ _ _ _ _ Hg). apply SearchTypeOid_ok in Ht.
  rewrite (lift_bind _ _ _ _ Ht), (lift_bind _ _ d _ eq_refl), (lift_bind _ _ _ _ Hsend).
  by rewrite frame_ok.
Qed.

Lemma discriminant_accepted n i : 0 <= i < n → i < 2 ^ 31 → discriminant_refused n i = false.
Proof.
  intros. unfold discriminant_refused, wrap_s. apply Z.ltb_ge.
  change (2 ^ (32 - 1)) with (2 ^ 31). div_lia.
Qed.

Lemma sum_recv_ok h oid i v t payload d bs :
  coherent W h oid → has_variant W oid i v t → v ≠ InvalidOid →
  Z.of_nat (length payload) < 2 ^ 29 → datum_is t d bs →
  OidReceiveFunctionCall (typreceive t) payload (typioparam v t) (typmodin t) = Ok d →
  ∃ s, sum_value W oid i v t bs s ∧
    sum_recv W oid (le_bytes 4 (Z.shiftl (8 + Z.of_nat (length payload)) 2)
                    ++ (Some <$> be_bytes 4 i) ++ payload) h = (Ok s, cached W h oid).
Proof.
  intros Hc Hv Hv0 Hn Hd Hr. set (n := Z.of_nat (length payload)) in *.
  pose proof Hv as (Hi & Ht & _ & st & e & Hst & _ & He & _ & Hvi).
  destruct (make_sum_value W oid i v t d bs st Hv Hd Hst) as (s & Hm & Hs).
  exists s. split; [done|]. unfold sum_recv.
  rewrite detoast_plain by apply header_4b. rewrite exhdr_4b by lia.
  rewrite (lift_bind _ _ (8 + n - 4) _ eq_refl). unfold SIZEOF_DISCRIMINANT.
  rewrite (proj2 (Z.ltb_ge (8 + n - 4) 4)) by lia.
  apply SearchTypeOid_ok in Hst, Ht. rewrite (lift_bind _ _ _ _ Hst), vardata_4b.
  rewrite (lift_bind _ _ 4%nat _ eq_refl), (peek_mid _ _ _ 4 4) by mem_len.
  rewrite (lift_bind _ _ _ _ eq_refl), scalar_some, (lift_bind _ _ _ _ eq_refl).
  rewrite be_val_be_bytes. change (8 * Z.of_nat 4) with 32. rewrite (wrap_discriminant i) by done.
  pose proof (lookup_sumtype_cache_ok W h oid Hc) as Hl. rewrite He in Hl.
  rewrite (bind_ok _ _ _ _ _ Hl). pose proof (lookup_lt_Some _ _ _ Hvi).
  rewrite discriminant_accepted by lia.
  rewrite (lift_bind _ _ _ _ (values_at_lookup _ i v (proj1 Hi) Hvi)).
  rewrite (proj2 (Z.eqb_neq v InvalidOid)) by done. rewrite (lift_bind _ _ _ _ Ht).
  rewrite <- (app_nil_r payload), app_assoc, (app_assoc (_ ++ _)).
  rewrite <- (app_assoc _ payload). rewrite peek_mid by (fold n; mem_len).
  rewrite (lift_bind _ _ _ _ eq_refl), (lift_bind _ _ _ _ Hr). by rewrite Hm.
Qed.

(** What [sum_send] writes for a value of a sum type, [sum_recv] reads
    back as the same variant with the same bytes, provided the variant's own
    send and receive functions do that and send a bytea with a four-byte
    header. *)
Theorem sum_binary_roundtrip h oid i v t zs s :
  coherent W h oid → sum_value W oid i v t (Some <$> zs) s → Forall byte_ok zs →
  v ≠ InvalidOid → VariantBinary v t →
  ∃ msg s' h', sum_send W oid s h = (Ok msg, h') ∧ sum_recv W oid msg h' = (Ok s', h') ∧
    sum_value W oid i v t (Some <$> zs) s'.
Proof.
  intros Hc Hs Hz Hv0 Hio.
  destruct (sum_send_ok h oid i v t zs s Hc Hs Hz Hio) as (payload & d & Hn & Hd & Hr & Hsend).
  destruct (sum_recv_ok (cached W h oid) oid i v t payload d (Some <$> zs)
    (coherent_cached W h oid) (proj1 Hs) Hv0 Hn Hd Hr) as (s' & Hs' & Hrecv).
  rewrite cached_cached in Hrecv. by eauto 10.
Qed.

Lemma names_variant_prefix oid v out :
  40 ∉ format_type_be v → 40 ∉ format_type_be oid →
  names_variant (format_type_be v ++ [40] ++ out) oid = true →
  format_type_be oid = format_type_be v.
Proof.
  unfold names_variant. set (a := format_type_be oid). set (b := format_type_be v).
  intros Hb Ha. rewrite andb_true_iff, !bool_decide_eq_true. intros [Ht Hp].
  destruct (Nat.lt_trichotomy (length a) (length b)) as [Hlt|[Heq|Hlt]].
  - rewrite lookup_app_l in Hp by done. by apply list_elem_of_lookup_2 in Hp.
  - rewrite Heq, take_app_length in Ht. done.
  - exfalso. apply Ha. rewrite <- Ht. rewrite take_app_ge by lia.
    destruct (length a - length b)%nat eqn:E; [lia|]. set_solver.
Qed.

(** [sum_in] reads back what [sum_out] prints, provided the variant's
    own input and output functions do (with the type modifier the code hands
    to the input function) and the names of the variants are different and
    have no parenthesis. *)
Theorem sum_text_roundtrip h oid i v t zs s :
  coherent W h oid → sum_value W oid i v t (Some <$> zs) s → Forall byte_ok zs →
  VariantText v t →
  (∀ e o, scan_sum_types W (snapshot W) oid = Some e → o ∈ variant_type_oids e →
     40 ∉ format_type_be o ∧ (format_type_be o = format_type_be v → o = v)) →
  ∃ txt s' h', sum_out W oid s h = (Ok txt, h') ∧ sum_in W oid txt h' = (Ok s', h') ∧
    sum_value W oid i v t (Some <$> zs) s'.
Proof.
  intros Hc Hs Hz Hio Hnames. pose proof Hs as (Hv & _).
  pose proof Hv as (Hi & Ht & _ & st & e & Hst & _ & He & Hnd & Hvi).
  destruct (get_variant_val_ok W h oid i v t _ s Hc Hs) as (d & Hg & Hd).
  destruct (input_output d zs Hz Hd) as (out & d' & Hout & Hin & Hd').
  destruct (make_sum_value W oid i v t d' _ st Hv Hd' Hst) as (s' & Hm & Hs').
  apply SearchTypeOid_ok in Hst, Ht.
  exists (format_type_be v ++ [40] ++ out ++ [41]), s', (cached W h oid).
  split; [|split; [|done]].
  { unfold sum_out. rewrite (bind_ok _ _ _ _ _ Hg), (lift_bind _ _ _ _ Ht).
    rewrite (lift_bind _ _ d _ eq_refl), (lift_bind _ _ _ _ Hout). done. }
  destruct (Hnames e v He ltac:(by eapply list_elem_of_lookup_2)) as [Hp _].
  unfold sum_in. rewrite !app_assoc, lookup_app_r by (rewrite !length_app; simpl; lia).
  replace (_ - 1 - _)%nat with 0%nat by (rewrite !length_app; simpl; lia).
  cbn [lookup list_lookup negb]. change (negb (41 =? 41)) with false. cbn iota.
  rewrite (lift_bind _ _ _ _ Hst).
  pose proof (lookup_sumtype_cache_ok W _ oid (coherent_cached W h oid)) as Hl.
  rewrite He, cached_cached in Hl. rewrite (bind_ok _ _ _ _ _ Hl). cbn [mbind option_bind].
  rewrite <- !app_assoc.
  rewrite (find_variant_index _ _ i v); [|lia|done| |done|]; cycle 1.
  { unfold names_variant. rewrite take_app_length, lookup_app_r, Nat.sub_diag by lia.
    by rewrite !bool_decide_eq_true_2. }
  { intros o Ho Hn. destruct (Hnames e o He Ho) as [Hp' Hinj].
    by eapply Hinj, names_variant_prefix. }
  cbn [from_option id]. rewrite (lift_bind _ _ _ _ Ht). unfold after_paren.
  rewrite (SeqId.strchr_after_app 40 _ (out ++ [41])) by done.
  rewrite (lift_bind _ _ _ _ eq_refl), length_app, Nat.add_sub, take_app_length.
  rewrite (lift_bind _ _ _ _ Hin). by rewrite Hm.
Qed.
End Representation.

(** ** Order *)

Definition btree_proc `{B : PgBackend} (v : Z) (t : pg_type) : Z :=
  let operand := if typcomposite t then 2249 else v in
  get_opfamily_proc (get_opclass_family (GetDefaultOpClass v "btree")) operand operand 1.

Definition operator_proc `{B : PgBackend} (v : Z) (op : cmp_operator) : Z :=
  get_opcode (lookup_operator v (operator_names op)).

(** What an operator answers when the comparison function returns [c]. *)
Definition agrees (op : cmp_operator) (c : Z) : bool :=
  match op with
  | OP_EQUAL => c =? 0 | OP_NOT_EQUAL => negb (c =? 0)
  | OP_LESS => c <? 0 | OP_LESS_EQUAL => c <=? 0
  | OP_GREATER => 0 <? c | OP_GREATER_EQUAL => 0 <=? c
  end.

(** A variant with a default btree operator class whose operators agree with
    its comparison function [cmp]. *)
Class VariantOrder `{B : PgBackend} (v : Z) (t : pg_type) (cmp : mem → mem → Z) : Prop := {
  order_opclass : GetDefaultOpClass v "btree" ≠ InvalidOid;
  order_proc : btree_proc v t ≠ InvalidOid;
  order_cmp coll d1 d2 bs1 bs2 : datum_is t d1 bs1 → datum_is t d2 bs2 →
    FunctionCall2Coll (btree_proc v t) coll d1 d2 = Ok (cmp bs1 bs2);
  order_operator op : lookup_operator v (operator_names op) ≠ InvalidOid;
  order_opcode op : operator_proc v op ≠ InvalidOid;
  order_op op coll d1 d2 bs1 bs2 : datum_is t d1 bs1 → datum_is t d2 bs2 →
    ∃ r, FunctionCall2Coll (operator_proc v op) coll d1 d2 = Ok r ∧
         negb (r =? 0) = agrees op (cmp bs1 bs2);
}.

(** The order of the sum: first the position of the variant, then the
    variant's own order. *)
Definition sum_order (cmp : Z → mem → mem → Z) (i1 v1 : Z) (bs1 : mem) (i2 : Z) (bs2 : mem) : Z :=
  if i1 =? i2 then cmp v1 bs1 bs2 else if i1 <? i2 then -1 else 1.

Section Order.
Context `{L : PgLaws}.
Variables (W : world) (oid : Z).

Lemma OidIsValid_true o : o ≠ InvalidOid → OidIsValid o = true.
Proof. intros. unfold OidIsValid. by rewrite (proj2 (Z.eqb_neq _ _)). Qed.

Lemma same_variant i1 v1 t1 i2 v2 t2 :
  has_variant W oid i1 v1 t1 → has_variant W oid i2 v2 t2 → (v1 =? v2) = (i1 =? i2).
Proof.
  intros (? & _ & _ & ? & e & _ & _ & He & Hnd & H1) (? & _ & _ & ? & e' & _ & _ & He' & _ & H2).
  rewrite He in He'. injection He' as <-. apply eq_true_iff_eq. rewrite !Z.eqb_eq.
  split; [intros ->|intros ->; congruence].
  pose proof (NoDup_lookup _ _ _ _ Hnd H1 H2). lia.
Qed.

(** A column of the cached entry at the index of a variant. *)
Lemma cached_column h i v t (f : Z → Z) (col : SumTypeCacheEntry → list Z) :
  has_variant W oid i v t →
  (∀ e, scan_sum_types W (snapshot W) oid = Some e → col e = f <$> variant_type_oids e) →
  ∃ e, cached W h oid !! oid = Some e ∧ values_at (col e) i = Ok (f v).
Proof.
  intros (Hi & _ & _ & _ & e & _ & _ & He & _ & Hv) Hcol. exists e.
  rewrite cached_lookup. split; [done|]. apply values_at_lookup; [lia|].
  by rewrite (Hcol e He), list_lookup_fmap, Hv.
Qed.

Lemma scan_columns e : scan_sum_types W (snapshot W) oid = Some e →
  variant_eq_ops e = (λ t, lookup_operator t "=") <$> variant_type_oids e ∧
  variant_opc_btree e = (λ t, GetDefaultOpClass t "btree") <$> variant_type_oids e ∧
  variant_opc_hash e = (λ t, GetDefaultOpClass t "hash") <$> variant_type_oids e.
Proof.
  unfold scan_sum_types. destruct (list_find _ _) as [[? []]|]; [|done]. by intros [= <-].
Qed.

Section TwoValues.
Context (h : sumtypehash) (coll : Z) (cmp : Z → mem → mem → Z).
Context (i1 v1 : Z) (t1 : pg_type) (bs1 : mem) (s1 : datum).
Context (i2 v2 : Z) (t2 : pg_type) (bs2 : mem) (s2 : datum).
Hypothesis Hc : coherent W h oid.
Hypothesis H1 : sum_value W oid i1 v1 t1 bs1 s1.
Hypothesis H2 : sum_value W oid i2 v2 t2 bs2 s2.
Hypothesis Hord : ∀ i v t, has_variant W oid i v t → VariantOrder v t (cmp v).

(** Both values, read one after the other. *)
Lemma get_both : ∃ d1 d2,
  datum_is t1 d1 bs1 ∧ datum_is t2 d2 bs2 ∧
  get_variant_val W s1 oid h = (Ok (v1, Some d1, i1), cached W h oid) ∧
  get_variant_val W s2 oid (cached W h oid) = (Ok (v2, Some d2, i2), cached W h oid).
Proof using All.
  destruct (get_variant_val_ok W h oid i1 v1 t1 bs1 s1 Hc H1) as (d1 & G1 & D1).
  destruct (get_variant_val_ok W _ oid i2 v2 t2 bs2 s2 (coherent_cached W h oid) H2)
    as (d2 & G2 & D2).
  rewrite cached_cached in G2. by exists d1, d2.
Qed.

Lemma same_type : i1 = i2 → t2 = t1.
Proof using All.
  intros E. pose proof (same_variant _ _ _ _ _ _ (proj1 H1) (proj1 H2)) as Ev.
  rewrite (proj2 (Z.eqb_eq _ _) E), Z.eqb_eq in Ev. subst v2.
  destruct H1 as ((_ & T1 & _) & _), H2 as ((_ & T2 & _) & _). congruence.
Qed.

Lemma sum_cmp_order :
  sum_cmp W oid s1 s2 coll h = (Ok (sum_order cmp i1 v1 bs1 i2 bs2), cached W h oid).
Proof using All.
  destruct get_both as (d1 & d2 & D1 & D2 & G1 & G2).
  unfold sum_cmp, sum_compare. rewrite (bind_ok _ _ _ _ _ G1), (bind_ok _ _ _ _ _ G2).
  rewrite (same_variant _ _ _ _ _ _ (proj1 H1) (proj1 H2)).
  unfold sum_order. destruct (Z.eqb_spec i1 i2) as [E|E]; [|done]. cbn [negb].
  pose proof (Hord i1 v1 t1 (proj1 H1)) as O. rewrite (same_type E) in D2.
  destruct (cached_column h i1 v1 t1 (λ t, GetDefaultOpClass t "btree") variant_opc_btree
    (proj1 H1) (λ e He, proj1 (proj2 (scan_columns e He)))) as (e & Ee & Hop).
  assert (Ho : variant_opclass oid "btree" variant_opc_btree v1 i1 (cached W h oid) =
               (Ok (GetDefaultOpClass v1 "btree"), cached W h oid)).
  { unfold variant_opclass, mbind, M_bind, get_st. rewrite Ee. unfold lift_r. by rewrite Hop. }
  rewrite (bind_ok _ _ _ _ _ Ho), (OidIsValid_true _ order_opclass). cbn [negb].
  rewrite (proj1 (proj2 (proj1 H1))). pose proof (OidIsValid_true _ order_proc) as Hp.
  unfold btree_proc in Hp. rewrite Hp. cbn [negb].
  rewrite (lift_bind _ _ d1 _ eq_refl), (lift_bind _ _ d2 _ eq_refl). unfold lift_r.
  f_equal. by apply (order_cmp coll d1 d2 bs1 bs2).
Qed.

Lemma different_variants op : i1 ≠ i2 → op ≠ OP_NOT_EQUAL →
  compare_discriminants op i1 i2 = Some (agrees op (if i1 <? i2 then -1 else 1)).
Proof using All. intros. destruct op; try done; cbn; f_equal; destruct (Z.ltb_spec i1 i2); cbn; lia. Qed.

Lemma sum_op_order op : op ≠ OP_NOT_EQUAL →
  sum_binary_op W oid op s1 s2 coll h =
  (Ok (agrees op (sum_order cmp i1 v1 bs1 i2 bs2)), cached W h oid).
Proof using All.
  intros Hop. destruct get_both as (d1 & d2 & D1 & D2 & G1 & G2).
  unfold sum_binary_op. rewrite (bind_ok _ _ _ _ _ G1), (bind_ok _ _ _ _ _ G2).
  rewrite (same_variant _ _ _ _ _ _ (proj1 H1) (proj1 H2)).
  unfold sum_order. destruct (Z.eqb_spec i1 i2) as [E|E]; cbn [negb].
  2: { rewrite different_variants by done. done. }
  pose proof (Hord i1 v1 t1 (proj1 H1)) as O. rewrite (same_type E) in D2.
  match goal with |- (?m ≫= _) _ = _ =>
    assert (Ho : m (cached W h oid) = (Ok (lookup_operator v1 (operator_names op)), cached W h oid))
  end.
  { destruct op; try done.
    destruct (cached_column h i1 v1 t1 (λ t, lookup_operator t "=") variant_eq_ops (proj1 H1)
      (λ e He, proj1 (scan_columns e He))) as (e & Ee & Hv).
    unfold mbind, M_bind, get_st. rewrite Ee. unfold lift_r. by rewrite Hv. }
  rewrite (bind_ok _ _ _ _ _ Ho), (OidIsValid_true _ (order_operator op)). cbn [negb].
  pose proof (OidIsValid_true _ (order_opcode op)) as Hp. unfold operator_proc in Hp.
  rewrite Hp. cbn [negb].
  rewrite (lift_bind _ _ d1 _ eq_refl), (lift_bind _ _ d2 _ eq_refl).
  destruct (order_op op coll d1 d2 bs1 bs2 D1 D2) as (r & Hr & Ha).
  rewrite (lift_bind _ _ _ _ Hr). unfold mret, M_ret. by rewrite Ha.
Qed.
End TwoValues.

(** The comparison function and the six operators of a sum type agree:
    all decide by the position of the variants in the type and, for values of
    the same variant, by the variant's own order. *)
Theorem sum_operators_agree h coll cmp i1 v1 t1 bs1 s1 i2 v2 t2 bs2 s2 :
  coherent W h oid →
  sum_value W oid i1 v1 t1 bs1 s1 → sum_value W oid i2 v2 t2 bs2 s2 →
  (∀ i v t, has_variant W oid i v t → VariantOrder v t (cmp v)) →
  ∃ h', let c := sum_order cmp i1 v1 bs1 i2 bs2 in
    sum_cmp W oid s1 s2 coll h = (Ok c, h') ∧
    sum_eq W oid s1 s2 coll h = (Ok (c =? 0), h') ∧
    sum_neq W oid s1 s2 coll h = (Ok (negb (c =? 0)), h') ∧
    sum_lt W oid s1 s2 coll h = (Ok (c <? 0), h') ∧
    sum_lte W oid s1 s2 coll h = (Ok (c <=? 0), h') ∧
    sum_gt W oid s1 s2 coll h = (Ok (0 <? c), h') ∧
    sum_gte W oid s1 s2 coll h = (Ok (0 <=? c), h').
Proof.
  intros Hc H1 H2 Hord. exists (cached W h oid).
  pose proof (λ op, sum_op_order h coll cmp _ _ _ _ _ _ _ _ _ _ Hc H1 H2 Hord op) as G.
  split; [by eapply sum_cmp_order|].
  split; [by apply (G OP_EQUAL)|]. split.
  { unfold sum_neq, sum_equal. by rewrite (bind_ok _ _ _ _ _ (G OP_EQUAL ltac:(done))). }
  repeat split; [by apply (G OP_LESS)|by apply (G OP_LESS_EQUAL)|by apply (G OP_GREATER)|
    by apply (G OP_GREATER_EQUAL)].
Qed.
End Order.

(** ** Sizes *)

Section Sizes.
Context `{B : PgBackend}.

(** A variant the loop has seen is accounted for. *)
Definition accounted (s : sizing) (v : Z) : Prop :=
  ∃ tv, type_tuple v = Some tv ∧
    (typlen tv = -1 → varlen s = true) ∧ (typlen tv ≠ -1 → typlen tv <= variant_size s).

Definition grows (s s' : sizing) : Prop :=
  variant_size s <= variant_size s' ∧ (varlen s = true → varlen s' = true).

Lemma accounted_grows s s' v : grows s s' → accounted s v → accounted s' v.
Proof. intros [H1 H2] (tv & ? & ? & ?). exists tv. naive_solver lia. Qed.

Lemma size_variant_ok s v s' : size_variant s (Some v) = Ok s' → grows s s' ∧ accounted s' v.
Proof.
  unfold size_variant. destruct (type_tuple v) as [tv|] eqn:E; [|done].
  case_match; [done|]. intros [= <-]. unfold grows, accounted. cbn.
  split; [split; [case_match; lia|by intros ->]|].
  exists tv. split; [done|]. split; [intros ->; by rewrite orb_true_r|].
  intros Hn. rewrite (proj2 (Z.eqb_neq _ _) Hn). lia.
Qed.

Lemma size_variants_ok arr s s' : size_variants s arr = Ok s' →
  grows s s' ∧ ∀ v, Some v ∈ arr → accounted s' v.
Proof.
  revert s. induction arr as [|[v|] arr IH]; intros s; cbn [size_variants].
  - intros [= <-]. split; [by split|]. intros v. by rewrite elem_of_nil.
  - destruct (size_variant s (Some v)) as [s1| |] eqn:E; [|done..]. cbn [mbind result_bind].
    intros H. apply size_variant_ok in E as [G A]. destruct (IH s1 H) as [G' A'].
    split; [destruct G, G'; split; [lia|auto]|].
    intros v'. rewrite elem_of_cons. intros [[= ->]|]; [by eapply accounted_grows|auto].
  - cbn. intros H. destruct (IH s H) as [G A]. split; [done|].
    intros v'. rewrite elem_of_cons. intros [?|]; [done|auto].
Qed.

Lemma size_variants_bound n arr s s' :
  (∀ v tv, type_tuple v = Some tv → typlen tv <= n) →
  size_variants s arr = Ok s' → variant_size s <= n → variant_size s' <= n.
Proof.
  intros Hn. revert s. induction arr as [|[v|] arr IH]; intros s; cbn [size_variants].
  - by intros [= <-].
  - unfold size_variant. destruct (type_tuple v) as [tv|] eqn:E; [|done].
    case_match; [done|]. cbn [mbind result_bind]. intros Hs Hle. apply (IH _ Hs). cbn.
    specialize (Hn v tv E). case_match; lia.
  - cbn. apply IH.
Qed.

Lemma remove_dups_NoDup (l : list Z) :
  (length (remove_dups l) <= length l)%nat ∧ (length (remove_dups l) = length l → NoDup l).
Proof.
  induction l as [|x l [IH1 IH2]]; cbn; [by split; [|constructor]|].
  case_decide; cbn; split; try lia. intros [= E]. constructor; auto.
Qed.

Lemma omap_id_length (l : list (option Z)) :
  (length (omap (λ v, v) l) <= length l)%nat ∧
  (length (omap (λ v, v) l) = length l → Some <$> omap (λ v, v) l = l).
Proof.
  induction l as [|[x|] l [IH1 IH2]]; cbn; [done|split; [lia|]|split; lia].
  intros [= E]. f_equal. auto.
Qed.

(** A row that passes the trigger has different variants and no NULL. *)
Lemma trigger_ok variants oids :
  sum_type_unique_variants_trigger variants = Ok oids → NoDup oids ∧ Some <$> oids = variants.
Proof.
  unfold sum_type_unique_variants_trigger. case_match eqn:E; [done|]. intros [= <-].
  apply Nat.ltb_ge in E. set (o := omap _ _) in *.
  destruct (remove_dups_NoDup o) as [H1 H2], (omap_id_length variants) as [H3 H4].
  fold o in H3, H4. split; [apply H2; lia|apply H4; lia].
Qed.

(** Every variant of a row fits the type of the row. *)
Definition row_fits (len : Z) (oids : list Z) : Prop :=
  NoDup oids ∧ ∀ v, v ∈ oids → ∃ tv, type_tuple v = Some tv ∧ fits len (typlen tv) = true.

Definition rows_fit (rows : list (Z * list Z)) : Prop :=
  ∀ row st, row ∈ rows → type_tuple row.1 = Some st → row_fits (typlen st) row.2.

Definition small_types : Prop :=
  ∀ v tv, type_tuple v = Some tv → type_ok tv = true ∧ typlen tv <= 32763.

Lemma type_size_fits s v :
  small_types → 0 <= variant_size s <= 32763 → accounted s v →
  ∃ tv, type_tuple v = Some tv ∧ fits (type_size s) (typlen tv) = true.
Proof.
  intros Hsm Hs (tv & Htv & H1 & H2). exists tv. split; [done|].
  destruct (Hsm v tv Htv) as [Hok Hle]. unfold type_ok in Hok.
  unfold type_size, fits. destruct (varlen s); [done|].
  rewrite wrap_s_id by (unfold in_s, SIZEOF_DISCRIMINANT; lia).
  destruct (decide (typlen tv = -1)) as [E|E]; [by apply H1 in E|].
  specialize (H2 E). unfold SIZEOF_DISCRIMINANT. lia.
Qed.

Lemma array_append_fits a b st tv row row' :
  type_tuple a = Some st → type_tuple b = Some tv → fits (typlen st) (typlen tv) = true →
  array_append a b row = Ok row' →
  (∀ st', type_tuple row.1 = Some st' → row_fits (typlen st') row.2) →
  ∀ st', type_tuple row'.1 = Some st' → row_fits (typlen st') row'.2.
Proof.
  intros Ha Hb Hf. unfold array_append. case_match eqn:E; [|by intros [= <-]].
  apply Z.eqb_eq in E. destruct (sum_type_unique_variants_trigger _) as [oids| |] eqn:Et; [|done..].
  intros [= <-] Hrow st' Hst'. cbn in *. apply trigger_ok in Et as [Hnd He].
  apply (inj (fmap Some)) in He. subst oids.
  split; [done|]. intros v. rewrite elem_of_app, list_elem_of_singleton. intros [Hv| ->].
  - by apply (Hrow st').
  - exists tv. split; [done|]. rewrite E, Ha in Hst'. by injection Hst' as <-.
Qed.

Lemma update_rows_spec f rows rows' : update_rows f rows = Ok rows' →
  ∀ r', r' ∈ rows' → ∃ r, r ∈ rows ∧ f r = Ok r'.
Proof.
  revert rows'. induction rows as [|r rows IH]; intros rows'; cbn [update_rows].
  - intros [= <-] r'. by rewrite elem_of_nil.
  - destruct (f r) as [r1| |] eqn:E; [|done..]. cbn [mbind result_bind].
    destruct (update_rows f rows) as [rs| |]; [|done..]. intros [= <-] r'.
    rewrite elem_of_cons. intros [->|Hr].
    + exists r. split; [apply elem_of_cons; by left|done].
    + destruct (IH rs eq_refl r' Hr) as (r0 & ? & ?). exists r0.
      split; [apply elem_of_cons; by right|done].
Qed.

Lemma ok_pair_snd {A C} (a a' : A) (c c' : C) : Ok (a, c) = Ok (a', c') → c = c'.
Proof. by intros [=]. Qed.

(** The variants of a sum type fit it: the length [sum_type] computes
    has room for the discriminant and each variant (or is variable), the row
    it stores has distinct, non-NULL variants, and [add_variant] keeps this
    true of every row of [omni_types.sum_types].  Type lengths must leave
    room for the discriminant in an [int16]. *)
Theorem sum_type_variants_fit t name arr objs :
  small_types → sum_type t name arr = Ok (t, objs) →
  ∃ nm len inp out rcv snd ext oids,
    TypeCreate nm len inp out rcv snd ext ∈ objs ∧ SumTypesRow t oids ∈ objs ∧
    Some <$> oids = default [] arr ∧ row_fits len oids ∧
    ∀ rows a b st rows', rows_fit rows → type_tuple a = Some st →
      typlen st = -1 ∨ 4 <= typlen st →
      add_variant rows (Some a) (Some b) = Ok rows' → rows_fit rows'.
Proof.
  intros Hsm. unfold sum_type. destruct name as [name|]; [|done]. destruct arr as [arr|]; [|done].
  destruct (size_variants _ arr) as [s| |] eqn:Es; [|done..]. cbn [mbind result_bind].
  destruct (sum_type_unique_variants_trigger arr) as [oids| |] eqn:Et; [|done..].
  cbn [mbind result_bind]. destruct (all_casts name t arr) as [cs| |]; [|done..].
  intros Hobjs. apply trigger_ok in Et as [Hnd He].
  apply ok_pair_snd in Hobjs. subst objs.
  pose proof (size_variants_bound 32763 _ _ _ (λ v tv H, proj2 (Hsm v tv H)) Es ltac:(cbn; lia)).
  destruct (size_variants_ok _ _ _ Es) as [[Hg _] Hacc]. cbn in Hg.
  do 7 eexists. exists oids.
  split; [rewrite !elem_of_app; right; left; by left|].
  split; [rewrite !elem_of_app; do 3 right; left; by left|].
  split; [done|]. split.
  - split; [done|]. intros v Hv. apply type_size_fits; [done|lia|].
    apply Hacc. rewrite <- He. by apply list_elem_of_fmap_2.
  - intros rows a b st rows' Hrows Ha Hlen. unfold add_variant, SearchTypeOid. rewrite Ha.
    cbn [mbind result_bind]. destruct (type_tuple b) as [tv|] eqn:Hb; [|done].
    cbn [mbind result_bind]. case_match eqn:E; [done|]. intros Hu row' st' Hr Hst'.
    destruct (update_rows_spec _ _ _ Hu row' Hr) as (row & Hrow & Hap).
    eapply (array_append_fits a b st tv); [done..| |exact Hap| |done].
    + unfold fits. revert E. unfold wrap_u, SIZEOF_DISCRIMINANT. destruct Hlen as [->|Hlen]; [done|].
      assert (typlen st <= 32763) by (by eapply Hsm). rewrite Z.mod_small by lia. lia.
    + intros st0 Hst0. by apply Hrows.
Qed.
End Sizes.

(** ** Where the code leaves its buffers *)

Section Hazards.
Context `{L : PgLaws}.
Variable W : world.

(** A message whose header has one byte leaves no room for the discriminant. *)
Lemma frame_1b i b payload :
  Z.land b 1 = 1 → Z.shiftr b 1 = 1 + Z.of_nat (length payload) → (length payload < 127)%nat →
  frame i (Some b :: payload) = Undefined "write outside the allocation".
Proof.
  intros Hb Hn Hl. set (n := Z.of_nat (length payload)) in *. unfold frame.
  assert (E : VARATT_IS_1B (Some b :: payload) = Ok true) by (cbn; by rewrite Hb).
  assert (V : VARSIZE_ANY (Some b :: payload) = Ok (1 + n))
    by (unfold VARSIZE_ANY; rewrite E; cbn; by rewrite Hn).
  assert (O : vardata_off (Some b :: payload) = Ok 1%nat) by (unfold vardata_off; by rewrite E).
  rewrite V. cbn [mbind result_bind]. cbv zeta. unfold SIZEOF_DISCRIMINANT, SET_VARSIZE.
  replace (palloc (4 + (1 + n))) with ([] ++ palloc 4 ++ palloc (1 + n)).
  2: { unfold palloc. cbn [app]. rewrite <- !replicate_add. f_equal. lia. }
  rewrite poke_mid by mem_len. cbn [app mbind result_bind].
  rewrite (proj1 (header_4b _ _)). cbn [mbind result_bind].
  destruct (poke 4 _ _) as [m| |] eqn:P; cbn [mbind result_bind].
  - rewrite O. unfold VARSIZE_ANY_EXHDR. rewrite V, O. cbn [mbind result_bind].
    pose proof (peek_mid [Some b] payload [] 1 (1 + n - Z.of_nat 1) eq_refl) as K.
    rewrite app_nil_r in K. cbn [app] in K. rewrite K by (unfold n; lia). cbn [mbind result_bind].
    apply poke_length in P. revert P. autorewrite with mem. intros P.
    unfold poke. by rewrite (proj2 (Nat.leb_gt _ _)) by lia.
  - unfold poke in P. by case_match.
  - unfold poke in P. case_match; [done|]. congruence.
Qed.

(** [sum_send] of a value whose variant is [omni_types.unit] (or a
    domain over it) writes outside the buffer it allocates: [unit_send]
    returns a bytea with a one-byte header, and the size of the message is
    computed as if that header had four bytes. *)
Theorem sum_send_unit_overruns h oid i v t bs s :
  coherent W h oid → sum_value W oid i v t bs s →
  (∀ d out, unit_send (Some d) = Some out → OidSendFunctionCall (typsend t) d = Ok out) →
  sum_send W oid s h = (Undefined "write outside the allocation", cached W h oid).
Proof.
  intros Hc Hs Hsend. pose proof Hs as ((_ & Ht & _) & _).
  destruct (get_variant_val_ok W h oid i v t bs s Hc Hs) as (d & Hg & Hd).
  unfold sum_send. rewrite (bind_ok _ _ _ _ _ Hg). apply SearchTypeOid_ok in Ht.
  rewrite (lift_bind _ _ _ _ Ht), (lift_bind _ _ d _ eq_refl).
  rewrite (lift_bind _ _ _ _ (Hsend d _ eq_refl)). unfold lift_r.
  by rewrite (frame_1b i _ []) by (cbn; done || lia).
Qed.

(** [sum_recv] checks the discriminant of a message only from above: a
    message with a negative discriminant makes it read before the array of
    variants. *)
Theorem sum_recv_negative_discriminant h oid st e i payload :
  coherent W h oid → type_tuple oid = Some st →
  scan_sum_types W (snapshot W) oid = Some e →
  - 2 ^ 31 <= i < 0 → Z.of_nat (length payload) < 2 ^ 29 →
  sum_recv W oid (le_bytes 4 (Z.shiftl (8 + Z.of_nat (length payload)) 2)
                  ++ (Some <$> be_bytes 4 i) ++ payload) h =
  (Undefined "index below the vector", cached W h oid).
Proof.
  intros Hc Hst He Hi Hn. set (n := Z.of_nat (length payload)) in *. unfold sum_recv.
  rewrite detoast_plain by apply header_4b. rewrite exhdr_4b by lia.
  rewrite (lift_bind _ _ (8 + n - 4) _ eq_refl). unfold SIZEOF_DISCRIMINANT.
  rewrite (proj2 (Z.ltb_ge (8 + n - 4) 4)) by lia.
  apply SearchTypeOid_ok in Hst. rewrite (lift_bind _ _ _ _ Hst), vardata_4b.
  rewrite (lift_bind _ _ 4%nat _ eq_refl), (peek_mid _ _ _ 4 4) by mem_len.
  rewrite (lift_bind _ _ _ _ eq_refl), scalar_some, (lift_bind _ _ _ _ eq_refl).
  replace (wrap_s 32 (be_val (be_bytes 4 i))) with i.
  2: { rewrite be_val_be_bytes. change (8 * Z.of_nat 4) with 32. unfold wrap_s.
       change (2 ^ (32 - 1)) with (2 ^ 31). div_lia. }
  pose proof (lookup_sumtype_cache_ok W h oid Hc) as Hl. rewrite He in Hl.
  rewrite (bind_ok _ _ _ _ _ Hl). unfold discriminant_refused.
  rewrite (proj2 (Z.ltb_ge _ _)).
  2: { unfold wrap_s. change (2 ^ (32 - 1)) with (2 ^ 31). div_lia. }
  unfold values_at. by rewrite (proj2 (Z.ltb_lt _ _)) by lia.
Qed.

(** The slot of a deleted entry may receive an entry of another type that is
    up to date; the loop then stops with no entry for a type that has a row. *)
Lemma lookup_sumtype_cache_slot_reused h oid e e' :
  h !! oid = Some e → xmin e ≠ snapshot W →
  moved_into_slot W h oid = Some e' → xmin e' = snapshot W →
  lookup_sumtype_cache W oid h = (Ok None, delete oid h).
Proof.
  intros E Hx Hm Hx'. rewrite lookup_sumtype_cache_unfold, E, Hm.
  apply Z.eqb_neq in Hx. apply Z.eqb_eq in Hx'. cbn. by rewrite Hx, Hx'.
Qed.

(** The cache is keyed by the [xmin] of the snapshot, which other
    transactions can hold back: while it does not change, a variant added to
    the type is not found, although the row of the table has it. *)
Theorem sumtype_cache_stale h oid i v t d e :
  has_variant W oid i v t → h !! oid = Some e → xmin e = snapshot W →
  v ∉ variant_type_oids e →
  sum_cast_from W oid v d h = (Err (elog "No valid variant found"), h).
Proof.
  intros _ He Hx Hv. unfold sum_cast_from.
  assert (Hl : lookup_sumtype_cache W oid h = (Ok (Some e), h)).
  { rewrite lookup_sumtype_cache_unfold, He. cbn. by rewrite Hx, Z.eqb_refl. }
  rewrite (bind_ok _ _ _ _ _ Hl). cbn [mbind option_bind].
  assert (F : ∀ k l, v ∉ l → find_variant (Z.eqb v) k l = None).
  { intros k l. revert k. induction l as [|o l IH]; intros k; [done|]. cbn.
    rewrite not_elem_of_cons. intros [? ?]. rewrite (proj2 (Z.eqb_neq v o)) by done. auto. }
  by rewrite F.
Qed.
End Hazards.

(** ** A backend to run the code on

    Four base types: two four-byte integers passed by value, the 16-byte
    identifiers of [omni_seq] (whose binary functions are those of [SeqId]),
    and [unit]; and three sum types over them. *)
Module Demo.

Definition int4 : pg_type := PgType "int4" 4 true false false false 0 1 2 3 4 0.
Definition date : pg_type := PgType "date" 4 true false false false 0 1 2 3 4 0.
Definition id : pg_type := PgType "id" 16 false false false false 0 5 6 7 8 0.
Definition unit_t : pg_type := PgType "unit" 1 true false false false 0 9 10 11 12 0.
Definition pair_t : pg_type := PgType "pair" 8 false false false false 0 13 14 15 16 0.
Definition fixed_t : pg_type := PgType "fixed" 20 false false false false 0 13 14 15 16 0.
Definition var_t : pg_type := PgType "var" (-1) false false false false 0 13 14 15 16 0.

Definition types (o : Z) : option pg_type :=
  if o =? 23 then Some int4 else if o =? 24 then Some date else
  if o =? 102 then Some id else if o =? 104 then Some unit_t else
  if o =? 90 then Some pair_t else if o =? 91 then Some fixed_t else
  if o =? 92 then Some var_t else None.

Definition int_of (bs : mem) : Z :=
  match known bs with Some zs => wrap_s 32 (be_val (rev zs)) | None => 0 end.

Definition int_of_datum (d : datum) : Z :=
  match variant_bytes true d 4 with Ok bs => int_of bs | _ => 0 end.

Definition bytea (payload : mem) : mem :=
  le_bytes 4 (Z.shiftl (4 + Z.of_nat (length payload)) 2) ++ payload.

(** The structure behind an identifier. *)
Definition id_of (zs : list Z) : SeqId.st :=
  SeqId.St (wrap_s 64 (be_val (rev (take 8 zs)))) (wrap_s 64 (be_val (rev (drop 8 zs)))).

Definition send (f : Z) (d : datum) : result mem :=
  if f =? 4 then Ok (bytea (Some <$> be_bytes 4 (int_of_datum d))) else
  if f =? 12 then match unit_send (Some d) with Some m => Ok m | None => Ok [] end else
  if f =? 8 then
    bs ← variant_bytes false d 16; zs ← scalar bs;
    match SeqId.id_send 64 64 (Some (id_of zs)) with
    | Some msg => Ok (bytea (Some <$> msg))
    | None => Undefined "NULL"
    end
  else raise "no such function".

Definition receive (f : Z) (m : mem) (_ _ : Z) : result datum :=
  if f =? 3 then bs ← peek 0 4 m; zs ← scalar bs; Ok (DWord (le_bytes 8 (wrap_s 32 (be_val zs)))) else
  if f =? 7 then
    zs ← scalar m; r ← SeqId.id_recv 64 64 (Some zs);
    match r with
    | Some (x, _) => Ok (DPtr (le_bytes 8 (SeqId.prefix x) ++ le_bytes 8 (SeqId.val x)))
    | None => Undefined "NULL"
    end
  else raise "no such function".

Definition input (f : Z) (s : list Z) (_ _ : Z) : result datum :=
  if f =? 1 then n ← (SeqId.strtoll s 0).1; Ok (DWord (le_bytes 8 n)) else raise "no such function".

Definition output (f : Z) (d : datum) : result (list Z) :=
  if f =? 2 then Ok (SeqId.print_int (int_of_datum d)) else raise "no such function".

(** Operators and their functions are numbered 201 to 206, the comparison
    function is 200. *)
Definition op_number (name : string) : Z :=
  if String.eqb name "=" then 201 else if String.eqb name "<>" then 202 else
  if String.eqb name "<" then 203 else if String.eqb name "<=" then 204 else
  if String.eqb name ">" then 205 else 206.

Definition compare_ints (a b : Z) : Z := match a ?= b with Lt => -1 | Eq => 0 | Gt => 1 end.

Definition call2 (f _ : Z) (d1 d2 : datum) : result Z :=
  let c := compare_ints (int_of_datum d1) (int_of_datum d2) in
  if f =? 200 then Ok c else
  Ok (Z.b2z (agrees (if f =? 201 then OP_EQUAL else if f =? 202 then OP_NOT_EQUAL else
                     if f =? 203 then OP_LESS else if f =? 204 then OP_LESS_EQUAL else
                     if f =? 205 then OP_GREATER else OP_GREATER_EQUAL) c)).

#[local] Instance backend : PgBackend := {
  type_tuple := types;
  format_type_be o := str_bytes (match types o with Some t => typname t | None => "???" end);
  PG_DETOAST_DATUM_PACKED m := m;
  OidInputFunctionCall := input;
  OidOutputFunctionCall := output;
  OidReceiveFunctionCall := receive;
  OidSendFunctionCall := send;
  FunctionCall1Coll _ _ d := Ok (int_of_datum d);
  FunctionCall2Coll := call2;
  OpernameGetOprid name _ _ := op_number name;
  OpernameGetCandidates _ := [];
  func_match_argtypes _ l := l;
  func_select_candidate _ _ := None;
  get_opcode o := o;
  GetDefaultOpClass _ _ := 300;
  get_opclass_family o := o;
  get_opfamily_proc _ _ _ _ := 200;
}.

#[local] Instance laws : PgLaws.
Proof. by constructor. Qed.

Definition rows : list (Z * list Z) := [(90, [23; 24]); (91, [23; 102; 104]); (92, [23; 102; 104])].
Definition W : world := World (Some 700) rows (λ _ _, None).

(** By-value integers. *)

Lemma int_bytes d zs : length zs = 4%nat → Forall byte_ok zs →
  variant_bytes true d 4 = Ok (Some <$> zs) →
  int_of_datum d = wrap_s 32 (be_val (rev zs)) ∧ in_s 32 (int_of_datum d) ∧
  ∀ tl, le_bytes 8 (int_of_datum d) = tl → take 4 tl = Some <$> zs.
Proof.
  intros Hl Hz Hd. unfold int_of_datum. rewrite Hd. unfold int_of. rewrite known_some.
  split; [done|]. split; [by apply wrap_s_in|]. intros tl <-.
  assert (Hr : Forall byte_ok (rev zs)) by by apply Forall_rev.
  pose proof (be_bytes_be_val (rev zs) Hr) as E. rewrite length_rev, Hl in E.
  rewrite <- (be_bytes_cong 4 (wrap_s 32 (be_val (rev zs)))) in E by (by apply (wrap_s_mod 32)).
  set (z := wrap_s 32 _) in *. unfold le_bytes.
  replace (take 4 (Some <$> rev (be_bytes 8 z))) with (Some <$> rev (be_bytes 4 z)) by done.
  by rewrite E, rev_involutive.
Qed.

Lemma int_type_datum t d zs : t = int4 ∨ t = date → datum_is t d (Some <$> zs) →
  variant_bytes true d 4 = Ok (Some <$> zs) ∧ length zs = 4%nat.
Proof.
  intros Ht Hd. assert (H : variant_bytes true d 4 = Ok (Some <$> zs)) by by destruct Ht as [-> | ->].
  split; [done|]. apply variant_bytes_length in H. rewrite length_fmap in H. lia.
Qed.

Lemma int_datum t n zs : t = int4 ∨ t = date → take 4 (le_bytes 8 n) = Some <$> zs →
  datum_is t (DWord (le_bytes 8 n)) (Some <$> zs).
Proof.
  intros Ht E. assert (P : peek 0 4 (le_bytes 8 n) = Ok (Some <$> zs)).
  { unfold peek. rewrite le_bytes_length, drop_0. change (Z.to_nat 4) with 4%nat. by rewrite E. }
  by destruct Ht as [-> | ->].
Qed.

#[local] Instance int_binary v t : t = int4 ∨ t = date → VariantBinary v t.
Proof.
  intros Ht. constructor. intros d zs Hz Hd.
  destruct (int_type_datum t d zs Ht Hd) as [Hb Hl]. destruct (int_bytes d zs Hl Hz Hb) as (E & Hin & G).
  exists (Some <$> be_bytes 4 (int_of_datum d)), (DWord (le_bytes 8 (int_of_datum d))).
  split; [by destruct Ht as [-> | ->]|]. split; [done|]. split; [|by apply int_datum; [|apply G]].
  replace (typreceive t) with 3 by (by destruct Ht as [-> | ->]).
  cbn [OidReceiveFunctionCall backend]. unfold receive. cbn [Z.eqb Pos.eqb].
  pose proof (peek_mid [] (Some <$> be_bytes 4 (int_of_datum d)) [] 0 4 eq_refl eq_refl) as K.
  rewrite app_nil_r in K. cbn [app] in K. rewrite K. cbn [mbind result_bind].
  rewrite scalar_some. cbn [mbind result_bind].
  pose proof (SeqId.wrap_be_roundtrip 32 _ ltac:(right; left; reflexivity) Hin) as R.
  change (Z.to_nat (32 / 8)) with 4%nat in R. by rewrite R.
Qed.

#[local] Instance int_text v t : t = int4 ∨ t = date → VariantText v t.
Proof.
  intros Ht. constructor. intros d zs Hz Hd.
  destruct (int_type_datum t d zs Ht Hd) as [Hb Hl]. destruct (int_bytes d zs Hl Hz Hb) as (E & Hin & G).
  exists (SeqId.print_int (int_of_datum d)), (DWord (le_bytes 8 (int_of_datum d))).
  split; [by destruct Ht as [-> | ->]|]. split; [|by apply int_datum; [|apply G]].
  replace (typinput t) with 1 by (by destruct Ht as [-> | ->]).
  cbn [OidInputFunctionCall backend]. unfold input. cbn [Z.eqb Pos.eqb].
  rewrite <- (app_nil_r (SeqId.print_int _)), SeqId.strtoll_print; [done| |done].
  unfold in_s in *. lia.
Qed.

Lemma int_order v t : t = int4 ∨ t = date → VariantOrder v t (λ a b, compare_ints (int_of a) (int_of b)).
Proof.
  intros Ht. assert (D : ∀ d bs, datum_is t d bs → int_of_datum d = int_of bs).
  { intros d bs Hd. unfold int_of_datum.
    assert (variant_bytes true d 4 = Ok bs) as -> by (by destruct Ht as [-> | ->]). done. }
  constructor; try done.
  - intros coll d1 d2 bs1 bs2 H1 H2. by rewrite <- (D d1 bs1 H1), <- (D d2 bs2 H2).
  - by intros [].
  - by intros [].
  - intros op coll d1 d2 bs1 bs2 H1 H2. rewrite <- (D d1 bs1 H1), <- (D d2 bs2 H2).
    eexists. split; [by destruct op|]. by destruct op; cbn; destruct (compare_ints _ _) as [|[]|[]].
Qed.

(** Identifiers of [omni_seq]: the law of a variant follows from the round trip
    of their own binary functions. *)

Lemma id_half zs : length zs = 8%nat → Forall byte_ok zs →
  le_bytes 8 (wrap_s 64 (be_val (rev zs))) = Some <$> zs.
Proof.
  intros Hl Hz. assert (Hr : Forall byte_ok (rev zs)) by by apply Forall_rev.
  pose proof (be_bytes_be_val (rev zs) Hr) as E. rewrite length_rev, Hl in E.
  rewrite <- (be_bytes_cong 8 (wrap_s 64 (be_val (rev zs)))) in E by (by apply (wrap_s_mod 64)).
  unfold le_bytes. by rewrite E, rev_involutive.
Qed.

#[local] Instance id_binary v : VariantBinary v id.
Proof.
  constructor. intros d zs Hz Hd. unfold datum_is in Hd. change (typlen id =? -1) with false in Hd.
  cbn iota in Hd. change (typbyval id) with false in Hd. change (typlen id) with 16 in Hd.
  pose proof (variant_bytes_length _ _ _ _ Hd) as Hl. rewrite length_fmap in Hl.
  set (x := id_of zs).
  assert (Hx : SeqId.id_ok 64 64 x) by (split; by apply wrap_s_in).
  assert (W64 : SeqId.width 64) by (right; by right).
  pose proof (SeqId.id_recv_send 64 64 x W64 W64 Hx) as R.
  set (msg := be_bytes 8 (SeqId.prefix x) ++ be_bytes 8 (SeqId.val x)).
  change (SeqId.id_send 64 64 (Some x)) with (Some msg) in R.
  exists (Some <$> msg), (DPtr (Some <$> zs)). split.
  { change (send 8 d = Ok (bytea (Some <$> msg))). unfold send. cbn [Z.eqb Pos.eqb].
    rewrite Hd. cbn [mbind result_bind]. rewrite scalar_some. done. }
  split; [rewrite some_length; unfold msg; by rewrite length_app, !be_bytes_length|].
  split.
  - change (receive 7 (Some <$> msg) (typioparam v id) 0 = Ok (DPtr (Some <$> zs))).
    unfold receive. cbn [Z.eqb Pos.eqb]. rewrite scalar_some. cbn [mbind result_bind].
    rewrite R. cbn [mbind result_bind]. unfold x. cbn [id_of SeqId.prefix SeqId.val].
    rewrite (id_half (take 8 zs)) by (rewrite ?length_take; lia || by apply Forall_take).
    rewrite (id_half (drop 8 zs)) by (rewrite ?length_drop; lia || by apply Forall_drop).
    by rewrite <- fmap_app, take_drop.
  - unfold datum_is. change (typlen id =? -1) with false. cbn iota.
    pose proof (peek_mid [] (Some <$> zs) [] 0 16 eq_refl ltac:(rewrite some_length; lia)) as K.
    by rewrite app_nil_r in K.
Qed.

(** A value of each kind of variant. *)
Ltac variant_of st :=
  split; [lia|]; split; [reflexivity|]; split; [reflexivity|]; exists st; eexists;
  split; [reflexivity|]; split; [reflexivity|]; split; [vm_compute; reflexivity|];
  split; [by_decide|reflexivity].

Lemma has_int4_pair : has_variant W 90 0 23 int4.
Proof. variant_of pair_t. Defined.

Lemma has_date_pair : has_variant W 90 1 24 date.
Proof. variant_of pair_t. Defined.

Lemma has_id_var : has_variant W 92 1 102 id.
Proof. variant_of var_t. Defined.

Lemma has_unit_fixed : has_variant W 91 2 104 unit_t.
Proof. variant_of fixed_t. Defined.

Definition id_value : datum := DPtr (Some <$> seqZ 1 16).

Lemma sum_cast_roundtrip_witness :
  ∃ s h' d', sum_cast_from W 92 102 id_value ∅ = (Ok s, h') ∧
    sum_value W 92 1 102 id (Some <$> seqZ 1 16) s ∧
    sum_cast_to W 92 102 s h' = (Ok (Some d'), h') ∧ datum_is id d' (Some <$> seqZ 1 16) ∧
    (∀ v', v' ≠ 102 → sum_cast_to W 92 v' s h' = (Ok None, h')) ∧
    sum_variant W 92 (Some s) h' = (Ok (Some 102), h').
Proof.
  apply (sum_cast_roundtrip W ∅ 92 1 102 id id_value (Some <$> seqZ 1 16)).
  - exact I.
  - exact has_id_var.
  - discriminate.
  - vm_compute. reflexivity.
Defined.

(** The sum value of [id_value] in the variable-size type. *)
Definition id_sum : datum :=
  match (sum_cast_from W 92 102 id_value ∅).1 with Ok s => s | _ => id_value end.

Lemma id_sum_value : sum_value W 92 1 102 id (Some <$> seqZ 1 16) id_sum.
Proof.
  split; [exact has_id_var|]. split; [exists id_value; vm_compute; reflexivity|].
  exists var_t. split; [reflexivity|].
  exact (laid_var_byref id (-1) 1 (Some <$> seqZ 1 16) 28 [None; None; None; None] eq_refl eq_refl).
Qed.

Lemma sum_binary_roundtrip_witness :
  ∃ msg s' h', sum_send W 92 id_sum ∅ = (Ok msg, h') ∧ sum_recv W 92 msg h' = (Ok s', h') ∧
    sum_value W 92 1 102 id (Some <$> seqZ 1 16) s'.
Proof.
  apply (sum_binary_roundtrip W ∅ 92 1 102 id (seqZ 1 16) id_sum).
  - exact I.
  - exact id_sum_value.
  - by_decide.
  - discriminate.
  - exact (id_binary 102).
Defined.

(** The integer -2 in the pair type: the second variant. *)
Definition date_sum : datum := DPtr (le_bytes 4 1 ++ (Some <$> [254; 255; 255; 255]) ++ []).

Lemma date_sum_value : sum_value W 90 1 24 date (Some <$> [254; 255; 255; 255]) date_sum.
Proof.
  split; [exact has_date_pair|]. split; [exists (DWord (le_bytes 8 (-2))); vm_compute; reflexivity|].
  exists pair_t. split; [reflexivity|].
  apply (laid_fixed date 8 1 (Some <$> [254; 255; 255; 255]) []). discriminate.
Qed.

Lemma sum_text_roundtrip_witness :
  ∃ txt s' h', sum_out W 90 date_sum ∅ = (Ok txt, h') ∧ sum_in W 90 txt h' = (Ok s', h') ∧
    sum_value W 90 1 24 date (Some <$> [254; 255; 255; 255]) s'.
Proof.
  apply (sum_text_roundtrip W ∅ 90 1 24 date [254; 255; 255; 255] date_sum).
  - exact I.
  - exact date_sum_value.
  - by_decide.
  - exact (int_text 24 date (or_intror eq_refl)).
  - intros e o He Ho. injection He as <-. cbn in Ho.
    apply elem_of_cons in Ho as [->|Ho]; [split; [by_decide|discriminate]|].
    apply list_elem_of_singleton in Ho as ->. split; [by_decide|reflexivity].
Defined.

Definition int_sum : datum := DPtr (le_bytes 4 0 ++ (Some <$> [7; 0; 0; 0]) ++ []).

Lemma int_sum_value : sum_value W 90 0 23 int4 (Some <$> [7; 0; 0; 0]) int_sum.
Proof.
  split; [exact has_int4_pair|]. split; [exists (DWord (le_bytes 8 7)); vm_compute; reflexivity|].
  exists pair_t. split; [reflexivity|].
  apply (laid_fixed int4 8 0 (Some <$> [7; 0; 0; 0]) []). discriminate.
Qed.

Lemma pair_variants i v t : has_variant W 90 i v t → t = int4 ∨ t = date.
Proof.
  intros (_ & Ht & _ & st & e & _ & _ & He & _ & Hv). injection He as <-. cbn in Hv.
  destruct (Z.to_nat i) as [|[|n]]; cbn in Hv; simplify_eq; cbn in Ht; simplify_eq; auto.
Qed.

Definition int_cmp (_ : Z) (a b : mem) : Z := compare_ints (int_of a) (int_of b).

Lemma sum_operators_agree_witness :
  ∃ h', let c := sum_order int_cmp 0 23 (Some <$> [7; 0; 0; 0]) 1 (Some <$> [254; 255; 255; 255]) in
    sum_cmp W 90 int_sum date_sum 100 ∅ = (Ok c, h') ∧
    sum_eq W 90 int_sum date_sum 100 ∅ = (Ok (c =? 0), h') ∧
    sum_neq W 90 int_sum date_sum 100 ∅ = (Ok (negb (c =? 0)), h') ∧
    sum_lt W 90 int_sum date_sum 100 ∅ = (Ok (c <? 0), h') ∧
    sum_lte W 90 int_sum date_sum 100 ∅ = (Ok (c <=? 0), h') ∧
    sum_gt W 90 int_sum date_sum 100 ∅ = (Ok (0 <? c), h') ∧
    sum_gte W 90 int_sum date_sum 100 ∅ = (Ok (0 <=? c), h').
Proof.
  apply (sum_operators_agree W 90 ∅ 100 int_cmp 0 23 int4 (Some <$> [7; 0; 0; 0]) int_sum
           1 24 date (Some <$> [254; 255; 255; 255]) date_sum).
  - exact I.
  - exact int_sum_value.
  - exact date_sum_value.
  - intros i v t Hv. exact (int_order v t (pair_variants i v t Hv)).
Defined.

(** The rows [sum_type] writes for the pair type. *)
Definition pair_objects : list catalog_object :=
  match sum_type 90 (Some "pair") (Some [Some 23; Some 24]) with Ok r => r.2 | _ => [] end.

Lemma sum_type_variants_fit_witness :
  ∃ nm len inp out rcv snd ext oids,
    TypeCreate nm len inp out rcv snd ext ∈ pair_objects ∧ SumTypesRow 90 oids ∈ pair_objects ∧
    Some <$> oids = [Some 23; Some 24] ∧ row_fits len oids ∧
    ∀ rows a b st rows', rows_fit rows → type_tuple a = Some st →
      typlen st = -1 ∨ 4 <= typlen st →
      add_variant rows (Some a) (Some b) = Ok rows' → rows_fit rows'.
Proof.
  apply (sum_type_variants_fit 90 (Some "pair") (Some [Some 23; Some 24]) pair_objects).
  - intros v tv Htv. cbn in Htv. unfold types in Htv.
    repeat (case_match; [injection Htv as <-; split; [reflexivity|cbn; lia]|]). discriminate Htv.
  - vm_compute. reflexivity.
Defined.

Definition unit_sum : datum := DPtr (le_bytes 4 2 ++ [Some 0] ++ replicate 15 None).

Lemma sum_send_unit_overruns_witness :
  sum_send W 91 unit_sum ∅ = (Undefined "write outside the allocation", cached W ∅ 91).
Proof.
  apply (sum_send_unit_overruns W ∅ 91 2 104 unit_t [Some 0] unit_sum).
  - exact I.
  - split; [exact has_unit_fixed|]. split; [exists unit; vm_compute; reflexivity|].
    exists fixed_t. split; [reflexivity|].
    apply (laid_fixed unit_t 20 2 [Some 0] (replicate 15 None)). discriminate.
  - intros d out E. injection E as <-. reflexivity.
Defined.

Lemma sum_recv_negative_discriminant_witness :
  sum_recv W 91 (le_bytes 4 (Z.shiftl 8 2) ++ (Some <$> be_bytes 4 (-1)) ++ []) ∅ =
  (Undefined "index below the vector", cached W ∅ 91).
Proof.
  apply (sum_recv_negative_discriminant W ∅ 91 fixed_t
           (Entry 700 [23; 102; 104] [201; 201; 201] [300; 300; 300] [300; 300; 300]) (-1) []).
  - exact I.
  - reflexivity.
  - vm_compute. reflexivity.
  - lia.
  - cbn. lia.
Defined.

(** The entry cached before [id] and [unit] were added to the type. *)
Definition old_cache : gmap Z SumTypeCacheEntry := {[ 92 := Entry 700 [23] [201] [300] [300] ]}.

Lemma sumtype_cache_stale_witness :
  sum_cast_from W 92 102 id_value old_cache = (Err (elog "No valid variant found"), old_cache).
Proof.
  apply (sumtype_cache_stale W old_cache 92 1 102 id id_value (Entry 700 [23] [201] [300] [300])).
  - exact has_id_var.
  - reflexivity.
  - reflexivity.
  - by_decide.
Defined.

(** With that entry, reading a stored value of the new variant leaves the
    array of variants. *)
Example stale_read : (get_variant_val W id_sum 92 old_cache).1 = Undefined "index beyond the vector".
Proof. vm_compute. reflexivity. Qed.
End Demo.
End SumType.
