(* ===== verification/Bgworker.v ===== *)
(** * Background workers and one-shot transaction callbacks:
      [request_bgworker_start] and [request_bgworker_termination] of
      [omni/omni.c], [omni_xact_callback_hook] of [omni/hook_harness.c]

    A module asks for a worker to be started or stopped immediately, at the
    commit of the transaction or after it.  The state is that of one backend:
    the two lists of one-shot callbacks, the callbacks registered with
    [TopTransactionContext] (the most recent first, which is the order in
    which PostgreSQL calls them when the context is reset), the handles given
    by the callers, and the calls made to PostgreSQL's background worker
    functions. *)

From stdpp Require Import base tactics list gmap strings numbers.
From Stdlib Require Import ZArith Lia.
From S2P Require Import Prelude.

Module Bgworker.

Inductive XactEvent :=
  | XACT_EVENT_COMMIT | XACT_EVENT_PARALLEL_COMMIT | XACT_EVENT_ABORT
  | XACT_EVENT_PARALLEL_ABORT | XACT_EVENT_PREPARE | XACT_EVENT_PRE_COMMIT
  | XACT_EVENT_PARALLEL_PRE_COMMIT | XACT_EVENT_PRE_PREPARE.

#[export] Instance XactEvent_eq_dec : EqDecision XactEvent.
Proof. solve_decision. Defined.

Inductive omni_timing := omni_timing_after_commit | omni_timing_at_commit | omni_timing_immediately.

Record omni_bgworker_options := Options { timing : omni_timing; dont_wait : bool }.

(** What the code uses of a [BackgroundWorker]: who it is, and whether it
    starts only when recovery has finished. *)
Record BackgroundWorker := Worker { bgw_name : string; starts_after_recovery : bool }.

(** [BackgroundWorkerHandle]: a slot and its generation. *)
Abbreviation slot := (Z * Z)%type.

(** [bgw_handle] is [None] until something is stored in it. *)
Record omni_bgworker_handle := BgHandle { bgw_handle : option slot; registered : bool }.

Inductive bgworker_op := do_start | do_stop.

(** [struct xact_oneshot_callback] with its [bgworker_request_payload];
    [handle] is the address of the caller's [omni_bgworker_handle]. *)
Record callback := Callback {
  op : bgworker_op;
  bgworker : option BackgroundWorker;
  options : omni_bgworker_options;
  handle : nat
}.

(** Calls of PostgreSQL's functions. *)
Inductive action :=
  | Registered (w : BackgroundWorker) (sl : slot)
  | WaitedForStartup (sl : slot)
  | Terminated (sl : slot).

Record backend := Backend {
  xact_oneshot_callbacks : list callback;
  after_xact_oneshot_callbacks : list callback;
  reset_callbacks : list XactEvent;
  handles : gmap nat omni_bgworker_handle;
  actions : list action
}.

Definition set_xact (l : list callback) (s : backend) : backend :=
  Backend l (after_xact_oneshot_callbacks s) (reset_callbacks s) (handles s) (actions s).
Definition set_after (l : list callback) (s : backend) : backend :=
  Backend (xact_oneshot_callbacks s) l (reset_callbacks s) (handles s) (actions s).
Definition set_reset (l : list XactEvent) (s : backend) : backend :=
  Backend (xact_oneshot_callbacks s) (after_xact_oneshot_callbacks s) l (handles s) (actions s).
Definition set_handle (a : nat) (h : omni_bgworker_handle) (s : backend) : backend :=
  Backend (xact_oneshot_callbacks s) (after_xact_oneshot_callbacks s) (reset_callbacks s)
    (<[a := h]> (handles s)) (actions s).
Definition log (a : action) (s : backend) : backend :=
  Backend (xact_oneshot_callbacks s) (after_xact_oneshot_callbacks s) (reset_callbacks s)
    (handles s) (actions s ++ [a]).

Section Ops.
(** [RegisterDynamicBackgroundWorker] as the number of workers registered so
    far decides: [None] when no slot is free, in which case the handle is not
    set.  [RecoveryInProgress()].  The successive results of
    [GetBackgroundWorkerPid] (is the worker stopped?) and [WaitLatch] (has the
    postmaster died?) while waiting for a worker to stop. *)
Context (RegisterDynamicBackgroundWorker : BackgroundWorker → nat → option slot).
Context (RecoveryInProgress : bool).
Context (polls : slot → list (bool * bool)).

Definition the_handle (a : nat) : M backend omni_bgworker_handle :=
  s ← get_st; mret (default (BgHandle None false) (handles s !! a)).

Definition do_start_bgworker (event : XactEvent) (payload : callback) : M backend unit :=
  match event with
  | XACT_EVENT_COMMIT =>
      match bgworker payload with
      | None => undefined "no background worker in the request"
      | Some w =>
          s ← get_st;
          let bgw := RegisterDynamicBackgroundWorker w (length (actions s)) in
          _ ← match bgw with Some sl => modify_st (log (Registered w sl)) | None => mret () end;
          h ← the_handle (handle payload);
          _ ← modify_st (set_handle (handle payload) (BgHandle (bgw_handle h) true));
          _ ← (if dont_wait (options payload) then mret ()
               else if starts_after_recovery w && RecoveryInProgress then mret ()
               else match bgw with
                    | Some sl => modify_st (log (WaitedForStartup sl))
                    | None => undefined "uninitialised background worker handle"
                    end);
          match bgw with
          | Some sl => modify_st (set_handle (handle payload) (BgHandle (Some sl) true))
          | None => undefined "uninitialised background worker handle"
          end
      end
  | _ => mret ()
  end.

(** The loop that waits for the worker to stop; it goes on for as long as
    there are polls that say it has not. *)
Fixpoint wait_stopped (l : list (bool * bool)) : result unit :=
  match l with
  | [] => Undefined "waits for ever"
  | (stopped, postmaster_death) :: l' =>
      if (stopped : bool) then Ok ()
      else if (postmaster_death : bool) then Ok ()
      else wait_stopped l'
  end.

Definition do_stop_bgworker (event : XactEvent) (payload : callback) : M backend unit :=
  match event with
  | XACT_EVENT_COMMIT =>
      h ← the_handle (handle payload);
      match bgw_handle h with
      | None => undefined "uninitialised background worker handle"
      | Some sl =>
          _ ← modify_st (log (Terminated sl));
          if dont_wait (options payload) then mret () else lift_r (wait_stopped (polls sl))
      end
  | _ => mret ()
  end.

(** [cb->fn(event, cb->arg)] *)
Definition call (cb : callback) (event : XactEvent) : M backend unit :=
  match op cb with
  | do_start => do_start_bgworker event cb
  | do_stop => do_stop_bgworker event cb
  end.

Definition request_bgworker_op (w : option BackgroundWorker) (bgw_handle : nat)
    (options : omni_bgworker_options) (f : bgworker_op) : M backend unit :=
  let cb := Callback f w options bgw_handle in
  match timing options with
  | omni_timing_immediately => call cb XACT_EVENT_COMMIT
  | omni_timing_at_commit =>
      modify_st (λ s, set_xact (xact_oneshot_callbacks s ++ [cb]) s)
  | omni_timing_after_commit =>
      modify_st (λ s, set_after (after_xact_oneshot_callbacks s ++ [cb]) s)
  end.

Definition request_bgworker_start (w : BackgroundWorker) (bgw_handle : nat)
    (options : omni_bgworker_options) : M backend unit :=
  request_bgworker_op (Some w) bgw_handle options do_start.

Definition request_bgworker_termination (bgw_handle : nat) (options : omni_bgworker_options)
  : M backend unit :=
  request_bgworker_op None bgw_handle options do_stop.

(** The loops over the two lists: a callback is deleted once it has run. *)
Fixpoint fire (set : list callback → backend → backend) (event : XactEvent) (l : list callback)
  : M backend unit :=
  match l with
  | [] => mret ()
  | cb :: l' =>
      _ ← call cb event;
      _ ← modify_st (set l');
      fire set event l'
  end.

Definition on_xact_dealloc (event : XactEvent) : M backend unit :=
  s ← get_st; fire set_after event (after_xact_oneshot_callbacks s).

(** The hooks registered by modules ([iterate_hooks(xact_callback, event)])
    come first. *)
Context (xact_hooks : XactEvent → M backend unit).

Definition omni_xact_callback_hook (event : XactEvent) : M backend unit :=
  _ ← xact_hooks event;
  s ← get_st;
  _ ← fire set_xact event (xact_oneshot_callbacks s);
  s ← get_st;
  match after_xact_oneshot_callbacks s with
  | [] => mret ()
  | _ => modify_st (λ s, set_reset (event :: reset_callbacks s) s)
  end.

(** ** The end of a transaction, as PostgreSQL runs it

    The transaction callbacks, then the reset of [TopTransactionContext],
    which calls its callbacks. *)
Inductive xact_end := Commit | Abort | Prepare.

Definition events_of (e : xact_end) : list XactEvent :=
  match e with
  | Commit => [XACT_EVENT_PRE_COMMIT; XACT_EVENT_COMMIT]
  | Abort => [XACT_EVENT_ABORT]
  | Prepare => [XACT_EVENT_PRE_PREPARE; XACT_EVENT_PREPARE]
  end.

Fixpoint call_reset_callbacks (l : list XactEvent) : M backend unit :=
  match l with
  | [] => mret ()
  | event :: l' =>
      _ ← modify_st (set_reset l');
      _ ← on_xact_dealloc event;
      call_reset_callbacks l'
  end.

Definition end_transaction (e : xact_end) : M backend unit :=
  _ ← for_each omni_xact_callback_hook (events_of e);
  s ← get_st;
  call_reset_callbacks (reset_callbacks s).

(** A request of a module: a worker, the address of its handle and the
    options. *)
Record request := Request { req_worker : BackgroundWorker; req_handle : nat;
                            req_options : omni_bgworker_options }.

Definition transaction (rs : list request) (e : xact_end) : M backend unit :=
  _ ← for_each (λ r, request_bgworker_start (req_worker r) (req_handle r) (req_options r)) rs;
  end_transaction e.
End Ops.

(** ** Lemmas *)

Section Facts.
Context (RegisterDynamicBackgroundWorker : BackgroundWorker → nat → option slot).
Context (RecoveryInProgress : bool).
Context (polls : slot → list (bool * bool)).
Context (xact_hooks : XactEvent → M backend unit).

Abbreviation call := (call RegisterDynamicBackgroundWorker RecoveryInProgress polls).
Abbreviation fire := (fire RegisterDynamicBackgroundWorker RecoveryInProgress polls).
Abbreviation transaction :=
  (transaction RegisterDynamicBackgroundWorker RecoveryInProgress polls xact_hooks).

(** Nothing is pending. *)
Definition clean (s : backend) : Prop :=
  xact_oneshot_callbacks s = [] ∧ after_xact_oneshot_callbacks s = [] ∧ reset_callbacks s = [].

Definition callback_of (r : request) : callback :=
  Callback do_start (Some (req_worker r)) (req_options r) (req_handle r).

(** The start of one worker in the slot [sl]. *)
Definition start_in (sl : slot) (r : request) (s : backend) : backend :=
  let s := log (Registered (req_worker r) sl) s in
  let s := if dont_wait (req_options r) || (starts_after_recovery (req_worker r) && RecoveryInProgress)
           then s else log (WaitedForStartup sl) s in
  set_handle (req_handle r) (BgHandle (Some sl) true) s.

(** The workers of the requests started in order; [(0, 0)] is never used when
    there is always a free slot. *)
Definition start_one (s : backend) (r : request) : backend :=
  start_in (default (0, 0)%Z (RegisterDynamicBackgroundWorker (req_worker r) (length (actions s)))) r s.

Definition started (rs : list request) (s : backend) : backend := foldl start_one s rs.

Lemma call_start r s : is_Some (RegisterDynamicBackgroundWorker (req_worker r) (length (actions s))) →
  call (callback_of r) XACT_EVENT_COMMIT s = (Ok (), start_one s r).
Proof.
  intros [sl E]. unfold start_one. rewrite E. unfold Bgworker.call, callback_of, start_in. cbn.
  unfold the_handle, mbind, M_bind, get_st, modify_st, mret, M_ret. cbn. rewrite E. cbn.
  destruct (dont_wait _); [|destruct (starts_after_recovery _ && RecoveryInProgress)]; cbn;
    unfold set_handle, log; cbn; by rewrite insert_insert_eq.
Qed.

Lemma call_not_commit cb event s : event ≠ XACT_EVENT_COMMIT → call cb event s = (Ok (), s).
Proof. intros. by destruct cb as [[]], event. Qed.

Lemma set_after_after l l' s : set_after l (set_after l' s) = set_after l s.
Proof. done. Qed.

Lemma start_one_after l s r : start_one (set_after l s) r = set_after l (start_one s r).
Proof. unfold start_one, start_in. cbn. by destruct (_ || _). Qed.

Lemma started_after l rs s : started rs (set_after l s) = set_after l (started rs s).
Proof.
  revert s. induction rs as [|r rs IH]; intros s; [done|]. unfold started. cbn.
  rewrite start_one_after. apply IH.
Qed.

Lemma fire_after_commit rs s : (∀ w n, is_Some (RegisterDynamicBackgroundWorker w n)) →
  fire set_after XACT_EVENT_COMMIT (callback_of <$> rs) s =
  (Ok (), match rs with [] => s | _ => set_after [] (started rs s) end).
Proof.
  intros Hfree. revert s. induction rs as [|r rs IH]; intros s; [done|]. cbn [fmap list_fmap Bgworker.fire].
  unfold mbind, M_bind, modify_st. rewrite call_start by done. rewrite IH.
  destruct rs as [|r' rs]; [done|].
  change (started (r :: r' :: rs) s) with (started (r' :: rs) (start_one s r)).
  by rewrite started_after.
Qed.

Lemma fire_not_commit (set : list callback → backend → backend) event l s :
  event ≠ XACT_EVENT_COMMIT → (∀ a b s, set a (set b s) = set a s) →
  fire set event l s = (Ok (), match l with [] => s | _ => set [] s end).
Proof.
  intros Hev Hset. revert s. induction l as [|cb l IH]; intros s; [done|]. cbn [Bgworker.fire].
  unfold mbind, M_bind, modify_st. rewrite call_not_commit by done. rewrite IH.
  destruct l; [done|]. by rewrite Hset.
Qed.

(** ** The requests of a transaction *)

Definition is_immediate (r : request) : bool :=
  match timing (req_options r) with omni_timing_immediately => true | _ => false end.
Definition is_after (r : request) : bool :=
  match timing (req_options r) with omni_timing_after_commit => true | _ => false end.
Definition is_at_commit (r : request) : bool :=
  match timing (req_options r) with omni_timing_at_commit => true | _ => false end.

Abbreviation requests rs := (for_each (λ r, request_bgworker_start RegisterDynamicBackgroundWorker
  RecoveryInProgress polls (req_worker r) (req_handle r) (req_options r)) rs).

Lemma requests_ok rs s : (∀ w n, is_Some (RegisterDynamicBackgroundWorker w n)) →
  Forall (λ r, is_at_commit r = false) rs →
  requests rs s =
  (Ok (), set_after (after_xact_oneshot_callbacks s ++ (callback_of <$> List.filter is_after rs))
            (started (List.filter is_immediate rs) s)).
Proof.
  intros Hfree Hrs. revert s. induction Hrs as [|r rs Hr Hrs IH]; intros s.
  { cbn. rewrite app_nil_r. by destruct s. }
  cbn [for_each]. unfold mbind, M_bind, request_bgworker_start, request_bgworker_op.
  unfold is_at_commit, is_after, is_immediate in *. cbn [List.filter].
  destruct (timing (req_options r)) eqn:E; try done.
  - unfold modify_st. rewrite IH, started_after. f_equal. rewrite set_after_after. f_equal.
    cbn. by rewrite <- app_assoc.
  - pose proof (call_start r s (Hfree _ _)) as C. unfold callback_of in C. rewrite C, IH.
    f_equal. unfold started at 2. cbn [foldl]. f_equal.
    f_equal. unfold start_one, start_in. by destruct (_ || _).
Qed.

Lemma at_commit_ok rs s : Forall (λ r, is_at_commit r = true) rs →
  requests rs s = (Ok (), set_xact (xact_oneshot_callbacks s ++ (callback_of <$> rs)) s).
Proof.
  intros Hrs. revert s. induction Hrs as [|r rs Hr Hrs IH]; intros s.
  { cbn. rewrite app_nil_r. by destruct s. }
  cbn [for_each]. unfold mbind, M_bind, request_bgworker_start, request_bgworker_op.
  unfold is_at_commit in Hr. destruct (timing (req_options r)); try done.
  unfold modify_st. rewrite IH. cbn. by rewrite <- app_assoc.
Qed.

Lemma started_clean rs s : xact_oneshot_callbacks (started rs s) = xact_oneshot_callbacks s ∧
  after_xact_oneshot_callbacks (started rs s) = after_xact_oneshot_callbacks s ∧
  reset_callbacks (started rs s) = reset_callbacks s.
Proof.
  revert s. induction rs as [|r rs IH]; intros s; [done|].
  destruct (IH (start_one s r)) as (H1 & H2 & H3). unfold started in *. cbn.
  rewrite H1, H2, H3. unfold start_one, start_in. by destruct (_ || _).
Qed.

(** ** The end of the transaction *)

Abbreviation xact_event :=
  (omni_xact_callback_hook RegisterDynamicBackgroundWorker RecoveryInProgress polls xact_hooks).

Hypothesis hooks_quiet : ∀ event s, xact_hooks event s = (Ok (), s).

Lemma set_after_id s : set_after (after_xact_oneshot_callbacks s) s = s.
Proof. by destruct s. Qed.

Lemma set_reset_id s : set_reset (reset_callbacks s) s = s.
Proof. by destruct s. Qed.

(** An event with no callback for it, and none or some for after the
    transaction. *)
Lemma event_ok event s : xact_oneshot_callbacks s = [] →
  xact_event event s =
  (Ok (), match after_xact_oneshot_callbacks s with
          | [] => s
          | _ => set_reset (event :: reset_callbacks s) s
          end).
Proof using All.
  intros Hx. unfold omni_xact_callback_hook, mbind, M_bind, get_st. rewrite hooks_quiet, Hx.
  cbn [Bgworker.fire]. unfold mret, M_ret, modify_st. by destruct (after_xact_oneshot_callbacks s).
Qed.

Lemma events_ok evs s : xact_oneshot_callbacks s = [] →
  for_each xact_event evs s =
  (Ok (), match after_xact_oneshot_callbacks s with
          | [] => s
          | _ => set_reset (rev evs ++ reset_callbacks s) s
          end).
Proof using All.
  revert s. induction evs as [|event evs IH]; intros s Hx.
  { cbn. destruct s as [? [] ???]; done. }
  cbn [for_each]. unfold mbind, M_bind. rewrite event_ok by done.
  destruct (after_xact_oneshot_callbacks s) as [|cb l] eqn:Ea; rewrite IH by done; [by rewrite Ea|].
  cbn. rewrite Ea. cbn [rev]. by rewrite <- app_assoc.
Qed.

Abbreviation resets :=
  (call_reset_callbacks RegisterDynamicBackgroundWorker RecoveryInProgress polls).

Abbreviation dealloc :=
  (on_xact_dealloc RegisterDynamicBackgroundWorker RecoveryInProgress polls).

Lemma dealloc_none event s : after_xact_oneshot_callbacks s = [] → dealloc event s = (Ok (), s).
Proof. intros Ha. unfold on_xact_dealloc. rewrite (bind_ok get_st _ s s s eq_refl). by rewrite Ha. Qed.

(** Callbacks of the context that find no callback left. *)
Lemma resets_none evs s : after_xact_oneshot_callbacks s = [] →
  resets evs s = (Ok (), match evs with [] => s | _ => set_reset [] s end).
Proof.
  revert s. induction evs as [|event evs IH]; intros s Ha; [done|]. cbn [call_reset_callbacks].
  rewrite (bind_ok (modify_st _) _ () s (set_reset evs s) eq_refl).
  rewrite (bind_ok _ _ _ _ _ (dealloc_none event (set_reset evs s) Ha)).
  rewrite IH by done. by destruct evs.
Qed.

Lemma dealloc_commit rs s : (∀ w n, is_Some (RegisterDynamicBackgroundWorker w n)) →
  after_xact_oneshot_callbacks s = [] →
  dealloc XACT_EVENT_COMMIT (set_after (callback_of <$> rs) s) = (Ok (), started rs s).
Proof.
  intros Hfree Ha. unfold on_xact_dealloc, mbind, M_bind, get_st. cbn [set_after after_xact_oneshot_callbacks].
  rewrite fire_after_commit by done. fold (set_after (callback_of <$> rs) s). f_equal.
  rewrite started_after, set_after_after.
  destruct rs; [change (set_after [] s = s); rewrite <- Ha; apply set_after_id|].
  rewrite <- Ha, <- (proj1 (proj2 (started_clean (r :: rs) s))). apply set_after_id.
Qed.

Lemma dealloc_other event rs s : event ≠ XACT_EVENT_COMMIT → after_xact_oneshot_callbacks s = [] →
  dealloc event (set_after (callback_of <$> rs) s) = (Ok (), s).
Proof.
  intros He Ha. unfold on_xact_dealloc, mbind, M_bind, get_st. cbn [set_after after_xact_oneshot_callbacks].
  rewrite fire_not_commit by done. fold (set_after (callback_of <$> rs) s). f_equal.
  rewrite set_after_after.
  destruct rs; change (set_after [] s = s); rewrite <- Ha; apply set_after_id.
Qed.

Lemma started_reset l rs s : started rs (set_reset l s) = set_reset l (started rs s).
Proof.
  revert s. induction rs as [|r rs IH]; intros s; [done|]. unfold started in *. cbn.
  rewrite <- IH. f_equal. unfold start_one, start_in. cbn. by destruct (_ || _).
Qed.

Lemma end_transaction_ok e rs s : (∀ w n, is_Some (RegisterDynamicBackgroundWorker w n)) →
  clean s →
  end_transaction RegisterDynamicBackgroundWorker RecoveryInProgress polls xact_hooks e
    (set_after (callback_of <$> rs) s) =
  (Ok (), match e with Commit => started rs s | _ => s end).
Proof using All.
  intros Hfree (Hx & Ha & Hr). unfold end_transaction.
  rewrite (bind_ok _ _ _ _ _ (events_ok _ (set_after (callback_of <$> rs) s) Hx)). cbn [after_xact_oneshot_callbacks set_after].
  destruct rs as [|r rs].
  { cbn. unfold mbind, M_bind, get_st. rewrite <- Ha, set_after_id, Hr. by destruct e. }
  change (match callback_of <$> r :: rs with [] => ?x | _ => ?y end) with y.
  set (l := r :: rs) in *.
  assert (Hid : ∀ k, after_xact_oneshot_callbacks (set_reset k s) = []) by done.
  set (evs := rev (events_of e)).
  rewrite (bind_ok get_st _ _ _ _ eq_refl). cbn [set_reset reset_callbacks].
  cbn [set_after reset_callbacks]. rewrite Hr, app_nil_r.
  assert (E : ∀ ev k, resets (ev :: k) (set_reset evs (set_after (callback_of <$> l) s)) =
    (dealloc ev ≫= λ _, resets k) (set_after (callback_of <$> l) (set_reset k s))) by done.
  unfold evs. destruct e; cbn [events_of rev app]; rewrite E.
  - rewrite (bind_ok _ _ _ _ _ (dealloc_commit l _ Hfree (Hid _))), started_reset.
    rewrite resets_none by (change (after_xact_oneshot_callbacks (started l s) = []);
      by rewrite (proj1 (proj2 (started_clean l s)))).
    f_equal. change (set_reset ?a (set_reset ?b ?x)) with (set_reset a x).
    pose proof (set_reset_id (started l s)) as I. by rewrite (proj2 (proj2 (started_clean l s))), Hr in I.
  - rewrite (bind_ok _ _ _ _ _ (dealloc_other XACT_EVENT_ABORT l _ ltac:(done) (Hid _))).
    cbn. f_equal. pose proof (set_reset_id s) as I. by rewrite Hr in I.
  - rewrite (bind_ok _ _ _ _ _ (dealloc_other XACT_EVENT_PREPARE l _ ltac:(done) (Hid _))).
    rewrite resets_none by done. f_equal. pose proof (set_reset_id s) as I. by rewrite Hr in I.
Qed.

End Facts.


(** A backend and three requests, the slots numbered in order. *)
Definition example_backend : backend := Backend [] [] [] ∅ [].
Definition example_request (name : string) (t : omni_timing) (a : nat) : request :=
  Request (Worker name false) a (Options t false).
Definition example_slots (_ : BackgroundWorker) (n : nat) : option slot := Some (Z.of_nat n, 0%Z).


(** The calls that this makes. *)
Example two_workers :
  actions (snd (transaction example_slots false (λ _, []) (λ _, mret ())
    [example_request "a" omni_timing_after_commit 0; example_request "b" omni_timing_immediately 1]
    Commit example_backend)) =
  [Registered (Worker "b" false) (0, 0)%Z; WaitedForStartup (0, 0)%Z;
   Registered (Worker "a" false) (2, 0)%Z; WaitedForStartup (2, 0)%Z].
Proof. reflexivity. Qed.

(** A request to start a worker at the commit of the transaction is never
    carried out: the callbacks for it are called, and removed, at the first
    event of the end of the transaction, which for a commit is
    [XACT_EVENT_PRE_COMMIT], and the operation looks for
    [XACT_EVENT_COMMIT]. *)
Theorem bgworker_at_commit_dropped reg recovery polls hooks rs e s :
  (∀ event s, hooks event s = (Ok (), s)) →
  clean s → Forall (λ r, is_at_commit r = true) rs →
  transaction reg recovery polls hooks rs e s = (Ok (), s).
Proof.
  intros Hhooks (Hx & Ha & Hr) Hrs. unfold transaction.
  rewrite (bind_ok _ _ _ _ _ (at_commit_ok reg recovery polls rs s Hrs)). rewrite Hx. cbn [app].
  assert (Hid : set_xact [] s = s) by (rewrite <- Hx; by destruct s).
  assert (H1 : ∀ ev, ev ≠ XACT_EVENT_COMMIT →
    omni_xact_callback_hook reg recovery polls hooks ev (set_xact (callback_of <$> rs) s) = (Ok (), s)).
  { intros ev Hev. unfold omni_xact_callback_hook. rewrite (bind_ok _ _ _ _ _ (Hhooks _ _)).
    rewrite (bind_ok get_st _ _ _ _ eq_refl). cbn [set_xact xact_oneshot_callbacks].
    rewrite (bind_ok _ _ _ _ _ (fire_not_commit reg recovery polls set_xact ev _ _ Hev ltac:(done))).
    assert (E : match callback_of <$> rs with
                | [] => set_xact (callback_of <$> rs) s
                | _ => set_xact [] (set_xact (callback_of <$> rs) s) end = s) by (by destruct rs).
    rewrite E. rewrite (bind_ok get_st _ _ _ _ eq_refl). by rewrite Ha. }
  assert (H2 : ∀ ev, omni_xact_callback_hook reg recovery polls hooks ev s = (Ok (), s)).
  { intros ev. rewrite event_ok by done. by rewrite Ha. }
  unfold end_transaction.
  assert (H3 : for_each (omni_xact_callback_hook reg recovery polls hooks) (events_of e)
                 (set_xact (callback_of <$> rs) s) = (Ok (), s)).
  { destruct e; cbn [events_of for_each].
    - rewrite (bind_ok _ _ _ _ _ (H1 XACT_EVENT_PRE_COMMIT ltac:(done))).
      by rewrite (bind_ok _ _ _ _ _ (H2 _)).
    - by rewrite (bind_ok _ _ _ _ _ (H1 XACT_EVENT_ABORT ltac:(done))).
    - rewrite (bind_ok _ _ _ _ _ (H1 XACT_EVENT_PRE_PREPARE ltac:(done))).
      by rewrite (bind_ok _ _ _ _ _ (H2 _)). }
  rewrite (bind_ok _ _ _ _ _ H3), (bind_ok get_st _ _ _ _ eq_refl). by rewrite Hr.
Qed.

Lemma bgworker_at_commit_dropped_witness :
  transaction example_slots false (λ _, []) (λ _, mret ())
    [example_request "a" omni_timing_at_commit 0] Commit example_backend = (Ok (), example_backend).
Proof.
  apply bgworker_at_commit_dropped.
  - reflexivity.
  - repeat split.
  - repeat constructor.
Defined.

(** When no slot is free, the result of the registration is not looked at and
    the handle it did not set is used. *)
Lemma start_without_slot reg recovery polls w a o s :
  reg w (length (actions s)) = None → timing o = omni_timing_immediately →
  fst (request_bgworker_start reg recovery polls w a o s) =
  Undefined "uninitialised background worker handle".
Proof.
  intros E Ht. unfold request_bgworker_start, request_bgworker_op. rewrite Ht. cbn.
  unfold the_handle, mbind, M_bind, get_st, modify_st, mret, M_ret. cbn. rewrite E. cbn.
  destruct (dont_wait o); [done|]. by destruct (starts_after_recovery w && recovery).
Qed.
End Bgworker.
