(* ===== verification/Modules.v ===== *)
(** * Loading of modules: [load_module], [load_pending_modules],
      [unload_module], [atomic_switch] and their helpers in [omni/omni.c]

    The modules of all databases are registered in a shared table by path;
    every backend keeps the list of those it has initialized and brings it in
    line with [pg_extension] when it has been told to.  [shared] is the
    registry with the handles in it, [backend] the static variables of one
    backend, and [rest] what the loader reaches in other components: the hook
    tables ([Hooks]) and the shared memory ([Shmem]).  A handle is known by its
    address in the shared area.  Module libraries are parameters: [dlopen]
    tells what one exports, [run] what its callbacks do (they cannot reach the
    static variables of the loader). *)

From Stdlib Require Import ZArith Lia Ascii.
From stdpp Require Import base tactics list gmap strings numbers.
From S2P Require Import Prelude Hooks Shmem.

Local Open Scope Z_scope.

Module Modules.

Definition OMNI_INTERFACE_VERSION : Z := 0.
Definition NAMEDATALEN : nat := 64.
Definition PATH_MAX : Z := 4096.
Definition SIZEOF_omni_magic : Z := 12.

Record omni_magic := Magic { size : Z; version : Z; revision : Z; pg_version : Z }.

Record omni_module_information := Info {
  mi_name : option string;
  mi_version : option string;
  mi_identity : option string
}.

(** What [dlsym] finds in a library: the function that returns the magic (is
    it the one of this copy of [omni]?) and its result, the module information,
    the three functions of the workers of [omni] 0.1.0, the callbacks. *)
Record library := Library {
  magic_fn : option (bool * option omni_magic);
  module_info : option omni_module_information;
  has_worker_functions : bool;
  has_load : bool;
  has_init : bool;
  has_deinit : bool;
  has_unload : bool
}.

Record ModuleEntry := Entry { entry_id : Z; entry_pointer : nat }.

(** [loaded] is [None] until it is initialised. *)
Record omni_handle_private := HandlePrivate {
  magic : omni_magic;
  id : Z;
  path : string;
  refcount : Z;
  loaded : option Z;
  switchboard : Z;
  module_info_name : string;
  module_info_version : string;
  module_info_identity : string
}.

(** An entry of [omni_modules] that was inserted and not filled in is
    [None]. *)
Record shared := Shared {
  module_counter : Z;
  omni_modules : gmap string (option ModuleEntry);
  handles : gmap nat omni_handle_private;
  next_pointer : nat
}.

(** The callbacks of a module. *)
Inductive call :=
  | _Omni_load (m : nat) | _Omni_init (m : nat) | _Omni_deinit (m : nat) | _Omni_unload (m : nat).

(** [module_contexts]: the paths of the memory contexts made for modules;
    [partition_locks]: the keys whose partition of [omni_modules] is left
    locked. *)
Record backend := Backend {
  backend_initialized : bool;
  backend_force_reload : bool;
  initialized_modules : list nat;
  module_contexts : list string;
  self : option nat;
  omni_loaded : bool;
  partition_locks : list string;
  calls : list call
}.

(** ** Switches *)

Inductive omni_switch_operation := omni_switch_off | omni_switch_on.

#[export] Instance omni_switch_operation_eq_dec : EqDecision omni_switch_operation.
Proof. solve_decision. Defined.

(** The value returned and the switchboard afterwards. *)
Definition atomic_switch (op : omni_switch_operation) (board mask : Z) (switchboard : Z)
  : result Z * Z :=
  if 0 <? board
  then (Err (PgError "53000" "no more switchboards can be allocated"), switchboard) else
  match op with
  | omni_switch_on => (Ok (Z.land (Z.lxor switchboard mask) mask), Z.lor switchboard mask)
  | omni_switch_off =>
      (Ok (Z.land switchboard mask), Z.land switchboard (Z.lxor mask (Z.ones 64)))
  end.

Section Loader.
Context {F W : Type}.

Record rest := Rest {
  hooks : gmap nat (list (Hooks.hook_entry_point F));
  shmem : Shmem.state;
  others : W
}.

Record state := State { sh : shared; be : backend; re : rest }.

Context (dlopen : string → option library).
Context (run : call → M rest unit).
Context (IsBackgroundWorker : bool).
Context (own_version own_identity : string).
Context (get_omni_library_name : string).
Context (pkglib_path : string).
Context (get_extension_module_pathname : string → string → option string).

Definition upd_sh (f : shared → shared) : M state unit :=
  modify_st (λ s, State (f (sh s)) (be s) (re s)).
Definition upd_be (f : backend → backend) : M state unit :=
  modify_st (λ s, State (sh s) (f (be s)) (re s)).
Definition upd_re (f : rest → rest) : M state unit :=
  modify_st (λ s, State (sh s) (be s) (f (re s))).

Definition set_handles (f : gmap nat omni_handle_private → gmap nat omni_handle_private)
    (x : shared) : shared :=
  Shared (module_counter x) (omni_modules x) (f (handles x)) (next_pointer x).
Definition set_modules (f : gmap string (option ModuleEntry) → gmap string (option ModuleEntry))
    (x : shared) : shared :=
  Shared (module_counter x) (f (omni_modules x)) (handles x) (next_pointer x).

Definition set_force_reload (b : bool) (x : backend) : backend :=
  Backend (backend_initialized x) b (initialized_modules x) (module_contexts x) (self x)
    (omni_loaded x) (partition_locks x) (calls x).
Definition set_initialized (f : list nat → list nat) (x : backend) : backend :=
  Backend (backend_initialized x) (backend_force_reload x) (f (initialized_modules x))
    (module_contexts x) (self x) (omni_loaded x) (partition_locks x) (calls x).
Definition add_context (p : string) (x : backend) : backend :=
  Backend (backend_initialized x) (backend_force_reload x) (initialized_modules x)
    (p :: module_contexts x) (self x) (omni_loaded x) (partition_locks x) (calls x).
Definition set_self (m : option nat) (x : backend) : backend :=
  Backend (backend_initialized x) (backend_force_reload x) (initialized_modules x)
    (module_contexts x) m true (partition_locks x) (calls x).
Definition keep_lock (p : string) (x : backend) : backend :=
  Backend (backend_initialized x) (backend_force_reload x) (initialized_modules x)
    (module_contexts x) (self x) (omni_loaded x) (p :: partition_locks x) (calls x).
Definition log_call (c : call) (x : backend) : backend :=
  Backend (backend_initialized x) (backend_force_reload x) (initialized_modules x)
    (module_contexts x) (self x) (omni_loaded x) (partition_locks x) (calls x ++ [c]).

Definition run_call (c : call) : M state unit := λ s,
  let '(r, re') := run c (re s) in (r, State (sh s) (be s) re').

(** The callback, if the library exports it. *)
Definition call_if (exported : bool) (c : call) : M state unit :=
  when exported (_ ← upd_be (log_call c); run_call c).

(** [dsa_get_address] of a pointer the loader was given. *)
Definition get_handle (m : nat) : M state omni_handle_private :=
  s ← get_st;
  match handles (sh s) !! m with
  | Some h => mret h
  | None => undefined "no handle at this address"
  end.

(** ** Paths *)

(** [first_dir_separator]: the position of the first slash. *)
Definition separator (name : string) : nat :=
  default (String.length name) (String.index 0 "/" name).

Definition substitute_libpath_macro (name : string) : result string :=
  match String.get 0 name with
  | Some "$"%char =>
      let sep := separator name in
      if negb (String.eqb (String.substring 0 sep name) "$libdir")
      then Err (PgError "42602" "invalid macro name in dynamic library path")
      else Ok (pkglib_path +:+ String.substring sep (String.length name - sep) name)
  | _ => Ok name
  end.

(** [BackendModuleContextForModule(handle) != NULL] *)
Definition has_context (p : string) (x : backend) : bool := bool_decide (p ∈ module_contexts x).

(** ** [load_module] *)

(** [strncpy(dst, src, NAMEDATALEN - 1)] of an optional string. *)
Definition name_data (src : option string) : string :=
  match src with Some x => String.substring 0 (NAMEDATALEN - 1) x | None => "" end.

(** [strcmp] of a string that may be NULL. *)
Definition strcmp_eq (a : option string) (b : string) : result bool :=
  match a with Some x => Ok (String.eqb x b) | None => Undefined "strcmp of a NULL pointer" end.

(** A copy of [omni] other than the one that is running: refused, with an
    error or with a warning. *)
Definition foreign_omni (is_own : bool) (m : option omni_magic) (lib : library) : result bool :=
  match m with
  | None => Ok false
  | Some mg =>
      if (revision mg <? 6) && bool_decide (module_info lib = None) && has_worker_functions lib
         && negb is_own then Ok true else
      match module_info lib with
      | None => Ok false
      | Some info =>
          same ← strcmp_eq (mi_identity info) own_identity;
          if same && negb is_own then _ ← strcmp_eq (mi_version info) own_version; Ok true
          else Ok false
      end
  end.

(** The handle of a module that is not registered yet. *)
Definition new_handle (p : string) (mg : omni_magic) (info : omni_module_information) (i : Z)
  : omni_handle_private :=
  HandlePrivate mg i p 0 None 0 (name_data (mi_name info)) (name_data (mi_version info))
    (name_data (mi_identity info)).

Definition register_module (p : string) (mg : omni_magic) (lib : library) : M state nat :=
  s ← get_st;
  match omni_modules (sh s) !! p with
  | Some (Some e) => mret (entry_pointer e)
  | Some None => undefined "module entry not initialised"
  | None =>
      match module_info lib with
      | None => undefined "module information is NULL"
      | Some info =>
          let i := wrap_u 32 (module_counter (sh s) + 1) in
          let m := next_pointer (sh s) in
          _ ← upd_sh (λ x, Shared i
                             (<[p := Some (Entry (wrap_s 32 i) m)]> (omni_modules x))
                             (<[m := new_handle p mg info i]> (handles x)) (S m));
          mret m
      end
  end.

Definition load_module (p : string) (warning_preferred : bool) : M state (option nat) :=
  match dlopen p with
  | None => mret None
  | Some lib =>
      match magic_fn lib with
      | None => mret None
      | Some (is_own, m) =>
          foreign ← lift_r (foreign_omni is_own m lib);
          if foreign : bool then
            if IsBackgroundWorker || warning_preferred then mret None
            else ereport "incompatible omni library"
          else
          match m with
          | None => undefined "magic is NULL"
          | Some mg =>
              if (size mg =? SIZEOF_omni_magic) && (version mg =? OMNI_INTERFACE_VERSION)
              then m ← register_module p mg lib; mret (Some m)
              else mret None
          end
      end
  end.

(** ** [load_pending_modules] *)

(** A row of [pg_extension]; [added_now]: inserted by the current
    transaction. *)
Record extension := Extension { extname : string; extversion : option string; added_now : bool }.

Definition consider_ext (ext : extension) : M state (list nat) :=
  match extversion ext with
  | None => mret []
  | Some extver =>
      match get_extension_module_pathname (extname ext) extver with
      | None => mret []
      | Some pathname =>
          p ← lift_r (substitute_libpath_macro pathname);
          if (PATH_MAX <=? Z.of_nat (String.length p)) then undefined "strcpy past the buffer" else
          m ← load_module p (negb (added_now ext));
          mret (match m with Some m => [m] | None => [] end)
      end
  end.

(** [list_append_unique_ptr], [list_concat_unique_ptr], [list_difference_ptr] *)
Definition append_unique (l : list nat) (m : nat) : list nat :=
  if decide (m ∈ l) then l else l ++ [m].
Definition concat_unique (l l' : list nat) : list nat := foldl append_unique l l'.
Definition difference (l l' : list nat) : list nat := filter (λ m, m ∉ l') l.

(** The scan of [pg_extension]. *)
Fixpoint scan_extensions (loaded_modules : list nat) (exts : list extension) : M state (list nat) :=
  match exts with
  | [] => mret loaded_modules
  | ext :: exts' =>
      l ← consider_ext ext;
      scan_extensions (concat_unique loaded_modules l) exts'
  end.

(** [omni] itself, once per backend. *)
Definition load_self (loaded_modules : list nat) : M state (list nat) :=
  s ← get_st;
  if omni_loaded (be s) then mret loaded_modules else
  m ← load_module get_omni_library_name false;
  _ ← upd_be (set_self m);
  match m with
  | Some m => mret (append_unique loaded_modules m)
  | None => undefined "omni itself was not loaded"
  end.

(** The library of a registered module: it was opened before. *)
Definition reopen (p : string) : result library :=
  match dlopen p with Some lib => Ok lib | None => Undefined "dlsym in a library that is not open" end.

Definition unload_module (m : nat) (missing_ok : bool) : M state unit :=
  h ← get_handle m;
  s ← get_st;
  match omni_modules (sh s) !! path h with
  | None =>
      (* inserted by [dshash_find_or_insert], whose lock is not released *)
      _ ← upd_sh (set_modules <[path h := None]>);
      if missing_ok then upd_be (keep_lock (path h)) else ereport "module id not found"
  | Some _ =>
      if negb (has_context (path h) (be s)) then ereport "no module memory context found" else
      _ ← upd_sh (set_handles <[m := HandlePrivate (magic h) (id h) (path h)
             (wrap_u 32 (refcount h - 1)) (loaded h) (switchboard h) (module_info_name h)
             (module_info_version h) (module_info_identity h)]>);
      _ ← upd_be (set_initialized (filter (λ m', m' ≠ m)));
      s ← get_st;
      _ ← upd_re (λ r, Rest (Hooks.reorganize_hooks (initialized_modules (be s)) (hooks r))
                         (shmem r) (others r));
      lib ← lift_r (reopen (path h));
      _ ← call_if (has_deinit lib) (_Omni_deinit m);
      _ ← when (revision (magic h) <? 5)
            (h ← get_handle m;
             match loaded h with
             | None => undefined "loaded is not initialised"
             | Some l =>
                 when (l =? 1)
                   (_ ← upd_sh (set_handles <[m := HandlePrivate (magic h) (id h) (path h)
                           (refcount h) (Some 0) (switchboard h) (module_info_name h)
                           (module_info_version h) (module_info_identity h)]>);
                    call_if (has_unload lib) (_Omni_unload m))
             end);
      upd_re (λ r, Rest (hooks r) (snd (Shmem.forget_module (id h) (shmem r))) (others r))
  end.

(** The body of the loop over the modules to load. *)
Definition initialize_module (m : nat) : M state unit :=
  s ← get_st;
  if decide (m ∈ initialized_modules (be s)) then mret () else
  h ← get_handle m;
  _ ← upd_be (add_context (path h));
  lib ← lift_r (reopen (path h));
  _ ← when (revision (magic h) <? 5)
        (let n := wrap_u 32 (refcount h + 1) in
         let l := if n =? 1 then Some 1 else loaded h in
         _ ← upd_sh (set_handles <[m := HandlePrivate (magic h) (id h) (path h) n l (switchboard h)
                (module_info_name h) (module_info_version h) (module_info_identity h)]>);
         when (n =? 1) (call_if (has_load lib) (_Omni_load m)));
  _ ← call_if (has_init lib) (_Omni_init m);
  upd_be (set_initialized (λ l, append_unique l m)).

Definition ensure_backend_initialized (supported_backend IsTransactionState : bool) : M state bool :=
  s ← get_st;
  if backend_initialized (be s) then mret true
  else if negb supported_backend then mret false
  else if negb IsTransactionState then mret false
  else
    _ ← upd_be (λ x, Backend true (backend_force_reload x) [] (module_contexts x) (self x)
                       (omni_loaded x) (partition_locks x) (calls x));
    mret true.

Definition load_pending_modules (supported_backend IsTransactionState : bool)
    (pg_extension : list extension) : M state unit :=
  ok ← ensure_backend_initialized supported_backend IsTransactionState;
  if negb ok then mret () else
  s ← get_st;
  if negb (IsTransactionState && backend_force_reload (be s)) then mret () else
  _ ← upd_be (set_force_reload false);
  loaded_modules ← scan_extensions [] pg_extension;
  loaded_modules ← load_self loaded_modules;
  s ← get_st;
  let modules_to_remove := difference (initialized_modules (be s)) loaded_modules in
  let modules_to_load := difference loaded_modules (initialized_modules (be s)) in
  _ ← for_each (λ m, when (negb (bool_decide (Some m = self (be s)))) (unload_module m true))
        modules_to_remove;
  for_each initialize_module modules_to_load.

(** ** The registry *)

(** The paths of the registered modules, by handle. *)
Definition paths (x : shared) : gmap nat string := path <$> handles x.

(** Every entry leads to the handle of its path, every handle is entered, and
    no two handles have the same id. *)
Record registry_ok (x : shared) : Prop := {
  registry_entry p o : omni_modules x !! p = Some o →
    ∃ e, o = Some e ∧ paths x !! entry_pointer e = Some p;
  registry_handle m h : handles x !! m = Some h →
    (m < next_pointer x)%nat ∧ 0 < id h <= module_counter x ∧
    omni_modules x !! path h = Some (Some (Entry (wrap_s 32 (id h)) m));
  registry_ids m m' h h' : handles x !! m = Some h → handles x !! m' = Some h' →
    id h = id h' → m = m';
  registry_counter : 0 <= module_counter x < 2 ^ 32
}.

Lemma paths_lookup x m p : paths x !! m = Some p ↔ ∃ h, handles x !! m = Some h ∧ path h = p.
Proof. unfold paths. rewrite lookup_fmap, fmap_Some. split; intros (h & Hh & Hp); by exists h. Qed.

(** A path has one handle. *)
Lemma paths_inj x p m m' :
  registry_ok x → paths x !! m = Some p → paths x !! m' = Some p → m = m'.
Proof.
  intros Hok (h & Hh & Hp)%paths_lookup (h' & Hh' & Hp')%paths_lookup.
  apply (registry_handle _ Hok) in Hh as (_ & _ & E).
  apply (registry_handle _ Hok) in Hh' as (_ & _ & E').
  rewrite Hp in E. rewrite Hp', E in E'. by injection E'.
Qed.

Lemma register_module_known p mg lib s e :
  omni_modules (sh s) !! p = Some (Some e) →
  register_module p mg lib s = (Ok (entry_pointer e), s).
Proof. intros E. unfold register_module, mbind, M_bind, get_st. simpl. by rewrite E. Qed.

(** The registry with a handle added. *)
Definition with_handle (p : string) (mg : omni_magic) (info : omni_module_information)
    (x : shared) : shared :=
  let i := wrap_u 32 (module_counter x + 1) in
  Shared i (<[p := Some (Entry (wrap_s 32 i) (next_pointer x))]> (omni_modules x))
    (<[next_pointer x := new_handle p mg info i]> (handles x)) (S (next_pointer x)).

Lemma register_module_new p mg lib info s :
  omni_modules (sh s) !! p = None → module_info lib = Some info →
  register_module p mg lib s
  = (Ok (next_pointer (sh s)), State (with_handle p mg info (sh s)) (be s) (re s)).
Proof. intros E I. unfold register_module, mbind, M_bind, get_st. simpl. by rewrite E, I. Qed.

Lemma with_handle_paths p mg info x :
  paths (with_handle p mg info x) = <[next_pointer x := p]> (paths x).
Proof. unfold paths. simpl. by rewrite fmap_insert. Qed.

Lemma next_pointer_fresh x : registry_ok x → handles x !! next_pointer x = None.
Proof.
  intros Hok. destruct (handles x !! next_pointer x) as [h|] eqn:E; [|done].
  apply (registry_handle _ Hok) in E as (? & _). lia.
Qed.

Lemma with_handle_extends p mg info x : registry_ok x → paths x ⊆ paths (with_handle p mg info x).
Proof.
  intros Hok. rewrite with_handle_paths. apply insert_subseteq.
  unfold paths. by rewrite lookup_fmap, next_pointer_fresh.
Qed.

Lemma with_handle_ok p mg info x :
  registry_ok x → omni_modules x !! p = None → module_counter x + 1 < 2 ^ 32 →
  registry_ok (with_handle p mg info x).
Proof.
  intros Hok Hp Hc. pose proof (registry_counter _ Hok).
  assert (Ei : wrap_u 32 (module_counter x + 1) = module_counter x + 1)
    by (apply wrap_u_id; unfold in_u; lia).
  assert (Hold : ∀ m h, handles x !! m = Some h → m ≠ next_pointer x ∧ path h ≠ p ∧
                   0 < id h <= module_counter x).
  { intros m h Hh. apply (registry_handle _ Hok) in Hh as (? & ? & ?).
    split_and!; lia || congruence. }
  split; simpl; rewrite ?Ei; [| | |lia].
  - intros p' o [[<- <-]|[Hne E]]%lookup_insert_Some.
    + eexists. split; [done|]. rewrite with_handle_paths. apply lookup_insert_eq.
    + apply (registry_entry _ Hok) in E as (e & -> & E). eexists. split; [done|].
      eapply lookup_weaken; [done|by apply with_handle_extends].
  - intros m h [[<- <-]|[Hne E]]%lookup_insert_Some; simpl.
    + rewrite lookup_insert_eq. split_and!; [lia|lia|lia|done].
    + destruct (Hold _ _ E) as (_ & Hph & _).
      apply (registry_handle _ Hok) in E as (? & ? & ?).
      rewrite lookup_insert_ne by done. split_and!; [lia|lia|lia|done].
  - intros m m' h h' [[<- <-]|[_ E]]%lookup_insert_Some
      [[<- <-]|[_ E']]%lookup_insert_Some; simpl; intros Hid; try done.
    + apply Hold in E'. lia.
    + apply Hold in E. lia.
    + by eapply (registry_ids _ Hok).
Qed.

Lemma register_module_spec p mg lib s m s' :
  registry_ok (sh s) → module_counter (sh s) + 1 < 2 ^ 32 →
  register_module p mg lib s = (Ok m, s') →
  registry_ok (sh s') ∧ s' = State (sh s') (be s) (re s) ∧ paths (sh s') !! m = Some p ∧
  module_counter (sh s') <= module_counter (sh s) + 1 ∧
  (∀ m' h, handles (sh s) !! m' = Some h → handles (sh s') !! m' = Some h) ∧
  (s' = s ∧ is_Some (omni_modules (sh s) !! p) ∨
   omni_modules (sh s) !! p = None ∧ ∃ info, sh s' = with_handle p mg info (sh s)).
Proof.
  intros Hok Hc Hr. destruct (omni_modules (sh s) !! p) as [o|] eqn:E.
  - destruct (registry_entry _ Hok _ _ E) as (e & -> & Hp).
    rewrite (register_module_known _ _ _ _ _ E) in Hr. injection Hr as <- <-.
    split_and!; [done|by destruct s|done|lia|done|left; eauto].
  - destruct (module_info lib) as [info|] eqn:I.
    + rewrite (register_module_new _ _ _ _ _ E I) in Hr. injection Hr as <- <-. simpl.
      pose proof (registry_counter _ Hok).
      split_and!; [by apply with_handle_ok|done| | | |eauto].
      * rewrite with_handle_paths. apply lookup_insert_eq.
      * rewrite wrap_u_id by (unfold in_u; lia). lia.
      * intros m' h Hh. pose proof (next_pointer_fresh _ Hok).
        rewrite lookup_insert_ne by congruence. done.
    + unfold register_module, mbind, M_bind, get_st in Hr. simpl in Hr.
      by rewrite E, I in Hr.
Qed.
(** *** [load_module] *)

(** The three ways [load_module] returns a handle or nothing. *)
Lemma load_module_inv p w s m s' :
  load_module p w s = (Ok (Some m), s') →
  ∃ lib is_own mg, dlopen p = Some lib ∧ magic_fn lib = Some (is_own, Some mg) ∧
    register_module p mg lib s = (Ok m, s') ∧
    ∀ w' s0, load_module p w' s0 = (m ← register_module p mg lib; mret (Some m)) s0.
Proof.
  unfold load_module. destruct (dlopen p) as [lib|] eqn:D; [|done].
  destruct (magic_fn lib) as [[is_own mo]|] eqn:G; [|done].
  unfold mbind at 1, M_bind at 1, lift_r at 1. intros H.
  destruct (foreign_omni is_own mo lib) as [b|e|u] eqn:Fo; [|done|done].
  destruct b; [by destruct (IsBackgroundWorker || w)|].
  destruct mo as [mg|]; [|done].
  destruct ((size mg =? SIZEOF_omni_magic) && (version mg =? OMNI_INTERFACE_VERSION)) eqn:Z; [|done].
  exists lib, is_own, mg. split_and!; [done|done| |].
  - unfold mbind, M_bind in H. destruct (register_module p mg lib s) as [[m'|e|u] s1]; [|done|done].
    by injection H as -> ->.
  - done.
Qed.

(** A module is registered once: when [load_module] returns a handle, it
    is the one handle of that path, its id differs from those of all others,
    the handles that existed are untouched, nothing changes when the path was
    registered before, and loading the path again (from any backend) returns
    the same handle. *)
Theorem load_module_registers p w s m s' :
  registry_ok (sh s) → module_counter (sh s) + 1 < 2 ^ 32 →
  load_module p w s = (Ok (Some m), s') →
  registry_ok (sh s') ∧ be s' = be s ∧ re s' = re s ∧
  (∀ m', paths (sh s') !! m' = Some p ↔ m' = m) ∧
  (∀ m' h, handles (sh s) !! m' = Some h → handles (sh s') !! m' = Some h) ∧
  (is_Some (omni_modules (sh s) !! p) → s' = s) ∧
  (∀ w' b r, load_module p w' (State (sh s') b r) = (Ok (Some m), State (sh s') b r)).
Proof.
  intros Hok Hc (lib & io & mg & _ & _ & Hr & Hw)%load_module_inv.
  destruct (register_module_spec _ _ _ _ _ _ Hok Hc Hr) as (Hok' & Es & Hp & _ & Hh & Hcase).
  split_and!; [done|by rewrite Es|by rewrite Es| |done| |].
  - intros m'. split; [intros Hp'; by eapply paths_inj|by intros ->].
  - intros [o Ho]. destruct Hcase as [[-> _]|[E _]]; [done|congruence].
  - intros w' b r. rewrite Hw.
    apply paths_lookup in Hp as (h & Hm & <-).
    destruct (registry_handle _ Hok' _ _ Hm) as (_ & _ & E).
    unfold mbind, M_bind. by rewrite (register_module_known _ _ _ (State (sh s') b r) _ E).
Qed.

(** What a library must be for [load_module] to answer: without magic, or with
    a magic of revision 5 or later and module information with an identity
    that only the running [omni] shares. *)
Definition library_ok (lib : library) : Prop :=
  match magic_fn lib with
  | None => True
  | Some (is_own, m) => ∃ mg info i,
      m = Some mg ∧ 5 <= revision mg ∧ module_info lib = Some info ∧
      mi_identity info = Some i ∧ (i = own_identity → is_own = true)
  end.

(** The libraries that are modules. *)
Definition loads (p : string) : bool :=
  match dlopen p with
  | Some lib =>
      match magic_fn lib with
      | Some (_, Some mg) => (size mg =? SIZEOF_omni_magic) && (version mg =? OMNI_INTERFACE_VERSION)
      | _ => false
      end
  | None => false
  end.

(** The registered modules are of revision 5 or later, and their libraries are
    there. *)
Definition modern (x : shared) : Prop :=
  ∀ m h, handles x !! m = Some h → 5 <= revision (magic h) ∧ is_Some (dlopen (path h)).

Lemma foreign_omni_ok is_own mg info i lib :
  module_info lib = Some info → mi_identity info = Some i → (i = own_identity → is_own = true) →
  foreign_omni is_own (Some mg) lib = Ok false.
Proof.
  intros Hi Hid Ho. unfold foreign_omni, strcmp_eq. rewrite Hi, Hid.
  rewrite bool_decide_false, andb_false_r by done. simpl.
  unfold mbind, result_bind. destruct (String.eqb_spec i own_identity) as [E|]; [|done].
  by rewrite (Ho E).
Qed.

Hypothesis libraries_ok : ∀ p lib, dlopen p = Some lib → library_ok lib.

Lemma load_module_spec p w s :
  registry_ok (sh s) → modern (sh s) → module_counter (sh s) + 1 < 2 ^ 32 →
  ∃ o s', load_module p w s = (Ok o, s') ∧ s' = State (sh s') (be s) (re s) ∧
    registry_ok (sh s') ∧ modern (sh s') ∧ paths (sh s) ⊆ paths (sh s') ∧
    module_counter (sh s') <= module_counter (sh s) + 1 ∧
    match o with
    | Some m => loads p = true ∧ paths (sh s') !! m = Some p
    | None => loads p = false
    end.
Proof.
  intros Hok Hmod Hc. destruct (loads p) eqn:L.
  - unfold loads in L. destruct (dlopen p) as [lib|] eqn:D; [|done].
    pose proof (libraries_ok _ _ D) as Hlib. unfold library_ok in Hlib.
    destruct (magic_fn lib) as [[io mo]|] eqn:G; [|done].
    destruct Hlib as (mg & info & i & -> & Hrev & Hi & Hid & Ho).
    assert (Hr : ∃ m s', register_module p mg lib s = (Ok m, s')).
    { destruct (omni_modules (sh s) !! p) as [o|] eqn:E.
      - destruct (registry_entry _ Hok _ _ E) as (e & -> & _). eauto using register_module_known.
      - eauto using register_module_new. }
    destruct Hr as (m & s' & Hr). exists (Some m), s'.
    destruct (register_module_spec _ _ _ _ _ _ Hok Hc Hr) as (Hok' & Es & Hp & Hcnt & Hh & Hcase).
    split_and!; try done.
    + unfold load_module. rewrite D, G.
      rewrite (lift_bind _ _ _ _ (foreign_omni_ok io mg info i lib Hi Hid Ho)), L.
      by rewrite (bind_ok _ _ _ _ _ Hr).
    + destruct Hcase as [[-> _]|(_ & info' & ->)]; [done|].
      intros m' h. simpl.
      intros [[<- <-]|[_ E]]%lookup_insert_Some; simpl; [by rewrite D|by apply Hmod in E].
    + apply map_subseteq_spec. intros m' p' (h & Hm & Hp')%paths_lookup.
      apply paths_lookup. eauto.
  - exists None, s. split_and!; try done; [|by destruct s|lia].
    unfold loads in L. unfold load_module. destruct (dlopen p) as [lib|] eqn:D; [|done].
    pose proof (libraries_ok _ _ D) as Hlib. unfold library_ok in Hlib.
    destruct (magic_fn lib) as [[io mo]|] eqn:G; [|done].
    destruct Hlib as (mg & info & i & -> & Hrev & Hi & Hid & Ho).
    by rewrite (lift_bind _ _ _ _ (foreign_omni_ok io mg info i lib Hi Hid Ho)), L.
Qed.

(** *** The scan of [pg_extension] *)

Lemma elem_of_append_unique m l x : m ∈ append_unique l x ↔ m ∈ l ∨ m = x.
Proof. unfold append_unique. case_decide; set_solver. Qed.

Lemma append_unique_NoDup l x : NoDup l → NoDup (append_unique l x).
Proof.
  intros Hl. unfold append_unique. case_decide; [done|].
  apply list.NoDup_app. split_and!; [done|set_solver|apply NoDup_singleton].
Qed.

Lemma elem_of_concat_unique m l l' : m ∈ concat_unique l l' ↔ m ∈ l ∨ m ∈ l'.
Proof.
  unfold concat_unique. revert l. induction l' as [|x l' IH]; intros l; simpl; [set_solver|].
  rewrite IH, elem_of_append_unique. set_solver.
Qed.

Lemma concat_unique_NoDup l l' : NoDup l → NoDup (concat_unique l l').
Proof.
  unfold concat_unique. revert l. induction l' as [|x l' IH]; intros l Hl; simpl; [done|].
  by apply IH, append_unique_NoDup.
Qed.

(** The path of the module of an extension. *)
Definition ext_path (ext : extension) : option string :=
  v ← extversion ext;
  pathname ← get_extension_module_pathname (extname ext) v;
  match substitute_libpath_macro pathname with Ok p => Some p | _ => None end.

(** Its module path names no unknown macro and fits into a path. *)
Definition ext_ok (ext : extension) : Prop :=
  ∀ v pathname, extversion ext = Some v →
    get_extension_module_pathname (extname ext) v = Some pathname →
    ∃ p, substitute_libpath_macro pathname = Ok p ∧ Z.of_nat (String.length p) < PATH_MAX.

(** The paths of the modules of the extensions. *)
Definition wanted (exts : list extension) : list string :=
  filter (λ p, loads p = true) (omap ext_path exts).

(** [s'] is reached from [s] by registering at most [n] modules. *)
Definition grown (s s' : state) (n : Z) : Prop :=
  s' = State (sh s') (be s) (re s) ∧ registry_ok (sh s') ∧ modern (sh s') ∧
  paths (sh s) ⊆ paths (sh s') ∧ module_counter (sh s') <= module_counter (sh s) + n.

Lemma grown_trans s s1 s2 n n' : grown s s1 n → grown s1 s2 n' → grown s s2 (n + n').
Proof.
  intros (E & _ & _ & Hp & Hc) (E' & Hok & Hm & Hp' & Hc'). unfold grown.
  split_and!; [|done|done|by etrans|lia].
  rewrite E'. by rewrite E.
Qed.

Lemma grown_refl s n : 0 <= n → registry_ok (sh s) → modern (sh s) → grown s s n.
Proof. intros. unfold grown. split_and!; [by destruct s|done..|lia]. Qed.

Lemma load_module_grown p w s :
  registry_ok (sh s) → modern (sh s) → module_counter (sh s) + 1 < 2 ^ 32 →
  ∃ o s', load_module p w s = (Ok o, s') ∧ grown s s' 1 ∧
    match o with
    | Some m => loads p = true ∧ paths (sh s') !! m = Some p
    | None => loads p = false
    end.
Proof.
  intros Hok Hm Hc. destruct (load_module_spec p w s Hok Hm Hc) as (o & s' & ? & ? & ? & ? & ? & ? & ?).
  exists o, s'. done.
Qed.

Lemma consider_ext_spec ext s :
  ext_ok ext → registry_ok (sh s) → modern (sh s) → module_counter (sh s) + 1 < 2 ^ 32 →
  ∃ l s', consider_ext ext s = (Ok l, s') ∧ grown s s' 1 ∧
    (∀ m, m ∈ l ↔ ∃ p, p ∈ wanted [ext] ∧ paths (sh s') !! m = Some p) ∧
    (∀ p, p ∈ wanted [ext] → ∃ m, paths (sh s') !! m = Some p).
Proof.
  intros He Hok Hm Hc. unfold ext_ok in He. unfold wanted, consider_ext. simpl. unfold ext_path.
  destruct (extversion ext) as [v|] eqn:V; simpl.
  2:{ exists [], s. split_and!; [done|apply grown_refl; [lia|done|done]|set_solver|set_solver]. }
  destruct (get_extension_module_pathname (extname ext) v) as [pn|] eqn:P; simpl.
  2:{ exists [], s. split_and!; [done|apply grown_refl; [lia|done|done]|set_solver|set_solver]. }
  destruct (He _ _ eq_refl P) as (p & Hs & Hlen). rewrite Hs.
  rewrite (lift_bind _ _ _ _ eq_refl), (proj2 (Z.leb_gt _ _) Hlen).
  destruct (load_module_grown p (negb (added_now ext)) s Hok Hm Hc) as (o & s' & Hl & Hg & Ho).
  rewrite (bind_ok _ _ _ _ _ Hl).
  exists (match o with Some m => [m] | None => [] end), s'. rewrite filter_cons.
  destruct o as [m'|]; [destruct Ho as [-> Hp]|rewrite Ho; simpl; set_solver].
  split_and!; [done|done| |]; simpl.
  - intros m. rewrite list_elem_of_singleton. destruct Hg as (_ & Hok' & _). split.
    + intros ->. exists p. set_solver.
    + intros (p' & Hin & Hp'). assert (p' = p) as -> by set_solver. by eapply paths_inj.
  - intros p' Hin. assert (p' = p) as -> by set_solver. eauto.
Qed.

Lemma wanted_cons ext exts : wanted (ext :: exts) = wanted [ext] ++ wanted exts.
Proof.
  unfold wanted. rewrite <- list.filter_app. f_equal. simpl. by destruct (ext_path ext).
Qed.

(** The handles of some paths, before and after registering more. *)
Lemma handles_of_paths x x' (P : string → Prop) m :
  registry_ok x' → paths x ⊆ paths x' → (∀ p, P p → ∃ m', paths x !! m' = Some p) →
  (∃ p, P p ∧ paths x !! m = Some p) ↔ (∃ p, P p ∧ paths x' !! m = Some p).
Proof.
  intros Hok Hsub Hex. split; intros (p & HP & Hm).
  - exists p. split; [done|]. by eapply lookup_weaken.
  - destruct (Hex p HP) as (m' & Hm'). exists p. split; [done|].
    pose proof (lookup_weaken _ _ _ _ Hm' Hsub) as H'.
    by rewrite (paths_inj _ _ _ _ Hok Hm H').
Qed.

Lemma scan_extensions_spec exts : ∀ L s,
  Forall ext_ok exts → registry_ok (sh s) → modern (sh s) →
  module_counter (sh s) + Z.of_nat (length exts) < 2 ^ 32 → NoDup L →
  ∃ L' s', scan_extensions L exts s = (Ok L', s') ∧ grown s s' (Z.of_nat (length exts)) ∧ NoDup L' ∧
    (∀ m, m ∈ L' ↔ m ∈ L ∨ ∃ p, p ∈ wanted exts ∧ paths (sh s') !! m = Some p) ∧
    (∀ p, p ∈ wanted exts → ∃ m, paths (sh s') !! m = Some p).
Proof.
  induction exts as [|ext exts IH]; intros L s He Hok Hm Hc Hnd.
  { exists L, s. split_and!; [done|by apply grown_refl|done|set_solver|set_solver]. }
  apply Forall_cons_1 in He as [He Hes]. simpl in Hc |- *.
  destruct (consider_ext_spec ext s He Hok Hm) as (l & s1 & Hl & G1 & Hin1 & Hex1); [lia|].
  rewrite (bind_ok _ _ _ _ _ Hl). destruct G1 as (E1 & Hok1 & Hm1 & Hp1 & Hc1) eqn:G1'.
  destruct (IH (concat_unique L l) s1 Hes Hok1 Hm1) as (L' & s' & HL & G2 & Hnd' & Hin & Hex);
    [lia|by apply concat_unique_NoDup|].
  clear G1'. pose proof G2 as (_ & Hok' & _ & Hp2 & _).
  exists L', s'. split_and!; [done| |done| |].
  - replace (Z.of_nat (S (length exts))) with (1 + Z.of_nat (length exts)) by lia.
    eapply grown_trans; [|done]. done.
  - intros m. rewrite Hin, elem_of_concat_unique, Hin1.
    rewrite (handles_of_paths (sh s1) (sh s') (λ p, p ∈ wanted [ext])) by done.
    rewrite (wanted_cons ext exts). setoid_rewrite elem_of_app. split.
    + intros [[?|(p & ? & ?)]|(p & ? & ?)]; eauto 10.
    + intros [?|(p & [?|?] & ?)]; eauto 10.
  - intros p. rewrite wanted_cons. intros [Hp|Hp]%elem_of_app; [|eauto].
    destruct (Hex1 _ Hp) as (m & Hmp). exists m. by eapply lookup_weaken.
Qed.

(** The path of the running [omni] is loaded once per backend. *)
Definition self_path (omni_loaded : bool) : list string :=
  if omni_loaded then [] else [get_omni_library_name].

Lemma load_self_spec L s (P : string → Prop) :
  registry_ok (sh s) → modern (sh s) → module_counter (sh s) + 1 < 2 ^ 32 →
  loads get_omni_library_name = true → NoDup L →
  (∀ m, m ∈ L ↔ ∃ p, P p ∧ paths (sh s) !! m = Some p) →
  (∀ p, P p → ∃ m, paths (sh s) !! m = Some p) →
  ∃ L' s' me, load_self L s = (Ok L', s') ∧
    grown (State (sh s) (if omni_loaded (be s) then be s else set_self (Some me) (be s)) (re s)) s' 1 ∧
    (omni_loaded (be s) = false → paths (sh s') !! me = Some get_omni_library_name) ∧ NoDup L' ∧
    (∀ m, m ∈ L' ↔ ∃ p, (P p ∨ p ∈ self_path (omni_loaded (be s))) ∧ paths (sh s') !! m = Some p) ∧
    (∀ p, P p → ∃ m, paths (sh s') !! m = Some p).
Proof.
  intros Hok Hm Hc Hself Hnd Hin Hex. unfold load_self, mbind at 1, M_bind at 1, get_st at 1.
  destruct (omni_loaded (be s)) eqn:O; simpl.
  { exists L, s, 0%nat. destruct s. split_and!; [done|by apply grown_refl|done|done|set_solver|done]. }
  destruct (load_module_grown get_omni_library_name false s Hok Hm Hc) as (o & s1 & Hl & G & Ho).
  rewrite (bind_ok _ _ _ _ _ Hl). destruct o as [me|]; [|congruence]. destruct Ho as [_ Hme].
  destruct G as (E1 & Hok1 & Hm1 & Hp1 & Hc1).
  exists (append_unique L me), (State (sh s1) (set_self (Some me) (be s)) (re s)), me.
  split_and!; simpl; [by rewrite E1| |done|by apply append_unique_NoDup| |].
  - unfold grown. simpl. done.
  - intros m. rewrite elem_of_append_unique, Hin, (handles_of_paths (sh s) (sh s1) P) by done.
    split.
    + intros [(p & ? & ?)| ->]; [by exists p; eauto|]. eexists. split; [right; apply list_elem_of_here|done].
    + intros (p & [HP| ->%list_elem_of_singleton] & Hmp); [left; eauto|right; by eapply paths_inj].
  - intros p HP. destruct (Hex p HP) as (m & Hmp). exists m. by eapply lookup_weaken.
Qed.

(** *** Unloading and initializing modules *)

(** The callbacks of the modules succeed. *)
Hypothesis run_ok : ∀ c r, fst (run c r) = Ok ().

(** The module exports the callback. *)
Definition exporting (f : library → bool) (x : shared) (m : nat) : bool :=
  match paths x !! m ≫= dlopen with Some lib => f lib | None => false end.

Definition calls_of (f : library → bool) (c : nat → call) (x : shared) (l : list nat) : list call :=
  c <$> filter (λ m, exporting f x m = true) l.
Definition deinit_calls : shared → list nat → list call := calls_of has_deinit _Omni_deinit.
Definition init_calls : shared → list nat → list call := calls_of has_init _Omni_init.

Definition log_calls (cs : list call) (x : backend) : backend :=
  Backend (backend_initialized x) (backend_force_reload x) (initialized_modules x)
    (module_contexts x) (self x) (omni_loaded x) (partition_locks x) (calls x ++ cs).
Definition add_contexts (ps : list string) (x : backend) : backend :=
  Backend (backend_initialized x) (backend_force_reload x) (initialized_modules x)
    (ps ++ module_contexts x) (self x) (omni_loaded x) (partition_locks x) (calls x).

(** Two registries that differ in what the loader counts in their handles. *)
Definition same_registry (x x' : shared) : Prop :=
  registry_ok x' ∧ modern x' ∧ paths x' = paths x.

Lemma same_registry_refl x : registry_ok x → modern x → same_registry x x.
Proof. done. Qed.

Lemma set_handle_same x m h h' :
  registry_ok x → modern x → handles x !! m = Some h →
  id h' = id h → path h' = path h → magic h' = magic h →
  same_registry x (set_handles <[m := h']> x).
Proof.
  intros Hok Hm Hh Hid Hp Hmg.
  assert (Hold : ∀ k g, <[m := h']> (handles x) !! k = Some g →
    ∃ g', handles x !! k = Some g' ∧ id g = id g' ∧ path g = path g' ∧ magic g = magic g').
  { intros k g [[<- <-]|[_ E]]%lookup_insert_Some; eauto. }
  assert (Ep : paths (set_handles <[m := h']> x) = paths x).
  { unfold paths. simpl. rewrite fmap_insert. apply insert_id.
    by rewrite lookup_fmap, Hh, Hp. }
  split_and!; [split|..]; [| | | | |done]; simpl.
  - intros p o E. rewrite Ep. by apply (registry_entry _ Hok).
  - intros k g (g' & E & Ei & Epa & _)%Hold. rewrite Ei, Epa. by apply (registry_handle _ Hok).
  - intros k k' g g' (g1 & E1 & -> & _)%Hold (g2 & E2 & -> & _)%Hold. by apply (registry_ids _ Hok).
  - apply (registry_counter _ Hok).
  - intros k g (g' & E & _ & Epa & Em)%Hold. rewrite Em, Epa. by apply Hm in E.
Qed.

Lemma call_if_spec b c s :
  ∃ r, call_if b c s = (Ok (), State (sh s) (log_calls (if b then [c] else []) (be s)) r).
Proof.
  unfold call_if, when. destruct b.
  - exists (snd (run c (re s))). unfold mbind, M_bind, upd_be, modify_st, run_call. simpl.
    pose proof (run_ok c (re s)) as E. destruct (run c (re s)) as [r re']. simpl in E |- *. by subst.
  - exists (re s). unfold log_calls. rewrite app_nil_r. by destruct s as [? [] ?].
Qed.

(** The handle and the library of a registered module. *)
Lemma registered_module x m p :
  registry_ok x → modern x → paths x !! m = Some p →
  ∃ h lib, handles x !! m = Some h ∧ path h = p ∧ (revision (magic h) <? 5) = false ∧
    dlopen p = Some lib ∧ (∀ f, exporting f x m = f lib) ∧
    ∃ e, omni_modules x !! p = Some (Some e).
Proof.
  intros Hok Hm Hp. pose proof Hp as (h & Hh & Ep)%paths_lookup.
  destruct (Hm _ _ Hh) as [Hrev [lib Hlib]]. rewrite Ep in Hlib. exists h, lib.
  split_and!; [done|done|apply Z.ltb_ge; lia|done| |].
  - intros f. unfold exporting. rewrite Hp. simpl. by rewrite Hlib.
  - apply (registry_handle _ Hok) in Hh as (_ & _ & E). rewrite Ep in E. eauto.
Qed.

Lemma get_handle_ok m h s : handles (sh s) !! m = Some h → get_handle m s = (Ok h, s).
Proof. intros E. unfold get_handle. rewrite get_bind. by rewrite E. Qed.

Lemma unload_module_spec m p missing_ok s :
  registry_ok (sh s) → modern (sh s) → paths (sh s) !! m = Some p → p ∈ module_contexts (be s) →
  ∃ s', unload_module m missing_ok s = (Ok (), s') ∧ same_registry (sh s) (sh s') ∧
    be s' = log_calls (deinit_calls (sh s) [m])
              (set_initialized (filter (λ m', m' ≠ m)) (be s)).
Proof.
  intros Hok Hm Hp Hctx.
  destruct (registered_module _ _ _ Hok Hm Hp) as (h & lib & Hh & <- & Hrev & Hlib & Hexp & e & He).
  unfold unload_module, has_context, upd_sh, upd_be, upd_re.
  rewrite (bind_ok _ _ _ _ _ (get_handle_ok _ _ _ Hh)), get_bind, He, bool_decide_true by done. simpl.
  rewrite !modify_bind, get_bind, modify_bind.
  rewrite (lift_bind _ _ lib) by (unfold reopen; by rewrite Hlib).
  edestruct (call_if_spec (has_deinit lib) (_Omni_deinit m)) as [r E].
  rewrite (bind_ok _ _ _ _ _ E). simpl. rewrite Hrev. simpl.
  eexists. split; [done|]. simpl. split; [by apply (set_handle_same _ _ h)|].
  f_equal. unfold deinit_calls, calls_of. rewrite filter_cons, Hexp. by destruct (has_deinit lib).
Qed.

Lemma initialize_module_spec m p s :
  registry_ok (sh s) → modern (sh s) → paths (sh s) !! m = Some p →
  m ∉ initialized_modules (be s) →
  ∃ s', initialize_module m s = (Ok (), s') ∧ same_registry (sh s) (sh s') ∧
    be s' = log_calls (init_calls (sh s) [m])
              (set_initialized (λ l, l ++ [m]) (add_contexts [p] (be s))).
Proof.
  intros Hok Hm Hp Hnot.
  destruct (registered_module _ _ _ Hok Hm Hp) as (h & lib & Hh & <- & Hrev & Hlib & Hexp & _).
  unfold initialize_module, upd_be. rewrite get_bind, decide_False by done.
  rewrite (bind_ok _ _ _ _ _ (get_handle_ok _ _ _ Hh)), modify_bind.
  rewrite (lift_bind _ _ lib) by (unfold reopen; by rewrite Hlib).
  rewrite Hrev. simpl.
  edestruct (call_if_spec (has_init lib) (_Omni_init m)) as [r E].
  unfold mbind at 1, M_bind at 1. simpl. rewrite (bind_ok _ _ _ _ _ E).
  eexists. split; [done|]. simpl. split; [done|].
  unfold set_initialized, log_calls, init_calls, calls_of. simpl. rewrite filter_cons, Hexp.
  unfold append_unique. rewrite decide_False by done. by destruct (has_init lib).
Qed.

Lemma calls_of_cons f c x x' m l :
  paths x' = paths x → calls_of f c x [m] ++ calls_of f c x' l = calls_of f c x (m :: l).
Proof.
  intros E. unfold calls_of.
  assert (E' : ∀ m, exporting f x' m = exporting f x m) by (intros; unfold exporting; by rewrite E).
  rewrite <- fmap_app. f_equal. change (m :: l) with ([m] ++ l). rewrite list.filter_app. f_equal.
  apply list_filter_iff. intros m'. by rewrite E'.
Qed.

Lemma same_registry_trans x x1 x2 : same_registry x x1 → same_registry x1 x2 → same_registry x x2.
Proof. intros (_ & _ & E) (? & ? & E'). unfold same_registry. split_and!; [done|done|congruence]. Qed.

Lemma filter_all {A} (P : A → Prop) `{∀ x, Decision (P x)} (l : list A) :
  (∀ x, x ∈ l → P x) → filter P l = l.
Proof.
  induction l as [|x l IH]; intros Hl; [done|].
  rewrite filter_cons_True by set_solver. f_equal. apply IH. set_solver.
Qed.

Lemma unload_modules_spec missing_ok l : ∀ s,
  registry_ok (sh s) → modern (sh s) →
  (∀ m, m ∈ l → ∃ p, paths (sh s) !! m = Some p ∧ p ∈ module_contexts (be s)) →
  ∃ s', for_each (λ m, unload_module m missing_ok) l s = (Ok (), s') ∧ same_registry (sh s) (sh s') ∧
    be s' = log_calls (deinit_calls (sh s) l) (set_initialized (filter (λ m, m ∉ l)) (be s)).
Proof.
  induction l as [|m l IH]; intros s Hok Hm Hl; simpl.
  { exists s. split_and!; [done|done|]. unfold set_initialized, log_calls, deinit_calls. simpl.
    rewrite app_nil_r, filter_all by set_solver. by destruct s as [? [] ?]. }
  destruct (Hl m) as (p & Hp & Hctx); [set_solver|].
  destruct (unload_module_spec m p missing_ok s Hok Hm Hp Hctx) as (s1 & E1 & S1 & B1).
  rewrite (bind_ok _ _ _ _ _ E1). pose proof S1 as (Hok1 & Hm1 & Hp1).
  destruct (IH s1 Hok1 Hm1) as (s' & E & S & B).
  { intros m' Hm'. rewrite Hp1, B1. simpl. apply Hl. set_solver. }
  exists s'. split_and!; [done|by eapply same_registry_trans|].
  unfold deinit_calls in *. rewrite B, B1, <- (calls_of_cons _ _ _ _ m l Hp1).
  unfold log_calls, set_initialized. simpl. rewrite list_filter_filter, <- app_assoc. f_equal.
  apply list_filter_iff. intros m'. set_solver.
Qed.

Lemma initialize_modules_spec l : ∀ s,
  registry_ok (sh s) → modern (sh s) → NoDup l →
  (∀ m, m ∈ l → is_Some (paths (sh s) !! m) ∧ m ∉ initialized_modules (be s)) →
  ∃ s' ps, for_each initialize_module l s = (Ok (), s') ∧ same_registry (sh s) (sh s') ∧
    be s' = log_calls (init_calls (sh s) l)
              (set_initialized (λ l', l' ++ l) (add_contexts ps (be s))) ∧
    (∀ m p, m ∈ l → paths (sh s) !! m = Some p → p ∈ ps).
Proof.
  induction l as [|m l IH]; intros s Hok Hm Hnd Hl; simpl.
  { exists s, []. split_and!; [done|done| |set_solver].
    unfold set_initialized, log_calls, init_calls. simpl. rewrite !app_nil_r. by destruct s as [? [] ?]. }
  apply list.NoDup_cons in Hnd as [Hnot Hnd]. destruct (Hl m) as ([p Hp] & Hni); [set_solver|].
  destruct (initialize_module_spec m p s Hok Hm Hp Hni) as (s1 & E1 & S1 & B1).
  rewrite (bind_ok _ _ _ _ _ E1). pose proof S1 as (Hok1 & Hm1 & Hp1).
  destruct (IH s1 Hok1 Hm1 Hnd) as (s' & ps & E & S & B & Hps).
  { intros m' Hm'. rewrite Hp1, B1. simpl. destruct (Hl m'); [set_solver|]. set_solver. }
  exists s', (ps ++ [p]). split_and!; [done|by eapply same_registry_trans| |].
  - unfold init_calls in *. rewrite B, B1, <- (calls_of_cons _ _ _ _ m l Hp1).
    unfold log_calls, set_initialized. simpl. by rewrite <- !app_assoc.
  - intros m' p' [->|Hin]%elem_of_cons Hp'; [set_solver|].
    apply elem_of_app. left. eapply Hps; [done|]. by rewrite Hp1.
Qed.

(** *** [load_pending_modules] *)

(** Every module initialized here is registered and has its context, and
    [omni] itself is among them once it was loaded. *)
Record backend_ok (s : state) : Prop := {
  backend_start : backend_initialized (be s) = false → initialized_modules (be s) = [];
  backend_modules m : m ∈ initialized_modules (be s) →
    ∃ p, paths (sh s) !! m = Some p ∧ p ∈ module_contexts (be s);
  backend_modules_once : NoDup (initialized_modules (be s));
  backend_self : omni_loaded (be s) = true →
    ∃ m, self (be s) = Some m ∧ paths (sh s) !! m = Some get_omni_library_name ∧
         m ∈ initialized_modules (be s)
}.

Lemma for_each_when {S A} (b : A → bool) (f : A → M S unit) l s :
  for_each (λ x, when (b x) (f x)) l s = for_each f (filter (λ x, b x = true) l) s.
Proof.
  revert s. induction l as [|x l IH]; intros s; [done|]. simpl. rewrite filter_cons.
  unfold when. destruct (b x); simpl; [|apply IH].
  unfold mbind, M_bind. destruct (f x s) as [[]]; auto.
Qed.

(** The part of [load_pending_modules] that registers modules. *)
Lemma find_modules_spec exts s :
  Forall ext_ok exts → registry_ok (sh s) → modern (sh s) → backend_ok s →
  loads get_omni_library_name = true →
  module_counter (sh s) + Z.of_nat (length exts) + 1 < 2 ^ 32 →
  ∃ L s' me, (l ← scan_extensions [] exts; load_self l) s = (Ok L, s') ∧
    grown (State (sh s) (if omni_loaded (be s) then be s else set_self (Some me) (be s)) (re s)) s'
      (Z.of_nat (length exts) + 1) ∧
    NoDup L ∧ self (be s') = Some me ∧ paths (sh s') !! me = Some get_omni_library_name ∧
    (me ∈ L ∨ me ∈ initialized_modules (be s)) ∧
    (∀ m, m ∈ L ↔ ∃ p, (p ∈ wanted exts ∨ p ∈ self_path (omni_loaded (be s))) ∧
                       paths (sh s') !! m = Some p).
Proof.
  intros He Hok Hm Hb Hself Hc.
  destruct (scan_extensions_spec exts [] s He Hok Hm) as (L1 & s1 & E1 & G1 & N1 & I1 & X1);
    [lia|constructor|].
  rewrite (bind_ok _ _ _ _ _ E1). destruct G1 as (B1 & Hok1 & Hm1 & P1 & C1).
  assert (Eb : be s1 = be s) by by rewrite B1.
  destruct (load_self_spec L1 s1 (λ p, p ∈ wanted exts) Hok1 Hm1) as
    (L & s' & me0 & E & G & Hme & N & I & _); [lia|done|done| |done|].
  { intros m. rewrite I1. set_solver. }
  rewrite Eb in G, Hme, I. assert (Er : re s1 = re s) by by rewrite B1. rewrite Er in G.
  destruct G as (B & Hok' & Hm' & P & C). simpl in *.
  destruct (omni_loaded (be s)) eqn:O.
  - destruct (backend_self _ Hb O) as (me & Sme & Pme & Ime).
    exists L, s', me. split_and!; try done.
    + unfold grown. simpl. split_and!; [done|done|done|by etrans|lia].
    + by rewrite B.
    + eapply lookup_weaken; [done|by etrans].
    + by right.
  - exists L, s', me0. split_and!; try done.
    + unfold grown. simpl. split_and!; [done|done|done|by etrans|lia].
    + by rewrite B.
    + by apply Hme.
    + left. apply I. exists get_omni_library_name. split; [right; apply list_elem_of_here|by apply Hme].
Qed.

Lemma calls_of_paths f c x x' l : paths x' = paths x → calls_of f c x' l = calls_of f c x l.
Proof.
  intros E. unfold calls_of. f_equal. apply list_filter_iff. intros m. unfold exporting. by rewrite E.
Qed.

(** What the lists of modules to remove and to load make of the modules
    initialized; [me] is [omni] itself. *)
Lemma reconciled_modules (init L : list nat) me :
  me ∈ L ∨ me ∈ init →
  let remove := filter (λ m, negb (bool_decide (Some m = Some me)) = true) (difference init L) in
  let init' := filter (λ m, m ∉ remove) init ++ difference L init in
  (∀ m, m ∈ init' ↔ m ∈ L ∨ m = me) ∧
  filter (λ m, m ∉ init') init = remove ∧ filter (λ m, m ∉ init) init' = difference L init.
Proof.
  intros Hme. cbv zeta. unfold difference.
  assert (Hin : ∀ m, m ∈ filter (λ m, m ∉ filter (λ m, negb (bool_decide (Some m = Some me)) = true)
      (filter (λ m, m ∉ L) init)) init ++ filter (λ m, m ∉ init) L ↔ m ∈ L ∨ m = me).
  { intros m. rewrite elem_of_app, !list_elem_of_filter, negb_true_iff, bool_decide_eq_false.
    destruct (decide (m ∈ L)), (decide (m ∈ init)), (decide (m = me)); naive_solver. }
  split_and!; [done| |].
  - symmetry. etrans; [apply list_filter_filter|]. apply list_filter_iff. intros m.
    rewrite Hin, negb_true_iff, bool_decide_eq_false. naive_solver.
  - rewrite list.filter_app, (list_filter_filter_r _ _ L) by done.
    replace (filter _ (filter _ init)) with (@nil nat); [done|].
    symmetry. apply elem_of_nil_inv. intros m. rewrite !list_elem_of_filter. naive_solver.
Qed.

Lemma ensure_backend_initialized_spec s :
  backend_ok s → ∃ b, ensure_backend_initialized true true s = (Ok true, State (sh s) b (re s)) ∧
    b = Backend true (backend_force_reload (be s)) (initialized_modules (be s))
          (module_contexts (be s)) (self (be s)) (omni_loaded (be s)) (partition_locks (be s))
          (calls (be s)).
Proof.
  intros Hb. eexists. split; [|done]. unfold ensure_backend_initialized. rewrite get_bind.
  destruct (backend_initialized (be s)) eqn:I; simpl.
  - destruct s as [? [] ?]. simpl in *. by rewrite I.
  - rewrite (backend_start _ Hb I). done.
Qed.

(** The modules found are initialized and the others deinitialized. *)
Lemma switch_modules_spec L me s :
  registry_ok (sh s) → modern (sh s) → NoDup L → NoDup (initialized_modules (be s)) →
  self (be s) = Some me → me ∈ L ∨ me ∈ initialized_modules (be s) →
  (∀ m, m ∈ L → is_Some (paths (sh s) !! m)) →
  (∀ m, m ∈ initialized_modules (be s) →
    ∃ p, paths (sh s) !! m = Some p ∧ p ∈ module_contexts (be s)) →
  let init := initialized_modules (be s) in
  ∃ s' init' ps,
    (_ ← for_each (λ m, when (negb (bool_decide (Some m = self (be s)))) (unload_module m true))
           (difference init L);
     for_each initialize_module (difference L init)) s = (Ok (), s') ∧
    same_registry (sh s) (sh s') ∧ NoDup init' ∧ (∀ m, m ∈ init' ↔ m ∈ L ∨ m = me) ∧
    (∀ m, m ∈ init' → ∃ p, paths (sh s') !! m = Some p ∧ p ∈ ps ++ module_contexts (be s)) ∧
    be s' = log_calls (deinit_calls (sh s') (filter (λ m, m ∉ init') init) ++
                       init_calls (sh s') (filter (λ m, m ∉ init) init'))
              (set_initialized (λ _, init') (add_contexts ps (be s))).
Proof.
  intros Hok Hm NL Ninit Hself Hme HL Hinit init.
  destruct (reconciled_modules init L me Hme) as (Hin & Erem & Enew).
  rewrite Hself. set (remove := filter _ (difference init L)) in *.
  destruct (unload_modules_spec true remove s Hok Hm) as (s1 & E1 & S1 & B1).
  { intros m [_ [_ Hm']%list_elem_of_filter]%list_elem_of_filter. by apply Hinit. }
  unfold remove in E1. rewrite <- (for_each_when (λ m, negb (bool_decide (Some m = Some me)))) in E1.
  rewrite (bind_ok _ _ _ _ _ E1). pose proof S1 as (Hok1 & Hm1 & P1).
  assert (I1 : initialized_modules (be s1) = filter (λ m, m ∉ remove) init) by by rewrite B1.
  destruct (initialize_modules_spec (difference L init) s1 Hok1 Hm1) as (s' & ps & E & S' & B & Hps).
  { by apply list.NoDup_filter. }
  { intros m [Hn Hl]%list_elem_of_filter. rewrite P1, I1. split; [by apply HL|].
    by intros [_ ?]%list_elem_of_filter. }
  pose proof S' as (Hok' & Hm2 & P').
  exists s', (filter (λ m, m ∉ remove) init ++ difference L init), ps.
  split_and!; [done|by eapply same_registry_trans| |done| |].
  - apply list.NoDup_app. split_and!; [by apply list.NoDup_filter| |by apply list.NoDup_filter].
    intros m [_ ?]%list_elem_of_filter [? _]%list_elem_of_filter. done.
  - intros m Hm'. rewrite P'. apply elem_of_app in Hm' as [[_ Hm']%list_elem_of_filter|Hm'].
    + rewrite P1. destruct (Hinit m Hm') as (p & ? & ?). exists p.
      split; [done|]. apply elem_of_app. by right.
    + pose proof Hm' as [_ Hml]%list_elem_of_filter. destruct (HL m Hml) as [p Hp].
      exists p. rewrite P1. split; [done|]. apply elem_of_app. left.
      eapply Hps; [done|]. by rewrite P1.
  - rewrite Erem, Enew, B, B1. unfold deinit_calls, init_calls.
    assert (Q1 : ∀ f c l, calls_of f c (sh s1) l = calls_of f c (sh s) l)
      by (intros; by apply calls_of_paths).
    assert (Q : ∀ f c l, calls_of f c (sh s') l = calls_of f c (sh s) l)
      by (intros; apply calls_of_paths; congruence).
    rewrite !Q, !Q1.
    unfold log_calls, set_initialized, add_contexts. simpl. by rewrite <- app_assoc.
Qed.

(** The paths of the modules found, with [omni] itself. *)
Lemma self_or_wanted x exts b me m :
  registry_ok x → paths x !! me = Some get_omni_library_name →
  ((∃ p, (p ∈ wanted exts ∨ p ∈ self_path b) ∧ paths x !! m = Some p) ∨ m = me) ↔
  (∃ p, (p ∈ wanted exts ∨ p = get_omni_library_name) ∧ paths x !! m = Some p).
Proof.
  intros Hok Hme. split.
  - intros [(p & Hp & Hm)| ->]; [|eauto]. exists p. split; [|done].
    destruct Hp as [?|Hp]; [by left|right]. destruct b; set_solver.
  - intros (p & [Hp| ->] & Hm); [eauto|]. right. by eapply paths_inj.
Qed.


(** *** Modules of earlier revisions *)

(** A library with a valid magic and no [_omni_module_information] (as
    the modules of revisions before 6, which the check above allows for)
    makes [load_module] read the fields of a NULL pointer. *)
Theorem load_module_without_information p w lib is_own mg s :
  dlopen p = Some lib → magic_fn lib = Some (is_own, Some mg) →
  size mg = SIZEOF_omni_magic → version mg = OMNI_INTERFACE_VERSION →
  module_info lib = None → has_worker_functions lib = false →
  omni_modules (sh s) !! p = None →
  load_module p w s = (Undefined "module information is NULL", s).
Proof.
  intros D G Hs Hv I Hw E. unfold load_module. rewrite D, G.
  rewrite (lift_bind _ _ false) by (unfold foreign_omni; by rewrite I, Hw, andb_false_r).
  rewrite Hs, Hv. simpl. unfold register_module, mbind, M_bind, get_st. simpl. by rewrite E, I.
Qed.

(** The first backend that unloads a module of a revision before 5 runs
    [_Omni_unload] whatever the count of the backends that still use the
    module. *)
Theorem unload_module_ignores_refcount m h lib missing_ok s :
  handles (sh s) !! m = Some h → is_Some (omni_modules (sh s) !! path h) →
  path h ∈ module_contexts (be s) → dlopen (path h) = Some lib → has_unload lib = true →
  revision (magic h) < 5 → loaded h = Some 1 → 1 < refcount h < 2 ^ 32 →
  ∃ s' h', unload_module m missing_ok s = (Ok (), s') ∧
    calls (be s') = calls (be s) ++ (if has_deinit lib then [_Omni_deinit m] else [])
                      ++ [_Omni_unload m] ∧
    handles (sh s') !! m = Some h' ∧ refcount h' = refcount h - 1 ∧ 0 < refcount h'.
Proof.
  intros Hh [o He] Hctx Hlib Hun Hrev Hld Hrc. apply Z.ltb_lt in Hrev.
  unfold unload_module, has_context, upd_sh, upd_be, upd_re.
  rewrite (bind_ok _ _ _ _ _ (get_handle_ok _ _ _ Hh)), get_bind, He, bool_decide_true by done. simpl.
  rewrite !modify_bind, get_bind, modify_bind.
  rewrite (lift_bind _ _ lib) by (unfold reopen; by rewrite Hlib).
  edestruct (call_if_spec (has_deinit lib) (_Omni_deinit m)) as [r E].
  rewrite (bind_ok _ _ _ _ _ E). simpl. rewrite Hrev, Hun. simpl.
  set (h1 := HandlePrivate _ _ _ _ _ _ _ _ _). set (s1 := State _ _ r).
  assert (Hh1 : handles (sh s1) !! m = Some h1) by apply lookup_insert_eq.
  edestruct (call_if_spec true (_Omni_unload m)) as [r' E'].
  erewrite bind_ok; [|rewrite (bind_ok _ _ _ _ _ (get_handle_ok _ _ _ Hh1)); simpl;
    rewrite Hld; simpl; rewrite modify_bind; exact E'].
  do 2 eexists. split; [done|]. simpl. rewrite <- app_assoc, lookup_insert_eq.
  split_and!; [done|done|..]; simpl; rewrite wrap_u_id; unfold in_u; lia.
Qed.
End Loader.

(** *** Switches *)

Lemma testbit_high w z i : in_u w z → 0 <= w <= i → Z.testbit z i = false.
Proof.
  intros [H0 H1] Hi. rewrite <- (Z.mod_small z (2 ^ w)) by done. by apply Z.mod_pow2_bits_high.
Qed.

Lemma in_u_testbit w z : 0 <= w → (∀ i, w <= i → Z.testbit z i = false) → in_u w z.
Proof.
  intros Hw Hz. replace z with (z mod 2 ^ w); [by apply Z.mod_pos_bound, pow2_pos|].
  apply Z.bits_inj'. intros i Hi. destruct (Z.lt_ge_cases i w).
  - by apply Z.mod_pow2_bits_low.
  - rewrite Z.mod_pow2_bits_high by lia. symmetry. by apply Hz.
Qed.

(** [atomic_switch] turns exactly the switches of the mask on or off and
    returns exactly those that changed, so of several backends that switch one
    on (the read and the write are one atomic operation) a single one is told
    it did. *)
Theorem atomic_switch_reports_changes op mask board :
  in_u 64 mask → in_u 64 board →
  ∃ board', atomic_switch op 0 mask board = (Ok (Z.lxor board board'), board') ∧ in_u 64 board' ∧
    ∀ i, 0 <= i → Z.testbit board' i =
      if Z.testbit mask i then bool_decide (op = omni_switch_on) else Z.testbit board i.
Proof.
  intros Hm Hb. destruct op; unfold atomic_switch; simpl.
  - exists (Z.land board (Z.lxor mask (Z.ones 64))).
    assert (Hbit : ∀ i, 0 <= i → Z.testbit (Z.land board (Z.lxor mask (Z.ones 64))) i =
      if Z.testbit mask i then false else Z.testbit board i).
    { intros i Hi. rewrite Z.land_spec, Z.lxor_spec. destruct (Z.lt_ge_cases i 64).
      - rewrite Z.ones_spec_low by lia. by destruct (Z.testbit mask i), (Z.testbit board i).
      - rewrite (testbit_high 64 mask), (testbit_high 64 board) by done. done. }
    split_and!; [| |done].
    + do 2 f_equal. apply Z.bits_inj'. intros i Hi. rewrite Z.lxor_spec, Hbit, Z.land_spec by done.
      by destruct (Z.testbit mask i), (Z.testbit board i).
    + apply in_u_testbit; [lia|]. intros i Hi. rewrite Hbit, (testbit_high 64 mask),
        (testbit_high 64 board) by (done || lia). done.
  - exists (Z.lor board mask). split_and!.
    + do 2 f_equal. apply Z.bits_inj'. intros i Hi.
      rewrite Z.land_spec, !Z.lxor_spec, Z.lor_spec.
      by destruct (Z.testbit mask i), (Z.testbit board i).
    + apply in_u_testbit; [lia|]. intros i Hi.
      by rewrite Z.lor_spec, (testbit_high 64 mask), (testbit_high 64 board).
    + intros i Hi. rewrite Z.lor_spec. by destruct (Z.testbit mask i), (Z.testbit board i).
Qed.

Lemma atomic_switch_reports_changes_witness :
  atomic_switch omni_switch_on 0 6 3 = (Ok 4, 7) ∧ Z.testbit 7 2 = true.
Proof.
  destruct (atomic_switch_reports_changes omni_switch_on 6 3) as (b & E & _ & Hb);
    [split; lia|split; lia|].
  assert (b = 7) as -> by (vm_compute in E; congruence).
  split; [exact E|]. exact (Hb 2 ltac:(lia)).
Defined.

(** ** A concrete loader: [omni] itself and two modules. *)
Module Demo.

Definition magic_now : omni_magic := Magic 12 0 7 170000.
Definition module_library (name : string) : library :=
  Library (Some (false, Some magic_now)) (Some (Info (Some name) (Some "1.0") (Some name)))
    false false true true false.

Definition dlopen (p : string) : option library :=
  if String.eqb p "/lib/omni.so" then
    Some (Library (Some (true, Some magic_now)) (Some (Info (Some "omni") (Some "0.2") (Some "omni")))
            true false true true false)
  else if String.eqb p "/lib/a.so" then Some (module_library "a")
  else if String.eqb p "/lib/b.so" then Some (module_library "b")
  else if String.eqb p "/lib/plain.so" then Some (Library None None false false false false false)
  else if String.eqb p "/lib/old.so" then
    Some (Library (Some (false, Some (Magic 12 0 4 0))) None false true true true true)
  else None.

Definition modern_dlopen (p : string) : option library :=
  if String.eqb p "/lib/old.so" then None else dlopen p.

Definition run (c : call) : M (@rest unit unit) unit := mret ().

Definition pathname (name version : string) : option string :=
  if String.eqb name "sql" then None else Some ("$libdir/" +:+ name +:+ ".so").

Abbreviation load := (load_pending_modules modern_dlopen run false "0.2" "omni" "/lib/omni.so" "/lib" pathname).

Definition empty_shared : shared := Shared 0 ∅ ∅ 1.
Definition fresh_backend : backend := Backend false true [] [] None false [] [].
Abbreviation st := (@state unit unit).

Definition start : st :=
  State empty_shared fresh_backend (Rest ∅ (Shmem.Shared ∅ ∅ 1, []) ()).

Definition row (name : string) : extension := Extension name (Some "1.0") false.

Definition after_first : st := snd (load true true [row "a"; row "sql"; row "plain"] start).
Definition asked_again (s : st) : st := State (sh s) (set_force_reload true (be s)) (re s).

Lemma libraries : ∀ p lib, modern_dlopen p = Some lib → library_ok "omni" lib.
Proof.
  intros p lib. unfold modern_dlopen, dlopen, library_ok. intros H.
  repeat (case_match; simplify_eq/=; try done); do 3 eexists; split_and!; done || lia || by intros.
Qed.

Lemma start_ok : registry_ok (sh start) ∧ modern modern_dlopen (sh start) ∧
  backend_ok "/lib/omni.so" start.
Proof.
  split_and!; [split; [done..|vm_compute; split; congruence]|done|].
  split; [done|set_solver|constructor|done].
Qed.

Lemma row_ok name : name ∈ ["a"; "b"; "sql"; "plain"] → ext_ok "/lib" pathname (row name).
Proof.
  intros Hn v pn _ Hp. repeat (apply elem_of_cons in Hn as [->|Hn]); [..|by apply not_elem_of_nil in Hn];
    vm_compute in Hp; try done; injection Hp as <-; eexists; split; by vm_compute.
Qed.

Lemma load_module_registers_witness : ∃ s',
  load_module dlopen false "0.2" "omni" "/lib/a.so" true start = (Ok (Some 1%nat), s') ∧
  (∀ m', paths (sh s') !! m' = Some "/lib/a.so" ↔ m' = 1%nat).
Proof.
  eexists. split; [reflexivity|].
  eapply (load_module_registers dlopen false "0.2" "omni" "/lib/a.so" true start 1%nat);
    [apply start_ok|reflexivity|reflexivity].
Defined.


Lemma load_module_without_information_witness :
  load_module dlopen false "0.2" "omni" "/lib/old.so" true start
  = (Undefined "module information is NULL", start).
Proof.
  exact (load_module_without_information dlopen false "0.2" "omni" "/lib/old.so" true _ false
           (Magic 12 0 4 0) start eq_refl eq_refl eq_refl eq_refl eq_refl eq_refl eq_refl).
Defined.

(** A module of revision 4 that two backends use. *)
Definition old_handle : omni_handle_private :=
  HandlePrivate (Magic 12 0 4 0) 1 "/lib/old.so" 2 (Some 1) 0 "old" "1.0" "old".
Definition old_used : st :=
  State (Shared 1 {["/lib/old.so" := Some (Entry 1 1)]} {[1%nat := old_handle]} 2)
    (Backend true false [1%nat] ["/lib/old.so"] None true [] []) (re start).

Lemma unload_module_ignores_refcount_witness :
  ∃ s' h', unload_module dlopen run 1 true old_used = (Ok (), s') ∧
    calls (be s') = [_Omni_deinit 1; _Omni_unload 1] ∧
    handles (sh s') !! 1%nat = Some h' ∧ refcount h' = 1.
Proof.
  destruct (unload_module_ignores_refcount dlopen run (λ _ _, eq_refl) 1 old_handle
    (Library (Some (false, Some (Magic 12 0 4 0))) None false true true true true) true old_used)
    as (s' & h' & E & C & H & Rc & _); try done.
  { apply list_elem_of_here. }
  by exists s', h'.
Defined.
End Demo.

End Modules.
