(* ===== verification/Paths.v ===== *)
(** * File paths: [omni_vfs/pg_path_v15.c] and [omni_vfs/omni_vfs.c]

    [canonicalize_path_15] rewrites a path in place, with one pointer to what
    was read and one to what was written, and a state machine for the [..]
    components.  The buffer is a list of bytes; a read or write outside it is
    undefined behaviour.  [normalize] says what the function is meant to
    compute: split at the slashes, drop empty components and [.], let [..]
    remove the component before it, join.  The main theorem is that the two
    agree and that the function stays inside its buffer. *)

From Stdlib Require Import ZArith Lia Ascii.
From stdpp Require Import base tactics list numbers strings.
From S2P Require Import Prelude.

Module Paths.

Abbreviation bytes := (list Z).

Definition SLASH : Z := 47.
Definition DOT : Z := 46.

Definition IS_DIR_SEP (c : Z) : bool := (c =? SLASH)%Z.

(** ** Memory *)

Definition rd (b : bytes) (i : nat) : result Z :=
  match b !! i with Some c => Ok c | None => Undefined "read outside the buffer" end.

Definition wr (b : bytes) (i : nat) (c : Z) : result bytes :=
  if decide (i < length b)%nat then Ok (<[i := c]> b) else Undefined "write outside the buffer".

(** [memmove] of the bytes [s] to position [i]. *)
Definition wr_bytes (b : bytes) (i : nat) (s : bytes) : result bytes :=
  if decide (i + length s <= length b)%nat
  then Ok (take i b ++ s ++ drop (i + length s) b) else Undefined "write outside the buffer".

(** The C string at the head of some bytes. *)
Fixpoint cstr (l : bytes) : option bytes :=
  match l with
  | [] => None
  | c :: l' => if (c =? 0)%Z then Some [] else cons c <$> cstr l'
  end.

Definition cstring_at (b : bytes) (i : nat) : result bytes :=
  match cstr (drop i b) with Some s => Ok s | None => Undefined "string without terminator" end.

(** ** Trimming *)

(** [for (p--; p > path && IS_DIR_SEP( *p); p--) *p = '\0';] *)
Fixpoint trim_loop (p : nat) (b : bytes) : result bytes :=
  match p with
  | O => Ok b
  | S p' =>
      c ← rd b p;
      if IS_DIR_SEP c then b ← wr b p 0; trim_loop p' b else Ok b
  end.

Definition trim_trailing_separator (b : bytes) : result bytes :=
  s ← cstring_at b 0;
  match length s with O => Ok b | S n => trim_loop n b end.

(** The three loops of [trim_directory] that back up. *)
Fixpoint back_over_slashes (b : bytes) (p : nat) : result nat :=
  c ← rd b p;
  match p with
  | O => Ok O
  | S p' => if IS_DIR_SEP c then back_over_slashes b p' else Ok p
  end.

Fixpoint back_over_name (b : bytes) (p : nat) : result nat :=
  c ← rd b p;
  match p with
  | O => Ok O
  | S p' => if IS_DIR_SEP c then Ok p else back_over_name b p'
  end.

Fixpoint back_over_multiple (b : bytes) (p : nat) : result nat :=
  match p with
  | O => Ok O
  | S p' => c ← rd b p'; if IS_DIR_SEP c then back_over_multiple b p' else Ok p
  end.

(** The buffer and the new end. *)
Definition trim_directory (b : bytes) : result (bytes * nat) :=
  s ← cstring_at b 0;
  match length s with
  | O => Ok (b, O)
  | S n =>
      p ← back_over_slashes b n;
      p ← back_over_name b p;
      p ← back_over_multiple b p;
      c ← rd b p;
      let p := if (p =? 0)%nat && IS_DIR_SEP c then S p else p in
      b ← wr b p 0;
      Ok (b, p)
  end.

Definition append_subdir_to_path (b : bytes) (path subdir : nat) : result (bytes * nat) :=
  s ← cstring_at b subdir;
  b ← (if (path =? subdir)%nat then Ok b else wr_bytes b path s);
  Ok (b, (path + length s)%nat).

(** ** [canonicalize_path_15]

    The loops read one byte per turn and a read past the end is undefined, so
    the length of the buffer is fuel enough. *)

(** [while ( *p == '/' && was_sep) p++;] *)
Fixpoint skip_seps (fuel : nat) (b : bytes) (p : nat) (was_sep : bool) : result nat :=
  match fuel with
  | O => Undefined "out of fuel"
  | S fuel' =>
      c ← rd b p;
      if IS_DIR_SEP c && was_sep then skip_seps fuel' b (S p) was_sep else Ok p
  end.

(** The removal of adjacent separators. *)
Fixpoint dedup_loop (fuel : nat) (b : bytes) (p to_p : nat) (was_sep : bool) : result bytes :=
  match fuel with
  | O => Undefined "out of fuel"
  | S fuel' =>
      c ← rd b p;
      if (c =? 0)%Z then wr b to_p 0
      else
        p ← skip_seps (S (length b)) b p was_sep;
        c ← rd b p;
        b ← (if (to_p =? p)%nat then Ok b else wr b to_p c);
        dedup_loop fuel' b (S p) (S to_p) (IS_DIR_SEP c)
  end.

Inductive canonicalize_state :=
  | ABSOLUTE_PATH_INIT | ABSOLUTE_WITH_N_DEPTH | RELATIVE_PATH_INIT | RELATIVE_WITH_N_DEPTH
  | RELATIVE_WITH_PARENT_REF.

(** [while ( *unparse_next && *unparse_next != '/') unparse_next++;] *)
Fixpoint find_sep (fuel : nat) (b : bytes) (p : nat) : result nat :=
  match fuel with
  | O => Undefined "out of fuel"
  | S fuel' =>
      c ← rd b p;
      if (c =? 0)%Z || IS_DIR_SEP c then Ok p else find_sep fuel' b (S p)
  end.

(** [*parsed++ = '/'; parsed = append_subdir_to_path(parsed, unparse);] *)
Definition append_slash_subdir (b : bytes) (parsed unparse : nat) : result (bytes * nat) :=
  b ← wr b parsed SLASH; append_subdir_to_path b (S parsed) unparse.

(** [*parsed = '\0'; parsed = trim_directory(path);] *)
Definition remove_subdir (b : bytes) (parsed : nat) : result (bytes * nat) :=
  b ← wr b parsed 0; trim_directory b.

(** The switch over the state, for one component at [unparse]. *)
Definition canonicalize_step (b : bytes) (spath parsed unparse : nat) (is_double_dot : bool)
    (state : canonicalize_state) (pathdepth : nat)
  : result (bytes * nat * canonicalize_state * nat) :=
  match state with
  | ABSOLUTE_PATH_INIT =>
      if is_double_dot then Ok (b, parsed, state, pathdepth) else
      '(b, parsed) ← append_subdir_to_path b parsed unparse;
      Ok (b, parsed, ABSOLUTE_WITH_N_DEPTH, S pathdepth)
  | ABSOLUTE_WITH_N_DEPTH =>
      if is_double_dot then
        '(b, parsed) ← remove_subdir b parsed;
        let pathdepth := pred pathdepth in
        Ok (b, parsed, if (pathdepth =? 0)%nat then ABSOLUTE_PATH_INIT else state, pathdepth)
      else
        '(b, parsed) ← append_slash_subdir b parsed unparse;
        Ok (b, parsed, state, S pathdepth)
  | RELATIVE_PATH_INIT =>
      '(b, parsed) ← append_subdir_to_path b parsed unparse;
      if is_double_dot then Ok (b, parsed, RELATIVE_WITH_PARENT_REF, pathdepth)
      else Ok (b, parsed, RELATIVE_WITH_N_DEPTH, S pathdepth)
  | RELATIVE_WITH_N_DEPTH =>
      if is_double_dot then
        '(b, parsed) ← remove_subdir b parsed;
        let pathdepth := pred pathdepth in
        Ok (b, parsed,
            if (pathdepth =? 0)%nat
            then if (parsed =? spath)%nat then RELATIVE_PATH_INIT else RELATIVE_WITH_PARENT_REF
            else state, pathdepth)
      else
        '(b, parsed) ← append_slash_subdir b parsed unparse;
        Ok (b, parsed, state, S pathdepth)
  | RELATIVE_WITH_PARENT_REF =>
      '(b, parsed) ← append_slash_subdir b parsed unparse;
      if is_double_dot then Ok (b, parsed, state, pathdepth)
      else Ok (b, parsed, RELATIVE_WITH_N_DEPTH, 1%nat)
  end.

(** The loop over the components; the buffer and [parsed] at its end. *)
Fixpoint canonicalize_loop (fuel : nat) (b : bytes) (spath parsed unparse : nat)
    (state : canonicalize_state) (pathdepth : nat) : result (bytes * nat) :=
  match fuel with
  | O => Undefined "out of fuel"
  | S fuel' =>
      c ← rd b unparse;
      if (c =? 0)%Z then Ok (b, parsed) else
      next ← find_sep (S (length b)) b unparse;
      c ← rd b next;
      '(b, next) ← (if (c =? 0)%Z then Ok (b, next) else b ← wr b next 0; Ok (b, S next));
      name ← cstring_at b unparse;
      if decide (name = [DOT])
      then canonicalize_loop fuel' b spath parsed next state pathdepth
      else
        '(b, parsed, state, pathdepth) ←
          canonicalize_step b spath parsed unparse (bool_decide (name = [DOT; DOT])) state pathdepth;
        canonicalize_loop fuel' b spath parsed next state pathdepth
  end.

Definition canonicalize_path (b : bytes) : result bytes :=
  b ← trim_trailing_separator b;
  b ← dedup_loop (S (length b)) b 0 0 false;
  let spath := O in
  c ← rd b spath;
  if (c =? 0)%Z then Ok b else
  let '(state, start) := if (c =? SLASH)%Z then (ABSOLUTE_PATH_INIT, S spath)
                         else (RELATIVE_PATH_INIT, spath) in
  '(b, parsed) ← canonicalize_loop (S (length b)) b spath start start state 0;
  '(b, parsed) ← (if (parsed =? spath)%nat then b ← wr b parsed DOT; Ok (b, S parsed)
                  else Ok (b, parsed));
  wr b parsed 0.

(** ** [make_absolute_path_15] *)

Definition MAXPGPATH : Z := 1024.

Section Absolute.
(** The working directory; [None]: the system cannot tell. *)
Context (cwd : option bytes).

(** [getcwd(buf, buflen)] until the buffer is large enough; it doubles every
    time. *)
Fixpoint getcwd_loop (fuel : nat) (buflen : Z) : result bytes :=
  match fuel with
  | O => Undefined "out of fuel"
  | S fuel' =>
      match cwd with
      | None => raise "could not get current working directory"
      | Some d => if (Z.of_nat (length d) + 1 <=? buflen)%Z then Ok d else getcwd_loop fuel' (buflen * 2)
      end
  end.

Definition getcwd_fuel : nat := match cwd with Some d => S (length d) | None => 1 end.

Definition is_absolute_path (s : bytes) : bool :=
  match s with c :: _ => IS_DIR_SEP c | [] => false end.

Definition make_absolute_path (path : bytes) : result bytes :=
  new ← (if is_absolute_path path then Ok (path ++ [0%Z])
         else buf ← getcwd_loop getcwd_fuel MAXPGPATH; Ok (buf ++ SLASH :: path ++ [0%Z]));
  new ← canonicalize_path new;
  cstring_at new 0.
End Absolute.

(** ** [omni_vfs.c] *)

(** A text as a C string: [text_to_cstring]. *)
Definition canonicalize_path_pg (path : option bytes) (absolute : option bool)
  : result (option bytes) :=
  match path with
  | None => Ok None
  | Some path =>
      let absolute := default false absolute in
      if (0 <? length path)%nat then
        cpath ← canonicalize_path (path ++ [0%Z]);
        s ← cstring_at cpath 0;
        c ← rd cpath 0;
        if absolute && negb (IS_DIR_SEP c) then Ok (Some (SLASH :: s)) else Ok (Some s)
      else Ok (Some [SLASH])
  end.

(** The position of the last separator. *)
Fixpoint last_dir_separator (s : bytes) : option nat :=
  match s with
  | [] => None
  | c :: s' =>
      match last_dir_separator s' with
      | Some i => Some (S i)
      | None => if IS_DIR_SEP c then Some O else None
      end
  end.

Definition file_basename (path : option bytes) : option bytes :=
  path ← path;
  match last_dir_separator path with
  | None => Some path
  | Some i => Some (drop (S i) path)
  end.

Definition file_dirname (path : option bytes) : option bytes :=
  path ← path;
  match last_dir_separator path with
  | None => Some path
  | Some i => if (0 <? i)%nat then Some (take i path) else Some [SLASH]
  end.

(** ** The reference *)

(** The components of a path, empty ones included. *)
Fixpoint split (s : bytes) : list bytes :=
  match s with
  | [] => [[]]
  | c :: s' =>
      if (c =? SLASH)%Z then [] :: split s'
      else match split s' with n :: ns => (c :: n) :: ns | [] => [[c]] end
  end.

Fixpoint join (ns : list bytes) : bytes :=
  match ns with
  | [] => []
  | [n] => n
  | n :: ns' => n ++ SLASH :: join ns'
  end.

(** The components that count. *)
Definition components (s : bytes) : list bytes := filter (λ n, n ≠ []) (split s).

(** One component, on the stack (last first) of those kept. *)
Definition enter (abs : bool) (stack : list bytes) (n : bytes) : list bytes :=
  if decide (n = [DOT]) then stack else
  if decide (n = [DOT; DOT]) then
    match stack with
    | [] => if abs then [] else [n]
    | d :: stack' => if decide (d = [DOT; DOT]) then n :: stack else stack'
    end
  else n :: stack.

Definition root (abs : bool) : bytes := if abs then [SLASH] else [].

(** The path of a stack. *)
Definition render (abs : bool) (stack : list bytes) : bytes := root abs ++ join (rev stack).

Definition normalize (s : bytes) : bytes :=
  match s with
  | [] => []
  | _ =>
      let abs := is_absolute_path s in
      let p := render abs (foldl (enter abs) [] (components s)) in
      if decide (p = []) then [DOT] else p
  end.

(** A name: no slash, no terminator, not empty. *)
Definition name_ok (n : bytes) : Prop := n ≠ [] ∧ Forall (λ c, c ≠ 0 ∧ c ≠ SLASH)%Z n.

(** A string without terminator inside. *)
Definition text_ok (s : bytes) : Prop := Forall (λ c, c ≠ 0)%Z s.

(** ** Reading and writing at known places *)

(** Rewriting with a lemma on buffers [A ++ c :: B] for a concrete [A]. *)
Ltac rewrite_at H :=
  let E := fresh in pose proof H as E; cbn [app length Nat.add] in E; rewrite E; clear E.

Lemma rd_app A c B : rd (A ++ c :: B) (length A) = Ok c.
Proof. unfold rd. by rewrite list_lookup_middle. Qed.

Lemma wr_app A c c' B : wr (A ++ c :: B) (length A) c' = Ok (A ++ c' :: B).
Proof.
  unfold wr. rewrite decide_True by (rewrite length_app; simpl; lia).
  by rewrite insert_app_r_alt, Nat.sub_diag by lia.
Qed.

Lemma wr_bytes_app A B s :
  (length s <= length B)%nat → wr_bytes (A ++ B) (length A) s = Ok (A ++ s ++ drop (length s) B).
Proof.
  intros Hs. unfold wr_bytes. rewrite decide_True by (rewrite length_app; lia).
  by rewrite take_app_length, <- drop_drop, drop_app_length.
Qed.

Lemma cstr_app s B : text_ok s → cstr (s ++ 0%Z :: B) = Some s.
Proof.
  induction 1 as [|c s Hc Hs IH]; [done|]. simpl. rewrite (proj2 (Z.eqb_neq _ _) Hc), IH. done.
Qed.

Lemma cstring_at_app A s B : text_ok s → cstring_at (A ++ s ++ 0%Z :: B) (length A) = Ok s.
Proof. intros Hs. unfold cstring_at. by rewrite drop_app_length, cstr_app. Qed.

Lemma cstring_at_0 s B : text_ok s → cstring_at (s ++ 0%Z :: B) 0 = Ok s.
Proof. apply (cstring_at_app []). Qed.

Lemma name_text n : name_ok n → text_ok n.
Proof. intros [_ Hn]. eapply Forall_impl; [done|]. by intros c []. Qed.

Lemma join_cons n ns : ns ≠ [] → join (n :: ns) = n ++ SLASH :: join ns.
Proof. by destruct ns. Qed.

Lemma join_snoc ns n : ns ≠ [] → join (ns ++ [n]) = join ns ++ SLASH :: n.
Proof.
  induction ns as [|x ns IH]; intros Hne; [done|]. destruct ns as [|y ns]; [done|].
  change ((x :: y :: ns) ++ [n]) with (x :: ((y :: ns) ++ [n])).
  rewrite !(join_cons x), IH by done. by rewrite <- app_assoc.
Qed.

Lemma join_text ns : Forall name_ok ns → text_ok (join ns).
Proof.
  induction 1 as [|n ns Hn Hns IH]; [constructor|].
  destruct ns as [|m ns]; [by apply name_text|]. rewrite join_cons by done.
  apply Forall_app. split; [by apply name_text|]. by constructor.
Qed.

Lemma render_text abs stack : Forall name_ok stack → text_ok (render abs stack).
Proof.
  intros Hs. unfold render. apply Forall_app. split.
  - destruct abs; repeat constructor. done.
  - apply join_text. by apply Forall_rev.
Qed.

Lemma render_push abs n stack :
  stack ≠ [] → render abs (n :: stack) = render abs stack ++ SLASH :: n.
Proof.
  intros Hs. unfold render. simpl. rewrite join_snoc, app_assoc; [done|].
  intros E%(f_equal (@rev _)). by rewrite rev_involutive in E.
Qed.

Lemma render_one abs n : render abs [n] = root abs ++ n.
Proof. done. Qed.

(** ** [trim_directory] removes the last component *)

Lemma is_sep_false c : c ≠ SLASH → IS_DIR_SEP c = false.
Proof. intros. by apply Z.eqb_neq. Qed.

Lemma back_over_name_slash A n R k :
  Forall (λ c, c ≠ 0 ∧ c ≠ SLASH)%Z n → (k <= length n)%nat →
  back_over_name (A ++ SLASH :: n ++ R) (length A + k) = Ok (length A).
Proof.
  intros Hn. induction k as [|k IH]; intros Hk.
  - rewrite Nat.add_0_r. destruct A as [|a A]; [done|].
    cbn [back_over_name length]. unfold mbind, result_bind.
    by rewrite (rd_app (a :: A) SLASH).
  - rewrite Nat.add_succ_r. cbn [back_over_name].
    destruct (lookup_lt_is_Some_2 n k) as [c Hc]; [lia|].
    assert (E : rd (A ++ SLASH :: n ++ R) (S (length A + k)) = Ok c).
    { unfold rd. rewrite lookup_app_r by lia.
      replace (S (length A + k) - length A)%nat with (S k) by lia. simpl.
      by rewrite lookup_app_l, Hc by lia. }
    rewrite E. unfold mbind at 1, result_bind at 1. rewrite is_sep_false; [apply IH; lia|].
    by apply (Forall_lookup_1 _ _ _ _ Hn Hc).
Qed.

Lemma back_over_name_start n R k :
  Forall (λ c, c ≠ 0 ∧ c ≠ SLASH)%Z n → (k < length n)%nat → back_over_name (n ++ R) k = Ok O.
Proof.
  intros Hn. induction k as [|k IH]; intros Hk; cbn [back_over_name];
    (destruct (lookup_lt_is_Some_2 n _ Hk) as [c Hc]);
    unfold rd; rewrite lookup_app_l, Hc by lia; unfold mbind, result_bind; [done|].
  rewrite is_sep_false; [apply IH; lia|]. by apply (Forall_lookup_1 _ _ _ _ Hn Hc).
Qed.

Lemma back_over_slashes_name A n c R :
  c ≠ SLASH → n = A ++ [c] → back_over_slashes (n ++ R) (pred (length n)) = Ok (pred (length n)).
Proof.
  intros Hc ->. rewrite <- app_assoc, length_app. simpl.
  replace (pred (length A + 1)) with (length A) by lia.
  unfold back_over_slashes. destruct (length A) eqn:E; fold back_over_slashes; rewrite <- E, rd_app;
    unfold mbind, result_bind; [done|]. by rewrite is_sep_false.
Qed.

Lemma back_over_multiple_end A c R :
  c ≠ SLASH → back_over_multiple (A ++ c :: R) (S (length A)) = Ok (S (length A)).
Proof. intros Hc. simpl. rewrite rd_app. unfold mbind, result_bind. by rewrite is_sep_false. Qed.

Lemma name_last n : name_ok n → ∃ A c, n = A ++ [c] ∧ c ≠ SLASH.
Proof.
  intros [Hne Hn]. destruct n as [|c A _] using rev_ind; [done|]. exists A, c. split; [done|].
  by apply Forall_app in Hn as [_ [[_ Hc] _]%Forall_cons_1].
Qed.

Lemma render_last abs n stack :
  Forall name_ok (n :: stack) → ∃ A c, render abs (n :: stack) = A ++ [c] ∧ c ≠ SLASH.
Proof.
  intros [Hn Hs]%Forall_cons_1. destruct (name_last n Hn) as (A & c & -> & Hc).
  destruct stack as [|m stack].
  - exists (root abs ++ A), c. by rewrite render_one, app_assoc.
  - exists (render abs (m :: stack) ++ SLASH :: A), c. split; [|done].
    rewrite render_push by done. by rewrite <- app_assoc.
Qed.

Lemma trim_directory_spec abs x stack R :
  Forall name_ok (x :: stack) →
  ∃ G, trim_directory (render abs (x :: stack) ++ 0%Z :: R)
       = Ok (render abs stack ++ 0%Z :: G ++ R, length (render abs stack)) ∧
    (length (render abs stack) + length G = length (render abs (x :: stack)))%nat.
Proof.
  intros Hall. pose proof Hall as [Hx Hs]%Forall_cons_1. unfold trim_directory.
  rewrite cstring_at_0 by by apply render_text. unfold mbind at 1, result_bind at 1.
  destruct (render_last abs x stack Hall) as (A & c & E & Hc).
  destruct (length (render abs (x :: stack))) as [|n] eqn:Hlen.
  { apply (f_equal length) in E. rewrite length_app in E. simpl in E. lia. }
  pose proof (back_over_slashes_name A _ c (0%Z :: R) Hc E) as Eb. rewrite Hlen in Eb.
  cbn [pred] in Eb. rewrite Eb. unfold mbind at 1, result_bind at 1. clear Eb.
  destruct stack as [|y stack].
  - rewrite render_one in *. destruct abs; cbn [root app] in *.
    + (* "/x" *)
      assert (n = length x)%nat as -> by (simpl in Hlen; lia).
      rewrite_at (back_over_name_slash [] x (0%Z :: R) (length x) (proj2 Hx) (le_n _)).
      destruct x as [|a x]; [by destruct Hx|].
      unfold mbind, result_bind. cbn -[wr].
      rewrite_at (wr_app [SLASH] a 0%Z (x ++ 0%Z :: R)).
      exists (x ++ [0%Z]). rewrite <- app_assoc, length_app. split; [done|]. simpl. lia.
    + (* "x" *)
      rewrite (back_over_name_start x) by (apply Hx || lia). unfold mbind, result_bind.
      destruct x as [|a x]; [by destruct Hx|]. cbn -[wr].
      destruct Hx as [_ [[_ Ha] _]%Forall_cons_1]. rewrite is_sep_false by done.
      rewrite_at (wr_app [] a 0%Z (x ++ 0%Z :: R)).
      exists (x ++ [0%Z]). rewrite <- app_assoc, length_app. split; [done|]. simpl in *. lia.
  - rewrite render_push in * by done. set (O := render abs (y :: stack)) in *.
    rewrite <- app_assoc. simpl.
    assert (n = length O + length x)%nat as -> by (rewrite length_app in Hlen; simpl in Hlen; lia).
    rewrite (back_over_name_slash O x) by (apply Hx || lia). unfold mbind at 1, result_bind at 1.
    destruct (render_last abs y stack Hs) as (B & d & EO & Hd). fold O in EO.
    assert (LO : length O = S (length B)) by (rewrite EO, length_app; simpl; lia).
    assert (Em : back_over_multiple (O ++ SLASH :: x ++ 0%Z :: R) (length O) = Ok (length O)).
    { rewrite EO at 1. rewrite <- app_assoc, LO. by apply back_over_multiple_end. }
    rewrite Em. unfold mbind, result_bind. rewrite rd_app.
    replace (length O =? 0)%nat with false by by rewrite LO. cbn [andb].
    rewrite wr_app. exists (x ++ [0%Z]). rewrite <- app_assoc. split; [done|].
    rewrite length_app in Hlen. rewrite length_app. simpl in *. lia.
Qed.

(** ** One component *)

Lemma append_subdir_spec out gap n r :
  text_ok n →
  ∃ G, append_subdir_to_path (out ++ gap ++ n ++ 0%Z :: r) (length out) (length (out ++ gap))
       = Ok ((out ++ n) ++ G ++ 0%Z :: r, length (out ++ n)) ∧ length G = length gap.
Proof.
  intros Hn. unfold append_subdir_to_path.
  assert (Es : cstring_at (out ++ gap ++ n ++ 0%Z :: r) (length (out ++ gap)) = Ok n).
  { rewrite app_assoc. by apply cstring_at_app. }
  rewrite Es. unfold mbind, result_bind. rewrite !length_app.
  destruct gap as [|g gap].
  - exists []. rewrite Nat.add_0_r, Nat.eqb_refl. by rewrite <- app_assoc.
  - rewrite (proj2 (Nat.eqb_neq _ _)) by (simpl; lia).
    rewrite wr_bytes_app by (rewrite !length_app; simpl; lia).
    exists (drop (length n) ((g :: gap) ++ n)). rewrite <- app_assoc. split.
    + rewrite (app_assoc (g :: gap)), drop_app_le by (rewrite length_app; lia). done.
    + rewrite length_drop, length_app. lia.
Qed.

Lemma append_slash_subdir_spec out gap n r :
  text_ok n → gap ≠ [] →
  ∃ G, append_slash_subdir (out ++ gap ++ n ++ 0%Z :: r) (length out) (length (out ++ gap))
       = Ok ((out ++ SLASH :: n) ++ G ++ 0%Z :: r, length (out ++ SLASH :: n)) ∧
    S (length G) = length gap.
Proof.
  intros Hn Hg. destruct gap as [|g gap]; [done|]. unfold append_slash_subdir.
  cbn [app]. rewrite wr_app. unfold mbind at 1, result_bind at 1.
  destruct (append_subdir_spec (out ++ [SLASH]) gap n r Hn) as (G & E & HG).
  exists G. split; [|simpl; lia].
  replace (out ++ SLASH :: gap ++ n ++ 0%Z :: r) with ((out ++ [SLASH]) ++ gap ++ n ++ 0%Z :: r)
    by by rewrite <- app_assoc.
  replace (S (length out)) with (length (out ++ [SLASH])) by (rewrite length_app; simpl; lia).
  replace (length (out ++ g :: gap)) with (length ((out ++ [SLASH]) ++ gap))
    by (rewrite !length_app; simpl; lia).
  rewrite E. by rewrite <- (app_assoc out [SLASH] n).
Qed.

Lemma remove_subdir_spec abs x stack gap R :
  Forall name_ok (x :: stack) → gap ≠ [] →
  let out := render abs (x :: stack) in
  ∃ G, remove_subdir (out ++ gap ++ R) (length out)
       = Ok (render abs stack ++ G ++ R, length (render abs stack)) ∧
    (length (render abs stack) + length G = length out + length gap)%nat.
Proof.
  intros Hall Hg out. destruct gap as [|g gap]; [done|]. unfold remove_subdir.
  cbn [app]. rewrite wr_app. unfold mbind at 1, result_bind at 1.
  destruct (trim_directory_spec abs x stack (gap ++ R) Hall) as (G & E & HG).
  fold out in E, HG. rewrite E. exists (0%Z :: G ++ gap). cbn [app]. rewrite <- app_assoc.
  split; [done|]. simpl. rewrite length_app. lia.
Qed.

(** What the state of the machine says of the stack. *)
Definition dotdot : bytes := [DOT; DOT].

Definition state_ok (abs : bool) (stack : list bytes) (state : canonicalize_state) (depth : nat)
  : Prop :=
  match state with
  | ABSOLUTE_PATH_INIT => abs = true ∧ stack = [] ∧ depth = O
  | ABSOLUTE_WITH_N_DEPTH =>
      abs = true ∧ stack ≠ [] ∧ Forall (λ n, n ≠ dotdot) stack ∧ depth = length stack
  | RELATIVE_PATH_INIT => abs = false ∧ stack = [] ∧ depth = O
  | RELATIVE_WITH_N_DEPTH =>
      abs = false ∧ ∃ names ds, stack = names ++ ds ∧ names ≠ [] ∧
        Forall (λ n, n ≠ dotdot) names ∧ Forall (λ n, n = dotdot) ds ∧ depth = length names
  | RELATIVE_WITH_PARENT_REF => abs = false ∧ stack ≠ [] ∧ Forall (λ n, n = dotdot) stack
  end.

(** What a step does to the buffer: the output becomes that of the stack with
    the component entered, and everything from the end of the component on
    stays in place. *)
Definition step_done (abs : bool) (stack : list bytes) (n out gap r : bytes)
    (res : result (bytes * nat * canonicalize_state * nat)) : Prop :=
  ∃ G state' depth',
    let out' := render abs (enter abs stack n) in
    res = Ok (out' ++ G ++ 0%Z :: r, length out', state', depth') ∧
    (length out' + length G = length out + length gap + length n)%nat ∧
    state_ok abs (enter abs stack n) state' depth'.

Lemma enter_name abs stack n : n ≠ [DOT] → n ≠ dotdot → enter abs stack n = n :: stack.
Proof. intros. unfold enter. by rewrite !decide_False. Qed.

Lemma enter_dotdot_name abs d stack : d ≠ dotdot → enter abs (d :: stack) dotdot = stack.
Proof.
  intros. unfold enter. rewrite decide_False by done. rewrite decide_True by done.
  by rewrite decide_False.
Qed.

Lemma enter_dotdot_dotdot abs stack : enter abs (dotdot :: stack) dotdot = dotdot :: dotdot :: stack.
Proof. done. Qed.

Lemma render_nil abs : render abs [] = root abs.
Proof. unfold render. apply app_nil_r. Qed.

Section Step.
Context (abs : bool) (stack : list bytes) (gap n r : bytes).
Let out := render abs stack.
Let before := out ++ gap ++ n ++ 0%Z :: r.
Hypothesis Hst : Forall name_ok stack.
Hypothesis Hn : name_ok n.
Hypothesis Hdot : n ≠ [DOT].
Hypothesis Hgap : stack ≠ [] → gap ≠ [].

(** The operation leaves the output of [stack']. *)
Definition leaves (stack' : list bytes) (res : result (bytes * nat)) : Prop :=
  ∃ G, res = Ok (render abs stack' ++ G ++ 0%Z :: r, length (render abs stack')) ∧
    (length (render abs stack') + length G = length out + length gap + length n)%nat.

Lemma step_first :
  stack = [] → leaves [n] (append_subdir_to_path before (length out) (length (out ++ gap))).
Proof.
  intros E0. destruct (append_subdir_spec out gap n r (name_text _ Hn)) as (G & E & HG).
  exists G. unfold before. rewrite E. unfold out. rewrite E0, render_nil, render_one.
  split; [done|]. rewrite length_app. lia.
Qed.

Lemma step_next :
  stack ≠ [] → leaves (n :: stack) (append_slash_subdir before (length out) (length (out ++ gap))).
Proof.
  intros Hne.
  destruct (append_slash_subdir_spec out gap n r (name_text _ Hn) (Hgap Hne)) as (G & E & HG).
  exists G. rewrite render_push by done. fold out. unfold before. rewrite E. split; [done|].
  rewrite length_app. simpl. lia.
Qed.

Lemma step_pop d stack' : stack = d :: stack' → leaves stack' (remove_subdir before (length out)).
Proof.
  intros E0. destruct (remove_subdir_spec abs d stack' gap (n ++ 0%Z :: r)) as (G & E & HG).
  { by rewrite <- E0. }
  { apply Hgap. by rewrite E0. }
  rewrite <- E0 in E, HG. fold out in E, HG. exists (G ++ n). unfold before.
  rewrite E, <- app_assoc. split; [done|]. rewrite length_app. lia.
Qed.

Definition the_step : canonicalize_state → nat → result (bytes * nat * canonicalize_state * nat) :=
  canonicalize_step before 0 (length out) (length (out ++ gap)) (bool_decide (n = dotdot)).

Lemma step_absolute_init :
  abs = true → stack = [] → step_done abs stack n out gap r (the_step ABSOLUTE_PATH_INIT 0).
Proof.
  intros Ha E0. unfold the_step, canonicalize_step. case_bool_decide as Hd.
  - exists (gap ++ n), ABSOLUTE_PATH_INIT, O.
    assert (Ee : enter abs stack n = stack) by by rewrite Ha, E0, Hd.
    rewrite Ee. fold out. rewrite <- app_assoc, length_app.
    split_and!; [done|lia|done].
  - destruct (step_first E0) as (G & E & HG). rewrite E. unfold mbind, result_bind.
    exists G, ABSOLUTE_WITH_N_DEPTH, 1%nat. rewrite enter_name, E0 by done.
    split_and!; [done|done|]. split_and!; [done|done|by constructor|done].
Qed.

Lemma step_absolute_depth :
  state_ok abs stack ABSOLUTE_WITH_N_DEPTH (length stack) →
  step_done abs stack n out gap r (the_step ABSOLUTE_WITH_N_DEPTH (length stack)).
Proof.
  intros (Ha & Hne & Hnd & _). unfold the_step, canonicalize_step. case_bool_decide as Hd.
  - assert (∃ d stack', stack = d :: stack') as (d & stack' & Es) by (destruct stack; [done|eauto]).
    destruct (step_pop d stack' Es) as (G & E & HG). rewrite E. unfold mbind, result_bind.
    rewrite Es in Hnd. apply Forall_cons_1 in Hnd as [Hdd Hnd].
    eexists G, _, _. rewrite Es, Hd, enter_dotdot_name by done. split_and!; [done|by rewrite <- Hd|].
    simpl. destruct stack'; simpl; [done|]. split_and!; done.
  - destruct (step_next Hne) as (G & E & HG). rewrite E. unfold mbind, result_bind.
    eexists G, _, _. rewrite enter_name by done. split_and!; [done|done|].
    split_and!; [done|done|by constructor|done].
Qed.

Lemma step_relative_init :
  abs = false → stack = [] → step_done abs stack n out gap r (the_step RELATIVE_PATH_INIT 0).
Proof.
  intros Ha E0. unfold the_step, canonicalize_step.
  destruct (step_first E0) as (G & E & HG). rewrite E. unfold mbind, result_bind.
  case_bool_decide as Hd.
  - exists G, RELATIVE_WITH_PARENT_REF, O.
    assert (Ee : enter abs stack n = [n]) by by rewrite Ha, E0, Hd.
    rewrite Ee. split_and!; [done|done|]. split_and!; [done|done|by constructor].
  - exists G, RELATIVE_WITH_N_DEPTH, 1%nat. rewrite enter_name, E0 by done.
    split_and!; [done|done|]. split; [done|]. exists [n], [].
    split_and!; [done|done|by constructor|done|done].
Qed.

Lemma step_relative_depth names ds :
  abs = false → stack = names ++ ds → names ≠ [] → Forall (λ n, n ≠ dotdot) names →
  Forall (λ n, n = dotdot) ds →
  step_done abs stack n out gap r (the_step RELATIVE_WITH_N_DEPTH (length names)).
Proof.
  intros Ha Es Hne Hnd Hds. unfold the_step, canonicalize_step. case_bool_decide as Hd.
  - destruct names as [|d names]; [done|]. apply Forall_cons_1 in Hnd as [Hdd Hnd].
    destruct (step_pop d (names ++ ds) Es) as (G & E & HG). rewrite E. unfold mbind, result_bind.
    eexists G, _, _. rewrite Es, Hd. cbn [app]. rewrite enter_dotdot_name by done.
    split_and!; [done|by rewrite <- Hd|]. destruct names as [|m names]; simpl.
    + destruct ds as [|x ds]; simpl; [by rewrite Ha|].
      replace (length (render abs (x :: ds)) =? 0)%nat with false; [done|].
      symmetry. apply Nat.eqb_neq. destruct (render_last abs x ds) as (A & c & -> & _).
      * rewrite Es in Hst. by apply Forall_app in Hst as [_ Hst].
      * rewrite length_app. simpl. lia.
    + split; [done|]. exists (m :: names), ds. done.
  - destruct step_next as (G & E & HG). { rewrite Es. by destruct names. }
    rewrite E. unfold mbind, result_bind.
    eexists G, _, _. rewrite enter_name by done. split_and!; [done|done|].
    split; [done|]. exists (n :: names), ds. rewrite Es.
    split_and!; [done|done|by constructor|done|done].
Qed.

Lemma step_relative_parent depth :
  state_ok abs stack RELATIVE_WITH_PARENT_REF depth →
  step_done abs stack n out gap r (the_step RELATIVE_WITH_PARENT_REF depth).
Proof.
  intros (Ha & Hne & Hds). unfold the_step, canonicalize_step.
  destruct (step_next Hne) as (G & E & HG). rewrite E. unfold mbind, result_bind.
  case_bool_decide as Hd.
  - assert (Ee : enter abs stack n = n :: stack).
    { destruct stack as [|x stack']; [done|]. apply Forall_cons_1 in Hds as [-> _]. by rewrite Hd. }
    eexists G, _, _. rewrite Ee. split_and!; [done|done|]. split_and!; [done|done|by constructor].
  - eexists G, _, _. rewrite enter_name by done. split_and!; [done|done|].
    split; [done|]. exists [n], stack. split_and!; [done|done|by constructor|done|done].
Qed.

Lemma canonicalize_step_spec state depth :
  state_ok abs stack state depth → step_done abs stack n out gap r (the_step state depth).
Proof.
  intros Hs. pose proof Hs as Hs'. destruct state; simpl in Hs'.
  - destruct Hs' as (? & ? & ->). by apply step_absolute_init.
  - destruct Hs' as (_ & _ & _ & ->). by apply step_absolute_depth.
  - destruct Hs' as (? & ? & ->). by apply step_relative_init.
  - destruct Hs' as (? & names & ds & ? & ? & ? & ? & ->). by apply (step_relative_depth names ds).
  - by apply step_relative_parent.
Qed.
End Step.

(** ** The loop over the components *)

Lemma find_sep_spec A n c B fuel :
  Forall (λ c, c ≠ 0 ∧ c ≠ SLASH)%Z n → (c = 0 ∨ c = SLASH)%Z → (length n < fuel)%nat →
  find_sep fuel (A ++ n ++ c :: B) (length A) = Ok (length A + length n)%nat.
Proof.
  intros Hn Hc. revert A fuel. induction n as [|a n IH]; intros A fuel Hf;
    (destruct fuel as [|fuel]; [simpl in Hf; lia|]); cbn [find_sep app]; rewrite rd_app;
    unfold mbind, result_bind.
  - rewrite Nat.add_0_r. unfold IS_DIR_SEP.
    destruct Hc as [-> | ->]; [done|]. by rewrite Z.eqb_refl, orb_true_r.
  - apply Forall_cons_1 in Hn as [[Ha Ha'] Hn]. rewrite is_sep_false, orb_false_r by done.
    rewrite (proj2 (Z.eqb_neq _ _) Ha).
    specialize (IH Hn (A ++ [a]) fuel). rewrite <- app_assoc, length_app in IH. cbn [app length] in IH.
    rewrite Nat.add_1_r in IH. rewrite IH by (simpl in Hf; lia). f_equal. simpl. lia.
Qed.

(** What follows a component once it is split off. *)
Definition rest (cs : list bytes) (tail : bytes) : bytes :=
  match cs with [] => tail | _ => join cs ++ 0%Z :: tail end.
Definition gap_after (cs : list bytes) (G : bytes) : bytes :=
  match cs with [] => G | _ => G ++ [0%Z] end.

Lemma gap_after_rest cs G tail : G ++ 0%Z :: rest cs tail = gap_after cs G ++ join cs ++ 0%Z :: tail.
Proof. destruct cs; [done|]. simpl. by rewrite <- app_assoc. Qed.

(** Splitting off a component, as the loop does. *)
Definition split_off (b : bytes) (unparse : nat) : result (bytes * nat) :=
  next ← find_sep (S (length b)) b unparse;
  c ← rd b next;
  if (c =? 0)%Z then Ok (b, next) else b ← wr b next 0; Ok (b, S next).

Lemma split_off_spec A n cs tail :
  name_ok n →
  split_off (A ++ join (n :: cs) ++ 0%Z :: tail) (length A)
  = Ok (A ++ n ++ 0%Z :: rest cs tail, (length A + length (gap_after cs n))%nat).
Proof.
  intros [_ Hn]. unfold split_off. destruct cs as [|m cs].
  - cbn [join]. rewrite find_sep_spec; [|done|by left|rewrite !length_app; lia].
    unfold mbind, result_bind. rewrite app_assoc, <- length_app, rd_app. simpl.
    rewrite <- app_assoc, length_app. done.
  - rewrite join_cons by done. rewrite <- (app_assoc n). cbn [app].
    rewrite find_sep_spec; [|done|by right|rewrite !length_app; lia].
    unfold mbind, result_bind. rewrite (app_assoc A), <- length_app, rd_app. simpl.
    rewrite wr_app, <- app_assoc. do 2 f_equal. rewrite !length_app. simpl. lia.
Qed.

(** The loop in terms of [split_off]. *)
Lemma canonicalize_loop_unfold fuel b spath parsed unparse state depth c :
  rd b unparse = Ok c → c ≠ 0%Z →
  canonicalize_loop (S fuel) b spath parsed unparse state depth =
    ('(b, next) ← split_off b unparse;
     name ← cstring_at b unparse;
     if decide (name = [DOT])
     then canonicalize_loop fuel b spath parsed next state depth
     else
       '(b, parsed, state, pathdepth) ←
         canonicalize_step b spath parsed unparse (bool_decide (name = [DOT; DOT])) state depth;
       canonicalize_loop fuel b spath parsed next state pathdepth).
Proof.
  intros E Hc. cbn [canonicalize_loop]. rewrite E. unfold mbind at 1, result_bind at 1.
  rewrite (proj2 (Z.eqb_neq _ _) Hc). unfold split_off, mbind, result_bind.
  destruct (find_sep _ _ _) as [next|e|w]; [|done|done]. destruct (rd b next) as [d|e|w]; [|done|done].
  destruct (d =? 0)%Z; [done|]. by destruct (wr _ _ _).
Qed.

Lemma enter_ok abs stack n : Forall name_ok stack → name_ok n → Forall name_ok (enter abs stack n).
Proof.
  intros Hs Hn. unfold enter. case_decide; [done|]. case_decide; [|by constructor].
  destruct stack as [|d stack]; [destruct abs; auto|].
  pose proof Hs as [_ Hs']%Forall_cons_1. case_decide; [by constructor|done].
Qed.

Lemma canonicalize_loop_spec abs cs : ∀ stack state depth gap tail fuel,
  Forall name_ok stack → Forall name_ok cs → state_ok abs stack state depth →
  (stack ≠ [] → cs ≠ [] → gap ≠ []) → (length cs < fuel)%nat →
  let out := render abs stack in
  let out' := render abs (foldl (enter abs) stack cs) in
  ∃ c tail', canonicalize_loop fuel (out ++ gap ++ join cs ++ 0%Z :: tail) 0 (length out)
             (length (out ++ gap)) state depth = Ok (out' ++ c :: tail', length out') ∧
    (length out' + length tail' = length out + length gap + length (join cs) + length tail)%nat.
Proof.
  induction cs as [|n cs IH]; intros stack state depth gap tail fuel Hst Hcs Hs Hgap Hf out out';
    (destruct fuel as [|fuel]; [simpl in Hf; lia|]).
  { cbn [canonicalize_loop join app]. rewrite (app_assoc out), rd_app. unfold mbind, result_bind.
    simpl. rewrite <- app_assoc. destruct gap as [|g gap]; simpl; eexists _, _;
      (split; [done|]); simpl; rewrite ?length_app; simpl; unfold out', out; simpl; lia. }
  apply Forall_cons_1 in Hcs as [Hn Hcs].
  assert (Hc : ∃ c, rd (out ++ gap ++ join (n :: cs) ++ 0%Z :: tail) (length (out ++ gap)) = Ok c ∧ c ≠ 0%Z).
  { destruct Hn as [Hne Hn]. destruct n as [|c n]; [done|]. exists c.
    apply Forall_cons_1 in Hn as [[Hc _] _]. split; [|done]. rewrite (app_assoc out).
    destruct cs; apply rd_app. }
  destruct Hc as (c & Ec & Hc). rewrite (canonicalize_loop_unfold _ _ _ _ _ _ _ c Ec Hc).
  rewrite (app_assoc out), (split_off_spec _ _ _ _ Hn). unfold mbind at 1, result_bind at 1.
  rewrite cstring_at_app by by apply name_text. unfold mbind at 1, result_bind at 1.
  assert (Hlen : length (join (n :: cs)) = (length (gap_after cs n) + length (join cs))%nat).
  { destruct cs; [simpl; lia|]. rewrite join_cons by done. simpl. rewrite !length_app. simpl. lia. }
  assert (Hgl : ∀ G, length (gap_after cs (G ++ n)) = (length G + length (gap_after cs n))%nat).
  { intros G. destruct cs; simpl; rewrite !length_app; simpl; lia. }
  unfold out'. cbn [foldl]. case_decide as Hd.
  - (* "." *)
    assert (Ee : enter abs stack n = stack) by (unfold enter; by rewrite decide_True). rewrite Ee.
    destruct (IH stack state depth (gap_after cs (gap ++ n)) tail fuel) as (c' & tail' & E & Hl);
      [done|done|done| |simpl in Hf; lia|].
    { intros _ Hne. destruct cs; [done|]. simpl. by destruct (gap ++ n). }
    exists c', tail'. rewrite <- E, <- (app_assoc out), <- (gap_after_rest cs (gap ++ n)), <- app_assoc.
    rewrite Hgl in Hl. fold out in Hl. split; [|lia]. f_equal. fold out. rewrite !length_app, Hgl. lia.
  - destruct (canonicalize_step_spec abs stack gap n (rest cs tail) Hst Hn Hd) with (state := state)
      (depth := depth) as (G & state' & depth' & E & Hl & Hs'); [|done|].
    { intros Hne. by apply Hgap. }
    unfold the_step, dotdot in E. fold out in E. rewrite <- (app_assoc out), E. clear E.
    unfold mbind, result_bind.
    destruct (IH (enter abs stack n) state' depth' (gap_after cs G) tail fuel)
      as (c' & tail' & E & Hl'); [by apply enter_ok|done|done| |simpl in Hf; lia|].
    { intros _ Hne. destruct cs; [done|]. simpl. by destruct G. }
    exists c', tail'. rewrite <- E, <- gap_after_rest. fold out in Hl.
    assert (HG : (length (gap_after cs G) + length n = length G + length (gap_after cs n))%nat).
    { destruct cs; simpl; rewrite ?length_app; simpl; lia. }
    split; [|lia]. f_equal. rewrite !length_app. lia.
Qed.

(** ** Trailing and adjacent separators *)

(** A string the last byte of which is not a slash. *)
Definition no_trailing (s : bytes) : Prop := ∃ A c, s = A ++ [c] ∧ c ≠ SLASH.

Lemma no_trailing_cons c s : s ≠ [] → no_trailing (c :: s) → no_trailing s.
Proof.
  intros Hne (A & d & E & Hd). destruct A as [|a A]; simplify_list_eq. by exists A, d.
Qed.

Lemma trim_loop_spec A k R :
  length A = 1%nat ∨ no_trailing A →
  trim_loop (pred (length A + k)) (A ++ replicate k SLASH ++ R) = Ok (A ++ replicate k 0%Z ++ R).
Proof.
  intros HA. revert R. induction k as [|k IH]; intros R; simpl app.
  - rewrite Nat.add_0_r. destruct HA as [-> | (B & c & -> & Hc)]; [done|].
    rewrite length_app. simpl. replace (pred (length B + 1)) with (length B) by lia.
    rewrite <- app_assoc. destruct (length B) eqn:EB; cbn [trim_loop]; [done|].
    rewrite <- EB. simpl app. rewrite rd_app. unfold mbind, result_bind. by rewrite is_sep_false.
  - assert (HA1 : (1 <= length A)%nat).
    { destruct HA as [->|(B & c & -> & _)]; [lia|]. rewrite length_app. simpl. lia. }
    replace (pred (length A + S k)) with (S (pred (length A + k))) by lia. cbn [trim_loop].
    replace (S (pred (length A + k))) with (length (A ++ replicate k SLASH))
      by (rewrite length_app, length_replicate; lia).
    assert (E : ∀ z, z :: replicate k z ++ R = replicate k z ++ z :: R).
    { intros z. change (z :: replicate k z ++ R) with (replicate (S k) z ++ R).
      by rewrite replicate_S_end, <- app_assoc. }
    rewrite !E, (app_assoc A), rd_app. unfold mbind at 1, result_bind at 1.
    unfold IS_DIR_SEP. rewrite Z.eqb_refl, wr_app. unfold mbind, result_bind.
    rewrite <- app_assoc. apply IH.
Qed.

Lemma trailing_slashes s : s ≠ [] →
  ∃ A k, s = A ++ replicate k SLASH ∧ (no_trailing A ∨ A = [SLASH]).
Proof.
  induction s as [|c s IH] using rev_ind; intros Hne; [done|]. destruct (decide (c = SLASH)) as [->|Hc].
  - destruct s as [|a s']; [exists [SLASH], O; auto|].
    destruct IH as (A & k & E & HA); [done|]. exists A, (S k).
    split; [|done]. by rewrite replicate_S_end, E, app_assoc.
  - exists (s ++ [c]), O. rewrite app_nil_r. split; [done|]. left. by exists s, c.
Qed.

Lemma trim_trailing_separator_spec A k B :
  text_ok A → no_trailing A ∨ A = [SLASH] →
  trim_trailing_separator (A ++ replicate k SLASH ++ 0%Z :: B) = Ok (A ++ replicate k 0%Z ++ 0%Z :: B).
Proof.
  intros Ht HA. unfold trim_trailing_separator.
  assert (Ht' : text_ok (A ++ replicate k SLASH)).
  { apply Forall_app. split; [done|]. by apply Forall_replicate. }
  rewrite app_assoc, cstring_at_0 by done. unfold mbind, result_bind.
  destruct (length (A ++ replicate k SLASH)) as [|n] eqn:E.
  - rewrite length_app in E. destruct HA as [(A' & c & -> & _)| ->];
      rewrite ?length_app in E; simpl in E; lia.
  - rewrite <- app_assoc. rewrite length_app, length_replicate in E.
    replace n with (pred (length A + k)) by lia. apply trim_loop_spec.
    destruct HA as [?| ->]; auto.
Qed.

(** The string without adjacent separators; [ws]: a separator comes before. *)
Fixpoint dedup (ws : bool) (s : bytes) : bytes :=
  match s with
  | [] => []
  | c :: s' => if IS_DIR_SEP c && ws then dedup true s' else c :: dedup (IS_DIR_SEP c) s'
  end.

Lemma skip_seps_true A j c B fuel :
  c ≠ SLASH → (j < fuel)%nat →
  skip_seps fuel (A ++ replicate j SLASH ++ c :: B) (length A) true = Ok (length A + j)%nat.
Proof.
  intros Hc. revert A fuel. induction j as [|j IH]; intros A fuel Hf;
    (destruct fuel as [|fuel]; [lia|]); cbn [skip_seps replicate app]; rewrite rd_app;
    unfold mbind, result_bind.
  - rewrite is_sep_false by done. by rewrite Nat.add_0_r.
  - unfold IS_DIR_SEP. rewrite Z.eqb_refl. cbn [andb].
    specialize (IH (A ++ [SLASH]) fuel). rewrite <- app_assoc, length_app in IH.
    cbn [app length] in IH. rewrite Nat.add_1_r in IH. rewrite IH by lia. f_equal. lia.
Qed.

Lemma leading_slashes s : no_trailing s →
  ∃ j c s', s = replicate j SLASH ++ c :: s' ∧ c ≠ SLASH.
Proof.
  induction s as [|a s IH]; intros Hs; [by destruct Hs as ([] & ? & ? & _)|].
  destruct (decide (a = SLASH)) as [->|Ha]; [|by exists O, a, s].
  destruct s as [|b s]; [by destruct Hs as ([|? []] & ? & ? & ?); simplify_list_eq|].
  destruct IH as (j & c & s' & -> & Hc); [by apply (no_trailing_cons SLASH)|].
  by exists (S j), c, s'.
Qed.

Lemma dedup_slashes j c s : c ≠ SLASH → dedup true (replicate j SLASH ++ c :: s) = c :: dedup false s.
Proof.
  intros Hc. induction j as [|j IH]; simpl; [by rewrite is_sep_false|exact IH].
Qed.

(** What is left to read when [ws] tells if a separator was copied last. *)
Definition dedup_ok (ws : bool) (s : bytes) : Prop :=
  s = [] ∨ no_trailing s ∨ (ws = false ∧ s = [SLASH]).

Lemma dedup_turn ws s B :
  s ≠ [] → dedup_ok ws s →
  ∃ j c s', s = replicate j SLASH ++ c :: s' ∧ dedup ws s = c :: dedup (IS_DIR_SEP c) s' ∧
    dedup_ok (IS_DIR_SEP c) s' ∧
    ∀ A fuel, (j < fuel)%nat →
      skip_seps fuel (A ++ s ++ B) (length A) ws = Ok (length A + j)%nat.
Proof.
  intros Hne Hok. destruct ws.
  - destruct Hok as [?|[Hs|[? _]]]; [done| |done].
    destruct (leading_slashes s Hs) as (j & c & s' & -> & Hc). exists j, c, s'.
    rewrite dedup_slashes, is_sep_false by done. split_and!; [done|done| |].
    + destruct s' as [|d s']; [by left|]. right. left. clear Hne. induction j as [|j IH].
      * by apply (no_trailing_cons c).
      * apply IH. apply (no_trailing_cons SLASH); [by destruct j|done].
    + intros A fuel Hf. rewrite <- app_assoc. by apply skip_seps_true.
  - destruct s as [|c s']; [done|]. exists O, c, s'. simpl. rewrite andb_false_r.
    split_and!; [done|done| |].
    + destruct s' as [|d s']; [by left|]. right. left.
      destruct Hok as [?|[Hs|[_ ?]]]; [done| |done]. by apply (no_trailing_cons c).
    + intros A fuel Hf. destruct fuel; [lia|]. cbn [skip_seps]. rewrite rd_app.
      unfold mbind, result_bind. by rewrite andb_false_r, Nat.add_0_r.
Qed.

(** A copied byte extends the output by one and leaves the rest in place. *)
Lemma copy_byte out gap c B :
  ∃ gap', (if (length out =? length (out ++ gap))%nat then Ok (out ++ gap ++ c :: B)
           else wr (out ++ gap ++ c :: B) (length out) c) = Ok ((out ++ [c]) ++ gap' ++ B) ∧
    length gap' = length gap.
Proof.
  destruct gap as [|g gap].
  - exists []. rewrite app_nil_r, Nat.eqb_refl. by rewrite <- app_assoc.
  - rewrite (proj2 (Nat.eqb_neq _ _)) by (rewrite length_app; simpl; lia).
    cbn [app]. rewrite wr_app. exists (gap ++ [c]). rewrite <- !app_assoc, length_app.
    split; [done|]. simpl. lia.
Qed.

Lemma dedup_loop_spec fuel : ∀ s out gap ws R,
  (length s < fuel)%nat → text_ok s → dedup_ok ws s →
  ∃ R', dedup_loop fuel (out ++ gap ++ s ++ 0%Z :: R) (length (out ++ gap)) (length out) ws
        = Ok (out ++ dedup ws s ++ 0%Z :: R') ∧
    (length (dedup ws s) + length R' = length gap + length s + length R)%nat.
Proof.
  induction fuel as [|fuel IH]; intros s out gap ws R Hf Ht Hok; [lia|]. cbn [dedup_loop].
  destruct (decide (s = [])) as [->|Hne].
  { rewrite app_assoc. cbn [app]. rewrite rd_app. unfold mbind, result_bind. simpl.
    rewrite <- app_assoc. destruct gap as [|g gap]; cbn [app]; rewrite wr_app.
    - exists R. split; [done|]. simpl. lia.
    - exists (gap ++ 0%Z :: R). split; [done|]. rewrite length_app. simpl. lia. }
  destruct (dedup_turn ws s (0%Z :: R) Hne Hok) as (j & c & s' & Es & Ed & Hok' & Hskip).
  assert (Ec : ∃ a, rd (out ++ gap ++ s ++ 0%Z :: R) (length (out ++ gap)) = Ok a ∧ a ≠ 0%Z).
  { destruct s as [|a s0]; [done|]. exists a. rewrite app_assoc. split; [apply rd_app|].
    by apply Forall_cons_1 in Ht as [? _]. }
  destruct Ec as (a & Ec & Ha). rewrite Ec. unfold mbind at 1, result_bind at 1.
  rewrite (proj2 (Z.eqb_neq _ _) Ha).
  assert (Hj : (length s = j + S (length s'))%nat)
    by (rewrite Es, length_app, length_replicate; simpl; lia).
  assert (Esk : skip_seps (S (length (out ++ gap ++ s ++ 0%Z :: R))) (out ++ gap ++ s ++ 0%Z :: R)
                  (length (out ++ gap)) ws = Ok (length (out ++ gap) + j)%nat).
  { rewrite (app_assoc out gap (s ++ _)). apply Hskip. rewrite !length_app. lia. }
  rewrite Esk. unfold mbind at 1, result_bind at 1.
  set (gap1 := gap ++ replicate j SLASH).
  assert (Eb : out ++ gap ++ s ++ 0%Z :: R = out ++ gap1 ++ c :: s' ++ 0%Z :: R)
    by (unfold gap1; rewrite Es, <- !app_assoc; done).
  assert (Ep : (length (out ++ gap) + j)%nat = length (out ++ gap1))
    by (unfold gap1; rewrite !length_app, length_replicate; lia).
  rewrite Eb, Ep, (app_assoc out gap1), rd_app, <- (app_assoc out gap1).
  unfold mbind at 1, result_bind at 1.
  destruct (copy_byte out gap1 c (s' ++ 0%Z :: R)) as (gap' & E & Hg). rewrite E.
  unfold mbind, result_bind.
  destruct (IH s' (out ++ [c]) gap' (IS_DIR_SEP c) R) as (R' & E' & Hl);
    [lia| |done|].
  { rewrite Es in Ht. apply Forall_app in Ht as [_ Ht]. by apply Forall_cons_1 in Ht as [_ Ht]. }
  replace (S (length (out ++ gap1))) with (length ((out ++ [c]) ++ gap'))
    by (rewrite !length_app; simpl; lia).
  replace (S (length out)) with (length (out ++ [c])) by (rewrite length_app; simpl; lia).
  rewrite E', Ed. exists R'. rewrite <- app_assoc. split; [done|].
  unfold gap1 in Hg. rewrite length_app, length_replicate in Hg. simpl. lia.
Qed.

(** ** Components *)

Lemma split_cons_slash s : split (SLASH :: s) = [] :: split s.
Proof. done. Qed.

Lemma split_cons c s n ns : c ≠ SLASH → split s = n :: ns → split (c :: s) = (c :: n) :: ns.
Proof. intros Hc E. cbn [split]. by rewrite (proj2 (Z.eqb_neq _ _) Hc), E. Qed.

Lemma split_nonempty s : ∃ n ns, split s = n :: ns.
Proof.
  destruct s as [|c s]; simpl; [eauto|]. destruct (c =? SLASH)%Z; [eauto|].
  destruct (split s); eauto.
Qed.

Lemma split_snoc_slash s : split (s ++ [SLASH]) = split s ++ [[]].
Proof.
  induction s as [|c s IH]; [done|]. cbn [app]. destruct (decide (c = SLASH)) as [->|Hc].
  - by rewrite !split_cons_slash, IH.
  - destruct (split_nonempty s) as (n & ns & E).
    rewrite (split_cons c s n ns Hc E), (split_cons c (s ++ [SLASH]) n (ns ++ [[]]) Hc); [done|].
    by rewrite IH, E.
Qed.

Lemma components_trailing s k : components (s ++ replicate k SLASH) = components s.
Proof.
  induction k as [|k IH]; [by rewrite app_nil_r|].
  rewrite replicate_S_end, app_assoc. unfold components in *.
  rewrite split_snoc_slash, list.filter_app, IH. apply app_nil_r.
Qed.

Lemma components_slash s : components (SLASH :: s) = components s.
Proof. done. Qed.

Lemma split_names s : text_ok s → Forall (Forall (λ c, c ≠ 0 ∧ c ≠ SLASH)%Z) (split s).
Proof.
  induction 1 as [|c s Hc Hs IH]; [by repeat constructor|].
  destruct (decide (c = SLASH)) as [->|Hne]; [by constructor|].
  destruct (split_nonempty s) as (n & ns & E). rewrite (split_cons c s n ns Hne E).
  rewrite E in IH. apply Forall_cons_1 in IH as [Hn Hns]. by repeat constructor.
Qed.

Lemma components_ok s : text_ok s → Forall name_ok (components s).
Proof.
  intros Hs%split_names. apply Forall_forall. intros n [Hne Hin]%list_elem_of_filter.
  split; [done|]. by apply (proj1 (Forall_forall _ _) Hs).
Qed.

Lemma components_nonempty s : no_trailing s → components s ≠ [].
Proof.
  induction s as [|c s IH]; intros Hs; [by destruct Hs as ([] & ? & ? & _)|].
  destruct (decide (c = SLASH)) as [->|Hc].
  - rewrite components_slash. apply IH. destruct s as [|b s].
    + by destruct Hs as ([|? []] & ? & ? & ?); simplify_list_eq.
    + by apply (no_trailing_cons SLASH).
  - destruct (split_nonempty s) as (n & ns & E). unfold components.
    by rewrite (split_cons c s n ns Hc E), filter_cons_True.
Qed.

Lemma join_components_cons c s : c ≠ SLASH → dedup_ok true s →
  join (components (c :: s)) = c :: root (is_absolute_path s) ++ join (components s).
Proof.
  intros Hc Hok. destruct s as [|d s].
  { unfold components. by rewrite (split_cons c [] [] []). }
  destruct Hok as [?|[Hs|[? _]]]; [done| |done].
  destruct (decide (d = SLASH)) as [->|Hd].
  - pose proof (components_nonempty _ Hs) as Hne. rewrite components_slash in *.
    unfold components at 1. rewrite (split_cons c (SLASH :: s) [] (split s)) by done.
    rewrite filter_cons_True by done. fold (components s). rewrite join_cons by done. done.
  - destruct (split_nonempty s) as (n & ns & E). unfold components.
    rewrite (split_cons c (d :: s) (d :: n) ns), (split_cons d s n ns) by (done || by apply split_cons).
    rewrite !filter_cons_True by done. simpl. rewrite is_sep_false by done.
    by destruct (filter _ ns).
Qed.

Lemma dedup_components s : dedup_ok true s →
  dedup true s = join (components s) ∧ dedup false s = root (is_absolute_path s) ++ join (components s).
Proof.
  induction s as [|c s IH]; intros Hok; [done|].
  assert (Hs : dedup_ok true s).
  { destruct s as [|d s]; [by left|]. right. left. destruct Hok as [?|[Hs|[? _]]]; [done| |done].
    by apply (no_trailing_cons c). }
  destruct (IH Hs) as [IH1 IH2]. destruct (decide (c = SLASH)) as [->|Hc].
  { rewrite components_slash. simpl. by rewrite IH1. }
  rewrite join_components_cons by done. simpl. rewrite is_sep_false by done. simpl.
  by rewrite IH2.
Qed.

(** ** The theorem *)

(** The string once it is trimmed and without adjacent separators. *)
Lemma dedup_trimmed A k : no_trailing A ∨ A = [SLASH] →
  dedup false A = root (is_absolute_path (A ++ replicate k SLASH))
                    ++ join (components (A ++ replicate k SLASH)).
Proof.
  intros HA. rewrite components_trailing.
  replace (is_absolute_path (A ++ replicate k SLASH)) with (is_absolute_path A).
  2:{ destruct A; [|done]. by destruct HA as [([] & ? & ? & _)|]. }
  destruct HA as [HA| ->]; [|done]. apply dedup_components. by right; left.
Qed.

(** The loop started on a path whose components are [cs]. *)
Lemma canonicalize_start abs cs R :
  Forall name_ok cs → abs = true ∨ cs ≠ [] →
  let b := root abs ++ join cs ++ 0%Z :: R in
  let p := render abs (foldl (enter abs) [] cs) in
  ∃ c, rd b 0 = Ok c ∧ c ≠ 0%Z ∧ (c =? SLASH)%Z = abs ∧
  ∃ d R', canonicalize_loop (S (length b)) b 0 (length (root abs)) (length (root abs))
          (if abs then ABSOLUTE_PATH_INIT else RELATIVE_PATH_INIT) 0
        = Ok (p ++ d :: R', length p) ∧ (length p + S (length R') = length b)%nat.
Proof.
  intros Hcs Hne b p.
  destruct (canonicalize_loop_spec abs cs [] (if abs then ABSOLUTE_PATH_INIT else RELATIVE_PATH_INIT)
    0 [] R (S (length b))) as (d & R' & E & Hl); [done|done|by destruct abs|done| |].
  { unfold b. rewrite !length_app.
    assert (Hj : (length cs <= S (length (join cs)))%nat).
    { clear. induction cs as [|n cs IH]; [simpl; lia|]. destruct cs as [|m cs]; [simpl; lia|].
      rewrite join_cons by done. rewrite length_app. simpl in *. lia. }
    simpl. lia. }
  rewrite render_nil, app_nil_r in E. rewrite render_nil in Hl.
  assert (Hc : ∃ c, rd b 0 = Ok c ∧ c ≠ 0%Z ∧ (c =? SLASH)%Z = abs).
  { unfold b. destruct abs; [by exists SLASH|]. destruct Hne as [?|Hne]; [done|].
    destruct cs as [|n cs]; [done|]. apply Forall_cons_1 in Hcs as [[Hn Hall] _].
    destruct n as [|a n]; [done|]. apply Forall_cons_1 in Hall as [[Ha Hs] _]. exists a.
    split_and!; [by destruct cs|done|by apply Z.eqb_neq]. }
  destruct Hc as (c & ? & ? & ?). exists c. split_and!; [done|done|done|].
  exists d, R'. split; [exact E|]. unfold b, p. rewrite !length_app. simpl in *. lia.
Qed.

(** The end of the function: [.] for an empty result, and the terminator. *)
Lemma finish_spec p d R :
  p ≠ [] ∨ R ≠ [] →
  ∃ R', ('(b, parsed) ← (if (length p =? 0)%nat
           then b ← wr (p ++ d :: R) (length p) DOT; Ok (b, S (length p))
           else Ok (p ++ d :: R, length p));
         wr b parsed 0) = Ok ((if decide (p = []) then [DOT] else p) ++ 0%Z :: R') ∧
    (length (if decide (p = []) then [DOT] else p) + length R' = length p + length R)%nat.
Proof.
  intros Hne. destruct p as [|c p]; cbn -[wr].
  - destruct R as [|e R]; [by destruct Hne|]. exists R. rewrite_at (wr_app [] d DOT (e :: R)).
    unfold mbind, result_bind. rewrite_at (wr_app [DOT] e 0%Z R). done.
  - exists R. unfold mbind, result_bind. rewrite_at (wr_app (c :: p) d 0%Z R). done.
Qed.

(** The path with its trailing and adjacent separators removed. *)
Lemma prepare_spec s B :
  text_ok s → s ≠ [] →
  let abs := is_absolute_path s in
  let cs := components s in
  (abs = true ∨ cs ≠ []) ∧
  ∃ R, (b ← trim_trailing_separator (s ++ 0%Z :: B); dedup_loop (S (length b)) b 0 0 false)
       = Ok (root abs ++ join cs ++ 0%Z :: R) ∧
    length (root abs ++ join cs ++ 0%Z :: R) = (length s + 1 + length B)%nat.
Proof.
  intros Ht Hne abs cs. destruct (trailing_slashes s Hne) as (A & k & Es & HA).
  assert (HtA : text_ok A) by (rewrite Es in Ht; by apply Forall_app in Ht as [Ht _]).
  split.
  { unfold abs, cs. rewrite Es, components_trailing. destruct HA as [HA| ->]; [|by left].
    right. by apply components_nonempty. }
  replace (s ++ 0%Z :: B) with (A ++ replicate k SLASH ++ 0%Z :: B) by (rewrite Es, <- app_assoc; done).
  rewrite trim_trailing_separator_spec by done. unfold mbind, result_bind.
  assert (El : ∃ R0, A ++ replicate k 0%Z ++ 0%Z :: B = A ++ 0%Z :: R0 ∧ length R0 = (k + length B)%nat).
  { exists (replicate k 0%Z ++ B). rewrite length_app, length_replicate. split; [|done]. f_equal.
    clear. induction k as [|k IH]; [done|]. simpl. by rewrite IH. }
  destruct El as (R0 & -> & HR0).
  destruct (dedup_loop_spec (S (length (A ++ 0%Z :: R0))) A [] [] false R0) as (R1 & E1 & Hl1);
    [rewrite length_app; simpl; lia|done|destruct HA as [HA| ->]; [by right; left|by right; right]|].
  rewrite (dedup_trimmed A k HA), <- Es in E1, Hl1. fold abs cs in E1, Hl1.
  cbn [app length] in E1, Hl1. rewrite <- app_assoc in E1. exists R1. split; [exact E1|].
  apply (f_equal length) in Es. rewrite length_app, length_replicate in Es.
  rewrite length_app in Hl1. rewrite !length_app. simpl. lia.
Qed.

Lemma canonicalize_path_ok s B :
  text_ok s →
  ∃ R, canonicalize_path (s ++ 0%Z :: B) = Ok (normalize s ++ 0%Z :: R) ∧
    (length (normalize s) + length R = length s + length B)%nat.
Proof.
  intros Ht. destruct (decide (s = [])) as [->|Hne]; [by exists B|].
  destruct (prepare_spec s B Ht Hne) as (Hcs & R1 & E1 & Hl1).
  set (abs := is_absolute_path s) in *. set (cs := components s) in *.
  destruct (canonicalize_start abs cs R1) as (c & Ec & Hc & Hcs' & d & R2 & E2 & Hl2);
    [by apply components_ok|done|].
  set (p := render abs (foldl (enter abs) [] cs)) in *.
  assert (En : normalize s = if decide (p = []) then [DOT] else p) by (by destruct s).
  destruct (finish_spec p d R2) as (R & E3 & Hl3).
  { destruct p; [right|by left]. simpl in Hl2. destruct R2; [|done]. destruct s; simpl in *; [done|lia]. }
  exists R. rewrite En. split; [|lia]. rewrite <- E3. unfold canonicalize_path.
  unfold mbind at 1, result_bind at 1 in E1.
  destruct (trim_trailing_separator _) as [b|?|?]; [|done|done]. unfold mbind at 1, result_bind at 1.
  rewrite E1. unfold mbind at 1, result_bind at 1. rewrite Ec. unfold mbind at 1, result_bind at 1.
  rewrite (proj2 (Z.eqb_neq _ _) Hc), Hcs'.
  destruct abs; cbn [root app length] in *; rewrite E2; done.
Qed.

(** ** Canonical paths *)

(** A stack that [enter] builds: names above [..] components, which an
    absolute path does not have. *)
Definition canonical (abs : bool) (stack : list bytes) : Prop :=
  ∃ names ds, stack = names ++ ds ∧ Forall (λ n, name_ok n ∧ n ≠ [DOT] ∧ n ≠ dotdot) names ∧
    Forall (λ n, n = dotdot) ds ∧ (abs = true → ds = []).

Lemma dotdot_name_ok : name_ok dotdot.
Proof. by repeat constructor. Qed.

Lemma canonical_names abs stack : canonical abs stack → Forall name_ok stack.
Proof.
  intros (names & ds & -> & Hn & Hd & _). apply Forall_app. split.
  - eapply Forall_impl; [done|]. by intros n [].
  - eapply Forall_impl; [done|]. intros n ->. apply dotdot_name_ok.
Qed.

Lemma enter_canonical abs stack n : canonical abs stack → name_ok n → canonical abs (enter abs stack n).
Proof.
  intros (names & ds & -> & Hn & Hd & Ha) Hok. unfold enter. case_decide; [by exists names, ds|].
  case_decide as Edd.
  - destruct names as [|x names]; simpl.
    + assert (Hpush : abs = false → canonical abs (n :: ds)).
      { intros ->. exists [], (n :: ds). by repeat constructor. }
      destruct ds as [|d ds]; [destruct abs; [by exists [], []|by apply Hpush]|].
      pose proof Hd as [-> _]%Forall_cons_1. rewrite decide_True by done.
      destruct abs; [by discriminate (Ha eq_refl)|by apply Hpush].
    + apply Forall_cons_1 in Hn as [(_ & _ & Hx) Hn]. rewrite decide_False by done.
      by exists names, ds.
  - exists (n :: names), ds. split_and!; [done|by constructor|done|done].
Qed.

Lemma foldl_enter_canonical abs cs : ∀ stack,
  canonical abs stack → Forall name_ok cs → canonical abs (foldl (enter abs) stack cs).
Proof.
  induction cs as [|n cs IH]; intros stack Hs Hcs; [done|]. apply Forall_cons_1 in Hcs as [Hn Hcs].
  simpl. apply IH; [by apply enter_canonical|done].
Qed.

Lemma canonical_nil abs : canonical abs [].
Proof. by exists [], []. Qed.

(** Entering the components of a canonical stack builds it again. *)
Lemma foldl_enter_rev abs stack : canonical abs stack → foldl (enter abs) [] (rev stack) = stack.
Proof.
  induction stack as [|x stack IH]; intros (names & ds & E & Hn & Hd & Ha); [done|].
  simpl. rewrite foldl_app. simpl. destruct names as [|m names]; simplify_list_eq.
  - pose proof Hd as [-> Hd']%Forall_cons_1. rewrite IH by (exists [], stack; split_and!; auto; by intros ?%Ha).
    destruct stack as [|d stack]; [destruct abs; [by discriminate (Ha eq_refl)|done]|].
    by apply Forall_cons_1 in Hd' as [-> _].
  - apply Forall_cons_1 in Hn as [(_ & H1 & H2) Hn].
    rewrite IH by by exists names, ds. by rewrite enter_name.
Qed.

Lemma split_name n : Forall (λ c, c ≠ 0 ∧ c ≠ SLASH)%Z n → split n = [n].
Proof.
  induction 1 as [|c n [_ Hc] Hn IH]; [done|]. by rewrite (split_cons c n n []).
Qed.

Lemma split_app_slash n s : Forall (λ c, c ≠ 0 ∧ c ≠ SLASH)%Z n → split (n ++ SLASH :: s) = n :: split s.
Proof.
  induction 1 as [|c n [_ Hc] Hn IH]; [done|]. cbn [app]. by rewrite (split_cons c _ n (split s)).
Qed.

Lemma components_join ns : Forall name_ok ns → components (join ns) = ns.
Proof.
  unfold components. induction 1 as [|n ns [Hne Hn] Hns IH]; [done|]. destruct ns as [|m ns].
  - simpl. by rewrite split_name, filter_cons_True.
  - rewrite join_cons, split_app_slash, filter_cons_True by done. by rewrite IH.
Qed.

Lemma components_render abs stack : Forall name_ok stack → components (render abs stack) = rev stack.
Proof.
  intros Hs. unfold render. transitivity (components (join (rev stack))); [by destruct abs|].
  apply components_join. by apply Forall_rev.
Qed.

Lemma render_absolute abs stack : Forall name_ok stack → is_absolute_path (render abs stack) = abs.
Proof.
  intros Hs%Forall_rev. destruct abs; [done|]. unfold render. simpl.
  destruct (rev stack) as [|n ns]; [done|]. apply Forall_cons_1 in Hs as [[Hne Hn] _].
  destruct n as [|c n]; [done|]. apply Forall_cons_1 in Hn as [[_ Hc] _].
  destruct ns; by apply is_sep_false.
Qed.

(** The stack of a path. *)
Definition stack_of (s : bytes) : list bytes :=
  foldl (enter (is_absolute_path s)) [] (components s).

Lemma stack_of_canonical s : text_ok s → canonical (is_absolute_path s) (stack_of s).
Proof. intros Hs. apply foldl_enter_canonical; [apply canonical_nil|by apply components_ok]. Qed.

Lemma stack_of_render abs stack : canonical abs stack → stack_of (render abs stack) = stack.
Proof.
  intros Hc. pose proof (canonical_names _ _ Hc) as Hn. unfold stack_of.
  rewrite render_absolute, components_render by done. by apply foldl_enter_rev.
Qed.

Lemma normalize_render abs stack :
  canonical abs stack → render abs stack ≠ [] → normalize (render abs stack) = render abs stack.
Proof.
  intros Hc Hne. pose proof (stack_of_render _ _ Hc) as E. unfold stack_of in E.
  pose proof (canonical_names _ _ Hc) as Hn. rewrite render_absolute in E by done.
  unfold normalize. destruct (render abs stack) as [|c p] eqn:Er; [done|]. rewrite <- Er in *.
  rewrite render_absolute by done. rewrite E. by rewrite decide_False.
Qed.

Lemma normalize_eq s : s ≠ [] → normalize s =
  if decide (render (is_absolute_path s) (stack_of s) = []) then [DOT]
  else render (is_absolute_path s) (stack_of s).
Proof. by destruct s. Qed.

Lemma normalize_text s : text_ok s → text_ok (normalize s).
Proof.
  intros Hs. destruct (decide (s = [])) as [->|Hne]; [done|]. rewrite normalize_eq by done.
  case_decide; [by repeat constructor|]. apply render_text.
  eapply canonical_names. by apply stack_of_canonical.
Qed.

Lemma normalize_idempotent s : text_ok s → normalize (normalize s) = normalize s.
Proof.
  intros Hs. destruct (decide (s = [])) as [->|Hne]; [done|]. rewrite (normalize_eq s) by done.
  case_decide; [done|]. by apply normalize_render, H; apply stack_of_canonical.
Qed.

Lemma normalize_absolute s : text_ok s → is_absolute_path s = true →
  normalize s = render true (stack_of s).
Proof.
  intros Hs Ha. destruct s as [|c s]; [done|]. rewrite normalize_eq, Ha by done.
  by rewrite decide_False.
Qed.

(** C15. [canonicalize_path_15] leaves in its buffer exactly what [normalize]
    makes of the path, whatever follows the path in the buffer, and never
    reads or writes outside the buffer: rewriting in place is safe since the
    result is never longer than the path. *)
Theorem canonicalize_path_normalizes s B :
  text_ok s →
  ∃ R, canonicalize_path (s ++ 0%Z :: B) = Ok (normalize s ++ 0%Z :: R) ∧
    (length (normalize s) + length R = length s + length B)%nat.
Proof. apply canonicalize_path_ok. Qed.

(** A canonical path is left as it is, and an absolute canonical path is a
    slash followed by names joined by single slashes, none of them [.] or
    [..]. *)
Theorem canonicalize_path_canonical s B :
  text_ok s →
  ∃ c R R', canonicalize_path (s ++ 0%Z :: B) = Ok (c ++ 0%Z :: R) ∧
    canonicalize_path (c ++ 0%Z :: R) = Ok (c ++ 0%Z :: R') ∧
    (is_absolute_path s = true →
     ∃ names, c = SLASH :: join names ∧
       Forall (λ n, name_ok n ∧ n ≠ [DOT] ∧ n ≠ [DOT; DOT]) names).
Proof.
  intros Hs. destruct (canonicalize_path_ok s B Hs) as (R & E & _).
  destruct (canonicalize_path_ok (normalize s) R (normalize_text s Hs)) as (R' & E' & _).
  rewrite normalize_idempotent in E' by done. exists (normalize s), R, R'. split_and!; [done|done|].
  intros Ha. rewrite normalize_absolute by done. exists (rev (stack_of s)). split; [done|].
  destruct (stack_of_canonical s Hs) as (names & ds & -> & Hn & _ & Hd). rewrite Ha in Hd.
  rewrite (Hd eq_refl), app_nil_r. by apply Forall_rev.
Qed.

(** ** Absolute paths *)

Lemma getcwd_loop_ok d fuel buflen :
  (0 < buflen)%Z → (Z.of_nat (length d) + 1 <= buflen + Z.of_nat fuel - 1)%Z → (0 < fuel)%nat →
  getcwd_loop (Some d) fuel buflen = Ok d.
Proof.
  revert buflen. induction fuel as [|fuel IH]; intros buflen Hb Hd Hf; [lia|]. simpl.
  destruct (Z.leb_spec (Z.of_nat (length d) + 1) buflen); [done|].
  destruct fuel as [|fuel]; [lia|]. apply IH; lia.
Qed.

(** The path that [make_absolute_path] canonicalizes. *)
Definition absolute (d s : bytes) : bytes := if is_absolute_path s then s else d ++ SLASH :: s.

Lemma absolute_text d s : text_ok d → text_ok s → text_ok (absolute d s).
Proof.
  intros Hd Hs. unfold absolute. case_match; [done|]. apply Forall_app. split; [done|]. by constructor.
Qed.

Lemma absolute_absolute d s : is_absolute_path d = true → is_absolute_path (absolute d s) = true.
Proof. intros Hd. unfold absolute. case_match; [done|]. by destruct d. Qed.

Lemma make_absolute_path_ok d s :
  text_ok d → text_ok s → make_absolute_path (Some d) s = Ok (normalize (absolute d s)).
Proof.
  intros Hd Hs. pose proof (absolute_text d s Hd Hs) as Ht. unfold make_absolute_path.
  assert (E : (if is_absolute_path s then Ok (s ++ [0%Z])
    else buf ← getcwd_loop (Some d) (getcwd_fuel (Some d)) MAXPGPATH; Ok (buf ++ SLASH :: s ++ [0%Z]))
    = Ok (absolute d s ++ [0%Z])).
  { unfold absolute. case_match; [done|]. rewrite getcwd_loop_ok by (unfold MAXPGPATH, getcwd_fuel; lia).
    unfold mbind, result_bind. by rewrite <- app_assoc. }
  rewrite E. unfold mbind, result_bind.
  destruct (canonicalize_path_ok (absolute d s) [] Ht) as (R & -> & _).
  by rewrite cstring_at_0 by by apply normalize_text.
Qed.

(** ** Base names and directories *)

Lemma last_dir_separator_some s i :
  last_dir_separator s = Some i → s = take i s ++ SLASH :: drop (S i) s ∧ SLASH ∉ drop (S i) s.
Proof.
  revert i. induction s as [|c s IH]; intros i; [done|]. simpl.
  destruct (last_dir_separator s) as [j|] eqn:E.
  - intros [= <-]. destruct (IH j eq_refl) as [Es Hn]. simpl. split; [by rewrite <- Es|done].
  - destruct (IS_DIR_SEP c) eqn:Ec; [|done]. intros [= <-]. apply Z.eqb_eq in Ec as ->. simpl.
    rewrite drop_0. split; [done|]. clear IH. induction s as [|a s IH]; [by intros ?%not_elem_of_nil|]. simpl in E.
    destruct (last_dir_separator s); [done|]. destruct (IS_DIR_SEP a) eqn:Ea; [done|].
    apply Z.eqb_neq in Ea. apply not_elem_of_cons. split; [done|]. by apply IH.
Qed.

(** The directory and the base name of a path with a separator give it back. *)
Lemma dirname_basename s i d n :
  last_dir_separator s = Some i → file_dirname (Some s) = Some d → file_basename (Some s) = Some n →
  s = (if (0 <? i)%nat then d else []) ++ SLASH :: n ∧ SLASH ∉ n.
Proof.
  intros E Hd Hn. destruct (last_dir_separator_some s i E) as [Es Hsl].
  unfold file_dirname, file_basename in *. simpl in Hd, Hn. rewrite E in Hd, Hn.
  injection Hn as <-. split; [|done]. destruct i; simpl in Hd; injection Hd as <-; done.
Qed.

(** ** [canonicalize_path_pg] *)

Lemma normalize_nonempty s : s ≠ [] → normalize s ≠ [].
Proof. intros Hs. rewrite normalize_eq by done. by case_decide. Qed.

Lemma canonicalize_path_pg_ok s a :
  text_ok s → s ≠ [] →
  canonicalize_path_pg (Some s) (Some a)
  = Ok (Some (if a && negb (is_absolute_path (normalize s)) then SLASH :: normalize s
              else normalize s)).
Proof.
  intros Hs Hne. unfold canonicalize_path_pg. simpl.
  destruct (canonicalize_path_ok s [] Hs) as (R & E & _).
  destruct s as [|c s]; [done|]. simpl length. cbn [Nat.ltb Nat.leb]. rewrite E.
  unfold mbind, result_bind. rewrite cstring_at_0 by by apply normalize_text.
  destruct (normalize (c :: s)) as [|d p] eqn:En; [by apply normalize_nonempty in En|].
  cbn [app]. rewrite_at (rd_app [] d (p ++ 0%Z :: R)). simpl. by destruct (a && _).
Qed.

(** Made absolute by a slash in front, a path that climbs is not canonical:
    ["../x"] becomes ["/../x"], the canonical form of which is ["/x"]. *)
Lemma canonicalize_path_pg_climbs n :
  name_ok n → n ≠ [DOT] → n ≠ dotdot →
  canonicalize_path_pg (Some (dotdot ++ SLASH :: n)) (Some true)
  = Ok (Some (SLASH :: dotdot ++ SLASH :: n)) ∧
  normalize (SLASH :: dotdot ++ SLASH :: n) = SLASH :: n.
Proof.
  intros Hn H1 H2.
  assert (Hc : canonical false [n; dotdot]).
  { exists [n], [dotdot]. split_and!; [done|by apply Forall_singleton|by apply Forall_singleton|done]. }
  pose proof (normalize_render false [n; dotdot] Hc ltac:(done)) as E.
  change (render false [n; dotdot]) with (dotdot ++ SLASH :: n) in E.
  split.
  - rewrite canonicalize_path_pg_ok; [by rewrite E| |done].
    apply (render_text false [n; dotdot]). by eapply canonical_names.
  - rewrite normalize_absolute; [|constructor; [done|]|done].
    2:{ apply (render_text false [n; dotdot]). by eapply canonical_names. }
    assert (Ec : components (SLASH :: dotdot ++ SLASH :: n) = [dotdot; n]).
    { rewrite components_slash. apply (components_join [dotdot; n]).
      constructor; [apply dotdot_name_ok|by apply Forall_singleton]. }
    unfold stack_of. rewrite Ec. simpl. by rewrite enter_name.
Qed.

(** ** Concrete paths *)

Definition of_string (s : string) : bytes :=
  (λ c, Z.of_nat (nat_of_ascii c)) <$> String.list_ascii_of_string s.

Lemma text_ok_of_check s : forallb (λ c, negb (c =? 0)%Z) s = true → text_ok s.
Proof.
  intros H. apply Forall_forall. intros c Hc.
  rewrite forallb_forall in H. specialize (H c (proj1 (list_elem_of_In _ _) Hc)).
  by apply negb_true_iff, Z.eqb_neq in H.
Qed.

Lemma canonicalize_path_normalizes_witness :
  ∃ R, canonicalize_path (of_string "//srv/./data//../www/" ++ [0%Z])
       = Ok (of_string "/srv/www" ++ 0%Z :: R).
Proof.
  destruct (canonicalize_path_normalizes (of_string "//srv/./data//../www/") []) as (R & E & _).
  - by apply text_ok_of_check.
  - exists R. exact E.
Defined.

Lemma canonicalize_path_canonical_witness :
  ∃ c R R', canonicalize_path (of_string "a/../../b/." ++ [0%Z]) = Ok (c ++ 0%Z :: R) ∧
    canonicalize_path (c ++ 0%Z :: R) = Ok (c ++ 0%Z :: R').
Proof.
  destruct (canonicalize_path_canonical (of_string "a/../../b/.") []) as (c & R & R' & E & E' & _).
  - by apply text_ok_of_check.
  - by exists c, R, R'.
Defined.
End Paths.
