(* ===== verification/LocalFs.v ===== *)
(** * Access to the local file system: [omni_vfs/local_fs.c]

    A mount is a row of [omni_vfs.local_fs_mounts] with a directory, under
    which files are listed, inspected, read and written.  [subpath] decides
    which paths a mount gives access to; it works on canonical paths
    ([Paths]).  The state is the table of mounts with the regular files
    and the directories of the system; what [stat] and [readdir] report and what
    [pg_mkdir_p] creates are parameters.  A result of [local_fs_read] carries
    the size of the memory it was allocated with. *)

From Stdlib Require Import ZArith Lia.
From stdpp Require Import base tactics list gmap numbers strings sets.
From S2P Require Import Prelude Paths.

Import Paths.

Module LocalFs.

Definition PATH_MAX : nat := Z.to_nat 4096.
Definition VARHDRSZ : Z := 4.
Definition MaxAllocSize : Z := 1073741823.
Definition USECS_PER_SEC : Z := 1000000.

Record state := State {
  local_fs_mounts : list (Z * bytes);   (* id, mount *)
  next_id : Z;
  files : gmap bytes bytes;
  dirs : gset bytes
}.

Section Fs.
Context (cwd : option bytes).

(** ** [subpath] *)

Definition subpath (parent child : bytes) : result bytes :=
  absolute_parent ← make_absolute_path cwd parent;
  let tmp_parent := take (PATH_MAX - 1) (absolute_parent ++ SLASH :: child) in
  subpath ← make_absolute_path cwd tmp_parent;
  let parent_len := length absolute_parent in
  if (length subpath <? parent_len)%nat
  then raise "requested path is outside of the mount point"
  else if decide (take parent_len subpath = absolute_parent) then Ok subpath
  else Undefined "errdetail of two paths that were freed".

(** ** Mounts *)

(** [select id from omni_vfs.local_fs_mounts where mount = $1] and
    [select mount from omni_vfs.local_fs_mounts where id = $1], first row. *)
Definition find_mount (mount : bytes) (s : state) : option Z :=
  fst <$> head (filter (λ r, snd r = mount) (local_fs_mounts s)).
Definition find_id (id : Z) (s : state) : option bytes :=
  snd <$> head (filter (λ r, fst r = id) (local_fs_mounts s)).

Definition local_fs (mount : option bytes) : M state Z :=
  match mount with
  | None => ereport "mount must not be NULL"
  | Some mount =>
      absolute_mount ← lift_r (subpath mount [DOT]);
      s ← get_st;
      match find_mount absolute_mount s with
      | Some id => mret id
      | None =>
          _ ← put_st (State (local_fs_mounts s ++ [(next_id s, absolute_mount)]) (next_id s + 1)
                        (files s) (dirs s));
          mret (next_id s)
      end
  end.

Definition get_mount_path (fs_id : Z) : M state bytes :=
  s ← get_st;
  match find_id fs_id s with
  | Some mount => mret mount
  | None => ereport "fetching mount failed"
  end.

(** The checks and the lookup all file functions begin with: [fs] is the
    [local_fs] row (its [id] may be NULL). *)
Definition get_fullpath (fs : option (option Z)) (path : option bytes) : M state bytes :=
  match fs, path with
  | None, _ => ereport "fs must not be NULL"
  | _, None => ereport "path must not be NULL"
  | Some None, _ => ereport "filesystem ID must not be NULL"
  | Some (Some id), Some path =>
      mount_path ← get_mount_path id;
      lift_r (subpath mount_path path)
  end.

(** ** Listing *)

Inductive file_kind := kind_file | kind_dir.

(** [strncmp(d_name, "..", namlen) == 0], [namlen] at most 2. *)
Definition hidden (d_name : bytes) : bool :=
  (length d_name <=? 2)%nat && bool_decide (d_name = take (length d_name) [DOT; DOT]).

(** [is_directory]: what [stat] says of a path, if it can; [opendir]: the
    entries of a directory, or whether the failure is [EPERM]. *)
Context (is_directory : bytes → option bool).
Context (opendir : bytes → (list (bytes * file_kind)) + bool).

Definition local_fs_list (fs : option (option Z)) (dir : option bytes) (fail_unpermitted : option bool)
  : M state (list (bytes * file_kind)) :=
  path ← (match fs, dir with
          | Some _, None => ereport "dir must not be NULL"
          | _, _ => get_fullpath fs dir
          end);
  match is_directory path with
  | None => mret []
  | Some true =>
      match opendir path with
      | inl entries => mret (filter (λ e, hidden (fst e) = false) entries)
      | inr eperm =>
          if eperm && negb (default true fail_unpermitted) then mret []
          else ereport "can't open directory"
      end
  | Some false => mret [(default [] dir, kind_file)]
  end.

(** ** File information *)

(** [pg_mul_s64_overflow] and [pg_add_s64_overflow]: the wrapped result and
    whether it overflowed. *)
Definition pg_mul_s64_overflow (a b : Z) : Z * bool :=
  (wrap_s 64 (a * b), negb (bool_decide (in_s 64 (a * b)))).
Definition pg_add_s64_overflow (a b : Z) : Z * bool :=
  (wrap_s 64 (a + b), negb (bool_decide (in_s 64 (a + b)))).

Definition PG_INT64_MIN : Z := - 2 ^ 63.
Definition PG_INT64_MAX : Z := 2 ^ 63 - 1.

Definition timespec_to_timestamp (tv_sec tv_nsec : Z) : result Z :=
  let epoch_diff := 946684800%Z in
  let overflow (microseconds : Z) :=
    if (microseconds <? PG_INT64_MIN)%Z || (PG_INT64_MAX <? microseconds)%Z
    then Err (PgError "22008" "timestamp out of range") else Ok (-1)%Z in
  let d := (tv_sec - epoch_diff)%Z in
  if negb (bool_decide (in_s 64 d)) then Undefined "signed overflow" else
  let '(microseconds, o) := pg_mul_s64_overflow d USECS_PER_SEC in
  if o : bool then overflow microseconds else
  let '(microseconds, o) := pg_add_s64_overflow microseconds (tv_nsec `quot` 1000)%Z in
  if o : bool then overflow microseconds else Ok microseconds.

(** [struct stat] on Linux. *)
Record file_stat := Stat { st_size : Z; st_dir : bool; st_atim : Z * Z; st_mtim : Z * Z }.

(** [accessed_at] and [modified_at] of [omni_vfs_types_v1.file_info];
    [created_at] is NULL on Linux. *)
Record file_info := FileInfo { size : Z; accessed_at : Z; modified_at : Z; kind : file_kind }.

(** [stat]: the result, or whether the error is [ENOENT]. *)
Context (stat : bytes → file_stat + bool).

Definition local_fs_file_info (fs : option (option Z)) (path : option bytes)
  : M state (option file_info) :=
  fullpath ← get_fullpath fs path;
  match stat fullpath with
  | inr enoent => if enoent : bool then mret None else ereport "can't get file information"
  | inl st =>
      a ← lift_r (timespec_to_timestamp (fst (st_atim st)) (snd (st_atim st)));
      m ← lift_r (timespec_to_timestamp (fst (st_mtim st)) (snd (st_mtim st)));
      mret (Some (FileInfo (st_size st) a m (if st_dir st then kind_dir else kind_file)))
  end.

(** ** Reading *)

(** The [bytea] returned: the size of its memory, the size in its header, its
    bytes. *)
Record bytea := Bytea { chunk : Z; varsize : Z; data : bytes }.

(** [fread] of [n] bytes at [offset] of a file. *)
Definition fread (content : bytes) (offset n : Z) : bytes :=
  take (Z.to_nat (Z.min n (Z.of_nat (length content)))) (drop (Z.to_nat offset) content).

Definition local_fs_read (fs : option (option Z)) (path : option bytes) (offset chunk_size : option Z)
  : M state bytea :=
  fullpath ← get_fullpath fs path;
  s ← get_st;
  match files s !! fullpath with
  | None => ereport "can't open file"
  | Some content =>
      let offset := default 0%Z offset in
      if (offset <? 0)%Z then ereport "can't seek to a given offset" else
      let size := match chunk_size with
                  | Some n => n
                  | None => wrap_s 64 (Z.of_nat (length content) - offset)
                  end in
      if (1024 * 1024 * 1024 <? size)%Z then ereport "chunk_size can't be over 1GB" else
      let allocated := wrap_u 64 (VARHDRSZ + size) in
      if (MaxAllocSize <? allocated)%Z then ereport "invalid memory alloc request size" else
      let data := fread content offset (wrap_u 64 size) in
      let actual_size := Z.of_nat (length data) in
      if (allocated <? VARHDRSZ + actual_size)%Z then undefined "fread past the chunk" else
      let chunk := if (actual_size =? size)%Z then allocated else actual_size in
      if (chunk <? VARHDRSZ)%Z then undefined "SET_VARSIZE past the chunk"
      else mret (Bytea chunk (actual_size + VARHDRSZ) data)
  end.

(** ** Writing *)

Context (pg_mkdir_p : bytes → gset bytes → gset bytes).

(** [fopen] for writing: the file exists, or its directory does. *)
Definition parent_dir (fullpath : bytes) : bytes :=
  match last_dir_separator fullpath with
  | Some O => [SLASH]
  | Some len => take len fullpath
  | None => fullpath
  end.
Definition can_write (fullpath : bytes) (s : state) : bool :=
  bool_decide (fullpath ∉ dirs s) &&
  (bool_decide (is_Some (files s !! fullpath)) || bool_decide (parent_dir fullpath ∈ dirs s)).

Definition local_fs_write (fs : option (option Z)) (path : option bytes) (content : option bytes)
    (create append : option bool) : M state Z :=
  fullpath ← get_fullpath fs path;
  s ← get_st;
  _ ← (if negb (default false create) then
         match files s !! fullpath with Some _ => mret () | None => ereport "can't open file" end
       else
         put_st (State (local_fs_mounts s) (next_id s) (files s)
                   (pg_mkdir_p (parent_dir fullpath) (dirs s))));
  s ← get_st;
  if negb (can_write fullpath s) then ereport "can't open file" else
  let content := default [] content in
  let before := if default false append then default [] (files s !! fullpath) else [] in
  _ ← put_st (State (local_fs_mounts s) (next_id s) (<[fullpath := before ++ content]> (files s))
                (dirs s));
  mret (Z.of_nat (length content)).

(** ** What [subpath] computes *)

Context (d : bytes).
Hypothesis Hcwd : cwd = Some d.
Hypothesis Hd : text_ok d.
Hypothesis Hda : is_absolute_path d = true.

(** The components of the mount, last first. *)
Definition mount_stack (parent : bytes) : list bytes := stack_of (absolute d parent).

(** The path built for [child] is not truncated. *)
Definition fits (parent child : bytes) : Prop :=
  (length (render true (mount_stack parent)) + 1 + length child < PATH_MAX)%nat.

Lemma mount_stack_canonical parent : text_ok parent → canonical true (mount_stack parent).
Proof using Hd Hda.
  intros Hp. unfold mount_stack. rewrite <- (absolute_absolute d parent Hda).
  by apply stack_of_canonical, absolute_text.
Qed.

Lemma split_app A B : split (A ++ SLASH :: B) = split A ++ split B.
Proof.
  induction A as [|c A IH]; [done|]. cbn [app]. destruct (decide (c = SLASH)) as [->|Hc].
  - by rewrite !split_cons_slash, IH.
  - destruct (split_nonempty A) as (n & ns & E).
    rewrite (split_cons c A n ns Hc E), (split_cons c _ n (ns ++ split B) Hc); [done|].
    by rewrite IH, E.
Qed.

Lemma components_app A B : components (A ++ SLASH :: B) = components A ++ components B.
Proof. unfold components. by rewrite split_app, list.filter_app. Qed.

(** The path that is checked against the mount. *)
Definition child_stack (parent child : bytes) : list bytes :=
  foldl (enter true) (mount_stack parent) (components child).

Lemma child_stack_canonical parent child :
  text_ok parent → text_ok child → canonical true (child_stack parent child).
Proof using Hd Hda.
  intros Hp Hc. apply foldl_enter_canonical; [by apply mount_stack_canonical|by apply components_ok].
Qed.

Lemma subpath_eq parent child :
  text_ok parent → text_ok child → fits parent child →
  subpath parent child =
    let ap := render true (mount_stack parent) in
    let sub := render true (child_stack parent child) in
    if (length sub <? length ap)%nat then raise "requested path is outside of the mount point"
    else if decide (take (length ap) sub = ap) then Ok sub
    else Undefined "errdetail of two paths that were freed".
Proof using Hd Hda Hcwd.
  intros Hp Hc Hfit. pose proof (absolute_absolute d parent Hda) as Ha.
  pose proof (mount_stack_canonical parent Hp) as Hcan.
  unfold subpath. rewrite Hcwd, make_absolute_path_ok by done.
  unfold mbind at 1, result_bind at 1. rewrite normalize_absolute by (done || by apply absolute_text).
  fold (mount_stack parent). set (ap := render true (mount_stack parent)).
  rewrite take_ge by (unfold fits in Hfit; fold ap in Hfit; rewrite length_app; cbn [length]; lia).
  assert (Ht : text_ok (ap ++ SLASH :: child)).
  { apply Forall_app. split; [|by constructor].
    apply render_text. by eapply canonical_names. }
  rewrite make_absolute_path_ok by done.
  unfold absolute. change (is_absolute_path (ap ++ SLASH :: child)) with true.
  unfold mbind, result_bind. rewrite normalize_absolute by done.
  assert (Es : stack_of (ap ++ SLASH :: child) = child_stack parent child).
  { unfold stack_of. change (is_absolute_path (ap ++ SLASH :: child)) with true.
    rewrite components_app, foldl_app. unfold ap.
    rewrite components_render by by eapply canonical_names.
    by rewrite foldl_enter_rev. }
  by rewrite Es.
Qed.

(** *** Paths that do not climb *)

(** Read from a depth of [n], the components never go above the start. *)
Fixpoint descends (n : nat) (cs : list bytes) : bool :=
  match cs with
  | [] => true
  | c :: cs' =>
      if decide (c = [DOT]) then descends n cs'
      else if decide (c = [DOT; DOT]) then match n with O => false | S n' => descends n' cs' end
      else descends (S n) cs'
  end.

Lemma foldl_enter_descends base cs : ∀ top,
  Forall (λ n, n ≠ dotdot) top → descends (length top) cs = true →
  foldl (enter true) (top ++ base) cs = foldl (enter true) top cs ++ base.
Proof.
  induction cs as [|c cs IH]; intros top Ht Hd'; [done|]. simpl in Hd' |- *.
  unfold enter at 2 4. case_decide; [by apply IH|]. case_decide as Edd.
  - destruct top as [|x top]; [done|]. pose proof Ht as [Hx Ht']%Forall_cons_1. simpl.
    rewrite !decide_False by done. by apply IH.
  - apply (IH (c :: top)); [by constructor|done].
Qed.

(** *** What the comparison of the strings means *)

Lemma app_slash_inj n A m B :
  SLASH ∉ n → SLASH ∉ m → n ++ SLASH :: A = m ++ SLASH :: B → n = m ∧ A = B.
Proof.
  revert m. induction n as [|a n IH]; intros m Hn Hm E.
  - destruct m as [|b m]; simplify_list_eq; [done|]. by destruct Hm; left.
  - destruct m as [|b m]; simplify_list_eq; [by destruct Hn; left|].
    apply not_elem_of_cons in Hn as [_ Hn]. apply not_elem_of_cons in Hm as [_ Hm].
    destruct (IH m) as [-> ->]; done.
Qed.

Lemma name_no_slash n : name_ok n → SLASH ∉ n.
Proof. intros [_ Hn] Hin. by apply (proj1 (Forall_forall _ _) Hn) in Hin as []. Qed.

(** A name at the front of joined names. *)
Lemma join_prefix_name n ms t :
  name_ok n → Forall name_ok ms → join ms = n ++ t →
  ∃ m ms' suffix, ms = m :: ms' ∧ m = n ++ suffix.
Proof.
  intros Hn Hms E. destruct ms as [|m ms]; [by destruct Hn as [Hne _], n|].
  apply Forall_cons_1 in Hms as [Hm _]. exists m, ms. destruct ms as [|m' ms].
  - simpl in E. by exists t.
  - rewrite join_cons in E by done. apply app_eq_inv in E as [(k & -> & _)|(k & -> & E)]; [by exists k|].
    destruct k as [|c k]; [exists []; by rewrite !app_nil_r|]. simplify_list_eq.
    destruct (name_no_slash _ Hn). apply elem_of_app. right. by left.
Qed.

Lemma join_prefix ns : ∀ ms t,
  Forall name_ok ns → Forall name_ok ms → join ms = join ns ++ t →
  (∃ rest, ms = ns ++ rest) ∨
  (∃ ini l suffix rest, ns = ini ++ [l] ∧ suffix ≠ [] ∧ ms = ini ++ (l ++ suffix) :: rest).
Proof.
  induction ns as [|n ns IH]; intros ms t Hns Hms E; [by left; exists ms|].
  apply Forall_cons_1 in Hns as [Hn Hns]. destruct ns as [|n2 ns].
  - destruct (join_prefix_name n ms t) as (m & ms' & suffix & -> & ->); [done..|].
    destruct suffix as [|c suffix]; [left; exists ms'; by rewrite app_nil_r|].
    right. by exists [], n, (c :: suffix), ms'.
  - rewrite join_cons, <- app_assoc in E by done. cbn [app] in E.
    destruct ms as [|m ms]; [by destruct n|]. apply Forall_cons_1 in Hms as [Hm Hms].
    destruct ms as [|m2 ms].
    + simpl in E. destruct (name_no_slash _ Hm). rewrite E. apply elem_of_app. right. by left.
    + rewrite join_cons in E by done.
      apply app_slash_inj in E as [-> E]; [|by apply name_no_slash..].
      destruct (IH (m2 :: ms) t Hns Hms E) as [[rest ->]|(ini & l & sf & rest & -> & Hs & ->)].
      * left. by exists rest.
      * right. by exists (n :: ini), l, sf, rest.
Qed.

Lemma render_true stack : render true stack = SLASH :: join (rev stack).
Proof. done. Qed.

Lemma stack_prefix P S :
  Forall name_ok P → Forall name_ok S →
  take (length (render true P)) (render true S) = render true P →
  (∃ inner, S = inner ++ P) ∨
  (∃ b base suffix inner, P = b :: base ∧ suffix ≠ [] ∧ S = inner ++ (b ++ suffix) :: base).
Proof.
  intros HP HS E. rewrite !render_true in E. simpl in E. injection E as E.
  destruct (join_prefix (rev P) (rev S) (drop (length (join (rev P))) (join (rev S))))
    as [[rest Er]|(ini & l & sf & rest & E1 & Hs & E2)]; [by apply Forall_rev..| | |].
  { by rewrite <- E at 1; rewrite take_drop. }
  - left. exists (rev rest). by rewrite <- (rev_involutive S), Er, rev_app_distr, rev_involutive.
  - right. exists l, (rev ini), sf, (rev rest). split_and!; [|done|].
    + by rewrite <- (rev_involutive P), E1, rev_app_distr.
    + rewrite <- (rev_involutive S), E2, rev_app_distr. simpl. by rewrite <- app_assoc.
Qed.

Lemma render_prefix inner P : inner = [] ∨ P ≠ [] →
  ∃ t, render true (inner ++ P) = render true P ++ t.
Proof.
  intros H. induction inner as [|x inner IH]; [exists []; by rewrite app_nil_r|].
  destruct H as [?|HP]; [done|]. destruct IH as [t E]; [by right|]. exists (t ++ SLASH :: x).
  simpl app. rewrite render_push, E, <- app_assoc; [done|]. by destruct inner, P.
Qed.

Lemma render_under inner P : ∃ t, render true (inner ++ P) = render true P ++ t.
Proof.
  destruct P as [|b P]; [|apply render_prefix; by right].
  rewrite app_nil_r. exists (join (rev inner)). done.
Qed.

(** A path whose string begins with that of the mount passes the check. *)
Lemma subpath_prefix parent child t :
  text_ok parent → text_ok child → fits parent child →
  render true (child_stack parent child) = render true (mount_stack parent) ++ t →
  subpath parent child = Ok (render true (child_stack parent child)).
Proof using Hd Hda Hcwd.
  intros Hp Hc Hf E. rewrite subpath_eq by done. cbv zeta. rewrite E.
  rewrite (proj2 (Nat.ltb_ge _ _)) by (rewrite length_app; lia).
  by rewrite decide_True by apply take_app_length.
Qed.


(** Every path [subpath] returns is inside the mount or inside a sibling
    of the mount whose name begins with the name of the mount. *)
Theorem subpath_lets_through parent child p :
  text_ok parent → text_ok child → fits parent child → subpath parent child = Ok p →
  (∃ inner, stack_of p = inner ++ stack_of (absolute d parent)) ∨
  (∃ b base suffix inner, stack_of (absolute d parent) = b :: base ∧ suffix ≠ [] ∧
     stack_of p = inner ++ (b ++ suffix) :: base).
Proof using Hd Hda Hcwd.
  intros Hp Hc Hf E. rewrite subpath_eq in E by done. cbv zeta in E.
  destruct (_ <? _)%nat; [done|]. case_decide as Ht; [|done]. injection E as <-.
  pose proof (child_stack_canonical parent child Hp Hc) as Hcan.
  rewrite stack_of_render by done. apply stack_prefix; [| |done].
  - eapply canonical_names, mount_stack_canonical. done.
  - by eapply canonical_names.
Qed.

Lemma canonical_true_cons b base : canonical true (b :: base) →
  name_ok b ∧ b ≠ [DOT] ∧ b ≠ dotdot ∧ canonical true base.
Proof.
  intros (names & ds & E & Hn & _ & Ha). rewrite (Ha eq_refl), app_nil_r in E. subst names.
  apply Forall_cons_1 in Hn as [(? & ? & ?) Hn]. split_and!; [done..|].
  exists base, []. by rewrite app_nil_r.
Qed.

(** One step up and into a directory [n]. *)
Lemma child_stack_sibling parent b base n :
  text_ok parent → mount_stack parent = b :: base → name_ok n → n ≠ [DOT] → n ≠ dotdot →
  child_stack parent (dotdot ++ SLASH :: n) = n :: base.
Proof using Hd Hda.
  intros Hp Em Hn H1 H2. unfold child_stack. rewrite Em.
  pose proof (mount_stack_canonical parent Hp) as Hc. rewrite Em in Hc.
  apply canonical_true_cons in Hc as (_ & _ & Hb & _).
  assert (Ec : components (dotdot ++ SLASH :: n) = [dotdot; n]).
  { apply (components_join [dotdot; n]). constructor; [apply dotdot_name_ok|by apply Forall_singleton]. }
  rewrite Ec. simpl. rewrite enter_dotdot_name by done. by rewrite enter_name.
Qed.

(** The mount does not contain what is read through it: with a mount
    named [b], the child [../bX] is let through and names the sibling [bX] of
    the mount. *)
Theorem subpath_sibling_escapes parent b base suffix :
  text_ok parent → stack_of (absolute d parent) = b :: base → suffix ≠ [] →
  Forall (λ c, c ≠ 0 ∧ c ≠ SLASH)%Z suffix → fits parent (dotdot ++ SLASH :: b ++ suffix) →
  ∃ p, subpath parent (dotdot ++ SLASH :: b ++ suffix) = Ok p ∧
    stack_of p = (b ++ suffix) :: base ∧
    ¬ ∃ inner, stack_of p = inner ++ stack_of (absolute d parent).
Proof using Hd Hda Hcwd.
  intros Hp Em Hs Hsf Hf.
  pose proof (mount_stack_canonical parent Hp) as Hc. unfold mount_stack in Hc. rewrite Em in Hc.
  apply canonical_true_cons in Hc as (Hb & Hb1 & Hb2 & Hbase).
  assert (Hn : name_ok (b ++ suffix)).
  { destruct Hb as [Hne Hb]. split; [by destruct b|]. by apply Forall_app. }
  assert (Hne : b ≠ []) by apply Hb.
  assert (Hn1 : b ++ suffix ≠ [DOT]) by (destruct b as [|? []], suffix; done).
  assert (Hn2 : b ++ suffix ≠ dotdot).
  { intros E. destruct b as [|x [|y b]]; [done| |].
    - injection E as -> _. done.
    - injection E as -> -> E. by apply app_eq_nil in E as [_ ?]. }
  pose proof (child_stack_sibling parent b base _ Hp Em Hn Hn1 Hn2) as Es.
  assert (Hcan : canonical true ((b ++ suffix) :: base)).
  { destruct Hbase as (names & ds & -> & ? & ? & ?). exists ((b ++ suffix) :: names), ds.
    split_and!; [done|by constructor|done|done]. }
  exists (render true ((b ++ suffix) :: base)). rewrite stack_of_render by done.
  split_and!; [|done|].
  - rewrite <- Es. apply (subpath_prefix _ _ suffix); [done| |done|].
    + apply (join_text [dotdot; b ++ suffix]).
      constructor; [apply dotdot_name_ok|by apply Forall_singleton].
    + rewrite Es. unfold mount_stack. rewrite Em. destruct (decide (base = [])) as [->|Hbn]; [done|].
      rewrite !render_push by done. by rewrite <- app_assoc.
  - intros [inner E]. rewrite Em in E. apply (f_equal length) in E as El.
    rewrite length_app in El. simpl in El. destruct inner; [|simpl in El; lia]. simplify_list_eq.
    apply Hs. apply (app_inv_head b). by rewrite app_nil_r.
Qed.

(** A path outside of the mount with a longer name is reported with strings
    that were freed. *)
Lemma subpath_outside_uses_freed parent b base n :
  text_ok parent → stack_of (absolute d parent) = b :: base → name_ok n → n ≠ [DOT] → n ≠ dotdot →
  (¬ ∃ t, n = b ++ t) → (length b <= length n)%nat → fits parent (dotdot ++ SLASH :: n) →
  subpath parent (dotdot ++ SLASH :: n) = Undefined "errdetail of two paths that were freed".
Proof using Hd Hda Hcwd.
  intros Hp Em Hn H1 H2 Hnp Hl Hf. pose proof (mount_stack_canonical parent Hp) as Hc.
  pose proof (canonical_names _ _ Hc) as Hnames.
  assert (Ht : text_ok (dotdot ++ SLASH :: n)).
  { apply (join_text [dotdot; n]). constructor; [apply dotdot_name_ok|by apply Forall_singleton]. }
  rewrite subpath_eq by done. cbv zeta.
  rewrite (child_stack_sibling parent b base n) by done. unfold mount_stack in *. rewrite Em in *.
  assert (Hr : ∀ x, length (render true (x :: base)) = (length (render true [x]) + length (join (rev base))
                 + if decide (base = []) then 0 else 1)%nat).
  { intros x. case_decide as Eb; [subst; simpl; lia|]. rewrite render_push, length_app by done.
    rewrite !render_true. simpl. lia. }
  rewrite (proj2 (Nat.ltb_ge _ _)) by (rewrite !Hr; simpl; lia).
  rewrite decide_False; [done|]. intros E%stack_prefix; [|done|].
  2:{ constructor; [done|]. by apply Forall_cons_1 in Hnames as [_ ?]. }
  apply Hnp. destruct E as [[inner E]|(b' & base' & sf & inner & E' & _ & E)].
  - destruct inner as [|i inner]; [|apply (f_equal length) in E; rewrite length_app in E; simpl in E; lia].
    injection E as ->. exists []. by rewrite app_nil_r.
  - injection E' as <- <-.
    destruct inner as [|i inner]; [|apply (f_equal length) in E; rewrite length_app in E; simpl in E; lia].
    injection E as ->. eauto.
Qed.

(** ** Mounts *)

(** Ids are given out in order. *)
Definition mounts_ok (s : state) : Prop :=
  NoDup (fst <$> local_fs_mounts s) ∧ Forall (λ r, fst r < next_id s)%Z (local_fs_mounts s).

Lemma find_id_mount l (id : Z) (m : bytes) :
  NoDup (fst <$> l) → (id, m) ∈ l → snd <$> head (filter (λ r, fst r = id) l) = Some m.
Proof.
  induction l as [|[i m'] l IH]; intros Hnd Hin; [by apply not_elem_of_nil in Hin|].
  simpl in Hnd. apply list.NoDup_cons in Hnd as [Hni Hnd].
  apply elem_of_cons in Hin as [[= <- <-]|Hin].
  - by rewrite filter_cons_True.
  - rewrite filter_cons_False; [by apply IH|]. simpl. intros ->. apply Hni.
    apply list_elem_of_fmap. by exists (id, m).
Qed.

Lemma find_mount_elem m s id : find_mount m s = Some id → (id, m) ∈ local_fs_mounts s.
Proof.
  unfold find_mount. destruct (filter _ _) as [|[i m'] l] eqn:E; [done|]. intros [= ->].
  assert (Hin : (id, m') ∈ filter (λ r : Z * bytes, snd r = m) (local_fs_mounts s))
    by (rewrite E; by left).
  by apply list_elem_of_filter in Hin as [<- Hin].
Qed.

(** Mounting a directory gives the id of a row that holds its canonical
    absolute path, and mounting it again, however it is written, gives the
    same id and adds nothing. *)
Theorem local_fs_mounts_once m m' s id s' :
  mounts_ok s → local_fs (Some m) s = (Ok id, s') → subpath m' [DOT] = subpath m [DOT] →
  mounts_ok s' ∧ (∃ p, subpath m [DOT] = Ok p ∧ get_mount_path id s' = (Ok p, s')) ∧
  local_fs (Some m') s' = (Ok id, s').
Proof.
  intros [Hnd Hlt] E Em. unfold local_fs in E |- *. rewrite Em.
  destruct (subpath m [DOT]) as [p|?|?] eqn:Es; [|done|done].
  rewrite (lift_bind _ _ p) in E |- * by done. rewrite get_bind in E |- *.
  assert (Hget : ∀ s0, mounts_ok s0 → (id, p) ∈ local_fs_mounts s0 → get_mount_path id s0 = (Ok p, s0)).
  { intros s0 [Hnd0 _] Hin. unfold get_mount_path. rewrite get_bind. unfold find_id.
    by rewrite (find_id_mount _ _ _ Hnd0 Hin). }
  destruct (find_mount p s) as [i|] eqn:Ef.
  - injection E as -> <-. rewrite Ef. split_and!; [done| |done]. exists p. split; [done|].
    apply Hget; [done|]. by apply find_mount_elem.
  - injection E as <- <-.
    assert (Hok : mounts_ok (State (local_fs_mounts s ++ [(next_id s, p)]) (next_id s + 1) (files s) (dirs s))).
    { split; simpl.
      - rewrite fmap_app. apply list.NoDup_app. split_and!; [done| |apply NoDup_singleton].
        intros i Hi Hi'%list_elem_of_singleton. simpl in Hi'. subst i.
        apply list_elem_of_fmap in Hi as ([j m0] & Ej & Hin).
        apply (proj1 (Forall_forall _ _) Hlt) in Hin. simpl in *. lia.
      - apply Forall_app. split; [|apply Forall_singleton; simpl; lia].
        eapply Forall_impl; [done|]. simpl. intros. lia. }
    split_and!; [done| |].
    + exists p. split; [done|]. apply Hget; [done|]. simpl. apply elem_of_app. right. by left.
    + unfold find_mount in Ef |- *. simpl. rewrite list.filter_app.
      destruct (filter _ (local_fs_mounts s)); [|done]. by rewrite filter_cons_True.
Qed.

(** ** Reading and writing *)

(** The number of bytes a call asks for. *)
Definition requested (content : bytes) (offset : Z) (chunk_size : option Z) : Z :=
  default (Z.of_nat (length content) - offset)%Z chunk_size.

(** [local_fs_read] once the file is found. *)
Lemma local_fs_read_open fs path p s content o n :
  get_fullpath fs path s = (Ok p, s) → files s !! p = Some content →
  let offset := default 0%Z o in
  let size := requested content offset n in
  (0 <= offset)%Z → in_s 64 size → (size <= 1024 * 1024 * 1024)%Z →
  local_fs_read fs path o n s =
    let allocated := wrap_u 64 (VARHDRSZ + size) in
    if (MaxAllocSize <? allocated)%Z then ereport "invalid memory alloc request size" s else
    let data := fread content offset (wrap_u 64 size) in
    let actual_size := Z.of_nat (length data) in
    if (allocated <? VARHDRSZ + actual_size)%Z then undefined "fread past the chunk" s else
    let chunk := if (actual_size =? size)%Z then allocated else actual_size in
    if (chunk <? VARHDRSZ)%Z then undefined "SET_VARSIZE past the chunk" s
    else (Ok (Bytea chunk (actual_size + VARHDRSZ) data), s).
Proof.
  intros E Ef offset size Ho Hs Hg. unfold local_fs_read. rewrite (bind_ok _ _ _ _ _ E), get_bind, Ef.
  cbv zeta. fold offset. rewrite (proj2 (Z.ltb_ge _ _) Ho).
  assert (Esz : match n with Some n => n | None => wrap_s 64 (Z.of_nat (length content) - offset) end = size).
  { unfold size, requested in *. destruct n; [done|]. apply wrap_s_id; [lia|done]. }
  rewrite Esz, (proj2 (Z.ltb_ge _ _) Hg). cbv zeta. by repeat case_match.
Qed.

Lemma fread_length content o n : (0 <= o)%Z → (0 <= n)%Z →
  Z.of_nat (length (fread content o n)) = Z.min n (Z.max 0 (Z.of_nat (length content) - o)).
Proof. intros. unfold fread. rewrite length_take, length_drop. lia. Qed.

Lemma local_fs_read_exact fs path p s content o n :
  get_fullpath fs path s = (Ok p, s) → files s !! p = Some content →
  let offset := default 0%Z o in
  let size := requested content offset n in
  (0 <= offset)%Z → (0 <= size)%Z → (offset + size <= Z.of_nat (length content))%Z →
  (size + VARHDRSZ <= MaxAllocSize)%Z →
  local_fs_read fs path o n s =
  (Ok (Bytea (size + VARHDRSZ) (size + VARHDRSZ)
         (take (Z.to_nat size) (drop (Z.to_nat offset) content))), s).
Proof.
  intros E Ef offset size Ho Hs Hlen Hmax. unfold VARHDRSZ, MaxAllocSize in *.
  rewrite (local_fs_read_open fs path p s content) by
    (done || fold offset size; unfold in_s; lia).
  fold offset size. cbv zeta. unfold VARHDRSZ, MaxAllocSize. rewrite !wrap_u_id by (unfold in_u; lia).
  rewrite (proj2 (Z.ltb_ge _ _)) by lia. rewrite fread_length by done.
  replace (Z.min size _) with size by lia. rewrite (proj2 (Z.ltb_ge (4 + size) _)) by lia.
  rewrite Z.eqb_refl, (proj2 (Z.ltb_ge _ _)) by lia. rewrite (Z.add_comm 4). do 3 f_equal.
  unfold fread. f_equal. lia.
Qed.

(** A chunk that lies within the file is returned exactly, in memory of
    exactly its size: without [chunk_size], the rest of the file. *)
Theorem local_fs_read_within fs path p s content o n :
  get_fullpath fs path s = (Ok p, s) → files s !! p = Some content →
  let offset := default 0%Z o in
  let size := requested content offset n in
  (0 <= offset)%Z → (0 <= size)%Z → (offset + size <= Z.of_nat (length content))%Z →
  (size + VARHDRSZ <= MaxAllocSize)%Z →
  local_fs_read fs path o n s =
  (Ok (Bytea (size + VARHDRSZ) (size + VARHDRSZ)
         (take (Z.to_nat size) (drop (Z.to_nat offset) content))), s).
Proof. apply local_fs_read_exact. Qed.

(** A chunk that goes past the end of the file comes back in memory that
    is four bytes smaller than its header says. *)
Theorem local_fs_read_past_end fs path p s content o n :
  get_fullpath fs path s = (Ok p, s) → files s !! p = Some content →
  let offset := default 0%Z o in
  let available := (Z.of_nat (length content) - offset)%Z in
  (0 <= offset)%Z → (VARHDRSZ <= available)%Z → (available < n)%Z → (n + VARHDRSZ <= MaxAllocSize)%Z →
  ∃ b, local_fs_read fs path o (Some n) s = (Ok b, s) ∧
    varsize b = (available + VARHDRSZ)%Z ∧ (chunk b < varsize b)%Z.
Proof.
  intros E Ef offset available Ho Ha Hn Hmax. unfold VARHDRSZ, MaxAllocSize in *.
  rewrite (local_fs_read_open fs path p s content) by (done || simpl; unfold in_s; lia).
  fold offset. cbv zeta. simpl requested. unfold VARHDRSZ, MaxAllocSize.
  rewrite !wrap_u_id by (unfold in_u; lia).
  rewrite (proj2 (Z.ltb_ge _ _)) by lia. rewrite fread_length by lia.
  replace (Z.min n _) with available by lia. rewrite (proj2 (Z.ltb_ge _ _)) by lia.
  rewrite (proj2 (Z.eqb_neq _ _)) by lia. rewrite (proj2 (Z.ltb_ge _ _)) by lia.
  eexists. split; [done|]. simpl. lia.
Qed.

(** A chunk size from -4 to -1 passes all the checks: the file is read
    into memory of less than four bytes. *)
Theorem local_fs_read_negative fs path p s content o n :
  get_fullpath fs path s = (Ok p, s) → files s !! p = Some content →
  let offset := default 0%Z o in
  (0 <= offset < Z.of_nat (length content))%Z → (-4 <= n < 0)%Z →
  (Z.of_nat (length content) < 2 ^ 63)%Z →
  local_fs_read fs path o (Some n) s = (Undefined "fread past the chunk", s).
Proof.
  intros E Ef offset Ho Hn Hlen.
  rewrite (local_fs_read_open fs path p s content) by (done || simpl; unfold in_s; lia).
  fold offset. cbv zeta. simpl requested. unfold VARHDRSZ, MaxAllocSize.
  rewrite (wrap_u_id 64 (4 + n)) by (unfold in_u; lia).
  assert (Ew : wrap_u 64 n = (2 ^ 64 + n)%Z).
  { unfold wrap_u. symmetry. apply (Z.mod_unique _ _ (-1)); lia. }
  rewrite Ew, (proj2 (Z.ltb_ge _ _)) by lia. rewrite fread_length by lia.
  rewrite (proj2 (Z.ltb_lt _ _)) by lia. done.
Qed.

(** What is written to a new or truncated file is what is read from it
    afterwards. *)
Theorem local_fs_write_read fs path p s content :
  get_fullpath fs path s = (Ok p, s) → p ∉ pg_mkdir_p (parent_dir p) (dirs s) →
  parent_dir p ∈ pg_mkdir_p (parent_dir p) (dirs s) →
  (Z.of_nat (length content) + VARHDRSZ <= MaxAllocSize)%Z →
  ∃ s', local_fs_write fs path (Some content) (Some true) (Some false) s
        = (Ok (Z.of_nat (length content)), s') ∧
    files s' = <[p := content]> (files s) ∧ local_fs_mounts s' = local_fs_mounts s ∧
    ∃ b, local_fs_read fs path None None s' = (Ok b, s') ∧ data b = content.
Proof.
  intros E Hnd Hdir Hmax. unfold local_fs_write. rewrite (bind_ok _ _ _ _ _ E), get_bind. simpl.
  unfold mbind at 1, M_bind at 1, put_st at 1. rewrite get_bind. unfold can_write. simpl.
  rewrite (bool_decide_true (parent_dir p ∈ _)) by done.
  rewrite (bool_decide_true (p ∉ _)) by done. rewrite orb_true_r. simpl.
  eexists. split; [done|]. split_and!; [done|done|]. simpl.
  set (s' := State _ _ _ _).
  assert (E' : get_fullpath fs path s' = (Ok p, s')).
  { unfold get_fullpath in E |- *. destruct fs as [[i|]|], path as [q|]; try done.
    unfold get_mount_path, mbind, M_bind, get_st in E |- *. unfold find_id in E |- *. simpl in E |- *.
    destruct (snd <$> head _); [|done]. simpl in *. unfold lift_r in *. by injection E as ->. }
  exists (Bytea (Z.of_nat (length content) + VARHDRSZ) (Z.of_nat (length content) + VARHDRSZ) content).
  split; [|done].
  assert (Hsz : requested content 0 None = Z.of_nat (length content)) by (unfold requested; simpl; lia).
  rewrite (local_fs_read_exact fs path p s' content None None E') by
    (try apply lookup_insert_eq; change (default 0%Z None) with 0%Z; rewrite ?Hsz; lia).
  change (default 0%Z None) with 0%Z. rewrite Hsz.
  by rewrite Nat2Z.id, drop_0, take_ge by lia.
Qed.

End Fs.

(** ** Times and listings *)

(** A time is converted exactly as long as its microseconds since 2000
    fit into 64 bits; beyond that the function returns -1, one microsecond
    before 2000, and never the error it has for that case. *)
Theorem timespec_to_timestamp_bounds sec nsec :
  in_s 64 sec → in_s 64 (sec - 946684800) → (0 <= nsec < 1000000000)%Z →
  let us := ((sec - 946684800) * USECS_PER_SEC + nsec / 1000)%Z in
  timespec_to_timestamp sec nsec =
  Ok (if decide (in_s 64 ((sec - 946684800) * USECS_PER_SEC) ∧ in_s 64 us) then us else (-1))%Z.
Proof.
  intros Hs Hd' Hn us. unfold timespec_to_timestamp. rewrite (bool_decide_true (in_s 64 _)) by done.
  assert (Ho : ∀ z, (wrap_s 64 z <? PG_INT64_MIN)%Z || (PG_INT64_MAX <? wrap_s 64 z)%Z = false).
  { intros z. pose proof (wrap_s_in 64 z ltac:(lia)) as [H1 H2].
    unfold PG_INT64_MIN, PG_INT64_MAX. apply orb_false_intro; apply Z.ltb_ge; lia. }
  unfold pg_mul_s64_overflow. cbn [negb]. rewrite Z.quot_div_nonneg by lia.
  destruct (decide (in_s 64 ((sec - 946684800) * USECS_PER_SEC))) as [Hm|Hm].
  - rewrite (bool_decide_true (in_s 64 _)), wrap_s_id by (done || lia). cbn [negb].
    unfold pg_add_s64_overflow. fold us. destruct (decide (in_s 64 us)) as [Hu|Hu].
    + rewrite bool_decide_true, wrap_s_id by (done || lia). by rewrite decide_True.
    + rewrite bool_decide_false by done. cbn [negb]. rewrite Ho. by rewrite decide_False by tauto.
  - rewrite bool_decide_false by done. cbn [negb]. rewrite Ho. by rewrite decide_False by tauto.
Qed.

Lemma hidden_spec n : n ≠ [] → hidden n = bool_decide (n = [DOT] ∨ n = dotdot).
Proof.
  intros Hne. unfold hidden. destruct n as [|a [|b [|c n]]]; [done|..]; simpl.
  - apply bool_decide_ext. naive_solver.
  - apply bool_decide_ext. naive_solver.
  - by rewrite bool_decide_false by naive_solver.
Qed.

(** ** Concrete file systems *)

Definition root_cwd : option bytes := Some (of_string "/").
Definition srv_data : bytes := of_string "/srv/data".
Definition one_mount : state :=
  State [(1%Z, srv_data)] 2 {[of_string "/srv/data/a" := of_string "hello, world"]}
    {[of_string "/srv/data"]}.

Ltac concrete_path :=
  first [reflexivity
        | by apply text_ok_of_check
        | apply (bool_decide_unpack _); vm_compute; reflexivity
        | unfold fits; apply Nat.ltb_lt; vm_compute; reflexivity].


Lemma subpath_lets_through_witness :
  ∃ inner, stack_of (of_string "/srv/data/a") = inner ++ stack_of (absolute (of_string "/") srv_data).
Proof.
  destruct (subpath_lets_through root_cwd (of_string "/") ltac:(concrete_path) ltac:(concrete_path)
    ltac:(concrete_path) srv_data (of_string "a") (of_string "/srv/data/a")) as [H|H]; try concrete_path.
  - exact H.
  - destruct H as (b & base & sf & inner & E & Hs & E'). exists [of_string "a"]. reflexivity.
Defined.

Lemma subpath_sibling_escapes_witness :
  ∃ p, subpath root_cwd srv_data (of_string "../data-private") = Ok p ∧
    stack_of p = stack_of (of_string "/srv/data-private").
Proof.
  destruct (subpath_sibling_escapes root_cwd (of_string "/") ltac:(concrete_path) ltac:(concrete_path)
    ltac:(concrete_path) srv_data (of_string "data") [of_string "srv"] (of_string "-private"))
    as (p & E & Es & _); try concrete_path.
  exists p. split; [exact E|exact Es].
Defined.

Lemma local_fs_mounts_once_witness :
  local_fs root_cwd (Some (of_string "srv/./data/")) one_mount = (Ok 1%Z, one_mount).
Proof.
  apply (local_fs_mounts_once root_cwd srv_data (of_string "srv/./data/") one_mount 1 one_mount).
  - split; [apply NoDup_singleton|by apply Forall_singleton].
  - vm_compute. reflexivity.
  - vm_compute. reflexivity.
Defined.

Lemma fullpath_a : get_fullpath root_cwd (Some (Some 1%Z)) (Some (of_string "a")) one_mount
  = (Ok (of_string "/srv/data/a"), one_mount).
Proof. vm_compute. reflexivity. Qed.

Lemma files_a : files one_mount !! of_string "/srv/data/a" = Some (of_string "hello, world").
Proof. vm_compute. reflexivity. Qed.

Lemma local_fs_read_within_witness :
  local_fs_read root_cwd (Some (Some 1%Z)) (Some (of_string "a")) (Some 7%Z) None one_mount
  = (Ok (Bytea 9 9 (of_string "world")), one_mount).
Proof.
  exact (local_fs_read_within root_cwd _ _ _ _ _ (Some 7%Z) None fullpath_a files_a ltac:(vm_compute; done) ltac:(vm_compute; done)
    ltac:(vm_compute; done) ltac:(vm_compute; done)).
Defined.

Lemma local_fs_read_past_end_witness :
  ∃ b, local_fs_read root_cwd (Some (Some 1%Z)) (Some (of_string "a")) (Some 7%Z) (Some 100%Z) one_mount
       = (Ok b, one_mount) ∧ varsize b = 9%Z ∧ (chunk b < varsize b)%Z.
Proof.
  exact (local_fs_read_past_end root_cwd _ _ _ _ _ (Some 7%Z) 100 fullpath_a files_a ltac:(vm_compute; done) ltac:(vm_compute; done)
    ltac:(vm_compute; done) ltac:(vm_compute; done)).
Defined.

Lemma local_fs_read_negative_witness :
  local_fs_read root_cwd (Some (Some 1%Z)) (Some (of_string "a")) None (Some (-1)%Z) one_mount
  = (Undefined "fread past the chunk", one_mount).
Proof.
  exact (local_fs_read_negative root_cwd _ _ _ _ _ None (-1) fullpath_a files_a ltac:(vm_compute; done) ltac:(lia)
    ltac:(vm_compute; done)).
Defined.

Lemma local_fs_write_read_witness :
  ∃ s', local_fs_write root_cwd (λ p ds, {[p]} ∪ ds) (Some (Some 1%Z)) (Some (of_string "a"))
          (Some (of_string "bye")) (Some true) (Some false) one_mount = (Ok 3%Z, s') ∧
    ∃ b, local_fs_read root_cwd (Some (Some 1%Z)) (Some (of_string "a")) None None s' = (Ok b, s') ∧
      data b = of_string "bye".
Proof.
  destruct (local_fs_write_read root_cwd (λ p ds, {[p]} ∪ ds) _ _ _ _ (of_string "bye") fullpath_a)
    as (s' & E & _ & _ & H); [concrete_path|concrete_path|vm_compute; done|].
  exists s'. split; [exact E|exact H].
Defined.

Lemma timespec_to_timestamp_bounds_witness :
  timespec_to_timestamp 946684801 5000 = Ok 1000005%Z ∧
  timespec_to_timestamp (2 ^ 50) 0 = Ok (-1)%Z.
Proof.
  split.
  - rewrite timespec_to_timestamp_bounds by (unfold in_s; lia). vm_compute. reflexivity.
  - rewrite timespec_to_timestamp_bounds by (unfold in_s; lia). vm_compute. reflexivity.
Defined.

End LocalFs.
