(* ===== verification/Dshash.v ===== *)
(** * The scan and the growth of shared hash tables: [omni/dshash.c]

    The modules and the shared memory of [omni] are listed by a scan of a
    [dshash] table, which before PostgreSQL 15 is this file's.  A table is an
    array of buckets in dynamic shared memory, each the head of a chain of
    items; the high bits of the hash of an item choose its partition, which
    has a lock, and within the partition its bucket.

    A chain is followed through the memory area ([items]): an item that was
    freed or never linked makes the outcome [Undefined].  Other backends run
    while this one waits for a lock: [others i] is what they did to the table
    when [LWLockAcquire] of the lock of partition [i] returns. *)

From Stdlib Require Import ZArith Lia.
From stdpp Require Import base tactics list gmap numbers strings sets.
From S2P Require Import Prelude.

Local Open Scope Z_scope.

Module Dshash.

Lemma list_to_set_uncons (i : Z) l :
  i ∉ l → list_to_set (i :: l) ∖ {[i]} = (list_to_set l : gset Z).
Proof. set_solver. Qed.

Lemma list_to_set_move (i : Z) l (X : gset Z) :
  {[i]} ∪ X ∪ list_to_set l = X ∪ list_to_set (i :: l).
Proof. set_solver. Qed.

Section Table.
Context {K V : Type}.

(** ** The table *)

Definition DSHASH_NUM_PARTITIONS_LOG2 : Z := 7.
Definition DSHASH_NUM_PARTITIONS : Z := Z.shiftl 1 DSHASH_NUM_PARTITIONS_LOG2.
Definition InvalidDsaPointer : Z := 0.
Definition DsaPointerIsValid (p : Z) : bool := negb (p =? InvalidDsaPointer).

(** [dshash_table_item] with the entry that follows it: its key and the rest. *)
Record item := Item { next : Z; hash : Z; key : K; body : V }.

Inductive LWLockMode := LW_EXCLUSIVE | LW_SHARED.

(** The memory area (items and arrays of buckets), the control object
    ([size_log2], [buckets], [counts] of the partitions), and the backend: the
    partition locks it holds and its copy of the bucket pointer. *)
Record state := State {
  items : gmap Z item;
  arrays : gmap Z (list Z);
  size_log2 : Z;
  buckets : Z;
  counts : list Z;
  held : gmap Z LWLockMode;
  t_size_log2 : Z;
  t_buckets : Z
}.

Definition with_items (f : gmap Z item → gmap Z item) (s : state) : state :=
  State (f (items s)) (arrays s) (size_log2 s) (buckets s) (counts s) (held s) (t_size_log2 s)
    (t_buckets s).
Definition with_arrays (f : gmap Z (list Z) → gmap Z (list Z)) (s : state) : state :=
  State (items s) (f (arrays s)) (size_log2 s) (buckets s) (counts s) (held s) (t_size_log2 s)
    (t_buckets s).
Definition with_counts (f : list Z → list Z) (s : state) : state :=
  State (items s) (arrays s) (size_log2 s) (buckets s) (f (counts s)) (held s) (t_size_log2 s)
    (t_buckets s).
Definition with_held (f : gmap Z LWLockMode → gmap Z LWLockMode) (s : state) : state :=
  State (items s) (arrays s) (size_log2 s) (buckets s) (counts s) (f (held s)) (t_size_log2 s)
    (t_buckets s).
Definition with_control (size buckets : Z) (s : state) : state :=
  State (items s) (arrays s) size buckets (counts s) (held s) (t_size_log2 s) (t_buckets s).
Definition with_table (size buckets' : Z) (s : state) : state :=
  State (items s) (arrays s) (size_log2 s) (buckets s) (counts s) (held s) size buckets'.

(** ** Sizes, partitions and buckets *)

Definition NUM_SPLITS (size_log2 : Z) : Z := size_log2 - DSHASH_NUM_PARTITIONS_LOG2.
Definition NUM_BUCKETS (size_log2 : Z) : Z := Z.shiftl 1 size_log2.
Definition BUCKETS_PER_PARTITION (size_log2 : Z) : Z := Z.shiftl 1 (NUM_SPLITS size_log2).
Definition MAX_COUNT_PER_PARTITION (s : state) : Z :=
  BUCKETS_PER_PARTITION (t_size_log2 s) / 2 + BUCKETS_PER_PARTITION (t_size_log2 s) / 4.
Definition PARTITION_FOR_HASH (hash : Z) : Z := Z.shiftr hash (32 - DSHASH_NUM_PARTITIONS_LOG2).
Definition BUCKET_INDEX_FOR_HASH_AND_SIZE (hash size_log2 : Z) : Z := Z.shiftr hash (32 - size_log2).
Definition BUCKET_INDEX_FOR_PARTITION (partition size_log2 : Z) : Z :=
  Z.shiftl partition (NUM_SPLITS size_log2).
Definition PARTITION_FOR_BUCKET_INDEX (bucket_idx size_log2 : Z) : Z :=
  Z.shiftr bucket_idx (NUM_SPLITS size_log2).

(** ** Memory *)

(** [dsa_get_address] of an item, read. *)
Definition get_item (p : Z) : M state item :=
  s ← get_st;
  match items s !! p with Some it => mret it | None => undefined "no item at this address" end.

Definition set_next (q : Z) (it : item) : item := Item q (hash it) (key it) (body it).

(** A [dsa_pointer *]: an element of an array of buckets, or the [next] of an
    item. *)
Inductive slot := Bucket (array : Z) (i : Z) | Next (p : Z).

Definition read_slot (sl : slot) : M state Z :=
  match sl with
  | Bucket a i =>
      s ← get_st;
      match arrays s !! a ≫= λ l, (if 0 <=? i then l !! Z.to_nat i else None) with
      | Some p => mret p
      | None => undefined "no bucket at this address"
      end
  | Next p => it ← get_item p; mret (next it)
  end.

Definition write_slot (sl : slot) (q : Z) : M state unit :=
  _ ← read_slot sl;
  match sl with
  | Bucket a i => modify_st (with_arrays (alter <[Z.to_nat i := q]> a))
  | Next p => modify_st (with_items (alter (set_next q) p))
  end.

Definition dsa_free_item (p : Z) : M state unit := _ ← get_item p; modify_st (with_items (delete p)).

(** [BUCKET_FOR_HASH], an lvalue. *)
Definition BUCKET_FOR_HASH (hash : Z) (s : state) : slot :=
  Bucket (t_buckets s) (BUCKET_INDEX_FOR_HASH_AND_SIZE hash (t_size_log2 s)).

(** ** Locks *)

Context (others : Z → state → state).

Definition LWLockAcquire (i : Z) (mode : LWLockMode) : M state unit :=
  s ← get_st;
  match held s !! i with
  | Some _ => undefined "waiting for a lock it holds"
  | None => put_st (with_held <[i := mode]> (others i s))
  end.

Definition LWLockRelease (i : Z) : M state unit :=
  s ← get_st;
  match held s !! i with
  | Some _ => put_st (with_held (delete i) s)
  | None => ereport "lock is not held"
  end.

(** ** Buckets *)

Definition ensure_valid_bucket_pointers : M state unit :=
  s ← get_st;
  when (negb (t_size_log2 s =? size_log2 s)) (put_st (with_table (size_log2 s) (buckets s) s)).

(** [params.hash_function] and [params.compare_function] of the table. *)
Context (hash_function : K → Z) (compare_function : K → K → Z).

Definition hash_key (k : K) : Z := hash_function k.
Definition equal_keys (a b : K) : bool := compare_function a b =? 0.

(** One turn of a loop along a chain per item, and one for its end. *)
Definition chain_fuel (s : state) : nat := S (size (items s)).

Fixpoint find_loop (fuel : nat) (k : K) (item_pointer : Z) : M state (option Z) :=
  match fuel with
  | O => undefined "out of fuel"
  | S fuel' =>
      if DsaPointerIsValid item_pointer then
        item ← get_item item_pointer;
        if equal_keys k (key item) then mret (Some item_pointer)
        else find_loop fuel' k (next item)
      else mret None
  end.
Definition find_in_bucket (k : K) (item_pointer : Z) : M state (option Z) :=
  s ← get_st; find_loop (chain_fuel s) k item_pointer.

Definition insert_item_into_bucket (item_pointer : Z) (bucket : slot) : M state unit :=
  head ← read_slot bucket;
  _ ← write_slot (Next item_pointer) head;
  write_slot bucket item_pointer.

(** [dsa_allocate]: an unused address; the memory there is not initialized,
    so the hash and the rest of the entry are whatever it holds. *)
Context (dsa_allocate : gset Z → Z) (garbage_hash : Z → Z) (garbage_body : Z → V).

Definition used (s : state) : gset Z := dom (items s) ∪ dom (arrays s) ∪ {[InvalidDsaPointer]}.

Definition insert_into_bucket (k : K) (bucket : slot) : M state Z :=
  s ← get_st;
  let item_pointer := dsa_allocate (used s) in
  _ ← put_st (with_items <[item_pointer := Item 0 (garbage_hash item_pointer) k
                                              (garbage_body item_pointer)]> s);
  _ ← insert_item_into_bucket item_pointer bucket;
  mret item_pointer.

Fixpoint delete_loop (fuel : nat) (match_item : Z → item → bool) (bucket_head : slot) : M state bool :=
  match fuel with
  | O => undefined "out of fuel"
  | S fuel' =>
      p ← read_slot bucket_head;
      if DsaPointerIsValid p then
        it ← get_item p;
        if match_item p it then
          _ ← dsa_free_item p;
          _ ← write_slot bucket_head (next it);
          mret true
        else delete_loop fuel' match_item (Next p)
      else mret false
  end.
Definition delete_key_from_bucket (k : K) (bucket_head : slot) : M state bool :=
  s ← get_st; delete_loop (chain_fuel s) (λ _ it, equal_keys k (key it)) bucket_head.
Definition delete_item_from_bucket (item : Z) (bucket_head : slot) : M state bool :=
  s ← get_st; delete_loop (chain_fuel s) (λ p _, p =? item) bucket_head.

Definition delete_item (item : Z) : M state unit :=
  it ← get_item item;
  s ← get_st;
  let partition := PARTITION_FOR_HASH (hash it) in
  deleted ← delete_item_from_bucket item (BUCKET_FOR_HASH (hash it) s);
  when deleted
    (modify_st (with_counts (alter (λ n, wrap_u 64 (n - 1)) (Z.to_nat partition)))).

(** ** Sequential scan *)

Record dshash_seq_status := SeqStatus {
  curbucket : Z; nbuckets : Z; curitem : Z; pnextitem : Z; curpartition : Z; exclusive : bool
}.

Definition dshash_seq_init (exclusive : bool) : dshash_seq_status :=
  SeqStatus 0 0 0 InvalidDsaPointer (-1) exclusive.

Definition mode (st : dshash_seq_status) : LWLockMode :=
  if exclusive st then LW_EXCLUSIVE else LW_SHARED.

(** "Move to the next bucket if we finished the current bucket": the item
    found, if any. *)
Fixpoint next_bucket (fuel : nat) (st : dshash_seq_status) (next_item_pointer : Z)
  : M state (option Z * dshash_seq_status) :=
  if DsaPointerIsValid next_item_pointer then mret (Some next_item_pointer, st) else
  match fuel with
  | O => undefined "out of fuel"
  | S fuel' =>
      let st := SeqStatus (curbucket st + 1) (nbuckets st) (curitem st) (pnextitem st)
                  (curpartition st) (exclusive st) in
      if nbuckets st <=? curbucket st then mret (None, st) else
      s ← get_st;
      let next_partition := PARTITION_FOR_BUCKET_INDEX (curbucket st) (t_size_log2 s) in
      _ ← when (negb (curpartition st =? next_partition))
            (_ ← LWLockAcquire next_partition (mode st); LWLockRelease (curpartition st));
      s ← get_st;
      p ← read_slot (Bucket (t_buckets s) (curbucket st));
      next_bucket fuel' (SeqStatus (curbucket st) (nbuckets st) (curitem st) (pnextitem st)
                           next_partition (exclusive st)) p
  end.

(** The second half of [dshash_seq_next], from the loop on. *)
Definition seq_continue (st : dshash_seq_status) (next_item_pointer : Z)
  : M state (option Z * dshash_seq_status) :=
  '(found, st) ← next_bucket (S (Z.to_nat (nbuckets st - curbucket st))) st next_item_pointer;
  match found with
  | None => mret (None, st)
  | Some p =>
      it ← get_item p;
      mret (Some p, SeqStatus (curbucket st) (nbuckets st) p (next it) (curpartition st) (exclusive st))
  end.

Definition dshash_seq_next (st : dshash_seq_status) : M state (option Z * dshash_seq_status) :=
  if curpartition st =? -1 then
    _ ← LWLockAcquire 0 (mode st);
    _ ← ensure_valid_bucket_pointers;
    s ← get_st;
    p ← read_slot (Bucket (t_buckets s) (curbucket st));
    seq_continue (SeqStatus (curbucket st) (wrap_s 32 (NUM_BUCKETS (size_log2 s))) (curitem st)
                    (pnextitem st) 0 (exclusive st)) p
  else seq_continue st (pnextitem st).

Definition dshash_seq_term (st : dshash_seq_status) : M state unit :=
  when (0 <=? curpartition st) (LWLockRelease (curpartition st)).

Definition dshash_delete_current (st : dshash_seq_status) : M state unit := delete_item (curitem st).

(** The loop of a caller: [modules()] and [shmem_allocations()] take a row out
    of every entry and delete none; [del] is what a caller that deletes does
    with the entry. *)
Fixpoint scan_loop (fuel : nat) (del : K → V → bool) (st : dshash_seq_status)
  : M state (list (Z * K * V)) :=
  match fuel with
  | O => undefined "out of fuel"
  | S fuel' =>
      '(entry, st) ← dshash_seq_next st;
      match entry with
      | None => _ ← dshash_seq_term st; mret []
      | Some p =>
          it ← get_item p;
          _ ← when (del (key it) (body it)) (dshash_delete_current st);
          rows ← scan_loop fuel' del st;
          mret ((p, key it, body it) :: rows)
      end
  end.
Definition scan (fuel : nat) (exclusive : bool) (del : K → V → bool) : M state (list (Z * K * V)) :=
  scan_loop fuel del (dshash_seq_init exclusive).

(** ** Growth *)

(** The items of one bucket, moved to the new array. *)
Fixpoint move_chain (fuel : nat) (new_buckets new_size_log2 item_pointer : Z) : M state unit :=
  match fuel with
  | O => undefined "out of fuel"
  | S fuel' =>
      if DsaPointerIsValid item_pointer then
        it ← get_item item_pointer;
        _ ← insert_item_into_bucket item_pointer
              (Bucket new_buckets (BUCKET_INDEX_FOR_HASH_AND_SIZE (hash it) new_size_log2));
        move_chain fuel' new_buckets new_size_log2 (next it)
      else mret ()
  end.

Definition all_partitions : list Z := seqZ 0 DSHASH_NUM_PARTITIONS.

(** The locks of all partitions, unless the table has grown already: whether
    they are held now. *)
Fixpoint acquire_all (new_size_log2 : Z) (l : list Z) : M state bool :=
  match l with
  | [] => mret true
  | i :: l' =>
      _ ← LWLockAcquire i LW_EXCLUSIVE;
      s ← get_st;
      if (i =? 0) && (new_size_log2 <=? size_log2 s) then _ ← LWLockRelease 0; mret false
      else acquire_all new_size_log2 l'
  end.

Definition resize (new_size_log2 : Z) : M state unit :=
  go ← acquire_all new_size_log2 all_partitions;
  when go (
    s ← get_st;
    let new_size := NUM_BUCKETS new_size_log2 in
    let new_buckets := dsa_allocate (used s) in
    _ ← put_st (with_arrays <[new_buckets := replicate (Z.to_nat new_size) InvalidDsaPointer]> s);
    _ ← for_each (λ i,
          p ← read_slot (Bucket (t_buckets s) i);
          s ← get_st;
          move_chain (chain_fuel s) new_buckets new_size_log2 p)
        (seqZ 0 (NUM_BUCKETS (size_log2 s)));
    let old_buckets := buckets s in
    s ← get_st;
    _ ← put_st (with_arrays (delete old_buckets)
          (with_table (t_size_log2 s) new_buckets (with_control new_size_log2 new_buckets s)));
    for_each LWLockRelease all_partitions).

(** ** Chains *)

(** The items linked from [p] are [l]. *)
Fixpoint chain (m : gmap Z item) (p : Z) (l : list Z) : Prop :=
  match l with
  | [] => p = InvalidDsaPointer
  | x :: l' => p = x ∧ x ≠ InvalidDsaPointer ∧ ∃ it, m !! x = Some it ∧ chain m (next it) l'
  end.

Lemma chain_agree m m' l : ∀ p,
  chain m p l → (∀ x, x ∈ l → m' !! x = m !! x) → chain m' p l.
Proof.
  induction l as [|x l IH]; intros p; [done|]. intros (-> & Hx & it & E & Hc) Ha.
  split_and!; [done..|]. exists it. split; [by rewrite Ha by left|].
  apply IH; [done|]. intros y Hy. apply Ha. by right.
Qed.

Lemma chain_det m l : ∀ p l', chain m p l → chain m p l' → l = l'.
Proof.
  induction l as [|x l IH]; intros p [|y l']; [done|by intros -> (<- & ? & _)|by intros (-> & ? & _) ?|].
  intros (-> & Hx & it & E & Hc) (-> & _ & it' & E' & Hc'). simplify_eq. f_equal. by eapply IH.
Qed.

Lemma chain_some m l : ∀ p x, chain m p l → x ∈ l → is_Some (m !! x) ∧ x ≠ InvalidDsaPointer.
Proof.
  induction l as [|y l IH]; intros p x; [by intros _ ?%not_elem_of_nil|].
  intros (-> & Hy & it & E & Hc) [->|Hx]%elem_of_cons; [by eauto|by eapply IH].
Qed.

Lemma chain_valid m p x l : chain m p (x :: l) → DsaPointerIsValid p = true.
Proof. intros (-> & Hx & _). unfold DsaPointerIsValid. by rewrite (proj2 (Z.eqb_neq _ _) Hx). Qed.

Lemma chain_suffix m l1 l2 : ∀ p, chain m p (l1 ++ l2) → ∃ p', chain m p' l2.
Proof.
  induction l1 as [|x l1 IH]; intros p; [by exists p|].
  intros (-> & _ & it & _ & Hc). by eapply IH.
Qed.

(** An item without its link. *)
Definition info (it : item) : Z * K * V := (hash it, key it, body it).
Definition infos (s : state) : gmap Z (Z * K * V) := info <$> items s.

Lemma infos_set_next q n (m : gmap Z item) : info <$> alter (set_next n) q m = info <$> m.
Proof.
  apply map_eq. intros i. rewrite !lookup_fmap. destruct (decide (i = q)) as [->|Hn].
  - rewrite lookup_alter_eq. by destruct (m !! q).
  - by rewrite lookup_alter_ne.
Qed.

Lemma infos_some s p it : items s !! p = Some it → infos s !! p = Some (info it).
Proof. intros E. unfold infos. by rewrite lookup_fmap, E. Qed.

Lemma infos_inv s p i : infos s !! p = Some i → ∃ it, items s !! p = Some it ∧ info it = i.
Proof.
  unfold infos. rewrite lookup_fmap. destruct (items s !! p) as [it|]; [|done].
  intros [= <-]. by exists it.
Qed.

(** What an operation on a chain leaves alone. *)
Definition same_control (s s' : state) : Prop :=
  size_log2 s' = size_log2 s ∧ buckets s' = buckets s ∧ counts s' = counts s ∧
  held s' = held s ∧ t_size_log2 s' = t_size_log2 s ∧ t_buckets s' = t_buckets s.

Lemma read_next_item s p it : items s !! p = Some it → read_slot (Next p) s = (Ok (next it), s).
Proof. intros E. simpl. unfold get_item, mbind, M_bind, get_st. by rewrite E. Qed.

Lemma get_item_ok s p it : items s !! p = Some it → get_item p s = (Ok it, s).
Proof. intros E. unfold get_item. by rewrite get_bind, E. Qed.

Lemma read_next_inv s p q : read_slot (Next p) s = (Ok q, s) →
  ∃ it, items s !! p = Some it ∧ next it = q.
Proof.
  simpl. unfold get_item, mbind, M_bind, get_st.
  destruct (items s !! p) as [it|]; [|done]. intros [= <-]. eauto.
Qed.

Lemma read_bucket_inv s a i q : read_slot (Bucket a i) s = (Ok q, s) →
  ∃ l, arrays s !! a = Some l ∧ 0 <= i ∧ l !! Z.to_nat i = Some q.
Proof.
  simpl. rewrite get_bind. destruct (arrays s !! a) as [l|]; [|done]. simpl.
  destruct (Z.leb_spec 0 i); [|done]. destruct (l !! Z.to_nat i) eqn:E; [|done].
  intros [= <-]. eauto.
Qed.

Lemma read_bucket s a i q l :
  arrays s !! a = Some l → 0 <= i → l !! Z.to_nat i = Some q → read_slot (Bucket a i) s = (Ok q, s).
Proof.
  intros E Hi El. simpl. rewrite get_bind, E. simpl. rewrite (proj2 (Z.leb_le _ _) Hi). by rewrite El.
Qed.

(** The array behind a slot after a write. *)
Definition slot_array (sl : slot) (q : Z) (m : gmap Z (list Z)) : gmap Z (list Z) :=
  match sl with Bucket a i => alter <[Z.to_nat i := q]> a m | Next _ => m end.
Definition slot_items (sl : slot) (q : Z) (m : gmap Z item) : gmap Z item :=
  match sl with Bucket a i => m | Next p => alter (set_next q) p m end.

Lemma write_slot_ok s sl p q : read_slot sl s = (Ok p, s) →
  let s' := with_items (slot_items sl q) (with_arrays (slot_array sl q) s) in
  write_slot sl q s = (Ok (), s') ∧ read_slot sl s' = (Ok q, s').
Proof.
  intros E s'. unfold write_slot. rewrite (bind_ok _ _ _ _ _ E). destruct sl as [a i|y].
  - split; [done|]. apply read_bucket_inv in E as (l & Ea & Hi & El).
    eapply read_bucket; [|done|].
    + simpl. by rewrite lookup_alter_eq, Ea.
    + apply list_lookup_insert_eq. by eapply lookup_lt_Some.
  - split; [done|]. apply read_next_inv in E as (it & Ei & _).
    rewrite (read_next_item s' y (set_next q it)); [done|].
    simpl. by rewrite lookup_alter_eq, Ei.
Qed.

Lemma slot_items_ne sl q m y : sl ≠ Next y → slot_items sl q m !! y = m !! y.
Proof. destruct sl as [a i|z]; [done|]. intros Hn. simpl. rewrite lookup_alter_ne; [done|congruence]. Qed.

Lemma slot_items_infos sl q (m : gmap Z item) : info <$> slot_items sl q m = info <$> m.
Proof. destruct sl; [done|apply infos_set_next]. Qed.

Lemma slot_array_id sl p s : read_slot sl s = (Ok p, s) → slot_array sl p (arrays s) = arrays s.
Proof.
  intros E. destruct sl as [a i|]; [|done]. apply read_bucket_inv in E as (l & Ea & _ & El).
  simpl. apply map_eq. intros j. destruct (decide (j = a)) as [->|Hn].
  - rewrite lookup_alter_eq, Ea. simpl. by rewrite list_insert_id.
  - by rewrite lookup_alter_ne.
Qed.

Lemma read_slot_agree sl s s' p :
  read_slot sl s = (Ok p, s) → arrays s' = arrays s → (∀ q, sl = Next q → items s' !! q = items s !! q) →
  read_slot sl s' = (Ok p, s').
Proof.
  intros E Ea Ei. destruct sl as [a i|q].
  - apply read_bucket_inv in E as (l & El & Hi & Hl). eapply read_bucket; [by rewrite Ea|done..].
  - apply read_next_inv in E as (it & E & <-). apply read_next_item. by rewrite Ei.
Qed.

(** *** Deleting from a chain *)

(** [x] is unlinked from the chain at [sl], whose items are then [l]. *)
Definition unlinked (sl : slot) (x : Z) (pre post : list Z) (s s' : state) : Prop :=
  ∃ p', read_slot sl s' = (Ok p', s') ∧ chain (items s') p' (pre ++ post) ∧
    infos s' = delete x (infos s) ∧ arrays s' = slot_array sl p' (arrays s) ∧
    (∀ q, q ∉ pre → sl ≠ Next q → q ≠ x → items s' !! q = items s !! q) ∧ same_control s s'.

Lemma unlink_head sl x it post s p :
  read_slot sl s = (Ok p, s) → items s !! x = Some it → x ∉ post → chain (items s) (next it) post →
  (∀ q, sl = Next q → q ∉ x :: post) →
  ∃ s', (_ ← dsa_free_item x; _ ← write_slot sl (next it); mret true) s = (Ok true, s') ∧
    unlinked sl x [] post s s'.
Proof.
  intros E Ei Hx Hc Hq. set (s1 := with_items (delete x) s).
  assert (E1 : read_slot sl s1 = (Ok p, s1)).
  { apply (read_slot_agree sl s); [done..|]. intros q ->. simpl. apply lookup_delete_ne.
    intros ->. eapply Hq; [done|by left]. }
  destruct (write_slot_ok s1 sl p (next it) E1) as [E2 E3]. cbv zeta in E2, E3.
  set (s2 := with_items _ _) in E2, E3. exists s2. split.
  { assert (Ef : dsa_free_item x s = (Ok (), s1)).
    { unfold dsa_free_item. by rewrite (bind_ok _ _ _ _ _ (get_item_ok s x it Ei)). }
    by rewrite (bind_ok _ _ _ _ _ Ef), (bind_ok _ _ _ _ _ E2). }
  assert (Hfr : ∀ q, sl ≠ Next q → q ≠ x → items s2 !! q = items s !! q).
  { intros q Hs Hne. simpl. rewrite slot_items_ne by done. simpl. by apply lookup_delete_ne. }
  exists (next it). split_and!; [done| | |done|intros q _; apply Hfr|done].
  - apply (chain_agree (items s)); [done|]. intros y Hy. apply Hfr; [|by intros ->].
    intros Hs. eapply Hq; [done|]. by right.
  - unfold infos. simpl. rewrite slot_items_infos. apply fmap_delete.
Qed.

Lemma delete_loop_found f x it post pre : ∀ fuel sl p s,
  read_slot sl s = (Ok p, s) → chain (items s) p (pre ++ x :: post) → NoDup (pre ++ x :: post) →
  (∀ q, sl = Next q → q ∉ pre ++ x :: post) → items s !! x = Some it → f x it = true →
  (∀ y ity, y ∈ pre → items s !! y = Some ity → f y ity = false) → (length pre < fuel)%nat →
  ∃ s', delete_loop fuel f sl s = (Ok true, s') ∧ unlinked sl x pre post s s'.
Proof.
  induction pre as [|y pre IH]; intros [|fuel] sl p s E Hc Hnd Hq Ei Hf Hpre Hfuel; [simpl in *; lia..| |simpl in *; lia|].
  - cbn [app] in *. pose proof Hc as (-> & Hx & it' & Ei' & Hc'). simplify_eq.
    apply list.NoDup_cons in Hnd as [Hx' Hnd].
    cbn [delete_loop]. rewrite (bind_ok _ _ _ _ _ E), (chain_valid _ _ _ _ Hc).
    rewrite (bind_ok _ _ _ _ _ (get_item_ok s x it Ei)), Hf. by eapply unlink_head.
  - pose proof Hc as (-> & Hy & ity & Ey & Hc'). cbn [app] in Hnd. apply list.NoDup_cons in Hnd as [Hy' Hnd].
    cbn [delete_loop]. rewrite (bind_ok _ _ _ _ _ E), (chain_valid _ _ _ _ Hc).
    rewrite (bind_ok _ _ _ _ _ (get_item_ok s y ity Ey)), (Hpre y ity) by (done || by left).
    destruct (IH fuel (Next y) (next ity) s) as (s' & E' & p' & Er & Hch & Hin & Har & Hfr & Hsame);
      [by apply read_next_item|done|done|by intros q [= <-]|done|done| |simpl in *; lia|].
    { intros z itz Hz. apply Hpre. by right. }
    exists s'. split; [done|]. exists y.
    assert (Hsl : ∀ q, sl = Next q → items s' !! q = items s !! q).
    { intros q ->. specialize (Hq q eq_refl). apply Hfr.
      - intros Hin'. apply Hq. right. apply elem_of_app. by left.
      - intros [= ->]. apply Hq. by left.
      - intros ->. apply Hq. right. apply elem_of_app. right. by left. }
    apply read_next_inv in Er as (it' & Ei' & <-). split_and!; [| |done| | |done].
    + by apply (read_slot_agree sl s).
    + cbn [app chain]. split_and!; [done..|]. by exists it'.
    + simpl in Har. rewrite Har. by rewrite (slot_array_id sl y s E).
    + intros q Hqp Hqs Hqx. apply not_elem_of_cons in Hqp as [Hqy Hqp].
      apply Hfr; [done|congruence|done].
Qed.

Lemma delete_loop_missing f l : ∀ fuel sl p s,
  read_slot sl s = (Ok p, s) → chain (items s) p l →
  (∀ y ity, y ∈ l → items s !! y = Some ity → f y ity = false) → (length l < fuel)%nat →
  delete_loop fuel f sl s = (Ok false, s).
Proof.
  induction l as [|y l IH]; intros [|fuel] sl p s E Hc Hf Hfuel; [simpl in *; lia..| |simpl in *; lia|].
  - simpl in Hc. subst p. cbn [delete_loop]. by rewrite (bind_ok _ _ _ _ _ E).
  - pose proof Hc as (-> & Hy & ity & Ey & Hc').
    cbn [delete_loop]. rewrite (bind_ok _ _ _ _ _ E), (chain_valid _ _ _ _ Hc).
    rewrite (bind_ok _ _ _ _ _ (get_item_ok s y ity Ey)), (Hf y ity) by (done || by left).
    eapply IH; [by apply read_next_item|done| |simpl in *; lia]. intros z itz Hz. apply Hf. by right.
Qed.

(** A chain without repetitions is no longer than the number of items. *)
Lemma chain_length (m : gmap Z item) p l : chain m p l → NoDup l → (length l <= size m)%nat.
Proof.
  intros Hc Hnd. rewrite <- size_dom, <- (size_list_to_set (C := gset Z) l) by done.
  apply subseteq_size. intros x Hx%elem_of_list_to_set. apply elem_of_dom.
  by eapply chain_some in Hx as [? _].
Qed.

(** *** Finding and inserting *)

(** The first item of [l] with this key. *)
Fixpoint first_match (m : gmap Z item) (k : K) (l : list Z) : option Z :=
  match l with
  | [] => None
  | x :: l' =>
      if default false ((λ it, equal_keys k (key it)) <$> m !! x) then Some x else first_match m k l'
  end.

Lemma find_loop_ok k l : ∀ fuel p s,
  chain (items s) p l → (length l < fuel)%nat →
  find_loop fuel k p s = (Ok (first_match (items s) k l), s).
Proof.
  induction l as [|x l IH]; intros [|fuel] p s Hc Hf; [simpl in *; lia..| |simpl in *; lia|].
  - simpl in Hc. by subst p.
  - pose proof Hc as (-> & Hx & it & E & Hc').
    cbn [find_loop first_match]. rewrite (chain_valid _ _ _ _ Hc), (bind_ok _ _ _ _ _ (get_item_ok _ _ _ E)), E.
    simpl. destruct (equal_keys k (key it)); [done|]. apply IH; [done|simpl in *; lia].
Qed.

Lemma insert_item_ok sl x it l p s :
  read_slot sl s = (Ok p, s) → chain (items s) p l → items s !! x = Some it → x ≠ InvalidDsaPointer →
  x ∉ l → (∀ q, sl = Next q → q ∉ x :: l) →
  ∃ s', insert_item_into_bucket x sl s = (Ok (), s') ∧
    read_slot sl s' = (Ok x, s') ∧ chain (items s') x (x :: l) ∧
    infos s' = infos s ∧ arrays s' = slot_array sl x (arrays s) ∧
    (∀ q, q ≠ x → sl ≠ Next q → items s' !! q = items s !! q) ∧ same_control s s'.
Proof.
  intros E Hc Ei Hx Hxl Hq.
  destruct (write_slot_ok s (Next x) (next it) p (read_next_item _ _ _ Ei)) as [E1 _]. cbv zeta in E1.
  set (s1 := with_items _ _) in E1.
  assert (E2 : read_slot sl s1 = (Ok p, s1)).
  { apply (read_slot_agree sl s); [done..|]. intros q ->. simpl. apply lookup_alter_ne.
    intros ->. eapply Hq; [done|by left]. }
  destruct (write_slot_ok s1 sl p x E2) as [E3 E4]. cbv zeta in E3, E4. set (s2 := with_items _ _) in E3, E4.
  exists s2. split.
  { unfold insert_item_into_bucket. by rewrite (bind_ok _ _ _ _ _ E), (bind_ok _ _ _ _ _ E1). }
  assert (Hfr : ∀ q, q ≠ x → sl ≠ Next q → items s2 !! q = items s !! q).
  { intros q Hne Hs. simpl. rewrite slot_items_ne by done. simpl. by apply lookup_alter_ne. }
  assert (Hsx : sl ≠ Next x) by (intros Hs; eapply Hq; [done|by left]).
  split; [done|]. split; [|split; [|split; [done|split; [exact Hfr|done]]]].
  - split; [done|]. split; [done|]. exists (set_next p it). split.
    + simpl. rewrite slot_items_ne by done. simpl. by rewrite lookup_alter_eq, Ei.
    + apply (chain_agree (items s)); [done|]. intros y Hy. apply Hfr; [by intros ->|].
      intros Hs. eapply Hq; [done|]. by right.
  - unfold infos. simpl. rewrite slot_items_infos. apply (infos_set_next x).
Qed.

(** ** Well-formed tables *)

(** The items of a partition. *)
Definition of_partition (q : Z) (m : gmap Z (Z * K * V)) : gmap Z (Z * K * V) :=
  filter (λ xi, PARTITION_FOR_HASH xi.2.1.1 = q) m.

(** The table has the buckets [bs] with the chains [ls], each item is in the
    chain of the bucket of its hash, and the partitions are counted. *)
Record table (s : state) (bs : list Z) (ls : list (list Z)) : Prop := Table {
  tbl_size : 7 <= size_log2 s <= 30;
  tbl_array : arrays s !! buckets s = Some bs;
  tbl_length : length bs = Z.to_nat (NUM_BUCKETS (size_log2 s));
  tbl_chains : Forall2 (chain (items s)) bs ls;
  tbl_nodup : NoDup (concat ls);
  tbl_dom : ∀ x, x ∈ concat ls ↔ is_Some (infos s !! x);
  tbl_hash : ∀ i l x it, ls !! i = Some l → x ∈ l → infos s !! x = Some it →
    in_u 32 it.1.1 ∧ BUCKET_INDEX_FOR_HASH_AND_SIZE it.1.1 (size_log2 s) = Z.of_nat i;
  tbl_counts : ∀ q, 0 <= q < DSHASH_NUM_PARTITIONS →
    counts s !! Z.to_nat q = Some (Z.of_nat (size (of_partition q (infos s))));
  tbl_few : Z.of_nat (size (infos s)) < 2 ^ 64;
  tbl_own : t_size_log2 s <= size_log2 s ∧ (t_size_log2 s = size_log2 s → t_buckets s = buckets s)
}.

Lemma concat_delete {A} (ls : list (list A)) k pre x post :
  ls !! k = Some (pre ++ x :: post) → concat ls ≡ₚ x :: concat (<[k := pre ++ post]> ls).
Proof.
  intros E. rewrite <- (take_drop_middle ls k _ E) at 1.
  rewrite insert_take_drop by by eapply lookup_lt_Some. rewrite !concat_app. cbn [concat].
  rewrite <- !app_assoc. cbn [app]. rewrite !(app_assoc (concat (take k ls)) pre).
  symmetry. apply Permutation_middle.
Qed.

Lemma elem_of_concat {A} (ls : list (list A)) x : x ∈ concat ls ↔ ∃ i l, ls !! i = Some l ∧ x ∈ l.
Proof.
  rewrite list_elem_of_In, in_concat. split.
  - intros (l & Hl & Hx). apply list_elem_of_In, list_elem_of_lookup in Hl as [i Hi].
    exists i, l. by rewrite list_elem_of_In.
  - intros (i & l & Hi & Hx). exists l. rewrite <- !list_elem_of_In. split; [|done].
    by eapply list_elem_of_lookup_2.
Qed.

Lemma concat_disjoint {A} (ls : list (list A)) : ∀ i j l l' x,
  NoDup (concat ls) → ls !! i = Some l → ls !! j = Some l' → x ∈ l → x ∈ l' → i = j.
Proof.
  induction ls as [|l0 ls IH]; intros i j l l' x Hnd Hi Hj Hx Hx'; [done|].
  cbn [concat] in Hnd. apply list.NoDup_app in Hnd as (_ & Hdis & Hnd).
  destruct i as [|i], j as [|j]; simplify_eq/=; [done| | |by f_equal; eapply IH].
  - exfalso. eapply Hdis; [done|]. apply elem_of_concat. eauto.
  - exfalso. eapply Hdis; [done|]. apply elem_of_concat. eauto.
Qed.

Lemma concat_nodup {A} (ls : list (list A)) i l : NoDup (concat ls) → ls !! i = Some l → NoDup l.
Proof.
  revert i. induction ls as [|l0 ls IH]; intros [|i] Hnd Hi; [done..| |];
    cbn [concat] in Hnd; apply list.NoDup_app in Hnd as (Hnd0 & _ & Hnd); simplify_eq/=; [done|].
  by eapply IH.
Qed.

Lemma bucket_chain s bs ls k l : table s bs ls → ls !! k = Some l →
  ∃ p, bs !! k = Some p ∧ chain (items s) p l.
Proof. intros T E. by apply (Forall2_lookup_r _ _ _ _ _ (tbl_chains _ _ _ T)). Qed.

Lemma in_chain_some s bs ls k l x : table s bs ls → ls !! k = Some l → x ∈ l →
  ∃ it, items s !! x = Some it.
Proof.
  intros T E Hx. destruct (bucket_chain _ _ _ _ _ T E) as (p & _ & Hc).
  by apply (chain_some _ _ _ x Hc) in Hx as [[it ?] _]; exists it.
Qed.

Lemma table_read s bs ls k p : table s bs ls → t_size_log2 s = size_log2 s → bs !! k = Some p →
  read_slot (Bucket (t_buckets s) (Z.of_nat k)) s = (Ok p, s).
Proof.
  intros T Hs E. apply (read_bucket s _ _ _ bs); [|lia|by rewrite Nat2Z.id].
  rewrite (proj2 (tbl_own _ _ _ T) Hs). apply T.
Qed.

Lemma table_ls_length s bs ls : table s bs ls → length ls = Z.to_nat (NUM_BUCKETS (size_log2 s)).
Proof. intros T. rewrite <- (tbl_length _ _ _ T). symmetry. by eapply Forall2_length, T. Qed.

Lemma chain_fuel_enough s bs ls k l : table s bs ls → ls !! k = Some l → (length l < chain_fuel s)%nat.
Proof.
  intros T E. destruct (bucket_chain _ _ _ _ _ T E) as (p & _ & Hc).
  pose proof (chain_length _ _ _ Hc (concat_nodup _ _ _ (tbl_nodup _ _ _ T) E)).
  unfold chain_fuel. lia.
Qed.

(** One item less. *)
Lemma of_partition_delete q x it (m : gmap Z (Z * K * V)) : m !! x = Some it →
  Z.of_nat (size (of_partition q (delete x m))) =
  Z.of_nat (size (of_partition q m)) - (if decide (PARTITION_FOR_HASH it.1.1 = q) then 1 else 0).
Proof.
  intros E. unfold of_partition. rewrite map_filter_delete. case_decide as Hq.
  - assert (Ef : filter (λ xi : Z * (Z * K * V), PARTITION_FOR_HASH xi.2.1.1 = q) m !! x = Some it)
      by by apply map_lookup_filter_Some_2.
    rewrite (map_size_delete_Some _ _ (ex_intro _ _ Ef)).
    assert (size (filter (λ xi : Z * (Z * K * V), PARTITION_FOR_HASH xi.2.1.1 = q) m) ≠ 0%nat).
    { intros H0%map_size_empty_inv. rewrite H0 in Ef. by rewrite lookup_empty in Ef. }
    lia.
  - rewrite delete_id; [lia|]. apply map_lookup_filter_None_2. right. intros i' Hi'. simpl. congruence.
Qed.

Lemma partition_range h : in_u 32 h → 0 <= PARTITION_FOR_HASH h < DSHASH_NUM_PARTITIONS.
Proof.
  intros [H1 H2]. unfold PARTITION_FOR_HASH, DSHASH_NUM_PARTITIONS, DSHASH_NUM_PARTITIONS_LOG2.
  rewrite Z.shiftr_div_pow2 by lia. change (Z.shiftl 1 7) with 128. change (32 - 7) with 25.
  split; [apply Z.div_pos; lia|apply Z.div_lt_upper_bound; lia].
Qed.

(** *** Deleting an item *)

(** Size, bucket array and locks are unchanged. *)
Definition same_backend (s s' : state) : Prop :=
  size_log2 s' = size_log2 s ∧ buckets s' = buckets s ∧ held s' = held s ∧
  t_size_log2 s' = t_size_log2 s ∧ t_buckets s' = t_buckets s.

Lemma same_backend_trans s1 s2 s3 : same_backend s1 s2 → same_backend s2 s3 → same_backend s1 s3.
Proof. unfold same_backend. intros (-> & -> & -> & -> & ->). done. Qed.

Lemma unlinked_chains s s' bs ls k pre x post :
  table s bs ls → t_size_log2 s = size_log2 s → ls !! k = Some (pre ++ x :: post) →
  unlinked (Bucket (t_buckets s) (Z.of_nat k)) x pre post s s' →
  ∃ p', arrays s' !! buckets s = Some (<[k := p']> bs) ∧
    Forall2 (chain (items s')) (<[k := p']> bs) (<[k := pre ++ post]> ls).
Proof.
  intros T Hs E (p' & Er & Hc & _ & Ha & Hfr & _). pose proof (tbl_own _ _ _ T) as [_ Hb].
  exists p'. split.
  { rewrite Ha, (Hb Hs). simpl. by rewrite Nat2Z.id, lookup_alter_eq, (tbl_array _ _ _ T). }
  apply Forall2_same_length_lookup. split.
  { rewrite !length_insert. by eapply Forall2_length, T. }
  intros j p l Hp Hl. destruct (decide (j = k)) as [->|Hjk].
  - apply list_lookup_insert_Some in Hp as [(_ & <- & _)|[? _]]; [|done].
    apply list_lookup_insert_Some in Hl as [(_ & <- & _)|[? _]]; [|done]. done.
  - rewrite list_lookup_insert_ne in Hp by done. rewrite list_lookup_insert_ne in Hl by done.
    pose proof (Forall2_lookup_lr _ _ _ _ _ _ (tbl_chains _ _ _ T) Hp Hl) as Hch.
    apply (chain_agree (items s)); [done|]. intros y Hy.
    assert (Hnot : y ∉ pre ++ x :: post).
    { intros Hy'. apply Hjk. eapply concat_disjoint; [by eapply tbl_nodup|done|done|done|done]. }
    apply Hfr; [|done|].
    + intros Hp'. apply Hnot, elem_of_app. by left.
    + intros ->. apply Hnot, elem_of_app. right. by left.
Qed.

(** [--count] of the partition of a deleted item. *)
Definition uncount (it : Z * K * V) : list Z → list Z :=
  alter (λ n, wrap_u 64 (n - 1)) (Z.to_nat (PARTITION_FOR_HASH it.1.1)).

Lemma uncount_ok q x it (m : gmap Z (Z * K * V)) cs :
  m !! x = Some it → in_u 32 it.1.1 → Z.of_nat (size m) < 2 ^ 64 → 0 <= q →
  cs !! Z.to_nat q = Some (Z.of_nat (size (of_partition q m))) →
  uncount it cs !! Z.to_nat q = Some (Z.of_nat (size (of_partition q (delete x m)))).
Proof.
  intros Hi Hh Hfew Hq Ec. rewrite (of_partition_delete q x _ _ Hi). unfold uncount.
  pose proof (partition_range _ Hh) as Hr. case_decide as Eq.
  - subst q. rewrite list_lookup_alter_eq, Ec. simpl. f_equal. apply wrap_u_id.
    assert (Hle : (size (of_partition (PARTITION_FOR_HASH it.1.1) m) <= size m)%nat).
    { rewrite <- !size_dom. apply subseteq_size, dom_filter_subseteq. }
    assert (size (of_partition (PARTITION_FOR_HASH it.1.1) m) ≠ 0%nat).
    { intros H0%map_size_empty_inv.
      assert (Ef : of_partition (PARTITION_FOR_HASH it.1.1) m !! x = Some it)
        by by apply map_lookup_filter_Some_2. by rewrite H0, lookup_empty in Ef. }
    unfold in_u. lia.
  - rewrite list_lookup_alter_ne by lia. rewrite Ec. f_equal. lia.
Qed.

Lemma table_less s s' bs bs' ls k pre x post it :
  table s bs ls → ls !! k = Some (pre ++ x :: post) → infos s !! x = Some it →
  arrays s' !! buckets s = Some bs' → length bs' = length bs →
  Forall2 (chain (items s')) bs' (<[k := pre ++ post]> ls) →
  infos s' = delete x (infos s) → counts s' = uncount it (counts s) → same_backend s s' →
  table s' bs' (<[k := pre ++ post]> ls).
Proof.
  intros T E Hi Ha Hlen Hch Hinf Hcs (S1 & S2 & S3 & S4 & S5).
  assert (Hperm := concat_delete ls k pre x post E).
  pose proof (tbl_nodup _ _ _ T) as Hnd. rewrite Hperm in Hnd. apply list.NoDup_cons in Hnd as [Hx Hnd].
  assert (Hin : x ∈ pre ++ x :: post) by (apply elem_of_app; right; by left).
  destruct (tbl_hash _ _ _ T k _ x _ E Hin Hi) as [Hh _].
  apply Table; rewrite ?S1, ?S2, ?S4, ?S5, ?Hinf.
  - apply T.
  - done.
  - rewrite Hlen. apply T.
  - done.
  - done.
  - intros y. destruct (decide (y = x)) as [->|Hne].
    + rewrite lookup_delete_eq. split; [done|]. by intros [? ?].
    + rewrite lookup_delete_ne, <- (tbl_dom _ _ _ T), Hperm, elem_of_cons by done.
      split; [by right|by intros [?|?]].
  - intros i l y ity Hl Hy [Hne Hiy]%lookup_delete_Some.
    apply list_lookup_insert_Some in Hl as [(-> & <- & _)|[? Hl]]; [|by eapply (tbl_hash _ _ _ T)].
    eapply (tbl_hash _ _ _ T); [done| |done].
    apply elem_of_app in Hy as [?|?]; apply elem_of_app; [by left|]. right. by right.
  - intros q Hq. rewrite Hcs. apply uncount_ok; [done..|apply T|lia|by apply (tbl_counts _ _ _ T)].
  - rewrite (map_size_delete_Some _ _ (mk_is_Some _ _ Hi)). pose proof (tbl_few _ _ _ T). lia.
  - apply T.
Qed.

Lemma delete_item_ok s bs ls k pre x post it :
  table s bs ls → t_size_log2 s = size_log2 s → ls !! k = Some (pre ++ x :: post) →
  items s !! x = Some it →
  ∃ s' bs', delete_item x s = (Ok (), s') ∧ table s' bs' (<[k := pre ++ post]> ls) ∧
    infos s' = delete x (infos s) ∧ same_backend s s' ∧
    (∀ y, y ∈ post → items s' !! y = items s !! y).
Proof.
  intros T Hs E Ei. pose proof (infos_some _ _ _ Ei) as Hi.
  assert (Hx : x ∈ pre ++ x :: post) by (apply elem_of_app; right; by left).
  destruct (tbl_hash _ _ _ T k _ x _ E Hx Hi) as [Hh Hk]. simpl in Hh, Hk.
  destruct (bucket_chain _ _ _ _ _ T E) as (p & Hp & Hc).
  pose proof (concat_nodup _ _ _ (tbl_nodup _ _ _ T) E) as Hnd.
  pose proof (chain_fuel_enough _ _ _ _ _ T E) as Hfuel. rewrite length_app in Hfuel.
  assert (Esl : BUCKET_FOR_HASH (hash it) s = Bucket (t_buckets s) (Z.of_nat k))
    by (unfold BUCKET_FOR_HASH; by rewrite Hs, Hk).
  pose proof Hnd as (_ & Hnd1 & Hnd2)%list.NoDup_app. apply list.NoDup_cons in Hnd2 as [Hxp _].
  destruct (delete_loop_found (λ p _, p =? x) x it post pre (chain_fuel s)
    (Bucket (t_buckets s) (Z.of_nat k)) p s) as (s1 & E1 & Hun); [by eapply table_read|done..| | |lia|].
  { by rewrite Z.eqb_refl. }
  { intros y ity Hy _. apply Z.eqb_neq. intros ->. eapply Hnd1; [done|by left]. }
  destruct (unlinked_chains s s1 bs ls k pre x post T Hs E Hun) as (p' & Ha & Hch).
  destruct Hun as (_ & _ & _ & Hinf & _ & Hfr & (S1 & S2 & S3 & S4 & S5 & S6)).
  exists (with_counts (uncount (info it)) s1), (<[k := p']> bs). split; [|split; [|split; [done|split; [done|]]]].
  - unfold delete_item. rewrite (bind_ok _ _ _ _ _ (get_item_ok _ _ _ Ei)), get_bind, Esl.
    unfold delete_item_from_bucket. by rewrite (bind_ok _ _ true s s1).
  - apply (table_less s _ bs _ ls k pre x post (info it)); try done; [by rewrite length_insert|].
    simpl. by rewrite S3.
  - intros y Hy. simpl. apply Hfr; [|done|by intros ->].
    intros Hp'. eapply Hnd1; [done|by right].
Qed.

(** ** The scan *)

Context (others_ok : ∀ i s bs ls, table s bs ls → held s !! i = None →
  (∃ bs' ls', table (others i s) bs' ls') ∧ held (others i s) = held s ∧
  t_size_log2 (others i s) = t_size_log2 s ∧ t_buckets (others i s) = t_buckets s ∧
  (held s ≠ ∅ → size_log2 (others i s) = size_log2 s)).

(** The items of a bucket. *)
Fixpoint follow (fuel : nat) (m : gmap Z item) (p : Z) : list Z :=
  match fuel with
  | O => []
  | S fuel' =>
      match m !! p with
      | Some it => if DsaPointerIsValid p then p :: follow fuel' m (next it) else []
      | None => []
      end
  end.
Definition bucket_items (s : state) (k : Z) : list Z :=
  match arrays s !! t_buckets s ≫= λ l, l !! Z.to_nat k with
  | Some p => follow (size (items s)) (items s) p
  | None => []
  end.

Lemma follow_chain m l : ∀ fuel p, chain m p l → (length l <= fuel)%nat → follow fuel m p = l.
Proof.
  induction l as [|x l IH]; intros fuel p Hc Hf.
  - simpl in Hc. subst p. destruct fuel; [done|]. simpl. by destruct (m !! _).
  - pose proof (chain_valid _ _ _ _ Hc) as Hv. destruct Hc as (-> & Hx & it & E & Hc).
    destruct fuel as [|fuel]; [simpl in *; lia|]. simpl. rewrite E, Hv. f_equal.
    apply IH; [done|simpl in *; lia].
Qed.

Section Scan.
Context (excl : bool) (del : K → V → bool).

Definition lock_mode : LWLockMode := if excl then LW_EXCLUSIVE else LW_SHARED.

(** What a scan is: from partition [p] to partition [q], the lock of [q] is
    taken before that of [p] is released; *)
Definition entered (q p : Z) (s : state) : state :=
  if p =? q then s else with_held (delete p) (with_held <[q := lock_mode]> (others q s)).

(** the items of a bucket are visited in turn, and some deleted; *)
Fixpoint visit_items (l : list Z) (s : state) : list (Z * K * V) * state :=
  match l with
  | [] => ([], s)
  | x :: l' =>
      match items s !! x with
      | None => ([], s)
      | Some it =>
          let s1 := if del (key it) (body it) then (delete_item x s).2 else s in
          let '(rows, s2) := visit_items l' s1 in ((x, key it, body it) :: rows, s2)
      end
  end.

(** and so are the buckets, [n] of them from bucket [k] on. *)
Fixpoint visit_buckets (n : nat) (k p : Z) (s : state) : list (Z * K * V) * state * Z :=
  match n with
  | O => ([], s, p)
  | S n' =>
      let q := PARTITION_FOR_BUCKET_INDEX k (t_size_log2 s) in
      let s' := entered q p s in
      let '(rows, s1) := visit_items (bucket_items s' k) s' in
      let '(rows', s2, p2) := visit_buckets n' (k + 1) q s1 in (rows ++ rows', s2, p2)
  end.

Definition scan_spec (s : state) : list (Z * K * V) * state :=
  let s0 := with_held <[0 := lock_mode]> (others 0 s) in
  let s1 := with_table (size_log2 s0) (buckets s0) s0 in
  let '(rows, s2, p) := visit_buckets (Z.to_nat (NUM_BUCKETS (size_log2 s1))) 0 0 s1 in
  (rows, with_held (delete p) s2).

(** During the scan: the lock of one partition is held. *)
Record ready (p : Z) (s : state) (bs : list Z) (ls : list (list Z)) : Prop := Ready {
  rd_table : table s bs ls;
  rd_size : t_size_log2 s = size_log2 s;
  rd_held : held s = {[p := lock_mode]}
}.

Lemma table_held f s bs ls : table s bs ls → table (with_held f s) bs ls.
Proof. intros []. by constructor. Qed.

Lemma entered_ready q p s bs ls : ready p s bs ls →
  ∃ bs' ls', ready q (entered q p s) bs' ls' ∧ size_log2 (entered q p s) = size_log2 s.
Proof.
  intros [T Hs Hh]. unfold entered. destruct (Z.eqb_spec p q) as [->|Hpq]; [by exists bs, ls|].
  destruct (others_ok q s bs ls) as ((bs' & ls' & T') & Hh' & Ht & Htb & Hsz); [done| |].
  { by rewrite Hh, lookup_singleton_ne. }
  assert (Hsz' : size_log2 (others q s) = size_log2 s).
  { apply Hsz. rewrite Hh. apply map_non_empty_singleton. }
  exists bs', ls'. split; [|done]. split.
  - by do 2 apply table_held.
  - simpl. by rewrite Ht, Hsz'.
  - simpl. rewrite Hh', Hh, delete_insert_ne by done. by rewrite delete_singleton_eq, insert_empty.
Qed.

Lemma bucket_items_ok p s bs ls k l : ready p s bs ls → ls !! k = Some l →
  bucket_items s (Z.of_nat k) = l.
Proof.
  intros [T Hs _] E. unfold bucket_items. destruct (bucket_chain _ _ _ _ _ T E) as (b & Eb & Hc).
  rewrite (proj2 (tbl_own _ _ _ T) Hs), (tbl_array _ _ _ T). simpl. rewrite Nat2Z.id, Eb.
  apply follow_chain; [done|]. eapply chain_length; [done|].
  eapply concat_nodup; [by eapply tbl_nodup|done].
Qed.

(** Visiting one item. *)
Lemma visit_step p s bs ls k pre x post :
  ready p s bs ls → ls !! k = Some (pre ++ x :: post) →
  ∃ it, items s !! x = Some it ∧
    let s1 := if del (key it) (body it) then (delete_item x s).2 else s in
    when (del (key it) (body it)) (delete_item x) s = (Ok (), s1) ∧
    (∃ bs' pre', ready p s1 bs' (<[k := pre' ++ post]> ls)) ∧ size_log2 s1 = size_log2 s ∧
    (∀ y, y ∈ post → items s1 !! y = items s !! y) ∧
    infos s1 = (if del (key it) (body it) then delete x (infos s) else infos s).
Proof.
  intros [T Hs Hh] E. destruct (in_chain_some _ _ _ _ _ x T E) as [it Ei].
  { apply elem_of_app. right. by left. }
  exists it. split; [done|]. destruct (del _ _); simpl.
  - destruct (delete_item_ok s bs ls k pre x post it) as (s' & bs' & Ed & T' & Hi & (S1 & S2 & S3 & S4 & S5) & Hy);
      [done..|].
    rewrite Ed. simpl. split_and!; [done| |done|done|done]. exists bs', pre.
    split; [done|by rewrite S4, S1|by rewrite S3].
  - split_and!; [done| |done..]. exists bs, (pre ++ [x]). rewrite <- app_assoc. simpl.
    rewrite list_insert_id by done. done.
Qed.

(** What the loop of the caller does with what [dshash_seq_next] returns. *)
Definition scan_rest (fuel : nat) (r : option Z * dshash_seq_status) : M state (list (Z * K * V)) :=
  match r.1 with
  | None => _ ← dshash_seq_term r.2; mret []
  | Some p =>
      it ← get_item p;
      _ ← when (del (key it) (body it)) (dshash_delete_current r.2);
      rows ← scan_loop fuel del r.2;
      mret ((p, key it, body it) :: rows)
  end.

Lemma bind_ext {A B} (m : M state A) (f g : A → M state B) s :
  (∀ a s', f a s' = g a s') → (m ≫= f) s = (m ≫= g) s.
Proof. intros H. unfold mbind, M_bind. by destruct (m s) as [[]]. Qed.

Lemma scan_loop_S fuel st s :
  scan_loop (S fuel) del st s = (dshash_seq_next st ≫= scan_rest fuel) s.
Proof. simpl. apply bind_ext. by intros [[p|] st'] s'. Qed.

(** The scan is at bucket [k] of partition [curpartition]. *)
Definition at_bucket (st : dshash_seq_status) (s : state) (k : nat) : Prop :=
  curbucket st = Z.of_nat k ∧ nbuckets st = NUM_BUCKETS (size_log2 s) ∧
  curbucket st < nbuckets st ∧ 0 <= curpartition st ∧ exclusive st = excl.

Lemma seq_continue_item st s x it :
  DsaPointerIsValid x = true → items s !! x = Some it →
  seq_continue st x s =
  (Ok (Some x, SeqStatus (curbucket st) (nbuckets st) x (next it) (curpartition st) (exclusive st)), s).
Proof.
  intros Hv E. unfold seq_continue. cbn [next_bucket]. rewrite Hv.
  unfold mbind at 1, M_bind at 1, mret at 1, M_ret at 1. by rewrite (bind_ok _ _ _ _ _ (get_item_ok _ _ _ E)).
Qed.

Lemma seq_continue_end st s :
  nbuckets st = curbucket st + 1 →
  ∃ st', seq_continue st InvalidDsaPointer s = (Ok (None, st'), s) ∧ curpartition st' = curpartition st.
Proof.
  intros E. unfold seq_continue. cbn [next_bucket].
  replace (nbuckets st - curbucket st) with 1 by lia. change (Z.to_nat 1) with 1%nat.
  cbn [DsaPointerIsValid negb Z.eqb InvalidDsaPointer]. cbn [curbucket nbuckets].
  rewrite (proj2 (Z.leb_le _ _)) by lia. eexists. split; [done|done].
Qed.

Lemma partition_nonneg k size : 0 <= k → 0 <= PARTITION_FOR_BUCKET_INDEX k size.
Proof. intros. unfold PARTITION_FOR_BUCKET_INDEX. by apply Z.shiftr_nonneg. Qed.

(** From an exhausted bucket to the next one. *)
Lemma seq_continue_bucket st s bs ls k :
  ready (curpartition st) s bs ls → at_bucket st s k → Z.of_nat (S k) < nbuckets st →
  let q := PARTITION_FOR_BUCKET_INDEX (Z.of_nat (S k)) (t_size_log2 s) in
  let s' := entered q (curpartition st) s in
  ∃ st' bs' ls' l b, ready q s' bs' ls' ∧ at_bucket st' s' (S k) ∧ curpartition st' = q ∧
    ls' !! S k = Some l ∧ chain (items s') b l ∧
    seq_continue st InvalidDsaPointer s = seq_continue st' b s'.
Proof.
  intros R (Hc & Hn & Hlt & Hp & Hx) Hk q s'.
  destruct (entered_ready q _ _ _ _ R) as (bs' & ls' & R' & Hsz). fold s' in R', Hsz.
  pose proof (rd_table _ _ _ _ R') as T'.
  assert (Hl : (S k < length ls')%nat).
  { rewrite (table_ls_length _ _ _ T'), Hsz, <- Hn. lia. }
  destruct (lookup_lt_is_Some_2 _ _ Hl) as [l El].
  destruct (bucket_chain _ _ _ _ _ T' El) as (b & Eb & Hch).
  exists (SeqStatus (Z.of_nat (S k)) (nbuckets st) (curitem st) (pnextitem st) q (exclusive st)), bs', ls', l, b.
  split_and!; [done| |done|done|done|].
  { unfold at_bucket. simpl. rewrite Hsz. split_and!; [done..| |done]. apply partition_nonneg. lia. }
  assert (Emove : when (negb (curpartition st =? q))
      (_ ← LWLockAcquire q (mode st); LWLockRelease (curpartition st)) s = (Ok (), s')).
  { unfold s', entered. destruct (Z.eqb_spec (curpartition st) q) as [Eq|Hpq]; [done|]. simpl.
    destruct R as [T Hs Hh]. assert (Hq : held s !! q = None) by by rewrite Hh, lookup_singleton_ne.
    destruct (others_ok q s bs ls T Hq) as (_ & Hh' & _).
    assert (Ea : LWLockAcquire q (mode st) s = (Ok (), with_held <[q := lock_mode]> (others q s))).
    { unfold LWLockAcquire. rewrite get_bind, Hq. unfold mode. by rewrite Hx. }
    rewrite (bind_ok _ _ _ _ _ Ea). unfold LWLockRelease. rewrite get_bind. simpl.
    by rewrite Hh', Hh, lookup_insert_ne, lookup_singleton_eq by done. }
  unfold seq_continue at 1.
  replace (Z.to_nat (nbuckets st - curbucket st)) with (S (Z.to_nat (nbuckets st - Z.of_nat (S k)))) by lia.
  remember (S (Z.to_nat (nbuckets st - Z.of_nat (S k)))) as fuel eqn:Ef.
  cbn [next_bucket]. cbn [DsaPointerIsValid negb Z.eqb InvalidDsaPointer].
  cbn [curbucket nbuckets curpartition exclusive curitem pnextitem].
  replace (curbucket st + 1) with (Z.of_nat (S k)) by lia. rewrite (proj2 (Z.leb_gt _ _)) by lia.
  fold q. subst fuel. unfold seq_continue. cbn [curbucket nbuckets].
  unfold mbind at 1, M_bind at 1. rewrite get_bind. fold q.
  change (mode (SeqStatus (Z.of_nat (S k)) (nbuckets st) (curitem st) (pnextitem st) (curpartition st) (exclusive st)))
    with (mode st).
  rewrite (bind_ok _ _ _ _ _ Emove), get_bind.
  by rewrite (bind_ok _ _ _ _ _ (table_read s' bs' ls' (S k) b T' (rd_size _ _ _ _ R') Eb)).
Qed.

Lemma visit_items_ready p k post : ∀ pre s bs ls,
  ready p s bs ls → ls !! k = Some (pre ++ post) →
  (∃ bs' pre', ready p (visit_items post s).2 bs' (<[k := pre']> ls)) ∧
  size_log2 (visit_items post s).2 = size_log2 s ∧
  fst ∘ fst <$> (visit_items post s).1 = post.
Proof.
  induction post as [|x post IH]; intros pre s bs ls R E.
  - split_and!; [|done|done]. exists bs, pre. rewrite app_nil_r in E. by rewrite list_insert_id.
  - destruct (visit_step p s bs ls k pre x post R E) as (it & Ei & _ & (bs' & pre' & R') & Hsz & _).
    cbn [visit_items]. rewrite Ei. set (s1 := if del _ _ then _ else _) in *.
    destruct (IH pre' s1 bs' (<[k := pre' ++ post]> ls) R') as ((bs2 & pre2 & R2) & Hsz2 & Hrows).
    { apply list_lookup_insert_eq. by eapply lookup_lt_Some. }
    destruct (visit_items post s1) as [rows s2]. simpl in *. split_and!; [|congruence|by f_equal].
    exists bs2, pre2. by rewrite list_insert_insert_eq in R2.
Qed.

(** The whole scan, bucket by bucket and item by item, from the items [rest]
    of bucket [k] that are still to be visited, with [n] buckets after it. *)
Definition scan_ok (n : nat) (rest : list Z) : Prop := ∀ fuel pre st s bs ls k p,
  ready (curpartition st) s bs ls → at_bucket st s k → Z.of_nat k + 1 + Z.of_nat n = nbuckets st →
  ls !! k = Some (pre ++ rest) → chain (items s) p rest →
  let '(rows, s1) := visit_items rest s in
  let '(rows', s2, p2) := visit_buckets n (Z.of_nat k + 1) (curpartition st) s1 in
  (length rows + length rows' <= fuel)%nat →
  (seq_continue st p ≫= scan_rest fuel) s = (Ok (rows ++ rows'), with_held (delete p2) s2).

Lemma scan_ok_end : scan_ok 0 [].
Proof.
  intros fuel pre st s bs ls k p R A Hn E Hc. simpl in Hc. subst p. cbn [visit_items visit_buckets].
  intros _. destruct (seq_continue_end st s) as (st' & E1 & Hp'); [destruct A as (-> & _); lia|].
  rewrite (bind_ok _ _ _ _ _ E1). unfold scan_rest, dshash_seq_term. cbn [fst snd]. rewrite Hp'.
  destruct A as (_ & _ & _ & Hp & _). rewrite (proj2 (Z.leb_le _ _) Hp). simpl.
  unfold LWLockRelease. unfold mbind at 1, M_bind at 1. rewrite get_bind.
  by rewrite (rd_held _ _ _ _ R), lookup_singleton_eq.
Qed.

Lemma scan_ok_item n x rest : scan_ok n rest → scan_ok n (x :: rest).
Proof.
  intros IH fuel pre st s bs ls k p R A Hn E Hc.
  destruct (visit_step _ s bs ls k pre x rest R E) as (it & Ei & Ew & (bs' & pre' & R') & Hsz & Hfr & _).
  cbn [visit_items]. rewrite Ei. set (s1 := if del _ _ then _ else _) in *.
  set (st1 := SeqStatus (curbucket st) (nbuckets st) x (next it) (curpartition st) (exclusive st)).
  assert (Hc1 : chain (items s1) (next it) rest).
  { destruct Hc as (-> & _ & it' & Ei' & Hc). simplify_eq. by apply (chain_agree (items s)). }
  pose proof (λ f, IH f pre' st1 s1 bs' (<[k := pre' ++ rest]> ls) k (next it)) as H.
  destruct (visit_items rest s1) as [rows s2].
  change (curpartition st1) with (curpartition st) in H.
  destruct (visit_buckets n _ _ s2) as [[rows' s3] p3]. simpl length. intros Hf.
  destruct fuel as [|fuel]; [lia|].
  rewrite (bind_ok _ _ _ s s (seq_continue_item st s p it (chain_valid _ _ _ _ Hc) ltac:(by destruct Hc as (-> & _)))).
  unfold scan_rest. cbn [fst snd].
  assert (p = x) as -> by apply Hc.
  rewrite (bind_ok _ _ _ _ _ (get_item_ok s x it Ei)).
  change (dshash_delete_current _) with (delete_item x). rewrite (bind_ok _ _ _ _ _ Ew).
  fold st1. unfold mbind at 1, M_bind at 1. rewrite scan_loop_S. unfold dshash_seq_next.
  destruct A as (A1 & A2 & A3 & A4 & A5).
  rewrite (proj2 (Z.eqb_neq _ _)) by (simpl; lia). simpl pnextitem. rewrite H; [done|done| |done| |done|lia].
  - unfold at_bucket. simpl. by rewrite Hsz.
  - apply list_lookup_insert_eq. by eapply lookup_lt_Some.
Qed.

Lemma scan_ok_bucket n : (∀ rest, scan_ok n rest) → scan_ok (S n) [].
Proof.
  intros IH fuel pre st s bs ls k p R A Hn E Hc. simpl in Hc. subst p. cbn [visit_items visit_buckets].
  destruct (seq_continue_bucket st s bs ls k) as (st' & bs' & ls' & l & b & R' & A' & Hp & El & Hch & Ec);
    [done..|lia|].
  replace (Z.of_nat k + 1) with (Z.of_nat (S k)) by lia.
  set (q := PARTITION_FOR_BUCKET_INDEX _ _) in *. set (s' := entered _ _ _) in *.
  rewrite (bucket_items_ok q s' bs' ls' (S k) l R' El).
  pose proof (λ f, IH l f [] st' s' bs' ls' (S k) b) as H. rewrite Hp in H.
  destruct (visit_items l s') as [rows s1].
  destruct (visit_buckets n _ _ s1) as [[rows' s2] p2]. simpl. rewrite length_app. intros Hf.
  assert (Hn' : nbuckets st' = nbuckets st).
  { destruct A as (_ & -> & _). destruct A' as (_ & -> & _). f_equal.
    destruct (entered_ready q _ _ _ _ R) as (? & ? & _ & Hsz). exact Hsz. }
  transitivity ((seq_continue st' b ≫= scan_rest fuel) s').
  - unfold mbind, M_bind. by rewrite Ec.
  - apply H; [done|done|lia|done|done|lia].
Qed.

Lemma scan_ok_all n : ∀ rest, scan_ok n rest.
Proof.
  induction n as [|n IHn]; intros rest; (induction rest as [|x rest IHr]; [|by apply scan_ok_item]).
  - apply scan_ok_end.
  - by apply scan_ok_bucket.
Qed.

Lemma ensure_ok s bs ls : table s bs ls →
  ensure_valid_bucket_pointers s = (Ok (), with_table (size_log2 s) (buckets s) s).
Proof.
  intros T. unfold ensure_valid_bucket_pointers. rewrite get_bind.
  destruct (Z.eqb_spec (t_size_log2 s) (size_log2 s)) as [E|]; [|done].
  pose proof (proj2 (tbl_own _ _ _ T) E) as Eb. clear T. destruct s. simpl in *. by subst.
Qed.

Lemma table_synced s bs ls : table s bs ls → table (with_table (size_log2 s) (buckets s) s) bs ls.
Proof. intros []. by constructor. Qed.

Lemma num_buckets size : 7 <= size <= 30 → 128 <= NUM_BUCKETS size < 2 ^ 31.
Proof.
  intros H. unfold NUM_BUCKETS. rewrite Z.shiftl_1_l. split.
  - change 128 with (2 ^ 7). apply Z.pow_le_mono_r; lia.
  - apply Z.pow_lt_mono_r; lia.
Qed.

(** The state in which the scan begins, holding the lock of partition 0. *)
Definition begun (s : state) : state :=
  let s0 := with_held <[0 := lock_mode]> (others 0 s) in with_table (size_log2 s0) (buckets s0) s0.

Lemma begun_ready s bs ls : table s bs ls → held s = ∅ → ∃ bs' ls', ready 0 (begun s) bs' ls'.
Proof.
  intros T Hh. destruct (others_ok 0 s bs ls) as ((bs' & ls' & T') & Hh' & _); [done|by rewrite Hh, lookup_empty|].
  exists bs', ls'. split; [by apply table_synced, table_held|done|]. simpl. rewrite Hh', Hh. apply insert_empty.
Qed.

Lemma scan_runs s bs ls fuel :
  table s bs ls → held s = ∅ → (length (scan_spec s).1 < fuel)%nat →
  scan fuel excl del s = (Ok (scan_spec s).1, (scan_spec s).2).
Proof.
  intros T Hh. destruct (begun_ready s bs ls T Hh) as (bs' & ls' & R). pose proof (rd_table _ _ _ _ R) as T'.
  unfold scan_spec. cbv zeta. fold (begun s). pose proof (num_buckets _ (tbl_size _ _ _ T')) as Hnb.
  assert (Hl : (0 < length ls')%nat) by (rewrite (table_ls_length _ _ _ T'); lia).
  destruct (lookup_lt_is_Some_2 _ _ Hl) as [l El]. destruct (bucket_chain _ _ _ _ _ T' El) as (b & Eb & Hch).
  destruct (Z.to_nat (NUM_BUCKETS (size_log2 (begun s)))) as [|n] eqn:En; [lia|].
  cbn [visit_buckets]. change (PARTITION_FOR_BUCKET_INDEX 0 _) with (Z.shiftr 0 (NUM_SPLITS (t_size_log2 (begun s)))).
  rewrite Z.shiftr_0_l. change (entered 0 0 (begun s)) with (begun s).
  rewrite (bucket_items_ok 0 _ bs' ls' 0 l R El : bucket_items (begun s) 0 = l).
  set (st := SeqStatus 0 (wrap_s 32 (NUM_BUCKETS (size_log2 (begun s)))) 0 0 0 excl).
  pose proof (λ f, scan_ok_all n l f [] st (begun s) bs' ls' 0%nat b) as H. cbn [curpartition st] in H.
  destruct (visit_items l (begun s)) as [rows s1].
  change (Z.of_nat 0 + 1) with 1 in H. change (0 + 1) with 1.
  destruct (visit_buckets n 1 0 s1) as [[rows' s2] p2]. cbn [fst snd]. rewrite length_app. intros Hf.
  assert (Ew : wrap_s 32 (NUM_BUCKETS (size_log2 (begun s))) = NUM_BUCKETS (size_log2 (begun s))).
  { apply wrap_s_id; [lia|]. unfold in_s. change (2 ^ (32 - 1)) with (2 ^ 31). lia. }
  unfold scan. destruct fuel as [|fuel]; [lia|]. rewrite scan_loop_S.
  unfold dshash_seq_next. change (curpartition (dshash_seq_init excl) =? -1) with true. cbv iota.
  rewrite <- (H fuel); [|done| |unfold st; cbn [nbuckets]; rewrite Ew; lia|done|done|lia].
  2:{ unfold at_bucket, st. cbn [curbucket nbuckets curpartition exclusive]. rewrite Ew.
      split_and!; [done|done|lia|lia|done]. }
  assert (Ea : LWLockAcquire 0 (mode (dshash_seq_init excl)) s = (Ok (), with_held <[0 := lock_mode]> (others 0 s))).
  { unfold LWLockAcquire. by rewrite get_bind, Hh, lookup_empty. }
  assert (Ee : ensure_valid_bucket_pointers (with_held <[0 := lock_mode]> (others 0 s)) = (Ok (), begun s)).
  { destruct (others_ok 0 s bs ls) as ((bs2 & ls2 & T2) & _); [done|by rewrite Hh, lookup_empty|].
    by eapply ensure_ok, table_held. }
  unfold mbind at 1, M_bind at 1. rewrite (bind_ok _ _ _ _ _ Ea), (bind_ok _ _ _ _ _ Ee), get_bind.
  change (curbucket (dshash_seq_init excl)) with (Z.of_nat 0).
  by rewrite (bind_ok _ _ _ _ _ (table_read (begun s) bs' ls' 0 b T' (rd_size _ _ _ _ R) Eb)).
Qed.

(** *** What is returned *)

Definition pointers (rows : list (Z * K * V)) : list Z := fst ∘ fst <$> rows.

(** The items the caller keeps, of those in [l]. *)
Definition kept (l : list Z) (m : gmap Z (Z * K * V)) : gmap Z (Z * K * V) :=
  filter (λ xi, ¬ (xi.1 ∈ l ∧ del xi.2.1.2 xi.2.2 = true)) m.

Lemma kept_lookup l m x i : kept l m !! x = Some i ↔
  m !! x = Some i ∧ ¬ (x ∈ l ∧ del i.1.2 i.2 = true).
Proof. apply map_lookup_filter_Some. Qed.

Lemma kept_nil m : kept [] m = m.
Proof. apply map_filter_id. intros x i _ [?%not_elem_of_nil _]. done. Qed.

Lemma kept_kept l l' m : kept l' (kept l m) = kept (l ++ l') m.
Proof.
  apply map_eq. intros x. apply option_eq. intros i. rewrite !kept_lookup, elem_of_app. split.
  - intros [[H1 H2] H3]. split; [done|]. intros [[?|?] ?]; [by apply H2|by apply H3].
  - intros [H1 H2]. split; [split; [done|]|]; intros [? ?]; apply H2; (split; [by left|done]) || (split; [by right|done]).
Qed.

(** Each row is what the item held. *)
Definition rows_of (m : gmap Z (Z * K * V)) (rows : list (Z * K * V)) : Prop :=
  Forall (λ r, ∃ h, m !! r.1.1 = Some (h, r.1.2, r.2)) rows.

Lemma visit_items_infos p k post : ∀ pre s bs ls,
  ready p s bs ls → ls !! k = Some (pre ++ post) → NoDup post →
  infos (visit_items post s).2 = kept post (infos s) ∧ rows_of (infos s) (visit_items post s).1.
Proof.
  induction post as [|x post IH]; intros pre s bs ls R E Hnd; [split; [by rewrite kept_nil|constructor]|].
  apply list.NoDup_cons in Hnd as [Hx Hnd].
  destruct (visit_step p s bs ls k pre x post R E) as (it & Ei & _ & (bs' & pre' & R') & _ & _ & Hi).
  cbn [visit_items]. rewrite Ei. set (s1 := if del _ _ then _ else _) in *.
  destruct (IH pre' s1 bs' (<[k := pre' ++ post]> ls) R') as (Hk & Hr); [|done|].
  { apply list_lookup_insert_eq. by eapply lookup_lt_Some. }
  assert (H1 : infos s1 = kept [x] (infos s)).
  { rewrite Hi. apply map_eq. intros y. apply option_eq. intros i. rewrite kept_lookup, list_elem_of_singleton.
    pose proof (infos_some _ _ _ Ei) as Hix. destruct (del (key it) (body it)) eqn:Ed.
    - rewrite lookup_delete_Some. split; [intros [Hne Hy]; split; [done|by intros [-> _]]|]. intros [Hy Hn]. split; [|done].
      intros <-. rewrite Hix in Hy. simplify_eq. apply Hn. done.
    - split; [|by intros [? _]]. intros Hy. split; [done|]. intros [-> Hd]. rewrite Hix in Hy. simplify_eq/=.
      by rewrite Ed in Hd. }
  destruct (visit_items post s1) as [rows s2]. simpl in *. split.
  - by rewrite Hk, H1, kept_kept.
  - constructor; [exists (hash it); by apply infos_some|].
    eapply Forall_impl; [done|]. intros r [h Hr']. exists h. rewrite H1 in Hr'. by apply kept_lookup in Hr' as [? _].
Qed.

Lemma filter_pointer rows x :
  NoDup (pointers rows) →
  (∀ r, r ∈ rows → r.1.1 = x → filter (λ r, r.1.1 = x) rows = [r]) ∧
  (x ∉ pointers rows → filter (λ r, r.1.1 = x) rows = []).
Proof.
  induction rows as [|r rows IH]; intros Hnd; [split; [by intros ? ?%not_elem_of_nil|done]|].
  cbn in Hnd. apply list.NoDup_cons in Hnd as [Hr Hnd]. destruct (IH Hnd) as [IH1 IH2]. split.
  - intros r' [->|Hr']%elem_of_cons Hx.
    + rewrite filter_cons_True by done. f_equal. apply IH2. by rewrite <- Hx.
    + rewrite filter_cons_False; [by apply IH1|]. intros E. apply Hr. simpl. rewrite E, <- Hx.
      apply list_elem_of_fmap. by exists r'.
  - intros Hx. cbn in Hx. apply not_elem_of_cons in Hx as [Hx Hxs].
    rewrite filter_cons_False by done. by apply IH2.
Qed.

(** One bucket of the scan. *)
Lemma visit_bucket p s bs ls k :
  ready p s bs ls → (k < length ls)%nat →
  ∃ l, ls !! k = Some l ∧ bucket_items s (Z.of_nat k) = l ∧ NoDup l ∧
    let '(rows, s1) := visit_items l s in
    pointers rows = l ∧ rows_of (infos s) rows ∧ infos s1 = kept l (infos s) ∧
    size_log2 s1 = size_log2 s ∧ ∃ bs' l', ready p s1 bs' (<[k := l']> ls).
Proof.
  intros R Hk. destruct (lookup_lt_is_Some_2 _ _ Hk) as [l El]. exists l.
  assert (Hnd : NoDup l) by (eapply concat_nodup; [eapply tbl_nodup, rd_table; done|done]).
  destruct (visit_items_ready p k l [] s bs ls R El) as (R' & Hsz & Hp).
  destruct (visit_items_infos p k l [] s bs ls R El Hnd) as [Hi Hr].
  split_and!; [done|by eapply bucket_items_ok|done|]. by destruct (visit_items l s) as [rows s1].
Qed.

(** The bucket of an item. *)
Lemma item_bucket s bs ls x i : table s bs ls → infos s !! x = Some i →
  ∃ k l, BUCKET_INDEX_FOR_HASH_AND_SIZE i.1.1 (size_log2 s) = Z.of_nat k ∧ ls !! k = Some l ∧ x ∈ l.
Proof.
  intros T Hi. destruct (proj1 (elem_of_concat ls x)) as (k & l & El & Hx).
  { apply (tbl_dom _ _ _ T). by eexists. }
  exists k, l. split_and!; [|done|done]. by eapply (tbl_hash _ _ _ T).
Qed.

Section Once.
Context (x : Z) (i : Z * K * V).
Context (others_keep : ∀ j s bs ls, table s bs ls →
  infos s !! x = Some i → infos (others j s) !! x = Some i).
Context (not_deleted : del i.1.2 i.2 = false).

Lemma entered_keeps q p s bs ls :
  table s bs ls → infos s !! x = Some i → infos (entered q p s) !! x = Some i.
Proof. intros T H. unfold entered. destruct (_ =? _); [done|]. by apply (others_keep q _ _ _ T) in H. Qed.

Lemma visit_once n : ∀ k p s bs ls,
  ready p s bs ls → Z.of_nat k + Z.of_nat n = NUM_BUCKETS (size_log2 s) → infos s !! x = Some i →
  filter (λ r, r.1.1 = x) (visit_buckets n (Z.of_nat k) p s).1.1 =
  if decide (Z.of_nat k <= BUCKET_INDEX_FOR_HASH_AND_SIZE i.1.1 (size_log2 s)) then [(x, i.1.2, i.2)] else [].
Proof.
  induction n as [|n IH]; intros k p s bs ls R Hn Hi.
  - destruct (item_bucket s bs ls x i (rd_table _ _ _ _ R) Hi) as (k' & l & -> & El & _).
    apply lookup_lt_Some in El. rewrite (table_ls_length _ _ _ (rd_table _ _ _ _ R)) in El.
    rewrite decide_False by lia. done.
  - cbn [visit_buckets]. set (q := PARTITION_FOR_BUCKET_INDEX _ _). set (s' := entered q p s).
    destruct (entered_ready q p s bs ls R) as (bs' & ls' & R' & Hsz). fold s' in R', Hsz.
    pose proof (entered_keeps q p s bs ls (rd_table _ _ _ _ R) Hi) as Hi'. fold s' in Hi'.
    destruct (visit_bucket q s' bs' ls' k R') as (l & El & Eb & Hnd & Hv).
    { rewrite (table_ls_length _ _ _ (rd_table _ _ _ _ R')), Hsz. lia. }
    rewrite Eb. destruct (visit_items l s') as [rows s1]. destruct Hv as (Hp & Hr & Hi1 & Hsz1 & bs2 & l2 & R2).
    assert (Hix : infos s1 !! x = Some i).
    { rewrite Hi1. apply kept_lookup. split; [done|]. rewrite not_deleted. by intros [_ ?]. }
    specialize (IH (S k) q s1 bs2 _ R2 ltac:(rewrite Hsz1, Hsz; lia) Hix).
    replace (Z.of_nat (S k)) with (Z.of_nat k + 1) in IH by lia. rewrite Hsz1, Hsz in IH.
    destruct (visit_buckets n _ _ s1) as [[rows' s2] p2]. cbn [fst snd] in *. rewrite list.filter_app, IH.
    destruct (item_bucket s' bs' ls' x i (rd_table _ _ _ _ R') Hi') as (k' & l' & Ek & El' & Hx).
    rewrite Hsz in Ek. rewrite Ek. rewrite <- Hp in Hnd. destruct (filter_pointer rows x Hnd) as [F1 F2].
    destruct (decide (k' = k)) as [->|Hk].
    + assert (l' = l) as -> by congruence. rewrite <- Hp in Hx. apply list_elem_of_fmap in Hx as (r & -> & Hin).
      rewrite (F1 r Hin eq_refl). clear IH. case_decide; [lia|]. case_decide; [|lia].
      apply (proj1 (Forall_forall _ _) Hr) in Hin as [h Hh]. simpl in Hi'. rewrite Hi' in Hh. injection Hh as ->.
      by destruct r as [[? ?] ?].
    + rewrite F2.
      * clear IH. simpl. case_decide; case_decide; (done || lia).
      * rewrite Hp. intros Hxl. apply Hk. apply (concat_disjoint ls' k' k l' l x); [by eapply tbl_nodup, rd_table|done..].
Qed.

(** C30. A scan holds one lock at a time while the other backends go on
    inserting and deleting.  It ends, and an entry that they leave in the table
    and the caller does not delete is returned exactly once. *)
Theorem scan_returns_once s bs ls :
  table s bs ls → held s = ∅ → infos s !! x = Some i →
  ∃ rows s', (∀ fuel, (length rows < fuel)%nat → scan fuel excl del s = (Ok rows, s')) ∧
    filter (λ r, r.1.1 = x) rows = [(x, i.1.2, i.2)].
Proof.
  intros T Hh Hi. exists (scan_spec s).1, (scan_spec s).2. split.
  { intros fuel Hf. by eapply scan_runs. }
  destruct (begun_ready s bs ls T Hh) as (bs' & ls' & R). pose proof (rd_table _ _ _ _ R) as T'.
  assert (Hi' : infos (begun s) !! x = Some i) by by apply (others_keep 0 _ _ _ T) in Hi.
  pose proof (num_buckets _ (tbl_size _ _ _ T')) as Hnb.
  pose proof (visit_once (Z.to_nat (NUM_BUCKETS (size_log2 (begun s)))) 0 0 (begun s) bs' ls' R
    ltac:(lia) Hi') as H.
  destruct (item_bucket _ _ _ x i T' Hi') as (k & l & Ek & _). rewrite decide_True in H by lia.
  unfold scan_spec. cbv zeta. fold (begun s). change (Z.of_nat 0) with 0 in H.
  by destruct (visit_buckets _ 0 0 (begun s)) as [[rows s2] p2].
Qed.
End Once.

(** Without other backends. *)
Lemma visit_quiet (quiet : ∀ j s, others j s = s) n : ∀ k p s bs ls,
  ready p s bs ls → Z.of_nat k + Z.of_nat n = NUM_BUCKETS (size_log2 s) →
  let '(rows, s2, p2) := visit_buckets n (Z.of_nat k) p s in
  pointers rows = concat (drop k ls) ∧ rows_of (infos s) rows ∧
  infos s2 = kept (concat (drop k ls)) (infos s) ∧ ∃ bs' ls', ready p2 s2 bs' ls'.
Proof.
  induction n as [|n IH]; intros k p s bs ls R Hn.
  - cbn [visit_buckets]. rewrite drop_ge, kept_nil.
    + split_and!; [done|constructor|done|by exists bs, ls].
    + rewrite (table_ls_length _ _ _ (rd_table _ _ _ _ R)). lia.
  - cbn [visit_buckets]. set (q := PARTITION_FOR_BUCKET_INDEX _ _). set (s' := entered q p s).
    assert (R' : ready q s' bs ls ∧ infos s' = infos s ∧ size_log2 s' = size_log2 s).
    { destruct (entered_ready q p s bs ls R) as (bs' & ls' & R' & Hsz). fold s' in R', Hsz.
      destruct R' as [_ Hs' Hh']. destruct R as [T Hs Hh]. unfold s', entered in *.
      destruct (Z.eqb_spec p q) as [->|]; [done|]. rewrite quiet in *. split; [|done].
      split; [by do 2 apply table_held|done|done]. }
    destruct R' as (R' & Hi & Hsz). destruct (visit_bucket q s' bs ls k R') as (l & El & Eb & Hnd & Hv).
    { rewrite (table_ls_length _ _ _ (rd_table _ _ _ _ R')), Hsz. lia. }
    rewrite Eb. destruct (visit_items l s') as [rows s1]. destruct Hv as (Hp & Hr & Hi1 & Hsz1 & bs2 & l2 & R2).
    pose proof (IH (S k) q s1 bs2 _ R2 ltac:(rewrite Hsz1, Hsz; lia)) as H.
    replace (Z.of_nat (S k)) with (Z.of_nat k + 1) in H by lia.
    destruct (visit_buckets n _ _ s1) as [[rows' s2] p2]. destruct H as (Hp' & Hr' & Hi2 & R3).
    rewrite drop_insert_lt in Hp', Hi2 by lia. rewrite (drop_S _ _ _ El). cbn [concat]. rewrite Hi in *.
    split_and!; [| | |done].
    + unfold pointers in *. rewrite fmap_app. by f_equal.
    + apply Forall_app. split; [done|]. eapply Forall_impl; [done|]. intros r [h Hh]. exists h.
      rewrite Hi1 in Hh. by apply kept_lookup in Hh as [? _].
    + by rewrite Hi2, Hi1, kept_kept.
Qed.

(** Without other backends, a scan returns the entries of the whole table,
    each once; those the caller deletes are gone afterwards, the others are
    still there, the table is well-formed and no lock is held. *)
Theorem scan_deletes s bs ls :
  (∀ j s, others j s = s) → table s bs ls → held s = ∅ →
  ∃ rows s' bs' ls', (∀ fuel, (length rows < fuel)%nat → scan fuel excl del s = (Ok rows, s')) ∧
    pointers rows = concat ls ∧ rows_of (infos s) rows ∧
    table s' bs' ls' ∧ held s' = ∅ ∧
    infos s' = filter (λ xi, del xi.2.1.2 xi.2.2 = false) (infos s).
Proof.
  intros quiet T Hh. exists (scan_spec s).1, (scan_spec s).2.
  assert (R : ready 0 (begun s) bs ls).
  { split; [|done|]; unfold begun; rewrite quiet; [by apply table_synced, table_held|].
    simpl. rewrite Hh. apply insert_empty. }
  assert (Hi : infos (begun s) = infos s) by (unfold begun; by rewrite quiet).
  pose proof (num_buckets _ (tbl_size _ _ _ (rd_table _ _ _ _ R))) as Hnb.
  pose proof (visit_quiet quiet (Z.to_nat (NUM_BUCKETS (size_log2 (begun s)))) 0 0 (begun s) bs ls R
    ltac:(lia)) as H.
  assert (Hrun : ∀ fuel, (length (scan_spec s).1 < fuel)%nat →
    scan fuel excl del s = (Ok (scan_spec s).1, (scan_spec s).2)) by (intros; by eapply scan_runs).
  unfold scan_spec in *. cbv zeta in *. fold (begun s) in *. change (Z.of_nat 0) with 0 in H.
  destruct (visit_buckets _ 0 0 (begun s)) as [[rows s2] p2]. cbn [fst snd] in *.
  destruct H as (Hp & Hr & Hi2 & bs' & ls' & [T2 _ Hh2]). rewrite drop_0 in Hp, Hi2. rewrite Hi in Hr, Hi2.
  exists bs', ls'. split_and!; [done|done|done|by apply table_held| |].
  - simpl. by rewrite Hh2, delete_singleton_eq.
  - change (infos (with_held _ s2)) with (infos s2). rewrite Hi2. apply map_filter_ext.
    intros x i Hx. assert (x ∈ concat ls) by (apply (tbl_dom _ _ _ T); by eexists).
    destruct (del _ _); split.
    + intros Hn. by destruct Hn.
    + done.
    + done.
    + by intros _ [_ ?].
Qed.
End Scan.

(** ** Growth *)

Context (dsa_allocate_fresh : ∀ X, dsa_allocate X ∉ X).

(** *** The locks *)

Definition acquired (l : list Z) (s : state) : state :=
  foldl (λ s i, with_held <[i := LW_EXCLUSIVE]> (others i s)) s l.

Lemma acquire_ok i s bs ls : table s bs ls → held s !! i = None →
  let s' := with_held <[i := LW_EXCLUSIVE]> (others i s) in
  LWLockAcquire i LW_EXCLUSIVE s = (Ok (), s') ∧ (∃ bs' ls', table s' bs' ls') ∧
  held s' = <[i := LW_EXCLUSIVE]> (held s) ∧
  t_size_log2 s' = t_size_log2 s ∧ t_buckets s' = t_buckets s ∧
  (held s ≠ ∅ → size_log2 s' = size_log2 s).
Proof.
  intros T Hi s'. destruct (others_ok i s bs ls T Hi) as ((bs' & ls' & T') & Hh & Ht & Htb & Hsz).
  split_and!; [|by exists bs', ls'; apply table_held|by simpl; rewrite Hh|done|done|done].
  unfold LWLockAcquire. by rewrite get_bind, Hi.
Qed.

Lemma acquire_all_ok new l : ∀ s bs ls,
  table s bs ls → NoDup l → (∀ i, i ∈ l → i ≠ 0 ∧ held s !! i = None) → held s ≠ ∅ →
  acquire_all new l s = (Ok true, acquired l s) ∧ (∃ bs' ls', table (acquired l s) bs' ls') ∧
  dom (held (acquired l s)) = dom (held s) ∪ list_to_set l ∧
  t_size_log2 (acquired l s) = t_size_log2 s ∧ size_log2 (acquired l s) = size_log2 s.
Proof.
  induction l as [|i l IH]; intros s bs ls T Hnd Hl Hne.
  - split_and!; [done|by exists bs, ls| |done|done]. simpl. by rewrite union_empty_r_L.
  - apply list.NoDup_cons in Hnd as [Hi Hnd]. destruct (Hl i ltac:(by left)) as [Hi0 Hih].
    destruct (acquire_ok i s bs ls T Hih) as (Ea & (bs' & ls' & T') & Hh & Ht & _ & Hsz).
    set (s1 := with_held _ _) in *. change (acquired (i :: l) s) with (acquired l s1).
    cbn [acquire_all]. rewrite (bind_ok _ _ _ _ _ Ea), get_bind.
    rewrite (proj2 (Z.eqb_neq i 0) Hi0). cbn [andb].
    destruct (IH s1 bs' ls' T' Hnd) as (E1 & T1 & Hd & Ht1 & Hsz1).
    { intros j Hj. destruct (Hl j ltac:(by right)) as [? ?]. split; [done|].
      rewrite Hh, lookup_insert_ne by (by intros ->). done. }
    { rewrite Hh. apply insert_non_empty. }
    split_and!; [done|done| |congruence|rewrite Hsz1; by apply Hsz].
    rewrite Hd, Hh, dom_insert_L. apply list_to_set_move.
Qed.

Lemma release_all l : ∀ s, NoDup l → dom (held s) = list_to_set l →
  for_each LWLockRelease l s = (Ok (), with_held (λ _, ∅) s).
Proof.
  induction l as [|i l IH]; intros s Hnd Hd.
  - simpl in *. apply dom_empty_inv_L in Hd. unfold with_held. rewrite <- Hd. by destruct s.
  - apply list.NoDup_cons in Hnd as [Hi Hnd].
    assert (is_Some (held s !! i)) as [m Hm] by (apply elem_of_dom; rewrite Hd; apply elem_of_list_to_set; by left).
    assert (Er : LWLockRelease i s = (Ok (), with_held (delete i) s)).
    { unfold LWLockRelease. by rewrite get_bind, Hm. }
    cbn [for_each]. rewrite (bind_ok _ _ _ _ _ Er), IH; [done|done|].
    simpl held. rewrite dom_delete_L, Hd. by apply list_to_set_uncons.
Qed.

(** *** The items *)

(** Some items have been moved to the array [N] of [2 ^ new] buckets [nb] with
    the chains [ms]; the others are as in [s0]. *)
Record moved (s0 : state) (N new : Z) (nb : list Z) (ms : list (list Z)) (s : state) : Prop := Moved {
  mv_arrays : arrays s = <[N := nb]> (arrays s0);
  mv_length : length nb = Z.to_nat (NUM_BUCKETS new);
  mv_chains : Forall2 (chain (items s)) nb ms;
  mv_frame : ∀ y, y ∉ concat ms → items s !! y = items s0 !! y;
  mv_infos : infos s = infos s0;
  mv_hash : ∀ j l x it, ms !! j = Some l → x ∈ l → infos s !! x = Some it →
    BUCKET_INDEX_FOR_HASH_AND_SIZE it.1.1 new = Z.of_nat j;
  mv_control : same_control s0 s
}.

Lemma concat_insert_cons {A} (ls : list (list A)) k l x :
  ls !! k = Some l → concat (<[k := x :: l]> ls) ≡ₚ x :: concat ls.
Proof.
  intros E. rewrite (concat_delete (<[k := x :: l]> ls) k [] x l).
  - rewrite list_insert_insert_eq, list_insert_id by done. done.
  - apply list_lookup_insert_eq. by eapply lookup_lt_Some.
Qed.

Lemma bucket_index_range h new : in_u 32 h → 7 <= new <= 30 →
  0 <= BUCKET_INDEX_FOR_HASH_AND_SIZE h new < NUM_BUCKETS new.
Proof.
  intros [H1 H2] Hn. unfold BUCKET_INDEX_FOR_HASH_AND_SIZE, NUM_BUCKETS.
  rewrite Z.shiftr_div_pow2, Z.shiftl_1_l by lia. split; [apply Z.div_pos; lia|].
  apply Z.div_lt_upper_bound; [lia|]. rewrite <- Z.pow_add_r by lia.
  replace (32 - new + new) with 32 by lia. done.
Qed.

Lemma move_item s0 N new nb ms s x it :
  moved s0 N new nb ms s → 7 <= new <= 30 → items s !! x = Some it → in_u 32 (hash it) →
  x ≠ InvalidDsaPointer → x ∉ concat ms →
  ∃ s' nb' ms', insert_item_into_bucket x
      (Bucket N (BUCKET_INDEX_FOR_HASH_AND_SIZE (hash it) new)) s = (Ok (), s') ∧
    moved s0 N new nb' ms' s' ∧ concat ms' ≡ₚ x :: concat ms ∧
    (∀ y, y ≠ x → items s' !! y = items s !! y).
Proof.
  intros Mv Hn Ei Hh Hx0 Hx. pose proof (bucket_index_range _ new Hh Hn) as Hr.
  destruct (Z_of_nat_complete _ (proj1 Hr)) as [k Ek]. rewrite Ek in Hr |- *.
  assert (Hk : (k < length nb)%nat) by (rewrite (mv_length _ _ _ _ _ _ Mv); lia).
  destruct (lookup_lt_is_Some_2 _ _ Hk) as [p Ep].
  destruct (Forall2_lookup_l _ _ _ _ _ (mv_chains _ _ _ _ _ _ Mv) Ep) as (l & El & Hc).
  assert (Hxl : ∀ j l', ms !! j = Some l' → x ∉ l').
  { intros j l' El' Hin. apply Hx, elem_of_concat. eauto. }
  destruct (insert_item_ok (Bucket N (Z.of_nat k)) x it l p s) as (s' & E & _ & Hch & Hinf & Ha & Hfr & Hct);
    [|done..|by eapply Hxl|done|].
  { apply (read_bucket s N _ _ nb); [|lia|by rewrite Nat2Z.id].
    by rewrite (mv_arrays _ _ _ _ _ _ Mv), lookup_insert_eq. }
  exists s', (<[k := x]> nb), (<[k := x :: l]> ms). split_and!; [done| |by apply concat_insert_cons|].
  2:{ intros y Hy. by apply Hfr. }
  split.
  - rewrite Ha, (mv_arrays _ _ _ _ _ _ Mv). simpl. rewrite Nat2Z.id. apply alter_insert_eq.
  - rewrite length_insert. apply Mv.
  - apply Forall2_same_length_lookup. split.
    { rewrite !length_insert. by eapply Forall2_length, Mv. }
    intros j b lj Hb Hlj. destruct (decide (j = k)) as [->|Hj].
    + rewrite list_lookup_insert_eq in Hb by done. rewrite list_lookup_insert_eq in Hlj by by eapply lookup_lt_Some.
      by simplify_eq.
    + rewrite list_lookup_insert_ne in Hb by done. rewrite list_lookup_insert_ne in Hlj by done.
      apply (chain_agree (items s)); [by eapply Forall2_lookup_lr, Hlj; [apply Mv|]|].
      intros y Hy. apply Hfr; [|done]. intros ->. by eapply Hxl.
  - intros y. rewrite concat_insert_cons by done. intros [Hy Hys]%not_elem_of_cons.
    rewrite Hfr by done. by apply Mv.
  - rewrite Hinf. apply Mv.
  - intros j lj y ity Hlj Hy. rewrite Hinf. intros Hiy.
    apply list_lookup_insert_Some in Hlj as [(-> & <- & _)|[_ Hlj]]; [|by eapply Mv].
    apply elem_of_cons in Hy as [->|Hy]; [|by eapply Mv].
    rewrite (infos_some _ _ _ Ei) in Hiy. by simplify_eq.
  - destruct (mv_control _ _ _ _ _ _ Mv) as (? & ? & ? & ? & ? & ?), Hct as (? & ? & ? & ? & ? & ?).
    unfold same_control. split_and!; congruence.
Qed.

Lemma move_chain_ok s0 N new l : ∀ fuel p nb ms s,
  moved s0 N new nb ms s → 7 <= new <= 30 → chain (items s) p l → NoDup l →
  (∀ x, x ∈ l → x ∉ concat ms ∧ ∃ it, infos s0 !! x = Some it ∧ in_u 32 it.1.1) → (length l < fuel)%nat →
  ∃ s' nb' ms', move_chain fuel N new p s = (Ok (), s') ∧ moved s0 N new nb' ms' s' ∧
    concat ms' ≡ₚ l ++ concat ms.
Proof.
  induction l as [|x l IH]; intros [|fuel] p nb ms s Mv Hn Hc Hnd Hl Hf; [simpl in *; lia..| |simpl in *; lia|].
  - simpl in Hc. subst p. by exists s, nb, ms.
  - pose proof (chain_valid _ _ _ _ Hc) as Hv. destruct Hc as (-> & Hx0 & it & Ei & Hc).
    apply list.NoDup_cons in Hnd as [Hxl Hnd]. destruct (Hl x ltac:(by left)) as (Hx & i & Hi & Hh).
    assert (i = info it) as ->.
    { rewrite <- (mv_infos _ _ _ _ _ _ Mv), (infos_some _ _ _ Ei) in Hi. by injection Hi. }
    destruct (move_item s0 N new nb ms s x it) as (s1 & nb1 & ms1 & E1 & Mv1 & Hp1 & Hfr); [done..|].
    cbn [move_chain]. rewrite Hv, (bind_ok _ _ _ _ _ (get_item_ok _ _ _ Ei)), (bind_ok _ _ _ _ _ E1).
    destruct (IH fuel (next it) nb1 ms1 s1) as (s' & nb' & ms' & E' & Mv' & Hp'); [done..| |done| |simpl in *; lia|].
    + apply (chain_agree (items s)); [done|]. intros y Hy. apply Hfr. by intros ->.
    + intros y Hy. rewrite Hp1. destruct (Hl y ltac:(by right)) as [? ?].
      split; [|done]. apply not_elem_of_cons. split; [by intros ->|done].
    + exists s', nb', ms'. split_and!; [done..|]. rewrite Hp', Hp1. cbn [app]. symmetry. apply Permutation_middle.
Qed.

(** One turn of the loop over the old buckets. *)
Definition move_bucket (old N new i : Z) : M state unit :=
  p ← read_slot (Bucket old i); s ← get_st; move_chain (chain_fuel s) N new p.

Lemma move_all_ok s0 bs ls N new n : ∀ k nb ms s,
  table s0 bs ls → N ∉ used s0 → moved s0 N new nb ms s → 7 <= new <= 30 →
  (k + n)%nat = length bs → concat ms ≡ₚ concat (take k ls) →
  ∃ s' nb' ms', for_each (move_bucket (buckets s0) N new) (seqZ (Z.of_nat k) (Z.of_nat n)) s = (Ok (), s') ∧
    moved s0 N new nb' ms' s' ∧ concat ms' ≡ₚ concat ls.
Proof.
  induction n as [|n IH]; intros k nb ms s T HN Mv Hn Hk Hp.
  - exists s, nb, ms. split_and!; [done|done|]. rewrite Hp, take_ge; [done|].
    rewrite <- (Forall2_length _ _ _ (tbl_chains _ _ _ T)). lia.
  - rewrite seqZ_cons by lia. replace (Z.pred (Z.of_nat (S n))) with (Z.of_nat n) by lia.
    replace (Z.succ (Z.of_nat k)) with (Z.of_nat (S k)) by lia.
    destruct (lookup_lt_is_Some_2 bs k ltac:(lia)) as [p Ep].
    destruct (Forall2_lookup_l _ _ _ _ _ (tbl_chains _ _ _ T) Ep) as (l & El & Hc).
    pose proof (tbl_nodup _ _ _ T) as Hnd.
    assert (Hnot : ∀ x, x ∈ l → x ∉ concat ms).
    { intros x Hx. rewrite Hp. intros (j & l' & El' & Hx')%elem_of_concat.
      apply lookup_take_Some in El' as [El' Hj].
      assert (j = k) by (eapply concat_disjoint; [exact Hnd|exact El'|exact El|done|done]). lia. }
    assert (Er : read_slot (Bucket (buckets s0) (Z.of_nat k)) s = (Ok p, s)).
    { apply (read_bucket s _ _ _ bs); [|lia|by rewrite Nat2Z.id].
      rewrite (mv_arrays _ _ _ _ _ _ Mv), lookup_insert_ne; [apply T|]. intros ->. apply HN.
      unfold used. apply elem_of_union_l, elem_of_union_r, elem_of_dom. rewrite (tbl_array _ _ _ T). by eexists. }
    assert (Hc' : chain (items s) p l).
    { apply (chain_agree (items s0)); [done|]. intros x Hx. by apply Mv, Hnot. }
    destruct (move_chain_ok s0 N new l (chain_fuel s) p nb ms s) as (s1 & nb1 & ms1 & E1 & Mv1 & Hp1); [done..| | | |].
    { by eapply concat_nodup. }
    { intros x Hx. split; [by apply Hnot|]. destruct (in_chain_some _ _ _ _ _ x T El Hx) as [it Hit].
      exists (info it). split; [by apply infos_some|]. eapply (tbl_hash _ _ _ T); [done|done|by apply infos_some]. }
    { unfold chain_fuel. apply Nat.lt_succ_r. eapply chain_length; [done|by eapply concat_nodup]. }
    cbn [for_each]. unfold move_bucket at 1.
    assert (Em : move_bucket (buckets s0) N new (Z.of_nat k) s = (Ok (), s1)).
    { unfold move_bucket. by rewrite (bind_ok _ _ _ _ _ Er), get_bind. }
    fold (move_bucket (buckets s0) N new (Z.of_nat k)). rewrite (bind_ok _ _ _ _ _ Em).
    apply (IH (S k) nb1 ms1 s1); [done..|lia|].
    rewrite Hp1, Hp, (take_S_r _ _ _ El), concat_app. cbn [concat]. rewrite app_nil_r. apply Permutation_app_comm.
Qed.

(** The grown table is well-formed. *)
Lemma moved_table s0 bs ls N new nb ms s :
  table s0 bs ls → N ∉ used s0 → moved s0 N new nb ms s → new = size_log2 s0 + 1 → new <= 30 →
  t_size_log2 s0 = size_log2 s0 → concat ms ≡ₚ concat ls →
  table (with_arrays (delete (buckets s0)) (with_table (t_size_log2 s) N (with_control new N s))) nb ms.
Proof.
  intros T HN Mv Hn H30 Hs Hp. pose proof (tbl_size _ _ _ T).
  destruct (mv_control _ _ _ _ _ _ Mv) as (C1 & C2 & C3 & C4 & C5 & C6).
  assert (Hne : buckets s0 ≠ N).
  { intros E. apply HN. rewrite <- E. unfold used. apply elem_of_union_l, elem_of_union_r, elem_of_dom.
    rewrite (tbl_array _ _ _ T). by eexists. }
  set (s' := with_arrays _ _). assert (Hi : infos s' = infos s0) by apply (mv_infos _ _ _ _ _ _ Mv).
  apply Table; rewrite ?Hi.
  - simpl. lia.
  - simpl. rewrite lookup_delete_ne by done. by rewrite (mv_arrays _ _ _ _ _ _ Mv), lookup_insert_eq.
  - apply Mv.
  - apply Mv.
  - rewrite Hp. apply T.
  - intros x. rewrite Hp. apply T.
  - intros j l x it El Hx Hix. split.
    + assert (Hx' : x ∈ concat ls) by (rewrite <- Hp; apply elem_of_concat; eauto).
      apply elem_of_concat in Hx' as (j' & l' & El' & Hx'). by eapply (tbl_hash _ _ _ T).
    + eapply Mv; [done|done|]. by rewrite (mv_infos _ _ _ _ _ _ Mv).
  - intros q Hq. simpl. rewrite C3. by apply T.
  - apply T.
  - simpl. lia.
Qed.

Lemma concat_replicate_nil {A} n : concat (replicate n (@nil A)) = [].
Proof. by induction n. Qed.

Lemma moved_start s0 N new :
  moved s0 N new (replicate (Z.to_nat (NUM_BUCKETS new)) InvalidDsaPointer)
    (replicate (Z.to_nat (NUM_BUCKETS new)) [])
    (with_arrays <[N := replicate (Z.to_nat (NUM_BUCKETS new)) InvalidDsaPointer]> s0).
Proof.
  split; [done|by rewrite length_replicate| |done|done| |done].
  - apply Forall2_same_length_lookup. rewrite !length_replicate. split; [done|].
    by intros j p l [-> _]%lookup_replicate [-> _]%lookup_replicate.
  - by intros j l x it [-> _]%lookup_replicate ?%not_elem_of_nil.
Qed.

(** Growing with all the locks held. *)
Lemma resize_locked s bs ls new :
  table s bs ls → t_size_log2 s = size_log2 s → new = size_log2 s + 1 → new <= 30 →
  let N := dsa_allocate (used s) in
  ∃ s1 nb ms,
    for_each (move_bucket (t_buckets s) N new) (seqZ 0 (NUM_BUCKETS (size_log2 s)))
      (with_arrays <[N := replicate (Z.to_nat (NUM_BUCKETS new)) InvalidDsaPointer]> s) = (Ok (), s1) ∧
    table (with_arrays (delete (buckets s)) (with_table (t_size_log2 s1) N (with_control new N s1))) nb ms ∧
    infos s1 = infos s ∧ held s1 = held s.
Proof.
  intros T Hs Hn H30 N. pose proof (dsa_allocate_fresh (used s)) as HN. fold N in HN.
  pose proof (tbl_size _ _ _ T) as Hsz. pose proof (num_buckets _ Hsz) as Hnb.
  destruct (move_all_ok s bs ls N new (length bs) 0 _ _ _ T HN (moved_start s N new)) as (s1 & nb & ms & E & Mv & Hp);
    [lia|done|by rewrite concat_replicate_nil|].
  exists s1, nb, ms. rewrite (proj2 (tbl_own _ _ _ T) Hs).
  rewrite (tbl_length _ _ _ T), Z2Nat.id in E by lia.
  split_and!; [done|by eapply moved_table|apply Mv|apply (mv_control _ _ _ _ _ _ Mv)].
Qed.

(** C31. A resize asked for by a backend that saw the table at half the size
    leaves the table with at least that size and exactly the entries it had
    when the locks were granted, in the buckets of their hashes, whatever the
    other backends did until then; all locks are released. *)
Theorem resize_keeps_entries s bs ls new :
  table s bs ls → held s = ∅ → new = t_size_log2 s + 1 → new <= 30 →
  ∃ s' bs' ls', resize new s = (Ok (), s') ∧ table s' bs' ls' ∧ held s' = ∅ ∧ new <= size_log2 s' ∧
    infos s' = infos (if size_log2 (others 0 s) <? new then acquired all_partitions s else others 0 s).
Proof.
  intros T Hh Hn H30. destruct (acquire_ok 0 s bs ls T) as (Ea & (bs0 & ls0 & T0) & Hh0 & Ht0 & _ & _);
    [by rewrite Hh, lookup_empty|].
  set (s0 := with_held _ _) in *. unfold resize.
  assert (Eall : all_partitions = 0 :: seqZ 1 127) by done. rewrite Eall. cbn [acquire_all].
  destruct (Z.ltb_spec (size_log2 (others 0 s)) new) as [Hlt|Hge].
  - destruct (acquire_all_ok new (seqZ 1 127) s0 bs0 ls0 T0) as (Eq & (bs1 & ls1 & T1) & Hd & Ht1 & Hsz1).
    { apply NoDup_seqZ. }
    { intros i Hi%elem_of_seqZ. split; [lia|]. rewrite Hh0, Hh, lookup_insert_ne, lookup_empty by lia. done. }
    { rewrite Hh0. apply insert_non_empty. }
    change (acquired (0 :: seqZ 1 127) s) with (acquired (seqZ 1 127) s0). set (s1 := acquired _ s0) in *.
    change (size_log2 s0) with (size_log2 (others 0 s)) in Hsz1.
    assert (Hsync : size_log2 s1 = t_size_log2 s1) by (pose proof (proj1 (tbl_own _ _ _ T1)); lia).
    destruct (resize_locked s1 bs1 ls1 new T1) as (s2 & nb & ms & Em & T2 & Hi2 & Hh2); [lia..|].
    eexists _, nb, ms. split; [|split; [apply (table_held (λ _, ∅)), T2|split; [done|split; [simpl; lia|exact Hi2]]]].
    rewrite (bind_ok _ _ true s s1).
    2:{ rewrite (bind_ok _ _ _ _ _ Ea), get_bind. rewrite (proj2 (Z.leb_gt _ _)) by (simpl; lia). exact Eq. }
    cbn [when]. rewrite get_bind. cbv zeta. unfold mbind at 1, M_bind at 1, put_st at 1.
    fold (move_bucket (t_buckets s1) (dsa_allocate (used s1)) new).
    rewrite (bind_ok _ _ _ _ _ Em), get_bind. unfold mbind at 1, M_bind at 1, put_st at 1.
    apply release_all; [apply (NoDup_seqZ 0 128)|].
    change (dom (held s2) = list_to_set (0 :: seqZ 1 127)). rewrite Hh2, Hd, Hh0, Hh, dom_insert_L, dom_empty_L.
    by rewrite union_empty_r_L, list_to_set_cons.
  - exists (with_held (delete 0) s0), bs0, ls0. split; [|split; [by apply table_held|split; [|done]]].
    + rewrite (bind_ok _ _ false s (with_held (delete 0) s0)); [done|].
      rewrite (bind_ok _ _ _ _ _ Ea), get_bind. rewrite (proj2 (Z.leb_le _ _)) by (simpl; lia). cbn [andb Z.eqb].
      unfold LWLockRelease. unfold mbind at 1, M_bind at 1. rewrite get_bind. by rewrite Hh0, lookup_insert_eq.
    + simpl. change (held (others 0 s)) with (held (others 0 s)).
      assert (Eh : <[0 := LW_EXCLUSIVE]> (held (others 0 s)) = <[0 := LW_EXCLUSIVE]> (held s)) by exact Hh0.
      by rewrite Eh, Hh, insert_empty, delete_singleton_eq.
Qed.

(** ** One bucket as a set of keys *)

Lemma first_match_none m k l : first_match m k l = None →
  ∀ y it, y ∈ l → m !! y = Some it → equal_keys k (key it) = false.
Proof.
  induction l as [|x l IH]; intros H y it; [by intros ?%not_elem_of_nil|].
  simpl in H. destruct (default _ _) eqn:E; [done|].
  intros [->|Hy]%elem_of_cons Hi; [by rewrite Hi in E|by eapply IH].
Qed.

Lemma first_match_agree m m' k l :
  (∀ x, x ∈ l → m' !! x = m !! x) → first_match m' k l = first_match m k l.
Proof.
  induction l as [|x l IH]; intros H; [done|]. simpl. rewrite H by left.
  case_match; [done|]. apply IH. intros y Hy. apply H. by right.
Qed.

(** A key inserted into a bucket that does not have it is found there, in
    the new item; deleted, it is gone, and the bucket has its old items. *)
Theorem bucket_insert_find_delete a j p l s k :
  equal_keys k k = true → read_slot (Bucket a j) s = (Ok p, s) → chain (items s) p l → NoDup l →
  first_match (items s) k l = None →
  ∃ x s1, insert_into_bucket k (Bucket a j) s = (Ok x, s1) ∧
    read_slot (Bucket a j) s1 = (Ok x, s1) ∧ find_in_bucket k x s1 = (Ok (Some x), s1) ∧
    ∃ s2 p2, delete_key_from_bucket k (Bucket a j) s1 = (Ok true, s2) ∧
      read_slot (Bucket a j) s2 = (Ok p2, s2) ∧ chain (items s2) p2 l ∧ infos s2 = infos s ∧
      find_in_bucket k p2 s2 = (Ok None, s2).
Proof.
  intros Hk Hr Hc Hnd Hm. pose proof (dsa_allocate_fresh (used s)) as HN.
  set (x := dsa_allocate (used s)) in *. unfold used in HN.
  apply not_elem_of_union in HN as [[Hxi _]%not_elem_of_union Hx0%not_elem_of_singleton].
  apply not_elem_of_dom in Hxi. set (it := Item 0 (garbage_hash x) k (garbage_body x)).
  set (s0 := with_items <[x := it]> s).
  assert (Hxl : x ∉ l) by (intros Hin; apply (chain_some _ _ _ x Hc) in Hin as [[? ?] _]; congruence).
  assert (Hag : ∀ y, y ∈ l → items s0 !! y = items s !! y).
  { intros y Hy. simpl. apply lookup_insert_ne. by intros ->. }
  destruct (insert_item_ok (Bucket a j) x it l p s0) as (s1 & E1 & R1 & C1 & I1 & A1 & F1 & _);
    [by apply (read_slot_agree _ s)|by apply (chain_agree (items s))|apply lookup_insert_eq|done..|].
  assert (Hag1 : ∀ y, y ∈ l → items s1 !! y = items s !! y).
  { intros y Hy. rewrite F1 by (done || by intros ->). by apply Hag. }
  pose proof C1 as (_ & _ & it1 & Ei1 & C1').
  assert (info it1 = info it) as [= _ Ek _].
  { pose proof (infos_some _ _ _ Ei1) as H. rewrite I1 in H. unfold infos in H. simpl in H.
    rewrite fmap_insert, lookup_insert_eq in H. congruence. }
  pose proof (chain_length _ _ _ C1 ltac:(by constructor)) as Hlen. simpl in Hlen.
  exists x, s1. split_and!; [| done| |].
  { unfold insert_into_bucket. rewrite get_bind. fold x it. unfold mbind at 1, M_bind at 1, put_st at 1.
    fold s0. by rewrite (bind_ok _ _ _ _ _ E1). }
  { unfold find_in_bucket. rewrite get_bind, (find_loop_ok k (x :: l)) by (done || unfold chain_fuel; simpl; lia).
    simpl. rewrite Ei1. simpl. by rewrite Ek, Hk. }
  destruct (delete_loop_found (λ _ it, equal_keys k (key it)) x it1 l [] (chain_fuel s1) (Bucket a j) x s1)
    as (s2 & E2 & p2 & R2 & C2 & I2 & _ & F2 & _);
    [done|done|by constructor|done|done|by rewrite Ek|by intros y ? ?%not_elem_of_nil|unfold chain_fuel; simpl; lia|].
  assert (Hag2 : ∀ y, y ∈ l → items s2 !! y = items s !! y).
  { intros y Hy. rewrite F2 by (done || apply not_elem_of_nil || by intros ->). by apply Hag1. }
  exists s2, p2. split_and!; [done|done|done| |].
  - rewrite I2, I1. unfold infos. simpl. rewrite fmap_insert. apply delete_insert_id. by rewrite lookup_fmap, Hxi.
  - unfold find_in_bucket. rewrite get_bind, (find_loop_ok k l) by
      (done || (unfold chain_fuel; apply Nat.lt_succ_r; by eapply chain_length)).
    rewrite (first_match_agree (items s)) by done. by rewrite Hm.
Qed.
End Table.

(** ** A concrete table

    128 buckets, two items in bucket 5 and one in bucket 64; another backend
    deletes the item 30 when it can. *)
Module Demo.

Definition demo_items : gmap Z (item (K := Z) (V := Z)) :=
  {[10 := Item 20 (5 * 2 ^ 25 + 1) 101 1; 20 := Item 0 (5 * 2 ^ 25) 102 2; 30 := Item 0 (64 * 2 ^ 25) 103 3]}.
Definition demo_buckets : list Z := <[5%nat := 10]> (<[64%nat := 30]> (replicate 128 0)).
Definition demo_chains : list (list Z) := <[5%nat := [10; 20]]> (<[64%nat := [30]]> (replicate 128 [])).
Definition demo : state (K := Z) (V := Z) :=
  State demo_items {[1000 := demo_buckets]} 7 1000 (<[5%nat := 2]> (<[64%nat := 1]> (replicate 128 0)))
    ∅ 7 1000.

Lemma demo_chains_cases i l : demo_chains !! i = Some l →
  (i = 5%nat ∧ l = [10; 20]) ∨ (i = 64%nat ∧ l = [30]) ∨ l = [].
Proof.
  unfold demo_chains. rewrite list_lookup_insert_Some, list_lookup_insert_Some.
  intros [(<- & <- & _)|[_ [(<- & <- & _)|[_ [-> _]%lookup_replicate]]]]; tauto.
Qed.

Lemma demo_table : table demo demo_buckets demo_chains.
Proof.
  apply Table.
  - simpl. lia.
  - done.
  - done.
  - apply Forall2_insert; [apply Forall2_insert; [apply Forall2_replicate; done|]|].
    + simpl. split_and!; [done..|]. by eexists.
    + simpl. split_and!; [done..|]. eexists. split; [done|]. simpl. split_and!; [done..|]. by eexists.
  - change (concat demo_chains) with [10; 20; 30]. repeat constructor; set_solver.
  - intros x. change (concat demo_chains) with [10; 20; 30].
    rewrite <- elem_of_dom. assert (E : dom (infos demo) = list_to_set [10; 20; 30]) by (vm_compute; done).
    by rewrite E, elem_of_list_to_set.
  - intros i l x it Hl Hx. destruct (demo_chains_cases i l Hl) as [[-> ->]|[[-> ->]| ->]];
      rewrite ?elem_of_cons, elem_of_nil in Hx; destruct_or?; try done; subst x; intros [= <-];
      (split; [split; vm_compute; done|vm_compute; done]).
  - intros q Hq.
    assert (H : forallb (λ q, bool_decide (counts demo !! Z.to_nat q
                 = Some (Z.of_nat (size (of_partition q (infos demo)))))) (seqZ 0 128) = true)
      by (vm_compute; done).
    rewrite forallb_forall in H. specialize (H q). rewrite <- list_elem_of_In, elem_of_seqZ in H.
    assert (Hin : 0 <= q < 0 + 128) by (change DSHASH_NUM_PARTITIONS with 128 in Hq; lia).
    specialize (H Hin). by apply bool_decide_eq_true in H.
  - vm_compute. done.
  - simpl. lia.
Qed.

(** The other backend. *)
Definition deleter (_ : Z) (s : state (K := Z) (V := Z)) : state :=
  if (t_size_log2 s =? size_log2 s) && bool_decide (is_Some (infos s !! 30))
  then (delete_item 30 s).2 else s.

Lemma deleter_deletes j s bs ls : table s bs ls →
  (∃ bs' ls', table (deleter j s) bs' ls') ∧ same_backend s (deleter j s) ∧
  (infos (deleter j s) = infos s ∨ infos (deleter j s) = delete 30 (infos s)).
Proof.
  intros T. assert (Hno : (∃ bs' ls', table s bs' ls') ∧ same_backend s s ∧
    (infos s = infos s ∨ infos s = delete 30 (infos s))) by (split; [by exists bs, ls|]; split; [done|by left]).
  unfold deleter. destruct (Z.eqb_spec (t_size_log2 s) (size_log2 s)) as [Hs|]; [|done].
  case_bool_decide as H; [|done]. simpl. destruct H as [i Hi].
  destruct (item_bucket s bs ls 30 i T Hi) as (k & l & _ & El & (pre & post & ->)%list_elem_of_split).
  destruct (infos_inv _ _ _ Hi) as (it & Ei & _).
  destruct (delete_item_ok s bs ls k pre 30 post it) as (s' & bs' & E & T' & Hi' & Hb & _); [done..|].
  rewrite E. simpl. split; [by eauto|]. split; [done|by right].
Qed.

Lemma deleter_ok i s bs ls : table s bs ls → held s !! i = None →
  (∃ bs' ls', table (deleter i s) bs' ls') ∧ held (deleter i s) = held s ∧
  t_size_log2 (deleter i s) = t_size_log2 s ∧ t_buckets (deleter i s) = t_buckets s ∧
  (held s ≠ ∅ → size_log2 (deleter i s) = size_log2 s).
Proof.
  intros T _. destruct (deleter_deletes i s bs ls T) as (T' & (S1 & S2 & S3 & S4 & S5) & _). done.
Qed.

End Demo.
Import Demo.

Lemma scan_returns_once_witness :
  ∃ rows s', (∀ fuel, (length rows < fuel)%nat → scan deleter fuel false (λ _ _, false) demo = (Ok rows, s')) ∧
    filter (λ r, r.1.1 = 10) rows = [(10, 101, 1)].
Proof.
  apply (scan_returns_once deleter deleter_ok false (λ _ _, false) 10 (5 * 2 ^ 25 + 1, 101, 1))
    with (bs := demo_buckets) (ls := demo_chains).
  - intros j s bs ls T Hi. destruct (deleter_deletes j s bs ls T) as (_ & _ & [->| ->]); [done|].
    rewrite lookup_delete_ne by done. done.
  - reflexivity.
  - exact demo_table.
  - reflexivity.
  - reflexivity.
Defined.

Lemma scan_deletes_witness :
  ∃ rows s' bs' ls',
    (∀ fuel, (length rows < fuel)%nat → scan (λ _ s, s) fuel true (λ k _, k =? 101) demo = (Ok rows, s')) ∧
    pointers rows = [10; 20; 30] ∧ table s' bs' ls' ∧ infos s' !! 10 = None ∧ is_Some (infos s' !! 20).
Proof.
  destruct (scan_deletes (λ _ s, s) ltac:(intros i s bs ls T _; split; [by exists bs, ls|done]) true (λ k _, k =? 101) demo
    demo_buckets demo_chains ltac:(done) demo_table ltac:(done)) as (rows & s' & bs' & ls' & E & Hp & _ & T & _ & Hi).
  exists rows, s', bs', ls'. split_and!; [exact E|exact Hp|exact T| |].
  - rewrite Hi. vm_compute. reflexivity.
  - rewrite Hi. vm_compute. by eexists.
Defined.

Lemma resize_keeps_entries_witness :
  ∃ s' bs' ls', resize deleter (λ X, 1 + set_fold Z.max 0 X) 8 demo = (Ok (), s') ∧ table s' bs' ls' ∧
    8 <= size_log2 s' ∧ infos s' !! 10 = Some (5 * 2 ^ 25 + 1, 101, 1).
Proof.
  destruct (resize_keeps_entries deleter (λ X, 1 + set_fold Z.max 0 X) deleter_ok fresh_max demo
    demo_buckets demo_chains 8 demo_table ltac:(done) ltac:(done) ltac:(lia)) as (s' & bs' & ls' & E & T & _ & Hs & Hi).
  exists s', bs', ls'. split_and!; [exact E|exact T|exact Hs|]. rewrite Hi. vm_compute. reflexivity.
Defined.

Lemma bucket_insert_find_delete_witness :
  ∃ x s1, insert_into_bucket (λ X, 1 + set_fold Z.max 0 X) (λ _, 0) (λ _, 0) 104 (Bucket 1000 5) demo = (Ok x, s1) ∧
    find_in_bucket Z.sub 104 x s1 = (Ok (Some x), s1).
Proof.
  destruct (bucket_insert_find_delete Z.sub (λ X, 1 + set_fold Z.max 0 X) (λ _, 0) (λ _, 0) fresh_max
    1000 5 10 [10; 20] demo 104) as (x & s1 & E & _ & Ef & _).
  - reflexivity.
  - reflexivity.
  - destruct (bucket_chain _ _ _ 5 [10; 20] demo_table) as (p & Ep & Hc); [reflexivity|].
    vm_compute in Ep. injection Ep as <-. exact Hc.
  - repeat constructor; set_solver.
  - reflexivity.
  - exists x, s1. split; [exact E|exact Ef].
Defined.

End Dshash.
