(* ===== verification/Httpd.v ===== *)
(** * Listening sockets of the HTTP server: [omni_httpd]

    The master worker (master_worker.c) turns the rows of
    [omni_httpd.listeners] into listening sockets and hands them to the HTTP
    workers over a UNIX socket (fd.c); an HTTP worker (http_worker.c) brings
    its listeners in line with what it receives and gives each the id of its
    row, by position.

    An open file of a process is an entry of its descriptor table; passing a
    descriptor installs the same socket in the table of the receiver.  The
    table makes visible which socket a listener serves, when descriptor
    numbers are used again.  What the system does ([socket], [bind],
    [listen], choice of descriptor numbers) is a parameter. *)

From Stdlib Require Import ZArith Lia.
From stdpp Require Import base tactics list gmap numbers strings sets.
From S2P Require Import Prelude.

Local Open Scope Z_scope.

Module Httpd.

(** ** Sockets *)

Inductive family := AF_INET | AF_INET6.

(** A listening socket is bound to an IPv4 address and a port. *)
Record sock := Sock { bound_addr : list Z; bound_port : Z }.
#[export] Instance sock_eq_dec : EqDecision sock.
Proof. solve_decision. Defined.

(** The open descriptors of a process; [None] is a socket that is not bound. *)
Abbreviation fd_table := (gmap Z (option sock)).

(** [inet] of PostgreSQL. *)
Record inet := Inet { ip_family : family; ip_addr : list Z; ip_bits : Z }.

Definition AF_INET_value : Z := 2.

(** [struct sockaddr_in] and [struct sockaddr_in6] in memory (64-bit Linux). *)
Definition sockaddr_in (sin_family port : Z) (sin_addr : list Z) : list Z :=
  [sin_family; 0] ++ be_bytes 2 port ++ sin_addr ++ replicate 8 0.
Definition sockaddr_in6 (sin6_family port : Z) (sin6_addr : list Z) : list Z :=
  [sin6_family; 0] ++ be_bytes 2 port ++ replicate 4 0 ++ sin6_addr ++ replicate 4 0.

(** What [bind] of an IPv4 socket reads: the port and the address. *)
Definition sin_port_of (a : list Z) : Z := be_val (take 2 (drop 2 a)).
Definition sin_addr_of (a : list Z) : list Z := take 4 (drop 4 a).

(** ** Passing descriptors *)

Definition MAX_N_FDS : nat := 253.

(** One message: the payload (whether more follow, the numbers in the master)
    and the sockets attached to it. *)
Record message := Message { has_more_fds : bool; payload : list Z; rights : list (option sock) }.

Record fd_fd := FdFd { fd : Z; master_fd : Z }.

Definition fd_fd_cmp (fd1 fd2 : fd_fd) : Z :=
  let d := fd fd1 - fd fd2 in if d =? 0 then master_fd fd1 - master_fd fd2 else d.

(** [sendmsg] fails when a descriptor is not open. *)
Definition sendmsg (t : fd_table) (has_more : bool) (fds : list Z) : option message :=
  Message has_more fds <$> mapM (λ n, t !! n) fds.

Fixpoint send_loop (fuel : nat) (t : fd_table) (fds : list Z) : list message * Z :=
  match fuel, fds with
  | S fuel', _ :: _ =>
      let n_fds_to_send := Nat.min (length fds) MAX_N_FDS in
      match sendmsg t (MAX_N_FDS <? length fds)%nat (take n_fds_to_send fds) with
      | None => ([], -1)
      | Some msg => let '(ms, rc) := send_loop fuel' t (drop n_fds_to_send fds) in (msg :: ms, rc)
      end
  | _, _ => ([], 0)
  end.
Definition send_fds (t : fd_table) (fds : list Z) : list message * Z := send_loop (length fds) t fds.

Section System.
(** The number [recvmsg] gives to a descriptor it installs. *)
Context (new_fd : gset Z → Z).

Fixpoint install (l : list (option sock)) (t : fd_table) : list Z * fd_table :=
  match l with
  | [] => ([], t)
  | o :: l' =>
      let n := new_fd (dom t) in
      let '(ns, t') := install l' (<[n := o]> t) in (n :: ns, t')
  end.

Definition close_all (l : list fd_fd) (t : fd_table) : fd_table :=
  foldl (λ t f, delete (fd f) t) t l.

(** [recv_fds] on a connection that delivers [ms] and is then closed. *)
Fixpoint recv_loop (ms : list message) (received : list fd_fd) (t : fd_table)
  : result (list fd_fd * fd_table) :=
  match ms with
  | [] => Ok ([], close_all received t)
  | msg :: ms' =>
      match rights msg with
      | [] => Ok ([], close_all received t)
      | _ =>
          let '(cmsg_data, t') := install (rights msg) t in
          if (length (payload msg) <? length cmsg_data)%nat then Undefined "fds read before they are set" else
          let received' := received ++ zip_with FdFd cmsg_data (payload msg) in
          if has_more_fds msg then recv_loop ms' received' t' else Ok (received', t')
      end
  end.
Definition recv_fds (ms : list message) (t : fd_table) : result (list fd_fd * fd_table) :=
  recv_loop ms [] t.

(** ** Listening sockets *)

(** [socket], and [bind] with [listen]: the port bound to, or whether the
    error is [EADDRINUSE]. *)
Context (socket : gset Z → option Z).
Context (bind_listen : fd_table → list Z → Z → Z + bool).
(** Printing and parsing of addresses. *)
Context (pg_inet_net_ntop : inet → string) (inet_pton : family → string → option (list Z)).

(** What [create_listening_socket] returns: the descriptor and the port, or
    whether [errno] is [EADDRINUSE]. *)
Inductive listening := Listening (fd : Z) (effective_port : Z) | ListenError (addrinuse : bool).

Definition create_listening_socket (fam : family) (port : Z) (address : string) (t : fd_table)
  : listening * fd_table :=
  let sockaddr :=
    match fam with
    | AF_INET => sockaddr_in AF_INET_value port (default (replicate 4 0) (inet_pton AF_INET address))
    | AF_INET6 => sockaddr_in6 AF_INET_value port (default (replicate 16 0) (inet_pton AF_INET6 address))
    end in
  match socket (dom t) with
  | None => (ListenError false, t)
  | Some n =>
      match bind_listen t (sin_addr_of sockaddr) (sin_port_of sockaddr) with
      | inl p => (Listening n p, <[n := Some (Sock (sin_addr_of sockaddr) p)]> t)
      | inr addrinuse => (ListenError addrinuse, <[n := None]> t)
      end
  end.

(** ** The master worker *)

Record listener := Listener {
  address : inet; port : option Z; id : Z; effective_port : option Z
}.

Record master := Master {
  portsocks : gmap Z Z;
  sockets : list Z;
  port_ready : bool;
  fds : fd_table;
  listeners : list listener
}.

(** Where a listener ends up: on the socket of a port listened on already, on
    a new socket, or nowhere. *)
Inductive placed := Existing (port_no sock : Z) | Created (sock effective_port : Z) | NotCreated.

Fixpoint try_listen (fuel : nat) (fam : family) (address_str : string) (ps : gmap Z Z)
    (try_port_no : Z) (current_effective_port : option Z) (t : fd_table) : result (placed * fd_table) :=
  match fuel with
  | O => Undefined "out of fuel"
  | S fuel' =>
      match create_listening_socket fam (wrap_u 16 try_port_no) address_str t with
      | (Listening n p, t') => Ok (Created n p, t')
      | (ListenError false, t') => Ok (NotCreated, t')
      | (ListenError true, t') =>
          match current_effective_port with
          | Some effective_port_no =>
              if negb (effective_port_no =? 0) && negb (effective_port_no =? try_port_no) then
                match ps !! effective_port_no with
                | Some s => Ok (Existing effective_port_no s, t')
                | None => try_listen fuel' fam address_str ps effective_port_no None t'
                end
              else try_listen fuel' fam address_str ps 0 current_effective_port t'
          | None => try_listen fuel' fam address_str ps 0 None t'
          end
      end
  end.

(** [update omni_httpd.listeners set effective_port = $1 where id = $2] *)
Definition set_effective_port (i p : Z) (ls : list listener) : list listener :=
  (λ l, if id l =? i then Listener (address l) (port l) (id l) (Some p) else l) <$> ls.

(** [cmap_insert] does not replace a value. *)
Definition cmap_insert (p s : Z) (ps : gmap Z Z) : gmap Z Z :=
  match ps !! p with Some _ => ps | None => <[p := s]> ps end.

(** One row, with the ports seen so far. *)
Definition place_listener (fuel : nat) (l : listener) (m : master) (ports : gset Z)
  : result (master * gset Z) :=
  match port l with
  | None => Ok (m, ports)
  | Some port_no =>
      match portsocks m !! port_no with
      | Some s =>
          Ok (Master (portsocks m) (sockets m ++ [s]) (port_ready m) (fds m) (listeners m),
              {[port_no]} ∪ ports)
      | None =>
          '(outcome, t) ← try_listen fuel (ip_family (address l)) (pg_inet_net_ntop (address l))
                            (portsocks m) port_no (effective_port l) (fds m);
          match outcome with
          | Existing p s =>
              Ok (Master (portsocks m) (sockets m ++ [s]) true t (listeners m), {[p]} ∪ ports)
          | Created s p =>
              Ok (Master (cmap_insert p s (portsocks m)) (sockets m ++ [s]) true t
                    (set_effective_port (id l) p (listeners m)), {[p]} ∪ ports)
          | NotCreated => Ok (Master (portsocks m) (sockets m) true t (listeners m), ports)
          end
      end
  end.

Fixpoint place_listeners (fuel : nat) (rows : list listener) (m : master) (ports : gset Z)
  : result (master * gset Z) :=
  match rows with
  | [] => Ok (m, ports)
  | l :: rows' =>
      if (length (sockets m) =? MAX_N_FDS)%nat then Ok (m, ports) else
      '(m', ports') ← place_listener fuel l m ports;
      place_listeners fuel rows' m' ports'
  end.

(** "Scan for sockets that no longer match any listeners and remove them" *)
Definition sweep (ports : gset Z) (m : master) : master :=
  Master (filter (λ ps, ps.1 ∈ ports) (portsocks m)) (sockets m) (port_ready m)
    (map_fold (λ p s t, if decide (p ∈ ports) then t else delete s t) (fds m) (portsocks m))
    (listeners m).

(** A turn of the master's loop with [worker_reload] set. *)
Definition master_reload (fuel : nat) (m : master) : result master :=
  let m := Master (portsocks m) []
             (match listeners m with [] => false | _ => port_ready m end) (fds m) (listeners m) in
  '(m', ports) ← place_listeners fuel (listeners m) m ∅;
  Ok (sweep ports m').

(** A turn without: the list is cleared all the same. *)
Definition master_no_reload (m : master) : master :=
  Master (portsocks m) [] (port_ready m) (fds m) (listeners m).

(** ** An HTTP worker *)

Record listener_ctx := ListenerCtx { ctx_fd : Z; ctx_master_fd : Z; listener_id : Z }.

Record worker := Worker { listener_contexts : list listener_ctx; wfds : fd_table }.

(** The first of the new descriptors with this master descriptor, and the
    others. *)
Fixpoint take_fd (mfd : Z) (new_fds : list fd_fd) : option (fd_fd * list fd_fd) :=
  match new_fds with
  | [] => None
  | f :: l =>
      if master_fd f =? mfd then Some (f, l)
      else '(g, l') ← take_fd mfd l; Some (g, f :: l')
  end.

(** "Disposing allocated listener/query pairs": the listeners kept, and the
    descriptors that need one. *)
Fixpoint dispose (ctxs : list listener_ctx) (new_fds : list fd_fd) (t : fd_table)
  : list listener_ctx * list fd_fd * fd_table :=
  match ctxs with
  | [] => ([], new_fds, t)
  | c :: ctxs' =>
      match take_fd (ctx_master_fd c) new_fds with
      | Some (f, new_fds') =>
          let '(kept, rest, t') := dispose ctxs' new_fds' (delete (fd f) t) in (c :: kept, rest, t')
      | None => dispose ctxs' new_fds (delete (ctx_fd c) t)
      end
  end.

Definition set_listener_id (i : Z) (c : listener_ctx) : listener_ctx :=
  ListenerCtx (ctx_fd c) (ctx_master_fd c) i.

(** [listener_ctx->listener_id = handler->id] of the first listener with this
    master descriptor. *)
Fixpoint set_first (mfd i : Z) (ctxs : list listener_ctx) : result (list listener_ctx) :=
  match ctxs with
  | [] => Undefined "listener_ctx is NULL"
  | c :: ctxs' =>
      if ctx_master_fd c =? mfd then Ok (set_listener_id i c :: ctxs')
      else r ← set_first mfd i ctxs'; Ok (c :: r)
  end.

Fixpoint assign_ids (handlers : list Z) (last_id index : Z) (fs : list fd_fd) (ctxs : list listener_ctx)
  : result (list listener_ctx) :=
  match handlers with
  | [] => Ok ctxs
  | i :: handlers' =>
      let index' := if last_id =? i then index else index + 1 in
      match (if 0 <=? index' then fs !! Z.to_nat index' else None) with
      | None => Undefined "no descriptor at this index"
      | Some f =>
          ctxs' ← set_first (master_fd f) i ctxs;
          assign_ids handlers' i index' fs ctxs'
      end
  end.

(** A reload: [handlers] are the ids of the listeners in order, [ms] what the
    master sends. *)
Definition worker_reload (handlers : list Z) (ms : list message) (w : worker) : result worker :=
  '(fs, t) ← recv_fds ms (wfds w);
  match fs with
  | [] => Ok (Worker (listener_contexts w) t)
  | _ =>
      let '(kept, new_fds, t') := dispose (listener_contexts w) fs t in
      let ctxs := kept ++ ((λ f, ListenerCtx (fd f) (master_fd f) 0) <$> new_fds) in
      ctxs' ← assign_ids handlers 0 (-1) fs ctxs;
      Ok (Worker ctxs' t')
  end.

(** The master reloads, then the worker. *)
Definition reload (fuel : nat) (m : master) (w : worker) : result (master * worker) :=
  m' ← master_reload fuel m;
  w' ← worker_reload (id <$> listeners m') (send_fds (fds m') (sockets m')).1 w;
  Ok (m', w').

(** ** Descriptors arrive as they were sent *)

Context (new_fd_fresh : ∀ X, new_fd X ∉ X).

Lemma install_ok l : ∀ t ns t', install l t = (ns, t') →
  length ns = length l ∧ NoDup ns ∧ (∀ n, n ∈ ns → t !! n = None) ∧
  t' = list_to_map (zip ns l) ∪ t.
Proof.
  induction l as [|o l IH]; intros t ns t' E; simpl in E.
  - injection E as <- <-. split_and!; [done|apply NoDup_nil_2|by intros ? ?%not_elem_of_nil|simpl; by rewrite (left_id_L ∅ (∪))].
  - set (n := new_fd (dom t)) in *. assert (Hn : t !! n = None) by apply not_elem_of_dom, new_fd_fresh.
    destruct (install l (<[n := o]> t)) as [ns' t2] eqn:E'. injection E as <- <-.
    destruct (IH _ _ _ E') as (Hl & Hnd & Hf & ->). split_and!.
    + simpl. by f_equal.
    + apply list.NoDup_cons. split; [|done]. intros Hin. specialize (Hf n Hin). by rewrite lookup_insert_eq in Hf.
    + intros x [->|Hx]%elem_of_cons; [done|]. specialize (Hf x Hx).
      by apply lookup_insert_None in Hf as [? _].
    + simpl. rewrite <- insert_union_l, <- insert_union_r; [done|].
      apply not_elem_of_list_to_map_1. rewrite fst_zip by lia. intros Hin. specialize (Hf n Hin).
      by rewrite lookup_insert_eq in Hf.
Qed.

(** What the receiver has once the messages of [fs] have been read. *)
Definition arrived (t : fd_table) (fs : list Z) (wt : fd_table) (ns : list Z) (wt' : fd_table) : Prop :=
  ∃ os, mapM (λ n, t !! n) fs = Some os ∧ length ns = length fs ∧ NoDup ns ∧
    (∀ n, n ∈ ns → wt !! n = None) ∧ wt' = list_to_map (zip ns os) ∪ wt.

Lemma arrived_app t f1 f2 wt n1 wt1 n2 wt2 :
  arrived t f1 wt n1 wt1 → arrived t f2 wt1 n2 wt2 → arrived t (f1 ++ f2) wt (n1 ++ n2) wt2.
Proof.
  intros (o1 & E1 & L1 & D1 & F1 & ->) (o2 & E2 & L2 & D2 & F2 & ->). exists (o1 ++ o2).
  assert (Hl1 : length o1 = length f1) by (symmetry; by eapply length_mapM).
  assert (Hl2 : length o2 = length f2) by (symmetry; by eapply length_mapM).
  assert (Hdis : ∀ n, n ∈ n2 → n ∉ n1).
  { intros n Hn2 Hn1. specialize (F2 n Hn2). apply lookup_union_None in F2 as [F2 _].
    apply not_elem_of_list_to_map in F2. by rewrite fst_zip in F2 by lia. }
  split_and!.
  - apply mapM_Some. apply Forall2_app; by apply mapM_Some.
  - rewrite !length_app. lia.
  - apply list.NoDup_app. split_and!; [done| |done]. intros n H1 H2. by eapply Hdis.
  - intros n [Hn|Hn]%elem_of_app; [by apply F1|]. specialize (F2 n Hn). by apply lookup_union_None in F2 as [_ ?].
  - rewrite zip_with_app by lia. rewrite list_to_map_app, map_union_assoc. f_equal.
    apply map_union_comm. apply map_disjoint_list_to_map_l. rewrite Forall_forall.
    intros [n o] Hin. simpl. apply not_elem_of_list_to_map_1. rewrite fst_zip by lia.
    apply Hdis. rewrite <- (fst_zip n2 o2) by lia. apply list_elem_of_fmap. by exists (n, o).
Qed.

(** One message. *)
Lemma message_arrives t b chunk wt :
  (∀ n, n ∈ chunk → is_Some (t !! n)) → chunk ≠ [] →
  ∃ os ns wt', sendmsg t b chunk = Some (Message b chunk os) ∧ os ≠ [] ∧
    install os wt = (ns, wt') ∧ length ns = length chunk ∧ arrived t chunk wt ns wt'.
Proof.
  intros Ho Hne. assert (is_Some (mapM (λ n, t !! n) chunk)) as [os E].
  { apply mapM_is_Some, Forall_forall. done. }
  assert (Hl : length os = length chunk) by (symmetry; by eapply length_mapM).
  destruct (install os wt) as [ns wt'] eqn:Ei. destruct (install_ok os wt ns wt' Ei) as (L & D & F & W).
  exists os, ns, wt'. split_and!; [|by destruct os, chunk|done|lia|].
  - unfold sendmsg. by rewrite E.
  - exists os. split_and!; [done|lia|done..].
Qed.

Lemma send_recv t fuel : ∀ fs wt acc,
  (∀ n, n ∈ fs → is_Some (t !! n)) → fs ≠ [] → (length fs <= fuel)%nat →
  ∃ ms ns wt', send_loop fuel t fs = (ms, 0) ∧
    recv_loop ms acc wt = Ok (acc ++ zip_with FdFd ns fs, wt') ∧ arrived t fs wt ns wt'.
Proof.
  induction fuel as [|fuel IH]; intros fs wt acc Ho Hne Hf; [destruct fs; simpl in *; [done|lia]|].
  set (n := Nat.min (length fs) MAX_N_FDS). set (b := (MAX_N_FDS <? length fs)%nat).
  assert (Hn : n ≠ 0%nat) by (unfold n, MAX_N_FDS; destruct fs; simpl; [done|lia]).
  destruct (message_arrives t b (take n fs) wt) as (os & ns & wt1 & Es & Hos & Ei & Hl & Ha).
  { intros x Hx. apply Ho. by apply subseteq_take in Hx. }
  { intros [?|?]%take_nil_inv; done. }
  assert (Esend : send_loop (S fuel) t fs =
    let '(ms, rc) := send_loop fuel t (drop n fs) in (Message b (take n fs) os :: ms, rc)).
  { destruct fs; [done|]. cbn [send_loop]. fold n b. by rewrite Es. }
  assert (Erecv : ∀ ms, recv_loop (Message b (take n fs) os :: ms) acc wt =
    let received' := acc ++ zip_with FdFd ns (take n fs) in
    if b then recv_loop ms received' wt1 else Ok (received', wt1)).
  { intros ms. cbn [recv_loop rights payload has_more_fds]. rewrite Ei.
    rewrite (proj2 (Nat.ltb_ge _ _)) by lia. by destruct os. }
  destruct (Nat.ltb_spec MAX_N_FDS (length fs)) as [Hlt|Hge].
  - assert (Eb : b = true) by done.
    destruct (IH (drop n fs) wt1 (acc ++ zip_with FdFd ns (take n fs))) as (ms & ns2 & wt2 & E1 & E2 & Ha2).
    + intros x Hx. apply Ho. by apply subseteq_drop in Hx.
    + intros E%(f_equal length). rewrite length_drop in E. simpl in E. lia.
    + rewrite length_drop. lia.
    + eexists _, (ns ++ ns2), wt2. rewrite Esend, E1. split; [done|]. rewrite Erecv, Eb. cbv zeta. rewrite E2.
      rewrite <- (take_drop n fs) at 3 4. split; [|by eapply arrived_app].
      rewrite zip_with_app by lia. by rewrite app_assoc.
  - assert (Eb : b = false) by done.
    assert (En : n = length fs) by (unfold n; lia). rewrite En, drop_all in Esend. rewrite En, firstn_all in *.
    eexists _, ns, wt1. rewrite Esend. destruct fuel; (split; [done|]); rewrite Erecv, Eb; done.
Qed.

Lemma arrived_lookup t fs wt ns wt' : arrived t fs wt ns wt' →
  (∀ i n m, ns !! i = Some n → fs !! i = Some m → wt' !! n = t !! m) ∧
  (∀ n, n ∉ ns → wt' !! n = wt !! n).
Proof.
  intros (os & Em & L & D & F & ->). assert (Hl : length os = length fs) by (symmetry; by eapply length_mapM). split.
  - intros i n m Hn Hm. apply mapM_Some in Em.
    destruct (Forall2_lookup_l _ _ _ _ _ Em Hm) as (o & Eo & ->). apply lookup_union_Some_l.
    apply elem_of_list_to_map_1; [by rewrite fst_zip by lia|]. apply list_elem_of_lookup. exists i.
    apply lookup_zip_with_Some. by exists n, o.
  - intros n Hn. apply lookup_union_r, not_elem_of_list_to_map_1. by rewrite fst_zip by lia.
Qed.

(** Any number of listening sockets handed over by [send_fds] arrive in
    [recv_fds] in order, each with its number in the master, under a new
    number of the worker that stands for the same socket; the other
    descriptors of the worker are untouched. *)
Theorem fds_roundtrip t fs wt :
  (∀ n, n ∈ fs → is_Some (t !! n)) →
  ∃ ms ns wt', send_fds t fs = (ms, 0) ∧ recv_fds ms wt = Ok (zip_with FdFd ns fs, wt') ∧
    length ns = length fs ∧ NoDup ns ∧ (∀ n, n ∈ ns → wt !! n = None) ∧
    (∀ i n m, ns !! i = Some n → fs !! i = Some m → wt' !! n = t !! m) ∧
    (∀ n, n ∉ ns → wt' !! n = wt !! n).
Proof.
  intros Ho. destruct (decide (fs = [])) as [->|Hne].
  { exists [], [], wt. split_and!; [done|done|done|apply NoDup_nil_2|by intros ? ?%not_elem_of_nil|done|done]. }
  destruct (send_recv t (length fs) fs wt [] Ho Hne ltac:(lia)) as (ms & ns & wt' & E1 & E2 & Ha).
  destruct (arrived_lookup _ _ _ _ _ Ha) as [H1 H2]. destruct Ha as (os & Em & L & D & F & _).
  by exists ms, ns, wt'.
Qed.

(** ** The master *)

Context (socket_fresh : ∀ X n, socket X = Some n → n ∉ X).

Lemma create_listening_socket_ok fam p a t r t' : create_listening_socket fam p a t = (r, t') →
  t ⊆ t' ∧ match r with
           | Listening n q => t !! n = None ∧ ∃ ad, t' !! n = Some (Some (Sock ad q))
           | _ => True
           end.
Proof.
  unfold create_listening_socket. set (sa := match fam with AF_INET => _ | _ => _ end).
  destruct (socket (dom t)) as [n|] eqn:Es; [|by intros [= <- <-]].
  assert (Hn : t !! n = None) by by apply not_elem_of_dom, socket_fresh.
  destruct (bind_listen _ _ _); intros [= <- <-]; split; [by apply insert_subseteq| |by apply insert_subseteq|done].
  split; [done|]. eexists. apply lookup_insert_eq.
Qed.

(** The outcome is a new open socket, or the one of a port in [ps]. *)
Definition placed_ok (ps : gmap Z Z) (t t' : fd_table) (o : placed) : Prop :=
  t ⊆ t' ∧ match o with
           | Created s p => t !! s = None ∧ ∃ ad, t' !! s = Some (Some (Sock ad p))
           | Existing p s => ps !! p = Some s
           | NotCreated => True
           end.

Lemma placed_ok_weaken ps t t1 t' o : t ⊆ t1 → placed_ok ps t1 t' o → placed_ok ps t t' o.
Proof.
  intros H1 [H2 H3]. split; [by etrans|]. destruct o; [done| |done].
  destruct H3 as [H3 H4]. split; [|done]. by eapply lookup_weaken_None.
Qed.

Lemma try_listen_ok fam a ps fuel : ∀ try eff t o t',
  try_listen fuel fam a ps try eff t = Ok (o, t') → placed_ok ps t t' o.
Proof.
  induction fuel as [|fuel IH]; intros try eff t o t' E; [done|]. cbn [try_listen] in E.
  destruct (create_listening_socket _ _ _ _) as [r t1] eqn:Ec.
  apply create_listening_socket_ok in Ec as [Hsub Hr]. destruct r as [n p|[]].
  - by injection E as <- <-.
  - apply (placed_ok_weaken _ t t1); [done|]. destruct eff as [e|]; [|by eapply IH].
    destruct (_ && _); [|by eapply IH]. destruct (ps !! e) eqn:Ep; [by injection E as <- <-|by eapply IH].
  - by injection E as <- <-.
Qed.

(** Every port listened on has its open socket. *)
Definition master_ok (m : master) : Prop :=
  ∀ p s, portsocks m !! p = Some s → ∃ ad, fds m !! s = Some (Some (Sock ad p)).

Lemma portsocks_inj m p p' s : master_ok m → portsocks m !! p = Some s → portsocks m !! p' = Some s → p = p'.
Proof. intros Hm [ad E]%Hm [ad' E']%Hm. congruence. Qed.

Record placing (m0 m : master) (ports : gset Z) : Prop := Placing {
  pl_ok : master_ok m;
  pl_sub : fds m0 ⊆ fds m;
  pl_open : ∀ s, s ∈ sockets m → ∃ o, fds m !! s = Some (Some o);
  pl_ports : ∀ p s, portsocks m !! p = Some s → s ∈ sockets m → p ∈ ports;
  pl_ids : id <$> listeners m = id <$> listeners m0
}.

(** A socket that is listened on already. *)
Lemma placing_existing m0 m ports p s b t :
  placing m0 m ports → portsocks m !! p = Some s → fds m ⊆ t →
  placing m0 (Master (portsocks m) (sockets m ++ [s]) b t (listeners m)) ({[p]} ∪ ports).
Proof.
  intros [Hok Hsub Ho Hp Hid] E Ht. split; simpl; [| | | |done].
  - intros q n [ad Hq]%Hok. exists ad. by eapply lookup_weaken.
  - by etrans.
  - intros n [Hn| ->%list_elem_of_singleton]%elem_of_app.
    + apply Ho in Hn as [o Hn]. exists o. by eapply lookup_weaken.
    + destruct (Hok _ _ E) as [ad Ha]. eexists. by eapply lookup_weaken.
  - intros q n Hq [Hn| ->%list_elem_of_singleton]%elem_of_app.
    + apply elem_of_union_r. by eapply Hp.
    + rewrite (portsocks_inj m q p s) by done. apply elem_of_union_l, elem_of_singleton_2. done.
Qed.

(** A new one. *)
Lemma placing_created m0 m ports p s ad t i :
  placing m0 m ports → fds m ⊆ t → fds m !! s = None → t !! s = Some (Some (Sock ad p)) →
  placing m0 (Master (cmap_insert p s (portsocks m)) (sockets m ++ [s]) true t
                (set_effective_port i p (listeners m))) ({[p]} ∪ ports).
Proof.
  intros [Hok Hsub Ho Hp Hid] Ht Hs Es.
  assert (Hnew : ∀ q n, cmap_insert p s (portsocks m) !! q = Some n →
    portsocks m !! q = Some n ∨ (q = p ∧ n = s)).
  { intros q n. unfold cmap_insert. destruct (portsocks m !! p); [by left|].
    intros [[-> ->]|[_ ?]]%lookup_insert_Some; [by right|by left]. }
  split; simpl.
  - intros q n [[ad' Hq]%Hok|[-> ->]]%Hnew; [|by exists ad]. exists ad'. by eapply lookup_weaken.
  - by etrans.
  - intros n [Hn| ->%list_elem_of_singleton]%elem_of_app; [|by eexists].
    apply Ho in Hn as [o Hn]. exists o. by eapply lookup_weaken.
  - intros q n [Hq|[-> ->]]%Hnew Hn; [|by apply elem_of_union_l, elem_of_singleton_2].
    apply elem_of_union_r. apply elem_of_app in Hn as [Hn|Hn%list_elem_of_singleton]; [by eapply Hp|].
    subst n. apply Hok in Hq as [? Hq]. congruence.
  - rewrite <- Hid. unfold set_effective_port. rewrite <- list_fmap_compose. apply list_fmap_ext.
    intros j l _. simpl. by destruct (_ =? _).
Qed.

Lemma place_listener_ok m0 fuel l m ports m' ports' :
  placing m0 m ports → place_listener fuel l m ports = Ok (m', ports') → placing m0 m' ports'.
Proof.
  intros P. unfold place_listener. destruct (port l) as [port_no|]; [|by intros [= <- <-]].
  destruct (portsocks m !! port_no) as [s|] eqn:Ep.
  { intros [= <- <-]. by apply placing_existing. }
  destruct (try_listen _ _ _ _ _ _ _) as [[o t]|e|w] eqn:Et; [|done|done]. simpl.
  apply try_listen_ok in Et as [Hsub Ho]. destruct o as [p s|s p|]; intros [= <- <-].
  - by apply placing_existing.
  - destruct Ho as [Hn [ad Es]]. by eapply placing_created.
  - destruct P as [Hok Hs Ho' Hp Hid]. split; simpl; [| | |done|done].
    + intros q n [ad Hq]%Hok. exists ad. by eapply lookup_weaken.
    + by etrans.
    + intros n [x Hn]%Ho'. exists x. by eapply lookup_weaken.
Qed.

Lemma place_listeners_ok m0 fuel rows : ∀ m ports m' ports',
  placing m0 m ports → place_listeners fuel rows m ports = Ok (m', ports') → placing m0 m' ports'.
Proof.
  induction rows as [|l rows IH]; intros m ports m' ports' P E; [by injection E as <- <-|].
  cbn [place_listeners] in E. destruct (_ =? _)%nat; [by injection E as <- <-|].
  destruct (place_listener _ _ _ _) as [[m1 ports1]|e|w] eqn:E1; [|done|done]. simpl in E.
  eapply IH; [|done]. by eapply place_listener_ok.
Qed.

Lemma sweep_fds ports m s : (∀ p, portsocks m !! p = Some s → p ∈ ports) →
  fds (sweep ports m) !! s = fds m !! s.
Proof.
  simpl. apply (map_fold_weak_ind (λ r ps, (∀ p, ps !! p = Some s → p ∈ ports) → r !! s = fds m !! s)); [done|].
  intros p s' ps r Hp IH H.
  assert (Hr : r !! s = fds m !! s).
  { apply IH. intros q Hq. apply H. rewrite lookup_insert_ne; [done|]. by intros ->; rewrite Hp in Hq. }
  case_decide as Hin; [done|]. rewrite lookup_delete_ne; [done|]. intros ->. apply Hin, H. apply lookup_insert_eq.
Qed.

(** A reload keeps the books of the master: what it sends is open, and a
    descriptor that was open before stands for the same socket. *)
Lemma master_reload_ok fuel m m' : master_ok m → master_reload fuel m = Ok m' →
  master_ok m' ∧ (∀ s, s ∈ sockets m' → ∃ o, fds m' !! s = Some (Some o)) ∧
  (∀ s x, s ∈ sockets m' → fds m !! s = Some x → fds m' !! s = Some x) ∧
  id <$> listeners m' = id <$> listeners m.
Proof.
  intros Hm. unfold master_reload. set (m0 := Master _ [] _ _ _).
  destruct (place_listeners _ _ _ _) as [[m1 ports]|e|w] eqn:E; [|done|done]. intros [= <-].
  assert (P : placing m m1 ports).
  { eapply place_listeners_ok; [|done]. split; [done|done|by intros ? ?%not_elem_of_nil|by intros ? ? ? ?%not_elem_of_nil|done]. }
  destruct P as [Hok Hsub Ho Hp Hid].
  assert (Hkeep : ∀ s, s ∈ sockets m1 → fds (sweep ports m1) !! s = fds m1 !! s).
  { intros s Hs. apply sweep_fds. intros p Hps. by eapply Hp. }
  split_and!; [| | |done].
  - intros p s [Hps Hin]%map_lookup_filter_Some. rewrite sweep_fds; [by apply Hok|].
    intros q Hq. by rewrite (portsocks_inj m1 q p s).
  - intros s Hs. rewrite Hkeep by done. by apply Ho.
  - intros s x Hs Hx. rewrite Hkeep by done. by eapply lookup_weaken.
Qed.

(** ** The worker *)

Lemma take_fd_some mfd new_fds f rest : take_fd mfd new_fds = Some (f, rest) →
  master_fd f = mfd ∧ new_fds ≡ₚ f :: rest.
Proof.
  revert rest. induction new_fds as [|g l IH]; intros rest E; [done|]. simpl in E.
  destruct (Z.eqb_spec (master_fd g) mfd) as [Hg|_]; [by injection E as <- <-|].
  destruct (take_fd mfd l) as [[h l']|]; [|done]. injection E as <- <-.
  destruct (IH l' eq_refl) as [Hf Hp]. split; [done|]. rewrite Hp. apply Permutation_swap.
Qed.

Lemma take_fd_none mfd new_fds : take_fd mfd new_fds = None → mfd ∉ master_fd <$> new_fds.
Proof.
  induction new_fds as [|g l IH]; intros E; [apply not_elem_of_nil|]. simpl in E |- *.
  destruct (Z.eqb_spec (master_fd g) mfd) as [Hg|Hg]; [done|].
  destruct (take_fd mfd l) as [[h l']|] eqn:El; [done|]. apply not_elem_of_cons. split; [congruence|by apply IH].
Qed.

(** What the listeners and the new descriptors stand for in the master. *)
Definition serving (G : Z → option (option sock)) (ctxs : list listener_ctx) (t : fd_table) : Prop :=
  ∀ c, c ∈ ctxs → t !! ctx_fd c = G (ctx_master_fd c).
Definition standing (G : Z → option (option sock)) (fs : list fd_fd) (t : fd_table) : Prop :=
  ∀ f, f ∈ fs → t !! fd f = G (master_fd f).

Lemma dispose_ok G ctxs : ∀ fs t kept rest t',
  dispose ctxs fs t = (kept, rest, t') →
  NoDup ((ctx_fd <$> ctxs) ++ (fd <$> fs)) → NoDup (master_fd <$> fs) →
  (∀ c, c ∈ ctxs → ctx_master_fd c ∈ master_fd <$> fs → t !! ctx_fd c = G (ctx_master_fd c)) →
  standing G fs t →
  (ctx_master_fd <$> kept) ++ (master_fd <$> rest) ≡ₚ master_fd <$> fs ∧
  serving G kept t' ∧ standing G rest t' ∧
  (ctx_fd <$> kept) ++ (fd <$> rest) ⊆+ (ctx_fd <$> ctxs) ++ (fd <$> fs) ∧
  (∀ n, n ∉ ctx_fd <$> ctxs → n ∉ fd <$> fs → t' !! n = t !! n).
Proof.
  induction ctxs as [|c ctxs IH]; intros fs t kept rest t' E Hnd Hm Hc Hs.
  { simpl in E. injection E as <- <- <-. split_and!; [done|by intros ? ?%not_elem_of_nil|done|done|done]. }
  cbn [dispose] in E. cbn [fmap list_fmap app] in Hnd. apply list.NoDup_cons in Hnd as [Hcn Hnd].
  apply not_elem_of_app in Hcn as [Hcn1 Hcn2].
  destruct (take_fd (ctx_master_fd c) fs) as [[f fs']|] eqn:Et.
  - apply take_fd_some in Et as [Ef Hp]. destruct (dispose ctxs fs' _) as [[kept1 rest1] t1] eqn:E1.
    injection E as <- <- <-. rewrite Hp in Hnd, Hm. cbn [fmap list_fmap] in Hnd, Hm.
    apply list.NoDup_cons in Hm as [Hmf Hm]. rewrite <- Permutation_middle in Hnd.
    apply list.NoDup_cons in Hnd as [Hfn Hnd]. apply not_elem_of_app in Hfn as [Hfn1 Hfn2].
    assert (Hfc : ctx_fd c ≠ fd f).
    { intros Heq. apply Hcn2. rewrite Heq, Hp. by left. }
    destruct (IH fs' (delete (fd f) t) kept1 rest1 t1 E1 Hnd Hm) as (P & S1 & S2 & Sub & Fr).
    { intros c' Hc' Hin. rewrite lookup_delete_ne.
      - apply Hc; [by right|]. rewrite Hp. by right.
      - intros Heq. apply Hfn1. rewrite Heq. by apply list_elem_of_fmap_2. }
    { intros g Hg. rewrite lookup_delete_ne; [apply Hs; rewrite Hp; by right|].
      intros Heq. apply Hfn2. rewrite Heq. by apply list_elem_of_fmap_2. }
    split_and!.
    + rewrite Hp. cbn [fmap list_fmap app]. by rewrite Ef, P.
    + intros c' [->|Hc']%elem_of_cons; [|by apply S1]. rewrite Fr; [|done|].
      * rewrite lookup_delete_ne by done. apply Hc; [by left|]. rewrite Hp, <- Ef. by left.
      * intros Hin. apply Hcn2. rewrite Hp. by right.
    + done.
    + cbn [fmap list_fmap app]. apply submseteq_skip. rewrite Sub, Hp. cbn [fmap list_fmap].
      apply submseteq_app; [done|]. by apply submseteq_cons.
    + intros n Hn1 Hn2. apply not_elem_of_cons in Hn1 as [Hn1 Hn1'].
      rewrite Hp in Hn2. apply not_elem_of_cons in Hn2 as [Hn2 Hn2']. rewrite Fr by done. by apply lookup_delete_ne.
  - apply take_fd_none in Et.
    destruct (IH fs (delete (ctx_fd c) t) kept rest t' E Hnd Hm) as (P & S1 & S2 & Sub & Fr).
    { intros c' Hc' Hin. rewrite lookup_delete_ne; [apply Hc; [by right|done]|].
      intros Heq. apply Hcn1. rewrite Heq. by apply list_elem_of_fmap_2. }
    { intros g Hg. rewrite lookup_delete_ne; [by apply Hs|]. intros Heq. apply Hcn2. rewrite Heq. by apply list_elem_of_fmap_2. }
    split_and!; [done..| |].
    + cbn [fmap list_fmap app]. by apply submseteq_cons.
    + intros n Hn1 Hn2. apply not_elem_of_cons in Hn1 as [Hn1 Hn1']. rewrite Fr by done. by apply lookup_delete_ne.
Qed.

(** *** The ids of the listeners *)

Definition give (c : listener_ctx) (fi : fd_fd * Z) : listener_ctx :=
  if ctx_master_fd c =? master_fd fi.1 then set_listener_id fi.2 c else c.

Lemma give_same c fi : ctx_fd (give c fi) = ctx_fd c ∧ ctx_master_fd (give c fi) = ctx_master_fd c.
Proof. unfold give. by destruct (_ =? _). Qed.

Lemma foldl_give_same l : ∀ c,
  ctx_fd (foldl give c l) = ctx_fd c ∧ ctx_master_fd (foldl give c l) = ctx_master_fd c.
Proof.
  induction l as [|fi l IH]; intros c; [done|]. cbn [foldl].
  destruct (IH (give c fi)) as [-> ->]. apply give_same.
Qed.

Lemma foldl_give_fmap l (ctxs : list listener_ctx) :
  ctx_fd <$> ((λ c, foldl give c l) <$> ctxs) = ctx_fd <$> ctxs ∧
  ctx_master_fd <$> ((λ c, foldl give c l) <$> ctxs) = ctx_master_fd <$> ctxs.
Proof.
  induction ctxs as [|c ctxs [IH1 IH2]]; [done|]. cbn [fmap list_fmap].
  destruct (foldl_give_same l c) as [-> ->]. split; by f_equal.
Qed.

Lemma foldl_give_other l : ∀ c, ctx_master_fd c ∉ master_fd ∘ fst <$> l → foldl give c l = c.
Proof.
  induction l as [|fi l IH]; intros c Hc; [done|]. cbn [fmap list_fmap] in Hc.
  apply not_elem_of_cons in Hc as [H1 H2]. cbn [foldl]. unfold give at 2.
  rewrite (proj2 (Z.eqb_neq _ _)) by done. by apply IH.
Qed.

Lemma foldl_give_id l : ∀ c j f i, l !! j = Some (f, i) → NoDup (master_fd ∘ fst <$> l) →
  ctx_master_fd c = master_fd f → listener_id (foldl give c l) = i.
Proof.
  induction l as [|fi l IH]; intros c j f i Hj Hnd Hc; [done|]. cbn [fmap list_fmap] in Hnd.
  apply list.NoDup_cons in Hnd as [Hfi Hnd]. cbn [foldl]. destruct j as [|j]; simpl in Hj.
  - injection Hj as ->. unfold give at 2. simpl. rewrite (proj2 (Z.eqb_eq _ _) Hc).
    rewrite foldl_give_other; [done|]. simpl. by rewrite Hc.
  - eapply IH; [done|done|]. by rewrite (proj2 (give_same c fi)).
Qed.

Lemma set_first_ok mfd i ctxs : NoDup (ctx_master_fd <$> ctxs) → mfd ∈ ctx_master_fd <$> ctxs →
  set_first mfd i ctxs = Ok ((λ c, if ctx_master_fd c =? mfd then set_listener_id i c else c) <$> ctxs).
Proof.
  induction ctxs as [|c ctxs IH]; intros Hnd Hin; [by apply not_elem_of_nil in Hin|].
  cbn [fmap list_fmap] in Hnd, Hin. apply list.NoDup_cons in Hnd as [Hc Hnd]. cbn [set_first fmap list_fmap].
  destruct (Z.eqb_spec (ctx_master_fd c) mfd) as [E|Hne].
  - do 2 f_equal. rewrite <- (list_fmap_id ctxs) at 1. apply list_fmap_ext. intros j c' Hj. simpl.
    rewrite (proj2 (Z.eqb_neq _ _)); [done|]. intros E'. apply Hc. rewrite E, <- E'.
    apply list_elem_of_fmap_2. by eapply list_elem_of_lookup_2.
  - apply elem_of_cons in Hin as [E|Hin]; [done|]. by rewrite IH.
Qed.

Lemma assign_ids_ok fs hs : ∀ last k ctxs,
  NoDup (ctx_master_fd <$> ctxs) → (∀ f, f ∈ fs → master_fd f ∈ ctx_master_fd <$> ctxs) →
  (k + length hs = length fs)%nat → NoDup (last :: hs) →
  assign_ids hs last (Z.of_nat k - 1) fs ctxs = Ok ((λ c, foldl give c (zip (drop k fs) hs)) <$> ctxs).
Proof.
  induction hs as [|i hs IH]; intros last k ctxs Hnd Hin Hl Hh.
  { rewrite drop_ge by (simpl in *; lia). simpl. by rewrite list_fmap_id. }
  apply list.NoDup_cons in Hh as [Hlast Hh]. apply not_elem_of_cons in Hlast as [Hne _].
  cbn [assign_ids]. rewrite (proj2 (Z.eqb_neq _ _) Hne). replace (Z.of_nat k - 1 + 1) with (Z.of_nat k) by lia.
  rewrite (proj2 (Z.leb_le _ _)), Nat2Z.id by lia.
  destruct (lookup_lt_is_Some_2 fs k ltac:(simpl in *; lia)) as [f Ef]. rewrite Ef.
  rewrite set_first_ok; [|done|by apply Hin; eapply list_elem_of_lookup_2]. cbn [mbind result_bind].
  set (ctxs' := (λ c, if ctx_master_fd c =? master_fd f then _ else c) <$> ctxs).
  assert (Em : ctx_master_fd <$> ctxs' = ctx_master_fd <$> ctxs).
  { unfold ctxs'. rewrite <- list_fmap_compose. apply list_fmap_ext. intros j c _. simpl. by destruct (_ =? _). }
  replace (Z.of_nat k) with (Z.of_nat (S k) - 1) by lia. rewrite IH; [|by rewrite Em..|simpl in *; lia|done].
  f_equal. unfold ctxs'. rewrite <- list_fmap_compose, (drop_S _ _ _ Ef). done.
Qed.

(** ** From the listeners to the sockets *)

(** The socket [s] is bound to the port of the listener, the one asked for or
    the one recorded as effective. *)
Definition served (t : fd_table) (l : listener) (s : Z) : Prop :=
  ∃ ad p, t !! s = Some (Some (Sock ad p)) ∧ (port l = Some p ∨ effective_port l = Some p).

Lemma served_weaken t t' l s : t ⊆ t' → served t l s → served t' l s.
Proof. intros Ht (ad & p & E & H). exists ad, p. split; [by eapply lookup_weaken|done]. Qed.

Lemma set_effective_port_mid done l rest p : NoDup (id <$> done ++ l :: rest) →
  set_effective_port (id l) p (done ++ l :: rest)
  = done ++ Listener (address l) (port l) (id l) (Some p) :: rest.
Proof.
  intros Hnd. rewrite fmap_app in Hnd. cbn [fmap list_fmap] in Hnd.
  apply list.NoDup_app in Hnd as (_ & Hd & Hnd). apply list.NoDup_cons in Hnd as [Hr _].
  assert (G : ∀ ls, id l ∉ id <$> ls → set_effective_port (id l) p ls = ls).
  { intros ls Hls. unfold set_effective_port. rewrite <- (list_fmap_id ls) at 2. apply list_fmap_ext.
    intros j l' Hj. rewrite (proj2 (Z.eqb_neq _ _)); [done|]. intros E. apply Hls. rewrite <- E.
    apply list_elem_of_fmap_2. by eapply list_elem_of_lookup_2. }
  unfold set_effective_port. rewrite fmap_app. cbn [fmap list_fmap]. rewrite Z.eqb_refl.
  change ((λ l0, if id l0 =? id l then _ else l0) <$> done) with (set_effective_port (id l) p done).
  f_equal; [|f_equal]; apply G; [|done]. intros Hin. eapply Hd; [done|by left].
Qed.

Lemma try_listen_existing fam a ps fuel : ∀ try eff t p s t',
  try_listen fuel fam a ps try eff t = Ok (Existing p s, t') → eff = Some p.
Proof.
  induction fuel as [|fuel IH]; intros try eff t p s t' E; [done|]. cbn [try_listen] in E.
  destruct (create_listening_socket _ _ _ _) as [[n q|[]] t1]; [done| |done].
  destruct eff as [e|]; [|by apply IH in E]. destruct (_ && _); [|by apply IH in E].
  destruct (ps !! e) eqn:Ep; [by injection E as <- <- <-|by apply IH in E].
Qed.

(** The listeners [done] have their sockets, in order; [rest] are still to be
    placed. *)
Definition aligned (m : master) (done rest : list listener) : Prop :=
  listeners m = done ++ rest ∧ Forall2 (served (fds m)) done (sockets m).

Lemma place_listener_aligned fuel l m ports m' ports' done rest :
  master_ok m → aligned m done (l :: rest) → NoDup (id <$> listeners m) →
  place_listener fuel l m ports = Ok (m', ports') →
  length (sockets m') = (length (sockets m) + 1)%nat → ∃ l', aligned m' (done ++ [l']) rest.
Proof.
  intros Hm [El Hs] Hnd. unfold place_listener.
  assert (Hsame : ∀ t s b, fds m ⊆ t → served t l s →
    aligned (Master (portsocks m) (sockets m ++ [s]) b t (listeners m)) (done ++ [l]) rest).
  { intros t s b Ht Hl. split; simpl; [by rewrite El, <- app_assoc|].
    apply Forall2_app; [|by repeat constructor]. eapply Forall2_impl; [done|]. intros. by eapply served_weaken. }
  destruct (port l) as [port_no|] eqn:Ep; [|intros [= <- <-]; lia].
  destruct (portsocks m !! port_no) as [s|] eqn:Eps.
  { intros [= <- <-] _. exists l. apply Hsame; [done|].
    apply Hm in Eps as [ad E]. exists ad, port_no. by split; [|left]. }
  destruct (try_listen _ _ _ _ _ _ _) as [[o t]|e|w] eqn:Et; [|done|done]. simpl.
  pose proof (try_listen_ok _ _ _ _ _ _ _ _ _ Et) as [Hsub Ho].
  destruct o as [p s|s p|]; intros [= <- <-]; simpl; [| |lia]; intros _.
  - exists l. apply Hsame; [done|]. apply Hm in Ho as [ad E].
    exists ad, p. split; [by eapply lookup_weaken|]. right. by eapply try_listen_existing.
  - destruct Ho as [_ [ad E]]. exists (Listener (address l) (port l) (id l) (Some p)). split; simpl.
    + rewrite El, set_effective_port_mid by by rewrite <- El. by rewrite <- app_assoc.
    + apply Forall2_app; [|repeat constructor; exists ad, p; by split; [|right]].
      eapply Forall2_impl; [done|]. intros. by eapply served_weaken.
Qed.

Lemma place_listener_length fuel l m ports m' ports' : place_listener fuel l m ports = Ok (m', ports') →
  (length (sockets m') <= length (sockets m) + 1)%nat.
Proof.
  unfold place_listener. destruct (port l) as [port_no|]; [|intros [= <- <-]; lia].
  destruct (portsocks m !! port_no); [intros [= <- <-]; simpl; rewrite length_app; simpl; lia|].
  destruct (try_listen _ _ _ _ _ _ _) as [[o t]|e|w]; [|done|done]. simpl.
  destruct o; intros [= <- <-]; simpl; rewrite ?length_app; simpl; lia.
Qed.

Lemma place_listeners_length fuel rows : ∀ m ports m' ports',
  place_listeners fuel rows m ports = Ok (m', ports') →
  (length (sockets m') <= length (sockets m) + length rows)%nat.
Proof.
  induction rows as [|l rows IH]; intros m ports m' ports' E; [injection E as <- <-; lia|].
  cbn [place_listeners] in E. destruct (_ =? _)%nat; [injection E as <- <-; simpl; lia|].
  destruct (place_listener _ _ _ _) as [[m1 ports1]|e|w] eqn:E1; [|done|done]. simpl in E.
  apply place_listener_length in E1. apply IH in E. simpl. lia.
Qed.

Lemma place_listeners_aligned m0 fuel rows : ∀ m ports m' ports' done,
  placing m0 m ports → aligned m done rows → NoDup (id <$> listeners m) →
  place_listeners fuel rows m ports = Ok (m', ports') →
  length (sockets m') = (length (sockets m) + length rows)%nat → ∃ done', aligned m' done' [].
Proof.
  induction rows as [|l rows IH]; intros m ports m' ports' done P A Hnd E Hl.
  { injection E as <- <-. by exists done. }
  cbn [place_listeners] in E. simpl in Hl. destruct (_ =? _)%nat; [injection E as <- <-; lia|].
  destruct (place_listener _ _ _ _) as [[m1 ports1]|e|w] eqn:E1; [|done|done]. simpl in E.
  pose proof (place_listener_ok m0 fuel l m ports m1 ports1 P E1) as P1.
  pose proof (place_listener_length _ _ _ _ _ _ E1). pose proof (place_listeners_length _ _ _ _ _ _ E).
  destruct (place_listener_aligned fuel l m ports m1 ports1 done rows (pl_ok _ _ _ P) A Hnd E1) as [l' A']; [lia|].
  apply (IH m1 ports1 m' ports' (done ++ [l'])); [done|done| |done|lia].
  rewrite (pl_ids _ _ _ P1), <- (pl_ids _ _ _ P). done.
Qed.

Lemma master_reload_serves fuel m m' : master_ok m → NoDup (id <$> listeners m) →
  master_reload fuel m = Ok m' → length (sockets m') = length (listeners m) →
  Forall2 (served (fds m')) (listeners m') (sockets m').
Proof.
  intros Hm Hnd. unfold master_reload. set (m0 := Master _ [] _ _ _).
  destruct (place_listeners _ _ _ _) as [[m1 ports]|e|w] eqn:E; [|done|done]. intros [= <-] Hl.
  assert (P0 : placing m m0 ∅).
  { split; [done|done|by intros ? ?%not_elem_of_nil|by intros ? ? ? ?%not_elem_of_nil|done]. }
  pose proof (place_listeners_ok _ _ _ _ _ _ _ P0 E) as P.
  destruct (place_listeners_aligned m fuel (listeners m) m0 ∅ m1 ports [] P0) as [done' [Ed Hs]];
    [by split; [|constructor]|done|done|done|].
  rewrite app_nil_r in Ed. simpl. rewrite Ed. apply Forall2_same_length_lookup.
  split; [by eapply Forall2_length|]. intros j l s El Es.
  destruct (Forall2_lookup_lr _ _ _ _ _ _ Hs El Es) as (ad & p & Ef & Hp). exists ad, p. split; [|done].
  rewrite <- Ef. apply (sweep_fds ports m1). intros q Hq. eapply (pl_ports _ _ _ P); [done|].
  by eapply list_elem_of_lookup_2.
Qed.

Lemma master_fds_zip (ns ss : list Z) : length ns = length ss →
  master_fd <$> zip_with FdFd ns ss = ss ∧ fd <$> zip_with FdFd ns ss = ns.
Proof.
  revert ss. induction ns as [|n ns IH]; intros [|s ss] Hl; simpl in Hl; [done|lia|lia|].
  cbn. destruct (IH ss) as [H1 H2]; [lia|]. by rewrite H1, H2.
Qed.

Lemma nodup_sub (l k : list Z) : l ⊆+ k → NoDup k → NoDup l.
Proof. intros [k' ->]%submseteq_Permutation H. by apply list.NoDup_app in H as [? _]. Qed.

Lemma worker_reload_eq ids ms w fs t kept rest t' ctxs' :
  recv_fds ms (wfds w) = Ok (fs, t) → fs ≠ [] → dispose (listener_contexts w) fs t = (kept, rest, t') →
  assign_ids ids 0 (-1) fs (kept ++ ((λ f, ListenerCtx (fd f) (master_fd f) 0) <$> rest)) = Ok ctxs' →
  worker_reload ids ms w = Ok (Worker ctxs' t').
Proof.
  intros E1 Hne E2 E3. unfold worker_reload. rewrite E1. cbn [mbind result_bind].
  destruct fs; [done|]. rewrite E2. by rewrite E3.
Qed.

(** The listeners for the descriptors received: those kept and the new ones. *)
Lemma worker_contexts t ss w :
  (∀ s, s ∈ ss → is_Some (t !! s)) → NoDup ss → ss ≠ [] → NoDup (ctx_fd <$> listener_contexts w) →
  (∀ c, c ∈ listener_contexts w → is_Some (wfds w !! ctx_fd c) ∧
     (ctx_master_fd c ∈ ss → wfds w !! ctx_fd c = t !! ctx_master_fd c)) →
  ∃ fs wt kept rest t', recv_fds (send_fds t ss).1 (wfds w) = Ok (fs, wt) ∧
    dispose (listener_contexts w) fs wt = (kept, rest, t') ∧ master_fd <$> fs = ss ∧
    let ctxs := kept ++ ((λ f, ListenerCtx (fd f) (master_fd f) 0) <$> rest) in
    NoDup (ctx_fd <$> ctxs) ∧ ctx_master_fd <$> ctxs ≡ₚ ss ∧ serving (λ s, t !! s) ctxs t'.
Proof.
  intros Ho Hnd Hne Hcn Hc.
  destruct (send_recv t (length ss) ss (wfds w) [] Ho Hne ltac:(lia)) as (ms & ns & wt & Es & Er & Ha).
  destruct (arrived_lookup _ _ _ _ _ Ha) as [Hnew Hrest]. destruct Ha as (os & Em & Ln & Dn & Fn & _).
  set (fs := zip_with FdFd ns ss) in *. destruct (master_fds_zip ns ss Ln) as [Emf Efd]. fold fs in Emf, Efd.
  destruct (dispose (listener_contexts w) fs wt) as [[kept rest] t'] eqn:Ed.
  assert (Hst : standing (λ s, t !! s) fs wt).
  { intros f [j (n & s & -> & Hn & Hs)%lookup_zip_with_Some]%list_elem_of_lookup. by eapply Hnew. }
  assert (Hold : ∀ c, c ∈ listener_contexts w → ctx_fd c ∉ ns ∧ wt !! ctx_fd c = wfds w !! ctx_fd c).
  { intros c Hin. destruct (Hc c Hin) as [[x Hx] _].
    assert (Hn : ctx_fd c ∉ ns) by (intros Hn; apply Fn in Hn; congruence). split; [done|by apply Hrest]. }
  assert (Hfds : NoDup ((ctx_fd <$> listener_contexts w) ++ (fd <$> fs))).
  { rewrite Efd. apply list.NoDup_app. split_and!; [done| |done].
    intros n (c & -> & Hin)%list_elem_of_fmap. by apply Hold. }
  destruct (dispose_ok (λ s, t !! s) _ fs wt kept rest t' Ed Hfds) as (P & S1 & S2 & Sub & _); [by rewrite Emf| |done|].
  { intros c Hin Hmf. rewrite Emf in Hmf. rewrite (proj2 (Hold c Hin)). by apply Hc. }
  exists fs, wt, kept, rest, t'. split; [unfold send_fds; by rewrite Es|].
  split; [done|]. split; [done|]. cbv zeta. split_and!.
  - rewrite fmap_app, <- list_fmap_compose. by eapply nodup_sub.
  - rewrite fmap_app, <- list_fmap_compose, <- Emf. exact P.
  - intros c [Hin|(f & -> & Hin)%list_elem_of_fmap]%elem_of_app; [by apply S1|by apply S2].
Qed.

Lemma worker_reload_ok t ss ids w :
  (∀ s, s ∈ ss → is_Some (t !! s)) → NoDup ss → ss ≠ [] → length ids = length ss → NoDup (0 :: ids) →
  NoDup (ctx_fd <$> listener_contexts w) →
  (∀ c, c ∈ listener_contexts w → is_Some (wfds w !! ctx_fd c) ∧
     (ctx_master_fd c ∈ ss → wfds w !! ctx_fd c = t !! ctx_master_fd c)) →
  ∃ w', worker_reload ids (send_fds t ss).1 w = Ok w' ∧
    NoDup (ctx_fd <$> listener_contexts w') ∧ ctx_master_fd <$> listener_contexts w' ≡ₚ ss ∧
    serving (λ s, t !! s) (listener_contexts w') (wfds w') ∧
    (∀ j i s c, ids !! j = Some i → ss !! j = Some s → c ∈ listener_contexts w' → ctx_master_fd c = s →
       listener_id c = i).
Proof.
  intros Ho Hnd Hne Hl Hids Hcn Hc.
  destruct (worker_contexts t ss w Ho Hnd Hne Hcn Hc) as (fs & wt & kept & rest & t' & Er & Ed & Emf & N & P & S).
  set (ctxs := kept ++ _) in *.
  assert (Hlf : length fs = length ss) by (by rewrite <- Emf, length_fmap).
  assert (Hgive : assign_ids ids 0 (-1) fs ctxs = Ok ((λ c, foldl give c (zip fs ids)) <$> ctxs)).
  { pose proof (assign_ids_ok fs ids 0 0 ctxs) as H. rewrite drop_0 in H. apply H; [by rewrite P| |simpl; lia|done].
    intros f Hf. rewrite P, <- Emf. by apply list_elem_of_fmap_2. }
  exists (Worker ((λ c, foldl give c (zip fs ids)) <$> ctxs) t'). split_and!.
  - apply (worker_reload_eq ids _ w fs wt kept rest t'); [exact Er| |exact Ed|exact Hgive].
    intros Hf. by rewrite Hf in Emf.
  - simpl. by rewrite (proj1 (foldl_give_fmap _ _)).
  - simpl. by rewrite (proj2 (foldl_give_fmap _ _)).
  - intros c (c0 & -> & Hin)%list_elem_of_fmap. destruct (foldl_give_same (zip fs ids) c0) as [-> ->]. by apply S.
  - intros j i s c Hi Hs (c0 & -> & Hin)%list_elem_of_fmap Hm. rewrite (proj2 (foldl_give_same _ _)) in Hm.
    rewrite <- Emf, list_lookup_fmap in Hs. destruct (fs !! j) as [f|] eqn:Ef; [|done]. injection Hs as <-.
    apply (foldl_give_id _ c0 j f i); [|by rewrite list_fmap_compose, fst_zip, Emf by lia|done].
    apply lookup_zip_with_Some. by exists f, i.
Qed.

(** The listeners of the worker serve the sockets of the master they were made
    for. *)
Definition coherent (m : master) (w : worker) : Prop :=
  NoDup (ctx_fd <$> listener_contexts w) ∧
  ∀ c, c ∈ listener_contexts w → ∃ o,
    wfds w !! ctx_fd c = Some (Some o) ∧ fds m !! ctx_master_fd c = Some (Some o).


(** *** Sockets that are missing *)

Lemma assign_ids_short fs hs : ∀ last k ctxs,
  NoDup (ctx_master_fd <$> ctxs) → (∀ f, f ∈ fs → master_fd f ∈ ctx_master_fd <$> ctxs) →
  (k <= length fs < k + length hs)%nat → NoDup (last :: hs) →
  assign_ids hs last (Z.of_nat k - 1) fs ctxs = Undefined "no descriptor at this index".
Proof.
  induction hs as [|i hs IH]; intros last k ctxs Hnd Hin Hl Hh; [simpl in Hl; lia|].
  apply list.NoDup_cons in Hh as [Hlast Hh]. apply not_elem_of_cons in Hlast as [Hne _].
  cbn [assign_ids]. rewrite (proj2 (Z.eqb_neq _ _) Hne). replace (Z.of_nat k - 1 + 1) with (Z.of_nat k) by lia.
  rewrite (proj2 (Z.leb_le _ _)), Nat2Z.id by lia. destruct (fs !! k) as [f|] eqn:Ef; [|done].
  apply lookup_lt_Some in Ef as Hk.
  rewrite set_first_ok; [|done|by apply Hin; eapply list_elem_of_lookup_2]. cbn [mbind result_bind].
  set (ctxs' := (λ c, if ctx_master_fd c =? master_fd f then _ else c) <$> ctxs).
  assert (Em : ctx_master_fd <$> ctxs' = ctx_master_fd <$> ctxs).
  { unfold ctxs'. rewrite <- list_fmap_compose. apply list_fmap_ext. intros j c _. simpl. by destruct (_ =? _). }
  replace (Z.of_nat k) with (Z.of_nat (S k) - 1) by lia. apply IH; [by rewrite Em..|simpl in *; lia|done].
Qed.

(** When one of several listeners gets no socket, the worker looks past
    the end of the descriptors it received: it takes one for every row. *)
Theorem reload_missing_socket fuel m m' w :
  master_ok m → coherent m w → NoDup (0 :: (id <$> listeners m)) →
  master_reload fuel m = Ok m' → (0 < length (sockets m') < length (listeners m))%nat → NoDup (sockets m') →
  reload fuel m w = Undefined "no descriptor at this index".
Proof.
  intros Hm [Hcn Hc] Hids E Hl Hnd.
  destruct (master_reload_ok fuel m m' Hm E) as (Hm' & Ho & Hsame & Eids).
  assert (Hss : sockets m' ≠ []) by (intros Hz; rewrite Hz in Hl; simpl in Hl; lia).
  destruct (worker_contexts (fds m') (sockets m') w) as (fs & wt & kept & rest & t' & Er & Ed & Emf & N & P & S);
    [|done|done|done| |].
  { intros s [o ?]%Ho. by eexists. }
  { intros c [o [H1 H2]]%Hc. split; [by eexists|]. intros Hin. rewrite H1. symmetry. by apply Hsame. }
  assert (Hlf : length fs = length (sockets m')) by (by rewrite <- Emf, length_fmap).
  unfold reload. rewrite E. cbn [mbind result_bind]. unfold worker_reload. rewrite Er. cbn [mbind result_bind].
  assert (Ha : assign_ids (id <$> listeners m') 0 (-1) fs
      (kept ++ ((λ f, ListenerCtx (fd f) (master_fd f) 0) <$> rest)) = Undefined "no descriptor at this index").
  { apply (assign_ids_short fs _ 0 0); [by rewrite P| | |by rewrite Eids].
    - intros f Hf. rewrite P, <- Emf. by apply list_elem_of_fmap_2.
    - rewrite Eids, length_fmap. lia. }
  destruct fs as [|f fs]; [by rewrite <- Emf in Hss|]. rewrite Ed. by rewrite Ha.
Qed.

(** *** No listeners *)

Lemma sweep_all m p s : portsocks m !! p = Some s → fds (sweep ∅ m) !! s = None.
Proof.
  simpl. revert p. apply (map_fold_weak_ind (λ r ps, ∀ p, ps !! p = Some s → r !! s = None)).
  - intros p Hp. by rewrite lookup_empty in Hp.
  - intros p s' ps r Hp IH q Hq. rewrite decide_False by apply not_elem_of_empty.
    apply lookup_delete_None. destruct (decide (s' = s)) as [->|Hne]; [by left|right].
    apply lookup_insert_Some in Hq as [[_ ?]|[_ Hq]]; [done|by eapply IH].
Qed.

(** When the last listener is removed the master closes its sockets, but
    the workers keep theirs: they go on serving the removed listeners. *)
Theorem no_listeners_keep_serving fuel m w :
  listeners m = [] →
  ∃ m', reload fuel m w = Ok (m', w) ∧ portsocks m' = ∅ ∧
    ∀ p s, portsocks m !! p = Some s → fds m' !! s = None.
Proof.
  intros El. unfold reload, master_reload. rewrite El. cbn [place_listeners mbind result_bind].
  eexists. split; [by destruct w|]. split.
  - simpl. apply map_empty. intros p. apply map_lookup_filter_None_2. right. intros s _ Hp.
    by apply not_elem_of_empty in Hp.
  - intros p s Hp. by eapply (sweep_all (Master (portsocks m) [] false (fds m) [])).
Qed.

(** *** Addresses *)

Lemma sin_port_of_sockaddr_in f p a : sin_port_of (sockaddr_in f p a) = p mod 2 ^ 16.
Proof. apply (be_val_be_bytes 2). Qed.
Lemma sin_port_of_sockaddr_in6 f p a : sin_port_of (sockaddr_in6 f p a) = p mod 2 ^ 16.
Proof. apply (be_val_be_bytes 2). Qed.

(** Only an IPv4 address without a netmask is listened on as it is
    written.  One that [inet_pton] does not take (printed with its netmask)
    and every IPv6 address become 0.0.0.0: all interfaces, over IPv4. *)
Theorem listening_address fam p a t n q t' :
  (∀ ad, inet_pton AF_INET a = Some ad → length ad = 4%nat) →
  create_listening_socket fam p a t = (Listening n q, t') →
  t' !! n = Some (Some (Sock (match fam, inet_pton AF_INET a with
                              | AF_INET, Some ad => ad
                              | _, _ => [0; 0; 0; 0]
                              end) q)).
Proof.
  intros Hlen. unfold create_listening_socket. destruct (socket (dom t)) as [k|]; [|done].
  set (sa := match fam with AF_INET => _ | _ => _ end).
  assert (E : sin_addr_of sa = match fam, inet_pton AF_INET a with
                               | AF_INET, Some ad => ad | _, _ => [0; 0; 0; 0] end).
  { unfold sa. destruct fam; [|done]. destruct (inet_pton AF_INET a) as [ad|] eqn:Ea; [|done].
    specialize (Hlen ad eq_refl). by destruct ad as [|a0 [|a1 [|a2 [|a3 [|? ?]]]]]. }
  destruct (bind_listen _ _ _); [|done]. intros [= <- <- <-]. rewrite lookup_insert_eq, E. done.
Qed.

(** *** Trying ports *)

Context (bind_any : ∀ t a, bind_listen t a 0 ≠ inr true).

Lemma create_any fam a t : (create_listening_socket fam 0 a t).1 ≠ ListenError true.
Proof.
  unfold create_listening_socket. destruct (socket (dom t)); [|done].
  assert (E : sin_port_of (match fam with
     | AF_INET => sockaddr_in AF_INET_value 0 (default (replicate 4 0) (inet_pton AF_INET a))
     | AF_INET6 => sockaddr_in6 AF_INET_value 0 (default (replicate 16 0) (inet_pton AF_INET6 a)) end) = 0)
    by (destruct fam; [apply sin_port_of_sockaddr_in|apply sin_port_of_sockaddr_in6]).
  rewrite E. destruct (bind_listen _ _ 0) as [|[]] eqn:Eb; [done| |done]. by apply bind_any in Eb.
Qed.

Lemma try_listen_any fuel fam a ps eff t : ∃ r, try_listen (S fuel) fam a ps 0 eff t = Ok r.
Proof.
  cbn [try_listen]. pose proof (create_any fam a t) as H. change (wrap_u 16 0) with 0.
  destruct (create_listening_socket fam 0 a t) as [[n p|[]] t']; [by eexists|done|by eexists].
Qed.

Lemma try_listen_ends fam a ps p eff t : ∃ r, try_listen 3 fam a ps p eff t = Ok r.
Proof.
  remember 2%nat as k eqn:Ek. cbn [try_listen]. subst k.
  destruct (create_listening_socket _ _ _ _) as [[n q|[]] t1]; [by eexists| |by eexists].
  destruct eff as [e|]; [|apply try_listen_any]. destruct (_ && _); [|apply try_listen_any].
  destruct (ps !! e); [by eexists|]. remember 1%nat as k eqn:Ek. cbn [try_listen]. subst k.
  destruct (create_listening_socket _ _ _ _) as [[n q|[]] t2]; [by eexists| |by eexists]. apply try_listen_any.
Qed.

(** If the system finds a port when it is asked for any, a reload of the
    master ends: it asks for at most three ports for each listener. *)
Theorem master_reload_ends m : ∃ m', master_reload 3 m = Ok m'.
Proof.
  unfold master_reload. set (m0 := Master _ [] _ _ _).
  assert (G : ∀ rows m ports, ∃ r, place_listeners 3 rows m ports = Ok r).
  { clear m m0. induction rows as [|l rows IH]; intros m ports; [by eexists|]. cbn [place_listeners].
    destruct (_ =? _)%nat; [by eexists|].
    assert (∃ r, place_listener 3 l m ports = Ok r) as [[m1 ports1] ->]; [|apply IH].
    unfold place_listener. destruct (port l) as [p|]; [|by eexists]. destruct (portsocks m !! p); [by eexists|].
    destruct (try_listen_ends (ip_family (address l)) (pg_inet_net_ntop (address l)) (portsocks m) p
      (effective_port l) (fds m)) as [[[] t] ->]; by eexists. }
  destruct (G (listeners m0) m0 ∅) as [[m1 ports] ->]. by eexists.
Qed.
End System.

(** ** A concrete system

    The lowest unused numbers above all used ones, ports that may not be bound
    (80) and ports that are in use, and a choice of free ports. *)
Module Demo.

Definition next_free (X : gset Z) : Z := 1 + set_fold Z.max 0 X.
Definition demo_socket (X : gset Z) : option Z := Some (next_free X).

Definition in_use (t : fd_table) (p : Z) : bool :=
  existsb (λ x, bool_decide (bound_port <$> x = Some p)) (map_to_list t).*2.

Definition demo_bind (t : fd_table) (_ : list Z) (p : Z) : Z + bool :=
  if p =? 0 then inl (40000 + Z.of_nat (size t))
  else if p =? 80 then inr false
  else if in_use t p then inr true else inl p.

Definition demo_ntop (i : inet) : string := if ip_bits i =? 32 then "127.0.0.1" else "127.0.0.1/8".
Definition demo_pton (f : family) (s : string) : option (list Z) :=
  if String.eqb s "127.0.0.1" then Some [127; 0; 0; 1] else None.

Definition localhost : inet := Inet AF_INET [127; 0; 0; 1] 32.
Definition row (i p : Z) : listener := Listener localhost (Some p) i (Some 0).

Definition demo_reload := reload next_free demo_socket demo_bind demo_ntop demo_pton 3.
Definition start (ls : list listener) : master := Master ∅ [] false ∅ ls.
Definition with_listeners (ls : list listener) (m : master) : master :=
  Master (portsocks m) (sockets m) (port_ready m) (fds m) ls.
Definition no_listeners : worker := Worker [] ∅.

Lemma demo_socket_fresh X n : demo_socket X = Some n → n ∉ X.
Proof. intros [= <-]. apply fresh_max. Qed.
Lemma demo_bind_any t a : demo_bind t a 0 ≠ inr true.
Proof. done. Qed.
End Demo.
Import Demo.

(** A listener that is added after the last one was removed is not
    served: its socket gets the number of the old one, and the worker keeps
    the old socket under the id of the new listener. *)
Theorem stale_listener_after_reuse :
  ∃ m1 w1 m2 m3 w3,
    demo_reload (start [row 1 8080]) no_listeners = Ok (m1, w1) ∧
    demo_reload (with_listeners [] m1) w1 = Ok (m2, w1) ∧
    demo_reload (with_listeners [row 2 9090] m2) w1 = Ok (m3, w3) ∧
    fds m3 = {[1 := Some (Sock [127; 0; 0; 1] 9090)]} ∧
    listener_contexts w3 = [ListenerCtx 1 1 2] ∧ wfds w3 = {[1 := Some (Sock [127; 0; 0; 1] 8080)]}.
Proof.
  do 5 eexists. split; [vm_compute; reflexivity|]. split; [vm_compute; reflexivity|].
  split; [vm_compute; reflexivity|]. vm_compute. done.
Qed.

(** Two rows with one port share a socket, whatever their addresses are, and
    only one of the two listeners has an id. *)
Lemma same_port_shares_socket :
  ∃ m w, demo_reload (start [row 1 8080; row 2 8080]) no_listeners = Ok (m, w) ∧
    sockets m = [1; 1] ∧ listener_id <$> listener_contexts w = [2; 0].
Proof. do 2 eexists. split; [vm_compute; reflexivity|]. vm_compute. done. Qed.

(** Without a reload, the list of sockets is empty all the same. *)
Lemma no_reload_clears_sockets m : sockets (master_no_reload m) = [].
Proof. done. Qed.

Lemma fds_roundtrip_witness :
  ∃ ms ns wt', send_fds {[7 := Some (Sock [127; 0; 0; 1] 80)]} [7] = (ms, 0) ∧
    recv_fds next_free ms ∅ = Ok (zip_with FdFd ns [7], wt') ∧ length ns = 1%nat.
Proof.
  destruct (fds_roundtrip next_free fresh_max {[7 := Some (Sock [127; 0; 0; 1] 80)]} [7] ∅)
    as (ms & ns & wt' & E1 & E2 & L & _).
  - intros n ->%list_elem_of_singleton. by eexists.
  - exists ms, ns, wt'. split; [exact E1|]. split; [exact E2|exact L].
Defined.


Lemma reload_missing_socket_witness :
  demo_reload (start [row 1 80; row 2 8080]) no_listeners = Undefined "no descriptor at this index".
Proof.
  apply (reload_missing_socket next_free demo_socket demo_bind demo_ntop demo_pton fresh_max demo_socket_fresh
    3 (start [row 1 80; row 2 8080])
    (default (start []) (match master_reload demo_socket demo_bind demo_ntop demo_pton 3
                           (start [row 1 80; row 2 8080]) with Ok m => Some m | _ => None end)) no_listeners).
  - intros p s Hp. simpl in Hp. by rewrite lookup_empty in Hp.
  - split; [apply NoDup_nil_2|by intros c ?%not_elem_of_nil].
  - refine (bool_decide_unpack _ _). vm_compute. exact I.
  - vm_compute. reflexivity.
  - refine (bool_decide_unpack _ _). vm_compute. exact I.
  - refine (bool_decide_unpack _ _). vm_compute. exact I.
Defined.

Lemma no_listeners_keep_serving_witness :
  ∃ m', demo_reload (Master {[8080 := 1]} [1] true {[1 := Some (Sock [127; 0; 0; 1] 8080)]} [])
          (Worker [ListenerCtx 5 1 1] {[5 := Some (Sock [127; 0; 0; 1] 8080)]})
        = Ok (m', Worker [ListenerCtx 5 1 1] {[5 := Some (Sock [127; 0; 0; 1] 8080)]}) ∧ fds m' !! 1 = None.
Proof.
  destruct (no_listeners_keep_serving next_free demo_socket demo_bind demo_ntop demo_pton 3
    (Master {[8080 := 1]} [1] true {[1 := Some (Sock [127; 0; 0; 1] 8080)]} [])
    (Worker [ListenerCtx 5 1 1] {[5 := Some (Sock [127; 0; 0; 1] 8080)]}) eq_refl) as (m' & E & _ & H).
  exists m'. split; [exact E|]. apply (H 8080). reflexivity.
Defined.

Lemma listening_address_witness :
  (create_listening_socket demo_socket demo_bind demo_pton AF_INET6 8080 "::1" ∅).2 !! 1
  = Some (Some (Sock [0; 0; 0; 0] 8080)).
Proof.
  apply (listening_address demo_socket demo_bind demo_pton AF_INET6 8080 "::1" ∅ 1 8080).
  - intros ad. vm_compute. done.
  - vm_compute. reflexivity.
Defined.

Lemma master_reload_ends_witness :
  ∃ m', master_reload demo_socket demo_bind demo_ntop demo_pton 3 (start [row 1 8080]) = Ok m'.
Proof. exact (master_reload_ends demo_socket demo_bind demo_ntop demo_pton demo_bind_any (start [row 1 8080])). Defined.

End Httpd.
