(* ===== verification/Router.v ===== *)
(** * Routing and answering of HTTP requests: [omni_httpd/http_worker.c]

    For every request an HTTP worker collects the routes of all router tables
    ([prepare_routers]), sorts them by priority, calls the procedures of those
    that match ([handler]), and turns the outcome of the last into a message
    for the event loop.  URL patterns are matched through a cache
    (urlpattern.cpp).

    A cell of a table is a [datum] tagged with its kind: reading it as another
    kind, an index outside an array, or an array whose memory context was
    reset is undefined behaviour.  The catalog, the plans, the procedures and
    the database they act on are parameters. *)

From Stdlib Require Import ZArith Lia.
From stdpp Require Import base tactics list gmap numbers strings sorting sets pretty.
From S2P Require Import Prelude.

Local Open Scope Z_scope.

Module Router.

Abbreviation bytes := (list Z).

Definition InvalidOid : Z := 0.
Definition OidIsValid (o : Z) : bool := negb (o =? InvalidOid).
Definition INT4OID : Z := 23.
Definition REGPROCEDUREOID : Z := 2202.
Definition RECORDOID : Z := 2249.

(** ** URL patterns: [urlpattern.h] *)

Record omni_httpd_urlpattern_t := Urlpattern {
  protocol : option bytes;
  username : option bytes;
  password : option bytes;
  hostname : option bytes;
  port : Z;
  pathname : option bytes;
  search : option bytes;
  hash : option bytes
}.

(** A value of the type [omni_httpd.urlpattern]. *)
Record urlpattern_tuple := UrlpatternTuple {
  up_protocol : option bytes;
  up_username : option bytes;
  up_password : option bytes;
  up_hostname : option bytes;
  up_port : option Z;
  up_pathname : option bytes;
  up_search : option bytes;
  up_hash : option bytes;
  up_method : option Z
}.

(** ** Cells of query results *)

Inductive datum :=
  | UrlpatternD (u : urlpattern_tuple)
  | OidD (o : Z)
  | Int4D (z : Z)
  | TupleD (t : Z)
  | OtherD.

Record spi_tuptable := Tuptable { tupdesc : list Z; vals : list (list (option datum)) }.

(** Columns are numbered from one; a column that does not exist is NULL and
    has no type. *)
Definition SPI_getbinval (row : list (option datum)) (n : Z) : option datum :=
  if n <=? 0 then None else mjoin (row !! Z.to_nat (n - 1)).

Definition SPI_gettypeid (d : list Z) (n : Z) : Z :=
  if n <=? 0 then InvalidOid else default InvalidOid (d !! Z.to_nat (n - 1)).

Definition DatumGetObjectId (d : datum) : result Z :=
  match d with OidD o => Ok o | _ => Undefined "datum of another type" end.
Definition DatumGetInt32 (d : datum) : result Z :=
  match d with Int4D z => Ok z | _ => Undefined "datum of another type" end.
Definition DatumGetHeapTupleHeader (d : datum) : result urlpattern_tuple :=
  match d with UrlpatternD u => Ok u | _ => Undefined "datum of another type" end.
Definition DatumGetTuple (d : datum) : result Z :=
  match d with TupleD t => Ok t | _ => Undefined "datum of another type" end.

(** ** Procedures *)

(** The modes ['i'], ['o'], ['b'], ['v'] and ['t'] of an argument. *)
Inductive argmode := ModeIn | ModeOut | ModeInOut | ModeVariadic | ModeTable.
#[export] Instance argmode_eq_dec : EqDecision argmode.
Proof. solve_decision. Defined.

(** A row of [pg_proc], with what [get_func_arg_info] makes of its arguments;
    without modes all arguments are input arguments. *)
Record Form_pg_proc := PgProc {
  proc_oid : Z;
  prorettype : Z;
  prokind_procedure : bool;
  pronargs : nat;
  allargtypes : list Z;
  allargmodes : option (list argmode)
}.

(** ** Routers and routes *)

Record Router := MkRouter {
  oid : Z;
  match_index : Z;
  handler_index : Z;
  handler_column_name : option string;
  priority_index : Z
}.

Record Route := MkRoute {
  router : nat;                       (* index in [routers] *)
  match_ : omni_httpd_urlpattern_t;
  method : Z;
  priority : Z;
  tuple_index : Z;
  http_outcome_index : Z;
  http_request_index : Z;
  listener_index : Z;
  handler_ : bool;
  returns_outcome : bool;
  tuple : option Z;                   (* [None]: not initialized *)
  proc : Form_pg_proc;
  role : Z
}.

Definition RouteCompare (r1 r2 : Route) : Z :=
  let ia := priority r1 in
  let ib := priority r2 in
  Z.b2z (ib >? ia) - Z.b2z (ib <? ia).

(** A row of [omni_httpd.available_routers]. *)
Record router_row := RouterRow {
  router_relation : option Z;
  match_col_idx : option Z;
  handler_col_idx : option Z;
  priority_col_idx : option Z;
  handler_col_name : option string
}.

(** The static variables.  The arrays are in [RouterMemoryContext]: they were
    allocated in its life [arrays_life], it is now in its life
    [context_life].  A plan is the query it was prepared from, [None] when it
    was not. *)
Record worker := Worker {
  routerqueryhash : gmap Z (option string);
  routers : option (list Router);
  routes : option (list Route);
  context_life : nat;
  arrays_life : nat
}.

Definition NumRouters (w : worker) : nat := length (default [] (routers w)).
Definition NumRoutes (w : worker) : nat := length (default [] (routes w)).

Definition set_hash (f : gmap Z (option string) → gmap Z (option string)) (w : worker) : worker :=
  Worker (f (routerqueryhash w)) (routers w) (routes w) (context_life w) (arrays_life w).
Definition set_routers (x : option (list Router)) (w : worker) : worker :=
  Worker (routerqueryhash w) x (routes w) (context_life w) (arrays_life w).
Definition set_routes (x : option (list Route)) (w : worker) : worker :=
  Worker (routerqueryhash w) (routers w) x (context_life w) (arrays_life w).

(** [MemoryContextResetOnly(RouterMemoryContext)]. *)
Definition reset_context (w : worker) : worker :=
  Worker (routerqueryhash w) (routers w) (routes w) (S (context_life w)) (arrays_life w).

(** [routers = MemoryContextAlloc(...)] after the reset of the variables. *)
Definition alloc_routers (w : worker) : worker :=
  Worker (routerqueryhash w) (Some []) (match routers w with Some _ => None | None => routes w end)
    (context_life w) (context_life w).

(** [ada::url_pattern_init], without [base_url], which is never set. *)
Record url_pattern_init := PatternInit {
  init_protocol : option bytes; init_username : option bytes; init_password : option bytes;
  init_hostname : option bytes; init_port : option bytes; init_pathname : option bytes;
  init_search : option bytes; init_hash : option bytes
}.
#[export] Instance url_pattern_init_eq_dec : EqDecision url_pattern_init.
Proof. solve_decision. Defined.

Inductive parsed (C : Type) := Parsed (c : C) | ParseError | ParseThrows.
Arguments Parsed {C} c.
Arguments ParseError {C}.
Arguments ParseThrows {C}.

Lemma method_applies (r : Route) (m : Z) :
  OidIsValid (method r) && negb (method r =? m) = false ↔ method r = InvalidOid ∨ method r = m.
Proof.
  unfold OidIsValid. destruct (Z.eqb_spec (method r) InvalidOid), (Z.eqb_spec (method r) m);
    simpl; naive_solver.
Qed.

Section Catalog.
(** PostgreSQL: the types of the extension, the system catalog, plans. *)
Context (urlpattern_oid route_priority_oid http_request_oid http_outcome_oid : Z).
Context (reltype : Z → option Z) (relation_name : Z → option (string * string)).
Context (quote_identifier : string → string).
Context (pg_proc : Z → option Form_pg_proc).
Context (SPI_prepare : string → result (option string)).
Context (execute_select : string → result (option spi_tuptable)).
Context (router_query : result (option (list router_row))).
Context (qsort : list Route → list Route).

(** ** The arguments of a procedure *)

Record arg_indices := ArgIndices {
  ai_tuple : Z; ai_outcome : Z; ai_request : Z; ai_listener : Z;
  ai_handler : bool; ai_returns_outcome : bool
}.

Definition scan_arg (tabtypoid : Z) (ty : Z) (mode : option argmode) (argpos : Z)
    (a : arg_indices) : arg_indices :=
  if ty =? tabtypoid then
    ArgIndices argpos (ai_outcome a) (ai_request a) (ai_listener a) (ai_handler a) (ai_returns_outcome a)
  else if ty =? http_request_oid then
    ArgIndices (ai_tuple a) (ai_outcome a) argpos (ai_listener a) (ai_handler a) (ai_returns_outcome a)
  else if (ty =? http_outcome_oid) && bool_decide (is_Some mode) then
    let inout := bool_decide (mode = Some ModeInOut) in
    ArgIndices (ai_tuple a) (if inout then argpos else ai_outcome a) (ai_request a) (ai_listener a)
      (if inout then false else ai_handler a)
      (if bool_decide (mode ≠ Some ModeIn) then true else ai_returns_outcome a)
  else if ty =? INT4OID then
    ArgIndices (ai_tuple a) (ai_outcome a) (ai_request a) argpos (ai_handler a) (ai_returns_outcome a)
  else a.

Definition not_out (mode : option argmode) : bool := bool_decide (mode ≠ Some ModeOut).

Fixpoint scan_args (tabtypoid : Z) (args : list (Z * option argmode)) (argpos : Z)
    (a : arg_indices) : arg_indices :=
  match args with
  | [] => a
  | (ty, mode) :: args' =>
      scan_args tabtypoid args' (if not_out mode then argpos + 1 else argpos)
        (scan_arg tabtypoid ty mode argpos a)
  end.

(** [get_func_arg_info]: the types with their modes. *)
Definition get_func_arg_info (p : Form_pg_proc) : list (Z * option argmode) :=
  match allargmodes p with
  | None => (λ ty, (ty, None)) <$> allargtypes p
  | Some ms => zip_with (λ ty m, (ty, Some m)) (allargtypes p) ms
  end.

Definition proc_indices (tabtypoid : Z) (p : Form_pg_proc) : arg_indices :=
  scan_args tabtypoid (get_func_arg_info p) 0
    (ArgIndices (-1) (-1) (-1) (-1) true (prorettype p =? http_outcome_oid)).

(** ** One row of a router table *)

Definition heap_match (u : urlpattern_tuple) : omni_httpd_urlpattern_t :=
  Urlpattern (up_protocol u) (up_username u) (up_password u) (up_hostname u)
    (default 0 (up_port u)) (up_pathname u) (up_search u) (up_hash u).

(** The route of a row, if it makes one. *)
Definition fill_route (tabtypoid : Z) (no : nat) (r : Router) (priority_index_is_null : bool)
    (row : list (option datum)) : result (option Route) :=
  match SPI_getbinval row (match_index r + 2), SPI_getbinval row (handler_index r + 2) with
  | Some match_data, Some handler_data =>
      let role_data := SPI_getbinval row 2 in
      h ← DatumGetObjectId handler_data;
      match_tup ← DatumGetHeapTupleHeader match_data;
      role ← match role_data with Some d => DatumGetObjectId d | None => Ok InvalidOid end;
      priority ←
        (if priority_index_is_null then Ok 0
         else match SPI_getbinval row (priority_index r + 2) with
              | Some d => DatumGetInt32 d
              | None => Ok 0
              end);
      match pg_proc h with
      | None => Ok None
      | Some p =>
          let a := proc_indices tabtypoid p in
          tuple ← match SPI_getbinval row 1 with
                  | Some d => t ← DatumGetTuple d; Ok (Some t)
                  | None => Ok None
                  end;
          Ok (Some (MkRoute no (heap_match match_tup) (default InvalidOid (up_method match_tup))
            priority (ai_tuple a) (ai_outcome a) (ai_request a) (ai_listener a) (ai_handler a)
            (ai_returns_outcome a) tuple p role))
      end
  | _, _ => Ok None
  end.

Definition add_route (allocatedRoutes : nat) (r : Route) : M worker unit :=
  w ← get_st;
  if (NumRoutes w <? allocatedRoutes)%nat
  then modify_st (set_routes (Some (default [] (routes w) ++ [r])))
  else undefined "write outside the buffer".

Definition add_row (tabtypoid : Z) (no : nat) (r : Router) (priority_index_is_null : bool)
    (allocatedRoutes : nat) (row : list (option datum)) : M worker unit :=
  o ← lift_r (fill_route tabtypoid no r priority_index_is_null row);
  match o with Some route => add_route allocatedRoutes route | None => mret () end.

(** ** One router table *)

Definition router_sql (oid : Z) (column : option string) : result string :=
  match relation_name oid, column with
  | Some (nsp, rel), Some col =>
      Ok ("select t, handler_role.role, t.* from " +:+ quote_identifier nsp +:+ "." +:+
          quote_identifier rel +:+
          " t left join omni_httpd.handler_role on handler_role.handler = t." +:+
          quote_identifier col)
  | _, _ => Undefined "NULL dereference"
  end.

Definition lookup_plan (r : Router) : M worker (option string) :=
  w ← get_st;
  match routerqueryhash w !! oid r with
  | Some p => mret p
  | None =>
      (* the entry is in the table before its plan is prepared *)
      _ ← modify_st (set_hash (<[oid r := None]>));
      query ← lift_r (router_sql (oid r) (handler_column_name r));
      plan ← lift_r (SPI_prepare query);
      _ ← modify_st (set_hash (<[oid r := plan]>));
      mret plan
  end.

(** Executing no plan is an error code, not an exception. *)
Definition SPI_execute_plan (p : option string) : result (option spi_tuptable) :=
  match p with Some q => execute_select q | None => Ok None end.

Definition columns_fit (r : Router) (d : list Z) : bool :=
  (SPI_gettypeid d (match_index r + 2) =? urlpattern_oid) &&
  (SPI_gettypeid d (handler_index r + 2) =? REGPROCEDUREOID) &&
  negb ((priority_index r >? 0) &&
        negb (SPI_gettypeid d (priority_index r + 2) =? route_priority_oid)).

(** Returns [allocatedRoutes]. *)
Definition add_router (nvals : nat) (allocatedRoutes : nat) (row : router_row) : M worker nat :=
  match router_relation row, match_col_idx row, handler_col_idx row with
  | Some taboid, Some mi, Some hi =>
      let priority_index_is_null := bool_decide (priority_col_idx row = None) in
      let r := MkRouter taboid mi hi (handler_col_name row) (default 0 (priority_col_idx row)) in
      w ← get_st;
      let no := NumRouters w in
      if (nvals <=? no)%nat then undefined "write outside the buffer" else
      match reltype taboid with
      | None => undefined "ReleaseSysCache of an invalid tuple"
      | Some tabtypoid =>
          plan ← lookup_plan r;
          res ← lift_r (SPI_execute_plan plan);
          match res with
          | None =>
              _ ← modify_st (λ w, set_routers (Some (default [] (routers w) ++ [r])) w);
              mret allocatedRoutes
          | Some t =>
              if negb (columns_fit r (tupdesc t)) then mret allocatedRoutes else
              let allocated := (allocatedRoutes + length (vals t))%nat in
              _ ← modify_st (λ w, set_routes (Some (default [] (routes w))) w);
              _ ← for_each (add_row tabtypoid no r priority_index_is_null allocated) (vals t);
              _ ← modify_st (λ w, set_routers (Some (default [] (routers w) ++ [r])) w);
              mret allocated
          end
      end
  | _, _, _ => mret allocatedRoutes
  end.

Fixpoint add_routers (nvals : nat) (allocatedRoutes : nat) (rows : list router_row) : M worker unit :=
  match rows with
  | [] => mret ()
  | row :: rows' => a ← add_router nvals allocatedRoutes row; add_routers nvals a rows'
  end.

(** ** [prepare_routers] *)

Definition prepare_routers : M worker bool :=
  _ ← modify_st reset_context;
  rc ← lift_r router_query;
  match rc with
  | None => mret false
  | Some rows =>
      _ ← modify_st alloc_routers;
      _ ← add_routers (length rows) 0 rows;
      _ ← modify_st (λ w, set_routes (qsort <$> routes w) w);
      mret true
  end.

(** ** What [prepare_routers] is meant to collect

    The routes of all router tables, without arrays, plans and caches. *)

Definition router_of (row : router_row) : option Router :=
  match router_relation row, match_col_idx row, handler_col_idx row with
  | Some taboid, Some mi, Some hi =>
      Some (MkRouter taboid mi hi (handler_col_name row) (default 0 (priority_col_idx row)))
  | _, _, _ => None
  end.

(** What the query over a router table gives, prepared now. *)
Definition router_table (r : Router) : result (option spi_tuptable) :=
  q ← router_sql (oid r) (handler_column_name r); p ← SPI_prepare q; SPI_execute_plan p.

Definition row_route (tabtypoid : Z) (no : nat) (r : Router) (pnull : bool)
    (row : list (option datum)) : option Route :=
  match fill_route tabtypoid no r pnull row with Ok o => o | _ => None end.

Fixpoint collect (no : nat) (rows : list router_row) : list Route :=
  match rows with
  | [] => []
  | row :: rows' =>
      match router_of row with
      | None => collect no rows'
      | Some r =>
          match router_table r with
          | Ok (Some t) =>
              if columns_fit r (tupdesc t)
              then omap (row_route (default InvalidOid (reltype (oid r))) no r
                           (bool_decide (priority_col_idx row = None))) (vals t) ++
                   collect (S no) rows'
              else collect no rows'
          | _ => collect (S no) rows'
          end
      end
  end.

(** PostgreSQL gives cells of the types of the columns; the first is the row
    itself and the second a role. *)
Definition cell_typed (ty : Z) (c : option datum) : Prop :=
  match c with
  | None => True
  | Some d =>
      (ty = urlpattern_oid → ∃ u, d = UrlpatternD u) ∧
      (ty = REGPROCEDUREOID → ∃ o, d = OidD o) ∧
      (ty = route_priority_oid → ∃ z, d = Int4D z)
  end.

Definition table_typed (t : spi_tuptable) : Prop :=
  Forall (λ row, Forall2 cell_typed (tupdesc t) row ∧
    (∃ x, SPI_getbinval row 1 = Some (TupleD x)) ∧
    (∀ d, SPI_getbinval row 2 = Some d → ∃ o, d = OidD o)) (vals t).

(** The plan in the cache, if any, is the one that would be prepared now. *)
Definition plan_current (h : gmap Z (option string)) (r : Router) : Prop :=
  h !! oid r = None ∨
  ∃ q p, router_sql (oid r) (handler_column_name r) = Ok q ∧ SPI_prepare q = Ok p ∧
    h !! oid r = Some p.

(** A router table that exists and can be read. *)
Definition router_ok (row : router_row) : Prop :=
  ∀ r, router_of row = Some r →
    is_Some (reltype (oid r)) ∧ (∀ p, priority_col_idx row = Some p → 0 < p) ∧
    ∃ res, router_table r = Ok res ∧ from_option table_typed True res.

Lemma getbinval_typed t row n d :
  Forall2 cell_typed (tupdesc t) row → SPI_getbinval row n = Some d →
  cell_typed (SPI_gettypeid (tupdesc t) n) (Some d).
Proof.
  intros HF. unfold SPI_getbinval, SPI_gettypeid. destruct (n <=? 0); [done|].
  intros E. destruct (row !! Z.to_nat (n - 1)) as [c|] eqn:El; [|done]. simpl in E. subst c.
  destruct (Forall2_lookup_r _ _ _ _ _ HF El) as (ty & -> & H). done.
Qed.

(** In a table whose columns fit, every row is read at the types of its cells. *)
Lemma fill_route_ok tabtypoid no r pnull t row :
  table_typed t → columns_fit r (tupdesc t) = true → (pnull = false → 0 < priority_index r) →
  row ∈ vals t → ∃ o, fill_route tabtypoid no r pnull row = Ok o.
Proof.
  intros HT Hf Hp Hrow. unfold table_typed in HT. rewrite Forall_forall in HT.
  destruct (HT _ Hrow) as (HF & H1 & H2). unfold columns_fit in Hf.
  apply andb_true_iff in Hf as [[Em%Z.eqb_eq Eh%Z.eqb_eq]%andb_true_iff Ep].
  unfold fill_route.
  destruct (SPI_getbinval row (match_index r + 2)) as [dm|] eqn:Gm; [|by eexists].
  destruct (SPI_getbinval row (handler_index r + 2)) as [dh|] eqn:Gh; [|by eexists].
  destruct (getbinval_typed _ _ _ _ HF Gm) as ([u ->] & _); [done|].
  destruct (getbinval_typed _ _ _ _ HF Gh) as (_ & [o ->] & _); [done|]. simpl.
  destruct (SPI_getbinval row 2) as [dr|]; [destruct (H2 _ eq_refl) as [ro ->]|]; simpl;
  (destruct pnull; [|destruct (SPI_getbinval row (priority_index r + 2)) as [dp|] eqn:Gp]; simpl;
   [|destruct (getbinval_typed _ _ _ _ HF Gp) as (_ & _ & [z ->]);
     [specialize (Hp eq_refl); destruct (SPI_gettypeid _ _ =? route_priority_oid) eqn:E;
      [by apply Z.eqb_eq|by destruct (Z.gtb_spec (priority_index r) 0); [|lia]]|]|]; simpl;
   (destruct (pg_proc o); [|by eexists]; destruct H1 as [x ->]; simpl; by eexists)).
Qed.

(** ** The loops *)

Lemma length_omap_le {A B} (f : A → option B) l : (length (omap f l) <= length l)%nat.
Proof. induction l as [|x l IH]; csimpl; [done|]. destruct (f x); csimpl; lia. Qed.

Lemma add_rows_ok tabtypoid no r pnull allocated rows : ∀ l w,
  (∀ row, row ∈ rows → ∃ o, fill_route tabtypoid no r pnull row = Ok o) →
  routes w = Some l → (length l + length rows <= allocated)%nat →
  for_each (add_row tabtypoid no r pnull allocated) rows w =
    (Ok (), set_routes (Some (l ++ omap (row_route tabtypoid no r pnull) rows)) w).
Proof.
  induction rows as [|row rows IH]; intros l w Hf Hw Hl.
  { simpl. rewrite app_nil_r. destruct w; simpl in *. by subst. }
  destruct (Hf row ltac:(left)) as [o Ho].
  cbn [for_each omap list_omap]. cbn [length] in Hl.
  assert (Hstep : ∀ l', (length l' + length rows <= allocated)%nat →
    for_each (add_row tabtypoid no r pnull allocated) rows (set_routes (Some l') w) =
    (Ok (), set_routes (Some (l' ++ omap (row_route tabtypoid no r pnull) rows)) w)).
  { intros l' Hl'. rewrite (IH l'); [done| |done|done]. intros x Hx. apply Hf. by right. }
  unfold row_route at 1. rewrite Ho. destruct o as [x|].
  - erewrite bind_ok.
    2:{ unfold add_row. erewrite lift_bind by done. unfold add_route. rewrite get_bind.
        unfold NumRoutes. rewrite Hw. simpl. by destruct (Nat.ltb_spec (length l) allocated); [|lia]. }
    rewrite Hstep by (rewrite length_app; simpl; lia). by rewrite <- app_assoc.
  - erewrite bind_ok.
    2:{ unfold add_row. erewrite lift_bind by done. done. }
    rewrite <- (Hstep l) by lia. f_equal. destruct w; simpl in *. by subst.
Qed.

Lemma lookup_plan_ok r w q p :
  plan_current (routerqueryhash w) r →
  router_sql (oid r) (handler_column_name r) = Ok q → SPI_prepare q = Ok p →
  lookup_plan r w = (Ok p, set_hash (<[oid r := p]>) w).
Proof.
  intros Hc Hq Hp. unfold lookup_plan. rewrite get_bind.
  destruct Hc as [->|(q' & p' & Hq' & Hp' & E)].
  - rewrite modify_bind. erewrite lift_bind by done. erewrite lift_bind by done.
    rewrite modify_bind. unfold mret, M_ret, set_hash. simpl. by rewrite insert_insert_eq.
  - rewrite E. simplify_eq. unfold mret, M_ret, set_hash.
    rewrite insert_id by congruence. destruct w; simpl; congruence.
Qed.

(** One router table: its routes are appended. *)
Lemma add_router_ok nvals row r w :
  router_of row = Some r → router_ok row → plan_current (routerqueryhash w) r →
  (NumRouters w < nvals)%nat → is_Some (routers w) →
  ∀ allocated, (NumRoutes w <= allocated)%nat →
  ∃ allocated' h' no' rs',
    add_router nvals allocated row w =
      (Ok allocated', Worker h' (Some no') rs' (context_life w) (arrays_life w)) ∧
    (length (default [] rs') <= allocated')%nat ∧ (length no' <= S (NumRouters w))%nat ∧
    (∀ k, k ≠ oid r → h' !! k = routerqueryhash w !! k) ∧ plan_current h' r ∧
    ∀ rows, default [] (routes w) ++ collect (NumRouters w) (row :: rows) =
            default [] rs' ++ collect (length no') rows.
Proof.
  intros Hr Hok Hc Hn [nr Enr] allocated Ha.
  destruct (Hok r Hr) as ([tabtypoid Ety] & Hp & res & Eres & HT).
  pose proof Hr as Hr'. unfold router_of in Hr'. unfold add_router.
  destruct (router_relation row) as [taboid|]; [|done].
  destruct (match_col_idx row) as [mi|]; [|done]. destruct (handler_col_idx row) as [hi|]; [|done].
  simplify_eq. set (r := MkRouter _ _ _ _ _) in *. rewrite get_bind.
  destruct (Nat.leb_spec nvals (NumRouters w)); [lia|]. change taboid with (oid r). rewrite Ety.
  cbn [collect]. rewrite Hr, Eres, Ety. unfold router_table in Eres.
  destruct (router_sql _ _) as [q| |] eqn:Eq; [|done|done]. simpl in Eres.
  destruct (SPI_prepare q) as [p| |] eqn:Ep; [|done|done]. simpl in Eres.
  rewrite (bind_ok _ _ _ _ _ (lookup_plan_ok _ _ _ _ Hc Eq Ep)).
  rewrite (lift_bind _ _ _ _ Eres). unfold NumRouters, NumRoutes in *. rewrite Enr in *. simpl in *.
  assert (Hh : ∀ k, k ≠ taboid → <[taboid := p]> (routerqueryhash w) !! k = routerqueryhash w !! k)
    by (intros; by rewrite lookup_insert_ne).
  assert (Hcur : plan_current (<[taboid := p]> (routerqueryhash w)) r).
  { right. exists q, p. by rewrite lookup_insert_eq. }
  destruct res as [t|]; simpl in *.
  - destruct (columns_fit r (tupdesc t)) eqn:Ef; simpl.
    + rewrite modify_bind. erewrite bind_ok.
      2:{ apply (add_rows_ok _ _ _ _ _ _ (default [] (routes w))); [|done|lia].
          intros x Hx. eapply fill_route_ok; [done|done| |done]. unfold r. simpl.
          intros Hnull%bool_decide_eq_false. destruct (priority_col_idx row); [|done]. by apply Hp. }
      rewrite modify_bind. unfold mret, M_ret. simpl. rewrite Enr. simpl.
      do 4 eexists. split; [done|]. simpl. rewrite !length_app. simpl.
      split; [apply Nat.add_le_mono; [done|apply length_omap_le]|]. split; [lia|].
      split; [done|]. split; [done|]. intros rows. rewrite Nat.add_1_r. by rewrite <- app_assoc.
    + do 4 eexists. split; [unfold mret, M_ret, set_hash; by rewrite Enr|]. split; [done|].
      split; [lia|]. by split_and!.
  - rewrite modify_bind. unfold mret, M_ret. simpl. rewrite Enr. simpl.
    do 4 eexists. split; [done|]. split; [done|]. rewrite length_app, Nat.add_1_r. simpl. by split_and!.
Qed.

Lemma add_routers_ok nvals rows : ∀ w allocated,
  (∀ row, row ∈ rows → router_ok row) →
  (∀ row r, row ∈ rows → router_of row = Some r → plan_current (routerqueryhash w) r) →
  NoDup (oid <$> omap router_of rows) →
  (NumRouters w + length rows <= nvals)%nat → is_Some (routers w) →
  (NumRoutes w <= allocated)%nat →
  ∃ w', add_routers nvals allocated rows w = (Ok (), w') ∧
    default [] (routes w') = default [] (routes w) ++ collect (NumRouters w) rows ∧
    context_life w' = context_life w ∧ arrays_life w' = arrays_life w ∧
    is_Some (routers w') ∧
    (∀ k, k ∉ oid <$> omap router_of rows → routerqueryhash w' !! k = routerqueryhash w !! k) ∧
    (∀ row r, row ∈ rows → router_of row = Some r → plan_current (routerqueryhash w') r).
Proof.
  induction rows as [|row rows IH]; intros w allocated Hok Hc Hd Hn Hr Ha.
  { exists w. simpl. rewrite app_nil_r. by split_and!. }
  simpl in Hn. cbn [add_routers]. destruct (router_of row) as [r|] eqn:Er.
  - destruct (add_router_ok nvals row r w Er (Hok _ ltac:(left)) (Hc _ _ ltac:(left) Er)
      ltac:(lia) Hr allocated Ha) as (a' & h' & no' & rs' & E & Hl & Hno & Hh & Hcur & Hrs).
    rewrite (bind_ok _ _ _ _ _ E). rewrite Hrs. csimpl in Hd. rewrite Er in Hd. csimpl in Hd.
    apply list.NoDup_cons in Hd as [Hni Hd].
    destruct (IH (Worker h' (Some no') rs' (context_life w) (arrays_life w)) a')
      as (w' & E' & Hw' & Hc' & Ha' & Hi' & Hk' & Hp'); try done.
    + intros x Hx. apply Hok. by right.
    + intros x r' Hx Hr'. unfold plan_current. simpl. rewrite Hh.
      * by apply (Hc x); [right|].
      * intros Eo. apply Hni. rewrite <- Eo. apply list_elem_of_fmap_2.
        apply list_elem_of_omap. eauto.
    + unfold NumRouters. simpl. unfold NumRouters in Hn, Hno. lia.
    + exists w'. split_and!; try done.
      * intros k Hk. csimpl in Hk. rewrite Er in Hk. csimpl in Hk.
        apply not_elem_of_cons in Hk as [Hk1 Hk2]. rewrite Hk' by done. by apply Hh.
      * intros x r' [->|Hx]%elem_of_cons Hr'; [|by apply (Hp' x)]. simplify_eq.
        unfold plan_current. rewrite Hk' by done. done.
  - assert (E : add_router nvals allocated row w = (Ok allocated, w)).
    { unfold add_router. unfold router_of in Er. by repeat case_match. }
    rewrite (bind_ok _ _ _ _ _ E). cbn [collect]. rewrite Er.
    csimpl in Hd. rewrite Er in Hd.
    destruct (IH w allocated) as (w' & E' & Hw' & Hc' & Ha' & Hi' & Hk' & Hp'); try done; [..|lia|].
    + intros x Hx. apply Hok. by right.
    + intros x r' Hx. apply Hc. by right.
    + exists w'. csimpl. rewrite Er. split_and!; try done.
      intros x r' [->|Hx]%elem_of_cons Hr'; [congruence|by apply (Hp' x)].
Qed.

Lemma StronglySorted_weaken {A} (R R' : A → A → Prop) l :
  (∀ a b, R a b → R' a b) → StronglySorted R l → StronglySorted R' l.
Proof.
  intros HR. induction 1 as [|x l _ IH HF]; constructor; [done|].
  eapply Forall_impl; [done|]. intros y. apply HR.
Qed.

(** [qsort] sorts by the comparison it is given; routes of equal priority come
    in no particular order. *)
Class QsortLaws : Prop := {
  qsort_perm : ∀ l, qsort l ≡ₚ l;
  qsort_sorted : ∀ l, StronglySorted (λ a b, RouteCompare a b <= 0) (qsort l)
}.

Lemma RouteCompare_le a b : RouteCompare a b <= 0 ↔ priority b <= priority a.
Proof.
  unfold RouteCompare. destruct (Z.gtb_spec (priority b) (priority a)),
    (Z.ltb_spec (priority b) (priority a)); simpl; lia.
Qed.

(** The arrays of a worker are NULL together, and one that is not lies in the
    memory context. *)
Definition worker_ok (w : worker) : Prop := routers w = None → routes w = None.

(** The router tables exist and can be read, their cells have the types of
    their columns, and the plans in the cache are current. *)
Definition tables_ok (w : worker) (rows : list router_row) : Prop :=
  worker_ok w ∧ router_query = Ok (Some rows) ∧ Forall router_ok rows ∧
  (∀ row r, row ∈ rows → router_of row = Some r → plan_current (routerqueryhash w) r) ∧
  NoDup (oid <$> omap router_of rows).

Lemma prepare_routers_ok `{QsortLaws} w rows :
  tables_ok w rows →
  ∃ w', prepare_routers w = (Ok true, w') ∧ arrays_life w' = context_life w' ∧
    default [] (routes w') ≡ₚ collect 0 rows ∧
    StronglySorted (λ a b, priority b <= priority a) (default [] (routes w')) ∧ tables_ok w' rows.
Proof.
  intros (Hw & Hq & Hok & Hc & Hd). unfold prepare_routers. rewrite modify_bind, (lift_bind _ _ _ _ Hq).
  rewrite modify_bind. rewrite Forall_forall in Hok.
  set (w1 := alloc_routers (reset_context w)).
  assert (E1 : default [] (routes w1) = []).
  { unfold w1. simpl. destruct (routers w) eqn:Er; [done|]. by rewrite (Hw Er). }
  destruct (add_routers_ok (length rows) rows w1 0%nat)
    as (w' & E & Hr & Hl & Ha & Hi & _ & Hp); try done.
  { unfold NumRoutes. by rewrite E1. }
  rewrite (bind_ok _ _ _ _ _ E), modify_bind. eexists. split; [done|]. simpl.
  rewrite Hl, Ha. split; [done|]. rewrite E1 in Hr.
  change (default [] (routes w') = collect 0 rows) in Hr.
  assert (Hs : StronglySorted (λ a b, priority b <= priority a) (qsort (default [] (routes w')))).
  { eapply StronglySorted_weaken; [|apply qsort_sorted]. intros a b Hab. by apply RouteCompare_le. }
  assert (HT : tables_ok (set_routes (qsort <$> routes w') w') rows).
  { split_and!; try done; [|by apply Forall_forall]. intros En. simpl in En. destruct Hi. congruence. }
  destruct (routes w') as [l|]; simpl in *; subst.
  - split_and!; [apply qsort_perm|done|done].
  - rewrite <- Hr. split_and!; [done|constructor|done].
Qed.

(** When the router tables can be read and the plans in the cache are
    current, [prepare_routers] stays within its arrays and leaves the routes
    of all the tables, each row once, in the order of their priorities,
    highest first; so does the next call, whatever routes are left. *)
Theorem prepare_routers_collects `{QsortLaws} w rows :
  tables_ok w rows →
  ∃ w1 w2, prepare_routers w = (Ok true, w1) ∧ prepare_routers w1 = (Ok true, w2) ∧
    Forall (λ w', arrays_life w' = context_life w' ∧ default [] (routes w') ≡ₚ collect 0 rows ∧
      StronglySorted (λ a b, priority b <= priority a) (default [] (routes w'))) [w1; w2].
Proof.
  intros HT. destruct (prepare_routers_ok w rows HT) as (w1 & E1 & L1 & P1 & S1 & HT1).
  destruct (prepare_routers_ok w1 rows HT1) as (w2 & E2 & L2 & P2 & S2 & _).
  exists w1, w2. by repeat ((split; [done|]) || constructor).
Qed.

(** A query for the routers that fails without an exception leaves the arrays
    of the previous request in memory that has been reset. *)
Lemma prepare_routers_stale w :
  router_query = Ok None → (arrays_life w <= context_life w)%nat →
  ∃ w', prepare_routers w = (Ok false, w') ∧ routes w' = routes w ∧ arrays_life w' ≠ context_life w'.
Proof.
  intros Hq Hl. unfold prepare_routers. rewrite modify_bind, (lift_bind _ _ _ _ Hq).
  eexists. split; [done|]. simpl. split; [done|lia].
Qed.

(** A router table whose query could not be prepared once is passed over from
    then on: the entry without a plan stays in the cache. *)
Lemma unprepared_router_ignored r w q e :
  routerqueryhash w !! oid r = None →
  router_sql (oid r) (handler_column_name r) = Ok q → SPI_prepare q = Err e →
  ∃ w', lookup_plan r w = (Err e, w') ∧
    (p ← lookup_plan r; lift_r (SPI_execute_plan p)) w' = (Ok None, w').
Proof.
  intros Hn Hq Hp. unfold lookup_plan. rewrite !get_bind, Hn, modify_bind.
  rewrite (lift_bind _ _ _ _ Hq). unfold mbind, M_bind, lift_r. rewrite Hp. eexists. split; [done|].
  unfold get_st. simpl. by rewrite lookup_insert_eq.
Qed.

(** ** The positions of the arguments *)

Definition is_input (mode : option argmode) : bool :=
  match mode with Some ModeOut | Some ModeTable => false | _ => true end.

Definition input_types (args : list (Z * option argmode)) : list Z :=
  (filter (λ a, is_input a.2 = true) args).*1.

(** An index is unset or points to an input argument of the type [ty]. *)
Definition index_ok (ins : list Z) (ty : Z) (i : Z) : Prop :=
  i = -1 ∨ (0 <= i ∧ ins !! Z.to_nat i = Some ty).

Definition indices_ok (tabtypoid : Z) (ins : list Z) (a : arg_indices) : Prop :=
  index_ok ins tabtypoid (ai_tuple a) ∧ index_ok ins http_request_oid (ai_request a) ∧
  index_ok ins http_outcome_oid (ai_outcome a) ∧ index_ok ins INT4OID (ai_listener a).

(** An output argument of a type that is passed to handlers would be taken for
    the input argument that follows it. *)
Definition output_plain (tabtypoid : Z) (a : Z * option argmode) : Prop :=
  is_input a.2 = false → a.1 ≠ tabtypoid ∧ a.1 ≠ http_request_oid ∧ a.1 ≠ INT4OID.

Lemma index_ok_app ins l ty i : index_ok ins ty i → index_ok (ins ++ l) ty i.
Proof. intros [->|[H1 H2]]; [by left|right]. split; [done|]. by apply lookup_app_l_Some. Qed.

Lemma index_ok_last ins ty : index_ok (ins ++ [ty]) ty (Z.of_nat (length ins)).
Proof. right. split; [lia|]. by rewrite Nat2Z.id, list_lookup_middle. Qed.

Lemma indices_ok_app tabtypoid ins l a : indices_ok tabtypoid ins a → indices_ok tabtypoid (ins ++ l) a.
Proof. unfold indices_ok. intuition auto using index_ok_app. Qed.

(** One argument, at the position after the input arguments before it. *)
Lemma scan_arg_ok tabtypoid ty mode ins a :
  indices_ok tabtypoid ins a → output_plain tabtypoid (ty, mode) →
  indices_ok tabtypoid (ins ++ if is_input mode then [ty] else [])
    (scan_arg tabtypoid ty mode (Z.of_nat (length ins)) a).
Proof.
  intros Ha Hp. apply (indices_ok_app _ _ (if is_input mode then [ty] else [])) in Ha.
  unfold output_plain in Hp. simpl in Hp. destruct Ha as (H1 & H2 & H3 & H4). unfold scan_arg.
  destruct (Z.eqb_spec ty tabtypoid) as [->|N1].
  { destruct (is_input mode); [|by destruct (Hp eq_refl)]. split_and!; try done. apply index_ok_last. }
  destruct (Z.eqb_spec ty http_request_oid) as [->|N2].
  { destruct (is_input mode); [|by destruct (Hp eq_refl) as (_ & ? & _)].
    split_and!; try done. apply index_ok_last. }
  destruct (Z.eqb_spec ty http_outcome_oid) as [->|N3]; simpl; [case_bool_decide as Hm|].
  { split_and!; try done. simpl. case_bool_decide; [subst; apply index_ok_last|done]. }
  all: match goal with |- context [?t =? INT4OID] => destruct (Z.eqb_spec t INT4OID) as [E|] end;
    [|by split_and!].
  all: destruct (is_input mode); [|by destruct (Hp eq_refl) as (_ & _ & ?)].
  all: split_and!; try done; simpl; rewrite <- E; apply index_ok_last.
Qed.

Lemma scan_args_ok tabtypoid args : ∀ ins a,
  Forall (output_plain tabtypoid) args → Forall (λ x, x.2 ≠ Some ModeTable) args →
  indices_ok tabtypoid ins a →
  indices_ok tabtypoid (ins ++ input_types args)
    (scan_args tabtypoid args (Z.of_nat (length ins)) a).
Proof.
  induction args as [|[ty mode] args IH]; intros ins a Hp Ht Ha.
  { simpl. by rewrite app_nil_r. }
  apply Forall_cons_1 in Hp as [Hp1 Hp], Ht as [Ht1 Ht]. simpl in Ht1. cbn [scan_args].
  pose proof (scan_arg_ok _ _ _ _ _ Ha Hp1) as H1. apply IH in H1; [|done|done].
  rewrite <- app_assoc in H1. unfold input_types. rewrite filter_cons. simpl.
  assert (En : not_out mode = is_input mode).
  { unfold not_out. destruct mode as [[]|]; [done..|by destruct Ht1|done]. }
  rewrite En. destruct (is_input mode); simpl in H1; rewrite ?decide_True, ?decide_False by done.
  - by rewrite length_app, Nat2Z.inj_add in H1.
  - by rewrite app_nil_r in H1.
Qed.

(** The columns of a table that is returned, which come last, leave the
    positions alone. *)
Lemma scan_table_args_ok tabtypoid args : ∀ n a ins,
  Forall (output_plain tabtypoid) args → Forall (λ x, x.2 = Some ModeTable) args →
  indices_ok tabtypoid ins a → indices_ok tabtypoid ins (scan_args tabtypoid args n a).
Proof.
  induction args as [|[ty mode] args IH]; intros n a ins Hp Ht Ha; [done|].
  apply Forall_cons_1 in Hp as [Hp1 Hp], Ht as [Ht1 Ht]. simpl in Ht1. subst mode.
  cbn [scan_args]. apply IH; [done|done|]. destruct (Hp1 eq_refl) as (N1 & N2 & N3). simpl in *.
  unfold scan_arg. rewrite (proj2 (Z.eqb_neq _ _) N1), (proj2 (Z.eqb_neq _ _) N2).
  rewrite (proj2 (Z.eqb_neq _ _) N3). case_match; [|done]. destruct Ha as (? & ? & ? & ?).
  by split_and!.
Qed.

(** A procedure as PostgreSQL describes it: the columns of a returned table
    come last, and [pronargs] counts the input arguments. *)
Definition proc_wf (p : Form_pg_proc) : Prop :=
  ∃ a b, get_func_arg_info p = a ++ b ∧ Forall (λ x, x.2 ≠ Some ModeTable) a ∧
    Forall (λ x, x.2 = Some ModeTable) b ∧ pronargs p = length (input_types a) ∧
    (pronargs p <= 100)%nat.

Lemma input_types_table a b : Forall (λ x, x.2 = Some ModeTable) b →
  input_types (a ++ b) = input_types a.
Proof.
  intros Hb. unfold input_types. rewrite filter_app, fmap_app.
  assert (filter (λ x : Z * option argmode, is_input x.2 = true) b = []) as ->; [|by rewrite app_nil_r].
  induction Hb as [|x b Hx _ IH]; [done|]. rewrite filter_cons, decide_False; [done|]. by rewrite Hx.
Qed.

Lemma scan_args_app tabtypoid a b : ∀ n i,
  ∃ n', scan_args tabtypoid (a ++ b) n i = scan_args tabtypoid b n' (scan_args tabtypoid a n i).
Proof. induction a as [|[ty m] a IH]; intros n i; [by eexists|]. apply IH. Qed.

Lemma proc_indices_ok tabtypoid p :
  proc_wf p → Forall (output_plain tabtypoid) (get_func_arg_info p) →
  indices_ok tabtypoid (input_types (get_func_arg_info p)) (proc_indices tabtypoid p).
Proof.
  intros (a & b & E & Ha & Hb & _) Hp. unfold proc_indices. rewrite E in *.
  apply Forall_app in Hp as [Hpa Hpb]. rewrite input_types_table by done.
  match goal with |- context [scan_args _ (a ++ b) ?n ?i] =>
    destruct (scan_args_app tabtypoid a b n i) as [n' ->] end.
  apply scan_table_args_ok; [done|done|].
  apply (scan_args_ok tabtypoid a []); [done|done|]. repeat split; by left.
Qed.

(** ** Matching a URL: [urlpattern.cpp] *)

(** The URL pattern library: parsing a pattern; matching, [None] when it
    throws. *)
Context {compiled : Type} (parse_url_pattern : url_pattern_init → parsed compiled).
Context (url_pattern_match : compiled → bytes → option bool).

Abbreviation pattern_cache := (list (url_pattern_init * compiled)).

Fixpoint cache_find (c : pattern_cache) (p : url_pattern_init) : option compiled :=
  match c with
  | [] => None
  | (p', x) :: c' => if decide (p' = p) then Some x else cache_find c' p
  end.

(** [None] is an exception. *)
Definition matches (pattern : url_pattern_init) (input : bytes) (c : pattern_cache)
    : option bool * pattern_cache :=
  match cache_find c pattern with
  | Some x => (url_pattern_match x input, c)
  | None =>
      match parse_url_pattern pattern with
      | Parsed x => (url_pattern_match x input, (pattern, x) :: c)
      | ParseError => (Some false, c)
      | ParseThrows => (None, c)
      end
  end.

Definition pattern_of (pat : omni_httpd_urlpattern_t) : url_pattern_init :=
  PatternInit (protocol pat) (username pat) (password pat) (hostname pat)
    (if port pat =? 0 then None else Some (str_bytes (pretty (port pat))))
    (pathname pat) (search pat) (hash pat).

Definition match_urlpattern (pat : omni_httpd_urlpattern_t) (input : bytes) (c : pattern_cache)
    : bool * pattern_cache :=
  let '(r, c') := matches (pattern_of pat) input c in (default false r, c').

(** Matching without a cache. *)
Definition url_matches (pat : omni_httpd_urlpattern_t) (input : bytes) : bool :=
  match parse_url_pattern (pattern_of pat) with
  | Parsed x => default false (url_pattern_match x input)
  | _ => false
  end.

Definition cache_ok (c : pattern_cache) : Prop :=
  ∀ p x, cache_find c p = Some x → parse_url_pattern p = Parsed x.

Lemma cache_ok_nil : cache_ok [].
Proof. done. Qed.

(** The cache changes no answer, and stays right. *)
Lemma match_urlpattern_cached pat input c :
  cache_ok c → ∃ c', match_urlpattern pat input c = (url_matches pat input, c') ∧ cache_ok c'.
Proof.
  intros Hc. unfold match_urlpattern, matches, url_matches.
  destruct (cache_find c (pattern_of pat)) as [x|] eqn:E.
  { rewrite (Hc _ _ E). by exists c. }
  destruct (parse_url_pattern (pattern_of pat)) as [x| |] eqn:Ep; [|by exists c..].
  eexists. split; [done|]. intros p y. simpl. case_decide; [|apply Hc]. by intros [= ->]; subst.
Qed.

(** ** The request *)

(** [h2o_req_t]: what the handler reads of it. *)
Record h2o_req_t := H2oReq {
  req_method : bytes;
  req_scheme : bytes;
  req_authority : bytes;
  req_path : bytes;
  req_path_normalized : bytes;
  query_at : option nat;               (* [None]: [SIZE_MAX] *)
  req_entity : bytes;
  req_headers : list (bytes * bytes);
  peer_address : option bytes          (* printed; [None]: not an internet address *)
}.

(** [omni_httpd.http_request] *)
Record http_request := HttpRequest {
  rq_method : Z;
  rq_path : bytes;
  rq_query_string : option bytes;
  rq_body : option bytes;
  rq_headers : list (bytes * bytes)
}.

Definition http_method_names : list bytes :=
  str_bytes <$> ["GET"; "HEAD"; "POST"; "PUT"; "DELETE"; "CONNECT"; "OPTIONS"; "TRACE"; "PATCH"]%string.

(** [strncmp(a, name, n) == 0] for [n] bytes at [a] and a C string. *)
Fixpoint strncmp_eq (a name : bytes) : bool :=
  match a with
  | [] => true
  | x :: a' =>
      match name with
      | [] => x =? 0
      | y :: name' => (x =? y) && ((x =? 0) || strncmp_eq a' name')
      end
  end.

Context (http_method_oids : list Z).

Fixpoint find_method (m : bytes) (names : list bytes) (oids : list Z) : Z :=
  match names, oids with
  | n :: names', o :: oids' => if strncmp_eq m n then o else find_method m names' oids'
  | _, _ => InvalidOid
  end.

Definition method_oid (m : bytes) : Z := find_method m http_method_names http_method_oids.

Definition request_tuple (req : h2o_req_t) (is_websocket_upgrade : bool) : http_request :=
  HttpRequest (method_oid (req_method req)) (req_path_normalized req)
    (q ← query_at req; Some (drop (q + 1) (req_path req)))
    (if is_websocket_upgrade then None else Some (req_entity req))
    ((str_bytes "omnigres-connecting-ip", default (str_bytes "Unknown") (peer_address req)) ::
     req_headers req).

(** The URL the patterns are matched against. *)
Definition request_url (req : h2o_req_t) : bytes :=
  req_scheme req ++ str_bytes "://" ++ req_authority req ++ req_path req.

(** ** Outcomes and calls *)

(** [omni_httpd.http_outcome]: the sum of [http_response], [abort] and
    [http_proxy]. *)
Inductive http_outcome :=
  | Response (status : option Z) (headers : option (list (option (option bytes * option bytes))))
      (body : option bytes)
  | Abort
  | Proxy (url : option bytes) (preserve_host : option bool).

Inductive arg :=
  | ListenerArg (id : Z)
  | RequestArg (r : http_request)
  | OutcomeArg (o : http_outcome)
  | TupleArg (t : Z)
  | UuidArg (u : bytes)
  | TextArg (t : bytes).

(** What a procedure returns: an outcome, a record of which the first column
    matters, a truth value, or something else. *)
Inductive retval :=
  | RetOutcome (o : http_outcome)
  | RetRecord (first : option http_outcome)
  | RetBool (b : bool)
  | RetOther.

(** The database with the procedures, the current user, and
    [worker_should_stop_handling]. *)
Context {db : Type}.
Context (invoke : Z → Z → Z → bool → list (option arg) → db → result (option retval) * bool * db).
Context (commit : db → result db) (abort : db → db).

(** Messages for the event loop.  A byte of a body that was never written is
    [None]. *)
Inductive reply :=
  | SendInline (status : Z) (reason : option string) (headers : list (bytes * bytes))
      (content_length : option Z) (body : list (option Z))
  | QueueAbort
  | QueueProxy (url : bytes) (preserve_host : bool)
  | UpgradeToWebsocket.

Record backend := Backend {
  wk : worker;
  patterns : pattern_cache;
  user_id : Z;
  security_ctx : Z;
  worker_should_stop_handling : bool;
  database : db;
  in_transaction : bool;
  replies : list reply
}.

Definition SECURITY_LOCAL_USERID_CHANGE : Z := 1.

Definition lift_worker {A} (m : M worker A) : M backend A := λ s,
  let '(r, w) := m (wk s) in
  (r, Backend w (patterns s) (user_id s) (security_ctx s) (worker_should_stop_handling s)
        (database s) (in_transaction s) (replies s)).

Definition set_patterns (c : pattern_cache) (s : backend) : backend :=
  Backend (wk s) c (user_id s) (security_ctx s) (worker_should_stop_handling s) (database s)
    (in_transaction s) (replies s).
Definition SetUserIdAndSecContext (u sec : Z) (s : backend) : backend :=
  Backend (wk s) (patterns s) u sec (worker_should_stop_handling s) (database s)
    (in_transaction s) (replies s).
Definition set_stop (b : bool) (s : backend) : backend :=
  Backend (wk s) (patterns s) (user_id s) (security_ctx s) b (database s)
    (in_transaction s) (replies s).
Definition set_database (d : db) (t : bool) (s : backend) : backend :=
  Backend (wk s) (patterns s) (user_id s) (security_ctx s) (worker_should_stop_handling s) d
    t (replies s).
Definition queue (r : reply) (s : backend) : backend :=
  Backend (wk s) (patterns s) (user_id s) (security_ctx s) (worker_should_stop_handling s)
    (database s) (in_transaction s) (replies s ++ [r]).

Definition StartTransactionCommand (s : backend) : backend := set_database (database s) true s.
Definition AbortCurrentTransaction (s : backend) : backend := set_database (abort (database s)) false s.
Definition CommitTransactionCommand : M backend unit := λ s,
  match commit (database s) with
  | Ok d => (Ok (), set_database d false s)
  | Err e => (Err e, s)
  | Undefined w => (Undefined w, s)
  end.

(** A call runs with the current user; [stop_handling()] sets the flag. *)
Definition FunctionCallInvoke (p : Z) (non_atomic : bool) (args : list (option arg))
    : M backend (option retval) := λ s,
  let '(r, stop, d) := invoke (user_id s) (security_ctx s) p non_atomic args (database s) in
  (r, set_stop (worker_should_stop_handling s || stop) (set_database d (in_transaction s) s)).

(** ** Calling a route *)

(** [fcinfo] has room for 100 arguments; the procedure sees the first
    [nargs]. *)
Definition set_arg (i : Z) (v : result (option arg)) (args : list (option arg))
    : result (list (option arg)) :=
  if i <? 0 then Ok args
  else if i <? 100 then (x ← v; Ok (<[Z.to_nat i := x]> args))
  else Undefined "write outside the buffer".

Definition fill_args (listener_id : Z) (req : http_request) (outcome : option http_outcome)
    (r : Route) : result (list (option arg)) :=
  let args := replicate 100 None in
  args ← set_arg (listener_index r) (Ok (Some (ListenerArg listener_id))) args;
  args ← set_arg (http_request_index r) (Ok (Some (RequestArg req))) args;
  args ← set_arg (http_outcome_index r) (Ok (OutcomeArg <$> outcome)) args;
  args ← set_arg (tuple_index r)
           (match tuple r with
            | Some t => Ok (Some (TupleArg t))
            | None => Undefined "uninitialized memory"
            end) args;
  Ok (take (pronargs (proc r)) args).

(** The outcome that a result carries. *)
Definition read_outcome (r : Route) (res : option retval) : result (option http_outcome) :=
  match res with
  | Some v =>
      if negb (returns_outcome r) then Ok None
      else if prorettype (proc r) =? http_outcome_oid then
        match v with RetOutcome o => Ok (Some o) | _ => Undefined "datum of another type" end
      else if prorettype (proc r) =? RECORDOID then
        match v with RetRecord o => Ok o | _ => Undefined "datum of another type" end
      else Ok None
  | None => Ok None
  end.

Definition call_route (listener_id : Z) (req : http_request) (sec : Z) (r : Route)
    (outcome : option http_outcome) : M backend (option http_outcome) :=
  args ← lift_r (fill_args listener_id req outcome r);
  _ ← when (OidIsValid (role r))
        (modify_st (SetUserIdAndSecContext (role r)
           (if prokind_procedure (proc r) then 0 else Z.lor sec SECURITY_LOCAL_USERID_CHANGE)));
  res ← FunctionCallInvoke (proc_oid (proc r)) (prokind_procedure (proc r)) args;
  lift_r (read_outcome r res).

(** ** The loop over the routes *)

Fixpoint route_loop (listener_id : Z) (req : http_request) (url : bytes) (sec : Z)
    (rs : list Route) (handler_invoked : bool) (outcome : option http_outcome)
    : M backend (option http_outcome) :=
  match rs with
  | [] => mret outcome
  | r :: rs' =>
      let continue := route_loop listener_id req url sec rs' handler_invoked outcome in
      if handler_ r && handler_invoked then continue
      else if OidIsValid (method r) && negb (method r =? rq_method req) then continue
      else
        s ← get_st;
        let '(m, c) := match_urlpattern (match_ r) url (patterns s) in
        _ ← modify_st (set_patterns c);
        if negb m then continue
        else
          outcome' ← call_route listener_id req sec r outcome;
          s ← get_st;
          if worker_should_stop_handling s then mret outcome'
          else route_loop listener_id req url sec rs' (handler_ r || handler_invoked) outcome'
  end.

(** Reading the array of routes. *)
Definition get_routes : M backend (list Route) :=
  s ← get_st;
  match routes (wk s) with
  | None => mret []
  | Some l => if (arrays_life (wk s) =? context_life (wk s))%nat then mret l
              else match l with [] => mret [] | _ => undefined "use of freed memory" end
  end.

(** The part of [handler] that serves a request through the routes. *)
Definition serve_routes (listener_id : Z) (req : h2o_req_t) (sec : Z)
    : M backend (option http_outcome) :=
  _ ← lift_worker prepare_routers;
  _ ← modify_st (set_stop false);
  rs ← get_routes;
  route_loop listener_id (request_tuple req false) (request_url req) sec rs false None.

(** ** Sending the outcome *)

(** [http_status_reasons.h] *)
Definition http_status_reasons : list (Z * string) :=
  [(100, "Continue"); (101, "Switching Protocols"); (102, "Processing"); (103, "Early Hints");
   (200, "OK"); (201, "Created"); (202, "Accepted"); (203, "Non-Authoritative Information");
   (204, "No Content"); (205, "Reset Content"); (206, "Partial Content"); (207, "Multi-Status");
   (208, "Already Reported"); (226, "IM Used"); (300, "Multiple Choices");
   (301, "Moved Permanently"); (302, "Found"); (303, "See Other"); (304, "Not Modified");
   (305, "Use Proxy"); (307, "Temporary Redirect"); (308, "Permanent Redirect");
   (400, "Bad Request"); (401, "Unauthorized"); (402, "Payment Required"); (403, "Forbidden");
   (404, "Not Found"); (405, "Method Not Allowed"); (406, "Not Acceptable");
   (407, "Proxy Authentication Required"); (408, "Request Timeout"); (409, "Conflict");
   (410, "Gone"); (411, "Length Required"); (412, "Precondition Failed");
   (413, "Payload Too Large"); (414, "URI Too Long"); (415, "Unsupported Media Type");
   (416, "Range Not Satisfiable"); (417, "Expectation Failed"); (418, "I'm a teapot");
   (421, "Misdirected Request"); (422, "Unprocessable Entity"); (423, "Locked");
   (424, "Failed Dependency"); (425, "Too Early"); (426, "Upgrade Required");
   (428, "Precondition Required"); (429, "Too Many Requests");
   (431, "Request Header Fields Too Large"); (451, "Unavailable For Legal Reasons");
   (500, "Internal Server Error"); (501, "Not Implemented"); (502, "Bad Gateway");
   (503, "Service Unavailable"); (504, "Gateway Timeout"); (505, "HTTP Version Not Supported");
   (506, "Variant Also Negotiates"); (507, "Insufficient Storage"); (508, "Loop Detected");
   (510, "Not Extended"); (511, "Network Authentication Required")]%string.

(** [http_status_reasons[status]]: the array has 512 elements. *)
Definition status_reason (status : Z) : result (option string) :=
  if (0 <=? status) && (status <? 512)
  then Ok (snd <$> head (filter (λ x, x.1 = status) http_status_reasons))
  else Undefined "read outside the array".

Definition tolower (c : Z) : Z := if (65 <=? c) && (c <=? 90) then c + 32 else c.

Definition is_content_length (name : bytes) : bool :=
  (length name =? 14)%nat && bool_decide (tolower <$> name = str_bytes "content-length").

(** [strtoll(s, NULL, 10)] *)
Definition LLONG_MAX : Z := 2 ^ 63 - 1.
Definition LLONG_MIN : Z := - 2 ^ 63.
Definition isspace (c : Z) : bool := (c =? 32) || ((9 <=? c) && (c <=? 13)).

Fixpoint skip_space (s : bytes) : bytes :=
  match s with c :: s' => if isspace c then skip_space s' else s | [] => [] end.

Fixpoint read_digits (s : bytes) (acc : Z) : Z :=
  match s with
  | c :: s' => if (48 <=? c) && (c <=? 57) then read_digits s' (acc * 10 + (c - 48)) else acc
  | [] => acc
  end.

Definition read_sign (s : bytes) : bool * bytes :=
  match s with
  | c :: s' => if c =? 45 then (true, s') else if c =? 43 then (false, s') else (false, s)
  | [] => (false, s)
  end.

Definition strtoll (s : bytes) : Z :=
  let '(neg, s) := read_sign (skip_space s) in
  let v := read_digits s 0 in
  if neg then Z.max LLONG_MIN (- v) else Z.min LLONG_MAX v.

(** [h2o_set_header_by_str] with [overwrite_if_exists]. *)
Fixpoint h2o_set_header_by_str (hs : list (bytes * bytes)) (name value : bytes)
    : list (bytes * bytes) :=
  match hs with
  | [] => [(name, value)]
  | (n, v) :: hs' =>
      if decide (n = name) then (n, value) :: hs' else (n, v) :: h2o_set_header_by_str hs' name value
  end.

(** The headers of the response, with the content length if there was one. *)
Fixpoint response_headers (hs : list (option (option bytes * option bytes)))
    (acc : list (bytes * bytes) * option Z) : list (bytes * bytes) * option Z :=
  match hs with
  | [] => acc
  | Some (Some name, Some value) :: hs' =>
      response_headers hs'
        (if is_content_length name then (acc.1, Some (strtoll value))
         else (h2o_set_header_by_str acc.1 name value, acc.2))
  | _ :: hs' => response_headers hs' acc
  end.

(** [pg_mbcliplen]: how much of a string fits in so many bytes. *)
Context (pg_mbcliplen : bytes → nat → nat).

(** [text_to_cstring_buffer] to a buffer of [n + 1] bytes, and the
    terminator written after it: the first [n] bytes. *)
Definition text_to_cstring_buffer (src : bytes) (n : nat) : list (option Z) :=
  let copied := if (length src <=? n)%nat then length src else pg_mbcliplen src n in
  take n ((Some <$> take copied src) ++ Some 0 :: replicate (n - copied) None).

(** [size_t] compared with [long long]: the comparison is unsigned. *)
Definition body_length (body : bytes) (content_length : option Z) : nat :=
  match content_length with
  | Some cl => if wrap_u 64 cl <? Z.of_nat (length body) then Z.to_nat (wrap_u 64 cl) else length body
  | None => length body
  end.

Definition send_outcome (outcome : option http_outcome) : M backend unit :=
  match outcome with
  | Some (Response status headers body) =>
      let status := match status with Some z => wrap_u 16 z | None => 200 end in
      reason ← lift_r (status_reason status);
      let '(hs, content_length) := response_headers (default [] headers) ([], None) in
      match body with
      | Some b =>
          let body_len := body_length b content_length in
          let body_cstring := text_to_cstring_buffer b body_len in
          _ ← CommitTransactionCommand;
          modify_st (queue (SendInline status reason hs (Some (Z.of_nat body_len)) body_cstring))
      | None =>
          _ ← CommitTransactionCommand;
          modify_st (queue (SendInline status reason hs None []))
      end
  | Some Abort =>
      _ ← CommitTransactionCommand;
      modify_st (queue QueueAbort)
  | Some (Proxy url preserve_host) =>
      match url with
      | None => undefined "NULL dereference"
      | Some u =>
          _ ← CommitTransactionCommand;
          modify_st (queue (QueueProxy u (default true preserve_host)))
      end
  | None =>
      _ ← CommitTransactionCommand;
      reason ← lift_r (status_reason 204);
      modify_st (queue (SendInline 204 reason [] None []))
  end.

(** ** [handler] *)

Context (websocket_handler_oid websocket_on_open_oid websocket_on_close_oid
         websocket_on_message_text_oid websocket_on_message_binary_oid : Z).

(** [handler_message_t]; a request whose connection is gone has no [req]. *)
Inductive handler_message :=
  | HttpMessage (req : option h2o_req_t) (listener_id : Z) (websocket_upgrade : bool) (ws_uuid : bytes)
  | WebsocketOpen (uuid : bytes)
  | WebsocketClose (uuid : bytes)
  | WebsocketMessage (uuid : bytes) (is_text : bool) (message : bytes).

(** [PG_TRY], [PG_CATCH] and what follows. *)
Definition pg_try {A B} (m : M backend A) (catch : pg_error → M backend B) (k : A → M backend B)
    : M backend B := λ s,
  match m s with
  | (Ok a, s') => k a s'
  | (Err e, s') => catch e s'
  | (Undefined w, s') => (Undefined w, s')
  end.

(** The code at [cleanup:]. *)
Definition cleanup (u sec : Z) (succeeded : bool) : M backend unit :=
  _ ← when (negb succeeded) (modify_st AbortCurrentTransaction);
  modify_st (SetUserIdAndSecContext u sec).

Definition internal_server_error : M backend unit :=
  reason ← lift_r (status_reason 500);
  modify_st (queue (SendInline 500 reason [] None (Some <$> str_bytes "Internal server error"))).

Definition websocket_upgrade_allowed (listener_id : Z) (uuid : bytes) (req : h2o_req_t) : M backend bool :=
  res ← FunctionCallInvoke websocket_handler_oid true
          [Some (ListenerArg listener_id); Some (UuidArg uuid); Some (RequestArg (request_tuple req true))];
  match res with
  | None => mret false
  | Some (RetBool b) => mret b
  | Some _ => undefined "datum of another type"
  end.

(** Calls that answer nothing. *)
Definition websocket_event (u sec : Z) (p : Z) (args : list (option arg)) : M backend unit :=
  pg_try (FunctionCallInvoke p true args)
    (λ _, cleanup u sec false)
    (λ _, _ ← CommitTransactionCommand; cleanup u sec true).

Definition handler (msg : handler_message) : M backend unit :=
  match msg with
  | HttpMessage None _ _ _ => mret ()
  | _ =>
      _ ← modify_st StartTransactionCommand;
      s ← get_st;
      let u := user_id s in
      let sec := security_ctx s in
      match msg with
      | HttpMessage None _ _ _ => mret ()
      | HttpMessage (Some req) listener_id true uuid =>
          pg_try (websocket_upgrade_allowed listener_id uuid req)
            (λ _, _ ← internal_server_error; cleanup u sec false)
            (λ allowed,
              _ ← CommitTransactionCommand;
              _ ← modify_st (queue (if allowed : bool then UpgradeToWebsocket else QueueAbort));
              cleanup u sec true)
      | HttpMessage (Some req) listener_id false _ =>
          pg_try (serve_routes listener_id req sec)
            (λ _, _ ← internal_server_error; cleanup u sec false)
            (λ outcome, _ ← send_outcome outcome; cleanup u sec true)
      | WebsocketOpen uuid => websocket_event u sec websocket_on_open_oid [Some (UuidArg uuid)]
      | WebsocketClose uuid => websocket_event u sec websocket_on_close_oid [Some (UuidArg uuid)]
      | WebsocketMessage uuid is_text message =>
          websocket_event u sec
            (if is_text then websocket_on_message_text_oid else websocket_on_message_binary_oid)
            [Some (UuidArg uuid); Some (TextArg message)]
      end
  end.

(** ** What the loop is meant to do

    It calls a part of the routes, in their order, each with the outcome of the
    one before it, until one asks to stop. *)

Fixpoint run_chain (listener_id : Z) (req : http_request) (sec : Z) (rs : list Route)
    (outcome : option http_outcome) : M backend (option http_outcome) :=
  match rs with
  | [] => mret outcome
  | r :: rs' =>
      outcome' ← call_route listener_id req sec r outcome;
      s ← get_st;
      if worker_should_stop_handling s then mret outcome'
      else run_chain listener_id req sec rs' outcome'
  end.

(** A route applies to a request by its method and its pattern. *)
Definition applies (req : http_request) (url : bytes) (r : Route) : Prop :=
  (method r = InvalidOid ∨ method r = rq_method req) ∧ url_matches (match_ r) url = true.
#[local] Instance applies_dec req url r : Decision (applies req url r).
Proof. unfold applies. apply _. Defined.

(** Of the routes that apply, [l] has the ones that are not handlers, and one
    handler of the highest priority if there is any. *)
Record selected (P : Route → Prop) (rs l : list Route) : Prop := Selected {
  selected_sublist : l `sublist_of` rs;
  selected_applies : Forall P l;
  selected_middleware : ∀ r, r ∈ rs → P r → handler_ r = false → r ∈ l;
  selected_one : (length (filter (λ r, handler_ r = true) l) <= 1)%nat;
  selected_best : ∀ r, r ∈ rs → P r → handler_ r = true →
    ∃ h, h ∈ l ∧ handler_ h = true ∧ priority r <= priority h
}.

(** The routes the loop picks, once a handler was called or before. *)
Fixpoint chain (P : Route → Prop) `{∀ r, Decision (P r)} (hi : bool) (rs : list Route) : list Route :=
  match rs with
  | [] => []
  | r :: rs' =>
      if handler_ r && hi then chain P hi rs'
      else if decide (P r) then r :: chain P (handler_ r || hi) rs'
      else chain P hi rs'
  end.

Section Chain.
Context (P : Route → Prop) `{∀ r, Decision (P r)}.

Lemma chain_sublist hi rs : chain P hi rs `sublist_of` rs.
Proof.
  revert hi. induction rs as [|r rs IH]; intros hi; simpl; [done|].
  case_match; [by apply sublist_cons|]. case_decide; [by apply sublist_skip|by apply sublist_cons].
Qed.

Lemma chain_applies hi rs : Forall P (chain P hi rs).
Proof.
  revert hi. induction rs as [|r rs IH]; intros hi; simpl; [done|].
  case_match; [done|]. case_decide; [by constructor|done].
Qed.

Lemma chain_middleware hi rs r : r ∈ rs → P r → handler_ r = false → r ∈ chain P hi rs.
Proof.
  intros Hr HP Hh. revert hi. induction rs as [|x rs IH]; intros hi; [by apply not_elem_of_nil in Hr|].
  simpl. apply elem_of_cons in Hr as [<-|Hr].
  - rewrite Hh. simpl. rewrite decide_True by done. left.
  - case_match; [by apply IH|]. case_decide; [right|]; by apply IH.
Qed.

Lemma chain_no_handler rs : filter (λ r, handler_ r = true) (chain P true rs) = [].
Proof.
  induction rs as [|r rs IH]; simpl; [done|]. destruct (handler_ r) eqn:E; simpl; [done|].
  case_decide; [|done]. by rewrite filter_cons, decide_False by congruence.
Qed.

Lemma chain_one hi rs : (length (filter (λ r, handler_ r = true) (chain P hi rs)) <= 1)%nat.
Proof.
  destruct hi; [rewrite chain_no_handler; simpl; lia|].
  induction rs as [|r rs IH]; simpl; [lia|]. rewrite andb_false_r. case_decide; [|done].
  destruct (handler_ r) eqn:E; rewrite filter_cons.
  - rewrite decide_True by done. simpl. by rewrite chain_no_handler.
  - rewrite decide_False by congruence. done.
Qed.

Lemma chain_best rs r :
  StronglySorted (λ a b, priority b <= priority a) rs → r ∈ rs → P r → handler_ r = true →
  ∃ h, h ∈ chain P false rs ∧ handler_ h = true ∧ priority r <= priority h.
Proof.
  intros Hs Hr HP Hh. induction Hs as [|x rs Hs IH HF]; [by apply not_elem_of_nil in Hr|].
  simpl. rewrite andb_false_r. rewrite Forall_forall in HF.
  assert (Hle : priority r <= priority x).
  { apply elem_of_cons in Hr as [->|Hr]; [lia|by apply HF]. }
  destruct (decide (P x)) as [Px|Px].
  - destruct (handler_ x) eqn:Ex; [exists x; by split; [left|]|]. simpl.
    apply elem_of_cons in Hr as [->|Hr]; [congruence|].
    destruct (IH Hr) as (h & ? & ?). exists h. by split; [right|].
  - apply elem_of_cons in Hr as [->|Hr]; [done|]. by apply IH.
Qed.

Lemma chain_selected rs :
  StronglySorted (λ a b, priority b <= priority a) rs → selected P rs (chain P false rs).
Proof.
  split; auto using chain_sublist, chain_applies, chain_middleware, chain_one, chain_best.
Qed.
End Chain.

(** ** The loop and the chain *)

(** A computation that does not touch the pattern cache. *)
Definition no_patterns {A} (m : M backend A) : Prop :=
  ∀ c s, m (set_patterns c s) = (λ '(r, s'), (r, set_patterns c s')) (m s).

Lemma no_patterns_bind {A B} (m : M backend A) (f : A → M backend B) :
  no_patterns m → (∀ a, no_patterns (f a)) → no_patterns (m ≫= f).
Proof.
  intros Hm Hf c s. unfold mbind, M_bind. rewrite Hm. destruct (m s) as [[a|e|w] s']; [|done|done].
  apply Hf.
Qed.

Lemma call_route_no_patterns lid req sec r o : no_patterns (call_route lid req sec r o).
Proof.
  apply no_patterns_bind; [done|]. intros args.
  apply no_patterns_bind; [intros c s; unfold when; by destruct (OidIsValid _)|]. intros [].
  apply no_patterns_bind; [|done]. intros c s. unfold FunctionCallInvoke. simpl.
  by destruct (invoke _ _ _ _ _ _) as [[x y] z].
Qed.

Lemma run_chain_no_patterns lid req sec rs : ∀ o, no_patterns (run_chain lid req sec rs o).
Proof.
  induction rs as [|r rs IH]; intros o; [done|]. simpl.
  apply no_patterns_bind; [apply call_route_no_patterns|]. intros o' c s. rewrite !get_bind. simpl.
  destruct (worker_should_stop_handling s); [done|apply IH].
Qed.

Lemma set_patterns_twice c c' s : set_patterns c (set_patterns c' s) = set_patterns c s.
Proof. done. Qed.

Lemma set_patterns_id s : set_patterns (patterns s) s = s.
Proof. by destruct s. Qed.

(** The loop calls the chain of the routes that apply. *)
Lemma route_loop_chain lid req url sec rs : ∀ hi o s,
  cache_ok (patterns s) →
  ∃ c', cache_ok c' ∧
    route_loop lid req url sec rs hi o s =
      (λ '(x, s'), (x, set_patterns c' s')) (run_chain lid req sec (chain (applies req url) hi rs) o s).
Proof.
  induction rs as [|r rs IH]; intros hi o s Hc.
  { exists (patterns s). split; [done|]. simpl. unfold mret, M_ret. by rewrite set_patterns_id. }
  cbn [route_loop chain]. destruct (handler_ r && hi) eqn:Eh; [by apply IH|].
  destruct (OidIsValid (method r) && negb (method r =? rq_method req)) eqn:Em.
  { rewrite decide_False; [by apply IH|]. intros [Hm _].
    apply method_applies in Hm. congruence. }
  apply method_applies in Em. rewrite get_bind.
  destruct (match_urlpattern_cached (match_ r) url (patterns s) Hc) as (c1 & -> & Hc1).
  rewrite modify_bind. destruct (url_matches (match_ r) url) eqn:Eu; simpl.
  - rewrite decide_True by done. cbn [run_chain]. unfold mbind, M_bind.
    rewrite call_route_no_patterns. destruct (call_route lid req sec r o s) as [[o'|e|w] s1];
      [|by exists c1..]. unfold get_st. simpl.
    destruct (worker_should_stop_handling s1); [by exists c1|].
    destruct (IH (handler_ r || hi) o' (set_patterns c1 s1)) as (c2 & Hc2 & ->); [done|].
    exists c2. split; [done|]. rewrite run_chain_no_patterns.
    by destruct (run_chain _ _ _ _ _ s1).
  - rewrite decide_False by (intros [_ ?]; congruence).
    destruct (IH hi o (set_patterns c1 s)) as (c2 & Hc2 & ->); [done|].
    exists c2. split; [done|]. rewrite run_chain_no_patterns. by destruct (run_chain _ _ _ _ _ s).
Qed.

Definition set_wk (w : worker) (s : backend) : backend :=
  Backend w (patterns s) (user_id s) (security_ctx s) (worker_should_stop_handling s) (database s)
    (in_transaction s) (replies s).

Lemma serve_routes_chain `{QsortLaws} lid req sec s rows :
  tables_ok (wk s) rows → cache_ok (patterns s) →
  ∃ rs w' c',
    (rs ≡ₚ collect 0 rows ∧ StronglySorted (λ a b, priority b <= priority a) rs) ∧
    tables_ok w' rows ∧ cache_ok c' ∧
    serve_routes lid req sec s =
      (λ '(x, s'), (x, set_patterns c' s'))
        (run_chain lid (request_tuple req false) sec
           (chain (applies (request_tuple req false) (request_url req)) false rs) None
           (set_stop false (set_wk w' s))).
Proof.
  intros HT Hc. destruct (prepare_routers_ok _ _ HT) as (w' & E & El & Hp & Hs & HT').
  set (s1 := set_stop false (set_wk w' s)).
  destruct (route_loop_chain lid (request_tuple req false) (request_url req) sec
    (default [] (routes w')) false None s1) as (c' & Hc' & Er); [done|].
  exists (default [] (routes w')), w', c'. split_and!; try done.
  etrans; [|exact Er]. unfold serve_routes. erewrite bind_ok.
  2:{ unfold lift_worker. rewrite E. done. }
  rewrite modify_bind. erewrite bind_ok; [done|]. unfold get_routes. rewrite get_bind. simpl.
  rewrite El, Nat.eqb_refl. by destruct (routes w').
Qed.

(** C5. For a request, the worker calls, in the order of their priorities, the
    routes that apply and are not handlers and one handler of the highest
    priority among those that apply, each with the outcome of the one before,
    until one stops the handling; which routes apply does not depend on
    the cache of patterns. *)
Theorem serve_routes_refines `{QsortLaws} lid req sec s rows :
  tables_ok (wk s) rows → cache_ok (patterns s) →
  ∃ rs l w' c',
    (rs ≡ₚ collect 0 rows ∧ StronglySorted (λ a b, priority b <= priority a) rs) ∧
    selected (applies (request_tuple req false) (request_url req)) rs l ∧
    tables_ok w' rows ∧ cache_ok c' ∧
    serve_routes lid req sec s =
      (λ '(x, s'), (x, set_patterns c' s'))
        (run_chain lid (request_tuple req false) sec l None (set_stop false (set_wk w' s))).
Proof.
  intros HT Hc. destruct (serve_routes_chain lid req sec s rows HT Hc) as (rs & w' & c' & Hrs & ?).
  exists rs. eexists. exists w', c'. split; [done|]. split; [by apply chain_selected, Hrs|done].
Qed.

(** ** The arguments have the types of the procedure *)

Definition arg_type (tabtypoid : Z) (a : arg) : option Z :=
  match a with
  | ListenerArg _ => Some INT4OID
  | RequestArg _ => Some http_request_oid
  | OutcomeArg _ => Some http_outcome_oid
  | TupleArg _ => Some tabtypoid
  | UuidArg _ | TextArg _ => None
  end.

(** Every argument that is set has the type of its position. *)
Definition args_typed (tabtypoid : Z) (ins : list Z) (args : list (option arg)) : Prop :=
  ∀ j a, args !! j = Some (Some a) → ins !! j = arg_type tabtypoid a.

Lemma set_arg_typed tabtypoid ins ty i v args :
  index_ok ins ty i → (length ins <= 100)%nat → (∀ a, v = Some a → arg_type tabtypoid a = Some ty) →
  args_typed tabtypoid ins args → length args = 100%nat →
  ∃ args', set_arg i (Ok v) args = Ok args' ∧ args_typed tabtypoid ins args' ∧ length args' = 100%nat.
Proof.
  intros Hi Hl Hv Ha Hn. unfold set_arg. destruct Hi as [->|[H0 Hi]]; [by exists args|].
  destruct (Z.ltb_spec i 0); [lia|]. pose proof (lookup_lt_Some _ _ _ Hi).
  destruct (Z.ltb_spec i 100); [|lia]. eexists. split; [done|]. rewrite length_insert. split; [|done].
  intros j a. rewrite list_lookup_insert_Some.
  intros [(<- & E & _)|[_ E]]; [|by apply Ha]. by rewrite (Hv a E).
Qed.

(** A route whose procedure can be called with a row of the type [tabtypoid]. *)
Definition route_ok (tabtypoid : Z) (r : Route) : Prop :=
  proc_wf (proc r) ∧ is_Some (tuple r) ∧ pg_proc (proc_oid (proc r)) = Some (proc r) ∧
  indices_ok tabtypoid (input_types (get_func_arg_info (proc r)))
    (ArgIndices (tuple_index r) (http_outcome_index r) (http_request_index r) (listener_index r)
       (handler_ r) (returns_outcome r)).

Lemma proc_wf_inputs p : proc_wf p →
  length (input_types (get_func_arg_info p)) = pronargs p ∧ (pronargs p <= 100)%nat.
Proof.
  intros (a & b & E & _ & Hb & Hn & Hl). rewrite E, input_types_table by done. done.
Qed.

Lemma fill_args_ok tabtypoid lid req o r :
  route_ok tabtypoid r →
  ∃ args, fill_args lid req o r = Ok args ∧ length args = pronargs (proc r) ∧
    args_typed tabtypoid (input_types (get_func_arg_info (proc r))) args.
Proof.
  intros (Hwf & [t Ht] & _ & H1 & H2 & H3 & H4). simpl in *.
  destruct (proc_wf_inputs _ Hwf) as [Hn Hl]. rewrite <- Hn in Hl.
  set (ins := input_types _) in *. unfold fill_args. rewrite Ht.
  destruct (set_arg_typed tabtypoid ins INT4OID (listener_index r) (Some (ListenerArg lid))
    (replicate 100 None)) as (a1 & -> & T1 & L1); try done; [by intros ? [= <-]| |].
  { intros j a Ha%lookup_replicate. by destruct Ha. }
  simpl. destruct (set_arg_typed tabtypoid ins http_request_oid (http_request_index r)
    (Some (RequestArg req)) a1) as (a2 & -> & T2 & L2); try done; [by intros ? [= <-]|].
  simpl. destruct (set_arg_typed tabtypoid ins http_outcome_oid (http_outcome_index r)
    (OutcomeArg <$> o) a2) as (a3 & -> & T3 & L3); try done.
  { intros a. destruct o; simpl; [|done]. by intros [= <-]. }
  simpl. destruct (set_arg_typed tabtypoid ins tabtypoid (tuple_index r) (Some (TupleArg t)) a3)
    as (a4 & -> & T4 & L4); try done; [by intros ? [= <-]|].
  simpl. eexists. split; [done|]. rewrite length_take. split; [lia|].
  intros j a Hj. apply T4. by eapply lookup_take_Some in Hj as [? _].
Qed.

(** Where a route comes from. *)
Definition comes_from (rows : list router_row) (rt : Router) (r : Route) : Prop :=
  ∃ row t cells no pnull, row ∈ rows ∧ router_of row = Some rt ∧ router_table rt = Ok (Some t) ∧
    cells ∈ vals t ∧ fill_route (default InvalidOid (reltype (oid rt))) no rt pnull cells = Ok (Some r).

Lemma collect_comes_from rows r : ∀ no, r ∈ collect no rows → ∃ rt, comes_from rows rt r.
Proof.
  assert (Hcons : ∀ row rows, (∃ rt, comes_from rows rt r) → ∃ rt, comes_from (row :: rows) rt r).
  { intros row rows' (rt & x & t & cells & no & pn & ? & ?). exists rt, x, t, cells, no, pn.
    by split; [right|]. }
  induction rows as [|row rows IH]; intros no; simpl; [by intros ?%not_elem_of_nil|].
  destruct (router_of row) as [rt|] eqn:Er; [|by eauto].
  destruct (router_table rt) as [[t|]| |] eqn:Et; [|by eauto..].
  destruct (columns_fit rt (tupdesc t)); [|by eauto].
  intros [(cells & Hc & Hf)%list_elem_of_omap|?]%elem_of_app; [|by eauto].
  exists rt, row, t, cells, no, (bool_decide (priority_col_idx row = None)). split_and!; try done; [left|].
  unfold row_route in Hf. case_match; simplify_eq; done.
Qed.

(** The catalog, and the procedures named in the router tables: an output
    argument of a type that is passed to handlers is not allowed. *)
Record handlers_ok (rows : list router_row) : Prop := HandlersOk {
  handlers_oid : ∀ o p, pg_proc o = Some p → proc_oid p = o ∧ proc_wf p;
  handlers_plain : ∀ row rt t cells o p, row ∈ rows → router_of row = Some rt →
    router_table rt = Ok (Some t) → cells ∈ vals t →
    SPI_getbinval cells (handler_index rt + 2) = Some (OidD o) → pg_proc o = Some p →
    Forall (output_plain (default InvalidOid (reltype (oid rt)))) (get_func_arg_info p)
}.

Lemma comes_from_ok rows rt r :
  Forall router_ok rows → handlers_ok rows → comes_from rows rt r →
  route_ok (default InvalidOid (reltype (oid rt))) r.
Proof.
  intros Hok [Hoid Hplain] (row & t & cells & no & pn & Hrow & Er & Et & Hc & Hf).
  rewrite Forall_forall in Hok. destruct (Hok _ Hrow _ Er) as (_ & _ & res & Et' & HT).
  rewrite Et in Et'. simplify_eq. simpl in HT. unfold table_typed in HT. rewrite Forall_forall in HT.
  destruct (HT _ Hc) as (_ & [x Hx] & _). unfold fill_route in Hf. rewrite Hx in Hf.
  destruct (SPI_getbinval cells (match_index rt + 2)) as [dm|]; [|done].
  destruct (SPI_getbinval cells (handler_index rt + 2)) as [dh|] eqn:Eh; [|done].
  destruct dh as [|o| | |]; try done. destruct dm as [u| | | |]; try done. simpl in Hf.
  destruct (match SPI_getbinval cells 2 with Some d => _ | None => _ end) as [ro| |]; [|done|done].
  simpl in Hf. destruct (if pn then _ else _) as [pr| |]; [|done|done]. simpl in Hf.
  destruct (pg_proc o) as [p|] eqn:Ep; [|done]. simplify_eq.
  destruct (Hoid _ _ Ep) as [Ho Hwf]. unfold route_ok. simpl.
  split_and!; [done|by eexists|by rewrite Ho|].
  pose proof (proc_indices_ok _ p Hwf (Hplain _ _ _ _ _ _ Hrow Er Et Hc Eh Ep)) as H.
  by destruct (proc_indices _ p).
Qed.

(** Every argument with which a route is called has the type that the
    procedure declares at its position; the row that is passed is one of the
    route's own table. *)
Theorem route_args_typed w rows r lid req o :
  tables_ok w rows → handlers_ok rows → r ∈ collect 0 rows →
  ∃ rt args, comes_from rows rt r ∧ fill_args lid req o r = Ok args ∧
    length args = pronargs (proc r) ∧
    args_typed (default InvalidOid (reltype (oid rt))) (input_types (get_func_arg_info (proc r))) args.
Proof.
  intros (_ & _ & Hok & _) Hh (rt & Hrt)%collect_comes_from.
  destruct (fill_args_ok _ lid req o r (comes_from_ok _ _ _ Hok Hh Hrt)) as (args & ?).
  by exists rt, args.
Qed.

(** ** Every request is answered once *)

(** An outcome that can be sent: a status within the table of reasons, a proxy
    with a URL. *)
Definition outcome_ok (o : http_outcome) : Prop :=
  match o with
  | Response (Some z) _ _ => 0 <= z < 512
  | Proxy url _ => is_Some url
  | _ => True
  end.

(** PostgreSQL: a procedure returns a value of its type. *)
Definition ret_typed (p : Form_pg_proc) (v : retval) : Prop :=
  (prorettype p = http_outcome_oid → ∃ x, v = RetOutcome x ∧ outcome_ok x) ∧
  (prorettype p = RECORDOID → ∃ x, v = RetRecord x ∧ from_option outcome_ok True x).

Definition returns_typed : Prop := ∀ u sec o p na args d,
  pg_proc o = Some p →
  match (invoke u sec o na args d).1.1 with
  | Ok (Some v) => ret_typed p v
  | Undefined _ => False
  | _ => True
  end.

(** A computation that is never undefined, sends nothing and stays in its
    transaction. *)
Definition quiet {A} (Q : A → Prop) (m : M backend A) : Prop := ∀ s,
  safe Q (m s).1 ∧ replies (m s).2 = replies s ∧ in_transaction (m s).2 = in_transaction s.

Lemma quiet_bind {A B} (Q : A → Prop) (R : B → Prop) (m : M backend A) (f : A → M backend B) :
  quiet Q m → (∀ a, Q a → quiet R (f a)) → quiet R (m ≫= f).
Proof.
  intros Hm Hf s. specialize (Hm s). unfold mbind, M_bind.
  destruct (m s) as [[a|e|w] s']; simpl in *; destruct Hm as (Ha & Hr & Ht); [|done|done].
  destruct (Hf a Ha s') as (? & -> & ->). done.
Qed.

Lemma quiet_lift {A} (Q : A → Prop) (r : result A) : safe Q r → quiet Q (lift_r r).
Proof. by intros ? s. Qed.

Lemma invoke_quiet r : returns_typed → pg_proc (proc_oid (proc r)) = Some (proc r) →
  ∀ na args, quiet (from_option (ret_typed (proc r)) True)
    (FunctionCallInvoke (proc_oid (proc r)) na args).
Proof.
  intros Hi Hp na args s. unfold FunctionCallInvoke.
  pose proof (Hi (user_id s) (security_ctx s) _ _ na args (database s) Hp) as H.
  destruct (invoke _ _ _ _ _ _) as [[[[v|]|e|w] stop] d]; simpl in *; done.
Qed.

Lemma read_outcome_ok r v :
  from_option (ret_typed (proc r)) True v → safe (from_option outcome_ok True) (read_outcome r v).
Proof.
  unfold read_outcome. destruct v as [v|]; simpl; [|done]. intros [H1 H2].
  destruct (negb (returns_outcome r)); [done|].
  destruct (Z.eqb_spec (prorettype (proc r)) http_outcome_oid) as [E|_].
  { by destruct (H1 E) as (x & -> & Hx). }
  destruct (Z.eqb_spec (prorettype (proc r)) RECORDOID) as [E|_]; [|done].
  by destruct (H2 E) as (x & -> & Hx).
Qed.

Lemma call_route_quiet tabtypoid lid req sec r o :
  returns_typed → route_ok tabtypoid r →
  quiet (from_option outcome_ok True) (call_route lid req sec r o).
Proof.
  intros Hi Hr. destruct (fill_args_ok _ lid req o r Hr) as (args & E & _).
  unfold call_route. apply (quiet_bind (λ _, True)); [apply quiet_lift; by rewrite E|]. intros a _.
  apply (quiet_bind (λ _, True)); [intros s; unfold when; by destruct (OidIsValid _)|]. intros [] _.
  eapply quiet_bind; [apply invoke_quiet; [done|apply Hr]|]. intros v Hv.
  by apply quiet_lift, read_outcome_ok.
Qed.

Lemma run_chain_quiet lid req sec l : returns_typed →
  Forall (λ r, ∃ tabtypoid, route_ok tabtypoid r) l → ∀ o, from_option outcome_ok True o →
  quiet (from_option outcome_ok True) (run_chain lid req sec l o).
Proof.
  intros Hi. induction 1 as [|r l [ty Hr] _ IH]; intros o Ho; [by intros s|]. simpl.
  eapply quiet_bind; [by eapply call_route_quiet|]. intros o' Ho' s. rewrite get_bind.
  destruct (worker_should_stop_handling s); [done|by apply IH].
Qed.

Lemma serve_routes_quiet `{QsortLaws} lid req sec s rows :
  tables_ok (wk s) rows → handlers_ok rows → returns_typed → cache_ok (patterns s) →
  let '(x, s') := serve_routes lid req sec s in
  safe (from_option outcome_ok True) x ∧ replies s' = replies s ∧ in_transaction s' = in_transaction s.
Proof.
  intros HT Hh Hi Hc. destruct (serve_routes_chain lid req sec s rows HT Hc)
    as (rs & w' & c' & [Hp _] & _ & _ & ->).
  assert (Hl : Forall (λ r, ∃ tabtypoid, route_ok tabtypoid r)
    (chain (applies (request_tuple req false) (request_url req)) false rs)).
  { apply Forall_forall. intros r Hr.
    pose proof (elem_of_submseteq _ _ r Hr (sublist_submseteq _ _ (chain_sublist _ _ _))) as Hrs.
    rewrite Hp in Hrs. destruct (collect_comes_from _ _ _ Hrs) as [rt Hrt].
    eexists. by eapply comes_from_ok; [apply HT|..]. }
  destruct (run_chain_quiet lid (request_tuple req false) sec _ Hi Hl None I
    (set_stop false (set_wk w' s))) as (H1 & H2 & H3).
  destruct (run_chain _ _ _ _ _ _) as [x s']. by split_and!.
Qed.

(** The answer to an outcome. *)
Definition answers (o : option http_outcome) (r : reply) : Prop :=
  match o with
  | Some (Response status _ _) => ∃ reason hs n b, r = SendInline (default 200 status) reason hs n b
  | Some Abort => r = QueueAbort
  | Some (Proxy url p) => ∃ u, url = Some u ∧ r = QueueProxy u (default true p)
  | None => ∃ reason, r = SendInline 204 reason [] None []
  end.

Definition is_internal_error (r : reply) : Prop :=
  ∃ reason, r = SendInline 500 reason [] None (Some <$> str_bytes "Internal server error").

Lemma commit_bind {A} (k : unit → M backend A) s d :
  commit (database s) = Ok d → (CommitTransactionCommand ≫= k) s = k () (set_database d false s).
Proof. intros E. unfold CommitTransactionCommand, mbind, M_bind. by rewrite E. Qed.

Definition status_of (st : option Z) : Z := match st with Some z => wrap_u 16 z | None => 200 end.

Lemma status_reason_ok st hs b :
  outcome_ok (Response st hs b) →
  status_of st = default 200 st ∧ ∃ x, status_reason (status_of st) = Ok x.
Proof.
  intros Ho. unfold status_of. destruct st as [z|]; simpl in *; [|by split; [|eexists]].
  rewrite wrap_u_id by (unfold in_u; lia). split; [done|]. unfold status_reason.
  destruct (Z.leb_spec 0 z), (Z.ltb_spec z 512); simpl; try lia. by eexists.
Qed.

Lemma send_outcome_ok o s d :
  from_option outcome_ok True o → commit (database s) = Ok d →
  ∃ r, answers o r ∧ send_outcome o s = (Ok (), queue r (set_database d false s)).
Proof.
  intros Ho Hd. unfold send_outcome. destruct o as [[st hs b| |url ph]|].
  - destruct (status_reason_ok st hs b Ho) as (E & x & Hx). fold (status_of st).
    rewrite E in *. rewrite (lift_bind _ _ _ _ Hx).
    destruct (response_headers _ _) as [h cl]. destruct b as [b|]; rewrite (commit_bind _ _ _ Hd);
      (eexists; split; [|done]; simpl; by do 4 eexists).
  - rewrite (commit_bind _ _ _ Hd). by eexists.
  - destruct Ho as [u ->]. rewrite (commit_bind _ _ _ Hd). eexists. split; [|done]. by exists u.
  - rewrite (commit_bind _ _ _ Hd). eexists. split; [|done]. by eexists.
Qed.


(** ** The body of a response *)

Lemma read_digits_nonneg s : ∀ acc, 0 <= acc → 0 <= read_digits s acc.
Proof.
  induction s as [|c s IH]; intros acc Ha; simpl; [done|].
  destruct (Z.leb_spec 48 c), (Z.leb_spec c 57); simpl; try done. apply IH. lia.
Qed.

Lemma strtoll_in s : in_s 64 (strtoll s).
Proof.
  unfold strtoll, in_s, LLONG_MIN, LLONG_MAX. destruct (read_sign (skip_space s)) as [neg t].
  pose proof (read_digits_nonneg t 0 ltac:(lia)). destruct neg; lia.
Qed.

Lemma response_headers_length_in hs : ∀ acc,
  from_option (in_s 64) True acc.2 → from_option (in_s 64) True (response_headers hs acc).2.
Proof.
  induction hs as [|[[[n|] [v|]]|] hs IH]; intros acc Ha; simpl; auto.
  apply IH. destruct (is_content_length n); simpl; [apply strtoll_in|done].
Qed.

(** How much of the body is sent. *)
Definition sent_length (body : bytes) (content_length : option Z) : Z :=
  match content_length with
  | Some cl => if decide (0 <= cl) then Z.min cl (Z.of_nat (length body)) else Z.of_nat (length body)
  | None => Z.of_nat (length body)
  end.

Lemma body_length_sent body cl :
  Z.of_nat (length body) < 2 ^ 31 → from_option (in_s 64) True cl →
  Z.of_nat (body_length body cl) = sent_length body cl.
Proof.
  intros Hb Hcl. unfold body_length, sent_length. destruct cl as [cl|]; [|done].
  unfold in_s in Hcl. simpl in Hcl. destruct (decide (0 <= cl)).
  - rewrite wrap_u_id by (unfold in_u; lia). destruct (Z.ltb_spec cl (Z.of_nat (length body))); lia.
  - assert (E : wrap_u 64 cl = cl + 2 ^ 64).
    { unfold wrap_u. symmetry. apply (Z.mod_unique_pos _ _ (-1)); lia. }
    rewrite E. destruct (Z.ltb_spec (cl + 2 ^ 64) (Z.of_nat (length body))); lia.
Qed.

Lemma text_to_cstring_buffer_whole b n :
  (n <= length b)%nat → (n < length b → pg_mbcliplen b n = n)%nat →
  text_to_cstring_buffer b n = Some <$> take n b.
Proof.
  intros Hn Hc. unfold text_to_cstring_buffer.
  assert (E : (if (length b <=? n)%nat then length b else pg_mbcliplen b n) = n).
  { destruct (Nat.leb_spec (length b) n); [lia|by apply Hc]. }
  rewrite E. apply take_app_length'. rewrite length_fmap, length_take. lia.
Qed.

(** The body of a response is sent as it is, or its first bytes if a
    header gives a content length smaller than it (a negative one is ignored),
    provided that the cut does not fall inside a character; the length sent
    with it is that of the bytes sent. *)
Theorem response_body_sent st hs b s d :
  outcome_ok (Response st hs (Some b)) → commit (database s) = Ok d →
  Z.of_nat (length b) < 2 ^ 31 →
  let cl := (response_headers (default [] hs) ([], None)).2 in
  let n := sent_length b cl in
  (n < Z.of_nat (length b) → pg_mbcliplen b (Z.to_nat n) = Z.to_nat n) →
  ∃ reason sent,
    send_outcome (Some (Response st hs (Some b))) s =
      (Ok (), queue (SendInline (default 200 st) reason sent (Some n) (Some <$> take (Z.to_nat n) b))
                (set_database d false s)).
Proof.
  intros Ho Hd Hb cl n Hclip.
  destruct (send_outcome_ok (Some (Response st hs (Some b))) s d Ho Hd)
    as (r & (reason & h & n' & body & ->) & E).
  exists reason, h. enough (n' = Some n ∧ body = Some <$> take (Z.to_nat n) b) as [-> ->] by exact E.
  unfold send_outcome in E.
  assert (Hcl : from_option (in_s 64) True cl) by by apply response_headers_length_in.
  pose proof (body_length_sent b cl Hb Hcl) as En. fold n in En.
  destruct (status_reason _) as [x| |]; [|done|done].
  rewrite (lift_bind _ _ x _ eq_refl) in E. unfold cl in En, Hclip.
  destruct (response_headers _ _) as [h' cl'] eqn:Eh. simpl in En.
  rewrite (commit_bind _ _ _ Hd) in E. unfold modify_st in E. injection E as E.
  apply app_inj_tail in E as [_ E]. injection E as _ _ _ <- <-.
  split; [by rewrite En|].
  assert (n <= Z.of_nat (length b)) by (unfold n, sent_length; repeat case_match; lia).
  rewrite <- En, Nat2Z.id. apply text_to_cstring_buffer_whole; [lia|]. intros Hlt.
  rewrite <- En, Nat2Z.id in Hclip. apply Hclip. lia.
Qed.

(** ** Making a response: [omni_httpd.c] *)

Definition headers := (list (option (option bytes * option bytes))).

(** The body by the type of the argument; a [jsonb] is printed. *)
Inductive body_arg :=
  | TextBody (b : bytes)
  | ByteaBody (b : bytes)
  | JsonbBody (printed : bytes)
  | JsonBody (b : bytes)
  | OtherBody.

(** The header goes to the end.  An array without elements has no dimensions
    to read. *)
Definition add_header (hs : option headers) (name value : bytes) : result (option headers) :=
  match hs with
  | None => Ok (Some [Some (Some name, Some value)])
  | Some [] => Undefined "read outside the array"
  | Some l => Ok (Some (l ++ [Some (Some name, Some value)]))
  end.

(** [strncasecmp(name, "content-type", length of name) == 0] *)
Definition names_content_type (name : bytes) : bool :=
  strncmp_eq (tolower <$> name) (str_bytes "content-type").

Definition has_content_type (hs : option headers) : bool :=
  existsb (λ h, match h with Some (Some name, _) => names_content_type name | _ => false end)
    (default [] hs).

Definition http_response (body : option body_arg) (status : option Z) (hs : option headers)
    : result http_outcome :=
  let status := wrap_s 16 (default 200 status) in
  let infer value :=
    if has_content_type hs then Ok hs else add_header hs (str_bytes "content-type") (str_bytes value) in
  match body with
  | None => Ok (Response (Some status) hs None)
  | Some (TextBody b) =>
      hs' ← infer "text/plain; charset=utf-8"%string; Ok (Response (Some status) hs' (Some b))
  | Some (ByteaBody b) =>
      hs' ← infer "application/octet-stream"%string; Ok (Response (Some status) hs' (Some b))
  | Some (JsonbBody b) | Some (JsonBody b) =>
      hs' ← infer "application/json"%string; Ok (Response (Some status) hs' (Some b))
  | Some OtherBody => Err (elog "Can't (yet) cast to bytea")
  end.

Lemma set_header_elem hs name v : (name, v) ∈ h2o_set_header_by_str hs name v.
Proof.
  induction hs as [|[n x] hs IH]; simpl; [left|]. case_decide; [subst; left|by right].
Qed.

Lemma response_headers_app a b : ∀ acc,
  response_headers (a ++ b) acc = response_headers b (response_headers a acc).
Proof. induction a as [|[[[n|] [v|]]|] a IH]; intros acc; simpl; auto. Qed.

Lemma infer_content_type hs v l :
  has_content_type hs = false → hs ≠ Some [] →
  response_headers (default [] hs) ([], None) = (l, None) →
  ∃ hs', add_header hs (str_bytes "content-type") v = Ok (Some hs') ∧
    response_headers hs' ([], None) = (h2o_set_header_by_str l (str_bytes "content-type") v, None).
Proof.
  intros Hh Hn Hl. destruct hs as [[|h hs]|]; simpl in Hn; [done| |].
  - eexists. split; [done|]. rewrite response_headers_app. simpl default in Hl. by rewrite Hl.
  - eexists. split; [done|]. simpl in *. by simplify_eq.
Qed.

(** A response made with a text body, a status and headers that say nothing
    about the type and the length of the content is sent with that status, the
    whole body, its length, and a content type of plain text. *)
Theorem http_response_sent b st hs l s d :
  has_content_type hs = false → hs ≠ Some [] → 0 <= st < 512 →
  response_headers (default [] hs) ([], None) = (l, None) →
  commit (database s) = Ok d → Z.of_nat (length b) < 2 ^ 31 →
  ∃ o reason sent, http_response (Some (TextBody b)) (Some st) hs = Ok o ∧
    (str_bytes "content-type", str_bytes "text/plain; charset=utf-8") ∈ sent ∧
    send_outcome (Some o) s =
      (Ok (), queue (SendInline st reason sent (Some (Z.of_nat (length b))) (Some <$> b))
                (set_database d false s)).
Proof.
  intros Hh Hn Hst Hl Hd Hb. unfold http_response. rewrite Hh.
  destruct (infer_content_type hs (str_bytes "text/plain; charset=utf-8") l Hh Hn Hl) as (hs' & -> & Hr).
  change (default 200 (Some st)) with st. rewrite wrap_s_id by (unfold in_s; lia). simpl.
  destruct (status_reason_ok (Some st) (Some hs') (Some b)) as (Es & x & Hx); [done|].
  do 3 eexists. split; [done|]. split; [apply set_header_elem|]. unfold send_outcome.
  fold (status_of (Some st)). rewrite Es in *. simpl default in *.
  rewrite (lift_bind _ _ _ _ Hx). rewrite Hr, (commit_bind _ _ _ Hd). unfold modify_st. simpl body_length.
  rewrite text_to_cstring_buffer_whole by lia. by rewrite take_ge by lia.
Qed.

(** A header whose name is only the beginning of [content-type] keeps the
    content type from being set. *)
Lemma content_type_prefix_taken b name v :
  names_content_type name = true →
  http_response (Some (TextBody b)) None (Some [Some (Some name, v)]) =
    Ok (Response (Some 200) (Some [Some (Some name, v)]) (Some b)).
Proof. intros E. unfold http_response, has_content_type. simpl. by rewrite E. Qed.

(** An empty array of headers is read outside its bounds. *)
Lemma empty_headers_overrun b st :
  http_response (Some (TextBody b)) st (Some []) = Undefined "read outside the array".
Proof. done. Qed.

(** A body that is cut inside a character (or after a NUL byte) ends in memory
    that was never written. *)
Lemma cut_body_uninitialized b n :
  (n < length b)%nat → (S (pg_mbcliplen b n) < n)%nat →
  text_to_cstring_buffer b n !! (n - 1)%nat = Some None.
Proof.
  intros Hn Hc. unfold text_to_cstring_buffer. destruct (Nat.leb_spec (length b) n); [lia|].
  set (k := pg_mbcliplen b n) in *.
  assert (El : length (Some <$> take k b) = k) by (rewrite length_fmap, length_take; lia).
  rewrite lookup_take_lt by lia. rewrite lookup_app_r by lia. rewrite El.
  rewrite lookup_cons_ne_0 by lia. apply lookup_replicate. split; [done|lia].
Qed.

(** A status from 512 on is looked up past the end of the table. *)
Lemma status_outside_reasons z hs b s :
  512 <= z < 32768 → (send_outcome (Some (Response (Some z) hs b)) s).1 = Undefined "read outside the array".
Proof.
  intros Hz. unfold send_outcome. rewrite wrap_u_id by (unfold in_u; lia).
  assert (E : status_reason z = Undefined "read outside the array").
  { unfold status_reason. destruct (Z.leb_spec 0 z), (Z.ltb_spec z 512); simpl; try done; lia. }
  unfold mbind, M_bind, lift_r. by rewrite E.
Qed.

(** A proxy outcome without a URL. *)
Lemma proxy_without_url p s : (send_outcome (Some (Proxy None p)) s).1 = Undefined "NULL dereference".
Proof. done. Qed.

(** Of two headers with the same name only the second is sent. *)
Lemma repeated_header_lost name v1 v2 : is_content_length name = false →
  response_headers [Some (Some name, Some v1); Some (Some name, Some v2)] ([], None) =
    ([(name, v2)], None).
Proof. intros E. simpl. rewrite E. simpl. by rewrite decide_True. Qed.

(** The role of a route stays in force for the routes after it. *)
Lemma role_stays lid req sec r o s o' s' :
  OidIsValid (role r) = true → call_route lid req sec r o s = (Ok o', s') → user_id s' = role r.
Proof.
  intros Hr. unfold call_route. destruct (fill_args lid req o r) as [args| |]; [|done|done].
  rewrite (lift_bind _ _ args _ eq_refl). rewrite Hr. simpl. rewrite modify_bind.
  unfold mbind, M_bind, FunctionCallInvoke.
  destruct (invoke _ _ _ _ _ _) as [[[v|e|w] stop] d]; [|done|done]. simpl.
  unfold lift_r. by intros [= _ <-].
Qed.

(** An error at the commit leaves the request without an answer. *)
Lemma commit_error_unanswered o s e :
  from_option outcome_ok True o → commit (database s) = Err e →
  send_outcome o s = (Err e, s).
Proof.
  intros Ho He. assert (Hc : ∀ k : unit → M backend unit, (CommitTransactionCommand ≫= k) s = (Err e, s)).
  { intros k. unfold CommitTransactionCommand, mbind, M_bind. by rewrite He. }
  unfold send_outcome. destruct o as [[st hs b| |url ph]|].
  - destruct (status_reason_ok st hs b Ho) as (_ & x & Hx). fold (status_of st).
    rewrite (lift_bind _ _ _ _ Hx). destruct (response_headers _ _) as [h cl].
    destruct b; apply Hc.
  - apply Hc.
  - destruct Ho as [u ->]. apply Hc.
  - apply Hc.
Qed.

End Catalog.

(** ** A worker with one router table

    The table has a handler (procedure 100), a middleware of higher priority
    (101) and a handler of lower priority (102). *)

Module Demo.

Definition reltype (o : Z) : option Z := if o =? 20000 then Some 20001 else None.
Definition relation_name (o : Z) : option (string * string) := Some ("public", "my_router")%string.
Definition prepare (q : string) : result (option string) := Ok (Some q).

Definition pattern : urlpattern_tuple :=
  UrlpatternTuple None None None None None (Some (str_bytes "/")) None None None.

Definition table : spi_tuptable :=
  Tuptable [20001; 4096; 16400; REGPROCEDUREOID; 16401]
    [[Some (TupleD 1); None; Some (UrlpatternD pattern); Some (OidD 100); Some (Int4D 0)];
     [Some (TupleD 2); Some (OidD 10); Some (UrlpatternD pattern); Some (OidD 101); Some (Int4D 10)];
     [Some (TupleD 3); None; Some (UrlpatternD pattern); Some (OidD 102); Some (Int4D (-5))]].
Definition execute (q : string) : result (option spi_tuptable) := Ok (Some table).

Definition row : router_row :=
  RouterRow (Some 20000) (Some 1) (Some 2) (Some 3) (Some "handler"%string).
Definition query : result (option (list router_row)) := Ok (Some [row]).

Definition procs : list Form_pg_proc :=
  [PgProc 100 16403 false 2 [INT4OID; 16402] None;
   PgProc 101 RECORDOID true 2 [16402; 16403] (Some [ModeIn; ModeInOut]);
   PgProc 102 16403 false 1 [20001] None].
Definition pg_proc (o : Z) : option Form_pg_proc := head (filter (λ p, proc_oid p = o) procs).

Definition by_priority (a b : Route) : Prop := RouteCompare a b <= 0.
#[export] Instance by_priority_dec : RelDecision by_priority.
Proof. intros a b. unfold by_priority. apply _. Defined.
Definition qsort : list Route → list Route := merge_sort by_priority.

#[export] Instance by_priority_trans : Transitive by_priority.
Proof. intros a b c. unfold by_priority. rewrite !RouteCompare_le. lia. Qed.
#[export] Instance by_priority_total : Total by_priority.
Proof. intros a b. unfold by_priority. rewrite !RouteCompare_le. lia. Qed.

#[global] Instance qsort_laws : QsortLaws qsort.
Proof.
  split; [apply merge_sort_Permutation|]. intros l. apply (StronglySorted_merge_sort by_priority).
Qed.

Definition parse (p : url_pattern_init) : parsed unit := Parsed ().
Definition url_match (c : unit) (u : bytes) : option bool := Some true.

(** The database is the list of the procedures called. *)
Definition invoke (u sec p : Z) (na : bool) (args : list (option arg)) (d : list Z)
    : result (option retval) * bool * list Z :=
  (Ok (if p =? 101 then Some (RetRecord None)
       else Some (RetOutcome (Response (Some 201) None (Some (str_bytes "hello"))))), false, d ++ [p]).
Definition commit (d : list Z) : result (list Z) := Ok d.
Definition clip (b : bytes) (n : nat) : nat := n.

Definition w0 : worker := Worker ∅ None None 0 0.
Definition s0 : backend (compiled := unit) (db := list Z) := Backend w0 [] 10 0 false [] false [].

Definition req : h2o_req_t :=
  H2oReq (str_bytes "GET") (str_bytes "http") (str_bytes "localhost") (str_bytes "/?a=b")
    (str_bytes "/") (Some 1%nat) [] [] (Some (str_bytes "127.0.0.1")).

Abbreviation tables := (tables_ok 16400 16401 reltype relation_name id prepare execute query).
Abbreviation handlers := (handlers_ok 16402 reltype relation_name id pg_proc prepare execute).
Abbreviation run := (handler 16400 16401 16402 16403 reltype relation_name id pg_proc prepare execute
  query qsort parse url_match [1; 2; 3; 4; 5; 6; 7; 8; 9] invoke commit id clip 0 0 0 0 0).

Lemma router_table_demo :
  router_table relation_name id prepare execute (MkRouter 20000 1 2 (Some "handler"%string) 3) =
    Ok (Some table).
Proof. reflexivity. Qed.

Lemma tables_demo : tables w0 [row].
Proof.
  split_and!; try done; [| |by apply list.NoDup_singleton].
  - apply list.Forall_singleton. intros r [= <-]. split_and!; [by eexists|by intros p [= <-]|].
    exists (Some table). split; [done|]. apply Forall_forall. intros cells Hc. simpl in Hc.
    repeat (apply elem_of_cons in Hc as [->|Hc];
      [split_and!; [|by eexists|by intros d E; vm_compute in E; simplify_eq; eexists];
       repeat apply Forall2_cons_2; try apply Forall2_nil_2; simpl; split_and?; intros;
       solve [done|by eexists]|]).
    by apply not_elem_of_nil in Hc.
  - intros x r ->%list_elem_of_singleton [= <-]. by left.
Qed.

Lemma pg_proc_In o p : pg_proc o = Some p → p ∈ procs ∧ proc_oid p = o.
Proof.
  unfold pg_proc. destruct (filter _ procs) as [|x l] eqn:E; [done|]. intros [= ->].
  assert (H : p ∈ filter (λ p, proc_oid p = o) procs) by (rewrite E; left).
  apply list_elem_of_filter in H. tauto.
Qed.

Lemma handlers_demo : handlers [row].
Proof.
  split.
  - intros o p [Hp Ho]%pg_proc_In. split; [done|]. unfold procs in Hp.
    exists (get_func_arg_info p), []. rewrite app_nil_r.
    repeat (apply elem_of_cons in Hp as [->|Hp]; [split_and!; try done; [repeat constructor; done|simpl; lia]|]).
    by apply not_elem_of_nil in Hp.
  - intros x rt t cells o p ->%list_elem_of_singleton [= <-] _ _ _ [Hp _]%pg_proc_In. unfold procs in Hp.
    repeat (apply elem_of_cons in Hp as [->|Hp]; [repeat constructor; done|]).
    by apply not_elem_of_nil in Hp.
Qed.

Lemma returns_demo : returns_typed 16403 pg_proc invoke.
Proof.
  intros u sec o p na args d [Hp <-]%pg_proc_In. unfold procs in Hp.
  repeat (apply elem_of_cons in Hp as [->|Hp];
    [simpl; split; intros; simplify_eq/=; eexists; split; done|]).
  by apply not_elem_of_nil in Hp.
Qed.

(** The middleware runs first, then the handler of the higher priority. *)
Example run_demo :
  (λ '(r, s), (r, database s, replies s, user_id s)) (run (HttpMessage (Some req) 7 false []) s0) =
  (Ok (), [101; 100],
   [SendInline 201 (Some "Created"%string) [] (Some 5) (Some <$> str_bytes "hello")], 10).
Proof. vm_compute. reflexivity. Qed.

(** The indices are attribute numbers, which count dropped columns; the columns
    of [t.*] do not: a router table whose first column was dropped is passed
    over. *)
Example dropped_column_ignored :
  columns_fit 16400 16401 (MkRouter 20000 2 3 (Some "handler"%string) 0)
    [20001; 4096; 16400; REGPROCEDUREOID] = false.
Proof. reflexivity. Qed.

(** An output argument of type [int4] makes the number of the listener the
    value of the text argument after it. *)
Example output_argument_misplaced :
  let p := PgProc 103 RECORDOID true 2 [16402; INT4OID; 25] (Some [ModeIn; ModeOut; ModeIn]) in
  ai_listener (proc_indices 16402 16403 20001 p) = 1 ∧
  input_types (get_func_arg_info p) !! 1%nat = Some 25.
Proof. done. Qed.
End Demo.

Lemma prepare_routers_collects_witness :
  Demo.tables Demo.w0 [Demo.row] ∧
  length (collect 16400 16401 16402 16403 Demo.reltype Demo.relation_name id Demo.pg_proc
    Demo.prepare Demo.execute 0 [Demo.row]) = 3%nat ∧
  ∃ w1, prepare_routers 16400 16401 16402 16403 Demo.reltype Demo.relation_name id Demo.pg_proc
    Demo.prepare Demo.execute Demo.query Demo.qsort Demo.w0 = (Ok true, w1).
Proof.
  split; [apply Demo.tables_demo|]. split; [vm_compute; reflexivity|].
  destruct (prepare_routers_collects 16400 16401 16402 16403 Demo.reltype Demo.relation_name id
    Demo.pg_proc Demo.prepare Demo.execute Demo.query Demo.qsort Demo.w0 [Demo.row] Demo.tables_demo)
    as (w1 & w2 & E & _). exact (ex_intro _ w1 E).
Defined.

Lemma serve_routes_refines_witness :
  Demo.tables (wk Demo.s0) [Demo.row] ∧ cache_ok Demo.parse (patterns Demo.s0) ∧
  ∃ rs l : list Route, selected (applies Demo.parse Demo.url_match
    (request_tuple [1; 2; 3; 4; 5; 6; 7; 8; 9] Demo.req false) (request_url Demo.req)) rs l.
Proof.
  split; [apply Demo.tables_demo|]. split; [apply cache_ok_nil|].
  destruct (serve_routes_refines 16400 16401 16402 16403 Demo.reltype Demo.relation_name id
    Demo.pg_proc Demo.prepare Demo.execute Demo.query Demo.qsort Demo.parse Demo.url_match
    [1; 2; 3; 4; 5; 6; 7; 8; 9] Demo.invoke 7 Demo.req 0 Demo.s0 [Demo.row] Demo.tables_demo
    (cache_ok_nil Demo.parse)) as (rs & l & w' & c' & _ & Hs & _). exact (ex_intro _ rs (ex_intro _ l Hs)).
Defined.

Lemma route_args_typed_witness :
  Demo.tables Demo.w0 [Demo.row] ∧ Demo.handlers [Demo.row] ∧
  ∃ r args, fill_args 7 (request_tuple [1; 2; 3; 4; 5; 6; 7; 8; 9] Demo.req false) None r = Ok args ∧
    length args = pronargs (proc r).
Proof.
  split; [apply Demo.tables_demo|]. split; [apply Demo.handlers_demo|].
  destruct (collect 16400 16401 16402 16403 Demo.reltype Demo.relation_name id Demo.pg_proc
    Demo.prepare Demo.execute 0 [Demo.row]) as [|r l] eqn:E; [vm_compute in E; discriminate E|].
  exists r. destruct (route_args_typed 16400 16401 16402 16403 Demo.reltype Demo.relation_name id
    Demo.pg_proc Demo.prepare Demo.execute Demo.query Demo.w0 [Demo.row] r 7
    (request_tuple [1; 2; 3; 4; 5; 6; 7; 8; 9] Demo.req false) None Demo.tables_demo Demo.handlers_demo)
    as (rt & args & _ & H1 & H2 & _); [rewrite E; left|]. exact (ex_intro _ args (conj H1 H2)).
Defined.


Lemma response_body_sent_witness :
  ∃ reason sent, send_outcome Demo.commit Demo.clip
    (Some (Response None (Some [Some (Some (str_bytes "Content-Length"), Some (str_bytes "3"))])
             (Some (str_bytes "hello")))) Demo.s0 =
    (Ok (), queue (SendInline 200 reason sent (Some 3) (Some <$> str_bytes "hel"))
              (set_database [] false Demo.s0)).
Proof.
  apply (response_body_sent Demo.commit Demo.clip None
    (Some [Some (Some (str_bytes "Content-Length"), Some (str_bytes "3"))]) (str_bytes "hello") Demo.s0 []).
  - exact I.
  - reflexivity.
  - vm_compute. reflexivity.
  - intros _. reflexivity.
Defined.

Lemma http_response_sent_witness :
  ∃ o reason sent,
    http_response (Some (TextBody (str_bytes "hello"))) (Some 200)
      (Some [Some (Some (str_bytes "x-a"), Some (str_bytes "1"))]) = Ok o ∧
    (str_bytes "content-type", str_bytes "text/plain; charset=utf-8") ∈ sent ∧
    send_outcome Demo.commit Demo.clip (Some o) Demo.s0 =
      (Ok (), queue (SendInline 200 reason sent (Some 5) (Some <$> str_bytes "hello"))
                (set_database [] false Demo.s0)).
Proof.
  apply (http_response_sent Demo.commit Demo.clip (str_bytes "hello") 200
    (Some [Some (Some (str_bytes "x-a"), Some (str_bytes "1"))])
    [(str_bytes "x-a", str_bytes "1")] Demo.s0 []); [reflexivity|discriminate|lia|reflexivity|reflexivity|].
  vm_compute. reflexivity.
Defined.

End Router.
