(* ===== verification/EventLoop.v ===== *)
(** * The two threads of an HTTP worker: [omni_httpd/event_loop.c]

    A worker has a thread that talks to clients (the event loop) and one that
    runs handlers in the database; they exchange messages through two queues.
    The first part of this file is the path a WebSocket message takes from
    another backend to the event loop: the name of the socket
    ([websocket_unix_socket_path]), the frame that [websocket_send] writes
    and the loop that reads frames ([on_ws_relay_message]).  The second part is the life of a
    request: [event_loop_req_handler], the handler thread's and the event
    loop's [on_message], [req_dispose] and [on_accept], interleaved.

    [pthread] locks are held for the whole of the functions that take them,
    which are therefore steps.  What the H2O library does with a request is
    described where it is used. *)

From Stdlib Require Import ZArith Lia.
From stdpp Require Import base tactics list gmap numbers strings sets.
From S2P Require Import Prelude Paths.

Import Paths.

Local Open Scope Z_scope.

Module EventLoop.

(** ** The socket of a WebSocket connection *)

Definition SOCK_PREFIX : bytes := str_bytes "/omni_httpd.sock.".
Definition RFC4122_UUID_LEN : nat := 36.
Definition SUN_PATH : nat := 108.

Definition hex_digit (n : Z) : Z := if n <? 10 then 48 + n else 87 + n.

Fixpoint hex (l : bytes) : bytes :=
  match l with
  | [] => []
  | b :: l' => hex_digit (Z.shiftr b 4) :: hex_digit (Z.land b 15) :: hex l'
  end.

(** The variant and version bits. *)
Definition set_octet (i : nat) (f : Z → Z) (octets : bytes) : bytes := alter f i octets.

Definition stamp (version : Z) (octets : bytes) : bytes :=
  set_octet 6 (λ o, Z.lor (Z.land o 15) (Z.shiftl version 4))
    (set_octet 8 (λ o, Z.lor (Z.land o 63) 128) octets).

(** [UUID_ENC_PART]: [h2o_hex_encode] ends with a NUL, which the dash after
    the part overwrites. *)
Definition enc_part (dst : bytes) (pos : nat) (octets : bytes) (first last : nat)
    : result (bytes * nat) :=
  let part := hex (take (last - first + 1) (drop first octets)) in
  dst ← wr_bytes dst pos (part ++ [0]);
  Ok (dst, (pos + (last - first + 1) * 2)%nat).

Definition dash (x : bytes * nat) : result (bytes * nat) :=
  let '(dst, pos) := x in dst ← wr dst pos 45; Ok (dst, S pos).

Definition format_uuid_rfc4122 (dst : bytes) (at_ : nat) (octets : bytes) (version : Z)
    : result (bytes * bytes) :=
  let octets := stamp version octets in
  x ← enc_part dst at_ octets 0 3; x ← dash x;
  x ← enc_part x.1 x.2 octets 4 5; x ← dash x;
  x ← enc_part x.1 x.2 octets 6 7; x ← dash x;
  x ← enc_part x.1 x.2 octets 8 8;
  x ← enc_part x.1 x.2 octets 9 9; x ← dash x;
  x ← enc_part x.1 x.2 octets 10 15;
  Ok (x.1, octets).

(** [snprintf(dst, size, ...)] of a string. *)
Definition snprintf (dst : bytes) (s : bytes) : result bytes :=
  wr_bytes dst 0 (take (length dst - 1) s ++ [0]).

(** [None] is [-EINVAL]; the uuid is changed in place. *)
Definition websocket_unix_socket_path (temp_dir sun_path uuid : bytes)
    : result (option (bytes * bytes)) :=
  let len_with_sock_prefix := (length temp_dir + length SOCK_PREFIX)%nat in
  if (SUN_PATH <? len_with_sock_prefix + RFC4122_UUID_LEN + 1)%nat then Ok None
  else
    p ← snprintf sun_path (temp_dir ++ SOCK_PREFIX);
    x ← format_uuid_rfc4122 p len_with_sock_prefix uuid 4;
    Ok (Some x).

(** ** What the path is *)

Definition uuid_text (o : bytes) : bytes :=
  hex (take 4 o) ++ [45] ++ hex (take 2 (drop 4 o)) ++ [45] ++ hex (take 2 (drop 6 o)) ++ [45] ++
  hex (take 2 (drop 8 o)) ++ [45] ++ hex (take 6 (drop 10 o)).

Lemma hex_length l : length (hex l) = (2 * length l)%nat.
Proof. induction l as [|b l IH]; simpl; [done|]. rewrite IH. lia. Qed.

Lemma hex_app a b : hex (a ++ b) = hex a ++ hex b.
Proof. induction a as [|x a IH]; simpl; [done|]. by rewrite IH. Qed.

(** Writing after what was written. *)
Lemma wr_bytes_after pre rest s : (length s <= length rest)%nat →
  wr_bytes (pre ++ rest) (length pre) s = Ok (pre ++ s ++ drop (length s) rest).
Proof.
  intros H. unfold wr_bytes. rewrite decide_True by (rewrite length_app; lia).
  do 2 f_equal; [by rewrite take_app_length|]. f_equal. rewrite drop_app_ge by lia. f_equal. lia.
Qed.

(** The buffer holds [pre] before the position, and [n] bytes after it, a NUL
    first. *)
Definition cursor (x : bytes * nat) (pre : bytes) (n : nat) : Prop :=
  ∃ rest, x = (pre ++ 0 :: rest, length pre) ∧ S (length rest) = n.

Lemma enc_part_after pre rest octets first last :
  length octets = 16%nat → (first <= last < 16)%nat → (2 * (last - first + 1) < length rest)%nat →
  ∃ y, enc_part (pre ++ rest) (length pre) octets first last = Ok y ∧
    cursor y (pre ++ hex (take (last - first + 1) (drop first octets)))
      (length rest - 2 * (last - first + 1)).
Proof.
  intros Ho Hfl Hr. unfold enc_part. set (part := hex _).
  assert (Hp : length part = (2 * (last - first + 1))%nat).
  { unfold part. rewrite hex_length, length_take, length_drop. lia. }
  rewrite wr_bytes_after by (rewrite length_app; simpl; lia). simpl. eexists. split; [done|].
  exists (drop (length (part ++ [0])) rest). rewrite <- !app_assoc. split.
  - f_equal. rewrite length_app, Hp. lia.
  - rewrite length_drop, length_app. simpl. lia.
Qed.

Lemma enc_part_ok x pre n octets first last :
  cursor x pre n → length octets = 16%nat → (first <= last < 16)%nat →
  (2 * (last - first + 1) < n)%nat →
  ∃ y, enc_part x.1 x.2 octets first last = Ok y ∧
    cursor y (pre ++ hex (take (last - first + 1) (drop first octets))) (n - 2 * (last - first + 1)).
Proof. intros (rest & -> & <-) Ho Hfl Hn. by apply enc_part_after. Qed.

(** After the dash there is no NUL. *)
Lemma dash_enc_part_ok x pre n octets first last :
  cursor x pre n → length octets = 16%nat → (first <= last < 16)%nat →
  (2 * (last - first + 1) + 1 < n)%nat →
  ∃ y, (x ← dash x; enc_part x.1 x.2 octets first last) = Ok y ∧
    cursor y (pre ++ 45 :: hex (take (last - first + 1) (drop first octets)))
      (n - 1 - 2 * (last - first + 1)).
Proof.
  intros (rest & -> & <-) Ho Hfl Hn. unfold dash, wr.
  rewrite decide_True by (rewrite length_app; simpl; lia). simpl.
  assert (<[length pre := 45]> (pre ++ 0 :: rest) = pre ++ 45 :: rest) as ->
    by (rewrite insert_app_r_alt by lia; by rewrite Nat.sub_diag).
  destruct (enc_part_after (pre ++ [45]) rest octets first last) as (y & E & Hy); [done..|lia|].
  rewrite <- !app_assoc in *. rewrite length_app in E. simpl in *. rewrite Nat.add_1_r in E.
  rewrite E. exists y. split; [done|]. by rewrite Nat.sub_0_r.
Qed.

Lemma bind_assoc_r {A B C} (m : result A) (f : A → result B) (g : B → result C) :
  (m ≫= λ x, f x ≫= g) = (m ≫= f) ≫= g.
Proof. by destruct m. Qed.

Lemma format_uuid_ok pre rest octets version :
  length octets = 16%nat → (RFC4122_UUID_LEN < length rest)%nat →
  ∃ rest', format_uuid_rfc4122 (pre ++ rest) (length pre) octets version =
    Ok (pre ++ uuid_text (stamp version octets) ++ 0 :: rest', stamp version octets) ∧
    length rest = (RFC4122_UUID_LEN + S (length rest'))%nat.
Proof.
  intros Ho Hr. unfold format_uuid_rfc4122, RFC4122_UUID_LEN in *. set (o := stamp version octets).
  assert (Hl : length o = 16%nat) by (unfold o, stamp, set_octet; by rewrite !length_alter).
  destruct (enc_part_after pre rest o 0 3 Hl) as (x1 & -> & C1); [lia..|]. cbn [mbind result_bind].
  destruct (dash_enc_part_ok _ _ _ o 4 5 C1 Hl) as (x2 & E2 & C2); [lia..|].
  rewrite bind_assoc_r, E2. cbn [mbind result_bind].
  destruct (dash_enc_part_ok _ _ _ o 6 7 C2 Hl) as (x3 & E3 & C3); [lia..|].
  rewrite bind_assoc_r, E3. cbn [mbind result_bind].
  destruct (dash_enc_part_ok _ _ _ o 8 8 C3 Hl) as (x4 & E4 & C4); [lia..|].
  rewrite bind_assoc_r, E4. cbn [mbind result_bind].
  destruct (enc_part_ok _ _ _ o 9 9 C4 Hl) as (x5 & -> & C5); [lia..|]. cbn [mbind result_bind].
  destruct (dash_enc_part_ok _ _ _ o 10 15 C5 Hl) as (x6 & E6 & C6); [lia..|].
  rewrite bind_assoc_r, E6. cbn [mbind result_bind]. destruct C6 as (rest' & -> & L6).
  exists rest'. split; [|simpl in L6; lia]. simpl fst. do 2 f_equal.
  change (3 - 0 + 1)%nat with 4%nat. change (5 - 4 + 1)%nat with 2%nat.
  change (7 - 6 + 1)%nat with 2%nat. change (8 - 8 + 1)%nat with 1%nat.
  change (9 - 9 + 1)%nat with 1%nat. change (15 - 10 + 1)%nat with 6%nat. rewrite drop_0.
  assert (E89 : take 2 (drop 8 o) = take 1 (drop 8 o) ++ take 1 (drop 9 o)).
  { change 2%nat with (1 + 1)%nat. by rewrite <- take_take_drop, drop_drop. }
  unfold uuid_text. rewrite E89, hex_app. 
  repeat (rewrite <- app_assoc || rewrite <- app_comm_cons). done.
Qed.

Lemma hex_pair_inj a b : byte_ok a → byte_ok b →
  hex_digit (Z.shiftr a 4) = hex_digit (Z.shiftr b 4) →
  hex_digit (Z.land a 15) = hex_digit (Z.land b 15) → a = b.
Proof.
  intros Ha Hb.
  assert (G : ∀ x y, 0 <= x < 16 → 0 <= y < 16 → hex_digit x = hex_digit y → x = y).
  { intros x y Hx Hy. unfold hex_digit.
    destruct (Z.ltb_spec x 10), (Z.ltb_spec y 10); lia. }
  change 15 with (Z.ones 4). rewrite !Z.land_ones, !Z.shiftr_div_pow2 by lia.
  unfold byte_ok in *. change (2 ^ 4) with 16 in *. intros E1%G E2%G; div_lia.
Qed.

Lemma hex_inj a : ∀ b, Forall byte_ok a → Forall byte_ok b → hex a = hex b → a = b.
Proof.
  induction a as [|x a IH]; intros [|y b] Ha Hb E; simpl in E; [done|done|done|].
  apply Forall_cons_1 in Ha as [Hx Ha], Hb as [Hy Hb]. injection E as E1 E2 E3.
  f_equal; [by apply hex_pair_inj|by apply IH].
Qed.

Lemma hex_text l : Forall byte_ok l → text_ok (hex l).
Proof.
  assert (G : ∀ n, 0 <= n → hex_digit n ≠ 0) by (intros n Hn; unfold hex_digit; destruct (n <? 10); lia).
  induction 1 as [|b l Hb _ IH]; simpl; [constructor|]. unfold byte_ok in Hb.
  repeat constructor; [apply G|apply G|done].
  - apply Z.shiftr_nonneg. lia.
  - apply Z.land_nonneg. lia.
Qed.

Lemma stamp_length v o : length (stamp v o) = length o.
Proof. unfold stamp, set_octet. by rewrite !length_alter. Qed.

Lemma stamp_ok o : Forall byte_ok o → Forall byte_ok (stamp 4 o).
Proof.
  intros Ho. unfold stamp, set_octet. apply Forall_alter; [apply Forall_alter; [done|]|].
  - intros x _ _. unfold byte_ok. change 63 with (Z.ones 6). rewrite Z.land_ones by lia.
    change 128 with (Z.shiftl 2 6). rewrite Z.lor_comm, lor_shiftl_add; [|lia|apply Z.mod_pos_bound; lia].
    pose proof (Z.mod_pos_bound x (2 ^ 6)). lia.
  - intros x _ _. unfold byte_ok. change 15 with (Z.ones 4). rewrite Z.land_ones by lia.
    rewrite Z.lor_comm, lor_shiftl_add; [|lia|apply Z.mod_pos_bound; lia].
    pose proof (Z.mod_pos_bound x (2 ^ 4)). lia.
Qed.

(** The bits are set once: the uuid of a connection, made with them by
    [event_loop_req_handler], is not changed again. *)
Lemma stamp_twice o : stamp 4 (stamp 4 o) = stamp 4 o.
Proof.
  assert (H6 : ∀ x, Z.lor (Z.land (Z.lor (Z.land x 15) (Z.shiftl 4 4)) 15) (Z.shiftl 4 4) =
    Z.lor (Z.land x 15) (Z.shiftl 4 4)).
  { intros x. by rewrite Z.land_lor_distr_l, <- Z.land_assoc, Z.lor_0_r. }
  assert (H8 : ∀ x, Z.lor (Z.land (Z.lor (Z.land x 63) 128) 63) 128 = Z.lor (Z.land x 63) 128).
  { intros x. by rewrite Z.land_lor_distr_l, <- Z.land_assoc, Z.lor_0_r. }
  apply list_eq. intros i. unfold stamp, set_octet. destruct (decide (i = 6%nat)) as [->|N6].
  - rewrite list_lookup_alter_eq, list_lookup_alter_ne, list_lookup_alter_eq by done.
    destruct (alter _ 8%nat o !! 6%nat); simpl; [|done]. by rewrite H6.
  - rewrite !(list_lookup_alter_ne _ _ 6%nat i) by done. destruct (decide (i = 8%nat)) as [->|N8].
    + rewrite !list_lookup_alter_eq, list_lookup_alter_ne, list_lookup_alter_eq by done.
      destruct (o !! 8%nat); simpl; [|done]. by rewrite H8.
    + by rewrite !list_lookup_alter_ne by done.
Qed.

Lemma app_inj_length {A} (a b c d : list A) : length a = length c → a ++ b = c ++ d → a = c ∧ b = d.
Proof. intros Hl E. by apply app_inj_1 in E. Qed.

Lemma split_uuid (o : bytes) : length o = 16%nat →
  o = take 4 o ++ take 2 (drop 4 o) ++ take 2 (drop 6 o) ++ take 2 (drop 8 o) ++ take 6 (drop 10 o).
Proof. intros H. do 16 (destruct o as [|? o]; [done|]). by destruct o. Qed.

Lemma uuid_text_inj a b : length a = 16%nat → length b = 16%nat →
  Forall byte_ok a → Forall byte_ok b → uuid_text a = uuid_text b → a = b.
Proof.
  intros La Lb Ha Hb. unfold uuid_text.
  assert (Hlen : ∀ n m, length (hex (take n (drop m a))) = length (hex (take n (drop m b)))).
  { intros. by rewrite !hex_length, !length_take, !length_drop, La, Lb. }
  assert (Hin : ∀ n m, hex (take n (drop m a)) = hex (take n (drop m b)) →
    take n (drop m a) = take n (drop m b)).
  { intros n m. apply hex_inj; by apply Forall_take, Forall_drop. }
  intros E. rewrite <- (drop_0 a), <- (drop_0 b) in E at 1.
  apply app_inj_length in E as [E1%Hin [= E]]; [|done].
  apply app_inj_length in E as [E2%Hin [= E]]; [|done].
  apply app_inj_length in E as [E3%Hin [= E]]; [|done].
  apply app_inj_length in E as [E4%Hin [= E]]; [|done]. apply Hin in E as E5.
  rewrite !drop_0 in E1. rewrite (split_uuid a La), (split_uuid b Lb). congruence.
Qed.

Lemma uuid_text_ok o : Forall byte_ok o → text_ok (uuid_text o).
Proof.
  intros Ho. assert (G : ∀ n m, text_ok (hex (take n (drop m o)))).
  { intros. by apply hex_text, Forall_take, Forall_drop. }
  unfold uuid_text. specialize (G 4%nat 0%nat) as G0. rewrite drop_0 in G0.
  repeat (apply Forall_app; split); try done; try apply G; by repeat constructor.
Qed.

Lemma uuid_text_length o : length o = 16%nat → length (uuid_text o) = RFC4122_UUID_LEN.
Proof.
  intros H. unfold uuid_text. rewrite !length_app, !hex_length, !length_take, !length_drop, H. done.
Qed.

Lemma socket_path_ok temp_dir buf uuid :
  length buf = SUN_PATH → length uuid = 16%nat →
  (length temp_dir + length SOCK_PREFIX + RFC4122_UUID_LEN + 1 <= SUN_PATH)%nat →
  ∃ rest, websocket_unix_socket_path temp_dir buf uuid =
    Ok (Some (temp_dir ++ SOCK_PREFIX ++ uuid_text (stamp 4 uuid) ++ 0 :: rest, stamp 4 uuid)) ∧
    length (temp_dir ++ SOCK_PREFIX ++ uuid_text (stamp 4 uuid) ++ 0 :: rest) = SUN_PATH.
Proof.
  intros Hb Hu Hl. unfold websocket_unix_socket_path.
  destruct (Nat.ltb_spec SUN_PATH (length temp_dir + length SOCK_PREFIX + RFC4122_UUID_LEN + 1)); [lia|].
  unfold snprintf. rewrite take_ge by (rewrite length_app; lia).
  set (pre := temp_dir ++ SOCK_PREFIX). assert (Hp : length pre = (length temp_dir + length SOCK_PREFIX)%nat)
    by (unfold pre; by rewrite length_app).
  rewrite <- (app_nil_l buf). change 0%nat with (length (@nil Z)).
  rewrite wr_bytes_after by (rewrite length_app; simpl; lia). cbn [mbind result_bind app].
  rewrite <- app_assoc. rewrite <- Hp.
  destruct (format_uuid_ok pre ([0] ++ drop (length (pre ++ [0])) buf) uuid 4 Hu) as (rest & -> & Hr).
  { rewrite length_app, length_drop, length_app. simpl. lia. }
  exists rest. cbn [mbind result_bind]. unfold pre. rewrite <- !app_assoc. split; [done|].
  rewrite length_app, length_drop, length_app in Hr. cbn [length] in Hr.
  rewrite !length_app, uuid_text_length by (by rewrite stamp_length). cbn [length]. lia.
Qed.

Lemma socket_path_cstr temp_dir u rest : text_ok temp_dir → Forall byte_ok u →
  cstr (temp_dir ++ SOCK_PREFIX ++ uuid_text (stamp 4 u) ++ 0 :: rest) =
  Some (temp_dir ++ SOCK_PREFIX ++ uuid_text (stamp 4 u)).
Proof.
  intros Ht Hok. rewrite !app_assoc, cstr_app, <- !app_assoc; [done|].
  apply Forall_app_2; [|by apply uuid_text_ok, stamp_ok].
  apply Forall_app_2; [done|by repeat constructor].
Qed.

Lemma socket_path_text temp_dir buf uuid p u :
  length buf = SUN_PATH → length uuid = 16%nat → Forall byte_ok uuid → text_ok temp_dir →
  websocket_unix_socket_path temp_dir buf uuid = Ok (Some (p, u)) →
  u = stamp 4 uuid ∧ cstr p = Some (temp_dir ++ SOCK_PREFIX ++ uuid_text (stamp 4 uuid)) ∧
  (length temp_dir + length SOCK_PREFIX + RFC4122_UUID_LEN + 1 <= SUN_PATH)%nat.
Proof.
  intros Hb Hu Ho Ht E.
  destruct (Nat.ltb_spec SUN_PATH (length temp_dir + length SOCK_PREFIX + RFC4122_UUID_LEN + 1)) as [H|Hl].
  { unfold websocket_unix_socket_path in E. apply Nat.ltb_lt in H. by rewrite H in E. }
  destruct (socket_path_ok temp_dir buf uuid Hb Hu Hl) as (rest & E' & _). rewrite E' in E.
  assert (u = stamp 4 uuid ∧ p = temp_dir ++ SOCK_PREFIX ++ uuid_text (stamp 4 uuid) ++ 0 :: rest)
    as [-> ->] by (split; congruence).
  by rewrite socket_path_cstr.
Qed.

(** The path of the socket of a connection fits in [sun_path] with its
    terminator, or the function says that it does not; two connections have
    the same path only if they have the same uuid. *)
Theorem socket_path_fits temp_dir buf uuid :
  length buf = SUN_PATH → length uuid = 16%nat → Forall byte_ok uuid → text_ok temp_dir →
  if decide (length temp_dir <= 54)%nat then
    ∃ p, websocket_unix_socket_path temp_dir buf uuid = Ok (Some (p, stamp 4 uuid)) ∧
      length p = SUN_PATH ∧ cstr p = Some (temp_dir ++ SOCK_PREFIX ++ uuid_text (stamp 4 uuid)) ∧
      ∀ buf' uuid' p' u', length buf' = SUN_PATH → length uuid' = 16%nat → Forall byte_ok uuid' →
        websocket_unix_socket_path temp_dir buf' uuid' = Ok (Some (p', u')) →
        cstr p' = cstr p ↔ stamp 4 uuid' = stamp 4 uuid
  else websocket_unix_socket_path temp_dir buf uuid = Ok None.
Proof.
  intros Hb Hu Ho Ht. case_decide as Hl.
  2:{ unfold websocket_unix_socket_path. destruct (Nat.ltb_spec SUN_PATH
        (length temp_dir + length SOCK_PREFIX + RFC4122_UUID_LEN + 1)) as [_|H]; [done|].
      unfold SUN_PATH, RFC4122_UUID_LEN in H. simpl in H. lia. }
  assert (Hl' : (length temp_dir + length SOCK_PREFIX + RFC4122_UUID_LEN + 1 <= SUN_PATH)%nat).
  { unfold SUN_PATH, RFC4122_UUID_LEN. simpl. lia. }
  assert (Hc := λ u rest, socket_path_cstr temp_dir u rest Ht).
  destruct (socket_path_ok temp_dir buf uuid Hb Hu Hl') as (rest & E & Hlen).
  eexists. split; [exact E|]. split; [done|]. split; [by apply Hc|].
  intros buf' uuid' p' u' Hb' Hu' Ho' E'.
  destruct (socket_path_ok temp_dir buf' uuid' Hb' Hu' Hl') as (rest' & E'' & _).
  assert (p' = temp_dir ++ SOCK_PREFIX ++ uuid_text (stamp 4 uuid') ++ 0 :: rest') as -> by congruence.
  rewrite !Hc by done. split; [|by intros ->].
  intros E1. assert (E2 : temp_dir ++ SOCK_PREFIX ++ uuid_text (stamp 4 uuid') =
    temp_dir ++ SOCK_PREFIX ++ uuid_text (stamp 4 uuid)) by congruence.
  apply app_inv_head, app_inv_head in E2.
  apply uuid_text_inj in E2; [done|by rewrite stamp_length..|by apply stamp_ok|by apply stamp_ok].
Qed.

(** ** Messages for a WebSocket connection

    [websocket_send] of another backend connects to the socket and writes one
    frame: a packed struct of the kind and the length, then the payload. *)

Record ws_message := WsMessage { is_text : bool; payload : bytes }.

Definition HDR : nat := 9.

(** [size_t] in memory. *)
Definition le_bytes8 (n : Z) : bytes := rev (be_bytes 8 n).
Definition le_val8 (l : bytes) : Z := be_val (rev l).

Definition ws_frame (m : ws_message) : bytes :=
  (if is_text m then 0 else 1) :: le_bytes8 (Z.of_nat (length (payload m))) ++ payload m.

(** The socket connected to and the bytes written.  [connects] says whether
    [socket] and [connect] succeed. *)
Definition websocket_send (connects : bytes → bool) (temp_dir : bytes) (kind_text : bool)
    (uuid data : option bytes) : result (bytes * bytes) :=
  match uuid, data with
  | None, _ => raise "socket can't be null"
  | _, None => raise "data can't be null"
  | Some u, Some d =>
      x ← websocket_unix_socket_path temp_dir (replicate SUN_PATH 0) u;
      match x with
      | None => raise "websocket_unix_socket_path"
      | Some (sun_path, _) =>
          match cstr sun_path with
          | None => Undefined "read outside the buffer"
          | Some path =>
              if connects path then Ok (path, ws_frame (WsMessage kind_text d)) else raise "connect"
          end
      end
  end.

(** A message for a connection that the event loop has made goes to the socket
    the event loop has made for it. *)
Lemma websocket_send_reaches connects temp_dir kind uuid data buf p u :
  length buf = SUN_PATH → length uuid = 16%nat → Forall byte_ok uuid → text_ok temp_dir →
  websocket_unix_socket_path temp_dir buf uuid = Ok (Some (p, u)) →
  ∃ path, cstr p = Some path ∧
    websocket_send connects temp_dir kind (Some u) (Some data) =
      if connects path then Ok (path, ws_frame (WsMessage kind data)) else raise "connect".
Proof.
  intros Hb Hu Ho Ht E. destruct (socket_path_text temp_dir buf uuid p u) as (-> & Hc & Hl); try done.
  exists (temp_dir ++ SOCK_PREFIX ++ uuid_text (stamp 4 uuid)). split; [done|].
  destruct (socket_path_ok temp_dir (replicate SUN_PATH 0) (stamp 4 uuid)) as (rest & E' & _);
    [by rewrite length_replicate|by rewrite stamp_length|done|].
  unfold websocket_send. rewrite E'. cbn [mbind result_bind].
  rewrite socket_path_cstr by (done || by apply stamp_ok). by rewrite stamp_twice.
Qed.

(** The loop of [on_ws_relay_message] over the input of the socket.  The sum of
    the sizes may wrap; [wslay_event_queue_msg] reads the payload. *)
Fixpoint relay_loop (fuel : nat) (input : bytes) (queued : list ws_message)
    : result (list ws_message * bytes) :=
  match fuel with
  | O => Ok (queued, input)
  | S fuel' =>
      if (length input =? 0)%nat then Ok (queued, input)
      else if (length input <? HDR)%nat then Ok (queued, input)
      else
        let len := le_val8 (take 8 (drop 1 input)) in
        let total := wrap_u 64 (Z.of_nat HDR + len) in
        if Z.of_nat (length input) <? total then Ok (queued, input)
        else if Z.of_nat (length input) <? Z.of_nat HDR + len then Undefined "read outside the buffer"
        else
          relay_loop fuel' (drop (Z.to_nat total) input)
            (queued ++ [WsMessage (bool_decide (head input = Some 0)) (take (Z.to_nat len) (drop HDR input))])
  end.

Definition on_ws_relay_message (chunk : bytes) (st : list ws_message * bytes)
    : result (list ws_message * bytes) :=
  let input := st.2 ++ chunk in relay_loop (length input) input st.1.

(** The callback is called whenever more bytes have arrived. *)
Fixpoint relay (chunks : list bytes) (st : list ws_message * bytes) : result (list ws_message * bytes) :=
  match chunks with
  | [] => Ok st
  | c :: chunks' => st' ← on_ws_relay_message c st; relay chunks' st'
  end.

Definition ws_message_ok (m : ws_message) : Prop := Z.of_nat (length (payload m)) < 2 ^ 63.

Lemma le_bytes8_length n : length (le_bytes8 n) = 8%nat.
Proof. unfold le_bytes8. by rewrite length_rev, be_bytes_length. Qed.

Lemma frame_length m : length (ws_frame m) = (HDR + length (payload m))%nat.
Proof. unfold ws_frame, HDR. cbn [length]. rewrite length_app, le_bytes8_length. lia. Qed.

(** What is read from a header that is complete. *)
Lemma header_read m r : ws_message_ok m →
  le_val8 (take 8 (drop 1 (ws_frame m ++ r))) = Z.of_nat (length (payload m)).
Proof.
  intros Hm. unfold ws_frame. cbn [app drop]. rewrite drop_0, <- app_assoc.
  rewrite take_app_le by (rewrite le_bytes8_length; lia).
  rewrite take_ge by (rewrite le_bytes8_length; lia). unfold le_val8, le_bytes8. rewrite rev_involutive.
  rewrite be_val_be_bytes. unfold ws_message_ok in Hm. apply Z.mod_small.
  change (8 * Z.of_nat 8) with 64. lia.
Qed.

Lemma relay_step fuel m r queued : ws_message_ok m →
  relay_loop (S fuel) (ws_frame m ++ r) queued = relay_loop fuel r (queued ++ [m]).
Proof.
  intros Hm. pose proof (frame_length m) as Hl. cbn [relay_loop]. rewrite header_read by done.
  unfold ws_message_ok, HDR in *. rewrite length_app, Hl.
  destruct (Nat.eqb_spec (9 + length (payload m) + length r) 0); [lia|].
  destruct (Nat.ltb_spec (9 + length (payload m) + length r) 9); [lia|].
  rewrite wrap_u_id by (unfold in_u; lia).
  destruct (Z.ltb_spec (Z.of_nat (9 + length (payload m) + length r))
    (Z.of_nat 9 + Z.of_nat (length (payload m)))); [lia|].
  f_equal.
  - rewrite drop_app_ge by (rewrite Hl; lia). rewrite Hl.
    by replace (Z.to_nat _ - _)%nat with 0%nat by lia.
  - do 2 f_equal. destruct m as [t p]. unfold ws_frame. simpl payload. simpl is_text.
    rewrite Nat2Z.id. f_equal.
    + by destruct t.
    + cbn [app drop]. rewrite <- app_assoc, drop_app_ge by (rewrite le_bytes8_length; lia).
      rewrite le_bytes8_length. rewrite drop_0. by apply take_app_length.
Qed.

(** A beginning of a frame is left for later. *)
Lemma relay_stop fuel t u m queued : ws_message_ok m → ws_frame m = t ++ u → u ≠ [] →
  relay_loop fuel t queued = Ok (queued, t).
Proof.
  intros Hm E Hu. destruct fuel as [|fuel]; [done|]. cbn [relay_loop].
  destruct (length t =? 0)%nat; [done|]. destruct (Nat.ltb_spec (length t) HDR) as [|H9]; [done|].
  assert (Hlt : (length t < length (ws_frame m))%nat).
  { rewrite E, length_app. destruct u; simpl; [done|lia]. }
  rewrite frame_length in Hlt.
  assert (E8 : take 8 (drop 1 t) = take 8 (drop 1 (ws_frame m ++ []))).
  { rewrite app_nil_r, E. unfold HDR in H9.
    rewrite drop_app_le by lia. rewrite take_app_le by (rewrite length_drop; lia). done. }
  rewrite E8, header_read by done. unfold ws_message_ok, HDR in *.
  rewrite wrap_u_id by (unfold in_u; lia).
  by destruct (Z.ltb_spec (Z.of_nat (length t)) (Z.of_nat 9 + Z.of_nat (length (payload m)))); [|lia].
Qed.

Lemma frames_cons x a :
  mjoin (ws_frame <$> x :: a) = ws_frame x ++ mjoin (ws_frame <$> a).
Proof. done. Qed.

Lemma relay_frames a t u m : ∀ fuel queued, Forall ws_message_ok a → (length a <= fuel)%nat →
  ws_message_ok m → ws_frame m = t ++ u → u ≠ [] →
  relay_loop fuel (mjoin (ws_frame <$> a) ++ t) queued = Ok (queued ++ a, t).
Proof.
  induction a as [|x a IH]; intros fuel queued Ha Hf Hm E Hu.
  { simpl. rewrite app_nil_r. by eapply relay_stop. }
  apply Forall_cons_1 in Ha as [Hx Ha]. simpl in Hf. destruct fuel as [|fuel]; [lia|].
  rewrite frames_cons, <- app_assoc, relay_step by done. rewrite IH by (done || lia). by rewrite <- app_assoc.
Qed.

(** Bytes of a stream of frames: the frames that are complete, and the
    beginning of the next. *)
Lemma split_frames ms tail : ∀ s rest,
  s ++ rest = mjoin (ws_frame <$> ms) ++ tail →
  ∃ a b t, ms = a ++ b ∧ s = mjoin (ws_frame <$> a) ++ t ∧
    t ++ rest = mjoin (ws_frame <$> b) ++ tail ∧
    (∀ m b', b = m :: b' → (length t < length (ws_frame m))%nat).
Proof.
  induction ms as [|m ms IH]; intros s rest E.
  { by exists [], [], s. }
  destruct (decide (length s < length (ws_frame m))%nat) as [Hlt|Hge].
  { exists [], (m :: ms), s. split_and!; try done. by intros x b' [= <- _]. }
  rewrite frames_cons, <- app_assoc in E.
  assert (Es : s = ws_frame m ++ drop (length (ws_frame m)) s).
  { rewrite <- (take_drop (length (ws_frame m)) s) at 1. f_equal.
    rewrite <- (take_app_le s rest) by lia. by rewrite E, take_app_length. }
  rewrite Es, <- app_assoc in E. apply app_inv_head in E.
  destruct (IH _ _ E) as (a & b & t & -> & Ea & Et & Hb).
  exists (m :: a), b, t. split_and!; try done. rewrite frames_cons, <- app_assoc, <- Ea. done.
Qed.

Lemma frames_length a : (length a <= length (mjoin (ws_frame <$> a)))%nat.
Proof.
  induction a as [|m a IH]; [done|]. rewrite frames_cons, length_app, frame_length. simpl.
  unfold HDR. lia.
Qed.

(** A strict beginning of the next frame. *)
Lemma strict_prefix b tail t rest m0 u0 :
  t ++ rest = mjoin (ws_frame <$> b) ++ tail → Forall ws_message_ok b →
  (∀ m b', b = m :: b' → (length t < length (ws_frame m))%nat) →
  ws_message_ok m0 → ws_frame m0 = tail ++ u0 → u0 ≠ [] →
  ∃ m u, ws_message_ok m ∧ ws_frame m = t ++ u ∧ u ≠ [].
Proof.
  intros E Hb Hlt Hm0 E0 Hu0. destruct b as [|m b].
  - simpl in E. exists m0, (rest ++ u0). rewrite E0, <- E, app_assoc. split_and!; try done.
    intros [_ ?]%app_nil. done.
  - apply Forall_cons_1 in Hb as [Hm _]. specialize (Hlt m b eq_refl). exists m, (drop (length t) (ws_frame m)).
    split; [done|]. rewrite frames_cons, <- app_assoc in E. split.
    + rewrite <- (take_drop (length t) (ws_frame m)) at 1. f_equal.
      assert (Hle : (length t <= length (ws_frame m))%nat) by lia.
      rewrite <- (take_app_le _ (mjoin (ws_frame <$> b) ++ tail) _ Hle).
      by rewrite <- E, take_app_length.
    + intros Hn. apply (f_equal length) in Hn. rewrite length_drop in Hn. cbn [length] in Hn. lia.
Qed.

Lemma relay_ok chunks : ∀ ms tail t queued m0 u0,
  Forall ws_message_ok ms → ws_message_ok m0 → ws_frame m0 = tail ++ u0 → u0 ≠ [] →
  t ++ mjoin chunks = mjoin (ws_frame <$> ms) ++ tail →
  (∀ m b', ms = m :: b' → (length t < length (ws_frame m))%nat) →
  relay chunks (queued, t) = Ok (queued ++ ms, tail).
Proof.
  induction chunks as [|c chunks IH]; intros ms tail t queued m0 u0 Hms Hm0 E0 Hu0 E Ht.
  - change (mjoin []) with (@nil Z) in E. rewrite app_nil_r in E. destruct ms as [|m ms].
    + simpl in E. simpl. by rewrite app_nil_r, E.
    + specialize (Ht m ms eq_refl). rewrite E, frames_cons, !length_app in Ht. lia.
  - change (mjoin (c :: chunks)) with (c ++ mjoin chunks) in E. rewrite app_assoc in E.
    destruct (split_frames ms tail _ _ E) as (a & b & t' & -> & Es & Et & Hb).
    apply Forall_app in Hms as [Ha Hmb].
    destruct (strict_prefix b tail t' (mjoin chunks) m0 u0) as (m & u & Hm & Em & Hu); try done.
    cbn [relay]. unfold on_ws_relay_message. cbn [fst snd]. rewrite Es.
    rewrite (relay_frames a t' u m) by (done || (rewrite length_app; pose proof (frames_length a); lia)).
    cbn [mbind result_bind]. rewrite (IH b tail t' (queued ++ a) m0 u0) by done. by rewrite <- app_assoc.
Qed.

(** However the bytes written by [websocket_send] for a sequence of
    messages are cut on their way, the event loop queues these messages, in
    order, each as soon as all of it has arrived; what has arrived of the
    next one is kept. *)
Theorem relay_roundtrip ms chunks tail m u :
  Forall ws_message_ok ms → ws_message_ok m → ws_frame m = tail ++ u → u ≠ [] →
  mjoin chunks = mjoin (ws_frame <$> ms) ++ tail →
  relay chunks ([], []) = Ok (ms, tail).
Proof.
  intros Hms Hm Em Hu E. apply (relay_ok chunks ms tail [] [] m u); try done.
  intros x b' _. rewrite frame_length. unfold HDR. simpl. lia.
Qed.

(** A length close to [SIZE_MAX] wraps around in the check. *)
Lemma relay_length_wraps rest queued : Z.of_nat (length rest) < 2 ^ 63 →
  relay_loop 1 (1 :: le_bytes8 (2 ^ 64 - 1) ++ rest) queued = Undefined "read outside the buffer".
Proof.
  intros Hlt. cbn [relay_loop].
  assert (Hl : length (1 :: le_bytes8 (2 ^ 64 - 1) ++ rest) = (9 + length rest)%nat).
  { cbn [length]. rewrite length_app, le_bytes8_length. lia. }
  rewrite Hl. unfold HDR.
  destruct (Nat.eqb_spec (9 + length rest) 0); [lia|]. destruct (Nat.ltb_spec (9 + length rest) 9); [lia|].
  cbn [drop]. rewrite drop_0, take_app_le by (rewrite le_bytes8_length; lia).
  rewrite take_ge by (rewrite le_bytes8_length; lia).
  unfold le_val8, le_bytes8. rewrite rev_involutive, be_val_be_bytes.
  change (8 * Z.of_nat 8) with 64. rewrite Z.mod_small by lia.
  change (wrap_u 64 (Z.of_nat 9 + (2 ^ 64 - 1))) with 8.
  destruct (Z.ltb_spec (Z.of_nat (9 + length rest)) 8); [lia|].
  destruct (Z.ltb_spec (Z.of_nat (9 + length rest)) (Z.of_nat 9 + (2 ^ 64 - 1))); [done|lia].
Qed.

(** ** Requests between the threads *)

Inductive send_message_kind := MSG_KIND_SEND | MSG_KIND_ABORT | MSG_KIND_PROXY | MSG_KIND_UPGRADE_TO_WEBSOCKET.

(** A [handler_message_t] in the queue of the handler thread: by its address
    when it is an HTTP request. *)
Inductive handler_message := HttpMessage (a : Z) | WebsocketMessage (r : Z).

Record state := State {
  messages : gmap Z (option Z);             (* allocated [handler_message_t]: their [req] *)
  generator : gmap Z bool;                  (* live requests: [_generator != NULL] *)
  message_of : gmap Z Z;                    (* the [msgref] in the pool of a request *)
  handler_queue : list handler_message;
  event_queue : list (Z * send_message_kind);
  requests_in_flight : Z;
  listening : gset Z;
  paused_listeners : gset Z;
  accepted : Z;
  answered : list Z                         (* requests given back to H2O *)
}.

Section Threads.
(** [malloc]; what a handler makes of a request; whether a connection can be
    upgraded. *)
Context (malloc : gset Z → Z) (reply_to : Z → send_message_kind) (upgrades : Z → bool).

Definition set_in_flight (n : Z) (s : state) : state :=
  State (messages s) (generator s) (message_of s) (handler_queue s) (event_queue s) n (listening s)
    (paused_listeners s) (accepted s) (answered s).
Definition set_handler_queue (q : list handler_message) (s : state) : state :=
  State (messages s) (generator s) (message_of s) q (event_queue s) (requests_in_flight s) (listening s)
    (paused_listeners s) (accepted s) (answered s).
Definition set_event_queue (q : list (Z * send_message_kind)) (s : state) : state :=
  State (messages s) (generator s) (message_of s) (handler_queue s) q (requests_in_flight s) (listening s)
    (paused_listeners s) (accepted s) (answered s).
Definition set_messages (m : gmap Z (option Z)) (s : state) : state :=
  State m (generator s) (message_of s) (handler_queue s) (event_queue s) (requests_in_flight s)
    (listening s) (paused_listeners s) (accepted s) (answered s).
Definition set_generator (g : gmap Z bool) (s : state) : state :=
  State (messages s) g (message_of s) (handler_queue s) (event_queue s) (requests_in_flight s)
    (listening s) (paused_listeners s) (accepted s) (answered s).
Definition answer (r : Z) (s : state) : state :=
  State (messages s) (generator s) (message_of s) (handler_queue s) (event_queue s)
    (requests_in_flight s) (listening s) (paused_listeners s) (accepted s) (answered s ++ [r]).
Definition pause (l : Z) (s : state) : state :=
  State (messages s) (generator s) (message_of s) (handler_queue s) (event_queue s)
    (requests_in_flight s) (listening s ∖ {[l]}) (paused_listeners s ∪ {[l]}) (accepted s) (answered s).
Definition accept (s : state) : state :=
  State (messages s) (generator s) (message_of s) (handler_queue s) (event_queue s)
    (requests_in_flight s) (listening s) (paused_listeners s) (accepted s + 1) (answered s).

(** [h2o_socket_read_start] for all paused listeners. *)
Definition resume_listeners (s : state) : state :=
  State (messages s) (generator s) (message_of s) (handler_queue s) (event_queue s)
    (requests_in_flight s) (listening s ∪ paused_listeners s) ∅ (accepted s) (answered s).

(** A new message for the request [r]. *)
Definition new_message (a r : Z) (s : state) : state :=
  State (<[a := Some r]> (messages s)) (<[r := false]> (generator s)) (<[r := a]> (message_of s))
    (handler_queue s ++ [HttpMessage a]) (event_queue s) (wrap_u 64 (requests_in_flight s + 1))
    (listening s) (paused_listeners s) (accepted s) (answered s).

(** A request of HTTP/2 or above goes to another worker while this one is
    busy. *)
Definition event_loop_req_handler (r version : Z) : M state unit :=
  s ← get_st;
  if (0 <? requests_in_flight s) && (512 <=? version) then modify_st (answer r)
  else modify_st (new_message (malloc (dom (messages s))) r).

Definition on_accept (listener : Z) (err : bool) (connection : bool) : M state unit :=
  s ← get_st;
  if 0 <? requests_in_flight s then modify_st (pause listener)
  else if err then mret ()
  else when connection (modify_st accept).

(** The handler thread takes one message.  [handler] answers a live request
    with exactly one message; [h2o_queue_send_inline] starts the response.
    When the connection is gone, it frees the message, whose mutex is
    unlocked afterwards. *)
Definition handler_on_message : M state unit :=
  s ← get_st;
  match handler_queue s with
  | [] => mret ()
  | WebsocketMessage _ :: q => modify_st (set_handler_queue q)
  | HttpMessage a :: q =>
      _ ← modify_st (set_handler_queue q);
      match messages s !! a with
      | None => undefined "use of freed memory"
      | Some None =>
          _ ← modify_st (set_messages (delete a (messages s)));
          undefined "use of freed memory"
      | Some (Some r) =>
          let k := reply_to r in
          _ ← when (match k with MSG_KIND_SEND => true | _ => false end)
                (modify_st (set_generator (<[r := true]> (generator s))));
          modify_st (λ s, set_event_queue (event_queue s ++ [(a, k)]) s)
      end
  end.

(** The event loop takes one message.  [reqmsg] points into the middle of the
    allocated message. *)
Definition event_loop_on_message : M state unit :=
  s ← get_st;
  match event_queue s with
  | [] => mret ()
  | (a, kind) :: q =>
      _ ← modify_st (set_event_queue q);
      match messages s !! a with
      | None => undefined "use of freed memory"
      | Some m =>
          let n := wrap_u 64 (requests_in_flight s - 1) in
          _ ← modify_st (set_in_flight n);
          _ ← when (n =? 0) (modify_st resume_listeners);
          match m with
          | None => undefined "free of a pointer that was not allocated"
          | Some r =>
              match kind with
              | MSG_KIND_SEND =>
                  _ ← modify_st (set_generator (<[r := false]> (generator s)));
                  modify_st (answer r)
              | MSG_KIND_ABORT | MSG_KIND_PROXY => modify_st (answer r)
              | MSG_KIND_UPGRADE_TO_WEBSOCKET =>
                  when (upgrades r)
                    (_ ← modify_st (answer r);
                     modify_st (λ s, set_handler_queue (handler_queue s ++ [WebsocketMessage r]) s))
              end
          end
      end
  end.

(** H2O clears the pool of a request.  [h2o_dispose_request] has closed the
    generator before. *)
Definition req_dispose (r : Z) : M state unit :=
  _ ← modify_st (λ s, set_generator (<[r := false]> (generator s)) s);
  s ← get_st;
  match message_of s !! r with
  | None => mret ()
  | Some a =>
      match messages s !! a with
      | None => undefined "use of freed memory"
      | Some m =>
          let dispose_req_message :=
            bool_decide (is_Some m) && negb (default false (generator s !! r)) in
          modify_st (set_messages
            (if dispose_req_message then delete a (messages s) else <[a := None]> (messages s)))
      end
  end.

(** What the threads and H2O do, one after the other. *)
Inductive op :=
  | Request (r version : Z)
  | Accept (listener : Z) (err connection : bool)
  | Handle
  | Deliver
  | Dispose (r : Z)
  | Reload.

Definition exec (o : op) : M state unit :=
  match o with
  | Request r version => event_loop_req_handler r version
  | Accept l err c => on_accept l err c
  | Handle => handler_on_message
  | Deliver => event_loop_on_message
  | Dispose r => req_dispose r
  | Reload => modify_st resume_listeners
  end.

(** ** Runs in which requests live until they are answered *)

Definition http_address (m : handler_message) : option Z :=
  match m with HttpMessage a => Some a | WebsocketMessage _ => None end.

(** The messages of the requests on their way, and these requests. *)
Definition queued (s : state) : list Z := omap http_address (handler_queue s) ++ (event_queue s).*1.
Definition request_at (s : state) (a : Z) : option Z := mjoin (messages s !! a).
Definition pending (s : state) : list Z := omap (request_at s) (queued s).

Definition init (listeners : gset Z) : state := State ∅ ∅ ∅ [] [] 0 listeners ∅ 0 [].

(** [R] are the requests so far.  H2O gives every request once, and disposes
    of one once and not before it was answered; there are fewer than 2^64. *)
Definition allowed (R : list Z) (s : state) (o : op) : Prop :=
  match o with
  | Request r _ => r ∉ R ∧ requests_in_flight s + 1 < 2 ^ 64
  | Dispose r => ∀ a, message_of s !! r = Some a → messages s !! a = Some (Some r) ∧ a ∉ queued s
  | _ => True
  end.

Definition requests_of (o : op) : list Z := match o with Request r _ => [r] | _ => [] end.

Inductive reachable (L : gset Z) : list Z → state → Prop :=
  | reachable_init : reachable L [] (init L)
  | reachable_step R s o s' :
      reachable L R s → allowed R s o →
      (match o with Accept l _ _ => l ∈ L | _ => True end) →
      exec o s = (Ok (), s') → reachable L (requests_of o ++ R) s'.

(** A request that is not answered: the upgrade of its connection failed. *)
Definition unanswered (r : Z) : Prop := reply_to r = MSG_KIND_UPGRADE_TO_WEBSOCKET ∧ upgrades r = false.

Record inv (L : gset Z) (R : list Z) (s : state) : Prop := Inv {
  inv_nodup : NoDup (queued s);
  inv_live : ∀ a, a ∈ queued s → ∃ r, messages s !! a = Some (Some r);
  inv_message : ∀ a r, messages s !! a = Some (Some r) → message_of s !! r = Some a;
  inv_in_flight : requests_in_flight s = Z.of_nat (length (queued s));
  inv_bound : requests_in_flight s < 2 ^ 64;
  inv_kind : ∀ a k r, (a, k) ∈ event_queue s → messages s !! a = Some (Some r) → k = reply_to r;
  inv_listeners : listening s ∪ paused_listeners s = L;
  inv_paused : requests_in_flight s = 0 → paused_listeners s = ∅;
  inv_seen : ∀ a r, messages s !! a = Some (Some r) → r ∈ R;
  inv_requests : ∃ lost, Forall unanswered lost ∧ R ≡ₚ (answered s ++ lost) ++ pending s
}.

Class MallocLaws : Prop := malloc_fresh : ∀ X, malloc X ∉ X.

Lemma requests_ext s s' (l : list Z) :
  (∀ a, a ∈ l → messages s' !! a = messages s !! a) → omap (request_at s') l = omap (request_at s) l.
Proof.
  induction l as [|a l IH]; intros Em; [done|]. csimpl.
  assert (request_at s' a = request_at s a) as -> by (unfold request_at; by rewrite Em by left).
  rewrite IH; [done|]. intros x Hx. apply Em. by right.
Qed.

Lemma event_queued s a k : (a, k) ∈ event_queue s → a ∈ queued s.
Proof.
  intros H. unfold queued. apply elem_of_app. right. apply list_elem_of_fmap. by exists (a, k).
Qed.

Lemma inv_init L : inv L [] (init L).
Proof.
  split; try done; simpl.
  - constructor.
  - by intros a ?%not_elem_of_nil.
  - by rewrite union_empty_r_L.
  - by exists [].
Qed.

Lemma inv_request `{MallocLaws} L R s r version :
  inv L R s → allowed R s (Request r version) →
  ∃ s', exec (Request r version) s = (Ok (), s') ∧ inv L (r :: R) s'.
Proof.
  intros [Hnd Hlive Hmsg Hfl Hb Hk Hl Hp Hseen (lost & Hlost & HR)] [Hr Hlt]. simpl.
  unfold event_loop_req_handler. rewrite get_bind.
  destruct ((0 <? requests_in_flight s) && (512 <=? version)).
  - eexists. split; [done|]. split; try done.
    + intros a x Hx. right. by eapply Hseen.
    + exists lost. split; [done|]. simpl. rewrite HR. change (pending (answer r s)) with (pending s).
      rewrite <- !app_assoc. simpl. apply Permutation_middle.
  - set (a := malloc (dom (messages s))).
    assert (Ha : messages s !! a = None) by (apply not_elem_of_dom, malloc_fresh).
    assert (Hq : a ∉ queued s) by (intros Hin; destruct (Hlive _ Hin); congruence).
    assert (Eq : queued (new_message a r s) ≡ₚ a :: queued s).
    { unfold queued. simpl. rewrite omap_app. simpl. rewrite <- app_assoc. symmetry.
      apply Permutation_middle. }
    eexists. split; [done|].
    assert (Hw : wrap_u 64 (requests_in_flight s + 1) = requests_in_flight s + 1)
      by (apply wrap_u_id; unfold in_u; lia).
    assert (Hlook : ∀ b, b ∈ queued s → messages (new_message a r s) !! b = messages s !! b).
    { intros b Hbq. simpl. apply lookup_insert_ne. by intros ->. }
    split; simpl.
    + rewrite Eq. by apply list.NoDup_cons.
    + intros b. rewrite Eq. intros [->|Hbq]%elem_of_cons; [exists r; by rewrite lookup_insert_eq|].
      destruct (Hlive b Hbq) as [x Hx]. exists x. by rewrite lookup_insert_ne by (by intros ->).
    + intros b x. rewrite lookup_insert_Some. intros [[-> [= ->]]|[Hne Hx]]; [by rewrite lookup_insert_eq|].
      rewrite lookup_insert_ne; [by apply Hmsg|]. intros ->. apply Hr. by eapply Hseen.
    + rewrite Hw, Hfl, Eq. simpl. lia.
    + lia.
    + intros b k x Hin. rewrite lookup_insert_Some. intros [[<- _]|[_ Hx]]; [|by eapply Hk].
      exfalso. apply Hq. by eapply event_queued.
    + done.
    + lia.
    + intros b x. rewrite lookup_insert_Some. intros [[_ [= ->]]|[_ Hx]]; [left|right; by eapply Hseen].
    + exists lost. split; [done|].
      assert (Ep : pending (new_message a r s) ≡ₚ r :: pending s).
      { unfold pending. rewrite Eq. simpl. unfold request_at at 1. simpl. rewrite lookup_insert_eq. simpl.
        by rewrite (requests_ext s). }
      rewrite Ep, HR. apply Permutation_middle.
Qed.

(** Steps that only concern the listeners. *)
Lemma inv_set_listeners L R s l p acc :
  inv L R s → l ∪ p = L → (requests_in_flight s = 0 → p = ∅) →
  inv L R (State (messages s) (generator s) (message_of s) (handler_queue s) (event_queue s)
    (requests_in_flight s) l p acc (answered s)).
Proof. intros [Hnd Hlive Hmsg Hfl Hb Hk Hl Hp Hseen HR] Hlp Hp'. by split. Qed.

Lemma inv_accept L R s l err c :
  inv L R s → l ∈ L → ∃ s', exec (Accept l err c) s = (Ok (), s') ∧ inv L R s'.
Proof.
  intros Hi Hl. simpl. unfold on_accept. rewrite get_bind.
  destruct (Z.ltb_spec 0 (requests_in_flight s)).
  - eexists. split; [done|]. apply inv_set_listeners; [done| |lia].
    rewrite <- (inv_listeners _ _ _ Hi). rewrite <- (inv_listeners _ _ _ Hi) in Hl.
    apply set_eq. intros x. rewrite !elem_of_union, elem_of_difference, elem_of_singleton.
    rewrite elem_of_union in Hl. destruct (decide (x = l)) as [->|]; tauto.
  - destruct err; [by eexists|]. destruct c; [|by eexists]. eexists. split; [done|].
    apply inv_set_listeners; [done|apply (inv_listeners _ _ _ Hi)|apply (inv_paused _ _ _ Hi)].
Qed.

Lemma inv_resume L R s : inv L R s → inv L R (resume_listeners s).
Proof.
  intros Hi. apply inv_set_listeners; [done| |done].
  by rewrite union_empty_r_L, (inv_listeners _ _ _ Hi).
Qed.

(** A message that moves from one queue to the other. *)
Lemma inv_move L R s hq eq g a r :
  inv L R s → messages s !! a = Some (Some r) → handler_queue s = HttpMessage a :: hq →
  eq = event_queue s ++ [(a, reply_to r)] →
  inv L R (State (messages s) g (message_of s) hq eq (requests_in_flight s) (listening s)
    (paused_listeners s) (accepted s) (answered s)).
Proof.
  intros [Hnd Hlive Hmsg Hfl Hb Hk Hl Hp Hseen (lost & Hlost & HR)] Hr Eh ->.
  set (s' := State _ _ _ _ _ _ _ _ _ _).
  assert (Eq : queued s' ≡ₚ queued s).
  { unfold queued, s'. simpl. rewrite Eh, fmap_app. csimpl. rewrite app_assoc.
    symmetry. apply Permutation_cons_append. }
  split; try done; [..|exists lost; split; [done|]].
  - by rewrite Eq.
  - intros b. rewrite Eq. apply Hlive.
  - simpl. by rewrite Eq.
  - simpl. intros b k x [Hin|Hin]%elem_of_app; [by eapply Hk|].
    apply list_elem_of_singleton in Hin as [= -> ->]. simpl. congruence.
  - rewrite HR. unfold pending. rewrite Eq. done.
Qed.

Lemma inv_handle L R s : inv L R s →
  ∃ s', exec Handle s = (Ok (), s') ∧ inv L R s' ∧
    length (queued s') = length (queued s) ∧ handler_queue s' = tail (handler_queue s).
Proof.
  intros Hi. simpl. unfold handler_on_message. rewrite get_bind.
  destruct (handler_queue s) as [|[a|w] q] eqn:Eh.
  - exists s. by rewrite Eh.
  - rewrite modify_bind. destruct (inv_live _ _ _ Hi a) as [r Hr].
    { unfold queued. rewrite Eh. simpl. left. }
    rewrite Hr.
    assert (Hm : ∀ g, inv L R (State (messages s) g (message_of s) q (event_queue s ++ [(a, reply_to r)])
      (requests_in_flight s) (listening s) (paused_listeners s) (accepted s) (answered s))).
    { intros g. by eapply inv_move. }
    assert (Hlen : length (omap http_address q ++ (event_queue s ++ [(a, reply_to r)]).*1) = length (queued s)).
    { unfold queued. rewrite Eh, fmap_app. csimpl. rewrite !length_app. simpl. lia. }
    unfold when. destruct (reply_to r); rewrite ?modify_bind;
      (eexists; split; [done|split; [apply Hm|done]]).
  - eexists. split; [done|]. split; [|unfold queued; simpl; by rewrite Eh].
    destruct Hi as [Hnd Hlive Hmsg Hfl Hb Hk Hl Hp Hseen HR].
    assert (Eq : queued (set_handler_queue q s) = queued s) by (unfold queued; simpl; by rewrite Eh).
    split; try done; unfold pending; rewrite ?Eq; try done.
Qed.

(** A message that has been taken out of the queue of the event loop. *)
Lemma inv_taken L R s hq a r q n ans g :
  inv L R s → messages s !! a = Some (Some r) → event_queue s = (a, reply_to r) :: q →
  omap http_address hq = omap http_address (handler_queue s) →
  n = requests_in_flight s - 1 →
  (ans = answered s ++ [r] ∨ ans = answered s ∧ unanswered r) →
  inv L R (State (messages s) g (message_of s) hq q n
    (if n =? 0 then listening s ∪ paused_listeners s else listening s)
    (if n =? 0 then ∅ else paused_listeners s) (accepted s) ans).
Proof.
  intros [Hnd Hlive Hmsg Hfl Hb Hk Hl Hp Hseen (lost & Hlost & HR)] Hr Ee Eh -> Hans.
  set (s' := State _ _ _ _ _ _ _ _ _ _).
  assert (Eq : queued s ≡ₚ a :: queued s').
  { unfold queued, s'. simpl. rewrite Ee, Eh. csimpl. symmetry. apply Permutation_middle. }
  rewrite Eq in Hnd. apply list.NoDup_cons in Hnd as [Hna Hnd].
  assert (Hlen : length (queued s) = S (length (queued s'))) by by rewrite Eq.
  assert (Ep : pending s ≡ₚ r :: pending s').
  { unfold pending at 1. rewrite Eq. simpl. unfold request_at at 1. by rewrite Hr. }
  split; simpl; try done.
  - intros b Hbq. apply Hlive. rewrite Eq. by right.
  - lia.
  - lia.
  - intros b k x Hin. apply Hk. rewrite Ee. by right.
  - destruct (_ =? 0); [by rewrite union_empty_r_L|done].
  - by intros ->%Z.eqb_eq.
  - destruct Hans as [->|[-> Hun]].
    + exists lost. split; [done|]. rewrite HR, Ep. rewrite <- !app_assoc. simpl.
      apply Permutation_app_head. rewrite <- Permutation_middle. done.
    + exists (lost ++ [r]). split; [by apply Forall_app_2; [|constructor]|]. rewrite HR, Ep.
      by rewrite <- !app_assoc.
Qed.

Lemma inv_deliver L R s : inv L R s →
  ∃ s', exec Deliver s = (Ok (), s') ∧ inv L R s' ∧ event_queue s' = tail (event_queue s) ∧
    omap http_address (handler_queue s') = omap http_address (handler_queue s).
Proof.
  intros Hi. simpl. unfold event_loop_on_message. rewrite get_bind.
  destruct (event_queue s) as [|[a k] q] eqn:Ee; [exists s; by rewrite Ee|].
  assert (Hq : a ∈ queued s) by (apply (event_queued s a k); rewrite Ee; left).
  destruct (inv_live _ _ _ Hi a Hq) as [r Hr]. rewrite modify_bind, Hr.
  assert (k = reply_to r) as Hk by (eapply (inv_kind _ _ _ Hi a); [rewrite Ee; left|done]).
  assert (Hn : wrap_u 64 (requests_in_flight s - 1) = requests_in_flight s - 1).
  { pose proof (inv_bound _ _ _ Hi). pose proof (inv_in_flight _ _ _ Hi).
    assert (length (queued s) ≠ 0%nat) by (destruct (queued s); [by apply not_elem_of_nil in Hq|done]).
    apply wrap_u_id. unfold in_u. lia. }
  rewrite Hn, modify_bind. subst k.
  set (n := requests_in_flight s - 1) in *.
  assert (HT : ∀ hq ans g, omap http_address hq = omap http_address (handler_queue s) →
    (ans = answered s ++ [r] ∨ ans = answered s ∧ unanswered r) →
    inv L R (State (messages s) g (message_of s) hq q n
      (if n =? 0 then listening s ∪ paused_listeners s else listening s)
      (if n =? 0 then ∅ else paused_listeners s) (accepted s) ans)).
  { intros. by eapply inv_taken. }
  assert (Happ : omap http_address (handler_queue s ++ [WebsocketMessage r]) =
    omap http_address (handler_queue s)) by (rewrite omap_app; by rewrite app_nil_r).
  revert HT. destruct (n =? 0); intros HT; unfold when; rewrite ?modify_bind.
  all: destruct (reply_to r) eqn:Ek; try destruct (upgrades r) eqn:Eu; rewrite ?modify_bind.
  all: eexists; (split; [done|]); (split; [|by simpl]).
  all: apply HT; auto; right; by split; [|split].
Qed.

Lemma inv_dispose L R s r : inv L R s → allowed R s (Dispose r) →
  ∃ s', exec (Dispose r) s = (Ok (), s') ∧ inv L R s'.
Proof.
  intros [Hnd Hlive Hmsg Hfl Hb Hk Hl Hp Hseen HR] Ha. simpl. unfold req_dispose.
  rewrite modify_bind, get_bind. simpl. destruct (message_of s !! r) as [a|] eqn:Em.
  2:{ eexists. split; [done|]. by split. }
  destruct (Ha a Em) as [Hr Hq]. rewrite Hr, lookup_insert_eq. simpl.
  eexists. split; [done|]. set (s' := set_messages _ _).
  assert (Hin : ∀ b, b ∈ queued s → messages s' !! b = messages s !! b).
  { intros b Hbq. simpl. apply lookup_delete_ne. by intros ->. }
  assert (Hsome : ∀ b x, messages s' !! b = Some (Some x) → messages s !! b = Some (Some x)).
  { intros b x. simpl. rewrite lookup_delete_Some. tauto. }
  split; try done.
  - intros b Hbq. destruct (Hlive b Hbq) as [x Hx]. exists x. by rewrite Hin.
  - intros b x Hx%Hsome. by apply Hmsg.
  - intros b k x Hbk Hx%Hsome. by eapply Hk.
  - intros b x Hx%Hsome. by eapply Hseen.
  - destruct HR as (lost & Hlost & HR). exists lost. split; [done|].
    change (pending s') with (omap (request_at s') (queued s)). by rewrite (requests_ext s s').
Qed.

Lemma exec_inv `{MallocLaws} L R s o :
  inv L R s → allowed R s o → (match o with Accept l _ _ => l ∈ L | _ => True end) →
  ∃ s', exec o s = (Ok (), s') ∧ inv L (requests_of o ++ R) s'.
Proof.
  intros Hi Ha Hl. destruct o as [r v|l err c| | |r|].
  - by apply inv_request.
  - by apply inv_accept.
  - destruct (inv_handle L R s Hi) as (s' & E & Hi' & _). by exists s'.
  - destruct (inv_deliver L R s Hi) as (s' & E & Hi' & _). by exists s'.
  - by apply inv_dispose.
  - eexists. split; [done|]. by apply inv_resume.
Qed.

Lemma threads_inv `{MallocLaws} L R s : reachable L R s → inv L R s.
Proof.
  induction 1 as [|R s o s' _ IH Ha Hl E]; [apply inv_init|].
  destruct (exec_inv L R s o IH Ha Hl) as (s1 & E1 & Hi). rewrite E1 in E. by simplify_eq.
Qed.

(** C6. As long as requests live until they are answered, no interleaving of
    the threads uses freed memory: every step returns.  The number of
    requests in flight is that of the requests on their way; a request is
    on its way or was answered, once (unless its upgrade failed); and a worker
    that is not busy has no paused listeners. *)
Theorem event_loop_invariant `{MallocLaws} L R s :
  reachable L R s →
  (∀ o, allowed R s o → (match o with Accept l _ _ => l ∈ L | _ => True end) →
    ∃ s', exec o s = (Ok (), s')) ∧
  requests_in_flight s = Z.of_nat (length (queued s)) ∧
  listening s ∪ paused_listeners s = L ∧ (requests_in_flight s = 0 → paused_listeners s = ∅) ∧
  ∃ lost, Forall unanswered lost ∧ R ≡ₚ (answered s ++ lost) ++ pending s.
Proof.
  intros Hr%threads_inv. split_and!; [|by apply Hr..].
  intros o Ha Hl. destruct (exec_inv L R s o Hr Ha Hl) as (s' & E & _). by exists s'.
Qed.

(** ** The queues are emptied *)

Lemma handle_all L R n : ∀ s, inv L R s → length (handler_queue s) = n →
  ∃ s', for_each exec (replicate n Handle) s = (Ok (), s') ∧ inv L R s' ∧
    handler_queue s' = [] ∧ length (queued s') = length (queued s).
Proof.
  induction n as [|n IH]; intros s Hi Hn.
  { exists s. by destruct (handler_queue s). }
  destruct (inv_handle L R s Hi) as (s1 & E & Hi1 & Hl & Eq).
  destruct (IH s1 Hi1) as (s2 & E2 & Hi2 & Hq & Hl2).
  { rewrite Eq. destruct (handler_queue s); simpl in *; lia. }
  exists s2. split_and!; [|done|done|by rewrite Hl2]. simpl. by rewrite (bind_ok _ _ _ _ _ E).
Qed.

Lemma deliver_all L R n : ∀ s, inv L R s → omap http_address (handler_queue s) = [] →
  length (queued s) = n →
  ∃ s', for_each exec (replicate n Deliver) s = (Ok (), s') ∧ inv L R s' ∧ queued s' = [].
Proof.
  induction n as [|n IH]; intros s Hi Hh Hn.
  { exists s. split_and!; try done. by destruct (queued s). }
  destruct (inv_deliver L R s Hi) as (s1 & E & Hi1 & Ee & Eh). unfold queued in Hn. rewrite Hh in Hn.
  simpl in Hn. rewrite length_fmap in Hn.
  destruct (IH s1 Hi1) as (s2 & E2 & Hi2 & Hq).
  { by rewrite Eh. }
  { unfold queued. rewrite Eh, Hh. simpl. rewrite length_fmap, Ee. destruct (event_queue s); simpl in *; lia. }
  exists s2. split_and!; [|done|done]. simpl. by rewrite (bind_ok _ _ _ _ _ E).
Qed.

(** C35. When the handler thread has taken the messages that are waiting for it
    and the event loop those that wait for it then, every request is answered
    (unless its upgrade failed), none is in flight, and all listeners accept
    connections again. *)
Theorem event_loop_drains `{MallocLaws} L R s :
  reachable L R s →
  ∃ s' lost,
    for_each exec (replicate (length (handler_queue s)) Handle ++ replicate (length (queued s)) Deliver) s =
      (Ok (), s') ∧
    requests_in_flight s' = 0 ∧ listening s' = L ∧ Forall unanswered lost ∧ R ≡ₚ answered s' ++ lost.
Proof.
  intros Hr%threads_inv. destruct (handle_all L R _ s Hr eq_refl) as (s1 & E1 & Hi1 & Hq1 & Hl1).
  destruct (deliver_all L R (length (queued s)) s1 Hi1) as (s2 & E2 & Hi2 & Hq2);
    [by rewrite Hq1|done|].
  destruct (inv_requests _ _ _ Hi2) as (lost & Hlost & HR).
  exists s2, lost. pose proof (inv_in_flight _ _ _ Hi2) as Hf. rewrite Hq2 in Hf. simpl in Hf.
  split_and!; try done.
  - by rewrite (for_each_app _ _ _ _ _ E1).
  - rewrite <- (inv_listeners _ _ _ Hi2), (inv_paused _ _ _ Hi2 Hf). by rewrite union_empty_r_L.
  - rewrite HR. unfold pending. rewrite Hq2. simpl. by rewrite app_nil_r.
Qed.

(** C40. A request that H2O disposes of while its message waits for the handler
    thread or for the event loop (a client that closes its connection) takes
    the message with it: the thread that gets to it uses freed memory. *)
Theorem disposed_request_used `{MallocLaws} L R s r a :
  reachable L R s → messages s !! a = Some (Some r) → a ∈ queued s →
  ∃ s', exec (Dispose r) s = (Ok (), s') ∧
    ((∃ q, handler_queue s = HttpMessage a :: q) → (exec Handle s').1 = Undefined "use of freed memory") ∧
    ((∃ k q, event_queue s = (a, k) :: q) → (exec Deliver s').1 = Undefined "use of freed memory").
Proof.
  intros Hr%threads_inv Ha Hq. pose proof (inv_message _ _ _ Hr _ _ Ha) as Hm.
  simpl. unfold req_dispose. rewrite modify_bind, get_bind. simpl. rewrite Hm, Ha, lookup_insert_eq. simpl.
  eexists. split; [done|]. split.
  - intros [q E]. unfold handler_on_message. rewrite get_bind. simpl. rewrite E, modify_bind. simpl.
    by rewrite lookup_delete_eq.
  - intros (k & q & E). unfold event_loop_on_message. rewrite get_bind. simpl. rewrite E, modify_bind. simpl.
    by rewrite lookup_delete_eq.
Qed.

End Threads.

(** ** Witnesses *)

Definition demo_malloc (X : gset Z) : Z := 1 + set_fold Z.max 0 X.
#[export] Instance demo_malloc_laws : MallocLaws demo_malloc.
Proof. intros X. apply fresh_max. Qed.

Definition demo_reply (r : Z) : send_message_kind := MSG_KIND_SEND.
Definition demo_upgrades (r : Z) : bool := true.

(** One request waits for the handler thread, a second one is answered by
    another worker, and the listener is paused. *)
Definition demo_state : state :=
  State {[1 := Some 100]} {[100 := false]} {[100 := 1]} [HttpMessage 1] [] 1 ∅ {[7]} 0 [200].

Lemma demo_reachable : reachable demo_malloc demo_reply demo_upgrades {[7]} [200; 100] demo_state.
Proof.
  apply (reachable_step _ _ _ _ [200; 100]
    (State {[1 := Some 100]} {[100 := false]} {[100 := 1]} [HttpMessage 1] [] 1 {[7]} ∅ 0 [200])
    (Accept 7 false true)); [|done|set_solver|vm_compute; reflexivity].
  apply (reachable_step _ _ _ _ [100]
    (State {[1 := Some 100]} {[100 := false]} {[100 := 1]} [HttpMessage 1] [] 1 {[7]} ∅ 0 [])
    (Request 200 512)); [|by_decide|done|vm_compute; reflexivity].
  apply (reachable_step _ _ _ _ [] (init {[7]}) (Request 100 256));
    [constructor|by_decide|done|vm_compute; reflexivity].
Qed.

Lemma socket_path_fits_witness :
  ∃ p, websocket_unix_socket_path (str_bytes "/tmp") (replicate 108 0) (replicate 16 7) =
    Ok (Some (p, stamp 4 (replicate 16 7))) ∧ length p = SUN_PATH.
Proof.
  destruct (socket_path_fits (str_bytes "/tmp") (replicate 108 0) (replicate 16 7)) as (p & E & Hl & _).
  - reflexivity.
  - reflexivity.
  - by_decide.
  - by_decide.
  - exists p. split; [exact E|exact Hl].
Defined.

Lemma relay_roundtrip_witness :
  relay [[0; 2; 0; 0; 0]; [0; 0; 0; 0; 104; 105; 1; 3]; [0]] ([], []) =
    Ok ([WsMessage true [104; 105]], [1; 3; 0]).
Proof.
  apply (relay_roundtrip [WsMessage true [104; 105]] _ [1; 3; 0] (WsMessage false [1; 2; 3])
    [0; 0; 0; 0; 0; 0; 1; 2; 3]).
  - by_decide.
  - vm_compute. reflexivity.
  - vm_compute. reflexivity.
  - discriminate.
  - vm_compute. reflexivity.
Defined.

Lemma event_loop_invariant_witness :
  reachable demo_malloc demo_reply demo_upgrades {[7]} [200; 100] demo_state ∧
  requests_in_flight demo_state = 1 ∧ listening demo_state ∪ paused_listeners demo_state = {[7]}.
Proof.
  split; [exact demo_reachable|].
  destruct (event_loop_invariant demo_malloc demo_reply demo_upgrades {[7]} [200; 100] demo_state
    demo_reachable) as (_ & H1 & H2 & _). split; [exact H1|exact H2].
Defined.

Lemma event_loop_drains_witness :
  ∃ s', for_each (exec demo_malloc demo_reply demo_upgrades) [Handle; Deliver] demo_state = (Ok (), s') ∧
    requests_in_flight s' = 0 ∧ listening s' = {[7]}.
Proof.
  destruct (event_loop_drains demo_malloc demo_reply demo_upgrades {[7]} [200; 100] demo_state
    demo_reachable) as (s' & lost & E & H1 & H2 & _). exists s'. split; [exact E|]. split; [exact H1|exact H2].
Defined.

Lemma disposed_request_used_witness :
  ∃ s', exec demo_malloc demo_reply demo_upgrades (Dispose 100) demo_state = (Ok (), s') ∧
    (exec demo_malloc demo_reply demo_upgrades Handle s').1 = Undefined "use of freed memory".
Proof.
  destruct (disposed_request_used demo_malloc demo_reply demo_upgrades {[7]} [200; 100] demo_state 100 1
    demo_reachable) as (s' & E & H1 & _).
  - vm_compute. reflexivity.
  - vm_compute. left.
  - exists s'. split; [exact E|]. apply H1. exists []. reflexivity.
Defined.

End EventLoop.
