(* ===== verification/Suspension.v ===== *)
(** * Suspending the event loop during a reload: [omni_httpd]

    While the main thread of an HTTP worker (http_worker.c) reloads its
    listeners, the event loop (event_loop.c) is to be suspended: the threads
    share two flags, a mutex and two condition variables, and signals set the
    flags [worker_reload] and [worker_running].  A thread is where it is in its
    code; one that waits on a condition variable is woken by the other's
    signal.  What a thread does while it holds the mutex is one step. *)

From Stdlib Require Import ZArith Lia.
From stdpp Require Import base tactics list numbers finite.
From S2P Require Import Prelude.

Module Suspension.

(** The main thread: at the head of its loop, before the exchange of
    [worker_reload], reloading, before [event_loop_suspended = false], before
    the signal, before the test of the flags, in [h2o_evloop_run], before the
    wait for the event loop, and in it. *)
Inductive main_pc :=
  MTest | MExchange | MReloading | MResume | MSignal | MCheck | MPoll | MWait | MBlocked | MExit.

(** The event loop: at the head of its loop, before the test of
    [event_loop_suspended] under the mutex, in its wait, in [h2o_evloop_run],
    and before it says that it has stopped. *)
Inductive loop_pc := LTest | LSuspended | LWaiting | LRun | LAfter | LExit.

Record state := State {
  main : main_pc;
  loop : loop_pc;
  running : bool;                 (* of the event loop *)
  event_loop_suspended : bool;
  event_loop_resumed : bool;
  worker_reload : bool;
  worker_running : bool
}.

#[export] Instance main_pc_eq_dec : EqDecision main_pc.
Proof. solve_decision. Defined.
#[export] Instance loop_pc_eq_dec : EqDecision loop_pc.
Proof. solve_decision. Defined.
#[export] Instance state_eq_dec : EqDecision state.
Proof. solve_decision. Defined.

#[export] Program Instance main_pc_finite : Finite main_pc :=
  {| enum := [MTest; MExchange; MReloading; MResume; MSignal; MCheck; MPoll; MWait; MBlocked; MExit] |}.
Next Obligation. by_decide. Qed.
Next Obligation. intros []; by_decide. Qed.
#[export] Program Instance loop_pc_finite : Finite loop_pc :=
  {| enum := [LTest; LSuspended; LWaiting; LRun; LAfter; LExit] |}.
Next Obligation. by_decide. Qed.
Next Obligation. intros []; by_decide. Qed.

Definition set_main (m : main_pc) (s : state) : state :=
  State m (loop s) (running s) (event_loop_suspended s) (event_loop_resumed s) (worker_reload s)
    (worker_running s).
Definition set_loop (l : loop_pc) (s : state) : state :=
  State (main s) l (running s) (event_loop_suspended s) (event_loop_resumed s) (worker_reload s)
    (worker_running s).
Definition set_flags (susp res : bool) (s : state) : state :=
  State (main s) (loop s) (running s) susp res (worker_reload s) (worker_running s).
Definition set_reload (b : bool) (s : state) : state :=
  State (main s) (loop s) (running s) (event_loop_suspended s) (event_loop_resumed s) b (worker_running s).

(** [pthread_cond_signal]: wakes the other thread if it waits. *)
Definition signal_resume (s : state) : state :=
  match loop s with LWaiting => set_loop LSuspended s | _ => s end.
Definition signal_ack (s : state) : state :=
  match main s with MBlocked => set_main MWait s | _ => s end.

(** One step of the main thread, from the exchange of [worker_reload] (whose
    body, the reload, is [Httpd.worker_reload]) to the wait for the event loop;
    [b] is whether the table of listeners could be
    locked, and whether [h2o_evloop_run] failed. *)
Definition main_step (b : bool) (s : state) : option state :=
  match main s with
  | MTest => Some (set_main (if worker_running s then MExchange else MExit) s)
  | MExchange =>
      Some (if worker_reload s then set_main MReloading (set_reload false s) else set_main MResume s)
  | MReloading => Some (set_main (if b then MResume else MTest) s)
  | MResume => Some (set_main MSignal (set_flags false (event_loop_resumed s) s))
  | MSignal => Some (set_main MCheck (signal_resume s))
  | MCheck => Some (set_main (if worker_running s && negb (worker_reload s) then MPoll else MWait) s)
  | MPoll => Some (set_main (if b then MCheck else MTest) s)
  | MWait => Some (set_main (if event_loop_resumed s then MBlocked else MTest) s)
  | MBlocked | MExit => None
  end.

(** One step of the event loop. *)
Definition loop_step (s : state) : option state :=
  match loop s with
  | LTest => Some (set_loop (if event_loop_suspended s then LSuspended else LRun) s)
  | LSuspended =>
      Some (if event_loop_suspended s then set_loop LWaiting s
            else set_loop LRun (signal_ack (set_flags (event_loop_suspended s) true s)))
  | LRun =>
      Some (if worker_running s && negb (worker_reload s) then s
            else State (main s) LAfter (worker_running s) (event_loop_suspended s) (event_loop_resumed s)
                   (worker_reload s) (worker_running s))
  | LAfter =>
      Some (set_loop (if running s then LTest else LExit) (signal_ack (set_flags true false s)))
  | LWaiting | LExit => None
  end.

Inductive event := Main (b : bool) | Loop | Sigusr2 | Sigterm.

Definition step (e : event) (s : state) : option state :=
  match e with
  | Main b => main_step b s
  | Loop => loop_step s
  | Sigusr2 => Some (set_reload true s)
  | Sigterm => Some (State (main s) (loop s) (running s) (event_loop_suspended s)
                       (event_loop_resumed s) (worker_reload s) false)
  end.

Fixpoint run (es : list event) (s : state) : option state :=
  match es with
  | [] => Some s
  | e :: es' => s' ← step e s; run es' s'
  end.

(** When [http_worker] starts the thread of the event loop. *)
Definition start : state := State MTest LTest true true false true true.

(** Both threads serve requests. *)
Definition serving (s : state) : bool :=
  bool_decide (main s = MPoll) && bool_decide (loop s = LRun) && event_loop_resumed s &&
  negb (worker_reload s) && worker_running s.

(** ** When the threads keep out of each other's way *)

(** A reload is asked for when both threads serve requests, and the main thread
    notices: [h2o_evloop_run] fails (it was interrupted) when a flag was
    set. *)
Definition allowed (e : event) (s : state) : bool :=
  match e with
  | Sigusr2 | Sigterm => serving s
  | Main b => match main s with
              | MPoll => b || (negb (worker_reload s) && worker_running s)
              | MReloading => b
              | _ => true
              end
  | Loop => true
  end.

Inductive reachable : state → Prop :=
  | reachable_start : reachable start
  | reachable_step s e s' : reachable s → allowed e s = true → step e s = Some s' → reachable s'.

(** ** The states the threads reach

    There are finitely many, and a worklist finds them. *)

Definition events : list event := [Main true; Main false; Loop; Sigusr2; Sigterm].

Definition successors (s : state) : list state :=
  omap (λ e, if allowed e s then step e s else None) events.

Fixpoint explore (fuel : nat) (seen todo : list state) : list state :=
  match fuel, todo with
  | S n, s :: rest =>
      if bool_decide (s ∈ seen) then explore n seen rest else explore n (s :: seen) (successors s ++ rest)
  | _, _ => seen
  end.

Definition states : list state := explore 1000 [] [start].

Definition closed (l : list state) : bool :=
  forallb (λ s, forallb (λ s', bool_decide (s' ∈ l)) (successors s)) l.

Lemma elem_of_events e : e ∈ events.
Proof. apply list_elem_of_In. destruct e as [[]| | |]; simpl; auto 6. Qed.

Lemma elem_of_successors s e s' :
  allowed e s = true → step e s = Some s' → s' ∈ successors s.
Proof.
  intros Ha Hs. apply list_elem_of_omap. exists e. split; [apply elem_of_events|]. by rewrite Ha.
Qed.

Lemma closed_step l s e s' :
  closed l = true → s ∈ l → allowed e s = true → step e s = Some s' → s' ∈ l.
Proof.
  unfold closed. rewrite forallb_forall. intros Hc Hs%list_elem_of_In Ha He.
  specialize (Hc s Hs). rewrite forallb_forall in Hc.
  eapply bool_decide_eq_true, Hc, list_elem_of_In, elem_of_successors; eauto.
Qed.

Lemma states_closed : closed states = true.
Proof. vm_compute. reflexivity. Qed.

Lemma reachable_states s : reachable s → s ∈ states.
Proof.
  induction 1 as [|s e s' _ IH Ha He].
  - apply (bool_decide_eq_true_1 _). vm_compute. reflexivity.
  - eapply closed_step; eauto using states_closed.
Qed.

(** What holds of every state of the list holds of every reachable one. *)
Lemma reachable_all (P : state → bool) s :
  forallb P states = true → reachable s → P s = true.
Proof.
  rewrite forallb_forall. intros HP Hr%reachable_states. apply HP. by apply list_elem_of_In.
Qed.

(** A run of which every step is allowed. *)
Fixpoint allowed_run (es : list event) (s : state) : bool :=
  match es with
  | [] => true
  | e :: es' => allowed e s && match step e s with Some s' => allowed_run es' s' | None => false end
  end.

Lemma run_reachable es s s' :
  reachable s → allowed_run es s = true → run es s = Some s' → reachable s'.
Proof.
  revert s. induction es as [|e es IH]; intros s Hr Ha He; simpl in *; [by simplify_eq|].
  apply andb_true_iff in Ha as [Ha Hn]. destruct (step e s) as [s1|] eqn:Hs; [|done].
  apply (IH s1); [by eapply reachable_step | done | done].
Qed.

(** ** The two threads in turn *)

(** A step of a thread that can take one. *)
Definition try_step (e : event) (s : state) : state := default s (step e s).

Fixpoint turns (n : nat) (s : state) : state :=
  match n with
  | O => s
  | S n' => turns n' (try_step Loop (try_step (Main true) s))
  end.

Definition resumes (s : state) : bool :=
  negb (worker_running s) ||
  existsb (λ n, let s' := turns n s in
    bool_decide (main s' = MPoll) && bool_decide (loop s' = LRun) && negb (event_loop_suspended s') &&
    negb (worker_reload s'))
    (seq 0 16).

Definition excluded (s : state) : bool :=
  negb (bool_decide (main s = MReloading)) ||
  negb (bool_decide (loop s = LRun) || bool_decide (loop s = LAfter)) && negb (event_loop_resumed s).

Lemma states_excluded : forallb excluded states = true.
Proof. vm_compute. reflexivity. Qed.

Lemma states_resume : forallb resumes states = true.
Proof. vm_compute. reflexivity. Qed.

(** Whatever the interleaving, when reloads and shutdowns are asked for while
    both threads serve requests and the main thread's poll is interrupted by
    them, the event loop does not run while the main thread changes the
    listeners, and has said so ([event_loop_resumed] is false). *)
Theorem reload_excludes_event_loop s :
  reachable s → main s = MReloading → loop s ≠ LRun ∧ loop s ≠ LAfter ∧ event_loop_resumed s = false.
Proof.
  intros Hr Hm. pose proof (reachable_all _ s states_excluded Hr) as He.
  unfold excluded in He. rewrite Hm in He. by destruct (loop s), (event_loop_resumed s).
Qed.

(** C36. Every state so reached is one from which the threads, run in turn, are
    serving requests again within sixteen turns, unless the worker is asked to
    stop: no handshake blocks. *)
Theorem handshake_resumes s :
  reachable s → worker_running s = true →
  ∃ n, n < 16 ∧ main (turns n s) = MPoll ∧ loop (turns n s) = LRun ∧
       event_loop_suspended (turns n s) = false ∧ worker_reload (turns n s) = false.
Proof.
  intros Hr Hw. pose proof (reachable_all _ s states_resume Hr) as He.
  unfold resumes in He. rewrite Hw in He. cbn [negb orb] in He.
  apply existsb_exists in He as (n & Hn%in_seq & Hb). exists n.
  repeat (apply andb_true_iff in Hb as [Hb ?]). rewrite !bool_decide_eq_true, !negb_true_iff in *.
  split; [lia | done].
Qed.

(** The threads start, resume and serve requests; a reload is asked for. *)
Definition reload_asked : list event :=
  [Main true; Main true; Main true; Loop; Loop; Main true; Main true; Loop; Main true; Loop; Sigusr2].

(** As the poll is interrupted, the main thread waits for the event loop. *)
Definition reload_waited : list event := reload_asked ++ [Main true; Main true; Main true; Loop; Loop].

Lemma reload_excludes_event_loop_witness :
  ∃ s, run (reload_waited ++ [Main true; Main true; Main true]) start = Some s ∧ main s = MReloading ∧
       loop s ≠ LRun ∧ loop s ≠ LAfter ∧ event_loop_resumed s = false.
Proof.
  eexists. split; [vm_compute; reflexivity|]. split; [reflexivity|].
  apply reload_excludes_event_loop; [|reflexivity].
  apply (run_reachable (reload_waited ++ [Main true; Main true; Main true]) start);
    [apply reachable_start | vm_compute; reflexivity | vm_compute; reflexivity].
Defined.

Lemma handshake_resumes_witness :
  ∃ s, run reload_waited start = Some s ∧ worker_reload s = true ∧ ∃ n, n < 16 ∧ main (turns n s) = MPoll ∧
       loop (turns n s) = LRun ∧ event_loop_suspended (turns n s) = false ∧
       worker_reload (turns n s) = false.
Proof.
  eexists. split; [vm_compute; reflexivity|]. split; [reflexivity|].
  apply handshake_resumes; [|reflexivity].
  apply (run_reachable reload_waited start);
    [apply reachable_start | vm_compute; reflexivity | vm_compute; reflexivity].
Defined.

(** ** When they do not *)

(** [h2o_evloop_run] returns 0 when it succeeds, so the main thread leaves its
    inner loop after every round of messages; a reload asked for while it
    handles one is taken at the head of the outer loop, without waiting for
    the event loop, which runs while the listeners change. *)
Theorem reload_overlaps :
  allowed_run reload_asked start = true ∧
  ∃ s, run (reload_asked ++ [Main false; Main true; Main true]) start = Some s ∧
       main s = MReloading ∧ loop s = LRun ∧ event_loop_resumed s = true.
Proof.
  split; [vm_compute; reflexivity|]. eexists. split; [vm_compute; reflexivity|]. auto.
Qed.

(** The main thread takes the reload so, and resumes the event loop before that
    has suspended itself. *)
Definition resume_overtakes : list event :=
  reload_asked ++ [Main false; Loop; Main true; Main true; Main true; Main true; Main true; Main true; Loop;
                   Loop; Loop].

Definition stuck (s : state) : Prop :=
  (main s = MPoll ∨ main s = MCheck) ∧ loop s = LWaiting ∧ worker_reload s = false ∧
  worker_running s = true.

Lemma stuck_turn s : stuck s → stuck (try_step Loop (try_step (Main true) s)).
Proof.
  destruct s as [m l r es er wr wu]. unfold stuck. simpl.
  intros ([-> | ->] & -> & -> & ->); unfold try_step; simpl; auto.
Qed.

Lemma stuck_turns n s : stuck s → stuck (turns n s).
Proof. revert s. induction n as [|n IH]; intros s Hs; simpl; auto using stuck_turn. Qed.

(** The resume is then lost: the event loop suspends itself after the main
    thread resumed it, and waits while the main thread polls; as long as no
    message reaches the main thread and no signal comes, it waits on, although
    no reload is asked for. *)
Theorem resume_lost :
  ∃ s, run resume_overtakes start = Some s ∧ worker_reload s = false ∧ worker_running s = true ∧
       ∀ n, loop (turns n s) = LWaiting.
Proof.
  eexists. split; [vm_compute; reflexivity|]. split; [reflexivity|]. split; [reflexivity|].
  intros n. eapply stuck_turns. repeat split; auto.
Qed.

End Suspension.
