(* ===== verification/FunSig.v ===== *)
(** * Function signature types: [omni_types]

    omni_types/funsig_type.c: a function signature type is registered with the
    types of its arguments and of its result; its input function finds, by
    name, the function that has this signature, and [invoke], behind the
    generated [call_<type>], calls the function such a value stands for.

    The parser of names, the search path and the catalog of functions are a
    parameter ([pg]); [PgFunctions] says what of them the theorems use. *)

From Stdlib Require Import ZArith Lia.
From stdpp Require Import base tactics list numbers strings.
From S2P Require Import Prelude.

Local Open Scope Z_scope.

Module FunSig.

Definition InvalidOid : Z := 0.
Definition OidIsValid (o : Z) : bool := negb (o =? InvalidOid).
Definition ERRCODE_AMBIGUOUS_FUNCTION : string := "42725".

(** A row of [omni_types.function_signature_types]; an element of the array of
    argument types may be NULL. *)
Record signature := Signature { typ : Z; arguments : list (option Z); return_ : Z }.

(** [FuncCandidateList]: a function and the types of its arguments. *)
Record candidate := Candidate { oid : Z; args : list Z }.

(** [NullableDatum] *)
Record nullable := Nullable { value : Z; isnull : bool }.

(** [FmgrInfo]: what a call of the function does, and whether it is strict. *)
Record FmgrInfo := MkFmgrInfo { fn_strict : bool; fn_addr : list nullable → result nullable }.

(** PostgreSQL, as this code uses it *)
Record pg := Pg {
  stringToQualifiedNameList : string → result (list string);
  FuncnameGetCandidates : list string → nat → list candidate;
  prorettype : Z → option Z;                 (* through the system cache *)
  regprocin : string → result Z;
  fmgr_info : Z → result FmgrInfo
}.

Section operations.
Context (p : pg).

(** The iterator over the argument types: NULL elements are passed over, and
    the position in the candidate's arguments does not move with them. *)
Fixpoint arguments_match (elems : list (option Z)) (cargs : list Z) (i : nat) : result bool :=
  match elems with
  | [] => Ok true
  | None :: elems' => arguments_match elems' cargs i
  | Some elem :: elems' =>
      match cargs !! i with
      | None => Undefined "read beyond the arguments of the candidate"
      | Some a => if elem =? a then arguments_match elems' cargs (S i) else Ok false
      end
  end.

(** One candidate: is it the function looked for? *)
Definition conforms (row : signature) (c : candidate) : result bool :=
  same ← arguments_match (arguments row) (args c) 0;
  if negb same then Ok false else
  match prorettype p (oid c) with
  | None => Undefined "no tuple in the cache"
  | Some function_ret_type => Ok (function_ret_type =? return_ row)
  end.

Fixpoint search_candidates (row : signature) (candidates : list candidate) (matching_function : Z) :
  result Z :=
  match candidates with
  | [] => Ok matching_function
  | c :: next =>
      found ← conforms row c;
      let matching_function := if (found : bool) then oid c else matching_function in
      if OidIsValid matching_function then Ok matching_function
      else search_candidates row next matching_function
  end.

(** The scan of the table for the rows of the type. *)
Fixpoint scan_signatures (rows : list signature) (typeoid : Z) (input : string) (matching_function : Z) :
  result Z :=
  match rows with
  | [] => Ok matching_function
  | row :: rows' =>
      matching_function ←
        (if typeoid =? typ row then
           let nargs := length (arguments row) in
           names ← stringToQualifiedNameList p input;
           search_candidates row (FuncnameGetCandidates p names nargs) matching_function
         else Ok matching_function);
      scan_signatures rows' typeoid input matching_function
  end.

(** [None] is SQL NULL. *)
Definition function_signature_search (rows : list signature) (typeoid : Z) (input : string)
    (missing_as_null : bool) : result (option Z) :=
  matching_function ← scan_signatures rows typeoid input InvalidOid;
  if OidIsValid matching_function then Ok (Some matching_function) else
  _ ← (match regprocin p input with
       | Ok _ => Ok ()
       | Err e =>
           if negb missing_as_null && negb (bool_decide (errcode e = ERRCODE_AMBIGUOUS_FUNCTION))
           then Err e else Ok ()
       | Undefined w => Undefined w
       end);
  if missing_as_null then Ok None
  else raise "function does not match the signature of the type".

(** The input function of a type; it is declared strict. *)
Definition function_signature_in (rows : list signature) (typeoid : Z) (input : option string) :
  result (option Z) :=
  match input with
  | None => Ok None
  | Some input => function_signature_search rows typeoid input false
  end.

(** [<type>_conforming_function], which is not. *)
Definition conforming_function (rows : list signature) (typeoid : Z) (input : option string) :
  result (option Z) :=
  match input with
  | None => Undefined "PG_GETARG_TEXT_PP of a NULL argument"
  | Some input => function_signature_search rows typeoid input true
  end.

(** The copy of the arguments, left early when the function is strict and an
    argument is NULL. *)
Fixpoint copy_args (fn_strict : bool) (rest : list nullable) : option (list nullable) :=
  match rest with
  | [] => Some []
  | a :: rest' =>
      if fn_strict && isnull a then None
      else copied ← copy_args fn_strict rest'; Some (a :: copied)
  end.

(** [invoke]: the result with [fcinfo->isnull], which is false when the function
    is called and which only [PG_RETURN_NULL] sets; the callee sets the flag
    of its own call data. *)
Definition invoke (fcinfo : list nullable) : result nullable :=
  match fcinfo with
  | [] => Undefined "no argument 0"
  | f :: rest =>
      if isnull f then raise "Can't invoke a NULL function" else
      flinfo ← (match fmgr_info p (wrap_u 32 (value f)) with
                | Err _ => raise "function does not exist"
                | r => r
                end);
      match copy_args (fn_strict flinfo) rest with
      | None => Ok (Nullable 0 true)
      | Some args =>
          r ← fn_addr flinfo args;
          Ok (Nullable (value r) false)
      end
  end.

End operations.

(** ** What the catalog promises *)

(** [FuncnameGetCandidates], asked for functions of [n] arguments without
    defaults and variadics, lists existing functions with [n] arguments, and of
    several with the same argument types only the one first in the search
    path. *)
Class PgFunctions (p : pg) : Prop := {
  candidates_nargs names n c : c ∈ FuncnameGetCandidates p names n → length (args c) = n;
  candidates_exist names n c :
    c ∈ FuncnameGetCandidates p names n → 0 < oid c < 2 ^ 32 ∧ is_Some (prorettype p (oid c));
  candidates_distinct names n : NoDup (args <$> FuncnameGetCandidates p names n);
  regprocin_defined s w : regprocin p s ≠ Undefined w
}.

Lemma arguments_match_eq elems cargs i :
  (i + length elems)%nat = length cargs →
  arguments_match (Some <$> elems) cargs i = Ok (bool_decide (elems = drop i cargs)).
Proof.
  revert i. induction elems as [|e elems IH]; intros i Hl; simpl in *.
  - rewrite drop_ge by lia. done.
  - destruct (lookup_lt_is_Some_2 cargs i) as [a Ha]; [lia|]. rewrite Ha.
    rewrite (drop_S cargs a i Ha). destruct (Z.eqb_spec e a) as [->|Hne].
    + rewrite IH by lia. f_equal. apply bool_decide_ext. split; congruence.
    + rewrite bool_decide_eq_false_2 by congruence. done.
Qed.

Lemma bool_decide_ext_bool (P : Prop) `{Decision P} (b : bool) : (P ↔ b = true) → bool_decide P = b.
Proof.
  intros HP. destruct b; [apply bool_decide_eq_true_2; by apply HP|].
  apply bool_decide_eq_false_2. intros Hp%HP. done.
Qed.

Lemma OidIsValid_pos o : 0 < o → OidIsValid o = true.
Proof. intros H. unfold OidIsValid, InvalidOid. destruct (Z.eqb_spec o 0); [lia|done]. Qed.

(** The scan looks only at the rows of the type. *)
Lemma scan_signatures_others p rows t input m :
  t ∉ typ <$> rows → scan_signatures p rows t input m = Ok m.
Proof.
  induction rows as [|r rows IH]; intros Ht; simpl in *; [done|].
  apply not_elem_of_cons in Ht as [Hne Ht]. destruct (Z.eqb_spec t (typ r)); [done|].
  by apply IH.
Qed.

Section search.
Context (p : pg) `{!PgFunctions p}.

(** A function with the signature [ats] and [ret] *)
Definition has_signature (ats : list Z) (ret : Z) (c : candidate) : Prop :=
  args c = ats ∧ prorettype p (oid c) = Some ret.

#[local] Instance has_signature_dec ats ret c : Decision (has_signature ats ret c).
Proof. unfold has_signature. apply _. Defined.

Lemma conforms_has_signature t ats ret names c :
  c ∈ FuncnameGetCandidates p names (length ats) →
  conforms p (Signature t (Some <$> ats) ret) c = Ok (bool_decide (has_signature ats ret c)).
Proof.
  intros Hc. pose proof (candidates_nargs _ _ _ Hc) as Hn.
  destruct (candidates_exist _ _ _ Hc) as [_ [rt Hr]].
  unfold conforms. simpl. rewrite arguments_match_eq by (simpl; lia). simpl.
  rewrite drop_0, Hr. case_bool_decide as Ha; simpl.
  - f_equal. symmetry. apply bool_decide_ext_bool. rewrite Z.eqb_eq. unfold has_signature. naive_solver.
  - f_equal. symmetry. apply bool_decide_eq_false_2. unfold has_signature. naive_solver.
Qed.

(** The first candidate with the signature is found. *)
Lemma search_candidates_first t ats ret names cs :
  (∀ c, c ∈ cs → c ∈ FuncnameGetCandidates p names (length ats)) →
  search_candidates p (Signature t (Some <$> ats) ret) cs InvalidOid =
  Ok (from_option (λ c, oid c) InvalidOid (snd <$> list_find (has_signature ats ret) cs)).
Proof.
  induction cs as [|c cs IH]; intros Hcs; [done|].
  assert (Hc : c ∈ FuncnameGetCandidates p names (length ats)) by (apply Hcs; left).
  destruct (candidates_exist _ _ _ Hc) as [[Hpos _] _].
  cbn [search_candidates list_find]. rewrite (conforms_has_signature _ _ _ names) by done.
  cbn [mbind result_bind].
  destruct (decide (has_signature ats ret c)) as [Hs|Hs].
  - rewrite bool_decide_eq_true_2 by done. by rewrite OidIsValid_pos by done.
  - rewrite bool_decide_eq_false_2 by done. cbn [OidIsValid InvalidOid negb Z.eqb].
    rewrite IH by (intros c' Hc'; apply Hcs; by right).
    by destruct (list_find _ cs) as [[]|].
Qed.

(** The table holds one signature per type, and that of [t] has no NULL in its
    arguments. *)
Context (rows : list signature) (t : Z) (ats : list Z) (ret : Z).
Context (Hkey : NoDup (typ <$> rows)) (Hrow : Signature t (Some <$> ats) ret ∈ rows).

Lemma scan_signatures_one input names :
  stringToQualifiedNameList p input = Ok names →
  scan_signatures p rows t input InvalidOid =
  search_candidates p (Signature t (Some <$> ats) ret) (FuncnameGetCandidates p names (length ats))
    InvalidOid.
Proof using Hkey Hrow.
  intros Hn. clear PgFunctions0. induction rows as [|r rs IH]; [by apply elem_of_nil in Hrow|].
  cbn [scan_signatures fmap list_fmap] in *. apply list.NoDup_cons in Hkey as [Hnot Hkey'].
  apply elem_of_cons in Hrow as [<-|Hin].
  - simpl. rewrite Z.eqb_refl, Hn. simpl. rewrite length_fmap.
    destruct (search_candidates _ _ _ _) as [m| |]; [|done|done]. simpl.
    by apply scan_signatures_others.
  - destruct (Z.eqb_spec t (typ r)) as [->|Hne].
    + destruct Hnot. apply list_elem_of_fmap. by eexists (Signature _ _ _).
    + simpl. by apply IH.
Qed.

(** The function the input stands for, if there is one. *)
Definition found (names : list string) : option Z :=
  (λ x, oid x.2) <$> list_find (has_signature ats ret) (FuncnameGetCandidates p names (length ats)).

Lemma scan_signatures_found input names :
  stringToQualifiedNameList p input = Ok names →
  scan_signatures p rows t input InvalidOid = Ok (default InvalidOid (found names)).
Proof using Type*.
  intros Hn. rewrite (scan_signatures_one input names Hn).
  rewrite (search_candidates_first _ _ _ names) by done.
  unfold found. by destruct (list_find _ _).
Qed.

Lemma found_valid names f : found names = Some f → OidIsValid f = true.
Proof using PgFunctions0.
  unfold found. intros ([i c] & (Hc%list_elem_of_lookup_2 & _ & _)%list_find_Some & ->)%fmap_Some.
  apply OidIsValid_pos. by apply candidates_exist in Hc as [[? _] _].
Qed.

Lemma found_iff names f :
  found names = Some f ↔
  ∃ c, c ∈ FuncnameGetCandidates p names (length ats) ∧ has_signature ats ret c ∧ oid c = f.
Proof using PgFunctions0.
  unfold found. split.
  - intros ([i c] & (Hc & Hs & _)%list_find_Some & ->)%fmap_Some.
    exists c. eauto using list_elem_of_lookup_2.
  - intros (c & Hc & Hs & <-). destruct (list_find_elem_of _ _ _ Hc Hs) as [[i c'] Hf].
    rewrite Hf. simpl. f_equal. apply list_find_Some in Hf as (Hc' & Hs' & _). f_equal.
    apply list_elem_of_lookup in Hc as [j Hj].
    assert (i = j) as <-; [|congruence].
    eapply (NoDup_lookup _ _ _ ats (candidates_distinct names (length ats)));
      rewrite list_lookup_fmap; [rewrite Hc'|rewrite Hj]; simpl; f_equal; by destruct Hs, Hs'.
Qed.

Lemma function_signature_search_found input names m :
  stringToQualifiedNameList p input = Ok names →
  match found names with
  | Some f => function_signature_search p rows t input m = Ok (Some f)
  | None => if m then function_signature_search p rows t input m = Ok None
            else ∃ e, function_signature_search p rows t input m = Err e
  end.
Proof using Type*.
  intros Hn. unfold function_signature_search. rewrite (scan_signatures_found _ _ Hn).
  destruct (found names) as [f|] eqn:Hf; simpl; [by rewrite (found_valid _ _ Hf)|].
  pose proof (regprocin_defined input) as Hdef.
  destruct (regprocin p input) as [o|e|w]; [|destruct m, (bool_decide _)|by destruct (Hdef w)];
    try destruct m; simpl; unfold raise; eauto.
Qed.


End search.

(** ** Calls *)

Lemma copy_args_spec strict vs :
  copy_args strict vs = if strict && existsb isnull vs then None else Some vs.
Proof.
  induction vs as [|v vs IH]; simpl; [by rewrite andb_false_r|].
  destruct strict, (isnull v); simpl in *; try done; rewrite IH; by destruct (existsb isnull vs).
Qed.

(** What a call of a function through its value does: the function gets the
    arguments, in order; a strict function is not called with a NULL. *)
Lemma invoke_calls p f vs flinfo :
  0 ≤ f < 2 ^ 32 → fmgr_info p f = Ok flinfo →
  invoke p (Nullable f false :: vs) =
  if fn_strict flinfo && existsb isnull vs then Ok (Nullable 0 true)
  else r ← fn_addr flinfo vs; Ok (Nullable (value r) false).
Proof.
  intros Hf Hi. unfold invoke. simpl. rewrite wrap_u_id by done. rewrite Hi. simpl.
  rewrite copy_args_spec. by destruct (fn_strict flinfo && existsb isnull vs).
Qed.

(** A value of a type, or NULL *)
Definition typed (has_type : Z → Z → Prop) (ty : Z) (v : nullable) : Prop :=
  isnull v = true ∨ has_type ty (value v).

(** The functions of the catalog, called with arguments of their types, return
    values of their result types. *)
Definition functions_typed (p : pg) (has_type : Z → Z → Prop) : Prop :=
  ∀ names n c flinfo rt vs r,
    c ∈ FuncnameGetCandidates p names n → fmgr_info p (oid c) = Ok flinfo →
    prorettype p (oid c) = Some rt → Forall2 (typed has_type) (args c) vs →
    fn_addr flinfo vs = Ok r → typed has_type rt r.


Section calls.
Context (p : pg) `{!PgFunctions p}.
Context (rows : list signature) (t : Z) (ats : list Z) (ret : Z).
Context (Hkey : NoDup (typ <$> rows)) (Hrow : Signature t (Some <$> ats) ret ∈ rows).
Context (has_type : Z → Z → Prop) (Hfuns : functions_typed p has_type).

(** A call through a value of a signature type is well typed: the function gets
    arguments of the types it declares, a strict function is not called with
    a NULL and the call is then NULL, and the result is of the type of the
    signature, as long as the function does not return NULL. *)
Theorem call_signature_typed input names f flinfo vs :
  stringToQualifiedNameList p input = Ok names →
  function_signature_in p rows t (Some input) = Ok (Some f) →
  fmgr_info p f = Ok flinfo → Forall2 (typed has_type) ats vs →
  (∃ c, c ∈ FuncnameGetCandidates p names (length ats) ∧ oid c = f ∧ Forall2 (typed has_type) (args c) vs) ∧
  invoke p (Nullable f false :: vs) =
    (if fn_strict flinfo && existsb isnull vs then Ok (Nullable 0 true)
     else r ← fn_addr flinfo vs; Ok (Nullable (value r) false)) ∧
  ∀ r, fn_addr flinfo vs = Ok r → isnull r = false → typed has_type ret (Nullable (value r) false).
Proof using Type*.
  intros Hn Hin Hi Hvs. pose proof (function_signature_search_found p rows t ats ret Hkey Hrow input names false Hn) as Hs.
  simpl in Hin. destruct (found p ats ret names) as [g|] eqn:Hg; [|destruct Hs; congruence].
  assert (g = f) as -> by congruence. apply found_iff in Hg as (c & Hc & [Ha Hr] & <-); [|done].
  split; [exists c; by rewrite Ha|]. split.
  - apply invoke_calls; [|done]. apply candidates_exist in Hc as [? _]. lia.
  - intros r Hcall Hnull. assert (typed has_type ret r) as [?|?]; [|congruence|by right].
    eapply Hfuns; [exact Hc|exact Hi|exact Hr|by rewrite Ha|exact Hcall].
Qed.
End calls.

(** The flag of the callee is dropped: a function that returns NULL gives a
    value that is not NULL, the datum 0; for a type passed by reference this is
    a NULL pointer taken for a value. *)
Theorem invoke_loses_null p f vs flinfo :
  0 ≤ f < 2 ^ 32 → fmgr_info p f = Ok flinfo → fn_strict flinfo && existsb isnull vs = false →
  fn_addr flinfo vs = Ok (Nullable 0 true) →
  invoke p (Nullable f false :: vs) = Ok (Nullable 0 false).
Proof. intros Hf Hi Hs Hc. rewrite (invoke_calls p f vs flinfo) by done. by rewrite Hs, Hc. Qed.

(** The conforming function, which is not declared strict, reads a text behind a
    NULL argument. *)
Lemma conforming_function_null p rows t : ¬ is_Ok (conforming_function p rows t None).
Proof. intros [a Ha]. done. Qed.

(** A NULL among the argument types shifts the others: a function is compared with
    the types that remain, from its first argument on. *)
Lemma null_argument_shifts a b : arguments_match [None; Some a] [a; b] 0 = Ok true.
Proof. simpl. by rewrite Z.eqb_refl. Qed.

(** ** A catalog *)

Module Demo.

Definition text_oid : Z := 25.
Definition int4_oid : Z := 23.

(** [length(text)], of texts of five characters, and a function of a text that
    returns NULL. *)
Definition candidates (names : list string) : list candidate :=
  match names with
  | ["length"] => [Candidate 1317 [text_oid]]
  | ["nothing"] => [Candidate 9000 [text_oid]]
  | _ => []
  end.

Definition demo : pg := {|
  stringToQualifiedNameList s := Ok [s];
  FuncnameGetCandidates names n := filter (λ c, length (args c) = n) (candidates names);
  prorettype o := if o =? 1317 then Some int4_oid else if o =? 9000 then Some text_oid else None;
  regprocin s := match candidates [s] with
                 | [] => Err (PgError "42883" "function does not exist")
                 | c :: _ => Ok (oid c)
                 end;
  fmgr_info o := if o =? 1317 then Ok (MkFmgrInfo true (λ vs, Ok (Nullable 5 false)))
                 else if o =? 9000 then Ok (MkFmgrInfo false (λ vs, Ok (Nullable 0 true)))
                 else raise "cache lookup failed"
|}.

Lemma candidates_cases names :
  candidates names = [] ∨ candidates names = [Candidate 1317 [text_oid]] ∨
  candidates names = [Candidate 9000 [text_oid]].
Proof. unfold candidates. repeat case_match; auto. Qed.

Lemma demo_candidate names n c :
  c ∈ FuncnameGetCandidates demo names n →
  (c = Candidate 1317 [text_oid] ∨ c = Candidate 9000 [text_oid]) ∧ length (args c) = n.
Proof.
  intros [Hn Hc]%list_elem_of_filter. split; [|done].
  destruct (candidates_cases names) as [He|[He|He]]; rewrite He in Hc;
    [by apply elem_of_nil in Hc| |]; apply list_elem_of_singleton in Hc; auto.
Qed.

#[export] Instance demo_functions : PgFunctions demo.
Proof.
  split.
  - intros names n c Hc. exact (proj2 (demo_candidate names n c Hc)).
  - intros names n c Hc. apply demo_candidate in Hc as [[-> | ->] _]; (split; [simpl; lia | by eexists]).
  - intros names n. cbn [FuncnameGetCandidates demo].
    destruct (candidates_cases names) as [-> |[-> | ->]]; [apply base.NoDup_nil_2| |];
      rewrite filter_cons, filter_nil; case_decide;
      (apply base.NoDup_nil_2 || apply list.NoDup_singleton).
  - intros s w Hs. cbn [regprocin demo] in Hs. by destruct (candidates [s]).
Qed.

(** The type of functions from text to int4, and of those from text to text. *)
Definition rows : list signature :=
  [Signature 100 [Some text_oid] int4_oid; Signature 101 [Some text_oid] text_oid].

Lemma rows_key : NoDup (typ <$> rows).
Proof. apply (bool_decide_eq_true_1 _). vm_compute. reflexivity. Qed.

(** A text is a pointer, which is not NULL. *)
Definition has_type (ty v : Z) : Prop := if ty =? text_oid then 0 < v else in_s 32 v.

Lemma demo_typed : functions_typed demo has_type.
Proof.
  intros names n c flinfo rt vs r Hc Hi Hrt Hvs Hr. apply demo_candidate in Hc as [[-> | ->] _];
    simpl in *; simplify_eq; simpl in Hr; simplify_eq; [|by left].
  right. unfold has_type, in_s. simpl. lia.
Qed.


Lemma call_signature_typed_witness :
  invoke demo [Nullable 1317 false; Nullable 4096 false] = Ok (Nullable 5 false) ∧
  typed has_type int4_oid (Nullable 5 false).
Proof.
  destruct (call_signature_typed demo rows 100 [text_oid] int4_oid rows_key (list_elem_of_here _ _)
    has_type demo_typed "length" ["length"%string] 1317
    (MkFmgrInfo true (λ vs, Ok (Nullable 5 false))) [Nullable 4096 false]) as (_ & Hi & Hr);
    [reflexivity | vm_compute; reflexivity | reflexivity | | ].
  - constructor; [right; vm_compute; reflexivity | constructor].
  - split; [exact Hi | exact (Hr (Nullable 5 false) eq_refl eq_refl)].
Defined.

(** A call of a function that returns NULL gives a text that is no text. *)
Lemma invoke_loses_null_witness :
  function_signature_in demo rows 101 (Some "nothing"%string) = Ok (Some 9000) ∧
  invoke demo [Nullable 9000 false; Nullable 4096 false] = Ok (Nullable 0 false) ∧
  ¬ typed has_type text_oid (Nullable 0 false).
Proof.
  split; [vm_compute; reflexivity|]. split.
  - apply (invoke_loses_null demo 9000 [Nullable 4096 false] (MkFmgrInfo false (λ vs, Ok (Nullable 0 true))));
      [lia | reflexivity | reflexivity | reflexivity].
  - intros [H|H]; [done|]. unfold has_type in H. simpl in H. lia.
Defined.

End Demo.

End FunSig.
