(* ===== verification/Regex.v ===== *)
(** * Regular expressions: [omni_regex]

    omni_regex/pcre2.c: the type [regex], its cache of compiled expressions and
    the functions that match.  A value of the type is a text in memory, given
    by the address of its first byte and its length; the cache keeps such
    addresses as keys.

    PCRE2, the hash function and the order in which PostgreSQL's hash table
    looks at its entries are a parameter ([lib]); [LibLaws] says what of their
    documentation the theorems use. *)

From Stdlib Require Import ZArith Lia.
From stdpp Require Import base tactics list gmap numbers strings.
From S2P Require Import Prelude.

Local Open Scope Z_scope.

Module Regex.

Inductive encoding := PG_UTF8 | PG_SQL_ASCII | PG_OTHER.

Definition PCRE2_UNSET : Z := 2 ^ 64 - 1.

(** The offsets [pcre2_match] leaves in the match data: of the whole match, then
    of each group. *)
Abbreviation ovector := (list (Z * Z)).

Inductive match_result := Match (ov : ovector) | NoMatch | MatchError (rc : Z).

(** A key of the cache is the address of an expression. *)
Record RegexHashEntry (code : Type) := Entry { regex : Z; hash : Z; ecode : code }.
Arguments Entry {code}.
Arguments regex {code}.
Arguments hash {code}.
Arguments ecode {code}.

Record lib (code : Type) := Lib {
  pcre2_compile : bool → list Z → result code;           (* UTF *)
  capture_count : code → nat;
  pcre2_match : code → list Z → Z → bool → match_result; (* subject, offset, anchored and not empty *)
  nametable : code → list Z * nat * nat;                 (* bytes, entries, bytes per entry *)
  string_hash : list Z → Z → Z;                          (* bytes from the key on, size *)
  probe : list (RegexHashEntry code) → Z → list (RegexHashEntry code);
  pg_do_encoding_conversion : list Z → list Z
}.
Arguments pcre2_compile {code}.
Arguments capture_count {code}.
Arguments pcre2_match {code}.
Arguments nametable {code}.
Arguments string_hash {code}.
Arguments probe {code}.
Arguments pg_do_encoding_conversion {code}.

(** What a backend has: what its memory holds from an address to the end of the
    chunk, and the cache. *)
Record state (code : Type) := State { mem : gmap Z (list Z); regexhash : list (RegexHashEntry code) }.
Arguments State {code}.
Arguments mem {code}.
Arguments regexhash {code}.

(** A value of type [regex]: [VARDATA_ANY] and [VARSIZE_ANY_EXHDR]. *)
Record pgpcre := Pgpcre { vardata : Z; varsize : nat }.

(** [strcmp(a, b) == 0], which reads until a difference or a NUL. *)
Fixpoint strcmp_eq (a b : list Z) : result bool :=
  match a, b with
  | x :: a', y :: b' =>
      if x =? y then if x =? 0 then Ok true else strcmp_eq a' b' else Ok false
  | _, _ => Undefined "read beyond the end of the memory"
  end.

(** The bytes up to the first NUL: [strlen], [cstring_to_text]. *)
Fixpoint until_nul (l : list Z) : list Z :=
  match l with
  | [] => []
  | b :: l' => if b =? 0 then [] else b :: until_nul l'
  end.

Section operations.
Context {code : Type} (l : lib code) (enc : encoding).
Abbreviation state := (Regex.state code).
Abbreviation entry := (RegexHashEntry code).

Definition compile_expr (input : list Z) : result code :=
  match enc with
  | PG_UTF8 => pcre2_compile l true input
  | PG_SQL_ASCII => pcre2_compile l false input
  | PG_OTHER => pcre2_compile l true (until_nul (pg_do_encoding_conversion l input))
  end.

(** The bytes at an address *)
Definition read_mem (m : gmap Z (list Z)) (a : Z) : result (list Z) :=
  match m !! a with Some b => Ok b | None => Undefined "read of freed memory" end.

(** [regexhash_lookup_hash]: the first of the entries looked at whose key equals
    the expression. *)
Fixpoint lookup_entries (m : gmap Z (list Z)) (expr : list Z) (es : list entry) : result (option entry) :=
  match es with
  | [] => Ok None
  | e :: es' =>
      k ← read_mem m (regex e);
      eq ← strcmp_eq k expr;
      if (eq : bool) then Ok (Some e) else lookup_entries m expr es'
  end.

Definition PCRE_CODE (p : pgpcre) : M state code :=
  s ← get_st;
  expr ← lift_r (read_mem (mem s) (vardata p));
  let h := string_hash l expr (Z.of_nat (varsize p)) in
  found ← lift_r (lookup_entries (mem s) expr (probe l (regexhash s) h));
  match found with
  | None =>
      c ← lift_r (compile_expr (take (varsize p) expr));
      _ ← modify_st (λ s, State (mem s) (Entry (vardata p) h c :: regexhash s));
      mret c
  | Some e => mret (ecode e)
  end.

(** [cstring_to_text] makes a new value, at an address the caller chooses; the
    bytes after it are what the chunk held before. *)
Definition cstring_to_pcre (a : Z) (input rest : list Z) : M state pgpcre :=
  _ ← modify_st (λ s, State (<[a := input ++ rest]> (mem s)) (regexhash s));
  mret (Pgpcre a (length input)).

Definition regex_in (a : Z) (input rest : list Z) : M state pgpcre :=
  expr ← cstring_to_pcre a (until_nul input) rest;
  _ ← PCRE_CODE expr;
  mret expr.

Definition regex_out (p : pgpcre) : M state (list Z) :=
  s ← get_st;
  b ← lift_r (read_mem (mem s) (vardata p));
  mret (take (varsize p) b).

(** The table of names: two bytes with the number of the group, the name and a
    NUL, per entry. *)
Fixpoint name_entries (n : nat) (entry_size : nat) (table : list Z) : result (list (list Z * Z)) :=
  match n with
  | O => Ok []
  | S n' =>
      match table with
      | hi :: lo :: name =>
          rest ← name_entries n' entry_size (drop entry_size table);
          Ok ((until_nul name, Z.lor (Z.shiftl hi 8) lo) :: rest)
      | _ => Undefined "read beyond the table of names"
      end
  end.

Definition regex_named_groups (p : pgpcre) : M state (list (list Z * Z)) :=
  pc ← PCRE_CODE p;
  let '(table, namecount, nameentrysize) := nametable l pc in
  lift_r (if (0 <? namecount)%nat then name_entries namecount nameentrysize table else Ok []).

(** What is matched against: the bytes of the subject, in UTF-8 when the encoding
    of the database is another one. *)
Definition utf8string (subject : list Z) : list Z :=
  match enc with
  | PG_OTHER => until_nul (pg_do_encoding_conversion l subject)
  | _ => subject
  end.

(** [pcre2_substring_get_bynumber]; when it fails, the caller goes on with a
    pointer that was not set. *)
Definition substring (subject : list Z) (ov : ovector) (i : nat) : result (list Z) :=
  match ov !! i with
  | Some (b, e) =>
      if (b <=? e) && (e <=? Z.of_nat (length subject)) then
        Ok (take (Z.to_nat (e - b)) (drop (Z.to_nat b) subject))
      else Undefined "the substring was not set"
  | None => Undefined "the substring was not set"
  end.

(** The captured groups, or the whole match if there are no groups. *)
Fixpoint groups (subject : list Z) (ov : ovector) (nums : list nat) : result (list (option (list Z))) :=
  match nums with
  | [] => Ok []
  | i :: nums' =>
      match ov !! i with
      | None => Undefined "read beyond the offsets"
      | Some (b, _) =>
          g ← (if wrap_s 32 b <? 0 then Ok None else s ← substring subject ov i; Ok (Some s));
          rest ← groups subject ov nums';
          Ok (g :: rest)
      end
  end.

Definition read_matches (subject : list Z) (ov : ovector) (captures : nat) :
  result (list (option (list Z))) :=
  if (0 <? captures)%nat then groups subject ov (seq 1 captures)
  else s ← substring subject ov 0; Ok [Some s].

(** [matches_internal]: [None] for no match, else the match data and, if asked for,
    the matches; [last] is the match data of the call before. *)
Definition matches_internal (subject : list Z) (pattern : pgpcre) (return_matches : bool)
    (last : option ovector) : M state (option (ovector * list (option (list Z)))) :=
  pc ← PCRE_CODE pattern;
  let again := bool_decide (is_Some last) in
  offset ← lift_r (match last with
                   | None => Ok 0
                   | Some ((_, e) :: _) => Ok (wrap_s 32 e)
                   | Some [] => Undefined "read beyond the offsets"
                   end);
  (* the offset is converted to size_t *)
  if again && (Z.of_nat (length subject) <=? wrap_u 64 offset) then mret None else
  match pcre2_match l pc (utf8string subject) (wrap_u 64 offset) again with
  | NoMatch => mret None
  | MatchError rc => ereport "PCRE match error"
  | Match ov =>
      ms ← lift_r (if return_matches then read_matches (utf8string subject) ov (capture_count l pc)
                   else Ok []);
      mret (Some (ov, ms))
  end.

(** The matches as the caller returns them: [cstring_to_text] of each. *)
Definition to_texts (ms : list (option (list Z))) : list (option (list Z)) := fmap (M := option) until_nul <$> ms.

Definition regex_match (subject : list Z) (pattern : pgpcre) : M state (option (list (option (list Z)))) :=
  m ← matches_internal subject pattern true None;
  mret ((λ x, to_texts x.2) <$> m).

Fixpoint matches_loop (fuel : nat) (subject : list Z) (pattern : pgpcre) (last : option ovector) :
  M state (list (list (option (list Z)))) :=
  match fuel with
  | O => undefined "out of fuel"
  | S fuel' =>
      m ← matches_internal subject pattern true last;
      match m with
      | None => mret []
      | Some (ov, ms) =>
          rest ← matches_loop fuel' subject pattern (Some ov);
          mret (to_texts ms :: rest)
      end
  end.

(** There is at most one match more than the subject has bytes, and the call that
    finds none. *)
Definition regex_matches (subject : list Z) (pattern : pgpcre) : M state (list (list (option (list Z)))) :=
  matches_loop (length subject + 2) subject pattern None.

Definition regex_text_matches (subject : list Z) (pattern : pgpcre) : M state bool :=
  m ← matches_internal subject pattern false None; mret (bool_decide (is_Some m)).

Definition regex_matches_text (pattern : pgpcre) (subject : list Z) : M state bool :=
  m ← matches_internal subject pattern false None; mret (bool_decide (is_Some m)).

Definition regex_text_matches_not (subject : list Z) (pattern : pgpcre) : M state bool :=
  m ← matches_internal subject pattern false None; mret (negb (bool_decide (is_Some m))).

Definition regex_matches_text_not (pattern : pgpcre) (subject : list Z) : M state bool :=
  m ← matches_internal subject pattern false None; mret (negb (bool_decide (is_Some m))).

End operations.

(** ** What the libraries promise *)

(** Entries are looked at only if they are in the table, and those put in under the
    hash looked for are; the hash is of at most one byte less than the size;
    offsets of a match are within the subject, from the offset asked for on,
    and a group that took no part is unset.  An anchored match starts there
    and, asked not to be, is not empty.  The offsets are in this order unless
    the expression uses [\K]; [plain] holds of those that do not. *)
Class LibLaws {code} (l : lib code) (plain : code → Prop) : Prop := {
  probe_sub t h e : e ∈ probe l t h → e ∈ t;
  probe_hash t h e : e ∈ t → hash e = h → e ∈ probe l t h;
  string_hash_prefix a b n :
    0 < n → take (Z.to_nat (n - 1)) a = take (Z.to_nat (n - 1)) b → string_hash l a n = string_hash l b n;
  match_offsets c s o again ov :
    plain c → pcre2_match l c s o again = Match ov →
    ∃ b e rest, ov = (b, e) :: rest ∧ o ≤ b ∧ b ≤ e ∧ e ≤ Z.of_nat (length s) ∧
      (again = true → o < e) ∧ (capture_count l c ≤ length rest)%nat ∧
      Forall (λ g, g = (PCRE2_UNSET, PCRE2_UNSET) ∨ 0 ≤ g.1 ∧ g.1 ≤ g.2 ∧ g.2 ≤ Z.of_nat (length s)) rest
}.

(** ** Reading strings *)

Lemma strcmp_eq_spec a b ra rb :
  0 ∉ a → 0 ∉ b → strcmp_eq (a ++ 0 :: ra) (b ++ 0 :: rb) = Ok (bool_decide (a = b)).
Proof.
  revert b. induction a as [|x a IH]; intros b Ha Hb.
  - destruct b as [|y b]; [done|]. apply not_elem_of_cons in Hb as [Hy _]. simpl.
    by destruct y.
  - apply not_elem_of_cons in Ha as [Hx Ha]. destruct b as [|y b]; cbn [app strcmp_eq].
    + destruct (Z.eqb_spec x 0); done.
    + apply not_elem_of_cons in Hb as [_ Hb]. destruct (Z.eqb_spec x y) as [<-|Hne].
      * destruct (Z.eqb_spec x 0); [done|]. rewrite IH by done. f_equal. apply bool_decide_ext.
        split; congruence.
      * by rewrite bool_decide_eq_false_2 by congruence.
Qed.

Lemma strcmp_eq_refl a r : strcmp_eq (a ++ 0 :: r) (a ++ 0 :: r) = Ok true.
Proof. induction a as [|x a IH]; simpl; [done|]. rewrite Z.eqb_refl. by destruct (x =? 0). Qed.

Lemma until_nul_id a : 0 ∉ a → until_nul a = a.
Proof.
  induction a as [|x a IH]; intros Ha; [done|]. apply not_elem_of_cons in Ha as [Hx Ha]. simpl.
  destruct (Z.eqb_spec x 0); [done|]. by rewrite IH.
Qed.

(** An entry of the table of names, as PCRE2 documents it. *)
Definition encode_name (size : nat) (g : list Z * Z) : list Z :=
  be_bytes 2 g.2 ++ g.1 ++ replicate (size - 2 - length g.1) 0.

Lemma until_nul_app a r : 0 ∉ a → until_nul (a ++ 0 :: r) = a.
Proof.
  induction a as [|x a IH]; intros Ha; [done|]. apply not_elem_of_cons in Ha as [Hx Ha]. simpl.
  destruct (Z.eqb_spec x 0); [done|]. by rewrite IH.
Qed.

(** The names and numbers of the groups are read back from the table. *)
Lemma name_entries_encode size gs rest :
  Forall (λ g, 0 ∉ g.1 ∧ in_u 16 g.2 ∧ (length g.1 + 3 ≤ size)%nat) gs →
  name_entries (length gs) size (concat (encode_name size <$> gs) ++ rest) = Ok gs.
Proof.
  induction gs as [|[name i] gs IH]; intros Hgs; [done|].
  apply Forall_cons in Hgs as [(Hn & Hi & Hl) Hgs]. simpl in Hn, Hi, Hl.
  assert (Hlen : length (encode_name size (name, i)) = size).
  { unfold encode_name. rewrite !length_app, be_bytes_length, length_replicate. simpl. lia. }
  cbn [length fmap list_fmap concat]. rewrite <- app_assoc.
  set (tail := concat (encode_name size <$> gs) ++ rest) in *.
  assert (Hd : drop size (encode_name size (name, i) ++ tail) = tail).
  { rewrite <- Hlen at 1. apply drop_app_length. }
  pose proof (be_val_be_bytes 2 i) as Hv. rewrite Z.mod_small in Hv by (unfold in_u in Hi; simpl in *; lia).
  unfold encode_name in *. cbn [be_bytes fst snd app name_entries] in *.
  rewrite Hd, IH by done. cbn [mbind result_bind]. f_equal. f_equal. f_equal.
  - destruct (size - 2 - length name)%nat eqn:Hs; [lia|]. simpl. rewrite <- app_assoc. simpl.
    by apply until_nul_app.
  - rewrite <- Hv at 3. cbn [be_val length]. by rewrite Z.shiftl_0_r, Z.lor_0_r.
Qed.

(** ** The cache *)

Section cache.
Context {code : Type} (l : lib code) (enc : encoding) {plain : code → Prop} `{!LibLaws l plain}.

(** Memory at an address still holds the expression, with a NUL behind it. *)
Definition holds (m : gmap Z (list Z)) (a : Z) (expr : list Z) : Prop :=
  0 ∉ expr ∧ ∃ rest, m !! a = Some (expr ++ 0 :: rest).

(** Every key of the cache holds the expression its code was compiled from. *)
Definition cache_ok (s : state code) : Prop :=
  ∀ e, e ∈ regexhash s → ∃ expr, holds (mem s) (regex e) expr ∧ compile_expr l enc expr = Ok (ecode e).

Definition is_value (s : state code) (p : pgpcre) (expr : list Z) : Prop :=
  holds (mem s) (vardata p) expr ∧ varsize p = length expr.

Lemma lookup_entries_ok m expr rest (es : list (RegexHashEntry code)) :
  0 ∉ expr →
  (∀ e, e ∈ es → ∃ k, holds m (regex e) k ∧ compile_expr l enc k = Ok (ecode e)) →
  ∃ o, lookup_entries m (expr ++ 0 :: rest) es = Ok o ∧
       match o with Some e => compile_expr l enc expr = Ok (ecode e) | None => True end.
Proof.
  intros Hx. induction es as [|e es IH]; intros Hes; [by exists None|].
  destruct (Hes e) as (k & [Hk [r Hr]] & Hc); [left|]. simpl.
  unfold read_mem. rewrite Hr. simpl. rewrite strcmp_eq_spec by done. simpl.
  case_bool_decide as Heq; [subst k; by exists (Some e)|].
  apply IH. intros e' He'. apply Hes. by right.
Qed.

(** The cache does not show: when its keys still hold their expressions,
    [PCRE_CODE] does what compiling the expression does, and the cache stays
    so. *)
Lemma PCRE_CODE_compiles s p expr :
  cache_ok s → is_value s p expr →
  ∃ s', PCRE_CODE l enc p s = (compile_expr l enc expr, s') ∧ mem s' = mem s ∧ cache_ok s'.
Proof using LibLaws0.
  intros Hs [[Hx [rest Hm]] Hlen]. unfold PCRE_CODE. rewrite get_bind.
  rewrite (lift_bind _ _ (expr ++ 0 :: rest)) by (unfold read_mem; by rewrite Hm).
  set (h := string_hash l _ _). cbn zeta.
  destruct (lookup_entries_ok (mem s) expr rest (probe l (regexhash s) h) Hx) as (o & Ho & Hc).
  { intros e He. apply Hs. by eapply probe_sub. }
  rewrite (lift_bind _ _ o) by done. destruct o as [e|].
  - rewrite Hc. by exists s.
  - rewrite Hlen, take_app_length. unfold mbind, M_bind, lift_r.
    destruct (compile_expr l enc expr) as [c|er|w] eqn:Hce; [|by exists s|by exists s].
    eexists. split; [done|]. split; [done|]. intros e [->|He]%elem_of_cons; simpl; [|by apply Hs].
    exists expr. split; [|done]. split; [done|]. by exists rest.
Qed.

(** Writing elsewhere keeps the cache. *)
Lemma cache_ok_write s a b :
  cache_ok s → (∀ e, e ∈ regexhash s → regex e ≠ a) → cache_ok (State (<[a := b]> (mem s)) (regexhash s)).
Proof.
  intros Hs Ha e He. destruct (Hs e He) as (k & [Hk [r Hr]] & Hc). exists k. split; [|done].
  split; [done|]. exists r. simpl. rewrite lookup_insert_ne; [done|]. apply not_eq_sym, Ha, He.
Qed.

(** What the input function reads, the output function writes back, and the
    expressions it accepts are those that compile. *)
Theorem regex_in_out s a expr rest :
  cache_ok s → (∀ e, e ∈ regexhash s → regex e ≠ a) → 0 ∉ expr →
  ∃ s', match compile_expr l enc expr with
        | Ok _ => regex_in l enc a expr (0 :: rest) s = (Ok (Pgpcre a (length expr)), s') ∧
                  regex_out (Pgpcre a (length expr)) s' = (Ok expr, s')
        | Err e => regex_in l enc a expr (0 :: rest) s = (Err e, s')
        | Undefined w => regex_in l enc a expr (0 :: rest) s = (Undefined w, s')
        end ∧ cache_ok s'.
Proof using LibLaws0.
  intros Hs Ha Hx. unfold regex_in, cstring_to_pcre. rewrite until_nul_id by done.
  set (s1 := State (<[a := expr ++ 0 :: rest]> (mem s)) (regexhash s)).
  destruct (PCRE_CODE_compiles s1 (Pgpcre a (length expr)) expr) as (s' & Hc & Hm & Hs').
  { by apply cache_ok_write. }
  { split; [|done]. split; [done|]. exists rest. simpl. by rewrite lookup_insert_eq. }
  exists s'. split; [|done]. unfold mbind, M_bind, modify_st, mret, M_ret. fold s1. rewrite Hc.
  destruct (compile_expr l enc expr); [|done|done]. split; [done|].
  unfold regex_out, read_mem. rewrite get_bind, Hm. unfold s1. cbn [mem vardata varsize].
  rewrite lookup_insert_eq. unfold lift_r, mbind, M_bind, mret, M_ret. by rewrite take_app_length.
Qed.

(** What a backend does between uses of the cache: it writes to memory that is not
    that of a key. *)
Inductive session : state code → list (list Z * result code) → Prop :=
  | session_end s : session s []
  | session_write s a b tr :
      (∀ e, e ∈ regexhash s → regex e ≠ a) →
      session (State (<[a := b]> (mem s)) (regexhash s)) tr → session s tr
  | session_use s p expr r s' tr :
      is_value s p expr → PCRE_CODE l enc p s = (r, s') → session s' tr → session s ((expr, r) :: tr).

(** As long as the memory of the keys is left alone, every expression gets the code
    it compiles to, in any order of uses and writes. *)
Theorem regex_cache_transparent m tr :
  session (State m []) tr → Forall (λ x, x.2 = compile_expr l enc x.1) tr.
Proof using LibLaws0.
  assert (Hgen : ∀ s, session s tr → cache_ok s → Forall (λ x, x.2 = compile_expr l enc x.1) tr).
  { induction 1 as [s|s a b tr Ha _ IH|s p expr r s' tr Hv Hr _ IH]; intros Hs; [done| |].
    - by apply IH, cache_ok_write.
    - destruct (PCRE_CODE_compiles s p expr Hs Hv) as (s1 & Hc & _ & Hs1).
      rewrite Hc in Hr. simplify_eq. constructor; [done|]. by apply IH. }
  intros Htr. eapply Hgen; [done|]. intros e He. by apply elem_of_nil in He.
Qed.

(** The key is the address of the first use.  When the memory there is used again,
    for an expression of the same length that differs in its last byte, the
    hash is the same, the key compares equal to itself, and the expression gets
    the code of the one before. *)
Theorem stale_regex m a x y z cxy rest rest' :
  compile_expr l enc (x ++ [y]) = Ok cxy →
  let p := Pgpcre a (S (length x)) in
  ∃ s, PCRE_CODE l enc p (State (<[a := (x ++ [y]) ++ 0 :: rest]> m) []) = (Ok cxy, s) ∧
       ∃ s', PCRE_CODE l enc p (State (<[a := (x ++ [z]) ++ 0 :: rest']> (mem s)) (regexhash s)) =
             (Ok cxy, s').
Proof using LibLaws0.
  intros Hc p.
  assert (Hprobe : ∀ h, probe l [] h = []).
  { intros h. destruct (probe l [] h) as [|e es] eqn:He; [done|].
    assert (e ∈ []) as Hin by (eapply (probe_sub [] h); rewrite He; left). by apply elem_of_nil in Hin. }
  unfold PCRE_CODE. rewrite !get_bind. cbn [mem regexhash vardata varsize p].
  rewrite (lift_bind _ _ ((x ++ [y]) ++ 0 :: rest)) by (unfold read_mem; by rewrite lookup_insert_eq).
  cbn zeta. rewrite Hprobe. rewrite (lift_bind _ _ None) by done. cbn iota.
  rewrite take_app_length' by (rewrite length_app; simpl; lia).
  rewrite (lift_bind _ _ cxy) by done. rewrite modify_bind. cbn [mem regexhash].
  eexists. split; [done|]. cbn [mem regexhash]. rewrite get_bind. cbn [mem regexhash].
  rewrite (lift_bind _ _ ((x ++ [z]) ++ 0 :: rest')) by (unfold read_mem; by rewrite lookup_insert_eq).
  cbn zeta. set (h := string_hash l ((x ++ [y]) ++ _) _). set (t := [Entry a h cxy]).
  assert (Hh : string_hash l ((x ++ [z]) ++ 0 :: rest') (Z.of_nat (S (length x))) = h).
  { apply string_hash_prefix; [lia|]. rewrite <- !app_assoc.
    replace (Z.to_nat _) with (length x) by lia. by rewrite !take_app_length. }
  rewrite Hh. assert (Hin : Entry a h cxy ∈ probe l t h) by (apply probe_hash; [left|done]).
  rewrite (lift_bind _ _ (Some (Entry a h cxy))); [by eexists|].
  destruct (probe l t h) as [|e es] eqn:Hp; [by apply elem_of_nil in Hin|].
  assert (e = Entry a h cxy) as -> by (apply list_elem_of_singleton, (probe_sub t h); rewrite Hp; left).
  simpl. unfold read_mem. rewrite lookup_insert_eq. simpl. by rewrite strcmp_eq_refl.
Qed.
End cache.

(** ** Matching *)

Section matching.
Context {code : Type} (l : lib code) (enc : encoding) {plain : code → Prop} `{!LibLaws l plain}.
Context (Henc : enc ≠ PG_OTHER).

(** A group of a match, as text: [None] if it took no part. *)
Definition group_text (subject : list Z) (g : Z * Z) : option (list Z) :=
  if g.1 =? PCRE2_UNSET then None
  else Some (take (Z.to_nat (g.2 - g.1)) (drop (Z.to_nat g.1) subject)).

(** The row of a match: its groups, or the whole if it has none. *)
Definition row (subject : list Z) (c : code) (ov : ovector) : list (option (list Z)) :=
  if (0 <? capture_count l c)%nat then group_text subject <$> take (capture_count l c) (drop 1 ov)
  else group_text subject <$> take 1 ov.

(** Matches that follow one another without a gap: the first anywhere, each
    later one anchored at the end of the one before. *)
Inductive adjacent (c : code) (subject : list Z) : option Z → list (list (option (list Z))) → Prop :=
  | adjacent_subject_end e :
      Z.of_nat (length subject) ≤ e → adjacent c subject (Some e) []
  | adjacent_no_match o :
      pcre2_match l c subject (default 0 o) (bool_decide (is_Some o)) = NoMatch → adjacent c subject o []
  | adjacent_match o b e rest rows :
      pcre2_match l c subject (default 0 o) (bool_decide (is_Some o)) = Match ((b, e) :: rest) →
      adjacent c subject (Some e) rows →
      adjacent c subject o (row subject c ((b, e) :: rest) :: rows).

Context (subject : list Z) (Hnul : 0 ∉ subject) (Hlen : Z.of_nat (length subject) < 2 ^ 31).

Definition good_group (g : Z * Z) : Prop :=
  g = (PCRE2_UNSET, PCRE2_UNSET) ∨ 0 ≤ g.1 ∧ g.1 ≤ g.2 ∧ g.2 ≤ Z.of_nat (length subject).

Lemma substring_ok ov i g :
  ov !! i = Some g → 0 ≤ g.1 ∧ g.1 ≤ g.2 ∧ g.2 ≤ Z.of_nat (length subject) →
  substring subject ov i = Ok (take (Z.to_nat (g.2 - g.1)) (drop (Z.to_nat g.1) subject)) ∧
  group_text subject g = Some (take (Z.to_nat (g.2 - g.1)) (drop (Z.to_nat g.1) subject)).
Proof using Hlen.
  intros Hi Hg. unfold substring, group_text. rewrite Hi. destruct g as [b e]. simpl in *.
  destruct (Z.leb_spec b e); [|lia]. destruct (Z.leb_spec e (Z.of_nat (length subject))); [|lia].
  destruct (Z.eqb_spec b PCRE2_UNSET) as [->|]; [unfold PCRE2_UNSET in *; lia|done].
Qed.

Lemma group_ok ov i g :
  ov !! i = Some g → good_group g →
  (if wrap_s 32 g.1 <? 0 then Ok None else s ← substring subject ov i; Ok (Some s)) =
  Ok (group_text subject g).
Proof using Hlen.
  intros Hi [-> | Hg]; [done|]. destruct (substring_ok ov i g Hi Hg) as [-> ->].
  rewrite wrap_s_id; [|lia|unfold in_s; simpl; lia]. destruct (Z.ltb_spec g.1 0); [lia|done].
Qed.

Lemma groups_ok ov k n :
  (k + n ≤ length ov)%nat → Forall good_group (drop k ov) →
  groups subject ov (seq k n) = Ok (group_text subject <$> take n (drop k ov)).
Proof using Hlen.
  revert k. induction n as [|n IH]; intros k Hk Hg; [done|].
  destruct (lookup_lt_is_Some_2 ov k) as [g Hi]; [lia|]. rewrite (drop_S _ _ _ Hi) in *.
  apply Forall_cons in Hg as [Hgood Hg]. cbn [seq groups]. rewrite Hi. destruct g as [b e].
  pose proof (group_ok ov k (b, e) Hi Hgood) as Hok. cbn [fst] in Hok. rewrite Hok. simpl.
  by rewrite IH by (done || lia).
Qed.

Lemma read_matches_ok c o again ov :
  plain c → 0 ≤ o → pcre2_match l c subject o again = Match ov →
  read_matches subject ov (capture_count l c) = Ok (row subject c ov).
Proof using Hlen LibLaws0.
  intros Hp Ho Hm. destruct (match_offsets _ _ _ _ _ Hp Hm) as (b & e & rest & -> & Hb & He & Hl & _ & Hc & Hg).
  unfold read_matches, row. destruct (0 <? capture_count l c)%nat.
  - apply groups_ok; [simpl; lia|done].
  - destruct (substring_ok ((b, e) :: rest) 0 (b, e)) as [-> Ht]; [done|simpl; lia|]. simpl. by rewrite Ht.
Qed.

Lemma until_nul_group g : until_nul <$> group_text subject g = group_text subject g.
Proof using Hnul.
  unfold group_text. destruct (_ =? _); [done|]. simpl. f_equal. apply until_nul_id.
  intros Hin. apply Hnul. rewrite <- (take_drop (Z.to_nat g.1) subject), elem_of_app. right.
  rewrite <- (take_drop (Z.to_nat (g.2 - g.1)) (drop _ _)), elem_of_app. by left.
Qed.

Lemma to_texts_row c ov : to_texts (row subject c ov) = row subject c ov.
Proof using Hnul.
  unfold to_texts, row. case_match; rewrite <- list_fmap_compose; apply list_fmap_ext;
    intros i g _; apply until_nul_group.
Qed.

Lemma utf8string_id : utf8string l enc subject = subject.
Proof using Henc. by destruct enc. Qed.

Context (expr : list Z) (c : code) (Hcomp : compile_expr l enc expr = Ok c) (Hplain : plain c).
Context (Herr : ∀ o again rc, pcre2_match l c subject o again ≠ MatchError rc).

(** The end of the match before, as the offset of the next. *)
Definition last_end (last : option ovector) (o : option Z) : Prop :=
  match o with
  | None => last = None
  | Some e => 0 ≤ e ≤ Z.of_nat (length subject) ∧ ∃ b rest, last = Some ((b, e) :: rest)
  end.

Lemma matches_internal_ok s p last o :
  cache_ok l enc s → is_value s p expr → last_end last o →
  ∃ s', mem s' = mem s ∧ cache_ok l enc s' ∧
    matches_internal l enc subject p true last s =
    (Ok (if bool_decide (is_Some o) && bool_decide (Z.of_nat (length subject) ≤ default 0 o) then None
         else match pcre2_match l c subject (default 0 o) (bool_decide (is_Some o)) with
              | Match ov => Some (ov, row subject c ov)
              | _ => None
              end), s').
Proof using Type*.
  intros Hs Hv Hlast. destruct (PCRE_CODE_compiles l enc s p expr Hs Hv) as (s' & Hc & Hm & Hs').
  exists s'. split; [done|]. split; [done|]. unfold matches_internal.
  rewrite (bind_ok _ _ c s s') by (by rewrite Hc, Hcomp). rewrite utf8string_id. cbn zeta.
  assert (0 ≤ default 0 o) as Ho by (destruct o; simpl in *; lia).
  assert (Hmatch : ∀ again, match pcre2_match l c subject (default 0 o) again with
      | Match ov => ms ← lift_r (read_matches subject ov (capture_count l c)); mret (Some (ov, ms))
      | NoMatch => mret None
      | MatchError _ => ereport "PCRE match error"
      end s' = (Ok (match pcre2_match l c subject (default 0 o) again with
                    | Match ov => Some (ov, row subject c ov) | _ => None end), s')).
  { intros again. destruct (pcre2_match _ _ _ _ _) as [ov| |rc] eqn:Hpm; [|done|by destruct (Herr _ _ _ Hpm)].
    by rewrite (lift_bind _ _ (row subject c ov)) by (by eapply read_matches_ok). }
  destruct o as [e|]; simpl in Hlast.
  - destruct Hlast as [He (b & rest & ->)]. rewrite (lift_bind _ _ (wrap_s 32 e)) by done.
    rewrite wrap_s_id by (unfold in_s; simpl; lia). rewrite wrap_u_id by (unfold in_u; lia). simpl in *.
    destruct (Z.leb_spec (Z.of_nat (length subject)) e).
    + by rewrite bool_decide_eq_true_2 by lia.
    + rewrite bool_decide_eq_false_2 by lia. apply (Hmatch true).
  - subst last. rewrite (lift_bind _ _ 0) by done. apply (Hmatch false).
Qed.

Lemma matches_loop_ok fuel s p last o :
  cache_ok l enc s → is_value s p expr → last_end last o →
  (length subject + 2 ≤ fuel + match o with None => 0 | Some e => S (Z.to_nat e) end)%nat →
  ∃ rows s', matches_loop l enc fuel subject p last s = (Ok rows, s') ∧ cache_ok l enc s' ∧
    adjacent c subject o rows ∧
    (length rows + match o with None => 0 | Some e => S (Z.to_nat e) end ≤ length subject + 1)%nat.
Proof using Type*.
  revert s last o. induction fuel as [|fuel IH]; intros s last o Hs Hv Hlast Hf.
  { destruct o; simpl in *; lia. }
  destruct (matches_internal_ok s p last o Hs Hv Hlast) as (s' & Hm & Hs' & Hi).
  cbn [matches_loop]. rewrite (bind_ok _ _ _ s s' Hi).
  assert (Hv' : is_value s' p expr) by (unfold is_value; by rewrite Hm).
  destruct (bool_decide (is_Some o) && _) eqn:Hend.
  - apply andb_true_iff in Hend as [Hso He]. destruct o as [e|]; [|done]. simpl in *.
    apply bool_decide_eq_true in He. exists [], s'. simpl. repeat split; [done|by constructor|lia].
  - destruct (pcre2_match l c subject _ _) as [ov| |rc] eqn:Hpm; [| |by destruct (Herr _ _ _ Hpm)].
    + destruct (match_offsets _ _ _ _ _ Hplain Hpm) as (b & e & rest & -> & Hb & He & Hl & Ha & _ & _).
      assert (Hinc : (match o with None => 0 | Some e => S (Z.to_nat e) end < S (Z.to_nat e))%nat).
      { destruct o as [e0|]; simpl in *; [|lia]. destruct Hlast as [He0 _]. specialize (Ha eq_refl). lia. }
      destruct (IH s' (Some ((b, e) :: rest)) (Some e)) as (rows & s'' & Hl' & Hs'' & Hadj & Hn); [done|done| |lia|].
      { simpl. split; [|eauto]. destruct o; simpl in *; lia. }
      rewrite (bind_ok _ _ rows s' s'' Hl'). rewrite to_texts_row.
      exists (row subject c ((b, e) :: rest) :: rows), s''. repeat split; [done|by econstructor|simpl; lia].
    + exists [], s'. simpl. repeat split; [done|by constructor 2|].
      destruct o as [e|]; simpl in *; [destruct Hlast|]; lia.
Qed.

End matching.

(** ** Literal expressions *)

Module Demo.

(** Literals are matched where they occur. *)
Definition occurs (lit s : list Z) (o : nat) : bool := bool_decide (take (length lit) (drop o s) = lit).

Definition literal_match (lit s : list Z) (o : Z) (again : bool) : match_result :=
  let b := Z.to_nat o in
  if again then
    if occurs lit s b && (0 <? length lit)%nat then Match [(Z.of_nat b, Z.of_nat (b + length lit))] else NoMatch
  else
    match list_find (λ i, occurs lit s i = true) (seq b (S (length s) - b)) with
    | Some (_, i) => Match [(Z.of_nat i, Z.of_nat (i + length lit))]
    | None => NoMatch
    end.

Definition literals : lib (list Z) := {|
  pcre2_compile _ e := if bool_decide (e = [43]) then raise "regex compile error" else Ok e;
  capture_count _ := O;
  pcre2_match := literal_match;
  nametable _ := ([], O, O);
  string_hash a n := be_val (take (Z.to_nat (n - 1)) a);
  probe t h := filter (λ e, hash e = h) t;
  pg_do_encoding_conversion s := s
|}.

Lemma occurs_within lit s o : (o ≤ length s)%nat → occurs lit s o = true → (o + length lit ≤ length s)%nat.
Proof.
  unfold occurs. rewrite bool_decide_eq_true. intros Ho H. apply (f_equal length) in H.
  rewrite length_take, length_drop in H. lia.
Qed.

#[export] Instance literals_laws : LibLaws literals (λ _, True).
Proof.
  split.
  - intros t h e [_ He]%list_elem_of_filter. done.
  - intros t h e He Hh. by apply list_elem_of_filter.
  - intros a b n _ Hab. simpl. by rewrite Hab.
  - intros c s o again ov _. simpl. unfold literal_match. destruct again.
    + destruct (occurs c s (Z.to_nat o)) eqn:Ho; [|done]. simpl.
      destruct (Nat.ltb_spec 0 (length c)) as [Hc|]; [|done]. intros [= <-].
      assert (Z.to_nat o ≤ length s)%nat.
      { destruct (decide (Z.to_nat o ≤ length s)%nat) as [|Hgt]; [done|]. unfold occurs in Ho.
        apply bool_decide_eq_true in Ho. rewrite drop_ge in Ho by lia. rewrite take_nil in Ho.
        subst c. simpl in Hc. lia. }
      pose proof (occurs_within _ _ _ H Ho). do 3 eexists. split; [done|].
      repeat split; simpl; try constructor; lia.
    + destruct (list_find _ _) as [[j i]|] eqn:Hf; [|done]. intros [= <-].
      apply list_find_Some in Hf as (Hi%list_elem_of_lookup_2%elem_of_seq & Ho & _).
      assert (i ≤ length s)%nat by lia. pose proof (occurs_within _ _ _ H Ho).
      do 3 eexists. split; [done|]. repeat split; simpl; try constructor; try lia; done.
Qed.

Definition a_ : Z := 97.
Definition b_ : Z := 98.
Definition space : Z := 32.

(** A backend whose memory holds the expression [a] at address 4096. *)
Definition s0 : state (list Z) := State {[4096 := [a_; 0]]} [].
Definition pat : pgpcre := Pgpcre 4096 1.

Lemma s0_ok : cache_ok literals PG_UTF8 s0.
Proof. intros e He. by apply elem_of_nil in He. Qed.

Lemma pat_value : is_value s0 pat [a_].
Proof. split; [|done]. split; [by_decide|]. by exists []. Qed.

Lemma regex_in_out_witness :
  ∃ s', (regex_in literals PG_UTF8 8192 [a_; b_] [0; 7] s0 = (Ok (Pgpcre 8192 2), s') ∧
         regex_out (Pgpcre 8192 2) s' = (Ok [a_; b_], s')) ∧ cache_ok literals PG_UTF8 s'.
Proof.
  apply (regex_in_out literals PG_UTF8 s0 8192 [a_; b_] [7] s0_ok); [|by_decide].
  intros e He. by apply elem_of_nil in He.
Defined.

Lemma regex_cache_transparent_witness :
  Forall (λ x, x.2 = compile_expr literals PG_UTF8 x.1) [([a_], Ok [a_]); ([a_], Ok [a_])].
Proof.
  apply (regex_cache_transparent literals PG_UTF8 {[4096 := [a_; 0]]}).
  apply (session_use _ _ _ pat _ _ (State {[4096 := [a_; 0]]} [Entry 4096 0 [a_]]));
    [exact pat_value | vm_compute; reflexivity |].
  apply (session_write _ _ _ 8192 [1]).
  - intros e He. apply list_elem_of_singleton in He as ->. by_decide.
  - eapply (session_use _ _ _ pat); [| vm_compute; reflexivity | apply session_end].
    split; [|done]. split; [by_decide|]. by exists [].
Defined.

Lemma stale_regex_witness :
  let p := Pgpcre 4096 2 in
  ∃ s, PCRE_CODE literals PG_UTF8 p (State {[4096 := [a_; b_; 0]]} []) = (Ok [a_; b_], s) ∧
       ∃ s', PCRE_CODE literals PG_UTF8 p (State (<[4096 := [a_; a_; 0]]> (mem s)) (regexhash s)) =
             (Ok [a_; b_], s').
Proof. exact (stale_regex literals PG_UTF8 ∅ 4096 [a_] b_ a_ [a_; b_] [] [] eq_refl). Defined.


(** A match behind a gap is not returned, although it is one. *)
Theorem separated_matches_lost :
  fst (regex_matches literals PG_UTF8 [a_; space; a_] pat s0) = Ok [[Some [a_]]] ∧
  pcre2_match literals [a_] [a_; space; a_] 1 false = Match [(2, 3)].
Proof. split; vm_compute; reflexivity. Qed.

End Demo.

End Regex.
