(* ===== verification/Arenas.v ===== *)
(** * Shared memory arenas: [omni_shmem]

    omni_shmem/omni_shmem.cpp on deps/oink.hpp: arenas are shared memory
    objects of the system, found by name; every backend keeps a map of those it
    has opened; an arena holds named allocations.  The calls of all backends
    interleave, each a step.  A transient arena takes its name out of the
    system when the backend that opened it goes.

    Whether an arena of a size can be made, whether an allocation fits into one
    and what fresh memory holds is a parameter ([Boost]). *)

From Stdlib Require Import ZArith Lia.
From stdpp Require Import base tactics list gmap strings numbers.
From S2P Require Import Prelude.

Local Open Scope Z_scope.

Module Arenas.

(** [allocation<std::byte>] with the memory it points to *)
Record allocation := Allocation { size_ : Z; data : list Z }.

Record segment := Segment { segment_size : Z; objects : gmap string allocation }.

(** The system: names of shared memory objects, and the objects, which live on
    without a name while they are mapped. *)
Record system := System { names : gmap string Z; segments : gmap Z segment }.

(** [oink::arena] and [oink::transient_arena]; [aid] tells the nodes of the map
    apart. *)
Record arena := Arena { aid : Z; seg : Z; transient : bool }.

(** [managed_arenas] of a backend, and how many nodes it has made. *)
Record backend := Backend { arenas_ : gmap string arena; nodes : Z }.

Record st := St { sys : system; be : backend }.

Record boost := Boost {
  creatable : Z → bool;
  fits : segment → Z → bool;
  garbage : Z → list Z
}.

Definition set_sys (f : system → system) (s : st) : st := St (f (sys s)) (be s).
Definition set_arenas (f : gmap string arena → gmap string arena) (s : st) : st :=
  St (sys s) (Backend (f (arenas_ (be s))) (nodes (be s))).
Definition set_objects (k : Z) (f : gmap string allocation → gmap string allocation) (x : system) : system :=
  System (names x) (alter (λ g, Segment (segment_size g) (f (objects g))) k (segments x)).

(** [shared_memory_object::remove] *)
Definition remove_name (name : string) (x : system) : system := System (delete name (names x)) (segments x).

Section operations.
Context (bo : boost).

(** A new node of the map. *)
Definition emplace (name : string) (k : Z) (tr : bool) : M st arena :=
  s ← get_st;
  let a := Arena (nodes (be s)) k tr in
  _ ← put_st (St (sys s) (Backend (<[name := a]> (arenas_ (be s))) (nodes (be s) + 1)));
  mret a.

(** [bip::open_or_create] *)
Definition open_or_create_segment (name : string) (size : Z) : M st Z :=
  s ← get_st;
  match names (sys s) !! name with
  | Some k => mret k
  | None =>
      if negb (creatable bo size) then ereport "boost::interprocess_exception" else
      let k := 1 + set_fold Z.max 0 (dom (segments (sys s))) in
      _ ← modify_st (set_sys (λ x, System (<[name := k]> (names x)) (<[k := Segment size ∅]> (segments x))));
      mret k
  end.

Definition find_or_create (name : string) (size : Z) (tr : bool) : M st arena :=
  s ← get_st;
  match arenas_ (be s) !! name with
  | Some a => mret a
  | None => k ← open_or_create_segment name size; emplace name k tr
  end.

(** [find]: opens, but does not create. *)
Definition find (name : string) (tr : bool) : M st arena :=
  s ← get_st;
  match arenas_ (be s) !! name with
  | Some a => mret a
  | None =>
      match names (sys s) !! name with
      | Some k => emplace name k tr
      | None => ereport "boost::interprocess_exception"
      end
  end.

(** The destructor of an arena: [remove_shared_memory_on_destroy] of a transient
    one. *)
Definition destroy_arena (name : string) (a : arena) : M st unit :=
  when (transient a) (modify_st (set_sys (remove_name name))).

Definition erase (name : string) : M st unit :=
  s ← get_st;
  match arenas_ (be s) !! name with
  | Some a => _ ← destroy_arena name a; modify_st (set_arenas (delete name))
  | None => mret ()
  end.

Definition delete_by_name (name : string) : M st unit :=
  _ ← erase name; modify_st (set_sys (remove_name name)).

(** At the exit of the backend *)
Definition clear : M st unit :=
  s ← get_st;
  _ ← for_each (λ x, destroy_arena x.1 x.2) (map_to_list (arenas_ (be s)));
  modify_st (set_arenas (λ _, ∅)).

Definition get_segment (a : arena) : M st segment :=
  s ← get_st;
  match segments (sys s) !! seg a with
  | Some g => mret g
  | None => undefined "segment not mapped"
  end.

(** The name, and whether the warning about the size was given. *)
Definition shmem_arena (name : string) (size : Z) (tr : option bool) : M st (string * bool) :=
  a ← find_or_create name (wrap_u 64 size) (default true tr);
  g ← get_segment a;
  mret (name, negb (segment_size g =? wrap_u 64 size)).

Definition shmem_delete_arena (name : string) : M st unit := delete_by_name name.

(** [find_or_construct<allocation>(name)(arena, size, constructed)] *)
Definition construct (a : arena) (name : string) (size : Z) (content : list Z) : M st (bool * Z) :=
  g ← get_segment a;
  match objects g !! name with
  | Some o => mret (false, wrap_s 64 (size_ o))
  | None =>
      if negb (fits bo g size) then ereport "std::bad_alloc" else
      _ ← modify_st (set_sys (set_objects (seg a) <[name := Allocation size content]>));
      mret (true, wrap_s 64 size)
  end.

Definition shmem_find_or_construct (arena_name name : string) (size : Z) : M st (bool * Z) :=
  a ← find arena_name false;
  construct a name (wrap_u 64 size) (garbage bo (wrap_u 64 size)).

Definition shmem_find_or_construct_by_value (arena_name name : string) (ba : list Z) : M st (bool * Z) :=
  a ← find arena_name false;
  construct a name (Z.of_nat (length ba)) ba.

(** The bytes a call reads: from [start] on, [n] of them. *)
Definition read_bytes (o : allocation) (start n : Z) : result (list Z) :=
  if start + n <=? Z.of_nat (length (data o)) then Ok (take (Z.to_nat n) (drop (Z.to_nat start) (data o)))
  else Undefined "read outside of the allocation".

(** [std::optional<int>::value_or] returns an [int], also of the size of the
    allocation. *)
Definition read_allocation (o : allocation) (start size : option Z) : result (list Z) :=
  let start_ := wrap_u 64 (default 0 start) in
  if start_ >? wrap_u 64 (size_ o - 1) then raise "start can only be within the allocation" else
  let s_ := wrap_u 64 (default (wrap_s 32 (size_ o)) size) in
  read_bytes o start_ (Z.min (wrap_u 64 (size_ o - start_)) (wrap_u 64 (s_ - start_))).

Definition shmem_read (arena_name name : string) (start size : option Z) : M st (list Z) :=
  a ← find arena_name false;
  g ← get_segment a;
  match objects g !! name with
  | None => ereport "allocation not found"
  | Some o => lift_r (read_allocation o start size)
  end.

Definition shmem_destroy (arena_name name : string) : M st bool :=
  a ← find arena_name false;
  g ← get_segment a;
  match objects g !! name with
  | None => mret false
  | Some _ => _ ← modify_st (set_sys (set_objects (seg a) (delete name))); mret true
  end.

Definition shmem_arenas : M st (list (string * Z)) :=
  s ← get_st;
  mret ((λ x : string * arena, (x.1, default 0 (segment_size <$> segments (sys s) !! seg x.2)))
          <$> map_to_list (arenas_ (be s))).

(** ** The interface for other extensions

    A handle refers to a node of the map. *)

Record handle := Handle { hname : string; haid : Z }.

Definition open (name : string) (tr : bool) : M st handle :=
  a ← find name tr; mret (Handle name (aid a)).

Definition open_or_create (name : string) (size : Z) (tr : bool) : M st handle :=
  a ← find_or_create name size tr; mret (Handle name (aid a)).

Definition deref (h : handle) : M st arena :=
  s ← get_st;
  match arenas_ (be s) !! hname h with
  | Some a => if aid a =? haid h then mret a else undefined "the arena was erased"
  | None => undefined "the arena was erased"
  end.

Definition apex_find (h : handle) (name : string) : M st (option allocation) :=
  a ← deref h; g ← get_segment a; mret (objects g !! name).

(** [constructed] is set by the constructor only. *)
Definition apex_find_or_construct (h : handle) (name : string) (size : Z) : M st bool :=
  a ← deref h;
  r ← construct a name size (garbage bo size);
  if (r.1 : bool) then mret false else undefined "constructed was not set".

Definition apex_destroy (h : handle) (name : string) : M st bool :=
  a ← deref h; g ← get_segment a;
  match objects g !! name with
  | None => mret false
  | Some _ => _ ← modify_st (set_sys (set_objects (seg a) (delete name))); mret true
  end.

Definition release (h : handle) : M st unit := erase (hname h).

End operations.

(** ** All backends *)

Inductive call :=
  | ShmemArena (name : string) (size : Z) (tr : option bool)
  | ShmemFindOrConstruct (arena_name name : string) (size : Z)
  | ShmemFindOrConstructByValue (arena_name name : string) (ba : list Z)
  | ShmemRead (arena_name name : string) (start size : option Z)
  | ShmemDestroy (arena_name name : string)
  | ShmemDeleteArena (name : string)
  | BackendExit.

Definition perform (bo : boost) (c : call) : M st unit :=
  match c with
  | ShmemArena n sz tr => _ ← shmem_arena bo n sz tr; mret ()
  | ShmemFindOrConstruct a n sz => _ ← shmem_find_or_construct bo a n sz; mret ()
  | ShmemFindOrConstructByValue a n ba => _ ← shmem_find_or_construct_by_value bo a n ba; mret ()
  | ShmemRead a n start sz => _ ← shmem_read a n start sz; mret ()
  | ShmemDestroy a n => _ ← shmem_destroy a n; mret ()
  | ShmemDeleteArena n => shmem_delete_arena n
  | BackendExit => clear
  end.

Record world := World { wsys : system; backends : gmap Z backend }.

Definition backend_of (w : world) (b : Z) : backend := default (Backend ∅ 0) (backends w !! b).

(** What backend [b] sees, and the world after it has changed that. *)
Definition view (w : world) (b : Z) : st := St (wsys w) (backend_of w b).
Definition update (w : world) (b : Z) (s : st) : world := World (sys s) (<[b := be s]> (backends w)).

Definition step (bo : boost) (w : world) (x : Z * call) : world :=
  update w x.1 (perform bo x.2 (view w x.1)).2.

Definition steps (bo : boost) (w : world) (xs : list (Z * call)) : world := foldl (step bo) w xs.

(** ** Invariants *)

(** Names are of mapped objects, no two of one; an allocation has the memory it
    says it has. *)
Record sys_ok (x : system) : Prop := {
  names_mapped n k : names x !! n = Some k → is_Some (segments x !! k);
  names_inj n m k : names x !! n = Some k → names x !! m = Some k → n = m;
  sizes_ok k g n o : segments x !! k = Some g → objects g !! n = Some o → size_ o = Z.of_nat (length (data o))
}.

(** The arenas a backend has opened are those the names stand for. *)
Definition be_ok (x : system) (b : backend) : Prop :=
  ∀ n a, arenas_ b !! n = Some a → names x !! n = Some (seg a).

Definition good (s : st) : Prop := sys_ok (sys s) ∧ be_ok (sys s) (be s).

(** An allocation by the names of its arena and its own *)
Definition stored (x : system) (A O : string) (o : allocation) : Prop :=
  ∃ k g, names x !! A = Some k ∧ segments x !! k = Some g ∧ objects g !! O = Some o.

(** From [x] to [y] names are only added, and allocations stay, but for [D]. *)
Record le (D : option (string * string)) (x y : system) : Prop := {
  le_names : names x ⊆ names y;
  le_stored A O o : Some (A, O) ≠ D → stored x A O o → stored y A O o
}.

Lemma le_refl D x : le D x x.
Proof. by split. Qed.

Lemma le_trans D x y z : le D x y → le D y z → le D x z.
Proof. intros [H1 H2] [H3 H4]. split; [by etrans|eauto]. Qed.

Lemma be_ok_mono x y b : names x ⊆ names y → be_ok x b → be_ok y b.
Proof. intros Hsub Hb n a Ha. eapply lookup_weaken; eauto. Qed.

(** Operations that keep the invariants and take nothing away but [D]. *)
Definition triple (D : option (string * string)) (P : st → Prop) {R} (m : M st R) (Q : R → st → Prop) : Prop :=
  ∀ s, good s → P s →
  le D (sys s) (sys (m s).2) ∧ good (m s).2 ∧ match (m s).1 with Ok v => Q v (m s).2 | _ => True end.

Lemma triple_bind D P {R T} (m : M st R) (f : R → M st T) Q U :
  triple D P m Q → (∀ v, triple D (Q v) (f v) U) → triple D P (x ← m; f x) U.
Proof.
  intros Hm Hf s Hg HP. destruct (Hm s Hg HP) as (Hle & Hg' & HQ). unfold mbind, M_bind.
  destruct (m s) as [[v|e|w] s']; simpl in *; [|done|done].
  destruct (Hf v s' Hg' HQ) as (Hle' & Hg'' & HU). split; [by eapply le_trans|done].
Qed.

Lemma triple_conseq D (P P' : st → Prop) {R} (m : M st R) (Q Q' : R → st → Prop) :
  (∀ s, P s → P' s) → (∀ v s, Q' v s → Q v s) → triple D P' m Q' → triple D P m Q.
Proof.
  intros HP HQ Hm s Hg HPs. destruct (Hm s Hg (HP s HPs)) as (Hle & Hg' & HR).
  split; [done|]. split; [done|]. destruct (m s).1; [by apply HQ|done|done].
Qed.

Lemma triple_get D P : triple D P get_st (λ v s, v = s ∧ P s).
Proof. intros s Hg HP. split; [apply le_refl|done]. Qed.

Lemma triple_ret D P {R} (v : R) (Q : R → st → Prop) : (∀ s, P s → Q v s) → triple D P (mret v) Q.
Proof. intros HQ s Hg HP. split; [apply le_refl|]. split; [done|]. by apply HQ. Qed.

Lemma triple_fail D P {R} (r : result R) Q : (∀ v, r ≠ Ok v) → triple D P (lift_r r) Q.
Proof.
  intros Hr s Hg _. split; [apply le_refl|]. split; [done|]. simpl. destruct r; [by destruct (Hr a)|done..].
Qed.

Lemma triple_pure D P {R} (r : result R) : triple D P (lift_r r) (λ _ _, True).
Proof. intros s Hg _. split; [apply le_refl|]. split; [done|]. by destruct r. Qed.

Definition opened (n : string) (a : arena) (s : st) : Prop := names (sys s) !! n = Some (seg a).

Lemma triple_emplace D n k tr :
  triple D (λ s, names (sys s) !! n = Some k) (emplace n k tr) (λ a s, opened n a s).
Proof.
  intros s [Hs Hb] Hk. simpl. split; [apply le_refl|]. split; [|done]. split; [done|].
  intros m a. simpl. rewrite lookup_insert. case_decide; [intros [= <-]; by subst|apply Hb].
Qed.

Lemma fresh_segment x : segments x !! (1 + set_fold Z.max 0 (dom (segments x))) = None.
Proof. apply not_elem_of_dom, fresh_max. Qed.

(** A segment under a new name *)
Lemma new_segment_ok x n k size :
  sys_ok x → names x !! n = None → segments x !! k = None →
  let y := System (<[n := k]> (names x)) (<[k := Segment size ∅]> (segments x)) in
  sys_ok y ∧ ∀ D, le D x y.
Proof.
  intros [Hm Hi Hz] Hn Hk y. subst y. assert (Hne : ∀ m j, names x !! m = Some j → j ≠ k).
  { intros m j Hj ->. apply Hm in Hj as [g Hg]. congruence. }
  split; [split|].
  - intros m j. simpl. rewrite !lookup_insert. repeat case_decide; subst; try done; [|by apply Hm].
    intros [= <-]. done.
  - intros m1 m2 j. simpl. rewrite !lookup_insert. repeat case_decide; subst; [done| | |apply Hi];
      intros ? ?; simplify_eq; by edestruct Hne.
  - intros j g m o. simpl. rewrite lookup_insert. case_decide; [intros [= <-]; simpl; by rewrite lookup_empty|].
    apply Hz.
  - intros D. split; simpl; [by apply insert_subseteq|]. intros A O o _ (j & g & Hj & Hg & Ho).
    exists j, g. simpl. rewrite !lookup_insert_ne; [done| |intros ->; congruence]. intros ->. by eapply Hne.
Qed.

Lemma triple_open_or_create_segment bo D n size :
  triple D (λ _, True) (open_or_create_segment bo n size) (λ k s, names (sys s) !! n = Some k).
Proof.
  intros s [Hs Hb] _. unfold open_or_create_segment. rewrite get_bind.
  destruct (names (sys s) !! n) as [k|] eqn:Hn; [split; [apply le_refl|by split]|].
  destruct (creatable bo size); simpl; [|split; [apply le_refl|by split]].
  destruct (new_segment_ok (sys s) n _ size Hs Hn (fresh_segment _)) as [Hok Hle].
  split; [apply Hle|]. split; [split; [exact Hok|]|apply lookup_insert_eq].
  eapply be_ok_mono, Hb. apply (Hle None).
Qed.

Lemma triple_find_or_create bo D n size tr :
  triple D (λ _, True) (find_or_create bo n size tr) (λ a s, opened n a s).
Proof.
  intros s Hg _. unfold find_or_create. rewrite get_bind.
  destruct (arenas_ (be s) !! n) as [a|] eqn:Ha.
  - split; [apply le_refl|]. split; [done|]. by apply (proj2 Hg).
  - eapply triple_bind; [apply triple_open_or_create_segment|intros k; apply triple_emplace|done|done].
Qed.

Lemma triple_find D n tr : triple D (λ _, True) (find n tr) (λ a s, opened n a s).
Proof.
  intros s Hg _. unfold find. rewrite get_bind. destruct (arenas_ (be s) !! n) as [a|] eqn:Ha.
  - split; [apply le_refl|]. split; [done|]. by apply (proj2 Hg).
  - destruct (names (sys s) !! n) as [k|] eqn:Hn; [by apply triple_emplace|].
    split; [apply le_refl|done].
Qed.

Lemma triple_get_segment D n a :
  triple D (opened n a) (get_segment a) (λ g s, opened n a s ∧ segments (sys s) !! seg a = Some g).
Proof.
  intros s Hg Ho. unfold get_segment. rewrite get_bind.
  destruct (segments (sys s) !! seg a) eqn:Hk; (split; [apply le_refl|done]).
Qed.

(** Changing the allocations of one segment *)
Lemma set_objects_ok x k g n (f : gmap string allocation → gmap string allocation) :
  sys_ok x → names x !! n = Some k → segments x !! k = Some g →
  (∀ m o, f (objects g) !! m = Some o → size_ o = Z.of_nat (length (data o))) →
  sys_ok (set_objects k f x) ∧
  ∀ D, (∀ m o, Some (n, m) ≠ D → objects g !! m = Some o → f (objects g) !! m = Some o) →
       le D x (set_objects k f x).
Proof.
  intros [Hm Hi Hz] Hn Hg Hf. split; [split|].
  - intros m j Hj. apply Hm in Hj. simpl. destruct (decide (j = k)) as [->|].
    + rewrite lookup_alter_eq. by apply fmap_is_Some.
    + by rewrite lookup_alter_ne.
  - apply Hi.
  - intros j g' m o. simpl. destruct (decide (j = k)) as [->|]; [|by rewrite lookup_alter_ne; eauto].
    rewrite lookup_alter_eq, Hg. simpl. intros [= <-]. apply Hf.
  - intros D HD. split; [done|]. intros A O o HAO (j & g' & Hj & Hg' & Ho). simpl.
    destruct (decide (j = k)) as [->|].
    + assert (A = n) as -> by eauto. simplify_eq. exists k. eexists. split; [done|].
      simpl. rewrite lookup_alter_eq, Hg. simpl. split; [done|]. by apply HD.
    + exists j, g'. simpl. by rewrite lookup_alter_ne.
Qed.

Lemma triple_construct bo D n a name size content :
  size = Z.of_nat (length content) →
  triple D (opened n a) (construct bo a name size content)
    (λ r s, r.1 = true → stored (sys s) n name (Allocation size content)).
Proof.
  intros Hsize. eapply triple_bind; [apply triple_get_segment|]. intros g s [Hs Hb] [Hn Hg].
  destruct (objects g !! name) as [o|] eqn:Ho; [split; [apply le_refl|by split]|].
  destruct (fits bo g size); simpl; [|split; [apply le_refl|by split]].
  destruct (set_objects_ok (sys s) (seg a) g n <[name := Allocation size content]>) as [Hok Hle]; try done.
  { intros m o. rewrite lookup_insert. case_decide; [by intros [= <-]|]. by eapply sizes_ok. }
  split; [apply Hle|split; [by split|]].
  - intros m o _ Hm. rewrite lookup_insert_ne; [done|]. intros ->. congruence.
  - intros _. exists (seg a). eexists. split; [done|]. simpl. rewrite lookup_alter_eq, Hg. simpl.
    split; [done|]. apply lookup_insert_eq.
Qed.

Lemma triple_destroy n name : triple (Some (n, name)) (λ _, True) (shmem_destroy n name) (λ _ _, True).
Proof.
  eapply triple_bind; [apply triple_find|]. intros a. eapply triple_bind; [apply triple_get_segment|].
  intros g s [Hs Hb] [Hn Hg]. destruct (objects g !! name) as [o|] eqn:Ho; simpl; [|split; [apply le_refl|by split]].
  destruct (set_objects_ok (sys s) (seg a) g n (delete name)) as [Hok Hle]; try done.
  { intros m o'. rewrite lookup_delete_Some. intros [_ ?]. by eapply sizes_ok. }
  split; [apply Hle|by split]. intros m o' Hm Ho'. apply lookup_delete_Some. split; [congruence|done].
Qed.

(** ** What the backends share *)

(** Calls that take an arena away, and the allocation a call takes away *)
Definition removes (c : call) : bool :=
  match c with ShmemDeleteArena _ | BackendExit => true | _ => false end.
Definition destroys (c : call) : option (string * string) :=
  match c with ShmemDestroy a n => Some (a, n) | _ => None end.

Definition world_ok (w : world) : Prop := sys_ok (wsys w) ∧ ∀ b, be_ok (wsys w) (backend_of w b).

Definition empty_world : world := World (System ∅ ∅) ∅.

Lemma empty_world_ok : world_ok empty_world.
Proof.
  split; [split|]; intros *; simpl; [by rewrite lookup_empty..|].
  unfold backend_of, be_ok. simpl. intros n a. by rewrite lookup_empty.
Qed.

Lemma update_ok D w b s :
  world_ok w → le D (wsys w) (sys s) → good s → world_ok (update w b s).
Proof.
  intros [Hs Hb] Hle [Hs' Hb']. split; [done|]. intros b'. unfold backend_of, update. simpl.
  rewrite lookup_insert. case_decide; simpl; [done|].
  eapply be_ok_mono; [by apply Hle|]. apply Hb.
Qed.

Section shared.
Context (bo : boost) (Hgarbage : ∀ n, 0 ≤ n → Z.of_nat (length (garbage bo n)) = n).

Lemma perform_triple c :
  removes c = false → triple (destroys c) (λ _, True) (perform bo c) (λ _ _, True).
Proof using Hgarbage.
  intros Hc. destruct c as [n sz tr|a n sz|a n ba|a n start sz|a n|n|]; simpl in *; try done;
    (eapply triple_bind; [|intros v; by apply triple_ret]).
  - eapply triple_bind; [apply triple_find_or_create|]. intros a.
    eapply triple_bind; [apply triple_get_segment|]. intros g. apply triple_ret with (Q := λ _ _, True). done.
  - eapply triple_bind; [apply triple_find|]. intros ar.
    apply triple_construct. symmetry. apply Hgarbage. by apply wrap_u_in.
  - eapply triple_bind; [apply triple_find|]. intros ar. by apply triple_construct.
  - eapply triple_bind; [apply triple_find|]. intros ar. eapply triple_bind; [apply triple_get_segment|].
    intros g. destruct (objects g !! n); [apply triple_pure|].
    apply (triple_pure _ _ (Err _)).
  - apply triple_destroy.
Qed.

Lemma step_ok w b c :
  world_ok w → removes c = false →
  world_ok (step bo w (b, c)) ∧ le (destroys c) (wsys w) (wsys (step bo w (b, c))).
Proof using Hgarbage.
  intros Hw Hc. destruct (perform_triple c Hc (view w b)) as (Hle & Hg & _);
    [split; apply Hw|done|].
  split; [by eapply update_ok|done].
Qed.

Lemma steps_world_ok w xs :
  world_ok w → Forall (λ x, removes x.2 = false) xs → world_ok (steps bo w xs).
Proof using Hgarbage.
  intros Hw Hxs. revert w Hw. induction Hxs as [|[b c] xs Hr _ IH]; intros w Hw; simpl; [done|].
  apply (IH (step bo w (b, c))). by destruct (step_ok w b c Hw Hr).
Qed.

Lemma steps_ok w xs A O :
  world_ok w → Forall (λ x, removes x.2 = false ∧ destroys x.2 ≠ Some (A, O)) xs →
  world_ok (steps bo w xs) ∧ ∀ o, stored (wsys w) A O o → stored (wsys (steps bo w xs)) A O o.
Proof using Hgarbage.
  intros Hw Hxs. revert w Hw. induction Hxs as [|[b c] xs [Hr Hd] _ IH]; intros w Hw; simpl; [done|].
  destruct (step_ok w b c Hw Hr) as [Hw' [Hn Hst]]. destruct (IH _ Hw') as [Hw'' Hle].
  split; [done|]. intros o Ho. by apply Hle, Hst; [apply not_eq_sym|].
Qed.

End shared.

(** ** Reading *)

(** The part of an allocation from [start] to its end or, if given, to [size]. *)
Definition slice (d : list Z) (start : Z) (size : option Z) : list Z :=
  take (Z.to_nat (Z.min (default (Z.of_nat (length d)) size) (Z.of_nat (length d)) - start))
    (drop (Z.to_nat start) d).

Lemma read_allocation_slice d start size :
  Z.of_nat (length d) < 2 ^ 31 → 0 ≤ start < Z.of_nat (length d) →
  match size with Some z => start ≤ z < 2 ^ 31 | None => True end →
  read_allocation (Allocation (Z.of_nat (length d)) d) (Some start) size = Ok (slice d start size).
Proof.
  intros Hd Hstart Hsize. unfold read_allocation, read_bytes, slice. cbn [size_ data default from_option id].
  rewrite (wrap_u_id 64 start) by (unfold in_u; lia).
  rewrite (wrap_u_id 64 (_ - 1)) by (unfold in_u; lia).
  rewrite wrap_s_id by (unfold in_s; simpl; lia).
  destruct (Z.gtb_spec start (Z.of_nat (length d) - 1)); [lia|].
  rewrite (wrap_u_id 64 (Z.of_nat (length d) - start)) by (unfold in_u; lia).
  destruct size as [z|]; cbn [default from_option id].
  - rewrite (wrap_u_id 64 z), (wrap_u_id 64 (z - start)) by (unfold in_u; lia).
    destruct (Z.leb_spec (start + Z.min (Z.of_nat (length d) - start) (z - start)) (Z.of_nat (length d))); [|lia].
    do 2 f_equal. lia.
  - rewrite (wrap_u_id 64 (Z.of_nat (length d))), (wrap_u_id 64 (Z.of_nat (length d) - start)) by (unfold in_u; lia).
    destruct (Z.leb_spec (start + Z.min (Z.of_nat (length d) - start) (Z.of_nat (length d) - start)) (Z.of_nat (length d))); [|lia].
    do 2 f_equal. lia.
Qed.

(** In a world in order, the arena of a name is found by every backend. *)
Lemma find_named s n k tr :
  good s → names (sys s) !! n = Some k → ∃ a s', find n tr s = (Ok a, s') ∧ seg a = k ∧ sys s' = sys s.
Proof.
  intros [_ Hb] Hn. unfold find. rewrite get_bind. destruct (arenas_ (be s) !! n) as [a|] eqn:Ha.
  - exists a, s. split; [done|]. apply Hb in Ha. split; [congruence|done].
  - rewrite Hn. set (a := Arena (nodes (be s)) k tr).
    exists a, (St (sys s) (Backend (<[n := a]> (arenas_ (be s))) (nodes (be s) + 1))). by split.
Qed.

Lemma shmem_read_stored s A O o start size :
  good s → stored (sys s) A O o →
  ∃ s', shmem_read A O start size s = (read_allocation o start size, s').
Proof.
  intros Hg (k & g & Hn & Hk & Ho). destruct (find_named s A k false Hg Hn) as (a & s' & Hf & <- & Hs).
  unfold shmem_read. rewrite (bind_ok _ _ a s s' Hf). unfold get_segment.
  rewrite (bind_ok _ _ g s' s'); [rewrite Ho; by exists s'|]. rewrite get_bind, Hs. by rewrite Hk.
Qed.

(** C18. What one backend stores every backend reads, as long as the arena is not
    deleted, none of the backends exits and the allocation is not destroyed:
    after any calls before it and any calls after it, of any backends, a read
    returns the bytes asked for. *)
Theorem stored_value_shared bo (before after : list (Z * call)) b1 b2 A O d n s1 start size :
  (∀ n, 0 ≤ n → Z.of_nat (length (garbage bo n)) = n) →
  Forall (λ x, removes x.2 = false) before →
  Forall (λ x, removes x.2 = false ∧ destroys x.2 ≠ Some (A, O)) after →
  let w := steps bo empty_world before in
  shmem_find_or_construct_by_value bo A O d (view w b1) = (Ok (true, n), s1) →
  Z.of_nat (length d) < 2 ^ 31 → 0 ≤ start < Z.of_nat (length d) →
  match size with Some z => start ≤ z < 2 ^ 31 | None => True end →
  ∃ s2, shmem_read A O (Some start) size (view (steps bo (update w b1 s1) after) b2) =
        (Ok (slice d start size), s2).
Proof.
  intros Hgb Hbefore Hafter w Hcall Hd Hstart Hsize.
  assert (Hw : world_ok w) by (apply steps_world_ok; eauto using empty_world_ok).
  assert (Hv : good (view w b1)) by (split; apply Hw).
  assert (Htr : triple None (λ _, True) (shmem_find_or_construct_by_value bo A O d)
    (λ r s, r.1 = true → stored (sys s) A O (Allocation (Z.of_nat (length d)) d))).
  { eapply triple_bind; [apply triple_find|]. intros a. by apply triple_construct. }
  destruct (Htr _ Hv I) as (Hle & Hg1 & Hst). rewrite Hcall in *. simpl in *.
  destruct (steps_ok bo Hgb (update w b1 s1) after A O) as [Hw2 Hkeep]; [by eapply update_ok|done|].
  destruct (shmem_read_stored (view (steps bo (update w b1 s1) after) b2) A O
    (Allocation (Z.of_nat (length d)) d) (Some start) size) as [s2 Hr].
  { split; apply Hw2. }
  { by apply Hkeep, Hst. }
  exists s2. rewrite Hr. by rewrite read_allocation_slice.
Qed.

(** No call reads outside of an allocation that is not empty: whatever the start and
    the size, it is an error or returns consecutive bytes of it. *)
Theorem shmem_read_within o start size :
  size_ o = Z.of_nat (length (data o)) → 0 < size_ o < 2 ^ 64 →
  safe (λ bytes, ∃ i n, (i + n ≤ length (data o))%nat ∧ bytes = take n (drop i (data o)))
    (read_allocation o start size).
Proof.
  intros Ho Hsz. unfold read_allocation. set (start_ := wrap_u 64 (default 0 start)).
  assert (0 ≤ start_) by (apply wrap_u_in; lia).
  rewrite (wrap_u_id 64 (size_ o - 1)) by (unfold in_u; lia).
  destruct (Z.gtb_spec start_ (size_ o - 1)); [done|].
  rewrite (wrap_u_id 64 (size_ o - start_)) by (unfold in_u; lia).
  set (n := wrap_u 64 (_ - start_)). assert (0 ≤ n) by (apply wrap_u_in; lia).
  unfold read_bytes. rewrite <- Ho.
  destruct (Z.leb_spec (start_ + Z.min (size_ o - start_) n) (size_ o)); [|lia].
  simpl. exists (Z.to_nat start_), (Z.to_nat (Z.min (size_ o - start_) n)). split; [lia|done].
Qed.

(** An empty allocation is not checked: the last valid start is taken to be the
    largest number, and a read runs on from there. *)
Theorem empty_allocation_overrun start :
  0 < start < 2 ^ 31 →
  read_allocation (Allocation 0 []) (Some start) None = Undefined "read outside of the allocation".
Proof.
  intros Hs. unfold read_allocation, read_bytes. cbn [size_ data default from_option id length].
  rewrite (wrap_u_id 64 start) by (unfold in_u; lia).
  change (wrap_u 64 (0 - 1)) with (2 ^ 64 - 1). change (wrap_u 64 (wrap_s 32 0)) with 0.
  destruct (Z.gtb_spec start (2 ^ 64 - 1)); [lia|].
  assert (Hw : wrap_u 64 (0 - start) = 2 ^ 64 - start) by (unfold wrap_u; div_lia).
  rewrite Hw, Z.min_id. destruct (Z.leb_spec (start + (2 ^ 64 - start)) (Z.of_nat 0)); [lia|done].
Qed.

(** A size below the start is taken for a large one: the read goes on to the end. *)
Lemma short_size_reads_on d start z :
  Z.of_nat (length d) < 2 ^ 31 → 0 ≤ z < start → start < Z.of_nat (length d) →
  read_allocation (Allocation (Z.of_nat (length d)) d) (Some start) (Some z) = Ok (drop (Z.to_nat start) d).
Proof.
  intros Hd Hz Hstart. unfold read_allocation, read_bytes. cbn [size_ data default from_option id].
  rewrite (wrap_u_id 64 start), (wrap_u_id 64 z), (wrap_u_id 64 (_ - 1)) by (unfold in_u; lia).
  destruct (Z.gtb_spec start (Z.of_nat (length d) - 1)); [lia|].
  rewrite (wrap_u_id 64 (Z.of_nat (length d) - start)) by (unfold in_u; lia).
  assert (Hw : wrap_u 64 (z - start) = 2 ^ 64 + z - start) by (unfold wrap_u; div_lia).
  rewrite Hw, Z.min_l by lia.
  destruct (Z.leb_spec (start + (Z.of_nat (length d) - start)) (Z.of_nat (length d))); [|lia].
  f_equal. apply take_ge. rewrite length_drop. lia.
Qed.

(** The interface does not know whether an allocation that exists was found. *)
Lemma apex_found_unset bo h name size s a g o :
  deref h s = (Ok a, s) → segments (sys s) !! seg a = Some g → objects g !! name = Some o →
  (apex_find_or_construct bo h name size s).1 = Undefined "constructed was not set".
Proof.
  intros Hd Hg Ho. unfold apex_find_or_construct, construct, get_segment.
  rewrite (bind_ok _ _ a s s Hd). unfold mbind, M_bind, get_st. rewrite Hg. simpl. by rewrite Ho.
Qed.

Module Demo.

Definition demo : boost := {|
  creatable size := 1024 <=? size;
  fits g size := size <=? segment_size g;
  garbage n := replicate (Z.to_nat n) 255
|}.

Lemma demo_garbage n : 0 ≤ n → Z.of_nat (length (garbage demo n)) = n.
Proof. intros Hn. simpl. rewrite length_replicate. lia. Qed.

Definition hello : list Z := [104; 101; 108; 108; 111].

Lemma shmem_read_within_witness :
  safe (λ bytes, ∃ i n, (i + n ≤ 5)%nat ∧ bytes = take n (drop i hello))
    (read_allocation (Allocation 5 hello) (Some (-1)) (Some 3)).
Proof. apply (shmem_read_within (Allocation 5 hello)); [reflexivity | split; reflexivity]. Defined.

Lemma stored_value_shared_witness :
  ∃ s2, shmem_read "arena" "greeting" (Some 1) (Some 3)
          (view (steps demo (update (steps demo empty_world [(1, ShmemArena "arena" 65536 None)]) 1
             (shmem_find_or_construct_by_value demo "arena" "greeting" hello
                (view (steps demo empty_world [(1, ShmemArena "arena" 65536 None)]) 1)).2)
             [(2, ShmemFindOrConstruct "arena" "other" 16); (3, ShmemDestroy "arena" "other")]) 4) =
        (Ok (slice hello 1 (Some 3)), s2).
Proof.
  apply (stored_value_shared demo [(1, ShmemArena "arena" 65536 None)]
    [(2, ShmemFindOrConstruct "arena" "other" 16); (3, ShmemDestroy "arena" "other")] 1 4
    "arena" "greeting" hello 5 _ 1 (Some 3) demo_garbage);
    [by repeat constructor | by repeat constructor | vm_compute; reflexivity | reflexivity
    | split; [discriminate | reflexivity] | split; [discriminate | reflexivity]].
Defined.

Lemma empty_allocation_overrun_witness :
  read_allocation (Allocation 0 []) (Some 1) None = Undefined "read outside of the allocation".
Proof. apply empty_allocation_overrun; split; reflexivity. Defined.

(** Arenas are transient unless told otherwise: when one backend exits, the name of
    an arena that others still use goes with it, and the next backend gets
    another arena of that name; each of the two sees its own allocations. *)
Theorem transient_arena_split :
  let w := steps demo empty_world
    [(1, ShmemArena "arena" 65536 None); (2, ShmemArena "arena" 65536 None);
     (2, ShmemFindOrConstructByValue "arena" "greeting" hello); (1, BackendExit);
     (3, ShmemArena "arena" 65536 None)] in
  (shmem_read "arena" "greeting" None None (view w 2)).1 = Ok hello ∧
  (shmem_read "arena" "greeting" None None (view w 3)).1 = raise "allocation not found".
Proof. split; vm_compute; reflexivity. Qed.

(** A handle that is released takes the arena from the other handles to it. *)
Lemma released_handle_dangles :
  (h1 ← open_or_create demo "arena" 65536 false; h2 ← open "arena" false; _ ← release h1; deref h2)
    (view empty_world 1) =
  (Undefined "the arena was erased", St (System {["arena"%string := 1]} {[1 := Segment 65536 ∅]}) (Backend ∅ 1)).
Proof. vm_compute. reflexivity. Qed.

End Demo.

End Arenas.
