(* ===== verification/Worker.v ===== *)
(** * The worker pool: [omni_worker]

    omni_worker/omni_worker.cpp and handlers.cpp on deps/oink.hpp: backends put
    messages into an arena of shared memory and their offsets into a queue;
    background workers take them from there.  A message lives in an envelope
    with a counter of those who hold it.  The handlers are those for SQL
    statements and for timers.

    The steps of all backends and workers interleave.  Whether a statement
    succeeds, who is a member of which role and which handlers a library has
    is a parameter. *)

From Stdlib Require Import ZArith Lia.
From stdpp Require Import base tactics list gmap strings numbers.
From S2P Require Import Prelude.

Local Open Scope Z_scope.

Module Worker.

(** [reload], [sql_message] and the variants of [timer_message] *)
Inductive msg :=
  | Reload
  | SqlMessage (stmt : string) (role rc : Z)
  | After (milliseconds function_oid role id : Z)
  | Execute (id function_oid role : Z)
  | Cancel (id requester : Z) (cancelled : bool).

(** What [message_tag] hashes *)
Definition tag (m : msg) : string :=
  match m with
  | Reload => "omni_worker:reload"
  | SqlMessage _ _ _ => "sql_message"
  | After _ _ _ _ | Execute _ _ _ | Cancel _ _ _ => "timer_message"
  end.

(** [message_envelope]; [ready] is the semaphore of the message. *)
Record envelope := Envelope { message : msg; counter : Z; ready : Z }.

(** A background worker: its handlers by tag with library and name, the map of its
    timers with their owners, the timers that run, those that have run off and
    whose handler has not been called yet, and what was posted to the main
    thread. *)
Record worker := MkWorker {
  handlers : gmap string (string * string);
  timers : gmap Z Z;
  armed : list (Z * Z * Z);
  expired : list (Z * Z * Z);
  tasks : list Z
}.

(** Everything: the arena, the queue, the counter of timers, the workers, the
    table [omni_worker.handlers] and the receipts that backends hold.  The rest
    is what happened: statements sent and run, functions called, and messages
    that a handler has taken. *)
Record world := World {
  envelopes : gmap Z envelope;
  queue : list (string * Z);
  timer_id : Z;
  workers : list worker;
  table : list (string * string);
  receipts : list Z;
  sent : list (string * Z);
  ran : list (string * Z * bool);
  called : list (Z * Z * Z);
  taken : list Z
}.

Definition set_envelopes (f : gmap Z envelope → gmap Z envelope) (x : world) : world :=
  World (f (envelopes x)) (queue x) (timer_id x) (workers x) (table x) (receipts x) (sent x) (ran x)
    (called x) (taken x).
Definition set_queue (q : list (string * Z)) (x : world) : world :=
  World (envelopes x) q (timer_id x) (workers x) (table x) (receipts x) (sent x) (ran x) (called x) (taken x).
Definition set_timer_id (n : Z) (x : world) : world :=
  World (envelopes x) (queue x) n (workers x) (table x) (receipts x) (sent x) (ran x) (called x) (taken x).
Definition set_worker (i : nat) (w : worker) (x : world) : world :=
  World (envelopes x) (queue x) (timer_id x) (<[i := w]> (workers x)) (table x) (receipts x) (sent x) (ran x)
    (called x) (taken x).
Definition set_receipts (l : list Z) (x : world) : world :=
  World (envelopes x) (queue x) (timer_id x) (workers x) (table x) l (sent x) (ran x) (called x) (taken x).
Definition log_sent (e : string * Z) (x : world) : world :=
  World (envelopes x) (queue x) (timer_id x) (workers x) (table x) (receipts x) (sent x ++ [e]) (ran x)
    (called x) (taken x).
Definition log_ran (e : string * Z * bool) (x : world) : world :=
  World (envelopes x) (queue x) (timer_id x) (workers x) (table x) (receipts x) (sent x) (ran x ++ [e])
    (called x) (taken x).
Definition log_called (e : Z * Z * Z) (x : world) : world :=
  World (envelopes x) (queue x) (timer_id x) (workers x) (table x) (receipts x) (sent x) (ran x)
    (called x ++ [e]) (taken x).
Definition log_taken (off : Z) (x : world) : world :=
  World (envelopes x) (queue x) (timer_id x) (workers x) (table x) (receipts x) (sent x) (ran x) (called x)
    (off :: taken x).

Definition set_handlers (h : gmap string (string * string)) (w : worker) : worker :=
  MkWorker h (timers w) (armed w) (expired w) (tasks w).
Definition set_timers (t : gmap Z Z) (l : list (Z * Z * Z)) (w : worker) : worker :=
  MkWorker (handlers w) t l (expired w) (tasks w).
Definition set_expired (l l' : list (Z * Z * Z)) (w : worker) : worker :=
  MkWorker (handlers w) (timers w) l l' (tasks w).
Definition set_tasks (l : list Z) (w : worker) : worker :=
  MkWorker (handlers w) (timers w) (armed w) (expired w) l.

(** What the model takes from outside *)
Record env := Env {
  exec_ok : string → Z → bool;                          (* statement, role *)
  is_member : Z → Z → bool;
  omni_worker_handler : string → string → option string (* library, name *)
}.

Section operations.
Context (e : env).

(** ** Messages: oink *)

(** [construct_at] in the arena, a receipt for the sender and one for the
    receiver, and the offset into the queue. *)
Definition send (m : msg) : M world Z :=
  x ← get_st;
  let off := 1 + set_fold Z.max 0 (dom (envelopes x)) in
  _ ← modify_st (set_envelopes <[off := Envelope m 2 0]>);
  _ ← modify_st (λ x, set_queue (queue x ++ [(tag m, off)]) x);
  mret off.

Definition read_envelope (off : Z) : M world envelope :=
  x ← get_st;
  match envelopes x !! off with
  | Some v => mret v
  | None => undefined "envelope was freed"
  end.

Definition write_envelope (off : Z) (v : envelope) : M world unit := modify_st (set_envelopes <[off := v]>).

(** [~message_envelope_receipt] *)
Definition drop_receipt (off : Z) : M world unit :=
  v ← read_envelope off;
  let c := counter v - 1 in
  if c =? 0 then modify_st (set_envelopes (delete off))
  else write_envelope off (Envelope (message v) c (ready v)).

(** Sent, and the receipt not kept. *)
Definition send_and_forget (m : msg) : M world unit := off ← send m; drop_receipt off.

(** Sent, and the receipt kept by the backend. *)
Definition send_and_hold (m : msg) : M world Z :=
  off ← send m; _ ← modify_st (λ x, set_receipts (off :: receipts x) x); mret off.

(** ** What backends call *)

(** [sql_impl] up to the wait; the role it runs as must be one the caller is a
    member of. *)
Definition sql_impl (caller : Z) (stmt : string) (run_as : option Z) : M world Z :=
  let role := default caller run_as in
  if negb (is_member e caller role) then ereport "Role is not a member" else
  _ ← modify_st (log_sent (stmt, role));
  send_and_hold (SqlMessage stmt role 0).

(** The end of the wait: the result, or nothing when the semaphore was not posted
    in time. *)
Definition sql_wait (off : Z) : M world (option bool) :=
  v ← read_envelope off;
  if 0 <? ready v then
    _ ← write_envelope off (Envelope (message v) (counter v) (ready v - 1));
    match message v with
    | SqlMessage _ _ rc => mret (Some (rc =? 0))
    | _ => undefined "not a statement"
    end
  else mret None.

(** The handler of SIGINT during the wait. *)
Definition interrupt (off : Z) : M world unit :=
  v ← read_envelope off; write_envelope off (Envelope (message v) (counter v) (ready v + 1)).

Definition timer_after_impl (caller milliseconds function_oid : Z) (run_as : option Z) : M world Z :=
  let role := default caller run_as in
  if negb (is_member e caller role) then ereport "Role is not a member" else
  send_and_hold (After milliseconds function_oid role 0).

Definition timer_cancel_impl (caller id : Z) : M world Z := send_and_hold (Cancel id caller false).

(** The transaction callback after a change of the table of handlers *)
Definition reload_upon_commit (rows : list (string * string)) : M world unit :=
  _ ← modify_st (λ x, World (envelopes x) (queue x) (timer_id x) (workers x) rows (receipts x) (sent x)
                        (ran x) (called x) (taken x));
  send_and_forget Reload.

(** The backend is done with a message. *)
Definition drop_held (off : Z) : M world unit :=
  x ← get_st;
  if bool_decide (off ∈ receipts x) then
    _ ← modify_st (λ x, set_receipts (filter (λ o, o ≠ off) (receipts x)) x); drop_receipt off
  else mret ().

(** ** What workers do *)

Definition get_worker (i : nat) : M world worker :=
  x ← get_st;
  match workers x !! i with Some w => mret w | None => undefined "no such worker" end.

(** [do_reload]: the handlers of the table, the first of those with one tag. *)
Fixpoint load_handlers (rows : list (string * string)) (h : gmap string (string * string)) :
  M world (gmap string (string * string)) :=
  match rows with
  | [] => mret h
  | (library, name) :: rows' =>
      match omni_worker_handler e library name with
      | None => undefined "hash was not set"
      | Some t => load_handlers rows' (match h !! t with Some _ => h | None => <[t := (library, name)]> h end)
      end
  end.

Definition do_reload (i : nat) : M world unit :=
  x ← get_st;
  h ← load_handlers (table x) ∅;
  w ← get_worker i;
  modify_st (set_worker i (set_handlers h w)).

(** [sql_handler]: the statement in a transaction of its own, rolled back if it
    fails; the semaphore is posted after the commit. *)
Definition sql_handler (off : Z) (stmt : string) (role rc : Z) (v : envelope) : M world bool :=
  let ok := exec_ok e stmt role in
  _ ← modify_st (log_ran (stmt, role, ok));
  _ ← write_envelope off (Envelope (SqlMessage stmt role (if ok then rc else -1)) (counter v) (ready v + 1));
  mret true.

(** [timer_service] for [after], on the thread of the timers. *)
Definition timer_after (i : nat) (off milliseconds function_oid role : Z) (v : envelope) : M world bool :=
  x ← get_st;
  w ← get_worker i;
  let id := wrap_s 64 (timer_id x) in
  _ ← modify_st (set_timer_id (wrap_u 64 (timer_id x + 1)));
  _ ← write_envelope off (Envelope (After milliseconds function_oid role id) (counter v) (ready v + 1));
  _ ← modify_st (set_worker i (set_timers (<[id := role]> (timers w)) ((id, function_oid, role) :: armed w) w));
  mret true.

(** For [execute]: the rest is posted to the main thread, with a reference to the
    message. *)
Definition timer_execute (i : nat) (off : Z) : M world bool :=
  w ← get_worker i;
  _ ← modify_st (set_worker i (set_tasks (tasks w ++ [off]) w));
  mret true.

(** [cancel_timer] *)
Definition cancel_timer (id requester : Z) (w : worker) : option worker :=
  match timers w !! id with
  | None => None
  | Some owner =>
      if owner =? requester then
        Some (set_timers (delete id (timers w)) (filter (λ t : Z * Z * Z, t.1.1 ≠ id) (armed w)) w)
      else None
  end.

Definition timer_cancel (i : nat) (off id requester : Z) (v : envelope) : M world bool :=
  w ← get_worker i;
  match cancel_timer id requester w with
  | Some w' =>
      _ ← modify_st (set_worker i w');
      _ ← write_envelope off (Envelope (Cancel id requester true) (counter v) (ready v + 1));
      mret true
  | None => mret false
  end.

(** The handler of a message *)
Definition handle (i : nat) (off : Z) : M world bool :=
  v ← read_envelope off;
  match message v with
  | SqlMessage stmt role rc => sql_handler off stmt role rc v
  | After ms f role _ => timer_after i off ms f role v
  | Execute _ _ _ => timer_execute i off
  | Cancel id requester _ => timer_cancel i off id requester v
  | Reload => undefined "not a message of a handler"
  end.

(** One turn of the receiver.  A reload is received through a receipt, which is
    dropped; other messages go to their handler, if there is one, and back into
    the queue if it does not accept them. *)
Definition receive (i : nat) : M world unit :=
  x ← get_st;
  match queue x with
  | [] => mret ()
  | (h, off) :: q =>
      _ ← modify_st (set_queue q);
      if bool_decide (h = tag Reload) then _ ← do_reload i; drop_receipt off else
      w ← get_worker i;
      match handlers w !! h with
      | None => modify_st (log_taken off)
      | Some _ =>
          accepted ← handle i off;
          if (accepted : bool) then modify_st (log_taken off)
          else modify_st (λ x, set_queue (queue x ++ [(h, off)]) x)
      end
  end.

(** A timer runs off; its handler is then called, which sends the message to
    execute the function. *)
Definition expire (i : nat) (id : Z) : M world unit :=
  w ← get_worker i;
  modify_st (set_worker i (set_expired (filter (λ t : Z * Z * Z, t.1.1 ≠ id) (armed w))
    (expired w ++ filter (λ t : Z * Z * Z, t.1.1 = id) (armed w)) w)).

Definition fire (i : nat) : M world unit :=
  w ← get_worker i;
  match expired w with
  | [] => mret ()
  | (id, f, role) :: rest =>
      _ ← modify_st (set_worker i (set_expired (armed w) rest w));
      send_and_forget (Execute id f role)
  end.

(** The main thread: the timer is cancelled in whichever worker has it, and the
    function called. *)
Definition run_task (i : nat) : M world unit :=
  w ← get_worker i;
  match tasks w with
  | [] => mret ()
  | off :: rest =>
      _ ← modify_st (set_worker i (set_tasks rest w));
      v ← read_envelope off;
      match message v with
      | Execute id f role =>
          _ ← send_and_forget (Cancel id role false);
          modify_st (log_called (id, f, role))
      | _ => undefined "not a timer"
      end
  end.

(** ** Steps *)

Inductive event :=
  | SqlCall (caller : Z) (stmt : string) (run_as : option Z)
  | SqlWait (off : Z)
  | Interrupt (off : Z)
  | TimerAfterCall (caller milliseconds function_oid : Z) (run_as : option Z)
  | TimerCancelCall (caller id : Z)
  | Commit (rows : list (string * string))
  | Drop (off : Z)
  | Receive (i : nat)
  | Expire (i : nat) (id : Z)
  | Fire (i : nat)
  | RunTask (i : nat).

Definition perform (ev : event) : M world unit :=
  match ev with
  | SqlCall c s r => _ ← sql_impl c s r; mret ()
  | SqlWait off => _ ← sql_wait off; mret ()
  | Interrupt off => interrupt off
  | TimerAfterCall c ms f r => _ ← timer_after_impl c ms f r; mret ()
  | TimerCancelCall c id => _ ← timer_cancel_impl c id; mret ()
  | Commit rows => reload_upon_commit rows
  | Drop off => drop_held off
  | Receive i => receive i
  | Expire i id => expire i id
  | Fire i => fire i
  | RunTask i => run_task i
  end.

End operations.

(** ** Which messages are alive *)

(** The receiver's share of a message: it is in the queue, or was taken by a
    handler, which does not give it back. *)
Definition shared (x : world) : list Z := (queue x).*2 ++ taken x.

Definition all_tasks (x : world) : list Z := concat (tasks <$> workers x).

Record inv (x : world) : Prop := {
  inv_counter off v : envelopes x !! off = Some v →
    counter v = Z.b2z (bool_decide (off ∈ receipts x)) + Z.b2z (bool_decide (off ∈ shared x));
  inv_live off : off ∈ receipts x ∨ off ∈ shared x → is_Some (envelopes x !! off);
  inv_receipts : NoDup (receipts x);
  inv_shared : NoDup (shared x);
  inv_tag h off v : (h, off) ∈ queue x → envelopes x !! off = Some v → tag (message v) = h;
  inv_tasks off : off ∈ all_tasks x →
    off ∈ taken x ∧ ∃ id f r c n, envelopes x !! off = Some (Envelope (Execute id f r) c n)
}.

Definition fresh_off (x : world) : Z := 1 + set_fold Z.max 0 (dom (envelopes x)).

Lemma fresh_off_None x : envelopes x !! fresh_off x = None.
Proof. apply not_elem_of_dom, fresh_max. Qed.

Lemma inv_fresh x : inv x → fresh_off x ∉ receipts x ∧ fresh_off x ∉ shared x.
Proof.
  intros Hx. split; intros Hin; destruct (inv_live x Hx (fresh_off x)) as [v Hv]; eauto;
    by rewrite fresh_off_None in Hv.
Qed.

(** The world after a message was sent, with the counter [c]. *)
Definition posted (c : Z) (m : msg) (x : world) : world :=
  set_queue (queue x ++ [(tag m, fresh_off x)]) (set_envelopes <[fresh_off x := Envelope m c 0]> x).

Definition hold (off : Z) (x : world) : world := set_receipts (off :: receipts x) x.

Lemma send_and_forget_eq m x : send_and_forget m x = (Ok (), posted 1 m x).
Proof.
  cbv [send_and_forget send drop_receipt read_envelope write_envelope mbind M_bind get_st modify_st mret M_ret
       set_envelopes set_queue envelopes queue]. fold (envelopes x) (queue x). fold (fresh_off x).
  rewrite lookup_insert_eq. simpl. unfold posted, set_envelopes, set_queue. simpl.
  by rewrite insert_insert_eq.
Qed.

Lemma send_and_hold_eq m x : send_and_hold m x = (Ok (fresh_off x), hold (fresh_off x) (posted 2 m x)).
Proof. done. Qed.

(** Worlds that differ in what the invariant does not look at *)
Definition same_messages (x y : world) : Prop :=
  envelopes x = envelopes y ∧ queue x = queue y ∧ receipts x = receipts y ∧ taken x = taken y ∧
  all_tasks x = all_tasks y.

Lemma inv_same x y : same_messages x y → inv x → inv y.
Proof.
  intros (He & Hq & Hr & Ht & Hk) [H1 H2 H3 H4 H5 H6]. unfold shared in *.
  split; unfold shared; rewrite <- ?He, <- ?Hq, <- ?Hr, <- ?Ht, <- ?Hk; done.
Qed.

Lemma shared_posted c m x : shared (posted c m x) ≡ₚ fresh_off x :: shared x.
Proof.
  unfold shared. simpl. rewrite fmap_app. simpl. rewrite <- app_assoc. simpl.
  by rewrite Permutation_middle.
Qed.

Lemma inv_posted m x : inv x → inv (posted 1 m x).
Proof.
  intros Hx. destruct (inv_fresh x Hx) as [Hfr Hfs]. pose proof (shared_posted 1 m x) as Hp.
  split.
  - intros off v. simpl. rewrite lookup_insert. case_decide as Heq.
    + intros [= <-]. subst off. rewrite bool_decide_eq_false_2 by done.
      rewrite bool_decide_eq_true_2; [done|]. rewrite Hp. left.
    + intros Hv. rewrite (inv_counter x Hx off v Hv). do 2 f_equal. apply bool_decide_ext.
      rewrite Hp, elem_of_cons. naive_solver.
  - intros off. simpl. rewrite Hp, elem_of_cons, lookup_insert. case_decide; [by eexists|].
    intros ?. apply (inv_live x Hx). naive_solver.
  - apply Hx.
  - rewrite Hp. apply list.NoDup_cons. split; [done|apply Hx].
  - intros h off v. simpl. rewrite elem_of_app, list_elem_of_singleton, lookup_insert.
    case_decide as Heq; [|intros [?|?]; [by apply (inv_tag x Hx)|congruence]].
    intros [Hin|[= -> ->]]; [|by intros [= <-]]. destruct Hfs. subst off. unfold shared.
    apply elem_of_app. left. apply list_elem_of_fmap. by exists (h, fresh_off x).
  - intros off Hin. destruct (inv_tasks x Hx off Hin) as (Ht & id & f & r & c & n & Hv).
    split; [done|]. exists id, f, r, c, n. simpl. rewrite lookup_insert_ne; [done|].
    intros <-. by rewrite fresh_off_None in Hv.
Qed.

Lemma inv_posted_held m x : inv x → inv (hold (fresh_off x) (posted 2 m x)).
Proof.
  intros Hx. destruct (inv_fresh x Hx) as [Hfr Hfs]. pose proof (inv_posted m x Hx) as [H1 H2 H3 H4 H5 H6].
  split; try done.
  - intros off v. simpl. rewrite lookup_insert. case_decide as Heq.
    + intros [= <-]. subst off. rewrite !bool_decide_eq_true_2; [done| |left].
      change (fresh_off x ∈ shared (posted 2 m x)). rewrite shared_posted. left.
    + intros Hv. rewrite (H1 off v) by (simpl; by rewrite lookup_insert_ne). f_equal. f_equal.
      apply bool_decide_ext. simpl. rewrite elem_of_cons. naive_solver.
  - intros off. simpl. rewrite elem_of_cons, lookup_insert. case_decide; [by eexists|].
    intros Ho. specialize (H2 off). simpl in H2. rewrite lookup_insert_ne in H2 by done. apply H2.
    unfold shared in *. simpl in *. naive_solver.
  - simpl. apply list.NoDup_cons. done.
  - intros h off v Hin. simpl. specialize (H5 h off). simpl in H5. rewrite lookup_insert in *.
    case_decide; [|by apply H5]. intros [= <-]. by apply (H5 (Envelope m 1 0)).
  - intros off Hin. destruct (H6 off Hin) as (Ht & id & f & r & c & n & Hv). split; [done|].
    simpl in *. rewrite lookup_insert in *. case_decide; [|eauto 10]. simplify_eq. eauto 10.
Qed.

(** An envelope is written to: its counter stays, and its message is of the same
    kind and, if a function to execute, the same. *)
Definition similar (m m' : msg) : Prop :=
  tag m = tag m' ∧ match m with Execute _ _ _ => m' = m | _ => True end.

Lemma inv_write off v m' n x :
  inv x → envelopes x !! off = Some v → similar (message v) m' →
  inv (set_envelopes <[off := Envelope m' (counter v) n]> x).
Proof.
  intros Hx Hv [Htag Hex]. split; try apply Hx.
  - intros o v'. simpl. rewrite lookup_insert. case_decide; [|by apply Hx]. intros [= <-]. subst o.
    exact (inv_counter x Hx off v Hv).
  - intros o Ho. simpl. rewrite lookup_insert. case_decide; [by eexists|]. by apply (inv_live x Hx).
  - intros h o v' Hin. simpl. rewrite lookup_insert. case_decide; [|by apply Hx]. intros [= <-]. subst o.
    simpl. rewrite <- Htag. by eapply (inv_tag x Hx).
  - intros o Hin. destruct (inv_tasks x Hx o Hin) as (Ht & id & f & r & c & k & Hv'). split; [done|].
    simpl. rewrite lookup_insert. case_decide; [|eauto 10]. subst o. rewrite Hv in Hv'. simplify_eq.
    simpl in *. subst m'. eauto 10.
Qed.

(** A holder of a message lets it go: [held] is taken away from the receipts or from
    the shares of receivers. *)
Definition released (off : Z) (v : envelope) (x : world) : world :=
  set_envelopes (if counter v - 1 =? 0 then delete off
                 else <[off := Envelope (message v) (counter v - 1) (ready v)]>) x.

Lemma drop_receipt_eq off v x :
  envelopes x !! off = Some v → drop_receipt off x = (Ok (), released off v x).
Proof.
  intros Hv. unfold drop_receipt, read_envelope, released. cbv [mbind M_bind get_st]. rewrite Hv. simpl.
  by destruct (_ =? 0).
Qed.

(** The counter after a release, from the two kinds of holders. *)
Lemma inv_released x y off v :
  inv x → envelopes x !! off = Some v → envelopes y = envelopes x → all_tasks y = all_tasks x →
  (∀ o, o ≠ off → (o ∈ receipts y ↔ o ∈ receipts x) ∧ (o ∈ shared y ↔ o ∈ shared x)) →
  Z.b2z (bool_decide (off ∈ receipts y)) + Z.b2z (bool_decide (off ∈ shared y)) = counter v - 1 →
  NoDup (receipts y) → NoDup (shared y) → (∀ h o, (h, o) ∈ queue y → (h, o) ∈ queue x) → taken y = taken x →
  inv (released off v y).
Proof.
  intros Hx Hv He Hk Hsame Hc Hr Hs Hq Ht. unfold released.
  assert (Hgone : counter v - 1 = 0 → off ∉ receipts y ∧ off ∉ shared y).
  { intros H0. rewrite H0 in Hc. case_bool_decide; case_bool_decide; simpl in Hc; lia || done. }
  assert (Hlk : ∀ o, o ≠ off → (if counter v - 1 =? 0 then delete off
      else <[off := Envelope (message v) (counter v - 1) (ready v)]>) (envelopes y) !! o = envelopes x !! o).
  { intros o Ho. rewrite He. destruct (_ =? 0); [by rewrite lookup_delete_ne|by rewrite lookup_insert_ne]. }
  assert (Hoff : (if counter v - 1 =? 0 then delete off
      else <[off := Envelope (message v) (counter v - 1) (ready v)]>) (envelopes y) !! off =
      if counter v - 1 =? 0 then None else Some (Envelope (message v) (counter v - 1) (ready v))).
  { destruct (_ =? 0); [apply lookup_delete_eq|apply lookup_insert_eq]. }
  split; simpl; try done.
  - intros o v'. destruct (decide (o = off)) as [->|Ho].
    + rewrite Hoff. destruct (_ =? 0); [done|]. intros [= <-]. simpl. symmetry. exact Hc.
    + rewrite Hlk by done. intros Hv'. rewrite (inv_counter x Hx o v' Hv').
      destruct (Hsame o Ho) as [H1 H2]. f_equal; f_equal; apply bool_decide_ext; symmetry; assumption.
  - intros o Ho. destruct (decide (o = off)) as [->|Hne].
    + rewrite Hoff. destruct (Z.eqb_spec (counter v - 1) 0) as [H0|]; [|by eexists].
      destruct (Hgone H0). unfold shared in Ho. simpl in Ho. naive_solver.
    + rewrite Hlk by done. apply (inv_live x Hx). destruct (Hsame o Hne) as [<- <-]. exact Ho.
  - intros h o v' Hin. destruct (decide (o = off)) as [->|Hne].
    + rewrite Hoff. destruct (_ =? 0); [done|]. intros [= <-]. simpl. eapply (inv_tag x Hx); [by apply Hq|done].
    + rewrite Hlk by done. by apply (inv_tag x Hx), Hq.
  - intros o Hin. change (o ∈ all_tasks y) in Hin. rewrite Hk in Hin.
    destruct (inv_tasks x Hx o Hin) as (Hto & id & f & r & c & k & Hv'). rewrite Ht. split; [done|].
    destruct (decide (o = off)) as [->|Hne]; [|rewrite Hlk by done; eauto 10].
    rewrite Hoff. destruct (Z.eqb_spec (counter v - 1) 0) as [H0|].
    + destruct (Hgone H0) as [_ []]. unfold shared. rewrite elem_of_app, Ht. by right.
    + rewrite Hv in Hv'. simplify_eq. simpl. eauto 10.
Qed.

Lemma inv_drop_held off v x :
  inv x → off ∈ receipts x → envelopes x !! off = Some v →
  inv (released off v (set_receipts (filter (λ o, o ≠ off) (receipts x)) x)).
Proof.
  intros Hx Hin Hv. eapply inv_released; try done; simpl.
  - intros o Ho. rewrite list_elem_of_filter. naive_solver.
  - rewrite (inv_counter x Hx off v Hv), (bool_decide_eq_true_2 (off ∈ receipts x)) by done.
    rewrite bool_decide_eq_false_2 by (rewrite list_elem_of_filter; naive_solver).
    unfold shared. simpl. lia.
  - apply list.NoDup_filter, Hx.
  - apply Hx.
Qed.

Lemma inv_reload_received h off v q x :
  inv x → queue x = (h, off) :: q → envelopes x !! off = Some v → inv (released off v (set_queue q x)).
Proof.
  intros Hx Hq Hv. pose proof (inv_shared x Hx) as Hnd. unfold shared in Hnd. rewrite Hq in Hnd. simpl in Hnd.
  apply list.NoDup_cons in Hnd as [Hno Hnd].
  eapply inv_released; try done; simpl.
  - intros o Ho. split; [done|]. unfold shared. simpl. rewrite Hq. simpl. rewrite elem_of_cons. naive_solver.
  - rewrite (inv_counter x Hx off v Hv). rewrite (bool_decide_eq_false_2 (off ∈ shared _)) by done.
    rewrite (bool_decide_eq_true_2 (off ∈ shared x)); [simpl; lia|].
    unfold shared. rewrite Hq. left.
  - apply Hx.
  - intros h' o Ho. rewrite Hq. by right.
Qed.

Lemma elem_of_concat_fmap {A B} (f : A → list B) (l : list A) b :
  b ∈ concat (f <$> l) ↔ ∃ i a, l !! i = Some a ∧ b ∈ f a.
Proof.
  rewrite list_elem_of_In, in_concat. split.
  - intros (k & Hk & Hb). apply list_elem_of_In in Hk, Hb. apply list_elem_of_fmap in Hk as (a & -> & Ha).
    apply list_elem_of_lookup in Ha as [i Hi]. eauto.
  - intros (i & a & Hi & Hb). exists (f a). split; apply list_elem_of_In; [|done].
    apply list_elem_of_fmap. eauto using list_elem_of_lookup_2.
Qed.

(** A worker changes; what it has to do further is what it had to do, or a message
    it has taken. *)
Lemma inv_set_worker i w w' x :
  inv x → workers x !! i = Some w →
  (∀ off, off ∈ tasks w' → off ∈ tasks w ∨
     off ∈ taken x ∧ ∃ id f r c n, envelopes x !! off = Some (Envelope (Execute id f r) c n)) →
  inv (set_worker i w' x).
Proof.
  intros Hx Hi Hw. split; try apply Hx. intros off. simpl.
  unfold all_tasks. simpl. rewrite elem_of_concat_fmap. intros (j & w0 & Hj & Hoff).
  assert (Hold : ∀ j w, workers x !! j = Some w → off ∈ tasks w → off ∈ all_tasks x).
  { intros ? ? ? ?. apply elem_of_concat_fmap. eauto. }
  apply list_lookup_insert_Some in Hj as [(<- & <- & _)|[_ Hj]]; [|by eapply (inv_tasks x Hx), Hold].
  destruct (Hw off Hoff) as [?|?]; [by eapply (inv_tasks x Hx), Hold|done].
Qed.

Lemma inv_queue q t x :
  inv x → (q.*2 ++ t) ≡ₚ shared x → (∀ e, e ∈ q → e ∈ queue x) → (∀ off, off ∈ taken x → off ∈ t) →
  inv (World (envelopes x) q (timer_id x) (workers x) (table x) (receipts x) (sent x) (ran x) (called x) t).
Proof.
  intros Hx Hp Hq Ht. split; simpl; try apply Hx; unfold shared; simpl.
  - intros off v Hv. rewrite (inv_counter x Hx off v Hv). do 2 f_equal. apply bool_decide_ext. by rewrite Hp.
  - intros off. rewrite Hp. apply (inv_live x Hx).
  - rewrite Hp. apply Hx.
  - intros h off v Hin. by apply (inv_tag x Hx), Hq.
  - intros off Hin. destruct (inv_tasks x Hx off Hin) as [? ?]. auto.
Qed.

(** The first message is taken, or put back at the end. *)
Lemma inv_log_taken h off q x :
  inv x → queue x = (h, off) :: q → inv (log_taken off (set_queue q x)).
Proof.
  intros Hx Hq. apply (inv_queue q (off :: taken x) x Hx).
  - unfold shared. rewrite Hq. simpl. by rewrite Permutation_middle.
  - intros e He. rewrite Hq. by right.
  - intros o Ho. by right.
Qed.

Lemma inv_requeued h off q x :
  inv x → queue x = (h, off) :: q → inv (set_queue (q ++ [(h, off)]) x).
Proof.
  intros Hx Hq. apply (inv_queue (q ++ [(h, off)]) (taken x) x Hx).
  - unfold shared. rewrite Hq, fmap_app. simpl. rewrite <- app_assoc. simpl. by rewrite Permutation_middle.
  - intros e. rewrite Hq, elem_of_app, !elem_of_cons, elem_of_nil. naive_solver.
  - done.
Qed.

(** ** The turns of a worker, case by case *)

Section turns.
Context (e : env) (needed : list string).

(** The rows of the table name handlers that exist, and among them are those for the
    tags [needed]. *)
Definition known_rows (rows : list (string * string)) : Prop :=
  Forall (λ r, is_Some (omni_worker_handler e r.1 r.2)) rows ∧
  Forall (λ t, ∃ r, r ∈ rows ∧ omni_worker_handler e r.1 r.2 = Some t) needed.

(** The handlers of a table *)
Definition loaded (rows : list (string * string)) (h : gmap string (string * string)) :
  gmap string (string * string) :=
  foldl (λ h r, match omni_worker_handler e r.1 r.2 with
                | Some t => match h !! t with Some _ => h | None => <[t := r]> h end
                | None => h
                end) h rows.

Lemma load_handlers_eq rows h x : known_rows rows → load_handlers e rows h x = (Ok (loaded rows h), x).
Proof.
  intros [Hr _]. revert h. induction Hr as [|[l n] rows [t Ht] _ IH]; intros h; [done|].
  cbn [load_handlers loaded foldl fst snd] in *. rewrite Ht. apply IH.
Qed.

Lemma loaded_mono rows h t : is_Some (h !! t) → is_Some (loaded rows h !! t).
Proof.
  revert h. induction rows as [|r rows IH]; intros h Ht; [done|]. apply IH. simpl.
  repeat case_match; try done. rewrite lookup_insert. case_decide; [by eexists|done].
Qed.

Lemma loaded_row rows h r t :
  r ∈ rows → omni_worker_handler e r.1 r.2 = Some t → is_Some (loaded rows h !! t).
Proof.
  intros Hin Hr. revert h. induction Hin as [r rows|r r' rows _ IH]; intros h; simpl; [|by apply IH].
  apply loaded_mono. rewrite Hr. destruct (h !! t) as [b|] eqn:Hb; [by exists b|].
  rewrite lookup_insert_eq. by eexists.
Qed.

Lemma loaded_needed rows t : known_rows rows → t ∈ needed → is_Some (loaded rows ∅ !! t).
Proof.
  intros [_ Hn] Ht. rewrite list.Forall_forall in Hn. destruct (Hn t Ht) as (r & Hr & He). by eapply loaded_row.
Qed.

Inductive received (i : nat) (w : worker) (x : world) : world → Prop :=
  | received_nothing : queue x = [] → received i w x x
  | received_reload off v q :
      queue x = (tag Reload, off) :: q → envelopes x !! off = Some v →
      received i w x (released off v (set_queue q (set_worker i (set_handlers (loaded (table x) ∅) w) x)))
  | received_dropped h off q :
      queue x = (h, off) :: q → h ≠ tag Reload → handlers w !! h = None →
      received i w x (log_taken off (set_queue q x))
  | received_sql off q stmt role rc c n (ok := exec_ok e stmt role) :
      queue x = ("sql_message"%string, off) :: q → is_Some (handlers w !! "sql_message"%string) →
      envelopes x !! off = Some (Envelope (SqlMessage stmt role rc) c n) →
      received i w x (log_taken off (set_queue q (log_ran (stmt, role, ok)
        (set_envelopes <[off := Envelope (SqlMessage stmt role (if ok then rc else -1)) c (n + 1)]> x))))
  | received_after off q ms f role id0 c n (id := wrap_s 64 (timer_id x)) :
      queue x = ("timer_message"%string, off) :: q → is_Some (handlers w !! "timer_message"%string) →
      envelopes x !! off = Some (Envelope (After ms f role id0) c n) →
      received i w x (log_taken off (set_queue q (set_timer_id (wrap_u 64 (timer_id x + 1))
        (set_worker i (set_timers (<[id := role]> (timers w)) ((id, f, role) :: armed w) w)
          (set_envelopes <[off := Envelope (After ms f role id) c (n + 1)]> x)))))
  | received_execute off q id f role c n :
      queue x = ("timer_message"%string, off) :: q → is_Some (handlers w !! "timer_message"%string) →
      envelopes x !! off = Some (Envelope (Execute id f role) c n) →
      received i w x (log_taken off (set_queue q (set_worker i (set_tasks (tasks w ++ [off]) w) x)))
  | received_cancel off q id requester b c n w' :
      queue x = ("timer_message"%string, off) :: q → is_Some (handlers w !! "timer_message"%string) →
      envelopes x !! off = Some (Envelope (Cancel id requester b) c n) →
      cancel_timer id requester w = Some w' →
      received i w x (log_taken off (set_queue q (set_worker i w'
        (set_envelopes <[off := Envelope (Cancel id requester true) c (n + 1)]> x))))
  | received_not_mine off q id requester b c n :
      queue x = ("timer_message"%string, off) :: q → is_Some (handlers w !! "timer_message"%string) →
      envelopes x !! off = Some (Envelope (Cancel id requester b) c n) →
      cancel_timer id requester w = None →
      received i w x (set_queue (q ++ [("timer_message"%string, off)]) x).

Lemma get_worker_eq i w (x : world) : workers x !! i = Some w → get_worker i x = (Ok w, x).
Proof. intros Hi. unfold get_worker. rewrite get_bind. by rewrite Hi. Qed.

Lemma read_envelope_eq off v (x : world) : envelopes x !! off = Some v → read_envelope off x = (Ok v, x).
Proof. intros Hv. unfold read_envelope. rewrite get_bind. by rewrite Hv. Qed.

Lemma handle_received i w x h off q :
  inv x → workers x !! i = Some w → queue x = (h, off) :: q → h ≠ tag Reload → is_Some (handlers w !! h) →
  ∃ b y, handle e i off (set_queue q x) = (Ok b, y) ∧
    received i w x (if b then log_taken off y else set_queue (queue y ++ [(h, off)]) y).
Proof.
  intros Hx Hi Hq Hh Hw. destruct (inv_live x Hx off) as [v Hv].
  { right. unfold shared. rewrite Hq. left. }
  assert (tag (message v) = h) as <- by (eapply (inv_tag x Hx); [rewrite Hq; left|done]).
  unfold handle. rewrite (bind_ok _ _ v _ _ (read_envelope_eq off v (set_queue q x) Hv)).
  assert (Hgw : get_worker i (set_queue q x) = (Ok w, set_queue q x)) by (by apply get_worker_eq).
  destruct v as [m c n]. simpl in *.
  destruct m as [|stmt role rc|ms f role id0|id f role|id requester b]; simpl in *; [done| | | |].
  - exists true. eexists. split; [reflexivity|]. exact (received_sql i w x off q stmt role rc c n Hq Hw Hv).
  - exists true. unfold timer_after. rewrite get_bind. rewrite (bind_ok _ _ _ _ _ Hgw).
    eexists. split; [reflexivity|]. exact (received_after i w x off q ms f role id0 c n Hq Hw Hv).
  - exists true. unfold timer_execute. rewrite (bind_ok _ _ _ _ _ Hgw).
    eexists. split; [reflexivity|]. exact (received_execute i w x off q id f role c n Hq Hw Hv).
  - unfold timer_cancel. rewrite (bind_ok _ _ _ _ _ Hgw).
    destruct (cancel_timer id requester w) as [w'|] eqn:Hc.
    + exists true. eexists. split; [reflexivity|]. exact (received_cancel i w x off q id requester b c n w' Hq Hw Hv Hc).
    + exists false. eexists. split; [reflexivity|]. exact (received_not_mine i w x off q id requester b c n Hq Hw Hv Hc).
Qed.

Lemma receive_received i w x :
  inv x → known_rows (table x) → workers x !! i = Some w →
  ∃ y, receive e i x = (Ok (), y) ∧ received i w x y.
Proof.
  intros Hx Hr Hi. unfold receive. rewrite get_bind.
  destruct (queue x) as [|[h off] q] eqn:Hq; [by exists x; split; [|apply received_nothing]|].
  rewrite modify_bind. case_bool_decide as Hh.
  - subst h. destruct (inv_live x Hx off) as [v Hv]; [right; unfold shared; rewrite Hq; left|].
    unfold do_reload. rewrite (bind_ok _ _ () _ (set_worker i (set_handlers (loaded (table x) ∅) w) (set_queue q x))).
    + eexists. split; [by apply drop_receipt_eq|]. exact (received_reload i w x off v q Hq Hv).
    + rewrite get_bind. rewrite (bind_ok _ _ _ _ _ (load_handlers_eq (table x) ∅ (set_queue q x) Hr)).
      by rewrite (bind_ok _ _ w _ (set_queue q x)) by (by apply get_worker_eq).
  - rewrite (bind_ok _ _ w _ (set_queue q x)) by (by apply get_worker_eq).
    destruct (handlers w !! h) as [hd|] eqn:Hw.
    + destruct (handle_received i w x h off q) as (b & y & Hy & Hrec); [done..|by eexists|].
      rewrite (bind_ok _ _ _ _ _ Hy). destruct b; eexists; (split; [reflexivity|done]).
    + eexists. split; [reflexivity|]. exact (received_dropped i w x h off q Hq Hh Hw).
Qed.

Lemma inv_received i w x y : inv x → workers x !! i = Some w → received i w x y → inv y.
Proof.
  intros Hx Hi Hr.
  destruct Hr as [|off v q Hq Hv|h off q Hq|off q stmt role rc c n ok Hq _ Hv|off q ms f role id0 c n id Hq _ Hv
    |off q id f role c n Hq _ Hv|off q id r b c n w' Hq _ Hv Hc|off q id r b c n Hq _ Hv Hc]; [done| | | | | | |].
  - apply (inv_reload_received (tag Reload) off v q (set_worker i (set_handlers (loaded (table x) ∅) w) x));
      [|done|done]. apply (inv_set_worker i w); [done|done|by left].
  - by eapply inv_log_taken.
  - pose proof (inv_write off _ (SqlMessage stmt role (if ok then rc else -1)) (n + 1) x Hx Hv (conj eq_refl I))
      as Hx1.
    eapply (inv_log_taken _ off q (log_ran (stmt, role, ok) (set_envelopes _ x))); [|done].
    eapply inv_same; [|exact Hx1]. done.
  - pose proof (inv_write off _ (After ms f role id) (n + 1) x Hx Hv (conj eq_refl I)) as Hx1.
    set (w' := set_timers (<[id := role]> (timers w)) ((id, f, role) :: armed w) w).
    pose proof (inv_set_worker i w w' _ Hx1 Hi (λ o Ho, or_introl Ho)) as Hx2.
    eapply inv_same; [|exact (inv_log_taken _ off q _ Hx2 Hq)]. done.
  - apply (inv_set_worker i w _ _ (inv_log_taken _ off q x Hx Hq) Hi).
    intros o [Ho|Ho]%elem_of_app; [by left|]. apply list_elem_of_singleton in Ho as ->. right.
    split; [left|]. eauto 10.
  - pose proof (inv_write off _ (Cancel id r true) (n + 1) x Hx Hv (conj eq_refl I)) as Hx1.
    assert (Hx2 : inv (set_worker i w' (set_envelopes <[off := Envelope (Cancel id r true) c (n + 1)]> x))).
    { apply (inv_set_worker i w _ _ Hx1 Hi). intros o Ho. left. unfold cancel_timer in Hc.
      repeat case_match; by simplify_eq. }
    exact (inv_log_taken _ off q _ Hx2 Hq).
  - by eapply inv_requeued.
Qed.

(** ** Reachable worlds *)

(** Backends use messages they hold, workers exist, and the rows of the table name
    handlers that exist. *)
Definition valid (ev : event) (x : world) : Prop :=
  match ev with
  | SqlWait off =>
      off ∈ receipts x ∧ ∃ s r rc c n, envelopes x !! off = Some (Envelope (SqlMessage s r rc) c n)
  | Interrupt off => off ∈ receipts x
  | Commit rows => known_rows rows
  | Receive i => (i < length (workers x))%nat ∧ timer_id x < 2 ^ 63 - 1
  | Expire i _ | Fire i | RunTask i => (i < length (workers x))%nat
  | _ => True
  end.

Definition start (n : nat) (rows : list (string * string)) : world :=
  World ∅ [] 0 (replicate n (MkWorker (loaded rows ∅) ∅ [] [] [])) rows [] [] [] [] [].

Inductive reachable (n : nat) (rows : list (string * string)) : world → Prop :=
  | reachable_start : known_rows rows → reachable n rows (start n rows)
  | reachable_step x ev r y :
      reachable n rows x → valid ev x → perform e ev x = (r, y) → reachable n rows y.

Lemma concat_fmap_replicate_nil {A B} (f : A → list B) n a : f a = [] → concat (f <$> replicate n a) = [].
Proof. intros Ha. induction n as [|n IH]; [done|]. simpl. rewrite Ha. exact IH. Qed.

Lemma inv_start n rows : inv (start n rows).
Proof.
  split; cbn [envelopes receipts queue taken start shared app fmap list_fmap].
  - intros off v. by rewrite lookup_empty.
  - intros off [H|H]; by apply elem_of_nil in H.
  - apply base.NoDup_nil_2.
  - apply base.NoDup_nil_2.
  - intros h off v H. by apply elem_of_nil in H.
  - intros off. unfold all_tasks. cbn [workers start]. rewrite concat_fmap_replicate_nil by done.
    intros H. by apply elem_of_nil in H.
Qed.

Lemma inv_read x off : inv x → off ∈ receipts x → ∃ v, envelopes x !! off = Some v.
Proof. intros Hx Ho. destruct (inv_live x Hx off) as [v Hv]; [by left|by exists v]. Qed.

Lemma worker_exists (x : world) i : (i < length (workers x))%nat → ∃ w, workers x !! i = Some w.
Proof. intros Hi. by destruct (lookup_lt_is_Some_2 _ _ Hi) as [w Hw]; exists w. Qed.

Definition set_table (rows : list (string * string)) (x : world) : world :=
  World (envelopes x) (queue x) (timer_id x) (workers x) rows (receipts x) (sent x) (ran x) (called x) (taken x).

(** What an event does, case by case *)
Inductive stepped (x : world) : world → Prop :=
  | stepped_same : stepped x x
  | stepped_sql stmt role :
      stepped x (hold (fresh_off x) (posted 2 (SqlMessage stmt role 0) (log_sent (stmt, role) x)))
  | stepped_after ms f role : stepped x (hold (fresh_off x) (posted 2 (After ms f role 0) x))
  | stepped_cancel id r : stepped x (hold (fresh_off x) (posted 2 (Cancel id r false) x))
  | stepped_write off v n :
      envelopes x !! off = Some v →
      stepped x (set_envelopes <[off := Envelope (message v) (counter v) n]> x)
  | stepped_commit rows : known_rows rows → stepped x (posted 1 Reload (set_table rows x))
  | stepped_drop off v :
      off ∈ receipts x → envelopes x !! off = Some v →
      stepped x (released off v (set_receipts (filter (λ o, o ≠ off) (receipts x)) x))
  | stepped_receive i w y :
      workers x !! i = Some w → timer_id x < 2 ^ 63 - 1 → received i w x y → stepped x y
  | stepped_expire i w id :
      workers x !! i = Some w →
      stepped x (set_worker i (set_expired (filter (λ t : Z * Z * Z, t.1.1 ≠ id) (armed w))
        (expired w ++ filter (λ t : Z * Z * Z, t.1.1 = id) (armed w)) w) x)
  | stepped_fire i w id f role rest :
      workers x !! i = Some w → expired w = (id, f, role) :: rest →
      stepped x (posted 1 (Execute id f role) (set_worker i (set_expired (armed w) rest w) x))
  | stepped_task i w off rest id f role c n :
      workers x !! i = Some w → tasks w = off :: rest →
      envelopes x !! off = Some (Envelope (Execute id f role) c n) →
      stepped x (log_called (id, f, role) (posted 1 (Cancel id role false) (set_worker i (set_tasks rest w) x))).

Lemma sql_wait_stepped x off s r rc c n :
  envelopes x !! off = Some (Envelope (SqlMessage s r rc) c n) →
  ∃ o y, sql_wait off x = (Ok o, y) ∧ stepped x y.
Proof.
  intros Hv. unfold sql_wait. rewrite (bind_ok _ _ _ _ _ (read_envelope_eq off _ x Hv)). simpl.
  destruct (0 <? n).
  - do 2 eexists. split; [reflexivity|]. exact (stepped_write x off _ (n - 1) Hv).
  - do 2 eexists. split; [reflexivity|]. apply stepped_same.
Qed.

(** The events of a world in order never touch memory that was freed. *)
Lemma perform_stepped ev x :
  inv x → known_rows (table x) → valid ev x →
  ∃ r y, perform e ev x = (r, y) ∧ stepped x y ∧ ∀ why, r ≠ Undefined why.
Proof.
  intros Hx Hr Hv. destruct ev as [c s ra|off|off|c ms f ra|c id|rows|off|i|i id|i|i]; simpl in Hv.
  - cbn [perform]. unfold sql_impl. destruct (is_member e c _); cbn [negb].
    + do 2 eexists. split; [reflexivity|]. split; [exact (stepped_sql x s (default c ra))|done].
    + do 2 eexists. split; [reflexivity|]. split; [apply stepped_same|done].
  - destruct Hv as (_ & s & r & rc & c & n & Hv). destruct (sql_wait_stepped x off s r rc c n Hv) as (o & y & Hy & Hs).
    exists (Ok ()), y. cbn [perform]. rewrite (bind_ok _ _ _ _ _ Hy). by repeat split.
  - destruct (inv_read x off Hx Hv) as [v He]. cbn [perform]. unfold interrupt.
    rewrite (bind_ok _ _ _ _ _ (read_envelope_eq off v x He)). do 2 eexists. split; [reflexivity|].
    split; [exact (stepped_write x off v (ready v + 1) He)|done].
  - cbn [perform]. unfold timer_after_impl. destruct (is_member e c _); cbn [negb].
    + do 2 eexists. split; [reflexivity|]. split; [exact (stepped_after x ms f (default c ra))|done].
    + do 2 eexists. split; [reflexivity|]. split; [apply stepped_same|done].
  - do 2 eexists. split; [reflexivity|]. split; [exact (stepped_cancel x id c)|done].
  - cbn [perform]. unfold reload_upon_commit. rewrite modify_bind, send_and_forget_eq.
    do 2 eexists. split; [reflexivity|]. split; [by apply (stepped_commit x rows)|done].
  - cbn [perform]. unfold drop_held. rewrite get_bind. case_bool_decide as Hin.
    + destruct (inv_read x off Hx Hin) as [v He]. rewrite modify_bind, (drop_receipt_eq off v) by done.
      do 2 eexists. split; [reflexivity|]. split; [by apply stepped_drop|done].
    + do 2 eexists. split; [reflexivity|]. split; [apply stepped_same|done].
  - destruct Hv as [Hi Ht]. destruct (worker_exists x i Hi) as [w Hw].
    destruct (receive_received i w x Hx Hr Hw) as (y & Hy & Hrec).
    exists (Ok ()), y. split; [done|]. split; [by eapply stepped_receive|done].
  - destruct (worker_exists x i Hv) as [w Hw]. cbn [perform]. unfold expire.
    rewrite (bind_ok _ _ _ _ _ (get_worker_eq i w x Hw)). do 2 eexists. split; [reflexivity|].
    split; [by apply stepped_expire|done].
  - destruct (worker_exists x i Hv) as [w Hw]. cbn [perform]. unfold fire.
    rewrite (bind_ok _ _ _ _ _ (get_worker_eq i w x Hw)). destruct (expired w) as [|[[id f] role] rest] eqn:He.
    + do 2 eexists. split; [reflexivity|]. split; [apply stepped_same|done].
    + rewrite modify_bind, send_and_forget_eq. do 2 eexists. split; [reflexivity|].
      split; [by apply stepped_fire|done].
  - destruct (worker_exists x i Hv) as [w Hw]. cbn [perform]. unfold run_task.
    rewrite (bind_ok _ _ _ _ _ (get_worker_eq i w x Hw)). destruct (tasks w) as [|off rest] eqn:Ht.
    + do 2 eexists. split; [reflexivity|]. split; [apply stepped_same|done].
    + destruct (inv_tasks x Hx off) as (_ & id & f & r & c & n & He).
      { apply elem_of_concat_fmap. exists i, w. split; [done|]. rewrite Ht. left. }
      rewrite modify_bind, (bind_ok _ _ _ _ _ (read_envelope_eq off _ (set_worker i (set_tasks rest w) x) He)).
      simpl. rewrite (bind_ok _ _ _ _ _ (send_and_forget_eq _ _)).
      do 2 eexists. split; [reflexivity|]. split; [exact (stepped_task x i w off rest id f r c n Hw Ht He)|done].
Qed.

Lemma inv_stepped x y : inv x → stepped x y → inv y.
Proof.
  intros Hx Hs. destruct Hs as [|stmt role|ms f role|id r|off v n Hv|rows _|off v Hin Hv|i w y Hi _ Hr|i w id Hi
    |i w id f role rest Hi He|i w off rest id f role c n Hi Ht Hv]; [done| | | | | | | | | |].
  - apply (inv_posted_held _ (log_sent (stmt, role) x)). by apply (inv_same x).
  - by apply inv_posted_held.
  - by apply inv_posted_held.
  - apply inv_write; [done|done|]. split; [done|]. by destruct (message v).
  - apply (inv_posted _ (set_table rows x)). by apply (inv_same x).
  - by apply inv_drop_held.
  - by eapply inv_received.
  - eapply inv_set_worker; [done|done|by left].
  - apply inv_posted. eapply inv_set_worker; [done|done|by left].
  - eapply (inv_same (posted 1 (Cancel id role false) (set_worker i (set_tasks rest w) x))); [done|].
    apply inv_posted. eapply inv_set_worker; [done|done|]. intros o Ho. left. rewrite Ht. by right.
Qed.

(** The table keeps naming handlers that exist. *)
Lemma received_table i w x y : received i w x y → table y = table x.
Proof. by destruct 1. Qed.

Lemma known_stepped x y : known_rows (table x) → stepped x y → known_rows (table y).
Proof. intros Hx Hs. destruct Hs; try done. by erewrite received_table. Qed.

Lemma reachable_world_inv n rows x : reachable n rows x → inv x ∧ known_rows (table x).
Proof.
  induction 1 as [Hr|x ev r y _ [Hx Hk] Hv Hp]; [split; [apply inv_start|done]|].
  destruct (perform_stepped ev x Hx Hk Hv) as (r' & y' & Hp' & Hs & _).
  rewrite Hp in Hp'. simplify_eq. eauto using inv_stepped, known_stepped.
Qed.

(** A property that every step keeps holds of every reachable world. *)
Lemma reachable_preserved (P : world → Prop) n rows x :
  (known_rows rows → P (start n rows)) →
  (∀ x y, inv x → known_rows (table x) → P x → stepped x y → P y) → reachable n rows x → P x.
Proof.
  intros H0 Hstep. induction 1 as [Hr|x ev r y Hx IH Hv Hp]; [by apply H0|].
  destruct (reachable_world_inv n rows x Hx) as [Hi Hk].
  destruct (perform_stepped ev x Hi Hk Hv) as (r' & y' & Hp' & Hs & _).
  rewrite Hp in Hp'. simplify_eq. eauto.
Qed.

(** C7. Whatever the interleaving, no backend and no worker uses a message that was
    freed, and the counter of every message is the number of those who hold
    it. *)
Theorem messages_alive n rows x ev :
  reachable n rows x → valid ev x →
  (∀ why, (perform e ev x).1 ≠ Undefined why) ∧
  ∀ off v, envelopes x !! off = Some v →
    counter v = Z.b2z (bool_decide (off ∈ receipts x)) + Z.b2z (bool_decide (off ∈ shared x)).
Proof.
  intros Hr Hv. destruct (reachable_world_inv n rows x Hr) as [Hx Hk].
  destruct (perform_stepped ev x Hx Hk Hv) as (r & y & -> & _ & Hu). split; [done|apply Hx].
Qed.

(** The share of the receiver is never given back: every message that a handler
    took is in the arena for good. *)
Theorem taken_messages_leak n rows x :
  reachable n rows x →
  (∀ off, off ∈ taken x → is_Some (envelopes x !! off)) ∧ (length (taken x) ≤ size (envelopes x))%nat.
Proof.
  intros Hr. destruct (reachable_world_inv n rows x Hr) as [Hx _].
  assert (Hlive : ∀ off, off ∈ taken x → is_Some (envelopes x !! off)).
  { intros off Hoff. apply (inv_live x Hx). right. apply elem_of_app. by right. }
  split; [done|]. pose proof (inv_shared x Hx) as Hnd. apply list.NoDup_app in Hnd as (_ & _ & Hnd).
  rewrite <- size_dom, <- (size_list_to_set (C := gset Z) (taken x) Hnd). apply subseteq_size.
  intros off Hoff. apply elem_of_list_to_set in Hoff. by apply elem_of_dom, Hlive.
Qed.

(** ** The order of statements *)

Definition msg_of (x : world) (off : Z) : option msg := message <$> envelopes x !! off.

Definition sql_of (m : msg) : option (string * Z) :=
  match m with SqlMessage stmt role _ => Some (stmt, role) | _ => None end.

(** The statements in the queue *)
Definition queued_sql (x : world) : list (string * Z) := omap (λ q, msg_of x q.2 ≫= sql_of) (queue x).

Lemma omap_elem_ext {A B} (f g : A → option B) (l : list A) : (∀ a, a ∈ l → f a = g a) → omap f l = omap g l.
Proof.
  intros Hl. apply list_omap_ext. induction l as [|a l IH]; constructor; [apply Hl; left|].
  apply IH. intros b Hb. apply Hl. by right.
Qed.

Lemma elem_of_queue_shared x h off : (h, off) ∈ queue x → off ∈ shared x.
Proof. intros Hin. apply elem_of_app. left. apply list_elem_of_fmap. by exists (h, off). Qed.

Lemma msg_of_posted c m x off :
  inv x → off ∈ shared x → msg_of (posted c m x) off = msg_of x off.
Proof.
  intros Hx Hin. unfold msg_of. simpl. rewrite lookup_insert_ne; [done|]. intros <-.
  by apply (inv_fresh x Hx).
Qed.

Lemma msg_of_write x off v m n c o :
  envelopes x !! off = Some v → (o = off → m = message v) →
  msg_of (set_envelopes <[off := Envelope m c n]> x) o = msg_of x o.
Proof.
  intros Hv Hm. unfold msg_of. simpl. rewrite lookup_insert. case_decide; [|done]. subst o.
  rewrite Hv. simpl. by rewrite Hm.
Qed.

Lemma msg_of_released off v y o :
  envelopes y !! off = Some v → inv (released off v y) → o ∈ shared y →
  msg_of (released off v y) o = msg_of y o.
Proof.
  intros Hv Hx Ho. destruct (inv_live _ Hx o) as [v' Hv']; [by right|]. unfold msg_of. unfold released in *.
  simpl in *. destruct (_ =? 0).
  - apply lookup_delete_Some in Hv' as [Hne Hv']. by rewrite lookup_delete_ne.
  - rewrite lookup_insert. case_decide; [|done]. subst o. by rewrite Hv.
Qed.

(** Statements are run in the order they were sent in. *)
Definition ordered (x : world) : Prop := sent x = (ran x).*1 ++ queued_sql x.

(** Every worker has the handlers needed. *)
Definition equipped (x : world) : Prop :=
  ∀ i w t, workers x !! i = Some w → t ∈ needed → is_Some (handlers w !! t).

Lemma equipped_set_worker i w x :
  equipped x → (∀ t, t ∈ needed → is_Some (handlers w !! t)) → equipped (set_worker i w x).
Proof.
  intros Hx Hw j w' t Hj Ht. simpl in Hj.
  apply list_lookup_insert_Some in Hj as [(_ & <- & _)|[_ Hj]]; eauto.
Qed.

Lemma cancel_timer_handlers id r w w' : cancel_timer id r w = Some w' → handlers w' = handlers w.
Proof. unfold cancel_timer. intros Hc. repeat case_match; by simplify_eq. Qed.

Lemma equipped_stepped x y : known_rows (table x) → equipped x → stepped x y → equipped y.
Proof.
  intros Hk Hx Hs. assert (Hsame : ∀ i w w', workers x !! i = Some w → handlers w' = handlers w →
    equipped (set_worker i w' x)).
  { intros i w w' Hi Hh. apply equipped_set_worker; [done|]. intros t Ht. rewrite Hh. eauto. }
  destruct Hs as [| | | | | | |i w y Hi _ Hr| | |]; try done; try (by eapply Hsame).
  destruct Hr; try done; try (by eapply Hsame).
  - apply (equipped_set_worker i _ x); [done|]. intros t Ht. simpl. by apply loaded_needed.
  - eapply Hsame; [done|]. by eapply cancel_timer_handlers.
Qed.

(** The statements in the queue, after a step that leaves messages as they are. *)
Lemma queued_sql_ext x y :
  queue y = queue x → (∀ off, off ∈ (queue x).*2 → msg_of y off ≫= sql_of = msg_of x off ≫= sql_of) →
  queued_sql y = queued_sql x.
Proof.
  intros Hq Hm. unfold queued_sql. rewrite Hq. apply omap_elem_ext. intros [h off] Hin. apply Hm.
  apply list_elem_of_fmap. by exists (h, off).
Qed.

Lemma queued_sql_posted c m x :
  inv x → queued_sql (posted c m x) = queued_sql x ++ option_list (sql_of m).
Proof.
  intros Hx. unfold queued_sql. cbn [queue posted set_queue set_envelopes]. rewrite omap_app. f_equal.
  - apply omap_elem_ext. intros [h off] Hin. simpl. rewrite msg_of_posted; eauto using elem_of_queue_shared.
  - cbn [omap list_omap]. unfold msg_of at 1. simpl. rewrite lookup_insert_eq. simpl. by destruct (sql_of m).
Qed.

(** No other message in the queue is the first one. *)
Lemma queue_head_once h off q x : inv x → queue x = (h, off) :: q → off ∉ q.*2.
Proof.
  intros Hx Hq. pose proof (inv_shared x Hx) as Hnd. unfold shared in Hnd. rewrite Hq in Hnd. simpl in Hnd.
  apply list.NoDup_cons in Hnd as [Hno _]. intros Hin. apply Hno. apply elem_of_app. by left.
Qed.

Lemma queued_sql_pop h off q x y :
  inv x → queue x = (h, off) :: q → queue y = q → (∀ o, o ≠ off → msg_of y o = msg_of x o) →
  queued_sql x = option_list (msg_of x off ≫= sql_of) ++ queued_sql y.
Proof.
  intros Hx Hq Hy Hm. unfold queued_sql at 1. rewrite Hq. cbn [omap list_omap].
  assert (Hrest : omap (λ p : string * Z, msg_of x p.2 ≫= sql_of) q = queued_sql y).
  { unfold queued_sql. rewrite Hy. apply omap_elem_ext. intros [h' o] Hin. simpl. rewrite Hm; [done|].
    intros ->. apply (queue_head_once h off q x Hx Hq). apply list_elem_of_fmap. by exists (h', off). }
  rewrite Hrest. simpl. by destruct (msg_of x off ≫= sql_of).
Qed.

Lemma msg_of_ne x off v o : o ≠ off → msg_of (set_envelopes <[off := v]> x) o = msg_of x o.
Proof. intros Ho. unfold msg_of. simpl. by rewrite lookup_insert_ne. Qed.

(** The head of the queue is of the kind its tag says. *)
Lemma head_msg h off q x :
  inv x → queue x = (h, off) :: q → ∃ v, envelopes x !! off = Some v ∧ tag (message v) = h.
Proof.
  intros Hx Hq. destruct (inv_live x Hx off) as [v Hv]; [right; unfold shared; rewrite Hq; left|].
  exists v. split; [done|]. eapply (inv_tag x Hx); [rewrite Hq; left|done].
Qed.

(** The first message of the queue of [x] is not in that of the world after. *)
Local Ltac pop :=
  match goal with
  | Hx : inv ?x, Hq : queue ?x = (_, ?off) :: ?q, Ho : sent ?x = _, Hv : envelopes ?x !! ?off = Some _
    |- sent ?y = _ =>
      rewrite (queued_sql_pop _ off q x y Hx Hq) in Ho;
      [ unfold msg_of in Ho at 1; rewrite Hv in Ho
      | done
      | intros o Hne; done || exact (msg_of_ne x off _ o Hne) ]
  end.

Lemma ordered_received i w x y :
  "sql_message"%string ∈ needed → inv x → equipped x → workers x !! i = Some w →
  ordered x → received i w x y → ordered y.
Proof.
  intros Hn Hx Hw Hi Ho Hr. unfold ordered in *.
  destruct Hr as [|off v q Hq Hv|h off q Hq Hh Hhw|off q stmt role rc c n ok Hq _ Hv|off q ms f role id0 c n id Hq _ Hv
    |off q id f role c n Hq _ Hv|off q id r b c n w' Hq _ Hv Hc|off q id r b c n Hq _ Hv Hc]; [done|..].
  - rewrite (queued_sql_pop _ off q x (released off v (set_queue q (set_worker i (set_handlers (loaded (table x) ∅) w) x))) Hx Hq) in Ho; [|done|].
    + destruct (head_msg _ off q x Hx Hq) as (v' & Hv' & Ht). unfold msg_of in Ho at 1. rewrite Hv' in Ho.
      destruct v' as [m' c' n']. simpl in Ht. destruct m'; try discriminate Ht. exact Ho.
    + intros o Hne. unfold msg_of, released. simpl. destruct (_ =? 0);
        [by rewrite lookup_delete_ne|by rewrite lookup_insert_ne].
  - rewrite (queued_sql_pop h off q x (log_taken off (set_queue q x)) Hx Hq) in Ho by done.
    destruct (head_msg h off q x Hx Hq) as (v' & Hv' & Ht). unfold msg_of in Ho at 1. rewrite Hv' in Ho.
    destruct v' as [m' c' n']. destruct m'; try exact Ho. simpl in Ht. subst h.
    destruct (Hw i w _ Hi Hn) as [? ?]. congruence.
  - pop. simpl in *. rewrite Ho, fmap_app, <- app_assoc. done.
  - pop. exact Ho.
  - pop. exact Ho.
  - pop. exact Ho.
  - rewrite (queued_sql_pop _ off q x (set_queue q x) Hx Hq) in Ho by done.
    unfold msg_of in Ho at 1. rewrite Hv in Ho.
    assert (Hlast : omap (λ p : string * Z, msg_of x p.2 ≫= sql_of) [("timer_message"%string, off)] = []).
    { simpl. unfold msg_of. by rewrite Hv. }
    change (sent x = (ran x).*1 ++ omap (λ p : string * Z, msg_of x p.2 ≫= sql_of) (q ++ [("timer_message"%string, off)])).
    rewrite omap_app, Hlast, app_nil_r. exact Ho.
Qed.

Lemma ordered_stepped x y :
  "sql_message"%string ∈ needed → inv x → equipped x → ordered x → stepped x y → ordered y.
Proof.
  intros Hn Hx Hw Ho Hs. pose proof (inv_stepped x y Hx Hs) as Hy.
  destruct Hs as [|stmt role|ms f role|id r|off v n Hv|rows _|off v Hin Hv|i w y Hi _ Hr|i w id Hi
    |i w id f role rest Hi He|i w off rest id f role c n Hi Ht Hv]; unfold ordered in *; try done.
  - change (sent x ++ [(stmt, role)] =
      (ran x).*1 ++ queued_sql (posted 2 (SqlMessage stmt role 0) (log_sent (stmt, role) x))).
    rewrite queued_sql_posted by (by apply (inv_same x)). simpl. rewrite app_assoc. f_equal. exact Ho.
  - change (sent x = (ran x).*1 ++ queued_sql (posted 2 (After ms f role 0) x)).
    rewrite queued_sql_posted by done. simpl. by rewrite app_nil_r.
  - change (sent x = (ran x).*1 ++ queued_sql (posted 2 (Cancel id r false) x)).
    rewrite queued_sql_posted by done. simpl. by rewrite app_nil_r.
  - rewrite (queued_sql_ext x); [done|done|]. intros o _. by rewrite (msg_of_write x off v).
  - rewrite queued_sql_posted by (by apply (inv_same x)). simpl. by rewrite app_nil_r.
  - rewrite (queued_sql_ext x); [done|done|]. intros o Hino.
    rewrite msg_of_released; [done|done|done|]. apply elem_of_app. by left.
  - by eapply (ordered_received i w x).
  - rewrite queued_sql_posted; [simpl; by rewrite app_nil_r|]. eapply inv_set_worker; [done|done|by left].
  - change (sent x = (ran x).*1 ++ queued_sql (posted 1 (Cancel id role false) (set_worker i (set_tasks rest w) x))).
    rewrite queued_sql_posted; [simpl; by rewrite app_nil_r|].
    eapply inv_set_worker; [done|done|]. intros o Hro. left. rewrite Ht. by right.
Qed.


(** ** Timers run at most once *)

Definition exec_of (m : msg) : option Z := match m with Execute id _ _ => Some id | _ => None end.

Definition execs (x : world) (offs : list Z) : list Z := omap (λ off, msg_of x off ≫= exec_of) offs.

Definition ids (l : list (Z * Z * Z)) : list Z := (λ t, t.1.1) <$> l.

Definition waiting (w : worker) : list Z := ids (armed w) ++ ids (expired w).

(** The timers that wait, are on their way to be executed, or were. *)
Definition pending (x : world) : list Z :=
  concat (waiting <$> workers x) ++ execs x (all_tasks x) ++ execs x (queue x).*2 ++ ids (called x).

Definition once (x : world) : Prop :=
  NoDup (pending x) ∧ 0 ≤ timer_id x < 2 ^ 63 ∧ ∀ id, id ∈ pending x → 0 ≤ id < timer_id x.

Lemma once_submseteq x y :
  once x → pending y ⊆+ pending x → timer_id y = timer_id x → once y.
Proof.
  intros (Hnd & Ht & Hid) Hsub Hti. destruct (submseteq_Permutation _ _ Hsub) as [k Hk].
  split; [|split; [by rewrite Hti|]].
  - rewrite Hk in Hnd. by apply list.NoDup_app in Hnd as (? & _).
  - intros id Hin. rewrite Hti. apply Hid. rewrite Hk, elem_of_app. by left.
Qed.

(** What the workers hold, with that of worker [i] apart. *)
Lemma concat_split {A B} (f : A → list B) (l : list A) i a :
  l !! i = Some a →
  ∃ k, concat (f <$> l) ≡ₚ f a ++ k ∧ ∀ a', concat (f <$> <[i := a']> l) ≡ₚ f a' ++ k.
Proof.
  revert i. induction l as [|b l IH]; intros [|i] Hi; simplify_eq/=.
  - exists (concat (f <$> l)). by split.
  - destruct (IH i Hi) as (k & Hk & Hk'). exists (f b ++ k). split.
    + rewrite Hk. by rewrite Permutation_app_swap_app.
    + intros a'. rewrite Hk'. by rewrite Permutation_app_swap_app.
Qed.

Lemma execs_ext x y offs :
  (∀ o, o ∈ offs → msg_of y o ≫= exec_of = msg_of x o ≫= exec_of) → execs y offs = execs x offs.
Proof. intros Hm. by apply omap_elem_ext. Qed.

#[local] Instance execs_Permutation x : Proper ((≡ₚ) ==> (≡ₚ)) (execs x).
Proof. intros l k Hlk. unfold execs. by rewrite Hlk. Qed.

Lemma execs_app x l k : execs x (l ++ k) = execs x l ++ execs x k.
Proof. apply omap_app. Qed.

Lemma all_tasks_shared x off : inv x → off ∈ all_tasks x → off ∈ shared x.
Proof. intros Hx Hin. destruct (inv_tasks x Hx off Hin) as [Ht _]. apply elem_of_app. by right. Qed.

(** A message is sent: a timer is on its way if it was one to execute. *)
Lemma pending_posted c m x :
  inv x → pending (posted c m x) ≡ₚ option_list (exec_of m) ++ pending x.
Proof.
  intros Hx. unfold pending. change (all_tasks (posted c m x)) with (all_tasks x).
  cbn [queue posted set_queue set_envelopes workers called]. rewrite fmap_app. unfold execs at 2.
  rewrite omap_app. fold (execs (posted c m x) (queue x).*2).
  rewrite (execs_ext x (posted c m x) (all_tasks x)), (execs_ext x (posted c m x) (queue x).*2).
  - cbn [omap list_omap fmap list_fmap snd]. unfold msg_of at 1. cbn [envelopes posted set_queue set_envelopes].
    rewrite lookup_insert_eq. cbn. destruct (exec_of m); simpl; [|by rewrite app_nil_r].
    rewrite <- app_assoc. solve_Permutation.
  - intros o Ho. rewrite msg_of_posted; [done|done|]. apply elem_of_app. by left.
  - intros o Ho. rewrite msg_of_posted; [done|done|]. by apply all_tasks_shared.
Qed.

(** The parts of [pending], when only some of them change *)
Lemma pending_same x y :
  workers y = workers x → (queue y).*2 ⊆+ (queue x).*2 → called y = called x →
  (∀ o, o ∈ shared x → msg_of y o ≫= exec_of = msg_of x o ≫= exec_of) → inv x → pending y ⊆+ pending x.
Proof.
  intros Hw Hq Hc Hm Hx. unfold pending, all_tasks. rewrite Hw, Hc.
  rewrite (execs_ext x y (concat (tasks <$> workers x))) by (intros o Ho; by apply Hm, all_tasks_shared).
  apply submseteq_app; [done|]. apply submseteq_app; [done|]. apply submseteq_app; [|done].
  rewrite (execs_ext x y (queue y).*2).
  - destruct (submseteq_Permutation _ _ Hq) as [k Hk]. rewrite Hk, execs_app. by apply submseteq_inserts_r.
  - intros o Ho. apply Hm, elem_of_app. left. by eapply elem_of_submseteq.
Qed.

(** A worker changes: its timers and tasks are exchanged. *)
Lemma pending_worker i w w' x :
  workers x !! i = Some w →
  ∃ k, pending x ≡ₚ waiting w ++ execs x (tasks w) ++ k ∧
       pending (set_worker i w' x) ≡ₚ waiting w' ++ execs x (tasks w') ++ k.
Proof.
  intros Hi. destruct (concat_split waiting _ i w Hi) as (k1 & Hk1 & Hk1').
  destruct (concat_split tasks _ i w Hi) as (k2 & Hk2 & Hk2').
  exists (k1 ++ execs x k2 ++ execs x (queue x).*2 ++ ids (called x)).
  assert (Hex : ∀ offs, execs (set_worker i w' x) offs = execs x offs) by done.
  unfold pending, all_tasks. rewrite !Hex. cbn [workers set_worker queue called].
  split; [rewrite Hk1, Hk2 | rewrite Hk1', Hk2']; rewrite execs_app; solve_Permutation.
Qed.

Lemma pending_worker_sub i w w' x :
  workers x !! i = Some w → waiting w' ⊆+ waiting w → tasks w' ⊆+ tasks w → pending (set_worker i w' x) ⊆+ pending x.
Proof.
  intros Hi Hw Ht. destruct (pending_worker i w w' x Hi) as (k & -> & ->).
  apply submseteq_app; [done|]. apply submseteq_app; [|done].
  destruct (submseteq_Permutation _ _ Ht) as [j Hj]. rewrite Hj, execs_app. by apply submseteq_inserts_r.
Qed.

Lemma cancel_timer_sub id r w w' : cancel_timer id r w = Some w' → waiting w' ⊆+ waiting w ∧ tasks w' = tasks w.
Proof.
  unfold cancel_timer. intros Hc. repeat case_match; simplify_eq. split; [|done]. unfold waiting. simpl.
  apply submseteq_app; [|done]. apply fmap_submseteq, sublist_submseteq, sublist_filter.
Qed.

(** Writing a message that is none to execute, where there was none *)
Lemma exec_write x off v m c n o :
  envelopes x !! off = Some v → exec_of m = exec_of (message v) →
  msg_of (set_envelopes <[off := Envelope m c n]> x) o ≫= exec_of = msg_of x o ≫= exec_of.
Proof.
  intros Hv Hm. unfold msg_of. simpl. rewrite lookup_insert. case_decide; [|done]. subst o. by rewrite Hv.
Qed.

(** Releasing one *)
Lemma exec_released off v y o :
  envelopes y !! off = Some v → exec_of (message v) = None →
  msg_of (released off v y) o ≫= exec_of = msg_of y o ≫= exec_of.
Proof.
  intros Hv Hm. unfold msg_of, released. simpl. destruct (decide (o = off)) as [->|Hne].
  - rewrite Hv. simpl. rewrite Hm. destruct (_ =? 0);
      [by rewrite lookup_delete_eq | rewrite lookup_insert_eq; simpl; done].
  - destruct (_ =? 0); [by rewrite lookup_delete_ne | by rewrite lookup_insert_ne].
Qed.

(** The first message goes out of the queue. *)
Lemma pending_pop h off q x y :
  inv x → queue x = (h, off) :: q → queue y = q → workers y = workers x → called y = called x →
  (∀ o, msg_of y o ≫= exec_of = msg_of x o ≫= exec_of) →
  pending x ≡ₚ option_list (msg_of x off ≫= exec_of) ++ pending y.
Proof.
  intros Hx Hq Hy Hw Hc Hm. unfold pending, all_tasks. rewrite Hw, Hc, Hy, Hq.
  rewrite !(execs_ext x y) by done. cbn [fmap list_fmap snd]. unfold execs at 2. cbn [omap list_omap].
  fold (execs x q.*2). destruct (msg_of x off ≫= exec_of); simpl; solve_Permutation.
Qed.

Lemma pending_called t x : pending (log_called t x) ≡ₚ t.1.1 :: pending x.
Proof.
  change (concat (waiting <$> workers x) ++ execs x (all_tasks x) ++ execs x (queue x).*2 ++ ids (called x ++ [t])
    ≡ₚ t.1.1 :: pending x).
  unfold ids. rewrite fmap_app. unfold pending. simpl. solve_Permutation.
Qed.

Lemma once_new x y id :
  once x → timer_id x < 2 ^ 63 - 1 → id = timer_id x → timer_id y = timer_id x + 1 →
  pending y ⊆+ id :: pending x → once y.
Proof.
  intros (Hnd & Ht & Hid) Hlt -> Hti Hsub. destruct (submseteq_Permutation _ _ Hsub) as [k Hk].
  assert (Hnd' : NoDup (timer_id x :: pending x)).
  { apply list.NoDup_cons. split; [|done]. intros Hin%Hid. lia. }
  split; [|split; [lia|]].
  - rewrite Hk in Hnd'. by apply list.NoDup_app in Hnd' as (? & _).
  - intros id Hin. assert (Hin' : id ∈ timer_id x :: pending x) by (rewrite Hk, elem_of_app; by left).
    apply elem_of_cons in Hin' as [->|Hin']; [lia|]. apply Hid in Hin'. lia.
Qed.

Lemma once_received i w x y :
  inv x → workers x !! i = Some w → timer_id x < 2 ^ 63 - 1 → once x → received i w x y → once y.
Proof.
  intros Hx Hi Hlt Ho Hr.
  destruct Hr as [|off v q Hq Hv|h off q Hq Hh Hhw|off q stmt role rc c n ok Hq _ Hv|off q ms f role id0 c n id Hq _ Hv
    |off q id f role c n Hq _ Hv|off q id r b c n w' Hq _ Hv Hc|off q id r b c n Hq _ Hv Hc]; [done|..].
  - set (x1 := set_worker i (set_handlers (loaded (table x) ∅) w) x).
    assert (Ho1 : once x1) by (eapply once_submseteq; [done|by apply (pending_worker_sub i w)|done]).
    assert (Hx1 : inv x1) by (apply (inv_set_worker i w); [done|done|by left]).
    eapply (once_submseteq x1); [done| |done].
    destruct (head_msg _ off q x Hx Hq) as (v' & Hv' & Ht). rewrite Hv in Hv'. simplify_eq.
    rewrite (pending_pop _ off q x1 (released off v' (set_queue q x1)) Hx1 Hq); [|done|done|done|].
    2:{ intros o. apply (exec_released off v' (set_queue q x1)); [done|].
        destruct v' as [m' c' n']. simpl in Ht. by destruct m'. }
    by apply submseteq_inserts_l.
  - eapply (once_submseteq x); [done| |done].
    rewrite (pending_pop h off q x (log_taken off (set_queue q x)) Hx Hq) by done. by apply submseteq_inserts_l.
  - eapply (once_submseteq x); [done| |done].
    match goal with |- pending ?y ⊆+ _ => rewrite (pending_pop _ off q x y Hx Hq) end;
      [by apply submseteq_inserts_l|done|done|done|]. intros o. by apply (exec_write x off _ _ _ _ o Hv).
  - set (y0 := log_taken off (set_queue q (set_envelopes <[off := Envelope (After ms f role id) c (n + 1)]> x))).
    assert (Hsub : pending y0 ⊆+ pending x).
    { rewrite (pending_pop _ off q x y0 Hx Hq); [by apply submseteq_inserts_l|done|done|done|].
      intros o. by apply (exec_write x off _ _ _ _ o Hv). }
    destruct Ho as (Hnd & Ht & Hid). eapply (once_new x _ id); [done|done| | |].
    + unfold id. apply wrap_s_id; unfold in_s; simpl; lia.
    + simpl. apply wrap_u_id. unfold in_u. lia.
    + destruct (pending_worker i w (set_timers (<[id := role]> (timers w)) ((id, f, role) :: armed w) w) y0 Hi)
        as (k & Hk & Hk').
      change (pending (set_worker i (set_timers (<[id := role]> (timers w)) ((id, f, role) :: armed w) w) y0)
        ⊆+ id :: pending x).
      rewrite Hk'. unfold waiting in *. simpl. apply submseteq_skip. by rewrite <- Hk.
  - set (y0 := log_taken off (set_queue q x)).
    assert (Hp : pending x ≡ₚ id :: pending y0).
    { rewrite (pending_pop _ off q x y0 Hx Hq) by done. unfold msg_of. by rewrite Hv. }
    destruct (pending_worker i w (set_tasks (tasks w ++ [off]) w) y0 Hi) as (k & Hk & Hk').
    eapply (once_submseteq x); [done| |done].
    change (pending (set_worker i (set_tasks (tasks w ++ [off]) w) y0) ⊆+ pending x).
    rewrite Hk', Hp, Hk. cbn [tasks set_tasks]. rewrite execs_app. unfold execs at 2. cbn [omap list_omap].
    unfold msg_of. change (envelopes y0) with (envelopes x). rewrite Hv. simpl. apply Permutation_submseteq.
    unfold waiting. simpl. solve_Permutation.
  - set (y0 := log_taken off (set_queue q (set_envelopes <[off := Envelope (Cancel id r true) c (n + 1)]> x))).
    destruct (cancel_timer_sub _ _ _ _ Hc) as [Hw Ht].
    eapply (once_submseteq x); [done| |done].
    transitivity (pending y0).
    + apply (pending_worker_sub i w w' y0 Hi Hw). by rewrite Ht.
    + rewrite (pending_pop _ off q x y0 Hx Hq); [by apply submseteq_inserts_l|done|done|done|].
      intros o. by apply (exec_write x off _ _ _ _ o Hv).
  - eapply (once_submseteq x); [done| |done]. apply pending_same; try done. simpl. rewrite Hq, fmap_app. simpl.
    apply Permutation_submseteq. by rewrite Permutation_app_comm.
Qed.

Lemma once_stepped x y : inv x → once x → stepped x y → once y.
Proof.
  intros Hx Ho Hs. pose proof (inv_stepped x y Hx Hs) as Hy.
  assert (Hpost : ∀ c m x1, inv x1 → exec_of m = None → pending x1 ⊆+ pending x → pending (posted c m x1) ⊆+ pending x).
  { intros c m x1 Hx1 Hm Hp. rewrite pending_posted by done. by rewrite Hm. }
  destruct Hs as [|stmt role|ms f role|id r|off v n Hv|rows _|off v Hin Hv|i w y Hi Hlt Hr|i w id Hi
    |i w id f role rest Hi He|i w off rest id f role c n Hi Ht Hv]; [done|..].
  - eapply (once_submseteq x); [done| |done].
    apply (Hpost 2 _ (log_sent (stmt, role) x)); [by apply (inv_same x)|done|done].
  - eapply (once_submseteq x); [done|by apply (Hpost 2)|done].
  - eapply (once_submseteq x); [done|by apply (Hpost 2)|done].
  - eapply (once_submseteq x); [done| |done]. apply pending_same; try done.
    intros o _. by apply (exec_write x off v).
  - eapply (once_submseteq x); [done| |done].
    apply (Hpost 1 _ (set_table rows x)); [by apply (inv_same x)|done|done].
  - eapply (once_submseteq x); [done| |done]. apply pending_same; try done.
    intros o Hos. by rewrite msg_of_released.
  - by apply (once_received i w x y).
  - eapply (once_submseteq x); [done| |done]. apply (pending_worker_sub i w); [done| |done].
    apply Permutation_submseteq. unfold waiting, ids. simpl. rewrite fmap_app.
    rewrite <- (filter_app_complement (λ t : Z * Z * Z, t.1.1 = id) (armed w)) at 3.
    rewrite fmap_app. solve_Permutation.
  - eapply (once_submseteq x); [done| |done].
    rewrite pending_posted by (eapply inv_set_worker; [done|done|by left]). simpl.
    destruct (pending_worker i w (set_expired (armed w) rest w) x Hi) as (k & -> & ->).
    unfold waiting. rewrite He. simpl. apply Permutation_submseteq. solve_Permutation.
  - set (x1 := set_worker i (set_tasks rest w) x).
    assert (Hx1 : inv x1).
    { eapply inv_set_worker; [done|done|]. intros o Hro. left. rewrite Ht. by right. }
    eapply (once_submseteq x); [done| |done].
    assert (Hp : pending (log_called (id, f, role) (posted 1 (Cancel id role false) x1)) ≡ₚ id :: pending x1).
    { by rewrite pending_called, (pending_posted 1 (Cancel id role false) x1 Hx1). }
    rewrite Hp. unfold x1. destruct (pending_worker i w (set_tasks rest w) x Hi) as (k & -> & ->).
    rewrite Ht. cbn [tasks set_tasks waiting]. unfold execs at 2. cbn [omap list_omap].
    unfold msg_of. rewrite Hv. simpl. apply Permutation_submseteq. solve_Permutation.
Qed.

(** C9. However timers run off, are cancelled and executed by the workers, no timer's
    function is called twice. *)
Theorem timers_run_once n rows x : reachable n rows x → NoDup (ids (called x)).
Proof.
  intros Hr. assert (Ho : once x).
  { apply (reachable_preserved once n rows x); [|..|done].
    - intros _. unfold once, pending, all_tasks. cbn [workers start queue called timer_id].
      rewrite !concat_fmap_replicate_nil by done. split; [apply base.NoDup_nil_2|]. split; [lia|].
      intros id Hid. by apply elem_of_nil in Hid.
    - intros x' y Hx _ Ho Hs. by eapply once_stepped. }
  destruct Ho as [Hnd _]. unfold pending in Hnd.
  apply list.NoDup_app in Hnd as (_ & _ & Hnd). apply list.NoDup_app in Hnd as (_ & _ & Hnd).
  by apply list.NoDup_app in Hnd as (_ & _ & ?).
Qed.

(** A timer leaves the map of its worker only through a message to cancel it from
    its owner. *)
Theorem cancelled_by_owner n rows x ev i w w' id owner :
  reachable n rows x → valid ev x →
  workers x !! i = Some w → timers w !! id = Some owner →
  workers (perform e ev x).2 !! i = Some w' → timers w' !! id = None →
  ∃ off q b c k, queue x = ("timer_message"%string, off) :: q ∧
    envelopes x !! off = Some (Envelope (Cancel id owner b) c k).
Proof.
  intros Hr Hv Hi Hid Hi' Hid'. destruct (reachable_world_inv n rows x Hr) as [Hx Hk].
  destruct (perform_stepped ev x Hx Hk Hv) as (r & y & Hp & Hs & _). rewrite Hp in Hi'. simpl in Hi'. clear Hp.
  assert (Hset : ∀ j u u', workers x !! j = Some u → <[j := u']> (workers x) !! i = Some w' →
    timers u' = timers u → False).
  { intros j u u' Hj Hw Ht. apply list_lookup_insert_Some in Hw as [(-> & <- & _)|[_ Hw]]; congruence. }
  destruct Hs as [| | | | | | |j u y Hj _ Hrec|j u id0 Hj|j u id0 f role rest Hj He|j u off rest id0 f role c k Hj Ht He];
    simpl in Hi'; try congruence; [|destruct (Hset j u _ Hj Hi' eq_refl)..].
  destruct Hrec as [| | | | | |off q id' r' b c k u' Hq _ Hv' Hc|]; simpl in Hi'; try congruence;
    (apply list_lookup_insert_Some in Hi' as [(-> & <- & _)|[_ Hw]]; [|congruence]);
    rewrite Hj in Hi; simplify_eq; simpl in Hid'; try congruence.
  - rewrite lookup_insert in Hid'. case_decide; congruence.
  - unfold cancel_timer in Hc. destruct (timers w !! id') as [o'|] eqn:Ho'; [|done].
    destruct (Z.eqb_spec o' r') as [->|]; simplify_eq. simpl in Hid'.
    apply lookup_delete_None in Hid' as [->|?]; [|congruence]. simplify_eq. eauto 10.
Qed.
End turns.

(** ** What goes wrong *)

(** A cancellation that no worker can carry out, since the timer is gone or another
    role's, is put back into the queue by whoever takes it: any number of turns
    of any workers changes nothing, and its sender waits in vain. *)
Theorem unknown_cancel_circulates e x off id requester b c n (turns : list nat) :
  queue x = [("timer_message"%string, off)] →
  envelopes x !! off = Some (Envelope (Cancel id requester b) c n) →
  (∀ i w, workers x !! i = Some w →
     is_Some (handlers w !! "timer_message"%string) ∧ timers w !! id ≠ Some requester) →
  Forall (λ i, (i < length (workers x))%nat) turns →
  foldl (λ y i, (receive e i y).2) x turns = x.
Proof.
  intros Hq Hv Hw Hturns. induction Hturns as [|i turns Hi _ IH]; simpl; [done|].
  destruct (lookup_lt_is_Some_2 _ _ Hi) as [w Hwi]. destruct (Hw i w Hwi) as [[h Hh] Ht].
  assert (Hc : cancel_timer id requester w = None).
  { unfold cancel_timer. destruct (timers w !! id) as [o|]; [|done]. destruct (Z.eqb_spec o requester); [|done].
    congruence. }
  assert (Hr : (receive e i x).2 = x); [|by rewrite Hr].
  destruct x as [E Q ti ws ta re se ra ca tk]. simpl in *. subst Q. unfold receive. rewrite get_bind. simpl.
  unfold handle, read_envelope, timer_cancel, get_worker. cbv [mbind M_bind get_st modify_st mret M_ret set_queue].
  simpl. rewrite Hwi. simpl. rewrite Hh. simpl. rewrite Hv. simpl. rewrite Hwi. simpl. by rewrite Hc.
Qed.

(** A wait that is interrupted reports that the statement succeeded, before it was
    run. *)
Theorem interrupted_sql_succeeds e caller stmt run_as x :
  is_member e caller (default caller run_as) = true →
  ∃ y, (off ← sql_impl e caller stmt run_as; _ ← interrupt off; sql_wait off) x = (Ok (Some true), y) ∧
       ran y = ran x.
Proof.
  intros Hm. unfold sql_impl. rewrite Hm. cbn [negb].
  set (role := default caller run_as). set (x1 := hold (fresh_off x) (posted 2 (SqlMessage stmt role 0) (log_sent (stmt, role) x))).
  assert (Hv : envelopes x1 !! fresh_off x = Some (Envelope (SqlMessage stmt role 0) 2 0)).
  { simpl. apply lookup_insert_eq. }
  rewrite (bind_ok _ _ (fresh_off x) x x1) by reflexivity.
  unfold interrupt. rewrite (bind_ok _ _ () x1 (set_envelopes <[fresh_off x := Envelope (SqlMessage stmt role 0) 2 1]> x1)).
  - unfold sql_wait. erewrite bind_ok by (apply read_envelope_eq; apply lookup_insert_eq). simpl.
    eexists. split; [reflexivity|]. done.
  - by rewrite (bind_ok _ _ _ _ _ (read_envelope_eq _ _ _ Hv)).
Qed.

(** ** A pool *)

Module Demo.

Definition demo : env := {|
  exec_ok stmt _ := negb (bool_decide (stmt = "select 1/0"%string));
  is_member a b := (a =? b) || (a =? 10);
  omni_worker_handler _ name :=
    if bool_decide (name = "sql"%string) then Some "sql_message"%string
    else if bool_decide (name = "timer"%string) then Some "timer_message"%string else None
|}.

Definition rows : list (string * string) := [("omni_worker", "sql"); ("omni_worker", "timer")]%string.

Definition tags : list string := ["sql_message"; "timer_message"]%string.

Lemma rows_known : known_rows demo tags rows.
Proof.
  split; [repeat constructor; by eexists|].
  repeat constructor; [exists ("omni_worker", "sql")%string | exists ("omni_worker", "timer")%string];
    split; try done; by_decide.
Qed.

(** A run of events, and whether each is one of a world in order. *)
Definition run (evs : list event) (x : world) : world := foldl (λ y ev, (perform demo ev y).2) x evs.

Definition check (ev : event) (x : world) : bool :=
  match ev with
  | SqlWait _ | Interrupt _ | Commit _ => false
  | Receive i => (i <? length (workers x))%nat && (timer_id x <? 2 ^ 63 - 1)
  | Expire i _ | Fire i | RunTask i => (i <? length (workers x))%nat
  | _ => true
  end.

Fixpoint checks (evs : list event) (x : world) : bool :=
  match evs with
  | [] => true
  | ev :: evs' => check ev x && checks evs' (perform demo ev x).2
  end.

Lemma check_valid ev x : check ev x = true → valid demo tags ev x.
Proof.
  destruct ev; simpl; try done; rewrite ?andb_true_iff, ?Nat.ltb_lt, ?Z.ltb_lt; done.
Qed.

Lemma events_reachable n evs x :
  reachable demo tags n rows x → checks evs x = true → reachable demo tags n rows (run evs x).
Proof.
  revert x. induction evs as [|ev evs IH]; intros x Hr Hv; [done|]. cbn [checks] in Hv.
  apply andb_true_iff in Hv as [Hv Hvs]. apply (IH (perform demo ev x).2); [|done].
  eapply (reachable_step _ _ _ _ x ev); [done|by apply check_valid|]. apply surjective_pairing.
Qed.

Definition pool : world := start demo 2 rows.

Lemma pool_reachable : reachable demo tags 2 rows pool.
Proof. apply reachable_start, rows_known. Qed.

(** Two statements, a timer, and its cancellation by another role and its owner. *)
Definition evs : list event :=
  [SqlCall 7 "select 1" None; SqlCall 7 "select 1/0" None; Receive 0; TimerAfterCall 7 100 42 None; Receive 1;
   Receive 1; TimerCancelCall 8 0; Receive 0; Expire 1 0; Fire 1].

Lemma evs_reachable : reachable demo tags 2 rows (run evs pool).
Proof. apply events_reachable; [apply pool_reachable|]. vm_compute. reflexivity. Qed.

Lemma messages_alive_witness :
  (∀ why, (perform demo (Receive 0) (run evs pool)).1 ≠ Undefined why) ∧
  ∀ off v, envelopes (run evs pool) !! off = Some v →
    counter v = Z.b2z (bool_decide (off ∈ receipts (run evs pool))) +
                Z.b2z (bool_decide (off ∈ shared (run evs pool))).
Proof.
  apply (messages_alive demo tags 2 rows (run evs pool) (Receive 0) evs_reachable).
  apply check_valid. vm_compute. reflexivity.
Defined.

Lemma taken_messages_leak_witness :
  (∀ off, off ∈ taken (run evs pool) → is_Some (envelopes (run evs pool) !! off)) ∧
  (length (taken (run evs pool)) ≤ size (envelopes (run evs pool)))%nat.
Proof. apply (taken_messages_leak demo tags 2 rows (run evs pool) evs_reachable). Defined.


Lemma timers_run_once_witness :
  NoDup (ids (called (run (evs ++ [Receive 0; Receive 0; Receive 0; RunTask 0]) pool))).
Proof.
  apply (timers_run_once demo tags 2 rows). apply events_reachable; [apply pool_reachable|].
  vm_compute. reflexivity.
Defined.

(** The owner cancels: the worker that has the timer lets it go. *)
Definition cancelling : world :=
  run [TimerAfterCall 7 100 42 None; Receive 1; TimerCancelCall 7 0] pool.

Lemma cancelled_by_owner_witness :
  ∃ off q b c k, queue cancelling = ("timer_message"%string, off) :: q ∧
    envelopes cancelling !! off = Some (Envelope (Cancel 0 7 b) c k).
Proof.
  eapply (cancelled_by_owner demo tags 2 rows cancelling (Receive 1) 1
    (MkWorker (loaded demo rows ∅) {[0 := 7]} [(0, 42, 7)] [] [])
    (MkWorker (loaded demo rows ∅) ∅ [] [] []) 0 7);
    [ apply events_reachable; [apply pool_reachable | vm_compute; reflexivity]
    | apply check_valid; vm_compute; reflexivity
    | vm_compute; reflexivity | vm_compute; reflexivity | vm_compute; reflexivity | vm_compute; reflexivity ].
Defined.

Lemma unknown_cancel_circulates_witness :
  foldl (λ y i, (receive demo i y).2) (run [TimerCancelCall 7 5] pool) [0; 1; 1; 0; 1]%nat =
  run [TimerCancelCall 7 5] pool.
Proof.
  apply (unknown_cancel_circulates demo (run [TimerCancelCall 7 5] pool) 1 5 7 false 2 0);
    [vm_compute; reflexivity | vm_compute; reflexivity | | ].
  - intros i w Hw. apply lookup_replicate_1 in Hw as [-> _].
    split; [vm_compute; eexists; reflexivity | vm_compute; discriminate].
  - repeat constructor.
Defined.

Lemma interrupted_sql_succeeds_witness :
  ∃ y, (off ← sql_impl demo 7 "select 1" None; _ ← interrupt off; sql_wait off) pool = (Ok (Some true), y) ∧
       ran y = ran pool.
Proof. apply (interrupted_sql_succeeds demo 7 "select 1" None pool). reflexivity. Defined.

(** A reload is received by one worker; the others keep their handlers. *)
Theorem reload_reaches_one_worker :
  let x := run [Commit [("omni_worker", "sql")%string]; Receive 0; Receive 1] pool in
  queue x = [] ∧ (handlers <$> workers x) =
    [loaded demo [("omni_worker", "sql")%string] ∅; loaded demo rows ∅].
Proof. split; vm_compute; reflexivity. Qed.

(** A timer that has run off is cancelled for its owner, and its function called all
    the same. *)
Theorem cancelled_timer_called :
  let x := run [TimerAfterCall 7 100 42 None; Receive 1; Expire 1 0; TimerCancelCall 7 0; Receive 1; Fire 1;
                Receive 0; RunTask 0] pool in
  msg_of x 2 = Some (Cancel 0 7 true) ∧ called x = [(0, 42, 7)].
Proof. split; vm_compute; reflexivity. Qed.

End Demo.

End Worker.
