(* ===== verification/Extension.v ===== *)
(** * Extensions and startup: [omni]

    Module [Extension]: omni/extension.c, the hook around utility statements
    that makes the functions of an extension use the new library when it is
    upgraded, and has the backend look at its extensions again.  Module
    [Startup]: omni/workers.c and omni/utils.c, the workers started for the
    databases of a cluster.

    The files of extensions, and what PostgreSQL itself does for a statement,
    are parameters. *)

From Stdlib Require Import ZArith Lia.
From stdpp Require Import base tactics list gmap strings numbers.
From S2P Require Import Prelude.

Local Open Scope Z_scope.

Module Extension.

Definition ProcedureRelationId : Z := 1255.
Definition ExtensionRelationId : Z := 3079.
Definition ClanguageId : Z := 13.
Definition InvalidOid : Z := 0.

(** Rows of [pg_extension], [pg_depend] and [pg_proc] *)
Record pg_extension := PgExtension { extoid : Z; extversion : option string }.
Record pg_depend := PgDepend { classid : Z; objid : Z; refclassid : Z; refobjid : Z }.
Record pg_proc := PgProc { prolang : Z; probin : option string }.

Record catalog := Catalog {
  extensions : gmap string pg_extension;
  depends : list pg_depend;
  procs : gmap Z pg_proc
}.

(** Statements the hook looks at *)
Inductive stmt :=
  | CreateExtensionStmt
  | AlterExtensionStmt (extname : string)
  | DropStmt (extension : bool)
  | OtherStmt.

(** [ExtensionUpgradeHookState]: the kind of statement is that of the first call. *)
Record hook_state := HookState { node : stmt; s_extname : string; s_module_pathname : string }.

(** The backend: the catalog, [backend_force_reload], the static [extoid] of the hook,
    and how many callbacks wait for the end of the transaction. *)
Record st := St {
  cat : catalog;
  backend_force_reload : bool;
  static_extoid : Z;
  rollback_callbacks : nat
}.

Definition set_cat (c : catalog) (s : st) : st :=
  St c (backend_force_reload s) (static_extoid s) (rollback_callbacks s).
Definition set_force (s : st) : st := St (cat s) true (static_extoid s) (rollback_callbacks s).
Definition set_extoid (o : Z) (s : st) : st := St (cat s) (backend_force_reload s) o (rollback_callbacks s).
Definition add_callback (s : st) : st :=
  St (cat s) (backend_force_reload s) (static_extoid s) (S (rollback_callbacks s)).

(** A control file: its settings, [None] if there is no such file. *)
Definition files := string → option (list (string * string)).

Section operations.
Context (fs : files) (sharepath : string).

(** [snprintf] into [MAXPGPATH] bytes; a NULL string is printed as (null). *)
Definition bounded (s : string) : string := String.substring 0 1023 s.

Definition scriptdir : string := bounded (sharepath +:+ "/extension").

Definition get_extension_aux_control_filename (name : string) (version : option string) : string :=
  bounded (scriptdir +:+ "/" +:+ name +:+ "--" +:+ default "(null)" version +:+ ".control").

Definition get_extension_control_filename (name : string) : string :=
  bounded (scriptdir +:+ "/" +:+ name +:+ ".control").

(** The last setting of that name *)
Definition module_pathname (items : list (string * string)) : option string :=
  foldl (λ r i, if bool_decide (i.1 = "module_pathname"%string) then Some i.2 else r) None items.

(** [None] is NULL: no setting of the name. *)
Definition get_extension_module_pathname (name : string) (version : option string) :
  result (option string) :=
  match fs (get_extension_aux_control_filename name version) with
  | Some items => Ok (module_pathname items)
  | None =>
      match version with
      | None => raise "could not open extension control file"
      | Some _ =>
          match fs (get_extension_control_filename name) with
          | Some items => Ok (module_pathname items)
          | None => raise "could not open extension control file"
          end
      end
  end.

Definition get_extension_version (extname : string) (missing_ok : bool) : M st (option string) :=
  s ← get_st;
  let r := extensions (cat s) !! extname ≫= extversion in
  match r with
  | None => if missing_ok then mret None else ereport "extension does not exist"
  | Some v => mret (Some v)
  end.

(** [get_extension_oid(extname, true)] *)
Definition get_extension_oid (extname : string) (c : catalog) : Z :=
  from_option extoid InvalidOid (extensions c !! extname).

(** [MemoryContextStrdup] *)
Definition strdup (p : option string) : M st string :=
  match p with Some x => mret x | None => undefined "strlen of NULL" end.

(** A row of [pg_depend] of a function of the extension that uses the old library: its
    row of [pg_proc] *)
Definition to_update (old : gmap Z pg_proc) (oid : Z) (old_path : string) (d : pg_depend) : option pg_proc :=
  if (refclassid d =? ExtensionRelationId) && (refobjid d =? oid) && (classid d =? ProcedureRelationId) then
    match old !! objid d with
    | None => None
    | Some oldproc =>
        if (prolang oldproc =? ClanguageId) && bool_decide (probin oldproc = Some old_path) then Some oldproc
        else None
    end
  else None.

(** The scan over the dependencies: [old] is what the system cache shows, which does not
    change before the end of the scan; a row can be updated once in it. *)
Fixpoint update_procs (old : gmap Z pg_proc) (deps : list pg_depend) (oid : Z) (old_path : string)
    (new_path : option string) (updated : list Z) : M st unit :=
  match deps with
  | [] => mret ()
  | d :: deps' =>
      match to_update old oid old_path d with
      | None => update_procs old deps' oid old_path new_path updated
      | Some oldproc =>
          p ← strdup new_path;
          if bool_decide (objid d ∈ updated) then ereport "tuple already updated by self" else
          _ ← modify_st (λ s, set_cat (Catalog (extensions (cat s)) (depends (cat s))
                (<[objid d := PgProc (prolang oldproc) (Some p)]> (procs (cat s)))) s);
          update_procs old deps' oid old_path new_path (objid d :: updated)
      end
  end.

(** The hook; [ctx] is [handle->ctx], which it returns. *)
Definition extension_upgrade_hook (ctx : option hook_state) (pstmt : stmt) : M st (option hook_state) :=
  let first := match ctx with None => true | Some _ => false end in
  let nodeTag := match ctx with None => pstmt | Some h => node h end in
  let should_backend_force_reload :=
    match nodeTag with
    | CreateExtensionStmt | AlterExtensionStmt _ => true
    | DropStmt ext => first && ext
    | OtherStmt => false
    end in
  _ ← when (should_backend_force_reload && negb first) (modify_st add_callback);
  state ←
    (match nodeTag, ctx with
     | AlterExtensionStmt extname, None =>
         s ← get_st;
         _ ← modify_st (set_extoid (get_extension_oid extname (cat s)));
         extver ← get_extension_version extname true;
         p ← lift_r (get_extension_module_pathname extname extver);
         path ← strdup p;
         mret (HookState nodeTag extname path)
     | AlterExtensionStmt _, Some h =>
         extver ← get_extension_version (s_extname h) true;
         p ← lift_r (get_extension_module_pathname (s_extname h) extver);
         s ← get_st;
         _ ← update_procs (procs (cat s)) (depends (cat s)) (static_extoid s) (s_module_pathname h) p [];
         mret h
     | _, None => mret (HookState nodeTag "" "")
     | _, Some h => mret h
     end);
  _ ← when should_backend_force_reload (modify_st set_force);
  mret (if first then Some state else None).

(** The statement between the two calls of the hook, as [Hooks.wrap_hook_brackets] has
    it. *)
Definition process_utility (standard : M st unit) (pstmt : stmt) : M st unit :=
  ctx ← extension_upgrade_hook None pstmt;
  _ ← standard;
  _ ← extension_upgrade_hook ctx pstmt;
  mret ().

(** The end of the transaction: the callbacks, one of which is
    [force_backend_reload_on_rollback] per statement. *)
Definition end_transaction (commit : bool) : M st unit :=
  s ← get_st;
  put_st (St (cat s) (backend_force_reload s || negb commit && (0 <? rollback_callbacks s)%nat)
            (static_extoid s) 0).

End operations.

(** ** Upgrades *)

(** The functions of an extension that use the library [old_path] *)
Definition affected (old : gmap Z pg_proc) (deps : list pg_depend) (oid : Z) (old_path : string) : list Z :=
  omap (λ d, (λ _, objid d) <$> to_update old oid old_path d) deps.

Lemma to_update_Some old oid old_path d p :
  to_update old oid old_path d = Some p →
  old !! objid d = Some p ∧ prolang p = ClanguageId ∧ probin p = Some old_path ∧
  refobjid d = oid ∧ refclassid d = ExtensionRelationId ∧ classid d = ProcedureRelationId.
Proof.
  unfold to_update. destruct (_ && _ && _) eqn:Hd; [|done].
  rewrite !andb_true_iff, !Z.eqb_eq in Hd. destruct (old !! objid d) as [q|]; [|done].
  destruct (_ && _) eqn:Hq; [|done]. rewrite andb_true_iff, Z.eqb_eq, bool_decide_eq_true in Hq.
  naive_solver.
Qed.

Lemma update_procs_spec old deps oid P Q upd s :
  NoDup (affected old deps oid P) → (∀ f, f ∈ affected old deps oid P → f ∉ upd) →
  ∃ s', update_procs old deps oid P (Some Q) upd s = (Ok (), s') ∧
    extensions (cat s') = extensions (cat s) ∧ depends (cat s') = depends (cat s) ∧
    (∀ f, procs (cat s') !! f =
       if bool_decide (f ∈ affected old deps oid P) then (λ p, PgProc (prolang p) (Some Q)) <$> old !! f
       else procs (cat s) !! f) ∧
    backend_force_reload s' = backend_force_reload s ∧ static_extoid s' = static_extoid s ∧
    rollback_callbacks s' = rollback_callbacks s.
Proof.
  revert upd s. induction deps as [|d deps IH]; intros upd s Hnd Hupd.
  { exists s. repeat split. }
  unfold affected in Hnd, Hupd. cbn [omap list_omap] in Hnd, Hupd. fold (affected old deps oid P) in *.
  cbn [update_procs]. unfold affected. cbn [omap list_omap]. fold (affected old deps oid P).
  destruct (to_update old oid P d) as [p|] eqn:Hd; cbn [fmap option_fmap option_map] in *; [|by apply IH].
  apply list.NoDup_cons in Hnd as [Hno Hnd]. destruct (to_update_Some _ _ _ _ _ Hd) as (Hold & _).
  unfold strdup. rewrite (bind_ok _ _ Q s s) by done.
  rewrite bool_decide_eq_false_2 by (apply Hupd; left). rewrite modify_bind.
  set (s1 := set_cat _ s). destruct (IH (objid d :: upd) s1 Hnd) as (s' & -> & He & Hdep & Hp & Hrest).
  { intros f Hf. apply not_elem_of_cons. split; [intros ->; done|]. apply Hupd. by right. }
  exists s'. split; [done|]. split; [done|]. split; [done|]. split; [|done].
  intros f. rewrite Hp. unfold s1. simpl. destruct (decide (f = objid d)) as [->|Hne].
  - rewrite (bool_decide_eq_false_2 (objid d ∈ affected old deps oid P)) by done.
    rewrite bool_decide_eq_true_2 by left. by rewrite lookup_insert_eq, Hold.
  - rewrite lookup_insert_ne by done.
    rewrite (bool_decide_ext (f ∈ objid d :: affected old deps oid P) (f ∈ affected old deps oid P)); [done|].
    rewrite elem_of_cons. naive_solver.
Qed.

Section upgrade.
Context (fs : files) (sharepath : string).

(** The library an extension uses, by its control files *)
Definition library_of (c : catalog) (extname : string) (path : string) : Prop :=
  get_extension_module_pathname fs sharepath extname (extensions c !! extname ≫= extversion) = Ok (Some path).

Lemma get_extension_version_eq extname s :
  get_extension_version extname true s = (Ok (extensions (cat s) !! extname ≫= extversion), s).
Proof. unfold get_extension_version. rewrite get_bind. by destruct (extensions _ !! _ ≫= _). Qed.

(** The first call records the extension and the library it uses. *)
Lemma first_call extname P s :
  library_of (cat s) extname P →
  extension_upgrade_hook fs sharepath None (AlterExtensionStmt extname) s =
  (Ok (Some (HookState (AlterExtensionStmt extname) extname P)),
   set_force (set_extoid (get_extension_oid extname (cat s)) s)).
Proof.
  intros Hl. unfold extension_upgrade_hook. rewrite (bind_ok _ _ () s s) by done.
  set (s1 := set_extoid (get_extension_oid extname (cat s)) s).
  rewrite (bind_ok _ _ (HookState (AlterExtensionStmt extname) extname P) s s1); [done|].
  rewrite get_bind, modify_bind. rewrite (bind_ok _ _ _ _ _ (get_extension_version_eq extname s1)).
  by rewrite (lift_bind _ _ (Some P)).
Qed.

(** Upgrading an extension makes exactly those of its C functions that used its old
    library use the new one, leaves all other functions and the rest of the
    catalog as the upgrade made them, and has the backend look at its
    extensions again, now and if the transaction is rolled back. *)
Theorem upgrade_repoints_functions extname (standard : M st unit) s s2 P Q :
  library_of (cat s) extname P →
  standard (set_force (set_extoid (get_extension_oid extname (cat s)) s)) = (Ok (), s2) →
  static_extoid s2 = get_extension_oid extname (cat s) →
  library_of (cat s2) extname Q →
  NoDup (affected (procs (cat s2)) (depends (cat s2)) (static_extoid s2) P) →
  ∃ s3, process_utility fs sharepath standard (AlterExtensionStmt extname) s = (Ok (), s3) ∧
    extensions (cat s3) = extensions (cat s2) ∧ depends (cat s3) = depends (cat s2) ∧
    (∀ f, procs (cat s3) !! f =
       if bool_decide (f ∈ affected (procs (cat s2)) (depends (cat s2)) (get_extension_oid extname (cat s)) P)
       then (λ p, PgProc (prolang p) (Some Q)) <$> procs (cat s2) !! f
       else procs (cat s2) !! f) ∧
    backend_force_reload s3 = true ∧ backend_force_reload (end_transaction false s3).2 = true.
Proof.
  intros HP Hstd Ho HQ Hnd. unfold process_utility. rewrite (bind_ok _ _ _ _ _ (first_call extname P s HP)).
  rewrite (bind_ok _ _ _ _ _ Hstd).
  destruct (update_procs_spec (procs (cat s2)) (depends (cat s2)) (static_extoid s2) P Q [] (add_callback s2))
    as (s' & Hu & He & Hd & Hp & Hf & _ & Hc); [done|intros f _; apply not_elem_of_nil|].
  rewrite (bind_ok _ _ None s2 (set_force s')).
  - exists (set_force s'). split; [done|]. split; [done|]. split; [done|]. rewrite <- Ho. split; [done|].
    split; [done|]. done.
  - unfold extension_upgrade_hook. rewrite (bind_ok _ _ () s2 (add_callback s2)) by done. cbn [node].
    set (h := HookState (AlterExtensionStmt extname) extname P).
    rewrite (bind_ok _ _ h (add_callback s2) s'); [done|].
    rewrite (bind_ok _ _ _ _ _ (get_extension_version_eq extname (add_callback s2))).
    rewrite (lift_bind _ _ (Some Q)) by done. rewrite get_bind. by rewrite (bind_ok _ _ _ _ _ Hu).
Qed.

(** An extension without a library cannot be altered: the path of its library, which is
    NULL, is copied. *)
Theorem alter_without_library extname standard s :
  get_extension_module_pathname fs sharepath extname (extensions (cat s) !! extname ≫= extversion) = Ok None →
  (process_utility fs sharepath standard (AlterExtensionStmt extname) s).1 = Undefined "strlen of NULL".
Proof.
  intros Hl. set (s1 := set_extoid (get_extension_oid extname (cat s)) s).
  assert (H : extension_upgrade_hook fs sharepath None (AlterExtensionStmt extname) s =
    (Undefined "strlen of NULL", s1)); [|unfold process_utility, mbind, M_bind; by rewrite H].
  unfold extension_upgrade_hook. rewrite (bind_ok _ _ () s s) by done.
  unfold mbind at 1. unfold M_bind at 1. cbn [negb]. rewrite get_bind, modify_bind.
  rewrite (bind_ok _ _ _ _ _ (get_extension_version_eq extname s1)).
  by rewrite (lift_bind _ _ None).
Qed.

(** The auxiliary control file of a version hides the settings of the main one. *)
Lemma auxiliary_file_hides_library name version items :
  fs (get_extension_aux_control_filename sharepath name (Some version)) = Some items →
  module_pathname items = None →
  get_extension_module_pathname fs sharepath name (Some version) = Ok None.
Proof. intros Hf Hm. unfold get_extension_module_pathname. by rewrite Hf, Hm. Qed.
End upgrade.

(** ** Two extensions *)

Module Demo.

(** Extensions [a] and [b], whose versions 1 and 2 have libraries of their own, and
    [c], which has none. *)
Definition demo_files : files := λ f,
  if bool_decide (f = "/share/extension/a--1.control"%string) then Some [("module_pathname", "a1")%string]
  else if bool_decide (f = "/share/extension/a--2.control"%string) then Some [("module_pathname", "a2")%string]
  else if bool_decide (f = "/share/extension/b--1.control"%string) then Some [("module_pathname", "b1")%string]
  else if bool_decide (f = "/share/extension/b--2.control"%string) then Some [("module_pathname", "b2")%string]
  else if bool_decide (f = "/share/extension/c.control"%string) then Some [("comment", "SQL only")%string]
  else None.

Definition member (ext f : Z) : pg_depend := PgDepend ProcedureRelationId f ExtensionRelationId ext.

Definition cat1 : catalog := Catalog
  (list_to_map [("a"%string, PgExtension 1 (Some "1"%string)); ("b"%string, PgExtension 2 (Some "1"%string));
                ("c"%string, PgExtension 3 (Some "1"%string))])
  [member 1 10; member 1 11; member 2 20]
  (list_to_map [(10, PgProc ClanguageId (Some "a1"%string)); (11, PgProc 14 None);
                (20, PgProc ClanguageId (Some "b1"%string))]).

Definition s0 : st := St cat1 false 0 0.

(** What PostgreSQL does for [alter extension ... update]: the new version. *)
Definition new_version (ext : string) (oid : Z) : M st unit :=
  modify_st (λ s, set_cat (Catalog (<[ext := PgExtension oid (Some "2"%string)]> (extensions (cat s)))
    (depends (cat s)) (procs (cat s))) s).

Definition s2 : st :=
  St (Catalog (<["a"%string := PgExtension 1 (Some "2"%string)]> (extensions cat1)) (depends cat1) (procs cat1)) true 1 0.

Lemma upgrade_repoints_functions_witness :
  ∃ s3, process_utility demo_files "/share" (new_version "a" 1) (AlterExtensionStmt "a") s0 = (Ok (), s3) ∧
    procs (cat s3) !! 10 = Some (PgProc ClanguageId (Some "a2"%string)) ∧
    procs (cat s3) !! 20 = Some (PgProc ClanguageId (Some "b1"%string)) ∧ backend_force_reload s3 = true.
Proof.
  destruct (upgrade_repoints_functions demo_files "/share" "a" (new_version "a" 1) s0 s2 "a1" "a2")
    as (s3 & Hs & _ & _ & Hp & Hf & _); try (vm_compute; reflexivity).
  - apply (bool_decide_eq_true_1 _). vm_compute. reflexivity.
  - exists s3. split; [exact Hs|]. rewrite !Hp. split; [vm_compute; reflexivity|].
    split; [vm_compute; reflexivity | exact Hf].
Defined.

Lemma alter_without_library_witness :
  (process_utility demo_files "/share" (new_version "c" 3) (AlterExtensionStmt "c") s0).1 =
  Undefined "strlen of NULL".
Proof. apply alter_without_library. vm_compute. reflexivity. Defined.

(** The static [extoid] is that of the last statement that began: when the upgrade of [a]
    upgrades [b], the second call for [a] looks at the functions of [b], and the
    function of [a] keeps the old library. *)
Theorem nested_upgrade_forgotten :
  let upgrade_b := process_utility demo_files "/share" (new_version "b" 2) (AlterExtensionStmt "b") in
  let '(r, s) := process_utility demo_files "/share" (_ ← upgrade_b; new_version "a" 1) (AlterExtensionStmt "a") s0 in
  r = Ok () ∧ procs (cat s) !! 20 = Some (PgProc ClanguageId (Some "b2"%string)) ∧
  procs (cat s) !! 10 = Some (PgProc ClanguageId (Some "a1"%string)).
Proof. vm_compute. repeat split. Qed.

End Demo.

End Extension.

Module Startup.

Definition BGW_MAXLEN : nat := 96.
Definition BGW_EXTRALEN : nat := 128.
Definition NAMEDATALEN : nat := 64.

Record pg_database := PgDatabase { oid : Z; datname : string; datistemplate : bool; datallowconn : bool }.

Record BackgroundWorker := MkWorker {
  bgw_name : string; bgw_type : string; bgw_library_name : string; bgw_function_name : string;
  bgw_main_arg : Z; bgw_extra : string
}.

(** [strncpy(dest, src, n)] into zeroed memory *)
Definition strncpy (src : string) (n : nat) : string := String.substring 0 n src.

(** [get_fitting_library_name]: the size of the field for the name, [$TMPDIR], the name
    [mkstemp] makes of a template and whether the link can be made are given. *)
Definition get_fitting_library_name (field_size : nat) (tmpdir : option string) (mkstemp : string → string)
    (symlink_ok : bool) (library_name : string) : string :=
  if (field_size =? BGW_MAXLEN)%nat && (BGW_MAXLEN - 1 <=? String.length library_name)%nat then
    match tmpdir with
    | None => library_name
    | Some t =>
        let tempfile := t +:+ "/omni_ext_XXXXXX" in
        if (BGW_MAXLEN - 1 <=? String.length tempfile)%nat then library_name
        else if symlink_ok then mkstemp tempfile else library_name
    end
  else library_name.

Definition database_worker_of (library : string) (db : pg_database) : BackgroundWorker :=
  let name := "omni startup (" +:+ datname db +:+ ")" in
  MkWorker (strncpy name BGW_MAXLEN) (strncpy name BGW_MAXLEN) (strncpy library BGW_MAXLEN) "database_worker"
    (oid db) (strncpy (datname db) BGW_EXTRALEN).

(** [startup_worker]; the state is what was registered, [can_register] whether one more
    can be. *)
Fixpoint startup_worker (library : string) (can_register : nat → bool) (dbs : list pg_database) :
  M (list BackgroundWorker) unit :=
  match dbs with
  | [] => mret ()
  | db :: dbs' =>
      if datistemplate db || negb (datallowconn db) then startup_worker library can_register dbs' else
      ws ← get_st;
      if can_register (length ws) then
        _ ← put_st (ws ++ [database_worker_of library db]);
        startup_worker library can_register dbs'
      else ereport "Can't register a dynamic background worker"
  end.

Lemma string_length_app s t : String.length (s +:+ t) = (String.length s + String.length t)%nat.
Proof. induction s as [|c s IH]; simpl; [done|]. by rewrite IH. Qed.

Lemma substring_all s n : (String.length s ≤ n)%nat → String.substring 0 n s = s.
Proof.
  revert n. induction s as [|c s IH]; intros [|n] Hn; simpl in *; try done; [lia|]. by rewrite IH by lia.
Qed.

Lemma substring_length s n : (String.length (String.substring 0 n s) ≤ n)%nat.
Proof. revert n. induction s as [|c s IH]; intros [|n]; simpl; try lia. specialize (IH n). lia. Qed.

(** Every database that can be connected to and is no template gets one worker, in
    order, under its full name, as long as workers can be registered; a failure
    leaves those registered before it. *)
Theorem startup_workers_registered library can_register dbs ws :
  (String.length library < BGW_MAXLEN)%nat →
  Forall (λ db, (String.length (datname db) < NAMEDATALEN)%nat) dbs →
  let wanted := filter (λ db, datistemplate db = false ∧ datallowconn db = true) dbs in
  (∀ n, (n < length ws + length wanted)%nat → can_register n = true) →
  startup_worker library can_register dbs ws =
  (Ok (), ws ++ ((λ db, MkWorker ("omni startup (" +:+ datname db +:+ ")") ("omni startup (" +:+ datname db +:+ ")")
                          library "database_worker" (oid db) (datname db)) <$> wanted)).
Proof.
  intros Hlib Hdbs. revert ws. induction Hdbs as [|db dbs Hdb _ IH]; intros ws wanted Hcan; unfold wanted in *.
  { simpl. by rewrite app_nil_r. }
  cbn [startup_worker]. rewrite filter_cons in *.
  destruct (datistemplate db) eqn:Ht; cbn [orb].
  { case_decide as H; [by destruct H|]. by apply IH. }
  destruct (datallowconn db) eqn:Ha; cbn [negb].
  2:{ case_decide as H; [by destruct H|]. by apply IH. }
  case_decide as H; [|by destruct H]. cbn [length fmap list_fmap] in *.
  rewrite get_bind. rewrite Hcan by lia. unfold mbind at 1. unfold M_bind at 1, put_st at 1. rewrite IH.
  - rewrite <- app_assoc. simpl. do 4 f_equal. unfold database_worker_of, strncpy. unfold BGW_MAXLEN, NAMEDATALEN, BGW_EXTRALEN in *.
    assert (Hn : (String.length ("omni startup (" +:+ datname db +:+ ")") ≤ 96)%nat).
    { rewrite !string_length_app. simpl. lia. }
    by rewrite !substring_all by lia.
  - intros n Hn. apply Hcan. rewrite length_app in Hn. simpl in Hn. lia.
Qed.

(** The name that is registered is cut to [BGW_MAXLEN] bytes also where the field has
    room for more, and where no shorter name is made: the library is not found. *)
Theorem long_library_name_cut field_size tmpdir mkstemp ok library db :
  field_size ≠ BGW_MAXLEN → (BGW_MAXLEN < String.length library)%nat →
  bgw_library_name (database_worker_of (get_fitting_library_name field_size tmpdir mkstemp ok library) db) ≠ library.
Proof.
  intros Hf Hl. unfold get_fitting_library_name. destruct (Nat.eqb_spec field_size BGW_MAXLEN); [done|]. simpl.
  intros Heq. pose proof (substring_length library BGW_MAXLEN) as Hle. unfold strncpy in Heq. rewrite Heq in Hle. lia.
Qed.

Lemma startup_workers_registered_witness :
  startup_worker "/lib/omni.so" (λ _, true)
    [PgDatabase 1 "template1" true true; PgDatabase 5 "postgres" false true; PgDatabase 4 "template0" true false] [] =
  (Ok (), [MkWorker "omni startup (postgres)" "omni startup (postgres)" "/lib/omni.so" "database_worker" 5 "postgres"]).
Proof.
  apply (startup_workers_registered "/lib/omni.so" (λ _, true)
    [PgDatabase 1 "template1" true true; PgDatabase 5 "postgres" false true; PgDatabase 4 "template0" true false] []);
    [vm_compute; lia | repeat constructor; vm_compute; lia | reflexivity].
Defined.

End Startup.
