(* ===== verification/Sql.v ===== *)
(** * SQL statements: [omni_sql]

    omni_sql/lib.c, which other extensions link, and omni_sql.c: parse trees and
    what is done with them, statements split out of a script, and execution
    with parameters.

    The parser, the deparser, the analysis of queries and PostgreSQL's
    conversions are parameters. *)

From Stdlib Require Import ZArith Lia String Ascii.
From stdpp Require Import base tactics list gmap strings numbers.
From S2P Require Import Prelude.

Local Open Scope Z_scope.

Module Sql.

(** ** Parse trees

    The statements that can have a WITH clause; a clause is its RECURSIVE flag
    and its common table expressions with their names. *)
Inductive stmt_tag := T_SelectStmt | T_InsertStmt | T_UpdateStmt | T_DeleteStmt | T_MergeStmt.

#[export] Instance stmt_tag_eq_dec : EqDecision stmt_tag.
Proof. solve_decision. Defined.

(** A node: a reference to a relation, a parameter, a statement that can have a WITH
    clause, any other statement (with the flag for OR REPLACE, if its kind has
    one), and the nodes nothing here looks at.  The fields of a statement that
    are set are nodes named after the field. *)
Inductive node :=
  | RangeVar (schemaname : option string) (relname : string) (alias : option string)
  | ParamRef (number : Z)
  | Stmt (tag : stmt_tag) (withClause : option (bool * list (string * node))) (fields : list node)
  | Utility (tag : string) (replace : bool) (fields : list node)
  | Node (tag : string) (children : list node).

(** The parser puts the list of expressions after RETURNING into this field. *)
Definition returningList (fields : list node) : list node :=
  flat_map (λ f, match f with Node t l => if bool_decide (t = "returningList"%string) then l else [] | _ => [] end)
    fields.

Record RawStmt := MkRawStmt { stmt : node; stmt_location : Z; stmt_len : Z }.

Definition set_stmt (r : RawStmt) (n : node) : RawStmt := MkRawStmt n (stmt_location r) (stmt_len r).

(** Induction over trees *)
Section induction.
Context (P : node → Prop).
Context (HR : ∀ s r a, P (RangeVar s r a)) (HP : ∀ n, P (ParamRef n)).
Context (HS : ∀ t w fs, match w with Some (_, ctes) => Forall (λ c, P c.2) ctes | None => True end →
                Forall P fs → P (Stmt t w fs)).
Context (HU : ∀ t r fs, Forall P fs → P (Utility t r fs)) (HN : ∀ t cs, Forall P cs → P (Node t cs)).

Fixpoint node_tree_ind (n : node) : P n :=
  let fix all l : Forall P l :=
    match l with [] => Forall_nil_2 _ | x :: l' => Forall_cons_2 _ _ _ (node_tree_ind x) (all l') end in
  match n with
  | RangeVar s r a => HR s r a
  | ParamRef k => HP k
  | Stmt t w fs =>
      HS t w fs
        (match w with
         | Some (_, ctes) =>
             (fix go l : Forall (λ c : string * node, P c.2) l :=
                match l with
                | [] => Forall_nil_2 _
                | c :: l' => Forall_cons_2 _ _ _ (node_tree_ind c.2) (go l')
                end) ctes
         | None => I
         end) (all fs)
  | Utility t r fs => HU t r fs (all fs)
  | Node t cs => HN t cs (all cs)
  end.
End induction.

(** ** lib.c *)

(** [omni_sql_get_with_clause] gives the address of the clause: what is there, and the
    statement with another one there. *)
Definition get_with (n : node) : option (option (bool * list (string * node))) :=
  match n with Stmt _ w _ => Some w | _ => None end.

Definition put_with (w : option (bool * list (string * node))) (n : node) : node :=
  match n with Stmt t _ fs => Stmt t w fs | _ => n end.

(** [omni_sql_add_cte] *)
Definition omni_sql_add_cte (stmts : list RawStmt) (cte_name : string) (cte_stmts : list RawStmt)
    (recursive prepend : bool) : result (list RawStmt) :=
  match stmts with
  | [s] =>
      match cte_stmts with
      | [c] =>
          let cte_node := (cte_name, stmt c) in
          match get_with (stmt s) with
          | None => raise "no supported statement found"
          | Some None => Ok [set_stmt s (put_with (Some (recursive, [cte_node])) (stmt s))]
          | Some (Some (r, ctes)) =>
              Ok [set_stmt s (put_with (Some (r, if prepend then cte_node :: ctes else ctes ++ [cte_node])) (stmt s))]
          end
      | _ => raise "CTE should contain one and only one statement"
      end
  | _ => raise "Statement should contain one and only one statement"
  end.

(** [contains_param_walker], which stops at the first parameter. *)
Fixpoint contains_param (n : node) : bool :=
  match n with
  | RangeVar _ _ _ => false
  | ParamRef _ => true
  | Stmt _ w fs =>
      existsb contains_param fs
      || match w with Some (_, ctes) => existsb (λ c, contains_param c.2) ctes | None => false end
  | Utility _ _ fs => existsb contains_param fs
  | Node _ cs => existsb contains_param cs
  end.

Definition omni_sql_is_parameterized (stmts : list RawStmt) : bool :=
  existsb (λ s, contains_param (stmt s)) stmts.

(** [omni_sql_is_valid]: the state is [post_parse_analyze_hook]; [analyze] is
    [parse_analyze_fixedparams] of the statement and its text, called without the
    hook. *)
Fixpoint analyze_all (analyze : node → M (option Z) unit) (stmts : list RawStmt) : M (option Z) bool :=
  match stmts with
  | [] => mret true
  | s :: stmts' => λ h,
      match analyze (stmt s) h with
      | (Ok _, h') => analyze_all analyze stmts' h'
      | (Err _, h') => (Ok false, h')
      | (Undefined w, h') => (Undefined w, h')
      end
  end.

Definition omni_sql_is_valid (analyze : node → M (option Z) unit) (stmts : list RawStmt) : M (option Z) bool :=
  if omni_sql_is_parameterized stmts then mret false else
  hook ← get_st;
  _ ← put_st None;
  valid ← analyze_all analyze stmts;
  _ ← put_st hook;
  mret valid.

(** [omni_sql_is_returning_statement] *)
Definition omni_sql_is_returning_statement (stmts : list RawStmt) : bool :=
  match list.last stmts with
  | None => false
  | Some s =>
      match stmt s with
      | Stmt T_SelectStmt _ _ => true
      | Stmt T_UpdateStmt _ fs | Stmt T_InsertStmt _ fs | Stmt T_DeleteStmt _ fs =>
          (0 <? length (returningList fs))%nat
      | _ => false
      end
  end.

(** The kinds of statement that have a flag for OR REPLACE *)
Definition replaceable : list string :=
  ["CreateTransformStmt"; "CreatePLangStmt"; "CreateFunctionStmt"; "CreateTrigStmt"; "RuleStmt"; "ViewStmt";
   "DefineStmt"]%string.

Definition omni_sql_is_replace_statement (stmts : list RawStmt) : bool :=
  match stmts with
  | [] => false
  | _ =>
      foldl (λ all s,
        match stmt s with
        | Utility t r _ => if bool_decide (t ∈ replaceable) then all && r else false
        | _ => false
        end) true stmts
  end.

(** ** omni_sql.c *)

(** The kinds of statement [statement_type] knows *)
Definition statement_types : list string :=
  ["InsertStmt"; "DeleteStmt"; "UpdateStmt"; "MergeStmt"; "SelectStmt"; "SetOperationStmt"; "ReturnStmt";
   "PLAssignStmt"; "CreateSchemaStmt"; "AlterTableStmt"; "ReplicaIdentityStmt"; "AlterCollationStmt";
   "AlterDomainStmt"; "GrantStmt"; "GrantRoleStmt"; "AlterDefaultPrivilegesStmt"; "CopyStmt";
   "VariableSetStmt"; "VariableShowStmt"; "CreateStmt"; "CreateTableSpaceStmt"; "DropTableSpaceStmt";
   "AlterTableSpaceOptionsStmt"; "AlterTableMoveAllStmt"; "CreateExtensionStmt"; "AlterExtensionStmt";
   "AlterExtensionContentsStmt"; "CreateFdwStmt"; "AlterFdwStmt"; "CreateForeignServerStmt";
   "AlterForeignServerStmt"; "CreateForeignTableStmt"; "CreateUserMappingStmt"; "AlterUserMappingStmt";
   "DropUserMappingStmt"; "ImportForeignSchemaStmt"; "CreatePolicyStmt"; "AlterPolicyStmt"; "CreateAmStmt";
   "CreateTrigStmt"; "CreateEventTrigStmt"; "AlterEventTrigStmt"; "CreatePLangStmt"; "CreateRoleStmt";
   "AlterRoleStmt"; "AlterRoleSetStmt"; "DropRoleStmt"; "CreateSeqStmt"; "AlterSeqStmt"; "DefineStmt";
   "CreateDomainStmt"; "CreateOpClassStmt"; "CreateOpFamilyStmt"; "AlterOpFamilyStmt"; "DropStmt";
   "TruncateStmt"; "CommentStmt"; "SecLabelStmt"; "DeclareCursorStmt"; "ClosePortalStmt"; "FetchStmt";
   "IndexStmt"; "CreateStatsStmt"; "AlterStatsStmt"; "CreateFunctionStmt"; "AlterFunctionStmt"; "DoStmt";
   "CallStmt"; "RenameStmt"; "AlterObjectDependsStmt"; "AlterObjectSchemaStmt"; "AlterOwnerStmt";
   "AlterOperatorStmt"; "AlterTypeStmt"; "RuleStmt"; "NotifyStmt"; "ListenStmt"; "UnlistenStmt";
   "TransactionStmt"; "CompositeTypeStmt"; "CreateEnumStmt"; "CreateRangeStmt"; "AlterEnumStmt"; "ViewStmt";
   "LoadStmt"; "CreatedbStmt"; "AlterDatabaseStmt"; "AlterDatabaseRefreshCollStmt"; "AlterDatabaseSetStmt";
   "DropdbStmt"; "AlterSystemStmt"; "ClusterStmt"; "VacuumStmt"; "ExplainStmt"; "CreateTableAsStmt";
   "RefreshMatViewStmt"; "CheckPointStmt"; "DiscardStmt"; "LockStmt"; "ConstraintsSetStmt"; "ReindexStmt";
   "CreateConversionStmt"; "CreateCastStmt"; "CreateTransformStmt"; "PrepareStmt"; "ExecuteStmt";
   "DeallocateStmt"; "DropOwnedStmt"; "ReassignOwnedStmt"; "AlterTSDictionaryStmt"; "AlterTSConfigurationStmt";
   "CreatePublicationStmt"; "AlterPublicationStmt"; "CreateSubscriptionStmt"; "AlterSubscriptionStmt";
   "DropSubscriptionStmt"; "PlannedStmt"]%string.

Definition tag_name (n : node) : string :=
  match n with
  | Stmt T_SelectStmt _ _ => "SelectStmt"
  | Stmt T_InsertStmt _ _ => "InsertStmt"
  | Stmt T_UpdateStmt _ _ => "UpdateStmt"
  | Stmt T_DeleteStmt _ _ => "DeleteStmt"
  | Stmt T_MergeStmt _ _ => "MergeStmt"
  | Utility t _ _ | Node t _ => t
  | RangeVar _ _ _ => "RangeVar"
  | ParamRef _ => "ParamRef"
  end.

(** [isspace] in the C locale *)
Definition isspace (c : ascii) : bool :=
  let n := Ascii.N_of_ascii c in ((9 <=? n) && (n <=? 13) || (n =? 32))%N.

Definition newline : ascii := "010"%char.

(** [find_line_col]: the text of the statement ends where the list does. *)
Fixpoint find_line_col (str : list ascii) (offset : nat) (line col : Z) : Z * Z :=
  match offset, str with
  | S offset', c :: str' =>
      if bool_decide (c = newline) then find_line_col str' offset' (line + 1) 1
      else find_line_col str' offset' line (col + 1)
  | _, _ => (line, col)
  end.

(** [find_non_whitespace]: 0 if there is nothing else. *)
Fixpoint leading_spaces (str : list ascii) : option nat :=
  match str with
  | [] => None
  | c :: str' => if isspace c then S <$> leading_spaces str' else Some O
  end.

Definition find_non_whitespace (str : list ascii) : nat := default O (leading_spaces str).

(** A row of [raw_statement] *)
Record raw_statement := RawStatement { source : list ascii; line : Z; col : Z }.

(** [textcat] with a semicolon *)
Definition append_cmd (tx cmd : list ascii) : list ascii := tx ++ list_ascii_of_string "; " ++ cmd.

Section functions.
Context (parse : string → result (list RawStmt)) (deparse : list node → string).

Definition not_null {A} (msg : string) (a : option A) : result A :=
  match a with Some x => Ok x | None => raise msg end.

Definition statement_in (statement : option string) : result string :=
  s ← not_null "statement can't be NULL" statement;
  stmts ← parse s;
  Ok (deparse (stmt <$> stmts)).

Definition add_cte (statement cte_name cte : option string) (recursive prepend : option bool) : result string :=
  statement ← not_null "Statement should not be NULL" statement;
  cte_name ← not_null "CTE name should not be NULL" cte_name;
  cte ← not_null "CTE should not be NULL" cte;
  recursive ← not_null "Recursive flag should not be NULL" recursive;
  prepend ← not_null "Prepend flag should not be NULL" prepend;
  stmts ← parse statement;
  cte_stmts ← parse cte;
  stmts ← omni_sql_add_cte stmts cte_name cte_stmts recursive prepend;
  Ok (deparse (stmt <$> stmts)).

Definition is_parameterized (statement : option string) : result bool :=
  s ← not_null "statement can't be NULL" statement;
  stmts ← parse s;
  Ok (omni_sql_is_parameterized stmts).

Definition is_returning_statement (statement : option string) : result bool :=
  s ← not_null "statement should not be NULL" statement;
  stmts ← parse s;
  Ok (omni_sql_is_returning_statement stmts).

Definition is_replace_statement (statement : option string) : result bool :=
  s ← not_null "statement should not be NULL" statement;
  stmts ← parse s;
  Ok (omni_sql_is_replace_statement stmts).

(** [None] is NULL. *)
Definition statement_type (statement : option string) : result (option string) :=
  s ← not_null "statement should not be NULL" statement;
  stmts ← parse s;
  match stmts with
  | [] => Ok None
  | [r] =>
      let t := tag_name (stmt r) in
      Ok (Some (if bool_decide (t ∈ statement_types) then t else "UnknownStmt"%string))
  | _ => Ok (Some "MultiStmt"%string)
  end.

(** The text of a statement of the script and its position *)
Definition cut (statement : list ascii) (r : RawStmt) : result raw_statement :=
  if (stmt_location r <? 0) || (Z.of_nat (length statement) <? stmt_location r) then
    Undefined "location outside of the statement" else
  let loc := Z.to_nat (stmt_location r) in
  let rest := drop loc statement in
  let actual_start := find_non_whitespace rest in
  let '(line, col) := find_line_col statement (loc + actual_start) 1 1 in
  let from := drop actual_start rest in
  if stmt_len r =? 0 then Ok (RawStatement from line col) else
  let len := stmt_len r - Z.of_nat actual_start in
  if (len <? 0) || (Z.of_nat (length from) <? len) then Undefined "length outside of the statement" else
  Ok (RawStatement (take (Z.to_nat len) from) line col).

Definition is_transaction (n : node) : bool := bool_decide (tag_name n = "TransactionStmt"%string).

Definition is_end (n : node) : bool :=
  bool_decide (deparse [n] = "COMMIT"%string) || bool_decide (deparse [n] = "ROLLBACK"%string).

(** The loop over the statements; [tx] is the transaction being collected. *)
Fixpoint raw_loop (preserve_transactions : bool) (statement : list ascii) (stmts : list RawStmt)
    (tx : option raw_statement) : result (list raw_statement) :=
  match stmts with
  | [] => match tx with Some _ => raise "unfinished transaction" | None => Ok [] end
  | r :: stmts' =>
      cmd ← cut statement r;
      if preserve_transactions then
        match is_transaction (stmt r), tx, is_end (stmt r) with
        | true, None, false => raw_loop preserve_transactions statement stmts' (Some cmd)
        | true, Some _, false => raise "nested transactions are not supported"
        | true, Some t, true =>
            rows ← raw_loop preserve_transactions statement stmts' None;
            Ok (RawStatement (append_cmd (source t) (source cmd)) (line t) (col t) :: rows)
        | _, Some t, _ =>
            raw_loop preserve_transactions statement stmts'
              (Some (RawStatement (append_cmd (source t) (source cmd)) (line t) (col t)))
        | _, None, _ => rows ← raw_loop preserve_transactions statement stmts' tx; Ok (cmd :: rows)
        end
      else rows ← raw_loop preserve_transactions statement stmts' tx; Ok (cmd :: rows)
  end.

Definition raw_statements (statement : option string) (preserve_transactions : option bool) :
  result (list raw_statement) :=
  s ← not_null "statements can't be NULL" statement;
  preserve ← not_null "preserve_transactions flag can't be NULL" preserve_transactions;
  stmts ← parse s;
  raw_loop preserve (list_ascii_of_string s) stmts None.
End functions.

(** ** Execution with parameters *)

Definition BOOLOID : Z := 16.
Definition INT8OID : Z := 20.
Definition INT2OID : Z := 21.
Definition INT4OID : Z := 23.
Definition TEXTOID : Z := 25.
Definition FLOAT4OID : Z := 700.
Definition FLOAT8OID : Z := 701.
Definition NUMERICOID : Z := 1700.

Section parameters.
(** Numbers of type [numeric] and data of types that are not told apart here *)
Context {numeric blob : Type}.

(** What a [jsonb] holds; a scalar is stored as an array of one element. *)
Inductive json := JBool (b : bool) | JNumeric (n : numeric) | JNull | JString (s : string) | JBinary.
Inductive jsonb := JArray (l : list json) | JScalar (v : json) | JObject.

(** A [Datum] with what it was made as *)
Inductive datum :=
  | DNull
  | DBool (b : bool)
  | DNumeric (n : numeric)
  | DText (s : string)
  | DInt (width z : Z)
  | DBlob (oid : Z) (b : blob).

(** The arrays of [ExecCtx], element by element: type, whether it is NULL, value *)
Record param := Param { ptype : Z; pnull : bool; pvalue : datum }.

(** The conversions of PostgreSQL; an error of theirs is raised. *)
Record conv := Conv {
  numeric_int4 : numeric → result Z;
  numeric_int8 : numeric → result Z;
  numeric_float : Z → numeric → result blob;
  input_function : Z → string → result datum
}.

Context (cv : conv).

Definition json_elements (p : jsonb) : result (list json) :=
  match p with
  | JArray l => Ok l
  | JScalar v => Ok [v]
  | JObject => raise "parameters must be a JSON array"
  end.

Definition json_param (v : json) : result param :=
  match v with
  | JBool b => Ok (Param BOOLOID false (DBool b))
  | JNumeric n => Ok (Param NUMERICOID false (DNumeric n))
  | JNull => Ok (Param TEXTOID true DNull)
  | JString s => Ok (Param TEXTOID false (DText s))
  | JBinary => raise "unsupported parameter type"
  end.

Fixpoint json_params (l : list json) : result (list param) :=
  match l with
  | [] => Ok []
  | v :: l' => p ← json_param v; ps ← json_params l'; Ok (p :: ps)
  end.

Definition extract_information_json_parameters (parameters : jsonb) : result (list param) :=
  l ← json_elements parameters; json_params l.

(** A text is read as the type asked for, a number converted to it. *)
Definition convert_param (p : param) (id : Z) : result datum :=
  v ← (if (ptype p =? TEXTOID) && negb (id =? TEXTOID) then
         match pvalue p with DText s => input_function cv id s | _ => Undefined "not a text" end
       else Ok (pvalue p));
  if ptype p =? NUMERICOID then
    match v with
    | DNumeric n =>
        if id =? INT2OID then z ← numeric_int4 cv n; Ok (DInt 16 (wrap_s 16 z))
        else if id =? INT4OID then z ← numeric_int4 cv n; Ok (DInt 32 z)
        else if id =? INT8OID then z ← numeric_int8 cv n; Ok (DInt 64 z)
        else if (id =? FLOAT4OID) || (id =? FLOAT8OID) then f ← numeric_float cv id n; Ok (DBlob id f)
        else raise "can't convert numeric to type"
    | _ => Undefined "not a numeric"
    end
  else Ok v.

(** [extract_information_json_types]: the arrays have as many elements as there are
    parameters. *)
Fixpoint extract_information_json_types (ps : list param) (types : list (option Z)) : result (list param) :=
  match types with
  | [] => Ok ps
  | None :: types' =>
      rest ← extract_information_json_types (drop 1 ps) types'; Ok (take 1 ps ++ rest)
  | Some id :: types' =>
      match ps with
      | [] => Undefined "beyond the parameters"
      | p :: ps' =>
          v ← (if pnull p then Ok (pvalue p) else convert_param p id);
          rest ← extract_information_json_types ps' types';
          Ok (Param id (pnull p) v :: rest)
      end
  end.

(** The server programming interface: whether a statement returns rows, its rows, and
    how many rows a statement processed. *)
Record spi (row : Type) := Spi {
  SPI_is_cursor_plan : string → list Z → bool;
  SPI_cursor : string → list param → result (list row);
  SPI_execute_with_args : string → list param → result Z
}.
Arguments SPI_is_cursor_plan {row}.
Arguments SPI_cursor {row}.
Arguments SPI_execute_with_args {row}.

Definition check_parameters (parameters : option jsonb) (types : option (list (option Z))) : result (list param) :=
  match parameters with
  | None => Ok []
  | Some j =>
      ps ← extract_information_json_parameters j;
      match types with None => Ok ps | Some ts => extract_information_json_types ps ts end
  end.

(** The calls of the set-returning function, one row each: those of the cursor, or the
    number of rows of the statement. *)
Definition execute_parameterized {row} (sp : spi row) (count_row : Z → row) (statement : option string)
    (parameters : option jsonb) (types : option (list (option Z))) : result (list row) :=
  stmt ← not_null "statement should not be NULL" statement;
  ps ← check_parameters parameters types;
  if SPI_is_cursor_plan sp stmt (ptype <$> ps) then SPI_cursor sp stmt ps
  else processed ← SPI_execute_with_args sp stmt ps; Ok [count_row processed].
End parameters.
Arguments json : clear implicits.
Arguments jsonb : clear implicits.
Arguments datum : clear implicits.
Arguments param : clear implicits.
Arguments conv : clear implicits.

(** ** Scripts *)

(** The line and column of a place in a text *)
Definition line_of (text : list ascii) : Z := 1 + Z.of_nat (length (filter (λ c, c = newline) text)).

Fixpoint col_of (text : list ascii) : Z :=
  match text with
  | [] => 1
  | c :: text' => if bool_decide (newline ∈ text) then col_of text' else 1 + Z.of_nat (length text)
  end.

Lemma col_of_plain text : newline ∉ text → col_of text = 1 + Z.of_nat (length text).
Proof. intros H. destruct text; [done|]. simpl. by rewrite bool_decide_eq_false_2. Qed.

Lemma find_line_col_spec str : ∀ offset l c,
  find_line_col str offset l c =
  (l + Z.of_nat (length (filter (λ x, x = newline) (take offset str))),
   if bool_decide (newline ∈ take offset str) then col_of (take offset str)
   else c + Z.of_nat (length (take offset str))).
Proof.
  induction str as [|x str IH]; intros [|offset] l c; simpl; try (f_equal; lia).
  case_bool_decide as Hx; rewrite IH.
  - subst x. rewrite filter_cons_True by done. simpl. f_equal; [lia|].
    case_bool_decide as Hn; [done|]. by rewrite col_of_plain.
  - rewrite filter_cons_False by done. f_equal. case_bool_decide as Hn.
    + by rewrite !bool_decide_eq_true_2 by (by right).
    + rewrite bool_decide_eq_false_2; [lia|]. intros [?|?]%elem_of_cons; congruence.
Qed.

Lemma find_line_col_start str offset :
  find_line_col str offset 1 1 = (line_of (take offset str), col_of (take offset str)).
Proof.
  rewrite find_line_col_spec. unfold line_of. f_equal.
  case_bool_decide as Hn; [done|]. by rewrite col_of_plain.
Qed.

(** Where a statement of a script begins *)
Definition start_of (statement : list ascii) (r : RawStmt) : nat :=
  let loc := Z.to_nat (stmt_location r) in (loc + find_non_whitespace (drop loc statement))%nat.

(** A piece of a script: its text from [k] on, with the position of [k] *)
Definition piece (statement : list ascii) (k : nat) (row : raw_statement) : Prop :=
  source row `prefix_of` drop k statement ∧
  line row = line_of (take k statement) ∧ col row = col_of (take k statement).

Lemma cut_piece statement r row : cut statement r = Ok row → piece statement (start_of statement r) row.
Proof.
  unfold cut. case_match; [done|]. rewrite find_line_col_start, drop_drop. fold (start_of statement r).
  destruct (stmt_len r =? 0); [intros [= <-]; by repeat split|].
  case_match; [done|]. intros [= <-]. split; [|done]. eexists. symmetry. apply take_drop.
Qed.

Section scripts.
Context (deparse : list node → string) (statement : list ascii).

Definition begins (r : RawStmt) : Prop := is_transaction (stmt r) = true ∧ is_end deparse (stmt r) = false.
Definition ends (r : RawStmt) : Prop := is_transaction (stmt r) = true ∧ is_end deparse (stmt r) = true.
Definition inner (r : RawStmt) : Prop := is_transaction (stmt r) = false.

Definition cuts (rs : list RawStmt) (cmds : list raw_statement) : Prop :=
  Forall2 (λ r cmd, cut statement r = Ok cmd) rs cmds.

Definition join (t cmd : raw_statement) : raw_statement :=
  RawStatement (append_cmd (source t) (source cmd)) (line t) (col t).

(** The rows for a list of statements: a transaction makes one row, with the position
    of its first statement, any other statement makes a row of its own. *)
Inductive grouped : list RawStmt → list raw_statement → Prop :=
  | grouped_nil : grouped [] []
  | grouped_one r cmd rs rows :
      ¬ begins r → cut statement r = Ok cmd → grouped rs rows → grouped (r :: rs) (cmd :: rows)
  | grouped_transaction b body e t cmds rs rows :
      begins b → Forall inner body → ends e → cut statement b = Ok t → cuts (body ++ [e]) cmds →
      grouped rs rows → grouped (b :: body ++ e :: rs) (foldl join t cmds :: rows).

Lemma ok_bind_iff {A B} (r : result A) (f : A → result B) b :
  (r ≫= f) = Ok b ↔ ∃ a, r = Ok a ∧ f a = Ok b.
Proof. destruct r; simpl; naive_solver. Qed.

Lemma raw_loop_transaction rs : ∀ t rows,
  raw_loop deparse true statement rs (Some t) = Ok rows ↔
  ∃ body e cmds rest rows', rs = body ++ e :: rest ∧ Forall inner body ∧ ends e ∧ cuts (body ++ [e]) cmds ∧
    rows = foldl join t cmds :: rows' ∧ raw_loop deparse true statement rest None = Ok rows'.
Proof.
  induction rs as [|r rs IH]; intros t rows; simpl.
  { split; [done|]. by intros ([|] & ? & ? & ? & ? & ? & ?). }
  rewrite ok_bind_iff. split.
  - intros (cmd & Hc & H). destruct (is_transaction (stmt r)) eqn:Ht; [destruct (is_end deparse (stmt r)) eqn:He|].
    + apply ok_bind_iff in H as (rows' & Hl & [= <-]). exists [], r, [cmd], rs, rows'.
      split_and!; try done. by constructor.
    + done.
    + apply IH in H as (body & e & cmds & rest & rows' & -> & Hb & He & Hcs & -> & Hl).
      exists (r :: body), e, (cmd :: cmds), rest, rows'. split_and!; try done; by constructor.
  - intros (body & e & cmds & rest & rows' & Hrs & Hb & He & Hcs & -> & Hl).
    destruct body as [|r' body]; simpl in Hrs; simplify_eq.
    + apply Forall2_cons_inv_l in Hcs as (cmd & cmds' & Hc & Hcs & ->).
      apply Forall2_nil_inv_l in Hcs as ->. exists cmd. split; [done|].
      destruct He as [-> ->]. simpl in *. rewrite Hl. done.
    + apply Forall2_cons_inv_l in Hcs as (cmd & cmds' & Hc & Hcs & ->).
      apply Forall_cons_1 in Hb as [Hr Hb]. exists cmd. split; [done|]. rewrite Hr. simpl.
      apply IH. exists body, e, cmds', rest, rows'. done.
Qed.

Lemma raw_loop_grouped rs rows :
  raw_loop deparse true statement rs None = Ok rows ↔ grouped rs rows.
Proof.
  split.
  - remember (length rs) as n eqn:Hn. revert rs rows Hn.
    induction (lt_wf n) as [n _ IH]; intros [|r rs] rows ->; simpl.
    { intros [= <-]. constructor. }
    intros (cmd & Hc & H)%ok_bind_iff.
    destruct (is_transaction (stmt r)) eqn:Ht; [destruct (is_end deparse (stmt r)) eqn:He|].
    + apply ok_bind_iff in H as (rows' & Hl & [= <-]).
      constructor; [by intros [? ?]; congruence|done|]. eapply IH; [|done..]. simpl. lia.
    + apply raw_loop_transaction in H as (body & e & cmds & rest & rows' & -> & Hb & Hen & Hcs & -> & Hl).
      apply grouped_transaction; try done. eapply IH; [|done..]. simpl. rewrite length_app. simpl. lia.
    + apply ok_bind_iff in H as (rows' & Hl & [= <-]).
      constructor; [by intros [? ?]; congruence|done|]. eapply IH; [|done..]. simpl. lia.
  - induction 1 as [|r cmd rs rows Hr Hc _ IH|b body e t cmds rs rows [Hb1 Hb2] Hin He Ht Hcs _ IH]; [done| |].
    + simpl. rewrite Hc. simpl. destruct (is_transaction (stmt r)) eqn:Hx;
        [destruct (is_end deparse (stmt r)) eqn:Hy; [|by destruct Hr]|]; by rewrite IH.
    + simpl. rewrite Ht. simpl. rewrite Hb1, Hb2. apply raw_loop_transaction.
      exists body, e, cmds, rs, rows. done.
Qed.

Lemma raw_loop_each rs : ∀ rows, raw_loop deparse false statement rs None = Ok rows ↔ cuts rs rows.
Proof.
  induction rs as [|r rs IH]; intros rows; simpl.
  - split; [intros [= <-]; constructor|]. by intros ->%Forall2_nil_inv_l.
  - rewrite ok_bind_iff. split.
    + intros (cmd & Hc & (rows' & Hl & [= <-])%ok_bind_iff). constructor; [done|]. by apply IH.
    + intros (cmd & rows' & Hc & Hcs & ->)%Forall2_cons_inv_l. exists cmd. split; [done|].
      apply IH in Hcs. by rewrite Hcs.
Qed.

Lemma foldl_join_position t cmds :
  line (foldl join t cmds) = line t ∧ col (foldl join t cmds) = col t ∧ source t `prefix_of` source (foldl join t cmds).
Proof.
  revert t. induction cmds as [|c cmds IH]; intros t; simpl; [done|].
  destruct (IH (join t c)) as (-> & -> & Hp). repeat split; [done..|].
  etransitivity; [|exact Hp]. simpl. unfold append_cmd. by eexists.
Qed.
End scripts.


(** ** Parameters have the types they are passed with *)

Section typing.
Context {numeric blob : Type} (cv : conv numeric blob).
Abbreviation param := (param numeric blob).

Definition has_type (oid : Z) (d : datum numeric blob) : Prop :=
  match d with
  | DNull => False
  | DBool _ => oid = BOOLOID
  | DNumeric _ => oid = NUMERICOID
  | DText _ => oid = TEXTOID
  | DInt w z => (w, oid) ∈ [(16, INT2OID); (32, INT4OID); (64, INT8OID)] ∧ in_s w z
  | DBlob o _ => oid = o
  end.

(** What PostgreSQL's conversions return *)
Class ConvLaws : Prop := {
  int4_range n z : numeric_int4 cv n = Ok z → in_s 32 z;
  int8_range n z : numeric_int8 cv n = Ok z → in_s 64 z;
  input_typed id s : safe (has_type id) (input_function cv id s);
  numeric_safe n : safe (λ _, True) (numeric_int4 cv n) ∧ safe (λ _, True) (numeric_int8 cv n);
  float_safe id n : safe (λ _, True) (numeric_float cv id n)
}.
Context `{!ConvLaws}.

Definition param_ok (p : param) : Prop := pnull p = false → has_type (ptype p) (pvalue p).

(** As it was made from JSON *)
Definition plain (p : param) : Prop := ∃ v : json numeric, json_param v = Ok p.

Lemma plain_param_ok p : plain p → param_ok p.
Proof. intros [[b|n| |x|] Hv]; simpl in Hv; simplify_eq; by intros ?. Qed.

Lemma json_params_plain (l : list (json numeric)) :
  safe (λ ps, Forall2 (λ v p, json_param v = Ok p) l ps) (json_params (blob := blob) l).
Proof.
  induction l as [|v l IH]; simpl; [constructor|].
  destruct (json_param v) as [p|e|w] eqn:Hv; simpl; [|done|by destruct v].
  eapply safe_bind; [exact IH|]. intros ps Hps. simpl. by constructor.
Qed.

Lemma convert_param_typed v p id :
  json_param v = Ok p → pnull p = false → (∀ b, v = JBool b → id = BOOLOID) →
  safe (has_type id) (convert_param cv p id).
Proof.
  intros Hv Hn Hb. destruct v as [b|n| |x|]; simpl in Hv; simplify_eq; unfold convert_param; simpl.
  - by apply (Hb b).
  - destruct (numeric_safe n) as [H4 H8]. pose proof (int4_range n) as R4. pose proof (int8_range n) as R8.
    destruct (Z.eqb_spec id INT2OID) as [->|]; [|destruct (Z.eqb_spec id INT4OID) as [->|];
      [|destruct (Z.eqb_spec id INT8OID) as [->|]]].
    + destruct (numeric_int4 cv n); simpl; [|done..]. split; [left|by apply wrap_s_in].
    + destruct (numeric_int4 cv n); simpl; [|done..]. split; [right; left|by apply R4].
    + destruct (numeric_int8 cv n); simpl; [|done..]. split; [right; right; left|by apply R8].
    + destruct (_ || _); [|done]. pose proof (float_safe id n). by destruct (numeric_float cv id n).
  - destruct (Z.eqb_spec id TEXTOID) as [->|]; simpl; [done|].
    pose proof (input_typed id x) as Ht. by destruct (input_function cv id x).
Qed.

Lemma types_typed ts : ∀ l ps,
  Forall2 (λ v p, json_param v = Ok p) l ps → (length ts ≤ length l)%nat →
  (∀ i b id, l !! i = Some (JBool b) → ts !! i = Some (Some id) → id = BOOLOID) →
  safe (λ qs, Forall param_ok qs ∧ length qs = length l ∧
          ∀ i id, ts !! i = Some (Some id) → ptype <$> qs !! i = Some id)
    (extract_information_json_types cv ps ts).
Proof.
  induction ts as [|[id|] ts IH]; intros l ps Hl Hlen Hb.
  - simpl. split; [|split; [by symmetry; eapply Forall2_length|done]].
    clear -Hl. induction Hl; constructor; [|done]. apply plain_param_ok. by eexists.
  - destruct Hl as [|v p l ps Hv Hl]; simpl in Hlen; [lia|].
    cbn [extract_information_json_types]. eapply (safe_bind (λ d, pnull p = false → has_type id d)).
    + destruct (pnull p) eqn:Hn; [done|]. eapply (safe_mono (has_type id)); [|done].
      eapply convert_param_typed; [done..|]. intros b ->. by apply (Hb O b id).
    + intros d Hd. eapply safe_bind; [apply (IH l ps Hl); [lia|]|].
      * intros i b id' H1 H2. by apply (Hb (S i) b id').
      * intros qs (Hq & Hlq & Ht). simpl. split; [by constructor|]. split; [lia|].
        intros [|i] id' Hi; simpl in *; [by simplify_eq|]. by apply Ht.
  - destruct Hl as [|v p l ps Hv Hl]; simpl in Hlen; [lia|].
    cbn [extract_information_json_types]. eapply safe_bind; [apply (IH l ps Hl); [lia|]|].
    + intros i b id' H1 H2. by apply (Hb (S i) b id').
    + intros qs (Hq & Hlq & Ht). simpl. split; [constructor; [|done]; apply plain_param_ok; by exists v|].
      split; [lia|]. intros [|i] id' Hi; simpl in *; [done|]. by apply Ht.
Qed.

(** C26. A statement is executed with parameters of the types that are passed with them,
    those asked for where a type is given, as long as no more types than
    parameters are given and booleans are asked for as booleans; everything else
    is an error that is reported. *)
Theorem parameters_typed j l ts :
  json_elements j = Ok l → (length ts ≤ length l)%nat →
  (∀ i b id, l !! i = Some (JBool b) → ts !! i = Some (Some id) → id = BOOLOID) →
  safe (λ ps, Forall param_ok ps ∧ length ps = length l ∧
          ∀ i id, ts !! i = Some (Some id) → ptype <$> ps !! i = Some id)
    (check_parameters cv (Some j) (Some ts)).
Proof.
  intros Hj Hlen Hb. unfold check_parameters, extract_information_json_parameters. rewrite Hj. simpl.
  eapply safe_bind; [apply json_params_plain|]. intros ps Hps. by apply types_typed.
Qed.
End typing.

(** A boolean is not converted: asked for as a text, it is passed as one, and its value
    taken for an address. *)
Lemma bool_parameter_mistyped {numeric blob} (cv : conv numeric blob) :
  check_parameters cv (Some (JArray [JBool true])) (Some [Some TEXTOID]) =
  Ok [Param TEXTOID false (DBool true)].
Proof. done. Qed.

(** More types than parameters: the arrays are read and written beyond their ends. *)
Lemma types_beyond_parameters {numeric blob} (cv : conv numeric blob) id :
  check_parameters cv (Some (JArray [])) (Some [Some id]) = Undefined "beyond the parameters".
Proof. done. Qed.

(** A number asked for as a number is refused. *)
Lemma numeric_as_numeric {numeric blob} (cv : conv numeric blob) n :
  check_parameters cv (Some (JArray [JNumeric n])) (Some [Some NUMERICOID]) = raise "can't convert numeric to type".
Proof. done. Qed.

(** A number that does not fit into two bytes is cut off. *)
Lemma smallint_parameter_wraps {numeric blob} (cv : conv numeric blob) n z :
  numeric_int4 cv n = Ok z →
  check_parameters cv (Some (JArray [JNumeric n])) (Some [Some INT2OID]) =
  Ok [Param INT2OID false (DInt 16 (wrap_s 16 z))].
Proof. intros Hz. unfold check_parameters. simpl. unfold convert_param. simpl. by rewrite Hz. Qed.

(** ** Properties of statements *)

Definition succeeds {A} (r : result A) : bool := match r with Ok _ => true | _ => false end.

(** [post_parse_analyze_hook] is what it was before, whatever the analysis ran into, and
    a list of statements is valid when none has parameters and the analysis of
    all of them, without the hook, succeeds. *)
Theorem is_valid_restores_hook analyze stmts hook :
  (∀ n h, (analyze n h).2 = h) → (∀ n h w, (analyze n h).1 ≠ Undefined w) →
  omni_sql_is_valid analyze stmts hook =
  (Ok (negb (omni_sql_is_parameterized stmts) && forallb (λ s, succeeds (analyze (stmt s) None).1) stmts),
   hook).
Proof.
  intros Hh Hu. unfold omni_sql_is_valid. destruct (omni_sql_is_parameterized stmts); [done|].
  assert (Ha : analyze_all analyze stmts None =
    (Ok (forallb (λ s, succeeds (analyze (stmt s) None).1) stmts), None)).
  { induction stmts as [|s stmts IH]; simpl; [done|].
    specialize (Hh (stmt s) None). specialize (Hu (stmt s) None).
    destruct (analyze (stmt s) None) as [[[]|err|w] h']; simpl in *; subst; [by rewrite IH|done|by destruct (Hu w)]. }
  cbv [mbind M_bind get_st put_st mret M_ret]. by rewrite Ha.
Qed.

(** Where the statement has a WITH clause already, its RECURSIVE flag is left as it
    is. *)
Lemma recursive_cte_not_recursive t ctes fs loc len name c prepend :
  ∃ s, omni_sql_add_cte [MkRawStmt (Stmt t (Some (false, ctes)) fs) loc len] name [c] true prepend = Ok [s] ∧
       get_with (stmt s) = Some (Some (false, if prepend then (name, stmt c) :: ctes else ctes ++ [(name, stmt c)])).
Proof. eexists. split; reflexivity. Qed.

(** Statements return rows unless they are of the kinds that do so only with RETURNING;
    MERGE is taken for one that never does. *)
Lemma merge_not_returning w fs loc len :
  omni_sql_is_returning_statement [MkRawStmt (Stmt T_MergeStmt w fs) loc len] = false.
Proof. done. Qed.

Lemma is_replace_all stmts :
  omni_sql_is_replace_statement stmts = true ↔
  stmts ≠ [] ∧ Forall (λ s, ∃ t fs, stmt s = Utility t true fs ∧ t ∈ replaceable) stmts.
Proof.
  assert (H : ∀ l b, foldl (λ all s,
        match stmt s with
        | Utility t r _ => if bool_decide (t ∈ replaceable) then all && r else false
        | _ => false
        end) b l = true ↔ b = true ∧ Forall (λ s, ∃ t fs, stmt s = Utility t true fs ∧ t ∈ replaceable) l).
  { induction l as [|s l IH]; intros b; cbn [foldl]; [by split; [|intros []]|]. rewrite IH, list.Forall_cons.
    destruct (stmt s) as [| | |t r fs|]; try (split; [by intros []|intros (_ & (?&?&?&?) & _); congruence]).
    case_bool_decide as Ht; [rewrite andb_true_iff; naive_solver|].
    split; [by intros []|]. intros (_ & (?&?&?&?) & _). congruence. }
  destruct stmts as [|s l]; [split; [done|by intros []]|]. unfold omni_sql_is_replace_statement.
  rewrite H. naive_solver.
Qed.

Module Demo.

(** A parser and a deparser for one script *)
Definition script : string := "BEGIN;  SELECT 1; COMMIT".

Definition select1 : node := Stmt T_SelectStmt None [Node "targetList" [Node "A_Const 1" []]].
Definition txn (kind : string) : node := Utility "TransactionStmt" false [Node kind []].

Definition stmts : list RawStmt :=
  [MkRawStmt (txn "BEGIN") 0 5; MkRawStmt select1 6 10; MkRawStmt (txn "COMMIT") 17 0].

Definition parse (s : string) : result (list RawStmt) :=
  if bool_decide (s = script) then Ok stmts else raise "syntax error".

Definition deparse (ns : list node) : string :=
  match ns with [Utility _ _ [Node k _]] => k | _ => "?" end.


(** Numbers are integers here, and texts are read as themselves. *)
Definition demo : conv Z string := {|
  numeric_int4 n := if bool_decide (in_s 32 n) then Ok n else raise "integer out of range";
  numeric_int8 n := if bool_decide (in_s 64 n) then Ok n else raise "bigint out of range";
  numeric_float id n := Ok ""%string;
  input_function id s := Ok (DBlob id s)
|}.

#[export] Instance demo_laws : ConvLaws demo.
Proof.
  split; simpl; try done.
  - intros n z. case_bool_decide; [|done]. by intros [= <-].
  - intros n z. case_bool_decide; [|done]. by intros [= <-].
  - intros n. by repeat case_bool_decide.
Qed.

Lemma parameters_typed_witness :
  check_parameters demo (Some (JArray [JNumeric 7; JString "x"; JBool true])) (Some [Some INT4OID; None; Some BOOLOID]) =
    Ok [Param INT4OID false (DInt 32 7); Param TEXTOID false (DText "x"); Param BOOLOID false (DBool true)] ∧
  safe (λ ps, Forall param_ok ps ∧ length ps = 3%nat ∧
          ∀ i id, [Some INT4OID; None; Some BOOLOID] !! i = Some (Some id) → ptype <$> ps !! i = Some id)
    (check_parameters demo (Some (JArray [JNumeric 7; JString "x"; JBool true])) (Some [Some INT4OID; None; Some BOOLOID])).
Proof.
  split; [vm_compute; reflexivity|].
  apply (parameters_typed demo (JArray [JNumeric 7; JString "x"; JBool true]) [JNumeric 7; JString "x"; JBool true]
           [Some INT4OID; None; Some BOOLOID] eq_refl); [simpl; lia|].
  intros [|[|[|[]]]] b id H1 H2; simpl in *; congruence.
Defined.

(** Savepoints are not known: in a transaction they are taken for another one. *)
Lemma savepoint_refused loc len :
  raw_loop deparse true (list_ascii_of_string script)
    [MkRawStmt (txn "BEGIN") 0 5; MkRawStmt (txn "SAVEPOINT a") 6 10; MkRawStmt (txn "COMMIT") loc len] None =
  raise "nested transactions are not supported".
Proof. vm_compute. reflexivity. Qed.

Lemma is_valid_restores_hook_witness :
  omni_sql_is_valid (λ n h, (Ok (), h)) stmts (Some 3) = (Ok true, Some 3).
Proof.
  rewrite (is_valid_restores_hook (λ n h, (Ok (), h)) stmts (Some 3)); [reflexivity|done|done].
Defined.
End Demo.
End Sql.
