(* ===== verification/Cascading.v ===== *)
(** * Cascading queries: [omni_httpd]

    omni_httpd/cascading_query.c: an aggregate that makes one statement of many
    queries.  The queries become common table expressions of the statement, a
    query's own common table expressions are moved in front of it under new
    names, and the statement selects from each query unless the one before it
    has rows.

    What statements mean is given by evaluating parse trees over relations; the
    meaning of single clauses is a parameter, with the laws of the few clauses
    that are built here. *)

From Stdlib Require Import ZArith Lia String Ascii.
From stdpp Require Import base tactics list gmap strings numbers.
From S2P Require Import Prelude Sql.

Local Open Scope Z_scope.

Module Cascading.
Import Sql.

(** [tolower] in the C locale, which [strncasecmp] compares with *)
Definition tolower (c : ascii) : ascii :=
  let n := Ascii.N_of_ascii c in
  if ((65 <=? n) && (n <=? 90))%N then Ascii.ascii_of_N (n + 32) else c.

Fixpoint lower (s : string) : string :=
  match s with EmptyString => EmptyString | String c s' => String (tolower c) (lower s') end.

Definition same_name (relname from : string) : bool :=
  (String.length relname =? String.length from)%nat && bool_decide (lower relname = lower from).

(** [renaming_walker] *)
Fixpoint renaming_walker (from to : string) (n : node) : node :=
  match n with
  | RangeVar s r a => if same_name r from then RangeVar s to (Some from) else n
  | ParamRef k => n
  | Stmt t w fs =>
      Stmt t (match w with
              | Some (rc, ctes) => Some (rc, map (λ c, (c.1, renaming_walker from to c.2)) ctes)
              | None => None
              end) (map (renaming_walker from to) fs)
  | Utility t r fs => Utility t r (map (renaming_walker from to) fs)
  | Node t cs => Node t (map (renaming_walker from to) cs)
  end.

(** The new name of a common table expression *)
Definition prefixed (name ctename : string) : string := "__omni_httpd_" +:+ name +:+ "_" +:+ ctename.

Definition set_ctename (i : nat) (to : string) (n : node) : node :=
  match n with
  | Stmt t (Some (rc, ctes)) fs => Stmt t (Some (rc, alter (λ c, (to, c.2)) i ctes)) fs
  | _ => n
  end.

(** The loop over the common table expressions of a query, from the [i]-th on: each gets
    its new name, and the whole statement is walked. *)
Fixpoint rename_ctes (name : string) (i left : nat) (n : node) : node :=
  match left with
  | O => n
  | S left' =>
      match get_with n with
      | Some (Some (_, ctes)) =>
          match ctes !! i with
          | Some (from, _) =>
              let to := prefixed name from in
              rename_ctes name (S i) left' (renaming_walker from to (set_ctename i to n))
          | None => n
          end
      | _ => n
      end
  end.

(** [SELECT * FROM name], with a condition *)
Definition star : node := Node "ResTarget" [Node "ColumnRef" [Node "A_Star" []]].

Definition select_fields (targetList fromClause whereClause : list node) : list node :=
  [Node "targetList" targetList; Node "fromClause" fromClause; Node "whereClause" whereClause].

Definition select (name : string) (whereClause : list node) : node :=
  Stmt T_SelectStmt None (select_fields [star] [RangeVar None name None] whereClause).

(** [NOT EXISTS (SELECT FROM previous_name)] *)
Definition not_exists (previous_name : string) : node :=
  Node "BoolExpr NOT"
    [Node "SubLink EXISTS" [Stmt T_SelectStmt None (select_fields [] [RangeVar None previous_name None] [])]].

Section operations.
Context (parse : string → result (list RawStmt)) (deparse : list node → string).

(** The statement so far with a further query: the first one, or in a union with what
    is there, whose WITH clause moves to the union *)
Definition extend (original : RawStmt) (initialized : bool) (name : string) : result RawStmt :=
  if negb initialized then Ok (set_stmt original (select name [])) else
  match stmt original with
  | Stmt T_SelectStmt (Some (rc, ctes)) fs =>
      match list.last ctes with
      | Some (previous_name, _) =>
          Ok (set_stmt original (Stmt T_SelectStmt (Some (rc, ctes))
                [Node "SETOP_UNION ALL" [Stmt T_SelectStmt None fs; select name [not_exists previous_name]]]))
      | None => Undefined "last of an empty list"
      end
  | Stmt T_SelectStmt None _ => Undefined "no WITH clause"
  | _ => Undefined "not a SelectStmt"
  end.

(** The common table expressions of a query are moved to the statement. *)
Definition move_ctes (name : string) (query original : node) : node * node :=
  match get_with query with
  | Some (Some (_, (_ :: _) as ctes)) =>
      let query := rename_ctes name 0 (length ctes) query in
      match get_with query, get_with original with
      | Some (Some (_, ctes)), Some (Some (rc, cs)) => (put_with None query, put_with (Some (rc, cs ++ ctes)) original)
      | Some (Some (_, ctes)), _ => (put_with None query, put_with (Some (false, ctes)) original)
      | _, _ => (query, original)
      end
  | _ => (query, original)
  end.

Definition cascading_query_reduce (aggregate : bool) (state : option (list RawStmt)) (name query : option string) :
  result (list RawStmt) :=
  if negb aggregate then raise "must be called as a regular aggregate" else
  name ← not_null "name can't be NULL" name;
  query ← not_null "query can't be NULL" query;
  stmts ← (match state with None => parse "SELECT" | Some s => Ok s end);
  match stmts with
  | [] => Undefined "first of an empty list"
  | original :: others =>
      original ← extend original (bool_decide (is_Some state)) name;
      parsed_query ← parse query;
      match parsed_query with
      | [] => Undefined "first of an empty list"
      | q :: more =>
          let '(query, acc) := move_ctes name (stmt q) (stmt original) in
          omni_sql_add_cte (set_stmt original acc :: others) name (set_stmt q query :: more) false false
      end
  end.

Definition cascading_query_final (state : option (list RawStmt)) : result string :=
  stmts ← (match state with None => parse "SELECT" | Some s => Ok s end);
  Ok (deparse (stmt <$> stmts)).

(** The aggregate over the rows of a group *)
Fixpoint reduce_all (state : option (list RawStmt)) (l : list (string * string)) : result (option (list RawStmt)) :=
  match l with
  | [] => Ok state
  | (name, query) :: l' =>
      s ← cascading_query_reduce true state (Some name) (Some query);
      reduce_all (Some s) l'
  end.
End operations.

(** ** What statements mean *)

Section meaning.
Context {row : Type}.

(** A relation in a FROM clause with the name its columns are referred to by, the rows of
    a statement, a parameter, or what is made of the parts of a node *)
Inductive value :=
  | VRel (label : string) (r : list row)
  | VRows (r : list row)
  | VParam (n : Z)
  | VNode (tag : string) (l : list value).

Record sql := MkSql {
  tables : option string → string → list row;       (* schema, name *)
  stmt_sem : stmt_tag → list value → list row;
  recursive_sem : list (string * (gmap string (list row) → list row)) →
                  gmap string (list row) → gmap string (list row)
}.

Context (db : sql).

Definition rows_of (v : value) : list row := match v with VRel _ r | VRows r => r | _ => [] end.

(** The common table expressions in scope hide tables of their names; those of a clause
    that is not RECURSIVE see the ones before them. *)
Fixpoint eval (env : gmap string (list row)) (n : node) : value :=
  match n with
  | RangeVar None r a => VRel (default r a) (default (tables db None r) (env !! r))
  | RangeVar (Some s) r a => VRel (default r a) (tables db (Some s) r)
  | ParamRef k => VParam k
  | Stmt t w fs =>
      let env' :=
        match w with
        | None => env
        | Some (false, ctes) => foldl (λ env c, <[c.1 := rows_of (eval env c.2)]> env) env ctes
        | Some (true, ctes) => recursive_sem db (map (λ c, (c.1, λ e, rows_of (eval e c.2))) ctes) env
        end in
      VRows (stmt_sem db t (map (eval env') fs))
  | Utility t _ fs => VNode t (map (eval env) fs)
  | Node t cs => VNode t (map (eval env) cs)
  end.

Definition bind (env : gmap string (list row)) (ctes : list (string * node)) : gmap string (list row) :=
  foldl (λ env c, <[c.1 := rows_of (eval env c.2)]> env) env ctes.

(** What PostgreSQL does with the clauses that are put together here *)
Definition vstar : value := VNode "ResTarget" [VNode "ColumnRef" [VNode "A_Star" []]].

Class SqlLaws : Prop := {
  select_star l r :
    stmt_sem db T_SelectStmt [VNode "targetList" [vstar]; VNode "fromClause" [VRel l r]; VNode "whereClause" []] = r;
  select_unless l r p :
    stmt_sem db T_SelectStmt
      [VNode "targetList" [vstar]; VNode "fromClause" [VRel l r];
       VNode "whereClause" [VNode "BoolExpr NOT" [VNode "SubLink EXISTS" [VRows p]]]] =
    match p with [] => r | _ => [] end;
  select_nothing l r :
    length (stmt_sem db T_SelectStmt [VNode "targetList" []; VNode "fromClause" [VRel l r]; VNode "whereClause" []]) =
    length r;
  union_all l r : stmt_sem db T_SelectStmt [VNode "SETOP_UNION ALL" [VRows l; VRows r]] ≡ₚ l ++ r
}.

(** *** References and renaming *)

(** The names a statement refers to *)
Fixpoint refs (n : node) : list string :=
  match n with
  | RangeVar _ r _ => [r]
  | ParamRef _ => []
  | Stmt _ w fs =>
      match w with Some (_, ctes) => concat (map (λ c, refs c.2) ctes) | None => [] end ++ concat (map refs fs)
  | Utility _ _ fs => concat (map refs fs)
  | Node _ cs => concat (map refs cs)
  end.

(** References that the walker takes for one to [cs] are one, and are neither qualified
    nor have an alias; no WITH clause inside is RECURSIVE or binds one of the
    names [bad]. *)
Fixpoint renamable (cs bad : list string) (n : node) : bool :=
  match n with
  | RangeVar s r a =>
      forallb (λ c, negb (same_name r c) || bool_decide (s = None ∧ r = c ∧ a = None)) cs
  | ParamRef _ => true
  | Stmt _ w fs =>
      match w with
      | Some (rc, ctes) =>
          negb rc && forallb (λ c, negb (bool_decide (c.1 ∈ bad)) && renamable cs bad c.2) ctes
      | None => true
      end && forallb (renamable cs bad) fs
  | Utility _ _ fs => forallb (renamable cs bad) fs
  | Node _ l => forallb (renamable cs bad) l
  end.

(** All references renamed at once, keeping the name columns are referred to by *)
Fixpoint ren (m : gmap string string) (n : node) : node :=
  match n with
  | RangeVar s r a => match m !! r with Some t => RangeVar s t (Some r) | None => n end
  | ParamRef k => n
  | Stmt t w fs =>
      Stmt t (match w with
              | Some (rc, ctes) => Some (rc, map (λ c, (c.1, ren m c.2)) ctes)
              | None => None
              end) (map (ren m) fs)
  | Utility t r fs => Utility t r (map (ren m) fs)
  | Node t cs => Node t (map (ren m) cs)
  end.

Lemma same_name_refl r : same_name r r = true.
Proof. unfold same_name. rewrite Nat.eqb_refl. by rewrite bool_decide_eq_true_2. Qed.

Lemma map_ext_Forall2 {A B} (f g : A → B) l : Forall (λ x, f x = g x) l → map f l = map g l.
Proof. induction 1; simpl; congruence. Qed.

Lemma forallb_Forall {A} (f : A → bool) l : forallb f l = true ↔ Forall (λ x, f x = true) l.
Proof. rewrite forallb_forall, List.Forall_forall. done. Qed.

Lemma Forall_and_use {A} (P Q : A → Prop) (b : A → bool) l :
  Forall P l → forallb b l = true → (∀ x, P x → b x = true → Q x) → Forall Q l.
Proof.
  intros HP Hb%forallb_Forall H. induction HP; inversion Hb; subst; constructor; auto.
Qed.

(** Walking adds one name to a renaming. *)
Lemma walker_ren c t m cs bad n :
  c ∈ cs → m !! c = None → (∀ x y, m !! x = Some y → same_name y c = false) →
  renamable cs bad n = true → renaming_walker c t (ren m n) = ren (<[c := t]> m) n.
Proof.
  intros Hc Hm Ht. induction n as [s r a|k|tg w fs Hw Hfs|tg r fs Hfs|tg l Hl] using node_tree_ind; simpl; intros Hr.
  - rewrite forallb_Forall, list.Forall_forall in Hr. specialize (Hr c Hc).
    destruct (m !! r) as [y|] eqn:Hmr; simpl.
    + rewrite (Ht r y Hmr). rewrite lookup_insert_ne by congruence. by rewrite Hmr.
    + destruct (same_name r c) eqn:Hs; simpl in Hr.
      * apply bool_decide_eq_true in Hr as (-> & -> & ->). by rewrite lookup_insert_eq.
      * rewrite lookup_insert_ne; [by rewrite Hmr|]. intros ->. by rewrite same_name_refl in Hs.
  - done.
  - apply andb_true_iff in Hr as [Hwr Hfr].
    assert (Hf : map (renaming_walker c t) (map (ren m) fs) = map (ren (<[c := t]> m)) fs).
    { rewrite map_map. apply map_ext_Forall2. eapply Forall_and_use; [exact Hfs|exact Hfr|]. auto. }
    rewrite Hf. destruct w as [[rc ctes]|]; [|done]. do 3 f_equal. rewrite map_map.
    apply andb_true_iff in Hwr as [_ Hwr]. apply map_ext_Forall2.
    eapply Forall_and_use; [exact Hw|exact Hwr|]. intros x Hx [_ Hb]%andb_true_iff. simpl. f_equal. auto.
  - f_equal. rewrite map_map. apply map_ext_Forall2. eapply Forall_and_use; [exact Hfs|exact Hr|]. auto.
  - f_equal. rewrite map_map. apply map_ext_Forall2. eapply Forall_and_use; [exact Hl|exact Hr|]. auto.
Qed.

Lemma ren_empty n : ren ∅ n = n.
Proof.
  induction n as [s r a|k|tg w fs Hw Hfs|tg r fs Hfs|tg l Hl] using node_tree_ind; simpl.
  - by rewrite lookup_empty.
  - done.
  - f_equal.
    + destruct w as [[rc ctes]|]; [|done]. do 2 f_equal. rewrite <- (map_id ctes) at 2.
      apply map_ext_Forall2. eapply Forall_impl; [|exact Hw]. intros [c q]. simpl. congruence.
    + rewrite <- (map_id fs) at 2. by apply map_ext_Forall2.
  - f_equal. rewrite <- (map_id fs) at 2. by apply map_ext_Forall2.
  - f_equal. rewrite <- (map_id l) at 2. by apply map_ext_Forall2.
Qed.

(** *** The meaning of a renamed statement *)

(** [m] leads from the names in [e] to those in [E]. *)
Definition agree (m : gmap string string) (e E : gmap string (list row)) (r : string) : Prop :=
  match m !! r with Some t => is_Some (e !! r) ∧ E !! t = e !! r | None => E !! r = e !! r end.

Lemma env_agree_insert m (bad : list string) e E r k v :
  (∀ c t, m !! c = Some t → c ∈ bad ∧ t ∈ bad) → k ∉ bad →
  agree m e E r → agree m (<[k := v]> e) (<[k := v]> E) r.
Proof.
  intros Hm Hk. unfold agree. destruct (m !! r) as [t|] eqn:Hr.
  - destruct (Hm r t Hr). rewrite !lookup_insert_ne by (intros ->; done). done.
  - destruct (decide (k = r)) as [->|]; [by rewrite !lookup_insert_eq|by rewrite !lookup_insert_ne by done].
Qed.

Lemma Forall_concat_map {A B} (P : B → Prop) (f : A → list B) l :
  Forall P (concat (map f l)) ↔ Forall (λ x, Forall P (f x)) l.
Proof.
  induction l as [|x l IH]; simpl; [by split; constructor|]. rewrite list.Forall_app, IH, list.Forall_cons. done.
Qed.

Lemma bind_agree m (bad : list string) ctes : ∀ e E,
  (∀ c t, m !! c = Some t → c ∈ bad ∧ t ∈ bad) →
  Forall (λ c : string * node, ∀ e E, Forall (agree m e E) (refs c.2) → eval E (ren m c.2) = eval e c.2) ctes →
  Forall (λ c : string * node, c.1 ∉ bad) ctes →
  Forall (λ c : string * node, Forall (agree m e E) (refs c.2)) ctes →
  ∀ r, agree m e E r → agree m (bind e ctes) (bind E (map (λ c, (c.1, ren m c.2)) ctes)) r.
Proof.
  induction ctes as [|[k q] ctes IH]; intros e E Hm Hev Hbad Hag r Hr; [done|].
  apply Forall_cons_1 in Hev as [Hq Hev]. apply Forall_cons_1 in Hbad as [Hk Hbad].
  apply Forall_cons_1 in Hag as [Hqa Hag]. simpl in *. rewrite (Hq e E Hqa).
  apply (IH (<[k := rows_of (eval e q)]> e) (<[k := rows_of (eval e q)]> E)); try done.
  - eapply Forall_impl; [|exact Hag]. intros c Hc. simpl in *. eapply Forall_impl; [|exact Hc].
    intros x. by apply (env_agree_insert m bad).
  - by apply (env_agree_insert m bad).
Qed.

Lemma eval_ren m cs bad n :
  (∀ c t, m !! c = Some t → c ∈ cs ∧ c ∈ bad ∧ t ∈ bad) →
  renamable cs bad n = true →
  ∀ e E, Forall (agree m e E) (refs n) → eval E (ren m n) = eval e n.
Proof.
  intros Hm. assert (Hm' : ∀ c t, m !! c = Some t → c ∈ bad ∧ t ∈ bad) by naive_solver.
  induction n as [s r a|k|tg w fs Hw Hfs|tg r fs Hfs|tg l Hl] using node_tree_ind; intros Hr e E Ha.
  - apply Forall_cons_1 in Ha as [Ha _]. unfold agree in Ha. simpl in *. destruct (m !! r) as [t|] eqn:Hmr; simpl.
    + destruct (Hm r t Hmr) as (Hc & _). rewrite forallb_Forall, list.Forall_forall in Hr.
      specialize (Hr r Hc). rewrite same_name_refl in Hr. simpl in Hr.
      apply bool_decide_eq_true in Hr as (-> & _ & ->). destruct Ha as [[x Hx] ->]. by rewrite Hx.
    + destruct s; [done|]. by rewrite Ha.
  - done.
  - simpl in Hr. apply andb_true_iff in Hr as [Hwr Hfr].
    assert (Hf : ∀ e E, Forall (agree m e E) (concat (map refs fs)) → map (eval E) (map (ren m) fs) = map (eval e) fs).
    { intros e' E' Ha'. rewrite Forall_concat_map in Ha'. rewrite map_map. apply map_ext_Forall2.
      apply list.Forall_forall. intros x Hx. rewrite forallb_Forall, list.Forall_forall in Hfr.
      rewrite list.Forall_forall in Hfs, Ha'. auto. }
    simpl in Ha. apply list.Forall_app in Ha as [Haw Haf]. destruct w as [[rc ctes]|]; simpl; [|by rewrite (Hf e E Haf)].
    apply andb_true_iff in Hwr as [Hrc Hwr]. destruct rc; [done|]. rewrite Forall_concat_map in Haw.
    assert (Hev : Forall (λ c : string * node, ∀ e E, Forall (agree m e E) (refs c.2) → eval E (ren m c.2) = eval e c.2) ctes).
    { eapply Forall_and_use; [exact Hw|exact Hwr|]. intros x Hx [_ Hb]%andb_true_iff. auto. }
    assert (Hk : Forall (λ c : string * node, c.1 ∉ bad) ctes).
    { eapply Forall_and_use; [exact Hw|exact Hwr|]. intros x _ [Hb _]%andb_true_iff.
      by apply negb_true_iff, bool_decide_eq_false in Hb. }
    change (VRows (stmt_sem db tg (map (eval (bind E (map (λ c, (c.1, ren m c.2)) ctes))) (map (ren m) fs))) =
            VRows (stmt_sem db tg (map (eval (bind e ctes)) fs))).
    rewrite (Hf (bind e ctes) (bind E (map (λ c, (c.1, ren m c.2)) ctes))); [done|].
    eapply Forall_impl; [|exact Haf]. intros r Hr. by apply (bind_agree m bad).
  - simpl in *. f_equal. rewrite Forall_concat_map in Ha. rewrite map_map. apply map_ext_Forall2.
    apply list.Forall_forall. intros x Hx. rewrite forallb_Forall, list.Forall_forall in Hr.
    rewrite list.Forall_forall in Hfs, Ha. auto.
  - simpl in *. f_equal. rewrite Forall_concat_map in Ha. rewrite map_map. apply map_ext_Forall2.
    apply list.Forall_forall. intros x Hx. rewrite forallb_Forall, list.Forall_forall in Hr.
    rewrite list.Forall_forall in Hl, Ha. auto.
Qed.

(** The meaning of a statement depends on what it refers to. *)
Lemma eval_ext n e E :
  renamable [] [] n = true → Forall (λ r, E !! r = e !! r) (refs n) → eval E n = eval e n.
Proof.
  intros Hr Ha. rewrite <- (ren_empty n) at 1. apply (eval_ren ∅ [] []); [|done|].
  - intros c t. by rewrite lookup_empty.
  - eapply Forall_impl; [|exact Ha]. intros r Hx. unfold agree. by rewrite lookup_empty.
Qed.

(** *** Common table expressions moved to another clause *)

#[local] Instance prefixed_inj name : Inj (=) (=) (prefixed name).
Proof. intros c c' H. unfold prefixed in H. by repeat apply (inj _) in H. Qed.

Definition names_map (name : string) (l : list (string * node)) : gmap string string :=
  foldl (λ m c, <[c.1 := prefixed name c.1]> m) ∅ l.

Lemma names_map_snoc name l c : names_map name (l ++ [c]) = <[c.1 := prefixed name c.1]> (names_map name l).
Proof. unfold names_map. by rewrite foldl_app. Qed.

Lemma names_map_lookup name l x y : names_map name l !! x = Some y ↔ x ∈ l.*1 ∧ y = prefixed name x.
Proof.
  induction l as [|c l IH] using rev_ind; [split; [done|]; intros [H _]; by apply elem_of_nil in H|].
  rewrite names_map_snoc, fmap_app, elem_of_app. change ([c].*1) with [c.1]. rewrite list_elem_of_singleton.
  destruct (decide (c.1 = x)) as [<-|Hx].
  - rewrite lookup_insert_eq. naive_solver.
  - rewrite lookup_insert_ne by done. rewrite IH. naive_solver.
Qed.

Definition moved (name : string) (m : gmap string string) (c : string * node) : string * node :=
  (prefixed name c.1, ren m c.2).

Lemma alter_middle {A} (f : A → A) l1 x l2 : alter f (length l1) (l1 ++ x :: l2) = l1 ++ f x :: l2.
Proof. induction l1; simpl; [done|]. cbn. f_equal. done. Qed.

(** The loop over the names renames them all at once. *)
Lemma rename_ctes_ren name cs bad t rc fs l2 : ∀ l1,
  NoDup ((l1 ++ l2).*1) → (∀ c, c ∈ (l1 ++ l2).*1 → c ∈ cs) →
  (∀ c c', c ∈ cs → c' ∈ cs → same_name (prefixed name c) c' = false) →
  Forall (λ c : string * node, renamable cs bad c.2 = true) (l1 ++ l2) → forallb (renamable cs bad) fs = true →
  let m := names_map name l1 in
  rename_ctes name (length l1) (length l2)
    (Stmt t (Some (rc, map (moved name m) l1 ++ map (λ c, (c.1, ren m c.2)) l2)) (map (ren m) fs)) =
  let m' := names_map name (l1 ++ l2) in
  Stmt t (Some (rc, map (moved name m') (l1 ++ l2))) (map (ren m') fs).
Proof.
  induction l2 as [|[c q] l2 IH]; intros l1 Hnd Hcs Hpre Hren Hfs m; simpl.
  { by rewrite !app_nil_r. }
  assert (Hlen : length (map (moved name m) l1) = length l1) by apply length_map.
  rewrite <- Hlen at 1. rewrite list_lookup_middle by done. simpl.
  rewrite <- Hlen at 2. rewrite alter_middle. cbn [fst snd].
  assert (Hc : c ∈ cs) by (apply Hcs; rewrite fmap_app; apply elem_of_app; right; left).
  assert (Hm : m !! c = None).
  { destruct (m !! c) as [y|] eqn:Hy; [|done]. apply names_map_lookup in Hy as [Hin _].
    rewrite fmap_app in Hnd. apply list.NoDup_app in Hnd as (_ & Hd & _). destruct (Hd c Hin). left. }
  assert (Ht : ∀ x y, m !! x = Some y → same_name y c = false).
  { intros x y [Hx ->]%names_map_lookup. apply Hpre; [|done]. apply Hcs. rewrite fmap_app. apply elem_of_app. by left. }
  assert (Hw : ∀ n, renamable cs bad n = true →
    renaming_walker c (prefixed name c) (ren m n) = ren (<[c := prefixed name c]> m) n).
  { intros n. by apply walker_ren. }
  specialize (IH (l1 ++ [(c, q)])). rewrite <- !app_assoc, length_app, names_map_snoc in IH.
  simpl in IH. rewrite Nat.add_1_r in IH.
  rewrite <- IH; [|done..]. f_equal. fold m.
  apply list.Forall_app in Hren as [Hl1 Hl2]. apply Forall_cons_1 in Hl2 as [Hq Hl2]. f_equal.
  - do 2 f_equal. rewrite map_app, !map_map. simpl. rewrite map_app, <- app_assoc. f_equal.
    + apply map_ext_Forall2. eapply Forall_impl; [|exact Hl1]. intros x Hx. unfold moved. simpl. by rewrite Hw.
    + simpl. unfold moved at 1. simpl. rewrite Hw by done. f_equal. rewrite map_map. apply map_ext_Forall2.
      eapply Forall_impl; [|exact Hl2]. intros x Hx. simpl. by rewrite Hw.
  - rewrite map_map. apply map_ext_Forall2. rewrite forallb_Forall in Hfs. eapply Forall_impl; [|exact Hfs].
    intros x Hx. simpl. by rewrite Hw.
Qed.

(** No reference to a name of the clause from before it is defined *)
Fixpoint no_forward (l : list (string * node)) : bool :=
  match l with
  | [] => true
  | (c, q) :: l' => forallb (λ r, negb (bool_decide (r ∈ c :: l'.*1))) (refs q) && no_forward l'
  end.

Lemma bind_moved name cs bad m (P : string → Prop) l2 : ∀ l1 e E,
  cs = (l1 ++ l2).*1 → NoDup cs → m = names_map name (l1 ++ l2) →
  (∀ c, c ∈ cs → c ∈ bad ∧ prefixed name c ∈ bad) →
  Forall (λ c : string * node, renamable cs bad c.2 = true) l2 → no_forward l2 = true →
  Forall (λ c : string * node, Forall P (refs c.2)) l2 → (∀ r c, P r → c ∈ cs → r ≠ prefixed name c) →
  (∀ r, r ∈ l1.*1 → is_Some (e !! r) ∧ E !! prefixed name r = e !! r) →
  (∀ r, P r → r ∉ cs → E !! r = e !! r) →
  ∀ r, P r → agree m (bind e l2) (bind E (map (moved name m) l2)) r.
Proof.
  induction l2 as [|[c q] l2 IH]; intros l1 e E Hcs Hnd Hm Hbad Hren Hnf HP Hpre Hl1 Hout r Hr.
  { simpl. unfold agree. rewrite app_nil_r in *. destruct (m !! r) as [t|] eqn:Hmr.
    - subst m. apply names_map_lookup in Hmr as [Hin ->]. by apply Hl1.
    - apply Hout; [done|]. subst cs. intros Hin. subst m.
      assert (names_map name l1 !! r = Some (prefixed name r)) by (by apply names_map_lookup). congruence. }
  apply Forall_cons_1 in Hren as [Hq Hren]. apply Forall_cons_1 in HP as [HPq HP]. simpl in Hq, HPq.
  simpl in Hnf. apply andb_true_iff in Hnf as [Hqf Hnf].
  assert (Hdom : ∀ x y, m !! x = Some y → x ∈ cs ∧ y = prefixed name x) by (intros x y; subst; apply names_map_lookup).
  assert (Hev : eval E (ren m q) = eval e q).
  { apply (eval_ren m cs bad); [|done|].
    - intros x y [Hx ->]%Hdom. split; [done|]. by apply Hbad.
    - rewrite forallb_Forall in Hqf. apply list.Forall_forall. intros x Hx.
      rewrite list.Forall_forall in Hqf, HPq. specialize (Hqf x Hx). apply negb_true_iff, bool_decide_eq_false in Hqf.
      unfold agree. destruct (m !! x) as [y|] eqn:Hmx.
      + destruct (Hdom x y Hmx) as [Hin ->]. apply Hl1. subst cs. rewrite fmap_app in Hin.
        by apply elem_of_app in Hin as [?|?].
      + apply Hout; [by apply HPq|]. intros Hin. subst cs m.
        assert (names_map name (l1 ++ (c, q) :: l2) !! x = Some (prefixed name x)) by (by apply names_map_lookup).
        congruence. }
  assert (Hc : c ∈ cs) by (subst cs; rewrite fmap_app; apply elem_of_app; right; left).
  cbn [map]. unfold bind. cbn [foldl]. unfold moved at 1 2. cbn [fst snd]. rewrite Hev.
  set (v := rows_of (eval e q)). fold (bind (<[c := v]> e) l2).
  fold (bind (<[prefixed name c := v]> E) (map (moved name m) l2)).
  apply (IH (l1 ++ [(c, q)])); rewrite <- ?app_assoc; try done.
  - intros x Hx. rewrite fmap_app in Hx. destruct (decide (x = c)) as [->|Hne].
    + rewrite !lookup_insert_eq. by split; [eexists|].
    + rewrite !lookup_insert_ne; [|by intros ?%(inj _)|done]. apply Hl1.
      apply elem_of_app in Hx as [?|Hx]; [done|]. by apply list_elem_of_singleton in Hx.
  - intros x HPx Hx. rewrite !lookup_insert_ne; [by apply Hout|by intros ->|].
    intros Heq. by apply (Hpre x c HPx Hc).
Qed.

(** *** Queries that can be combined *)

(** The new names of the common table expressions of a query *)
Definition hoisted (name : string) (q : node) : list string :=
  match get_with q with Some (Some (_, ctes)) => prefixed name <$> ctes.*1 | _ => [] end.

(** The names a list of queries puts into the statement *)
Definition used (qs : list (string * node)) : list string :=
  concat (map (λ c, hoisted c.1 c.2 ++ [c.1]) qs).

(** A query: its own common table expressions are not recursive, have different names,
    refer to earlier ones only, and are referred to without schema and alias *)
Definition query_ok (name : string) (q : node) : bool :=
  renamable [] [] q &&
  match q with
  | Stmt _ (Some (rc, ctes)) fs =>
      let cs := ctes.*1 in
      let bad := cs ++ (prefixed name <$> cs) in
      negb rc && negb (bool_decide (ctes = [])) && bool_decide (NoDup cs)
      && forallb (λ c, forallb (λ c', negb (same_name (prefixed name c) c')) cs) cs
      && forallb (λ c, renamable cs bad c.2) ctes && forallb (renamable cs bad) fs && no_forward ctes
  | _ => true
  end.

(** The queries together: no two names are the same, and no query refers to one *)
Definition queries_ok (qs : list (string * node)) : bool :=
  bool_decide (NoDup (used qs))
  && forallb (λ c, query_ok c.1 c.2 && forallb (λ r, negb (bool_decide (r ∈ used qs))) (refs c.2)) qs.

Lemma bind_app e l l' : bind e (l ++ l') = bind (bind e l) l'.
Proof. unfold bind. by rewrite foldl_app. Qed.

Lemma bind_notin l k : ∀ e, k ∉ l.*1 → bind e l !! k = e !! k.
Proof.
  induction l as [|[c q] l IH]; intros e Hk; [done|]. apply not_elem_of_cons in Hk as [Hc Hk].
  unfold bind. simpl. fold (bind (<[c := rows_of (eval e q)]> e) l). rewrite IH by done.
  by rewrite lookup_insert_ne.
Qed.

Lemma ren_empty_ctes (ctes : list (string * node)) : map (λ c, (c.1, ren ∅ c.2)) ctes = ctes.
Proof. induction ctes as [|[c q] l IH]; simpl; [done|]. by rewrite ren_empty, IH. Qed.

Lemma ren_empty_list l : map (ren ∅) l = l.
Proof. induction l as [|x l IH]; simpl; [done|]. by rewrite ren_empty, IH. Qed.

Lemma moved_names name m ctes : (map (moved name m) ctes).*1 = prefixed name <$> ctes.*1.
Proof. induction ctes as [|c l IH]; [done|]. cbn. f_equal. exact IH. Qed.

(** What [query_ok] says of a query with common table expressions *)
Lemma query_ok_with name t rc ctes fs :
  query_ok name (Stmt t (Some (rc, ctes)) fs) = true →
  let cs := ctes.*1 in
  let bad := cs ++ (prefixed name <$> cs) in
  rc = false ∧ ctes ≠ [] ∧ NoDup cs ∧ (∀ c c', c ∈ cs → c' ∈ cs → same_name (prefixed name c) c' = false) ∧
  Forall (λ c, renamable cs bad c.2 = true) ctes ∧ forallb (renamable cs bad) fs = true ∧ no_forward ctes = true.
Proof.
  intros H cs bad. unfold query_ok in H. apply andb_true_iff in H as [_ H].
  cbv zeta in H. fold cs in H. fold bad in H. repeat (apply andb_true_iff in H as [H ?]).
  split_and!; try done; [by destruct rc|..].
  - match goal with H : negb (bool_decide (ctes = [])) = true |- _ => apply negb_true_iff, bool_decide_eq_false in H; exact H end.
  - match goal with H : bool_decide (NoDup _) = true |- _ => by apply bool_decide_eq_true in H end.
  - intros c c' Hc Hc'.
    match goal with H : forallb (λ c, forallb _ cs) cs = true |- _ =>
      rewrite forallb_Forall, list.Forall_forall in H; specialize (H c Hc);
      rewrite forallb_Forall, list.Forall_forall in H; specialize (H c' Hc'); by apply negb_true_iff in H end.
  - match goal with H : forallb (λ c, renamable cs bad c.2) ctes = true |- _ => by apply forallb_Forall in H end.
Qed.

(** A query is put into the statement, after its common table expressions. *)
Lemma add_query name q o body w0 qr :
  (w0 = None ∨ ∃ l, w0 = Some (false, l)) → query_ok name q = true →
  ∃ ctes q',
    (let '(query, acc) := move_ctes name q (Stmt T_SelectStmt w0 body) in
     omni_sql_add_cte [set_stmt o acc] name [set_stmt qr query] false false) =
    Ok [set_stmt o (Stmt T_SelectStmt (Some (false, (from_option snd [] w0) ++ ctes ++ [(name, q')])) body)] ∧
    ctes.*1 = hoisted name q ∧
    ∀ e E, (∀ r, r ∈ refs q → r ∉ hoisted name q ∧ E !! r = e !! r) →
      rows_of (eval (bind E ctes) q') = rows_of (eval e q).
Proof.
  intros Hw0 Hq.
  assert (Hplain : (get_with q = None ∨ get_with q = Some None) → ∃ ctes q',
    (let '(query, acc) := move_ctes name q (Stmt T_SelectStmt w0 body) in
     omni_sql_add_cte [set_stmt o acc] name [set_stmt qr query] false false) =
    Ok [set_stmt o (Stmt T_SelectStmt (Some (false, (from_option snd [] w0) ++ ctes ++ [(name, q')])) body)] ∧
    ctes.*1 = hoisted name q ∧
    ∀ e E, (∀ r, r ∈ refs q → r ∉ hoisted name q ∧ E !! r = e !! r) →
      rows_of (eval (bind E ctes) q') = rows_of (eval e q)).
  { intros Hg. exists [], q. split_and!.
    - unfold move_ctes. destruct Hg as [->| ->]; by destruct Hw0 as [->|[l ->]].
    - unfold hoisted. by destruct Hg as [->| ->].
    - intros e E Hr. apply (f_equal rows_of), eval_ext; [by apply andb_true_iff in Hq as [? _]|].
      apply list.Forall_forall. intros r Hin. by apply Hr. }
  destruct (get_with q) as [[[rc ctes]|]|] eqn:Hg; [|by auto..].
  clear Hplain. destruct q as [| |t w fs| |]; try done. simpl in Hg. injection Hg as ->.
  destruct (query_ok_with name t rc ctes fs Hq) as (-> & Hne & Hnd & Hpre & Hren & Hfs & Hnf).
  set (cs := ctes.*1) in *. set (bad := cs ++ (prefixed name <$> cs)) in *. set (m := names_map name ctes).
  assert (Hrn : rename_ctes name 0 (length ctes) (Stmt t (Some (false, ctes)) fs) =
                Stmt t (Some (false, map (moved name m) ctes)) (map (ren m) fs)).
  { pose proof (rename_ctes_ren name cs bad t false fs ctes [] Hnd (λ c H, H) Hpre Hren Hfs) as H.
    simpl in H. unfold names_map at 1 2 in H. simpl in H. rewrite ren_empty_ctes, ren_empty_list in H. exact H. }
  exists (map (moved name m) ctes), (Stmt t None (map (ren m) fs)). split_and!.
  - unfold move_ctes. simpl. destruct ctes as [|c0 l0]; [done|]. cbv beta iota zeta. rewrite Hrn. simpl.
    destruct Hw0 as [->|[l ->]]; simpl; by rewrite <- ?app_assoc.
  - apply moved_names.
  - intros e E Hr. simpl. f_equal. rewrite map_map. apply map_ext_Forall2.
    assert (HP : Forall (λ r, r ∈ refs (Stmt t (Some (false, ctes)) fs)) (refs (Stmt t (Some (false, ctes)) fs)))
      by (by apply list.Forall_forall).
    set (P := λ r, r ∈ refs (Stmt t (Some (false, ctes)) fs)) in *. simpl in HP.
    apply list.Forall_app in HP as [HPw HPf]. rewrite Forall_concat_map in HPw. rewrite Forall_concat_map in HPf.
    assert (Hag : ∀ r, P r → agree m (bind e ctes) (bind E (map (moved name m) ctes)) r).
    { apply (bind_moved name cs bad m P ctes [] e E); try done.
      - intros c Hc. unfold bad. rewrite !elem_of_app. split; [by left|]. right. by apply list_elem_of_fmap_2.
      - intros r c HPr Hc ->. destruct (Hr _ HPr) as [Hn _]. apply Hn. unfold hoisted. simpl. by apply list_elem_of_fmap_2.
      - intros r Hin. by apply elem_of_nil in Hin.
      - intros r HPr _. by apply Hr. }
    apply list.Forall_forall. intros x Hx. rewrite forallb_Forall, list.Forall_forall in Hfs.
    rewrite list.Forall_forall in HPf. apply (eval_ren m cs bad); [|by apply Hfs|].
    + intros c y [Hc ->]%names_map_lookup. split; [done|]. unfold bad. rewrite !elem_of_app.
      split; [by left|]. right. by apply list_elem_of_fmap_2.
    + eapply Forall_impl; [|exact (HPf x Hx)]. exact Hag.
Qed.

(** *** The statement *)

(** The rows of each query whose predecessor has none *)
Fixpoint cascade_from (prev : option (list row)) (rs : list (list row)) : list row :=
  match rs with
  | [] => []
  | r :: rs' => match prev with Some (_ :: _) => [] | _ => r end ++ cascade_from (Some r) rs'
  end.

Definition cascade (rs : list (list row)) : list row := cascade_from None rs.

Lemma cascade_from_snoc rs r : ∀ p,
  cascade_from p (rs ++ [r]) =
  cascade_from p rs ++ match (match list.last rs with Some x => Some x | None => p end) with Some (_ :: _) => [] | _ => r end.
Proof.
  induction rs as [|x rs IH]; intros p; [simpl; by rewrite app_nil_r|].
  cbn [app cascade_from]. rewrite IH, app_assoc. do 2 f_equal.
  destruct rs as [|y rs]; [done|]. change (list.last (x :: y :: rs)) with (list.last (y :: rs)).
  destruct (list.last (y :: rs)) eqn:Hl; [done|]. by apply last_None in Hl.
Qed.

(** No rows only if no query has any; the rows of the first query that has some are
    among them, and are all of them when there are two queries. *)
Lemma cascade_first rs r rs' :
  Forall (λ x, x = []) rs → r ≠ [] → ∃ rest, cascade (rs ++ r :: rs') = r ++ rest.
Proof.
  intros Hrs Hr. unfold cascade.
  assert (H : ∀ p, p = None ∨ p = Some [] → cascade_from p (rs ++ r :: rs') = r ++ cascade_from (Some r) rs').
  { induction Hrs as [|x rs -> _ IH]; intros p Hp; simpl.
    - by destruct Hp as [->| ->].
    - rewrite IH by auto. by destruct Hp as [->| ->]. }
  eexists. apply H. by left.
Qed.

Lemma cascade_none rs : Forall (λ x, x = []) rs → cascade rs = [].
Proof.
  unfold cascade. generalize (@None (list row)). intros p H. revert p.
  induction H as [|x rs -> _ IH]; intros p; simpl; [done|]. rewrite IH. by destruct p as [[]|].
Qed.

Lemma cascade_two r r' : cascade [r; r'] = match r with [] => r' | _ => r end.
Proof. unfold cascade. simpl. destruct r; simpl; by rewrite ?app_nil_r. Qed.

Context `{Hlaws : !SqlLaws}.

Lemma eval_select E n r : E !! n = Some r → eval E (select n []) = VRows r.
Proof. intros Hn. simpl. rewrite Hn. simpl. f_equal. apply select_star. Qed.

Lemma eval_select_unless E n r p x :
  E !! n = Some r → E !! p = Some x → eval E (select n [not_exists p]) = VRows (match x with [] => r | _ => [] end).
Proof.
  intros Hn Hp. simpl. rewrite Hn, Hp. simpl. f_equal. rewrite (select_unless n r).
  pose proof (select_nothing p x) as Hl. destruct (stmt_sem db T_SelectStmt _), x; done.
Qed.

(** What holds of the statement after a list of queries *)
Definition accumulated (qs : list (string * node)) (s : RawStmt) : Prop :=
  ∃ ctes body, stmt s = Stmt T_SelectStmt (Some (false, ctes)) body ∧ ctes.*1 = used qs ∧
    fst <$> list.last ctes = fst <$> list.last qs ∧
    (∀ e n q, (n, q) ∈ qs → bind e ctes !! n = Some (rows_of (eval e q))) ∧
    ∀ E, (∀ n, n ∈ qs.*1 → is_Some (E !! n)) →
      rows_of (eval E (Stmt T_SelectStmt None body)) ≡ₚ cascade ((λ n, default [] (E !! n)) <$> qs.*1).

Lemma used_snoc qs n q : used (qs ++ [(n, q)]) = used qs ++ hoisted n q ++ [n].
Proof. unfold used. rewrite map_app, concat_app. simpl. by rewrite app_nil_r. Qed.

Lemma queries_ok_snoc qs n q :
  queries_ok (qs ++ [(n, q)]) = true →
  queries_ok qs = true ∧ query_ok n q = true ∧ NoDup (used qs ++ hoisted n q ++ [n]) ∧
  ∀ r, r ∈ refs q → r ∉ used qs ∧ r ∉ hoisted n q.
Proof.
  unfold queries_ok. rewrite used_snoc. intros [Hnd Hall]%andb_true_iff.
  apply bool_decide_eq_true in Hnd. rewrite forallb_app in Hall. apply andb_true_iff in Hall as [Hall Hq].
  simpl in Hq. rewrite andb_true_r in Hq. apply andb_true_iff in Hq as [Hq Hr].
  split; [apply andb_true_iff; split|].
  - apply bool_decide_eq_true. by apply list.NoDup_app in Hnd as (? & _ & _).
  - rewrite forallb_Forall in Hall |- *. eapply Forall_impl; [|exact Hall].
    intros c [Hc Hcr]%andb_true_iff. apply andb_true_iff. split; [done|].
    rewrite forallb_Forall in Hcr |- *. eapply Forall_impl; [|exact Hcr]. intros r Hn.
    apply negb_true_iff, bool_decide_eq_false in Hn. apply negb_true_iff, bool_decide_eq_false.
    intros Hin. apply Hn. apply elem_of_app. by left.
  - split_and!; [done|done|]. intros r Hin. rewrite forallb_Forall, list.Forall_forall in Hr.
    specialize (Hr r Hin). apply negb_true_iff, bool_decide_eq_false in Hr. rewrite !elem_of_app in Hr. naive_solver.
Qed.

(** The names bound by the statement after one more query *)
Lemma bind_query qs n q ctes0 ctes q' :
  ctes0.*1 = used qs → (∀ e m p, (m, p) ∈ qs → bind e ctes0 !! m = Some (rows_of (eval e p))) →
  queries_ok (qs ++ [(n, q)]) = true → ctes.*1 = hoisted n q →
  (∀ e E, (∀ r, r ∈ refs q → r ∉ hoisted n q ∧ E !! r = e !! r) →
     rows_of (eval (bind E ctes) q') = rows_of (eval e q)) →
  let l := ctes0 ++ ctes ++ [(n, q')] in
  l.*1 = used (qs ++ [(n, q)]) ∧
  ∀ e m p, (m, p) ∈ qs ++ [(n, q)] → bind e l !! m = Some (rows_of (eval e p)).
Proof.
  intros Hn0 Hb0 Hok Hh Hev l. destruct (queries_ok_snoc qs n q Hok) as (_ & _ & Hnd & Hrefs). split.
  { unfold l. by rewrite !fmap_app, used_snoc, Hn0, Hh. }
  intros e m p [Hin|Hin]%elem_of_app; unfold l; rewrite bind_app.
  - rewrite bind_notin; [by apply Hb0|]. rewrite fmap_app, Hh.
    apply list.NoDup_app in Hnd as (_ & Hd & _). apply Hd. apply list_elem_of_In, in_concat.
    exists (hoisted m p ++ [m]). split; [|apply in_or_app; right; by left].
    apply in_map_iff. exists (m, p). split; [done|]. by apply list_elem_of_In.
  - apply list_elem_of_singleton in Hin as [= -> ->]. rewrite bind_app. unfold bind at 1. simpl.
    rewrite lookup_insert_eq. f_equal. apply Hev. intros r Hr. destruct (Hrefs r Hr) as [Hu Hhn].
    split; [done|]. apply bind_notin. by rewrite Hn0.
Qed.

Lemma first_query parse o n q text qr :
  parse "SELECT"%string = Ok [o] → parse text = Ok [qr] → stmt qr = q → queries_ok [(n, q)] = true →
  ∃ s, cascading_query_reduce parse true None (Some n) (Some text) = Ok [s] ∧ accumulated [(n, q)] s.
Proof.
  intros Hsel Hp Hq Hok. destruct (queries_ok_snoc [] n q Hok) as (_ & Hqok & _ & _).
  set (body := select_fields [star] [RangeVar None n None] []).
  destruct (add_query n q (set_stmt o (select n [])) body None qr) as (ctes & q' & Hadd & Hh & Hev); [by left|done|].
  destruct (bind_query [] n q [] ctes q') as [Hnames Hbind]; [done|by intros ? ? ? ?%elem_of_nil|done..|].
  eexists. split.
  - unfold cascading_query_reduce. cbn -[move_ctes omni_sql_add_cte]. rewrite Hsel. simpl. rewrite Hp.
    cbn -[move_ctes omni_sql_add_cte]. rewrite Hq. exact Hadd.
  - exists (ctes ++ [(n, q')]), body. split_and!; [done|done|by rewrite last_snoc|done|].
    intros E HE. destruct (HE n) as [r Hr]; [left|]. change (Stmt T_SelectStmt None body) with (select n []).
    rewrite (eval_select E n r Hr). simpl. rewrite Hr. unfold cascade. simpl. by rewrite app_nil_r.
Qed.

Lemma next_query parse s qs n q text qr :
  accumulated qs s → qs ≠ [] → parse text = Ok [qr] → stmt qr = q → queries_ok (qs ++ [(n, q)]) = true →
  ∃ s', cascading_query_reduce parse true (Some [s]) (Some n) (Some text) = Ok [s'] ∧ accumulated (qs ++ [(n, q)]) s'.
Proof.
  intros (ctes0 & body0 & Hs & Hn0 & Hl0 & Hb0 & Hbody0) Hne Hp Hq Hok.
  destruct (queries_ok_snoc qs n q Hok) as (_ & Hqok & _ & _).
  destruct (list.last qs) as [[pn pq]|] eqn:Hlq; [|by apply last_None in Hlq].
  destruct (list.last ctes0) as [[pn' px]|] eqn:Hlc; [|done]. simpl in Hl0. injection Hl0 as ->.
  set (body := [Node "SETOP_UNION ALL" [Stmt T_SelectStmt None body0; select n [not_exists pn]]]).
  destruct (add_query n q (set_stmt s (Stmt T_SelectStmt (Some (false, ctes0)) body)) body (Some (false, ctes0)) qr)
    as (ctes & q' & Hadd & Hh & Hev); [right; by eexists|done|].
  destruct (bind_query qs n q ctes0 ctes q') as [Hnames Hbind]; [done..|].
  eexists. split.
  - unfold cascading_query_reduce, extend. cbn -[move_ctes omni_sql_add_cte list.last]. rewrite Hs.
    cbn -[move_ctes omni_sql_add_cte list.last]. rewrite Hlc. simpl. rewrite Hp.
    cbn -[move_ctes omni_sql_add_cte]. rewrite Hq. exact Hadd.
  - exists (ctes0 ++ ctes ++ [(n, q')]), body. split_and!; [done|done|by rewrite app_assoc, !last_snoc|done|].
    intros E HE.
    assert (Hpn : pn ∈ qs.*1).
    { apply list_elem_of_fmap. exists (pn, pq). split; [done|]. apply last_Some in Hlq as [l' ->].
      apply elem_of_app. right. left. }
    destruct (HE pn) as [x Hx]; [rewrite fmap_app; apply elem_of_app; by left|].
    destruct (HE n) as [r Hr]; [rewrite fmap_app; apply elem_of_app; right; left|].
    assert (Hold : rows_of (eval E (Stmt T_SelectStmt None body0)) ≡ₚ cascade ((λ n, default [] (E !! n)) <$> qs.*1)).
    { apply Hbody0. intros m Hm. apply HE. rewrite fmap_app. apply elem_of_app. by left. }
    unfold body. cbn [eval map rows_of]. fold (eval E).
    change (stmt_sem db T_SelectStmt [VNode "SETOP_UNION ALL" [eval E (Stmt T_SelectStmt None body0); eval E (select n [not_exists pn])]]
      ≡ₚ cascade ((λ n, default [] (E !! n)) <$> (qs ++ [(n, q)]).*1)).
    rewrite (eval_select_unless E n r pn x Hr Hx).
    change (eval E (Stmt T_SelectStmt None body0)) with (VRows (rows_of (eval E (Stmt T_SelectStmt None body0)))).
    rewrite union_all, Hold. unfold cascade. rewrite !fmap_app. cbn [fmap list_fmap fst]. rewrite cascade_from_snoc, Hr.
    apply Permutation_app_head. rewrite fmap_last, fmap_last, Hlq. simpl. rewrite Hx. simpl. by destruct x.
Qed.

(** C23. The aggregate over queries with one statement each makes a statement that returns the
    rows of each query whose predecessor has none. *)
Theorem cascading_query_means parse o l qs e :
  parse "SELECT"%string = Ok [o] → l ≠ [] →
  Forall2 (λ x c, c.1 = x.1 ∧ ∃ r, parse x.2 = Ok [r] ∧ stmt r = c.2) l qs → queries_ok qs = true →
  ∃ s, reduce_all parse None l = Ok (Some [s]) ∧
    rows_of (eval e (stmt s)) ≡ₚ cascade ((λ c, rows_of (eval e c.2)) <$> qs).
Proof.
  intros Hsel Hne Hqs Hok.
  assert (Hred : ∀ l qs0 qs s, accumulated qs0 s → qs0 ≠ [] →
    Forall2 (λ x c, c.1 = x.1 ∧ ∃ r, parse x.2 = Ok [r] ∧ stmt r = c.2) l qs →
    queries_ok (qs0 ++ qs) = true →
    ∃ s', reduce_all parse (Some [s]) l = Ok (Some [s']) ∧ accumulated (qs0 ++ qs) s').
  { clear -Hlaws. intros l. induction l as [|[n text] l IH]; intros qs0 qs s Hacc Hne Hqs Hok.
    - apply Forall2_nil_inv_l in Hqs as ->. exists s. by rewrite app_nil_r.
    - apply Forall2_cons_inv_l in Hqs as ([n' q] & qs' & [Hn (r & Hp & Hq)] & Hqs & ->). simpl in *. subst n'.
      rewrite (cons_middle (n, q)) in Hok |- *. rewrite app_assoc in Hok |- *.
      assert (Hok1 : queries_ok (qs0 ++ [(n, q)]) = true).
      { clear -Hok Hlaws. induction qs' as [|[m p] qs' IH] using rev_ind; [by rewrite app_nil_r in Hok|].
        apply IH. rewrite app_assoc in Hok. by apply queries_ok_snoc in Hok as [? _]. }
      destruct (next_query parse s qs0 n q text r) as (s1 & Hs1 & Hacc1); [done..|]. rewrite Hs1. simpl.
      apply IH; try done. by destruct qs0. }
  destruct l as [|[n text] l]; [done|].
  apply Forall2_cons_inv_l in Hqs as ([n' q] & qs' & [Hn (r & Hp & Hq)] & Hqs & ->). simpl in Hn, Hp, Hq. subst n'.
  assert (Hok1 : queries_ok [(n, q)] = true).
  { clear -Hok Hlaws. induction qs' as [|[m p] qs' IH] using rev_ind; [done|].
    apply IH. rewrite app_comm_cons in Hok. by apply queries_ok_snoc in Hok as [? _]. }
  destruct (first_query parse o n q text r) as (s & Hs & Hacc); [done..|].
  destruct (Hred l [(n, q)] qs' s) as (s' & Hs' & Hacc'); [done..|].
  exists s'. split; [cbn [reduce_all]; by rewrite Hs|].
  destruct Hacc' as (ctes & body & -> & _ & _ & Hb & Hbody).
  change (rows_of (eval e (Stmt T_SelectStmt (Some (false, ctes)) body)))
    with (rows_of (eval (bind e ctes) (Stmt T_SelectStmt None body))).
  rewrite Hbody.
  - apply reflexive_eq. f_equal. rewrite <- list_fmap_compose. apply list_fmap_ext. intros i [m p] Hi. simpl.
    rewrite (Hb e m p); [done|]. by eapply list_elem_of_lookup_2.
  - intros m ([m' p] & -> & Hin)%list_elem_of_fmap. simpl. rewrite (Hb e m' p Hin). by eexists.
Qed.
End meaning.
Arguments value : clear implicits.
Arguments sql : clear implicits.
Arguments SqlLaws {row} db.

(** ** What goes wrong *)

(** The alias a relation has is replaced: columns referred to by it are not found. *)
Lemma alias_replaced from to a :
  renaming_walker from to (RangeVar None from (Some a)) = RangeVar None to (Some from).
Proof. simpl. by rewrite same_name_refl. Qed.

(** A table of another schema with the name of a common table expression is taken for
    it, though it stays qualified. *)
Lemma qualified_renamed from to s :
  renaming_walker from to (RangeVar (Some s) from None) = RangeVar (Some s) to (Some from).
Proof. simpl. by rewrite same_name_refl. Qed.

(** Different common table expressions of different queries can get the same name. *)
Lemma prefixed_clash : prefixed "a_b" "c" = prefixed "a" "b_c".
Proof. reflexivity. Qed.

(** A query without a statement *)
Lemma empty_query_undefined parse o n text :
  parse "SELECT"%string = Ok [o] → parse text = Ok [] →
  cascading_query_reduce parse true None (Some n) (Some text) = Undefined "first of an empty list".
Proof. intros Hsel Hp. unfold cascading_query_reduce. cbn. rewrite Hsel. cbn. by rewrite Hp. Qed.

(** ** A small database *)

Module Demo.

(** Statements over numbers: a list of constants, the clauses of the statement, and
    anything else as the rows of its relation *)
Definition sem (t : stmt_tag) (fs : list (value Z)) : list Z :=
  match fs with
  | [VNode _ _; VNode _ [VRel _ r]; VNode _ w] =>
      match w with
      | [VNode _ [VNode _ [VRows p]]] => match p with [] => r | _ => [] end
      | _ => r
      end
  | [VNode _ [VRows l; VRows r]] => l ++ r
  | [VNode _ l] => omap (λ v, match v with VParam k => Some k | _ => None end) l
  | _ => []
  end.

Definition db : sql Z := MkSql (λ s r, if bool_decide (r = "t"%string) then [7] else []) sem (λ _ env, env).

#[export] Instance db_laws : SqlLaws db.
Proof. split; try done. Qed.

Definition values (l : list Z) : node := Stmt T_SelectStmt None [Node "valuesLists" (ParamRef <$> l)].
Definition from_ (r : string) : list node := select_fields [star] [RangeVar None r None] [].

(** [WITH c AS (VALUES (1)) SELECT * FROM c] *)
Definition with_c : node := Stmt T_SelectStmt (Some (false, [("c"%string, values [1])])) (from_ "c").

(** [WITH t AS (SELECT * FROM t) SELECT * FROM t] *)
Definition with_t : node :=
  Stmt T_SelectStmt (Some (false, [("t"%string, Stmt T_SelectStmt None (from_ "t"))])) (from_ "t").

Definition raw (n : node) : RawStmt := MkRawStmt n 0 0.

Definition parse (s : string) : result (list RawStmt) :=
  if bool_decide (s = "SELECT"%string) then Ok [raw (Stmt T_SelectStmt None [])]
  else if bool_decide (s = "one"%string) then Ok [raw with_c]
  else if bool_decide (s = "none"%string) then Ok [raw (values [])]
  else if bool_decide (s = "three"%string) then Ok [raw (values [3])]
  else if bool_decide (s = "own"%string) then Ok [raw with_t]
  else raise "syntax error".

Definition queries : list (string * string) := [("a", "none"); ("b", "one"); ("d", "three")]%string.

Lemma cascading_query_means_witness :
  ∃ s, reduce_all parse None queries = Ok (Some [s]) ∧
    rows_of (eval db ∅ (stmt s)) ≡ₚ [1] ∧
    rows_of (eval db ∅ (stmt s)) ≡ₚ cascade ((λ c, rows_of (eval db ∅ c.2)) <$>
      [("a", values []); ("b", with_c); ("d", values [3])]%string).
Proof.
  destruct (cascading_query_means db parse (raw (Stmt T_SelectStmt None [])) queries
    [("a", values []); ("b", with_c); ("d", values [3])]%string ∅) as (s & Hs & Hm).
  - reflexivity.
  - discriminate.
  - repeat constructor; eexists; split; reflexivity.
  - vm_compute. reflexivity.
  - exists s. split; [exact Hs|]. split; [|exact Hm]. rewrite Hm. vm_compute. reflexivity.
Defined.

(** With three queries, the last one answers next to the first if the second has no
    rows. *)
Theorem third_query_answers_too :
  ∃ s, reduce_all parse None [("a", "one"); ("b", "none"); ("d", "three")]%string = Ok (Some [s]) ∧
    rows_of (eval db ∅ (stmt s)) = [1; 3].
Proof. eexists. split; vm_compute; reflexivity. Qed.

(** A common table expression that hides a table it is made from does not find the
    table any more. *)
Theorem hidden_table_lost :
  ∃ s, reduce_all parse None [("a", "own")]%string = Ok (Some [s]) ∧
    rows_of (eval db ∅ with_t) = [7] ∧ rows_of (eval db ∅ (stmt s)) = [].
Proof. eexists. split_and!; vm_compute; reflexivity. Qed.

(** RECURSIVE is lost. *)
Lemma recursive_lost :
  (move_ctes "a" (Stmt T_SelectStmt (Some (true, [("c"%string, values [1])])) (from_ "c"))
     (select "a" [])).2 =
  Stmt T_SelectStmt (Some (false, [("__omni_httpd_a_c"%string, values [1])])) (from_ "a").
Proof. vm_compute. reflexivity. Qed.
End Demo.
End Cascading.
