(* ===== verification/Httpc.v ===== *)
(** * The HTTP client: [omni_httpc]

    omni_httpc/omni_httpc.c: the options of a call, the requests it makes, the
    callbacks that H2O's client calls for a request, redirects, and the rows
    returned.

    What servers answer and how URLs are parsed are parameters.  The requests
    of a call do not share anything but the buffer their content lengths are
    printed into, so each is followed from its connection to its end in turn.
    The scope of that buffer ends before the requests are sent; it is taken to
    hold what was written there last. *)

From Stdlib Require Import ZArith Lia String Ascii.
From stdpp Require Import base tactics list gmap strings numbers pretty.
From S2P Require Import Prelude.

Local Open Scope Z_scope.

Module Httpc.

Definition IO_TIMEOUT : Z := 5000.
Definition MAX_REDIRECTS : Z := 5.

(** A value of a header: its own memory, or the first bytes of [clbuf]. *)
Inductive hvalue := Val (s : string) | Clbuf (len : nat).

Abbreviation header := (string * hvalue)%type.

Record h2o_url := Url { authority : string; rest : string }.

(** [struct request], the fields that are used *)
Record request := Request {
  request_body : string;
  body : string;
  url : h2o_url;
  errstr : option string;
  method : string;
  headers : list header;
  status : Z;
  status_message : string;
  response_headers : list (string * string);
  version : Z;
  connected : bool;
  complete : bool;
  follow_redirects : bool;
  redirects_left : Z
}.

(** What is sent to a server *)
Record sent_request := Sent {
  s_method : string; s_url : h2o_url; s_headers : list (string * string); s_body : string
}.

(** What comes back: a failure to connect, an error instead of a response, or a response,
    which ends with its head or has a body in pieces, at the end of which there
    may be an error *)
Inductive body_reply := EndOfStream | Chunks (l : list string) (error : option string).

Inductive reply :=
  | ConnectError (e : string)
  | HeadError (e : string)
  | Head (version status : Z) (msg : string) (hs : list (string * string)) (b : body_reply).

(** The context shared by the calls of a backend, the buffer, and what was sent *)
Record ctx := Ctx {
  http2_ratio : Z;
  http3_ratio : Z;
  force_cleartext_http2 : bool;
  first_byte_timeout : Z;
  io_timeout : Z;
  capacity : Z;
  clbuf : string;
  sent : list sent_request
}.

Definition set_clbuf (b : string) (c : ctx) : ctx :=
  Ctx (http2_ratio c) (http3_ratio c) (force_cleartext_http2 c) (first_byte_timeout c) (io_timeout c) (capacity c)
    b (sent c).
Definition set_capacity (n : Z) (c : ctx) : ctx :=
  Ctx (http2_ratio c) (http3_ratio c) (force_cleartext_http2 c) (first_byte_timeout c) (io_timeout c) n
    (clbuf c) (sent c).
Definition add_sent (s : sent_request) (c : ctx) : ctx :=
  Ctx (http2_ratio c) (http3_ratio c) (force_cleartext_http2 c) (first_byte_timeout c) (io_timeout c) (capacity c)
    (clbuf c) (sent c ++ [s]).

Definition set_error (e : string) (r : request) : request :=
  Request (request_body r) (body r) (url r) (Some e) (method r) (headers r) (status r) (status_message r)
    (response_headers r) (version r) (connected r) true (follow_redirects r) (redirects_left r).
Definition set_connected (u : h2o_url) (r : request) : request :=
  Request (request_body r) (body r) u (errstr r) (method r) (headers r) (status r) (status_message r)
    (response_headers r) (version r) true (complete r) (follow_redirects r) (redirects_left r).
Definition set_complete (r : request) : request :=
  Request (request_body r) (body r) (url r) (errstr r) (method r) (headers r) (status r) (status_message r)
    (response_headers r) (version r) (connected r) true (follow_redirects r) (redirects_left r).
Definition set_body (b : string) (r : request) : request :=
  Request (request_body r) b (url r) (errstr r) (method r) (headers r) (status r) (status_message r)
    (response_headers r) (version r) (connected r) (complete r) (follow_redirects r) (redirects_left r).
Definition set_status (z : Z) (msg : string) (r : request) : request :=
  Request (request_body r) (body r) (url r) (errstr r) (method r) (headers r) z msg
    (response_headers r) (version r) (connected r) (complete r) (follow_redirects r) (redirects_left r).
Definition set_head (v z : Z) (msg : string) (hs : list (string * string)) (r : request) : request :=
  Request (request_body r) (body r) (url r) (errstr r) (method r) (headers r) z msg hs v
    (connected r) (complete r) (follow_redirects r) (redirects_left r).

(** Options, each of which may be NULL *)
Record options := Options {
  o_http2_ratio : option Z;
  o_http3_ratio : option Z;
  o_follow_redirects : option bool;
  o_force_cleartext_http2 : option bool;
  o_first_byte_timeout : option Z;
  o_timeout : option Z
}.

(** [http_request] *)
Record http_request := HttpRequest {
  r_url : option string;
  r_method : option string;
  r_headers : option (list (option (option string * option string)));
  r_body : option string
}.

(** [http_response] *)
Inductive response :=
  | ErrorRow (error : string)
  | ResponseRow (version status : Z) (headers : list (string * string)) (body : string) (message : option string).

(** H2O's URLs, the servers, which may remember what was sent before, the version of the
    extension, and what memory that was not initialised holds *)
Record world := World {
  h2o_url_parse : string → option h2o_url;
  h2o_url_parse_relative : string → option h2o_url;
  h2o_url_resolve : h2o_url → h2o_url → h2o_url;
  respond : list sent_request → sent_request → reply;
  ext_version : string;
  junk : Z
}.

Section operations.
Context (w : world).

(** ** Callbacks *)

Definition read_value (c : ctx) (v : hvalue) : string :=
  match v with Val s => s | Clbuf n => String.substring 0 n (clbuf c) end.

(** [h2o_find_header] with a token *)
Definition h2o_find_header {A} (hs : list (string * A)) (token : string) : option nat :=
  fst <$> list_find (λ h, h.1 = token) hs.

(** [on_connect] when there is a connection: the authority of a UNIX socket is not sent. *)
Definition sent_url (u : h2o_url) : h2o_url :=
  if String.prefix "[unix:" (authority u) then Url "" (rest u) else u.

Definition copy_request_fields (src dest : request) : request :=
  Request (request_body src) (body src) (url src) (errstr dest) (method src) (headers src) (status src)
    (status_message dest) (response_headers src) (version src) (connected dest) (complete dest)
    (follow_redirects dest) (redirects_left dest).

Definition is_redirect (status : Z) : bool := (status =? 301) || (status =? 302) || (status =? 307) || (status =? 308).

(** The request that follows a redirect: its URL, and for 301 and 302 no body, no content
    length, and GET instead of POST *)
Definition new_request (req : request) (status : Z) (location : string) : result request :=
  let keep := (status =? 307) || (status =? 308) in
  let hs := if keep then headers req else
              match h2o_find_header (headers req) "content-length" with
              | Some i => delete i (headers req)
              | None => headers req
              end in
  let m := if keep then method req else if bool_decide (method req = "POST"%string) then "GET"%string else method req in
  u ← (match h2o_url_parse w location with
       | Some u => Ok u
       | None =>
           match h2o_url_parse_relative w location with
           | Some r => Ok (h2o_url_resolve w (url req) r)
           | None => raise "location header value not a valid URL`"
           end
       end);
  Ok (Request (if keep then request_body req else "") "" u None m hs 0 "" [] (version req) false false
        (follow_redirects req) (redirects_left req - 1)).

(** [on_body] for the pieces of a body *)
Fixpoint on_body (req : request) (l : list string) (error : option string) : request :=
  match l with
  | [] => match error with Some e => set_error e req | None => set_complete req end
  | chunk :: l' => on_body (set_body (body req +:+ chunk) req) l' error
  end.

(** A request from [h2o_httpclient_connect] to its end, with [on_connect], [on_head] and
    [on_body]; a redirect is followed inside [on_head]. *)
Fixpoint run (fuel : nat) (req : request) : M ctx request :=
  match fuel with
  | O => undefined "out of fuel"
  | S fuel' =>
      c ← get_st;
      let u := sent_url (url req) in
      let s := Sent (method req) u ((λ h : header, (h.1, read_value c h.2)) <$> headers req) (request_body req) in
      match respond w (sent c) s with
      | ConnectError e => mret (set_error e (set_connected (url req) req))
      | HeadError e => _ ← modify_st (add_sent s); mret (set_error e (set_connected u req))
      | Head v st msg hs b =>
          _ ← modify_st (add_sent s);
          let req := set_connected u req in
          match (if follow_redirects req && (0 <? redirects_left req) && is_redirect st
                 then h2o_find_header hs "location" else None) with
          | Some i =>
              new_req ← lift_r (new_request req st (from_option snd "" (hs !! i)));
              new_req ← run fuel' new_req;
              mret (set_complete (copy_request_fields new_req (set_status st msg req)))
          | None =>
              let req := set_head v st msg hs req in
              mret (match b with EndOfStream => set_complete req | Chunks l e => on_body req l e end)
          end
      end
  end.

(** ** A call *)

(** The options; an error leaves what was set before it. *)
Definition set_options (o : options) : M ctx bool :=
  let h2 := default 0 (o_http2_ratio o) in
  let h3 := default 0 (o_http3_ratio o) in
  if (h2 <? 0) || (100 <? h2) then ereport "invalid option" else
  if (h3 <? 0) || (100 <? h3) then ereport "invalid option" else
  if 100 <? h2 + h3 then ereport "invalid option" else
  _ ← modify_st (λ c, Ctx h2 h3
        (force_cleartext_http2 c || default false (o_force_cleartext_http2 o))
        (default IO_TIMEOUT (o_first_byte_timeout o)) (default IO_TIMEOUT (o_timeout o))
        (capacity c) (clbuf c) (sent c));
  mret (default true (o_follow_redirects o)).

(** Headers without a name are left out, a value that is NULL is empty. *)
Definition add_headers (hs : list (option (option string * option string))) : list header :=
  omap (λ h, match h with
             | Some (Some n, v) => Some (n, Val (default ""%string v))
             | _ => None
             end) hs.

(** [pg_ultoa_n] into the buffer *)
Definition write_clbuf (n : Z) : M ctx nat :=
  let d : string := pretty n in
  _ ← modify_st (λ c, set_clbuf (d +:+ String.substring (String.length d) (String.length (clbuf c)) (clbuf c)) c);
  mret (String.length d).

(** [None] for a request that is NULL: its element of the array is not set. *)
Definition prepare (follow : bool) (r : option http_request) : M ctx (option request) :=
  match r with
  | None => mret None
  | Some r =>
      u ← (match r_url r with
           | None => ereport "URL can't be NULL"
           | Some t => match h2o_url_parse w t with Some u => mret u | None => ereport "can't parse URL" end
           end);
      let b := default ""%string (r_body r) in
      let hs := (add_headers (default [] (r_headers r)) ++ [("user-agent"%string, Val ("omni_httpc/" +:+ ext_version w))])%list in
      hs ← (if (0 <? String.length b)%nat then
              n ← write_clbuf (Z.of_nat (String.length b)); mret (hs ++ [("content-length"%string, Clbuf n)])%list
            else mret hs);
      mret (Some (Request b "" u None (default "GET"%string (r_method r)) hs (junk w) "" [] (junk w) false false
                    follow MAX_REDIRECTS))
  end.

Fixpoint prepare_all (follow : bool) (rs : list (option http_request)) : M ctx (list (option request)) :=
  match rs with
  | [] => mret []
  | r :: rs' => p ← prepare follow r; ps ← prepare_all follow rs'; mret (p :: ps)
  end.

Definition run_request (r : option request) : M ctx request :=
  match r with
  | None => undefined "request was not initialised"
  | Some req => run (Z.to_nat MAX_REDIRECTS + 1) req
  end.

Fixpoint run_all (rs : list (option request)) : M ctx (list request) :=
  match rs with
  | [] => mret []
  | r :: rs' => x ← run_request r; xs ← run_all rs'; mret (x :: xs)
  end.

Definition row_of (r : request) : response :=
  match errstr r with
  | Some e => ErrorRow e
  | None =>
      ResponseRow (wrap_s 16 (version r)) (wrap_s 16 (status r)) (response_headers r) (body r)
        (if (String.length (status_message r) =? 0)%nat then None else Some (status_message r))
  end.

Definition http_execute (o : option options) (requests : option (list (option http_request))) :
  M ctx (list response) :=
  match o with
  | None => undefined "options are NULL"
  | Some o =>
      follow ← set_options o;
      match requests with
      | None => ereport "can't have null requests"
      | Some rs =>
          ps ← prepare_all follow rs;
          if negb (existsb (λ p, match p with Some _ => true | None => false end) ps) then mret [] else
          _ ← modify_st (λ c, set_capacity (Z.max (Z.of_nat (length rs)) (capacity c)) c);
          done ← run_all ps;
          mret (row_of <$> done)
      end
  end.
End operations.

(** ** Redirects *)

Definition with_sent (c : ctx) (l : list sent_request) : ctx :=
  Ctx (http2_ratio c) (http3_ratio c) (force_cleartext_http2 c) (first_byte_timeout c) (io_timeout c) (capacity c)
    (clbuf c) (sent c ++ l).

(** The headers without the first content length *)
Definition without_length {A} (hs : list (string * A)) : list (string * A) :=
  match h2o_find_header hs "content-length" with Some i => delete i hs | None => hs end.

Section redirects.
Context (w : world).

Definition sent_of (c : ctx) (req : request) : sent_request :=
  Sent (method req) (sent_url (url req)) ((λ h : header, (h.1, read_value c h.2)) <$> headers req) (request_body req).

(** What is sent after a redirect with some status: the same to another place, or a GET
    instead of a POST, without a body *)
Definition follows (st : Z) (s s' : sent_request) : Prop :=
  if (st =? 307) || (st =? 308) then
    s_method s' = s_method s ∧ s_headers s' = s_headers s ∧ s_body s' = s_body s
  else
    s_method s' = (if bool_decide (s_method s = "POST"%string) then "GET"%string else s_method s) ∧
    s_headers s' = without_length (s_headers s) ∧ s_body s' = ""%string.

(** The place a redirect leads to *)
Definition target (s : sent_request) (location : string) : option h2o_url :=
  match h2o_url_parse w location with
  | Some u => Some u
  | None => h2o_url_resolve w (s_url s) <$> h2o_url_parse_relative w location
  end.

(** A reply that is followed, and the location it gives *)
Definition redirected (follow : bool) (left : Z) (r : reply) : option (Z * string) :=
  match r with
  | Head _ st _ hs _ =>
      if follow && (0 <? left) && is_redirect st then
        match h2o_find_header hs "location" with Some i => Some (st, from_option snd ""%string (hs !! i)) | None => None end
      else None
  | _ => None
  end.

(** The requests made for a request, and the last reply *)
Inductive answered (follow : bool) : list sent_request → sent_request → Z → list sent_request → reply → Prop :=
  | answered_last hist s left :
      redirected follow left (respond w hist s) = None → answered follow hist s left [s] (respond w hist s)
  | answered_next hist s left st loc u s' chain r :
      redirected follow left (respond w hist s) = Some (st, loc) → target s loc = Some u →
      follows st s s' → s_url s' = sent_url u →
      answered follow (hist ++ [s]) s' (left - 1) chain r → answered follow hist s left (s :: chain) r.

(** The row for a reply *)
Definition reply_row (r : reply) : response :=
  match r with
  | ConnectError e | HeadError e | Head _ _ _ _ (Chunks _ (Some e)) => ErrorRow e
  | Head v st msg hs b =>
      ResponseRow (wrap_s 16 v) (wrap_s 16 st) hs
        (match b with Chunks l None => String.concat "" l | _ => ""%string end)
        (if (String.length msg =? 0)%nat then None else Some msg)
  end.

Lemma answered_length follow hist s left chain r :
  0 ≤ left → answered follow hist s left chain r → (1 ≤ length chain)%nat ∧ Z.of_nat (length chain) ≤ left + 1.
Proof.
  intros Hl H. induction H as [hist s left Hr|hist s left st loc u s' chain r Hr Ht Hf Hu _ IH]; simpl; [lia|].
  assert (0 < left).
  { unfold redirected in Hr. destruct (respond w hist s); try done. destruct (0 <? left) eqn:Hb; [lia|].
    by rewrite andb_false_r in Hr. }
  destruct IH; lia.
Qed.

Lemma delete_fmap {A B} (f : A → B) (l : list A) (i : nat) : delete i (f <$> l) = f <$> delete i l.
Proof. revert i. induction l as [|x l IH]; intros [|i]; simpl; [done..|]. cbn. f_equal. apply IH. Qed.

Lemma find_header_fmap {A B} (f : A → B) (hs : list (string * A)) t :
  h2o_find_header ((λ h, (h.1, f h.2)) <$> hs) t = h2o_find_header hs t.
Proof.
  unfold h2o_find_header. rewrite list_find_fmap, <- option_fmap_compose. reflexivity.
Qed.

Lemma without_length_fmap {A B} (f : A → B) (hs : list (string * A)) :
  without_length ((λ h, (h.1, f h.2)) <$> hs) = (λ h, (h.1, f h.2)) <$> without_length hs.
Proof.
  unfold without_length. rewrite find_header_fmap. destruct (h2o_find_header hs _); [apply delete_fmap|done].
Qed.

Lemma new_request_follows c req st loc :
  let s := Sent (method req) (url req) ((λ h : header, (h.1, read_value c h.2)) <$> headers req) (request_body req) in
  match new_request w req st loc with
  | Ok nr =>
      body nr = ""%string ∧ errstr nr = None ∧ redirects_left nr = redirects_left req - 1 ∧
      follow_redirects nr = follow_redirects req ∧ follows st s (sent_of c nr) ∧ target s loc = Some (url nr)
  | Err e => target s loc = None
  | Undefined _ => False
  end.
Proof.
  intros s. unfold new_request, target, follows, s.
  destruct (h2o_url_parse w loc) as [u|]; [|destruct (h2o_url_parse_relative w loc) as [r|]]; simpl; [| |done].
  all: split_and!; [done|done|done|done| |done].
  all: destruct ((st =? 307) || (st =? 308)); simpl; [done|].
  all: split_and!; [done|by rewrite without_length_fmap|done].
Qed.

Lemma app_empty_r (s : string) : s +:+ "" = s.
Proof. induction s as [|a s IH]; [done|]. change (String a (s +:+ "") = String a s). by rewrite IH. Qed.

Lemma string_assoc (s t u : string) : (s +:+ t) +:+ u = s +:+ t +:+ u.
Proof. induction s as [|a s IH]; [done|]. change (String a ((s +:+ t) +:+ u) = String a (s +:+ t +:+ u)). by rewrite IH. Qed.

Lemma concat_cons (x : string) l : String.concat "" (x :: l) = x +:+ String.concat "" l.
Proof. destruct l; [symmetry; apply app_empty_r|done]. Qed.

Lemma on_body_row req l e :
  errstr req = None →
  complete (on_body req l e) = true ∧
  row_of (on_body req l e) =
  match e with
  | Some x => ErrorRow x
  | None => ResponseRow (wrap_s 16 (version req)) (wrap_s 16 (status req)) (response_headers req)
              (body req +:+ String.concat "" l)
              (if (String.length (status_message req) =? 0)%nat then None else Some (status_message req))
  end ∧ (e = None → errstr (on_body req l e) = None).
Proof.
  revert req. induction l as [|x l IH]; intros req He; cbn [on_body].
  - destruct e; [done|]. split_and!; [done| |done]. unfold row_of. simpl. by rewrite He, app_empty_r.
  - destruct (IH (set_body (body req +:+ x) req) He) as (-> & -> & Hn). split_and!; [done| |done].
    destruct e; [done|]. cbn [body set_body version status response_headers status_message].
    by rewrite string_assoc, concat_cons.
Qed.

(** What a request that is not redirected becomes *)
Definition finish (req : request) (r : reply) : request :=
  let u := sent_url (url req) in
  match r with
  | ConnectError e => set_error e (set_connected (url req) req)
  | HeadError e => set_error e (set_connected u req)
  | Head v st msg hs b =>
      let req := set_head v st msg hs (set_connected u req) in
      match b with EndOfStream => set_complete req | Chunks l e => on_body req l e end
  end.

Lemma finish_row req r :
  body req = ""%string → errstr req = None → complete (finish req r) = true ∧ row_of (finish req r) = reply_row r.
Proof.
  intros Hb He. destruct r as [e|e|v st msg hs [|l e]]; simpl; [done|done| |].
  - unfold row_of. simpl. by rewrite He, Hb.
  - destruct (on_body_row (set_head v st msg hs (set_connected (sent_url (url req)) req)) l e He) as (-> & -> & _).
    split; [done|]. destruct e; [done|]. simpl. by rewrite Hb.
Qed.

(** The requests that went out *)
Definition delivered (chain : list sent_request) (r : reply) : list sent_request :=
  match r with ConnectError _ => removelast chain | _ => chain end.

Lemma with_sent_sent c l l' : with_sent (with_sent c l) l' = with_sent c (l ++ l').
Proof. unfold with_sent. simpl. by rewrite app_assoc. Qed.

Lemma delivered_cons s chain r : chain ≠ [] → delivered (s :: chain) r = s :: delivered chain r.
Proof. by destruct r, chain. Qed.

(** The row for the requests made and the last reply.  After a redirect, the message is
    another one, and an error is not reported. *)
Definition row_answers (chain : list sent_request) (rep : reply) (row : response) : Prop :=
  if (length chain =? 1)%nat then row = reply_row rep else
  match reply_row rep with
  | ResponseRow v st hs b _ => ∃ m, row = ResponseRow v st hs b m
  | ErrorRow _ => ∃ v st hs b m, row = ResponseRow v st hs b m
  end.

Lemma copy_row new old :
  errstr old = None →
  row_of (set_complete (copy_request_fields new old)) =
  ResponseRow (wrap_s 16 (version new)) (wrap_s 16 (status new)) (response_headers new) (body new)
    (if (String.length (status_message old) =? 0)%nat then None else Some (status_message old)).
Proof. intros He. unfold row_of. simpl. by rewrite He. Qed.

Lemma copy_answers new old s chain rep :
  errstr old = None → (1 ≤ length chain)%nat → row_answers chain rep (row_of new) →
  row_answers (s :: chain) rep (row_of (set_complete (copy_request_fields new old))).
Proof.
  intros He Hlen. unfold row_answers. rewrite (proj2 (Nat.eqb_neq (length (s :: chain)) 1)) by (simpl; lia).
  rewrite (copy_row new old He). destruct (reply_row rep) as [e|v st hs b m]; [by eauto 10|].
  intros Hrow. assert (∃ m', row_of new = ResponseRow v st hs b m') as [m' Hm].
  { destruct (length chain =? 1)%nat; [by eexists|done]. }
  unfold row_of in Hm. destruct (errstr new); [done|]. injection Hm as <- <- <- <- _. by eexists.
Qed.

(** What a run of a request is *)
Definition run_spec (req : request) (c : ctx) (res : result request * ctx) : Prop :=
  match res with
  | (Ok r, c') =>
      complete r = true ∧ ∃ chain rep,
        answered (follow_redirects req) (sent c) (sent_of c req) (redirects_left req) chain rep ∧
        c' = with_sent c (delivered chain rep) ∧ row_answers chain rep (row_of r)
  | (Err _, c') => ∃ chain, c' = with_sent c chain ∧ Z.of_nat (length chain) ≤ redirects_left req + 1
  | (Undefined _, _) => False
  end.

Lemma run_spec_last req c rep c' :
  body req = ""%string → errstr req = None → respond w (sent c) (sent_of c req) = rep →
  redirected (follow_redirects req) (redirects_left req) rep = None →
  c' = with_sent c (delivered [sent_of c req] rep) → run_spec req c (Ok (finish req rep), c').
Proof.
  intros Hb He <- Hr ->. destruct (finish_row req (respond w (sent c) (sent_of c req)) Hb He) as [Hc Hrow].
  split; [done|]. exists [sent_of c req], (respond w (sent c) (sent_of c req)).
  split_and!; [by constructor|done|exact Hrow].
Qed.

Lemma run_spec_next req c nr st loc u r0 c1 res :
  redirected (follow_redirects req) (redirects_left req) (respond w (sent c) (sent_of c req)) = Some (st, loc) →
  target (sent_of c req) loc = Some u → url nr = u → follows st (sent_of c req) (sent_of c1 nr) →
  redirects_left nr = redirects_left req - 1 → follow_redirects nr = follow_redirects req →
  0 < redirects_left req → c1 = with_sent c [sent_of c req] → errstr r0 = None →
  run_spec nr c1 res →
  run_spec req c (match res.1 with
                  | Ok r => Ok (set_complete (copy_request_fields r r0)) | Err e => Err e | Undefined x => Undefined x
                  end, res.2).
Proof.
  intros Hred Htg Hu Hfol Hl Hf Hleft -> He. destruct res as [[r|e|x] c']; simpl.
  - intros (_ & chain & rep & Hans & -> & Hrow). rewrite Hl, Hf in Hans.
    assert (Hlen : (1 ≤ length chain)%nat) by (apply answered_length in Hans; lia).
    split; [done|]. exists (sent_of c req :: chain), rep. split_and!.
    + eapply answered_next; [exact Hred|exact Htg|exact Hfol|by rewrite <- Hu|exact Hans].
    + rewrite with_sent_sent, delivered_cons; [done|]. intros ->. simpl in Hlen. lia.
    + by apply copy_answers.
  - intros (chain & -> & Hlen). exists (sent_of c req :: chain). rewrite with_sent_sent. split; [done|simpl; lia].
  - done.
Qed.

Lemma run_answered fuel : ∀ req c,
  body req = ""%string → errstr req = None → 0 ≤ redirects_left req < Z.of_nat fuel → run_spec req c (run w fuel req c).
Proof.
  induction fuel as [|fuel IH]; intros req c Hb He Hl; [lia|]. cbn [run]. rewrite get_bind.
  change (Sent (method req) (sent_url (url req)) ((λ h : header, (h.1, read_value c h.2)) <$> headers req) (request_body req))
    with (sent_of c req).
  destruct (respond w (sent c) (sent_of c req)) as [e|e|v st msg hs b] eqn:Hr.
  - eapply (run_spec_last _ _ (ConnectError e)); [done..|]. unfold with_sent. simpl. rewrite app_nil_r. by destruct c.
  - by eapply (run_spec_last _ _ (HeadError e)).
  - rewrite modify_bind. cbn [follow_redirects redirects_left set_connected].
    destruct (if follow_redirects req && (0 <? redirects_left req) && is_redirect st
              then h2o_find_header hs "location" else None) as [i|] eqn:Hi.
    2: { eapply (run_spec_last _ _ (Head v st msg hs b)); [done..| |done]. simpl.
         destruct (_ && is_redirect st); [by rewrite Hi|done]. }
    set (loc := from_option snd ""%string (hs !! i)).
    assert (Hred : redirected (follow_redirects req) (redirects_left req) (respond w (sent c) (sent_of c req)) = Some (st, loc)).
    { rewrite Hr. simpl. destruct (_ && is_redirect st); [by rewrite Hi|done]. }
    assert (Hleft : 0 < redirects_left req).
    { destruct (0 <? redirects_left req) eqn:Hz; [lia|]. by rewrite andb_false_r in Hi. }
    pose proof (new_request_follows (with_sent c [sent_of c req]) (set_connected (sent_url (url req)) req) st loc) as Hn.
    destruct (new_request w (set_connected (sent_url (url req)) req) st loc) as [nr|e|u]; [| |done].
    2: { exists [sent_of c req]. split; [done|]. simpl. lia. }
    destruct Hn as (Hb' & He' & Hl' & Hf' & Hfol & Htg). simpl in Hl'.
    pose proof (run_spec_next req c nr st loc _ (set_status st msg (set_connected (sent_url (url req)) req)) _ _
      Hred Htg eq_refl Hfol Hl' Hf' Hleft eq_refl He (IH nr _ Hb' He' ltac:(lia))) as Hs.
    rewrite (lift_bind _ _ nr) by done. change (add_sent (sent_of c req) c) with (with_sent c [sent_of c req]).
    unfold mbind, M_bind. by destruct (run w fuel nr (with_sent c [sent_of c req])) as [[r|e|u] c'].
Qed.
End redirects.

(** ** Calls *)

Definition ratios_ok (c : ctx) : Prop :=
  0 ≤ http2_ratio c ≤ 100 ∧ 0 ≤ http3_ratio c ≤ 100 ∧ http2_ratio c + http3_ratio c ≤ 100.

Lemma set_options_spec o c :
  match set_options o c with
  | (Ok f, c') => f = default true (o_follow_redirects o) ∧ sent c' = sent c ∧ ratios_ok c'
  | (Err _, c') => c' = c
  | (Undefined _, _) => False
  end.
Proof.
  unfold set_options.
  destruct ((_ <? 0) || _) eqn:H2; [done|]. destruct ((default 0 (o_http3_ratio o) <? 0) || _) eqn:H3; [done|].
  destruct (100 <? _ + _) eqn:Hs; [done|]. rewrite modify_bind. split_and!; [done|done|]. unfold ratios_ok. simpl. lia.
Qed.

Section calls.
Context (w : world).

(** The headers a request gives *)
Definition given (r : http_request) : list (string * string) :=
  omap (λ h, match h with Some (Some n, v) => Some (n, default ""%string v) | _ => None end) (default [] (r_headers r)).

(** What is sent first for a request.  The content length is there when there is a body. *)
Definition asks (r : http_request) (s : sent_request) : Prop :=
  s_method s = default "GET"%string (r_method r) ∧ s_body s = default ""%string (r_body r) ∧
  (∃ t u, r_url r = Some t ∧ h2o_url_parse w t = Some u ∧ s_url s = sent_url u) ∧
  ∃ l, s_headers s = given r ++ ("user-agent"%string, "omni_httpc/" +:+ ext_version w) :: l ∧
    if (0 <? String.length (s_body s))%nat then ∃ v, l = [("content-length"%string, v)] else l = [].

(** Requests that have been prepared *)
Definition prepared (follow : bool) (r : http_request) (req : request) : Prop :=
  body req = ""%string ∧ errstr req = None ∧ redirects_left req = MAX_REDIRECTS ∧ follow_redirects req = follow ∧
  ∀ c, asks r (sent_of c req).

(** The requests of a call, in turn: what was sent for each, and its row *)
Inductive exchanges (follow : bool) :
  list sent_request → list http_request → list (list sent_request) → list response → Prop :=
  | exchanges_nil hist : exchanges follow hist [] [] []
  | exchanges_cons hist r rs s chain rep row chains rows :
      asks r s → answered w follow hist s MAX_REDIRECTS chain rep → row_answers chain rep row →
      exchanges follow (hist ++ delivered chain rep) rs chains rows →
      exchanges follow hist (r :: rs) (delivered chain rep :: chains) (row :: rows).

Lemma given_headers c r :
  (λ h : header, (h.1, read_value c h.2)) <$> add_headers (default [] (r_headers r)) = given r.
Proof.
  unfold given, add_headers. induction (default [] (r_headers r)) as [|[[[n|] v]|] l IH]; simpl; [done| |exact IH|exact IH].
  f_equal. exact IH.
Qed.

Lemma prepare_request_spec follow r c :
  match prepare w follow (Some r) c with
  | (Ok (Some req), c') => prepared follow r req ∧ ∃ b, c' = set_clbuf b c
  | (Err _, c') => c' = c
  | _ => False
  end.
Proof.
  unfold prepare. destruct (r_url r) as [t|] eqn:Ht; [|done].
  destruct (h2o_url_parse w t) as [u|] eqn:Hu; [|done].
  set (b := default ""%string (r_body r)).
  unfold mbind, M_bind, mret, M_ret. cbn beta iota. destruct (0 <? String.length b)%nat eqn:Hb; simpl.
  - split; [|by eexists]. split_and!; [done..|]. intros c'. split_and!; [done|done|by exists t, u|].
    simpl. rewrite <- app_assoc, fmap_app, given_headers. eexists. split; [done|]. fold b. rewrite Hb. by eexists.
  - split; [|exists (clbuf c); by destruct c]. split_and!; [done..|]. intros c'. split_and!; [done|done|by exists t, u|].
    simpl. rewrite fmap_app, given_headers. eexists. split; [done|]. fold b. by rewrite Hb.
Qed.

Lemma prepare_all_spec follow rs : ∀ c,
  match prepare_all w follow (Some <$> rs) c with
  | (Ok ps, c') => ∃ reqs b, ps = Some <$> reqs ∧ Forall2 (prepared follow) rs reqs ∧ c' = set_clbuf b c
  | (Err _, c') => ∃ b, c' = set_clbuf b c
  | (Undefined _, _) => False
  end.
Proof.
  induction rs as [|r rs IH]; intros c; [exists [], (clbuf c); split_and!; [done|constructor|by destruct c]|].
  cbn [fmap list_fmap prepare_all]. pose proof (prepare_request_spec follow r c) as Hp. unfold mbind, M_bind.
  destruct (prepare w follow (Some r) c) as [[[req|]|e|x] c1]; [|done|subst; exists (clbuf c); by destruct c|done].
  destruct Hp as [Hp [b ->]]. specialize (IH (set_clbuf b c)). unfold fmap in IH.
  destruct (prepare_all w follow _ (set_clbuf b c)) as [[ps|e|x] c2].
  - destruct IH as (reqs & b' & -> & HF & ->). exists (req :: reqs), b'. split_and!; [done|by constructor|done].
  - destruct IH as [b' ->]. by exists b'.
  - done.
Qed.

Lemma delivered_short follow hist s chain rep :
  answered w follow hist s MAX_REDIRECTS chain rep → (length (delivered chain rep) ≤ 6)%nat.
Proof.
  intros Hans%answered_length; [|done]. unfold MAX_REDIRECTS in Hans. destruct Hans.
  destruct rep; simpl; [|lia..]. rewrite removelast_firstn_len, length_take. lia.
Qed.

Lemma run_all_spec follow rs reqs : Forall2 (prepared follow) rs reqs → ∀ c,
  match run_all w (Some <$> reqs) c with
  | (Ok l, c') => ∃ chains, exchanges follow (sent c) rs chains (row_of <$> l) ∧ sent c' = sent c ++ concat chains
  | (Err _, c') => ∃ l, sent c' = sent c ++ l ∧ (length l ≤ 6 * length rs)%nat
  | (Undefined _, _) => False
  end.
Proof.
  induction 1 as [|r req rs reqs (Hb & He & Hl & Hf & Ha) _ IH]; intros c.
  { exists []. split; [constructor|]. simpl. by rewrite app_nil_r. }
  cbn [fmap list_fmap run_all run_request].
  pose proof (run_answered w (Z.to_nat MAX_REDIRECTS + 1) req c Hb He ltac:(rewrite Hl; vm_compute; split; congruence)) as Hr.
  unfold run_spec in Hr. rewrite Hl, Hf in Hr. unfold mbind, M_bind.
  destruct (run w _ req c) as [[x|e|x] c1]; [| |done].
  2: { destruct Hr as (chain & -> & Hlen). exists chain. split; [done|]. unfold MAX_REDIRECTS in Hlen. simpl. lia. }
  destruct Hr as (_ & chain & rep & Hans & -> & Hrow).
  assert (Hlen : (length (delivered chain rep) ≤ 6)%nat).
  { exact (delivered_short _ _ _ _ _ Hans). }
  specialize (IH (with_sent c (delivered chain rep))). unfold fmap in IH.
  destruct (run_all w _ (with_sent c (delivered chain rep))) as [[xs|e|x0] c2]; [| |done].
  - destruct IH as (chains & Hex & Hc). exists (delivered chain rep :: chains). split.
    + eapply exchanges_cons; [apply Ha|exact Hans|exact Hrow|exact Hex].
    + rewrite Hc. simpl. by rewrite <- app_assoc.
  - destruct IH as (l & Hc & Hl'). exists (delivered chain rep ++ l). rewrite Hc. simpl. rewrite <- app_assoc, length_app. split; [done|lia].
Qed.

Lemma exchanges_short follow hist rs chains rows :
  exchanges follow hist rs chains rows → Forall (λ ch, length ch ≤ 6)%nat chains ∧ length rows = length rs.
Proof.
  induction 1 as [|hist r rs s chain rep row chains rows _ Hans _ _ [IH Hl]]; [done|]. split; [|simpl; by rewrite Hl].
  constructor; [exact (delivered_short _ _ _ _ _ Hans)|done].
Qed.


(** *** The content length *)

Lemma substring_prefix (d x : string) : String.substring 0 (String.length d) (d +:+ x) = d.
Proof.
  induction d as [|a d IH]; [by destruct x|].
  change (String a (String.substring 0 (String.length d) (d +:+ x)) = String a d). by rewrite IH.
Qed.

Lemma prepare_length follow r c req c' :
  prepare w follow (Some r) c = (Ok (Some req), c') → (0 < String.length (default "" (r_body r)))%nat →
  s_headers (sent_of c' req) =
  given r ++ [("user-agent", "omni_httpc/" +:+ ext_version w);
              ("content-length", pretty (Z.of_nat (String.length (default "" (r_body r)))))]%string.
Proof.
  unfold prepare. destruct (r_url r) as [t|]; [|done]. destruct (h2o_url_parse w t) as [u|]; [|done].
  set (b := default ""%string (r_body r)). intros Hp Hb.
  unfold mbind, M_bind, mret, M_ret in Hp. cbn beta iota in Hp.
  rewrite (proj2 (Nat.ltb_lt 0 (String.length b)) Hb) in Hp.
  cbv beta iota delta [write_clbuf modify_st mbind M_bind mret M_ret] in Hp. injection Hp as <- <-.
  unfold sent_of. cbn [s_headers headers]. rewrite <- app_assoc, fmap_app, given_headers. simpl.
  by rewrite substring_prefix.
Qed.

Lemma answered_head follow hist s left chain rep :
  answered w follow hist s left chain rep → ∃ l, chain = s :: l.
Proof. destruct 1; by eexists. Qed.

Lemma http_execute_one o r c rows c' :
  http_execute w (Some o) (Some [Some r]) c = (Ok rows, c') →
  ∃ follow c1 req c2 x, sent c1 = sent c ∧ prepare w follow (Some r) c1 = (Ok (Some req), c2) ∧
    run_spec w req (set_capacity (Z.max 1 (capacity c2)) c2) (Ok x, c') ∧ rows = [row_of x].
Proof.
  unfold http_execute. pose proof (set_options_spec o c) as Ho. unfold mbind at 1, M_bind at 1.
  destruct (set_options o c) as [[f|e|x] c1]; [|done|done]. destruct Ho as (_ & Hs & _).
  unfold mbind at 1, M_bind at 1. cbn [prepare_all]. unfold mbind at 1, M_bind at 1.
  pose proof (prepare_request_spec f r c1) as Hp. destruct (prepare w f (Some r) c1) as [[[req|]|e|x] c2] eqn:Hpr; [|done|done|done].
  destruct Hp as [(Hb & He & Hl & _) _]. 
  cbn [run_all run_request length]. unfold mbind, M_bind, mret, M_ret, modify_st. cbn [existsb negb orb].
  pose proof (run_answered w (Z.to_nat MAX_REDIRECTS + 1) req (set_capacity (Z.max 1 (capacity c2)) c2) Hb He
    ltac:(rewrite Hl; vm_compute; split; congruence)) as Hr.
  cbn beta iota. change (Z.of_nat 1) with 1. cbn [run_all run_request]. unfold mbind, M_bind, mret, M_ret.
  destruct (run w _ req _) as [[x|e|x] c3]; [|done|done].
  intros [= <- <-]. exists f, c1, req, c2, x. split_and!; [done|done|exact Hr|done].
Qed.

(** A call with one request says how long its body is. *)
Theorem single_request_length o r c rows c' s l :
  http_execute w (Some o) (Some [Some r]) c = (Ok rows, c') → sent c' = sent c ++ s :: l →
  (0 < String.length (default "" (r_body r)))%nat →
  s_headers s =
  given r ++ [("user-agent", "omni_httpc/" +:+ ext_version w);
              ("content-length", pretty (Z.of_nat (String.length (default "" (r_body r)))))]%string.
Proof.
  intros (follow & c1 & req & c2 & x & Hs & Hp & (_ & chain & rep & Hans & -> & _) & _)%http_execute_one Hc Hb.
  rewrite <- (prepare_length _ _ _ _ _ Hp Hb). pose proof (prepare_request_spec follow r c1) as H1. rewrite Hp in H1.
  destruct H1 as [_ [b ->]]. destruct (answered_head _ _ _ _ _ _ Hans) as [k ->]. simpl in Hc.
  rewrite Hs in Hc. apply app_inv_head in Hc. destruct rep; [|simpl in Hc; by injection Hc as <- _..].
  destruct k; [done|]. by injection Hc as <- _.
Qed.
End calls.

(** ** What the calls do beyond that *)

(** A request that is NULL among others is one that was never set up: such a call has no result. *)
Lemma prepare_all_none w f rs : None ∈ rs → ∀ c ps c', prepare_all w f rs c = (Ok ps, c') → None ∈ ps.
Proof.
  induction rs as [|r rs IH]; [by intros ?%not_elem_of_nil|]. intros Hn c ps c'. cbn [prepare_all].
  unfold mbind, M_bind. destruct (prepare w f r c) as [[q|e|x] c1] eqn:Hp; [|done|done].
  destruct (prepare_all w f rs c1) as [[ps'|e|x] c2] eqn:Hps; [|done|done]. intros [= <- <-].
  apply elem_of_cons in Hn as [<-|Hn]; [|right; by eapply IH].
  injection Hp as <- _. by left.
Qed.

Lemma run_all_none w ps : None ∈ ps → ∀ c xs c', run_all w ps c ≠ (Ok xs, c').
Proof.
  induction ps as [|p ps IH]; [by intros ?%not_elem_of_nil|]. intros [<-|Hn]%elem_of_cons c xs c'; [done|].
  cbn [run_all]. unfold mbind, M_bind. destruct (run_request w p c) as [[x|e|x] c1]; [|done|done].
  destruct (run_all w ps c1) as [[ys|e|y] c2] eqn:Hr; [|done|done]. by destruct (IH Hn c1 ys c2).
Qed.

Lemma null_request_undefined w o rs c rows c' :
  None ∈ rs → http_execute w (Some o) (Some rs) c = (Ok rows, c') → rows = [].
Proof.
  intros Hn. unfold http_execute. unfold mbind at 1, M_bind at 1. destruct (set_options o c) as [[f|e|x] c1]; [|done|done].
  unfold mbind at 1, M_bind at 1. destruct (prepare_all w f rs c1) as [[ps|e|x] c2] eqn:Hp; [|done|done].
  apply prepare_all_none in Hp; [|done]. destruct (negb _); [by intros [= <- <-]|].
  rewrite modify_bind. unfold mbind, M_bind. destruct (run_all w ps _) as [[xs|e|x] c3] eqn:Hr; [|done|done].
  by destruct (run_all_none w ps Hp _ xs c3 Hr).
Qed.

(** Once asked for, HTTP/2 over clear text stays. *)
Lemma cleartext_stays o c f c' :
  force_cleartext_http2 c = true → set_options o c = (Ok f, c') → force_cleartext_http2 c' = true.
Proof.
  intros Hc. unfold set_options. repeat (case_match; [done|]). rewrite modify_bind. intros [= <- <-]. simpl. by rewrite Hc.
Qed.

Module Demo.
Local Open Scope string_scope.

(** Two hosts, one of them a UNIX socket, with the same places *)
Definition parse (s : string) : option h2o_url :=
  if String.prefix "http://a/" s then Some (Url "a" (String.substring 8 100 s)) else
  if String.prefix "http://[unix:/s]/" s then Some (Url "[unix:/s]" (String.substring 16 100 s)) else None.

Definition w : world :=
  World parse (λ s, if String.prefix "/" s then Some (Url "" s) else None) (λ b r, Url (authority b) (rest r))
    (λ _ s,
       if bool_decide (rest (s_url s) = "/go") then Head 257 302 "Found" [("location", "/there")] EndOfStream else
       if bool_decide (rest (s_url s) = "/same") then Head 257 307 "Temporary" [("location", "/there")] EndOfStream else
       if bool_decide (rest (s_url s) = "/loop") then Head 257 302 "Again" [("location", "/loop")] (Chunks ["x"] None) else
       if bool_decide (rest (s_url s) = "/off") then Head 257 302 "Found" [("location", "/bad")] EndOfStream else
       if bool_decide (rest (s_url s) = "/bad") then HeadError "I/O error" else
       if bool_decide (rest (s_url s) = "/none") then Head 257 302 "Found" [("location", "?")] EndOfStream else
       Head 257 200 "OK" [("server", "s")] (Chunks ["hel"; "lo"] None))
    "0.1" 77.

Definition c0 : ctx := Ctx 0 0 false 0 0 10 "          " [].
Definition defaults : options := Options None None None None None None.
Definition post (u b : string) (hs : list (option (option string * option string))) : option http_request :=
  Some (HttpRequest (Some u) (Some "POST") (Some hs) (Some b)).
Definition fetch (u : string) : option http_request := Some (HttpRequest (Some u) None None None).
Definition call (l : list (option http_request)) := http_execute w (Some defaults) (Some l) c0.

(** The row of a request that is redirected has the message of the redirect. *)
Lemma redirect_message_kept :
  (call [fetch "http://a/go"]).1 = Ok [ResponseRow 257 200 [("server", "s")] "hello" (Some "Found")].
Proof. vm_compute. reflexivity. Qed.

(** The error of a request that is redirected is not returned. *)
Lemma redirect_error_lost :
  (call [fetch "http://a/bad"]).1 = Ok [ErrorRow "I/O error"] ∧
  (call [fetch "http://a/off"]).1 = Ok [ResponseRow 77 0 [] "" (Some "Found")].
Proof. split; vm_compute; reflexivity. Qed.

(** A location that is no URL fails the call, after the request was made. *)
Lemma bad_location :
  (call [fetch "http://a/none"]).1 = raise "location header value not a valid URL`" ∧
  length (sent (call [fetch "http://a/none"]).2) = 1%nat.
Proof. split; vm_compute; reflexivity. Qed.

(** Six requests, then the redirect itself is the response. *)
Lemma redirect_loop_ends :
  (call [fetch "http://a/loop"]).1 = Ok [ResponseRow 257 302 [("location", "/loop")] "x" (Some "Again")] ∧
  length (sent (call [fetch "http://a/loop"]).2) = 6%nat.
Proof. split; vm_compute; reflexivity. Qed.

(** With two bodies, the length of the first is that of neither. *)
Lemma lengths_overwritten :
  (λ s, (String.length (s_body s), s_headers s)) <$>
    sent (call [post "http://a/x" "hello world" []; post "http://a/x" "abc" []]).2 =
  [(11%nat, [("user-agent", "omni_httpc/0.1"); ("content-length", "31")]);
   (3%nat, [("user-agent", "omni_httpc/0.1"); ("content-length", "3")])].
Proof. vm_compute. reflexivity. Qed.

(** A content length that is given is sent along with the computed one, and one of them
    remains when the body is dropped. *)
Lemma length_given_twice :
  (λ s, (s_method s, s_body s, s_headers s)) <$>
    sent (call [post "http://a/go" "abc" [Some (Some "content-length", Some "3")]]).2 =
  [("POST", "abc", [("content-length", "3"); ("user-agent", "omni_httpc/0.1"); ("content-length", "3")]);
   ("GET", "", [("user-agent", "omni_httpc/0.1"); ("content-length", "3")])].
Proof. vm_compute. reflexivity. Qed.

(** A redirect with no host in it leads nowhere from a UNIX socket. *)
Lemma unix_redirect_nowhere :
  s_url <$> sent (call [fetch "http://[unix:/s]/go"]).2 = [Url "" "/go"; Url "" "/there"].
Proof. vm_compute. reflexivity. Qed.

(** NULL among the requests, or instead of the options *)
Lemma null_among_requests :
  (call [fetch "http://a/x"; None]).1 = Undefined "request was not initialised" ∧ (call [None; None]).1 = Ok [] ∧
  (http_execute w None (Some [fetch "http://a/x"]) c0).1 = Undefined "options are NULL".
Proof. split_and!; vm_compute; reflexivity. Qed.

Lemma single_request_length_witness :
  s_headers (Sent "POST" (Url "a" "/same") [("user-agent", "omni_httpc/0.1"); ("content-length", "11")] "hello world") =
  [("user-agent", "omni_httpc/0.1"); ("content-length", "11")].
Proof.
  apply (single_request_length w defaults (HttpRequest (Some "http://a/same") (Some "POST") None (Some "hello world")) c0
    [ResponseRow 257 200 [("server", "s")] "hello" (Some "Temporary")]
    (Ctx 0 0 false 5000 5000 10 "11        "
       [Sent "POST" (Url "a" "/same") [("user-agent", "omni_httpc/0.1"); ("content-length", "11")] "hello world";
        Sent "POST" (Url "a" "/there") [("user-agent", "omni_httpc/0.1"); ("content-length", "11")] "hello world"])
    _ [Sent "POST" (Url "a" "/there") [("user-agent", "omni_httpc/0.1"); ("content-length", "11")] "hello world"]).
  - vm_compute. reflexivity.
  - reflexivity.
  - vm_compute. lia.
Defined.
End Demo.
End Httpc.
