(* ===== verification/Yregress.v ===== *)
(** * The test runner: [pg_yregress]

    pg_yregress/test.c, pg_yregress.c, instance.c, yaml.c and str.c: documents of
    tests, what they are checked against, the transactions they run in and the
    report, with the comparison of nodes of libfyaml (deps/libfyaml).

    A test is right when its node, after what was observed has been put into it,
    is still the node it was.  The client library of PostgreSQL, the servers
    and the conversions of libfyaml are parameters; keys of mappings are
    scalars. *)

From Stdlib Require Import ZArith Lia String Ascii.
From stdpp Require Import base tactics list gmap strings numbers sorting pretty.
From S2P Require Import Prelude.

Local Open Scope Z_scope.

Module Yregress.

(** ** Nodes

    A scalar has an attribute that says it is not a boolean, whatever its text. *)
Inductive ynode :=
  | YScalar (s : string) (definitely_not_a_bool : bool)
  | YSeq (l : list ynode)
  | YMap (l : list (string * ynode)).

Abbreviation scalar s := (YScalar s false).

Definition true_texts : list string :=
  ["y"; "Y"; "yes"; "Yes"; "YES"; "true"; "True"; "TRUE"; "on"; "On"; "ON"]%string.
Definition false_texts : list string :=
  ["n"; "N"; "no"; "No"; "NO"; "false"; "False"; "FALSE"; "off"; "Off"; "OFF"]%string.

Definition boolean_text (s : string) : bool := bool_decide (s ∈ true_texts ++ false_texts).

Definition fy_node_is_boolean (n : ynode) : bool := match n with YScalar s _ => boolean_text s | _ => false end.
Definition fy_node_get_boolean (n : ynode) : bool :=
  match n with YScalar s _ => bool_decide (s ∈ true_texts) | _ => false end.
Definition fy_node_is_scalar (n : ynode) : bool := match n with YScalar _ _ => true | _ => false end.

(** Lookup, removal and addition of a key; a key that is there is not added. *)
Fixpoint lookup_pair (k : string) (l : list (string * ynode)) : option ynode :=
  match l with
  | [] => None
  | p :: l' => if bool_decide (p.1 = k) then Some p.2 else lookup_pair k l'
  end.

Definition fy_node_mapping_lookup (n : ynode) (k : string) : option ynode :=
  match n with YMap l => lookup_pair k l | _ => None end.

Fixpoint remove_pair (k : string) (l : list (string * ynode)) : list (string * ynode) :=
  match l with
  | [] => []
  | p :: l' => if bool_decide (p.1 = k) then l' else p :: remove_pair k l'
  end.

Definition fy_node_mapping_remove_by_key (n : ynode) (k : string) : ynode :=
  match n with YMap l => YMap (remove_pair k l) | _ => n end.

Definition fy_node_mapping_append (n : ynode) (k : string) (v : ynode) : ynode :=
  match n with
  | YMap l => if bool_decide (k ∈ l.*1) then n else YMap (l ++ [(k, v)])
  | _ => n
  end.

(** *** Comparison

    [boolean_aware_cmp_fn]; keys have no attribute. *)
Definition boolean_aware_cmp (a : string) (na : bool) (b : string) (nb : bool) : comparison :=
  if boolean_text a && boolean_text b && negb (na || nb) then
    match bool_decide (a ∈ true_texts), bool_decide (b ∈ true_texts) with
    | true, true | false, false => Eq
    | false, true => Lt
    | true, false => Gt
    end
  else String.compare a b.

Definition key_le (p q : string * ynode) : Prop := boolean_aware_cmp p.1 false q.1 false ≠ Gt.

#[export] Instance key_le_dec : RelDecision key_le.
Proof. intros p q. unfold key_le. destruct (boolean_aware_cmp _ _ _ _); [left|left|right]; congruence. Defined.

(** The pairs of all mappings in the order in which they are compared *)
Fixpoint sorted (n : ynode) : ynode :=
  match n with
  | YScalar s b => YScalar s b
  | YSeq l => YSeq (map sorted l)
  | YMap l => YMap (merge_sort key_le (map (λ p, (p.1, sorted p.2)) l))
  end.

Fixpoint compare_sorted (a b : ynode) : bool :=
  match a, b with
  | YScalar s na, YScalar t nb =>
      match boolean_aware_cmp s na t nb with Eq => true | _ => false end
  | YSeq l, YSeq m =>
      (fix seq l m := match l, m with
                      | [], [] => true
                      | x :: l', y :: m' => compare_sorted x y && seq l' m'
                      | _, _ => false
                      end) l m
  | YMap l, YMap m =>
      (fix map l m := match l, m with
                      | [], [] => true
                      | (k, x) :: l', (k', y) :: m' =>
                          match boolean_aware_cmp k false k' false with Eq => true | _ => false end &&
                          compare_sorted x y && map l' m'
                      | _, _ => false
                      end) l m
  | _, _ => false
  end.

(** A copy has no attributes. *)
Fixpoint fy_node_copy (n : ynode) : ynode :=
  match n with
  | YScalar s _ => YScalar s false
  | YSeq l => YSeq (map fy_node_copy l)
  | YMap l => YMap (map (λ p, (p.1, fy_node_copy p.2)) l)
  end.

(** [fy_node_compare_user] *)
Definition fy_node_compare (a b : ynode) : bool := compare_sorted (sorted a) (sorted b).

(** ** Results *)

(** A result: success ([PGRES_COMMAND_OK] or [PGRES_TUPLES_OK]), the fields of an error, the
    columns with their types, and the rows, in which NULL is [None] *)
Record PGresult := MkPGresult {
  success : bool;
  message_primary : option string;
  severity : option string;
  message_detail : option string;
  columns : list (string * Z);
  tuples : list (list (option string))
}.

Record types := Types { t_json : Z; t_jsonb : Z; t_boolean : Z }.

Definition isspace (c : ascii) : bool := Ascii.is_space c.

(** The text up to the last character that is not a space *)
Fixpoint trim_trailing_whitespace (s : string) : string :=
  match s with
  | EmptyString => EmptyString
  | String c s' =>
      match trim_trailing_whitespace s' with
      | EmptyString => if isspace c then EmptyString else String c EmptyString
      | t => String c t
      end
  end.

Definition not_null {A} (why : string) (a : option A) : result A :=
  match a with Some a => Ok a | None => Undefined why end.

(** A query has failed: the node is made a mapping, has no results, and has an error, in
    the form in which one is there. *)
Definition failed_node (n : ynode) (res : PGresult) : result ynode :=
  let n := if fy_node_is_scalar n then YMap [("query"%string, n)] else n in
  let n := fy_node_mapping_remove_by_key n "results" in
  let existing_error := fy_node_mapping_lookup n "error" in
  if match existing_error with Some e => fy_node_is_boolean e | None => false end then
    Ok (fy_node_mapping_append (fy_node_mapping_remove_by_key n "error") "error" (scalar "true"))
  else
    msg ← not_null "strdup of NULL" (message_primary res);
    let error := scalar (trim_trailing_whitespace msg) in
    let n := fy_node_mapping_remove_by_key n "error" in
    if match existing_error with Some e => fy_node_is_scalar e | None => true end then
      Ok (fy_node_mapping_append n "error" error)
    else
      sev ← not_null "strdup of NULL" (severity res);
      let error_node := YMap [("severity", scalar sev); ("message", error)]%string in
      let error_node :=
        match existing_error ≫= λ e, fy_node_mapping_lookup e "detail" with
        | Some _ => fy_node_mapping_append error_node "detail" (scalar (default ""%string (message_detail res)))
        | None => error_node
        end in
      Ok (fy_node_mapping_append n "error" error_node).

(** *** Values *)

Definition hex_digit (z : Z) : ascii :=
  Ascii.ascii_of_nat (Z.to_nat (if z <? 10 then 48 + z else 87 + z)).

(** [sprintf] with [%02x] of a [char], which is signed *)
Definition hex_char (c : ascii) : string :=
  let b := Z.of_N (Ascii.N_of_ascii c) in
  let d := String (hex_digit (b / 16)) (String (hex_digit (b mod 16)) EmptyString) in
  if 128 <=? b then ("ffffff" +:+ d)%string else d.

Fixpoint hex_chars (s : string) : string :=
  match s with EmptyString => EmptyString | String c s' => hex_char c +:+ hex_chars s' end.

(** The buffer has two characters per byte. *)
Definition hex_value (s : string) : result ynode :=
  let h := hex_chars s in
  if (2 * String.length s <? String.length h)%nat then Undefined "sprintf beyond the buffer"
  else Ok (scalar ("0x" +:+ h)).

Section results.
Context (fy_node_build_from_string : string → option ynode) (ty : types).

Definition not_a_bool (n : ynode) : ynode := match n with YScalar s _ => YScalar s true | _ => n end.

Definition value_node (binary : bool) (column_type : Z) (v : option string) : result ynode :=
  let str_value := default "null"%string v in
  if binary then hex_value (default ""%string v)
  else if (column_type =? t_json ty) || (column_type =? t_jsonb ty) then
    Ok (not_a_bool (default (scalar "") (fy_node_build_from_string str_value)))
  else if column_type =? t_boolean ty then
    Ok (scalar (if String.prefix "t" str_value then "true" else "false"))
  else Ok (YScalar str_value true).

Fixpoint row_node (binary : bool) (row_map : ynode) (cols : list (string * Z)) (vs : list (option string)) :
  result ynode :=
  match cols, vs with
  | (name, t) :: cols', v :: vs' =>
      x ← value_node binary t v;
      row_node binary (fy_node_mapping_append row_map name x) cols' vs'
  | _, _ => Ok row_map
  end.

Fixpoint rows_node (binary : bool) (cols : list (string * Z)) (rows : list (list (option string))) : result (list ynode) :=
  match rows with
  | [] => Ok []
  | r :: rows' => x ← row_node binary (YMap []) cols r; xs ← rows_node binary cols rows'; Ok (x :: xs)
  end.

(** A query has succeeded: there is no error, and the results are in place of those that
    are there. *)
Definition succeeded_node (binary : bool) (n : ynode) (res : PGresult) : result ynode :=
  let n := fy_node_mapping_remove_by_key n "error" in
  match fy_node_mapping_lookup n "results" with
  | None => Ok n
  | Some _ =>
      rows ← rows_node binary (columns res) (tuples res);
      Ok (fy_node_mapping_append (fy_node_mapping_remove_by_key n "results") "results" (YSeq rows))
  end.

Definition notices_node (n : ynode) (notices : list string) : ynode :=
  match fy_node_mapping_lookup n "notices" with
  | None => n
  | Some _ =>
      fy_node_mapping_append (fy_node_mapping_remove_by_key n "notices") "notices" (YSeq (map (λ s, scalar s) notices))
  end.
End results.

(** ** Tests *)

Inductive ytest_kind := ytest_kind_none | ytest_kind_query (query : string) | ytest_kind_steps | ytest_kind_tests
  | ytest_kind_restart.

(** [ytest] without its node; the path is that of the node in the document. *)
Record info := Info {
  t_name : option string;
  t_path : string;
  instance : option nat;
  kind : ytest_kind;
  commit : bool;
  negative : bool;
  reset : bool;
  transaction : bool;
  database : option string
}.

(** A test with its node and the tests of its steps, whose nodes are in that node *)
Inductive ytest := Ytest (i : info) (node : ynode) (subs : list ytest).

Definition info_of (t : ytest) : info := match t with Ytest i _ _ => i end.
Definition node_of (t : ytest) : ynode := match t with Ytest _ n _ => n end.

(** Newlines and hashes are not printed. *)
Fixpoint printable (s : string) : string :=
  match s with
  | EmptyString => EmptyString
  | String c s' =>
      String (if Ascii.eqb c "010" then " "%char else if Ascii.eqb c "#" then "%"%char else c) (printable s')
  end.

Definition ytest_name (i : info) : string :=
  match t_name i, kind i with
  | Some s, _ => s
  | None, ytest_kind_query q => printable q
  | None, _ => t_path i
  end.

(** *** Reading of tests *)

(** The only instance, or the first that is marked *)
Definition default_instance (instances : list (string * bool)) : option nat :=
  match instances with
  | [] => None
  | [_] => Some O
  | _ => fst <$> list_find (λ x : string * bool, x.2 = true) instances
  end.

(** A flag: its default, or nothing if it is no boolean *)
Definition flag (n : ynode) (k : string) (d : bool) : option bool :=
  match fy_node_mapping_lookup n k with
  | None => Some d
  | Some v => if fy_node_is_boolean v then Some (fy_node_get_boolean v) else None
  end.

Definition scalar_text (n : ynode) : option string := match n with YScalar s _ => Some s | _ => None end.

Definition populate_database (managed : bool) (n : ynode) : option (option string) :=
  match fy_node_mapping_lookup n "database" with
  | None => Some None
  | Some v => match scalar_text v with Some s => if managed then Some (Some s) else None | None => None end
  end.

Definition populate_instance (instances : list (string * bool)) (n : ynode) : option nat :=
  match fy_node_mapping_lookup n "instance" with
  | None => default_instance instances
  | Some v => s ← scalar_text v; fst <$> list_find (λ x, x.1 = s) instances
  end.

(** What is done: [None] for a conflict *)
Definition populate_kind (managed : bool) (n : ynode) : option (ytest_kind * bool) :=
  k ← (match fy_node_mapping_lookup n "query" with
       | None => Some (ytest_kind_none, false)
       | Some q => s ← scalar_text q; Some (ytest_kind_query s, true)
       end);
  k ← (match fy_node_mapping_lookup n "steps" with
       | None => Some k
       | Some (YSeq _) => if (k.2 : bool) then None else Some (ytest_kind_steps, true)
       | Some _ => None
       end);
  k ← (match fy_node_mapping_lookup n "tests" with
       | None => Some k
       | Some (YSeq _) => if (k.2 : bool) then None else Some (ytest_kind_tests, true)
       | Some _ => None
       end);
  match fy_node_mapping_lookup n "restart" with
  | None => Some k
  | Some _ => if managed then Some (ytest_kind_restart, true) else None
  end.

Definition negated (n : ynode) (k : string) : bool :=
  match fy_node_mapping_lookup n k with
  | Some v => negb (fy_node_is_boolean v && negb (fy_node_get_boolean v))
  | None => false
  end.

(** [populate_ytest_from_fy_node]; the fuel is for the depth of nodes. *)
Fixpoint populate_ytest_from_fy_node (fuel : nat) (instances : list (string * bool)) (managed : bool) (path : string)
    (n : ynode) : option ytest :=
  match fuel with
  | O => None
  | S fuel' =>
      match n with
      | YScalar s _ =>
          i ← default_instance instances;
          Some (Ytest (Info (Some s) path (Some i) (ytest_kind_query s) false false false false None) n [])
      | YSeq _ => Some (Ytest (Info None path None ytest_kind_none false false false false None) n [])
      | YMap _ =>
          cm ← flag n "commit" false;
          rs ← flag n "reset" false;
          db ← populate_database managed n;
          tx ← flag n "transaction" true;
          ng ← flag n "negative" false;
          i ← populate_instance instances n;
          k ← populate_kind managed n;
          let name := fy_node_mapping_lookup n "name" ≫= scalar_text in
          let '(key, l) :=
            match fy_node_mapping_lookup n "steps", fy_node_mapping_lookup n "tests" with
            | Some (YSeq l), _ => ("/steps/"%string, l)
            | _, Some (YSeq l) => ("/tests/"%string, l)
            | _, _ => (""%string, [])
            end in
          subs ← mapM (λ x : nat * ynode,
                   populate_ytest_from_fy_node fuel' instances managed (path +:+ key +:+ pretty x.1) x.2)
                   (zip (seq 0 (length l)) l);
          if (k.2 : bool) || negated n "skip" || negated n "todo"
          then Some (Ytest (Info name path (Some i) k.1 cm ng rs tx db) n subs) else None
      end
  end.

(** ** Running *)

(** The report.  A point may carry a directive or a message, and is followed by
    diagnostics when it failed. *)
Inductive directive := NoDirective | SKIP (reason : string) | TODO | Message (s : string).

Inductive line :=
  | Comment (s : string)
  | Subtest (level : nat) (name : string)
  | Plan (level : nat) (n : Z)
  | Point (level : nat) (ok : bool) (n : Z) (name : string) (d : directive)
  | Diagnostics (level : nat)
  | BailOut.

(** libpq and the servers, whose state is [E], with connections named by numbers; of
    [fprintf] and the like, what they make of nodes; the memory behind the
    text of a scalar *)
Record lib (E : Type) := Lib {
  PQconnectdb : nat → option string → E → Z * E;
  PQstatus : Z → E → bool;
  PQfinish : Z → E → E;
  PQreset : Z → E → E;
  PQexec : Z → string → E → PGresult * list string * E;
  PQexecParams : Z → string → list string → bool → bool → E → PGresult * list string * E;
  pg_ctl_restart : nat → E → E;
  fy_node_build_from_string : string → option ynode;
  fy_emit_node_to_string : ynode → string;
  sscanf_2hhx : string → option ascii;
  following : string → string;
  malloced : ascii
}.
Arguments PQconnectdb {E}.
Arguments PQstatus {E}.
Arguments PQfinish {E}.
Arguments PQreset {E}.
Arguments PQexec {E}.
Arguments PQexecParams {E}.
Arguments pg_ctl_restart {E}.
Arguments fy_node_build_from_string {E}.
Arguments fy_emit_node_to_string {E}.
Arguments sscanf_2hhx {E}.
Arguments following {E}.
Arguments malloced {E}.

Record yinstance := MkYinstance {
  i_name : string;
  i_mapping : bool;
  i_init : list ytest;
  i_conn : option Z;
  i_restarted : bool;
  i_types : types
}.

Definition set_conn (c : option Z) (i : yinstance) : yinstance :=
  MkYinstance (i_name i) (i_mapping i) (i_init i) c (i_restarted i) (i_types i).
Definition set_restarted (b : bool) (i : yinstance) : yinstance :=
  MkYinstance (i_name i) (i_mapping i) (i_init i) (i_conn i) b (i_types i).
Definition set_types (ty : types) (i : yinstance) : yinstance :=
  MkYinstance (i_name i) (i_mapping i) (i_init i) (i_conn i) (i_restarted i) ty.

(** [freed]: the connections that were finished *)
Record state (E : Type) := State {
  env : E; freed : list Z; tap : list line; tap_counter : Z; instances : list yinstance
}.
Arguments State {E}.
Arguments env {E}.
Arguments freed {E}.
Arguments tap {E}.
Arguments tap_counter {E}.
Arguments instances {E}.

(** What a run of a test gives: success, whether its query failed, and its node *)
Record outcome := Outcome { passed : bool; errored : bool; new_node : ynode }.

Inductive connect_result := yinstance_connect_success | yinstance_connect_failure | yinstance_connect_error.

Section running.
Context {E : Type} (L : lib E) (managed : bool).

Definition set_env (e : E) (s : state E) : state E := State e (freed s) (tap s) (tap_counter s) (instances s).
Definition taprintf (l : line) : M (state E) unit :=
  modify_st (λ s, State (env s) (freed s) (tap s ++ [l]) (tap_counter s) (instances s)).
Definition set_counter (n : Z) : M (state E) unit :=
  modify_st (λ s, State (env s) (freed s) (tap s) n (instances s)).
Definition update_instance (i : nat) (f : yinstance → yinstance) : M (state E) unit :=
  modify_st (λ s, State (env s) (freed s) (tap s) (tap_counter s) (alter f i (instances s))).

Definition finish (c : Z) : M (state E) unit :=
  modify_st (λ s, State (PQfinish L c (env s)) (c :: freed s) (tap s) (tap_counter s) (instances s)).

Definition connectdb (inst : nat) (db : option string) : M (state E) (Z * bool) :=
  s ← get_st;
  let '(c, e) := PQconnectdb L inst db (env s) in
  _ ← modify_st (λ s, State e (filter (λ x, x ≠ c) (freed s)) (tap s) (tap_counter s) (instances s));
  mret (c, PQstatus L c e).

(** A connection that is used must not have been finished. *)
Definition live (c : Z) : M (state E) unit :=
  s ← get_st; if bool_decide (c ∈ freed s) then undefined "connection was freed" else mret ().

(** The next point *)
Definition point (level : nat) (ok : bool) (name : string) (d : directive) : M (state E) unit :=
  s ← get_st;
  _ ← set_counter (tap_counter s + 1);
  taprintf (Point level ok (tap_counter s + 1) name d).

Definition exec (c : Z) (sql : string) : M (state E) (PGresult * list string) :=
  _ ← live c;
  s ← get_st;
  let '(r, notices, e) := PQexec L c sql (env s) in
  _ ← modify_st (set_env e); mret (r, notices).

Definition exec_when (b : bool) (c : Z) (sql : string) : M (state E) (list string) :=
  if b then r ← exec c sql; mret r.2 else mret [].

(** *** Parameters *)

Fixpoint hex_loop (n : nat) (j : Z) (sz : Z) (mem : string) (buf : list ascii) : result (list ascii) :=
  match n with
  | O => Ok buf
  | S n' =>
      let at_ := (2 + 2 * Z.to_nat j)%nat in
      if (String.length mem <? at_)%nat then Undefined "read beyond the text" else
      match sscanf_2hhx L (String.substring at_ (String.length mem) mem) with
      | None => hex_loop n' (j + 1) sz mem buf
      | Some b => if sz <=? j then Undefined "write beyond the buffer" else hex_loop n' (j + 1) sz mem (<[Z.to_nat j := b]> buf)
      end
  end.

Definition hex_prefix (mem : string) : bool := String.prefix "0x" mem || String.prefix "0X" mem.

Definition param_value (binary_params : bool) (n : ynode) : result string :=
  match n with
  | YScalar s _ =>
      if binary_params && hex_prefix (s +:+ following L s) then
        let len := Z.of_nat (String.length s) in
        if len <? 2 then Undefined "malloc failed" else
        let sz := (len - 2) / 2 in
        buf ← hex_loop (String.length s) 0 sz (s +:+ following L s) (replicate (Z.to_nat sz) (malloced L));
        Ok (string_of_list_ascii buf)
      else Ok s
  | _ => Ok (if binary_params then ""%string else fy_emit_node_to_string L n)
  end.

Fixpoint param_values (binary_params : bool) (l : list ynode) : result (list string) :=
  match l with
  | [] => Ok []
  | n :: l' => v ← param_value binary_params n; vs ← param_values binary_params l'; Ok (v :: vs)
  end.

(** [binary]: of the parameters, of the results *)
Definition binary_formats (n : ynode) : bool * bool :=
  match fy_node_mapping_lookup n "binary" with
  | None => (false, false)
  | Some b =>
      let both := fy_node_is_boolean b && fy_node_get_boolean b in
      match b with
      | YScalar "results" _ => (both, true)
      | YScalar "params" _ => (true, both)
      | _ => (both, both)
      end
  end.

(** *** A query

    Its notices and those of the end of its transaction are collected. *)
Definition run_query (c : Z) (ty : types) (i : info) (n : ynode) (query : string) (in_transaction : bool) :
  M (state E) (bool * ynode * list string) :=
  n1 ← exec_when (negb in_transaction) c "begin";
  let '(binary_params, binary_results) := binary_formats n in
  values ← (match fy_node_mapping_lookup n "params" with
            | None => mret []
            | Some (YSeq l) => lift_r (param_values binary_params l)
            | Some _ => undefined "result is not initialised"
            end);
  s ← get_st;
  let '(result, n2, e) := PQexecParams L c query values binary_params binary_results (env s) in
  _ ← modify_st (set_env e);
  r ← (if in_transaction then mret (success result, result, [])
       else
         tx ← exec c (if commit i then "commit" else "rollback");
         mret (if success result then (success tx.1, if success tx.1 then result else tx.1, tx.2)
               else (false, result, tx.2)));
  let '(status, result, n3) := r in
  node ← lift_r (if (status : bool) then succeeded_node (fy_node_build_from_string L) ty binary_results n result
                 else failed_node n result);
  mret (negb status, node, (n1 ++ n2 ++ n3)%list).

(** *** Directives *)

Definition skipped (n : ynode) : option string :=
  match fy_node_mapping_lookup n "skip" with
  | None => None
  | Some v =>
      if fy_node_is_boolean v then if fy_node_get_boolean v then Some ""%string else None
      else match v with YScalar s _ => Some s | _ => Some (fy_emit_node_to_string L v) end
  end.

Definition is_todo (n : ynode) : bool :=
  match fy_node_mapping_lookup n "todo" with
  | None => false
  | Some v => negb (fy_node_is_boolean v) || fy_node_get_boolean v
  end.

(** The connection a test runs on: a new one to another database, that of the test it is a
    step of, or that of its instance.  [None]: it was reported that there is
    none. *)
Definition connection (connect : nat → M (state E) connect_result) (i : info) (default_conn : option Z)
    (level : nat) : M (state E) (option Z) :=
  match instance i with
  | None => undefined "assertion failed"
  | Some inst =>
      match (if managed then database i else None), default_conn with
      | Some db, _ =>
          c ← connectdb inst (Some db);
          if (c.2 : bool) then mret (Some c.1)
          else _ ← point level false (ytest_name i) (Message "Can't connect"); mret None
      | None, Some c => _ ← live c; mret (Some c)
      | None, None =>
          r ← connect inst;
          match r with
          | yinstance_connect_success =>
              s ← get_st;
              match instances s !! inst ≫= i_conn with
              | Some c => mret (Some c)
              | None => undefined "assertion failed"
              end
          | _ => _ ← point level false (ytest_name i) (Message "Can't reconnect to the instance"); mret None
          end
      end
  end.

Definition instance_types (s : state E) (i : info) : types :=
  match instance i ≫= (instances s !!.) with Some x => i_types x | None => Types 0 0 0 end.

(** The verdict *)
Definition report (i : info) (original node : ynode) (was_errored : bool) (level : nat) : M (state E) outcome :=
  let ok := eqb (fy_node_compare node (fy_node_copy original)) (negb (negative i)) in
  let todo := is_todo node in
  _ ← point level ok (ytest_name i) (if todo then TODO else NoDirective);
  _ ← when (negb ok && match kind i with ytest_kind_steps => false | _ => true end) (taprintf (Diagnostics level));
  mret (Outcome (todo || ok) was_errored node).

Definition end_of_test (i : info) (c : Z) : M (state E) unit :=
  match (if managed then database i else None) with
  | Some _ => finish c
  | None => mret ()
  end.

Definition replace_value (k : string) (v : ynode) (n : ynode) : ynode :=
  match n with
  | YMap l => YMap (map (λ p, if bool_decide (p.1 = k) then (p.1, v) else p) l)
  | _ => n
  end.

(** The steps of a test, whose node they return; after one that failed, the others are
    skipped.  After an error that was expected, or when a step commits, a new
    transaction is begun. *)
Section steps.
Context (run : ytest → M (state E) outcome) (c : Z) (in_transaction : bool) (level : nat).

Definition between (y : ytest) (o : outcome) : M (state E) (list string) :=
  if passed o then
    if errored o then
      m1 ← exec c "rollback"; m2 ← exec c "begin"; mret (m1.2 ++ m2.2)%list
    else if negb in_transaction && commit (info_of y) then
      m1 ← exec c "commit"; m2 ← exec c "begin"; mret (m1.2 ++ m2.2)%list
    else mret []
  else mret [].

Fixpoint steps (l : list ytest) (step_failed : bool) : M (state E) (list ynode * list string) :=
  match l with
  | [] => mret ([], [])
  | y :: l' =>
      if step_failed then
        _ ← point (S level) true (ytest_name (info_of y)) (SKIP "");
        r ← steps l' true; mret (node_of y :: r.1, r.2)
      else
        o ← run y;
        ns ← between y o;
        r ← steps l' (negb (passed o));
        mret (new_node o :: r.1, (ns ++ r.2)%list)
  end.
End steps.

(** [ytest_kind_steps] and [ytest_kind_tests] *)
Definition run_group (run : ytest → M (state E) outcome) (i : info) (tests : bool) (original : ynode)
    (subs : list ytest) (c : Z) (in_transaction : bool) (level : nat) : M (state E) outcome :=
  let own := (tests && transaction i) || negb in_transaction in
  let key := if tests then "tests"%string else "steps"%string in
  n1 ← exec_when own c "begin";
  _ ← taprintf (Subtest level (ytest_name i));
  s ← get_st;
  _ ← set_counter 0;
  _ ← taprintf (Plan (S level)
        (match fy_node_mapping_lookup original key with Some (YSeq l) => Z.of_nat (length l) | _ => -1 end));
  r ← steps run c in_transaction level subs false;
  let '(nodes, n2) := r in
  _ ← set_counter (tap_counter s);
  _ ← live c;
  n3 ← exec_when own c (if commit i then "commit" else "rollback");
  o ← report i original (notices_node (replace_value key (YSeq nodes) original) (n1 ++ n2 ++ n3)) false level;
  _ ← end_of_test i c; mret o.

(** [ytest_run_internal]; the nodes of the steps are part of the node. *)
Fixpoint ytest_run_internal (connect : nat → M (state E) connect_result) (default_conn : option Z) (t : ytest)
    (in_transaction : bool) (level : nat) : M (state E) outcome :=
  match t with
  | Ytest i original subs =>
      match skipped original with
      | Some reason => _ ← point level true (ytest_name i) (SKIP reason); mret (Outcome true false original)
      | None =>
          oc ← connection connect i default_conn level;
          match oc with
          | None => mret (Outcome false false original)
          | Some c =>
              _ ← when (reset i && negb in_transaction) (modify_st (λ s, set_env (PQreset L c (env s)) s));
              s ← get_st;
              match kind i with
              | ytest_kind_restart =>
                  _ ← finish c;
                  _ ← update_instance (default O (instance i)) (set_conn None);
                  _ ← point level true (ytest_name i) NoDirective;
                  _ ← modify_st (λ s, set_env (pg_ctl_restart L (default O (instance i)) (env s)) s);
                  _ ← update_instance (default O (instance i)) (set_restarted true);
                  mret (Outcome true false original)
              | ytest_kind_none =>
                  o ← report i original (notices_node original []) false level;
                  _ ← end_of_test i c; mret o
              | ytest_kind_query q =>
                  r ← run_query c (instance_types s i) i original q in_transaction;
                  let '(err, node, notices) := r in
                  o ← report i original (notices_node node notices) err level;
                  _ ← end_of_test i c; mret o
              | ytest_kind_steps | ytest_kind_tests =>
                  let tests := match kind i with ytest_kind_tests => true | _ => false end in
                  run_group (λ y, ytest_run_internal connect (Some c) y (negb (tests && transaction i)) (S level))
                    i tests original subs c in_transaction level
              end
          end
      end
  end.

(** *** Instances *)

Definition digit (c : ascii) : option Z :=
  let n := Z.of_N (Ascii.N_of_ascii c) in if (48 <=? n) && (n <=? 57) then Some (n - 48) else None.

Fixpoint atoi_from (acc : Z) (s : string) : Z :=
  match s with
  | EmptyString => acc
  | String c s' => match digit c with Some d => atoi_from (10 * acc + d) s' | None => acc end
  end.

(** A row of [pg_type]: its name is compared over its own length. *)
Definition fetch_type (ty : types) (row : list (option string)) : types :=
  match row with
  | [oid; name] =>
      let oid := wrap_u 32 (atoi_from 0 (default ""%string oid)) in
      let type_name := default ""%string name in
      if String.prefix type_name "json" then Types oid (t_jsonb ty) (t_boolean ty)
      else if String.prefix type_name "jsonb" then Types (t_json ty) oid (t_boolean ty)
      else if String.prefix type_name "bool" then Types (t_json ty) (t_jsonb ty) oid
      else ty
  | _ => ty
  end.

Definition fetch_types (inst : nat) (c : Z) : M (state E) bool :=
  r ← exec c "select oid, typname from pg_type";
  if success r.1 then
    _ ← update_instance inst (λ x, set_types (foldl fetch_type (i_types x) (tuples r.1)) x); mret true
  else mret false.

(** The node of a test has changed, and those of its steps with it. *)
Definition children (n : ynode) : list ynode :=
  match fy_node_mapping_lookup n "steps", fy_node_mapping_lookup n "tests" with
  | Some (YSeq l), _ => l
  | _, Some (YSeq l) => l
  | _, _ => []
  end.

Fixpoint renew (t : ytest) (n : ynode) : ytest :=
  match t with
  | Ytest i _ subs =>
      Ytest i n ((fix go (subs : list ytest) (ns : list ynode) :=
                    match subs, ns with
                    | s :: subs', m :: ns' => renew s m :: go subs' ns'
                    | _, _ => subs
                    end) subs (children n))
  end.

Definition set_init (k : nat) (n : ynode) (i : yinstance) : yinstance :=
  MkYinstance (i_name i) (i_mapping i) (alter (λ t, renew t n) k (i_init i)) (i_conn i) (i_restarted i) (i_types i).

Inductive init_result := InitDone (ok : bool) | InitRestarted (next : nat).

(** The steps from some number on, until one fails or restarts the instance *)
Fixpoint init_steps (connect : nat → M (state E) connect_result) (inst : nat) (cur : nat) (l : list ytest) :
  M (state E) init_result :=
  match l with
  | [] => mret (InitDone true)
  | t :: l' =>
      o ← ytest_run_internal connect None t true 1;
      _ ← update_instance inst (set_init cur (new_node o));
      if negb (passed o) then mret (InitDone false) else
      s ← get_st;
      if match instances s !! inst with Some x => i_restarted x | None => false end then mret (InitRestarted (S cur))
      else init_steps connect inst (S cur) l'
  end.

(** [yinstance_connect] from the label on; it is reached again after each restart. *)
Fixpoint connect_from (connect : nat → M (state E) connect_result) (turns : nat) (inst : nat) (init_step : nat)
    (old_tap_counter : Z) : M (state E) connect_result :=
  match turns with
  | O => undefined "out of turns"
  | S turns' =>
      _ ← update_instance inst (set_restarted false);
      s ← get_st;
      match instances s !! inst with
      | None => undefined "no such instance"
      | Some x =>
          if match i_conn x with Some c => PQstatus L c (env s) | None => false end
          then mret yinstance_connect_success else
          c ← connectdb inst None;
          _ ← update_instance inst (set_conn (Some c.1));
          if negb (c.2 : bool) then mret yinstance_connect_failure else
          r ← (if negb (i_mapping x) || (length (i_init x) =? 0)%nat then mret (InitDone true)
               else
                 _ ← when (init_step =? 0)%nat
                       (_ ← taprintf (Subtest 0 (i_name x));
                        _ ← taprintf (Plan 1 (Z.of_nat (length (i_init x)))); set_counter 0);
                 init_steps connect inst init_step (drop init_step (i_init x)));
          match r with
          | InitRestarted next => connect_from connect turns' inst next old_tap_counter
          | InitDone ok =>
              _ ← when (i_mapping x && negb (length (i_init x) =? 0)%nat) (set_counter old_tap_counter);
              _ ← when (i_mapping x) (point 0 ok (i_name x) NoDirective);
              if negb ok then mret yinstance_connect_error else
              b ← fetch_types inst c.1;
              mret (if (b : bool) then yinstance_connect_success else yinstance_connect_error)
          end
      end
  end.

(** An init step that finds the connection broken connects again, which is the fuel; a
    step restarts the instance at most once. *)
Fixpoint yinstance_connect (fuel : nat) (inst : nat) : M (state E) connect_result :=
  match fuel with
  | O => undefined "out of fuel"
  | S fuel' =>
      s ← get_st;
      let n := match instances s !! inst with Some x => length (i_init x) | None => O end in
      connect_from (yinstance_connect fuel') (S n) inst 0 (tap_counter s)
  end.

(** *** Documents *)

Fixpoint uses (t : ytest) : list nat :=
  match t with Ytest i _ subs => (match instance i with Some x => [x] | None => [] end) ++ mjoin (map uses subs) end.

Definition used_instances (n : nat) (tests : list ytest) : list nat :=
  filter (λ k, k ∈ mjoin (map uses tests)) (seq 0 n).

(** [yinstance_start], when the server is up: [false] if it is not ready *)
Definition yinstance_start (fuel : nat) (inst : nat) : M (state E) bool :=
  r ← yinstance_connect fuel inst;
  mret (match r with yinstance_connect_error => false | _ => true end).

Fixpoint start_all (fuel : nat) (l : list nat) : M (state E) bool :=
  match l with
  | [] => mret true
  | inst :: l' =>
      ready ← yinstance_start fuel inst;
      if negb (ready : bool) then _ ← taprintf BailOut; mret false
      else _ ← yinstance_connect fuel inst; start_all fuel l'
  end.

(** [ytest_run] and [ytest_run_without_transaction] *)
Definition run_test (fuel : nat) (t : ytest) : M (state E) outcome :=
  ytest_run_internal (yinstance_connect fuel) None t (negb (transaction (info_of t))) 0.

Fixpoint run_tests (fuel : nat) (l : list ytest) : M (state E) bool :=
  match l with
  | [] => mret true
  | t :: l' => o ← run_test fuel t; b ← run_tests fuel l'; mret (passed o && b)
  end.

(** [execute_document] when its tests have been read: the exit code *)
Definition execute_document (fuel : nat) (tests : list ytest) : M (state E) Z :=
  s ← get_st;
  let used := used_instances (length (instances s)) tests in
  _ ← taprintf (Comment "TAP version 14");
  _ ← taprintf (Plan 0 (1 + Z.of_nat (length tests) + Z.of_nat (length used)));
  _ ← taprintf (Comment "Initializing instances");
  ready ← start_all fuel used;
  if negb (ready : bool) then mret 1 else
  _ ← taprintf (Comment "Done initializing instances");
  b ← run_tests fuel tests;
  mret (if (b : bool) then 0 else 1).
End running.

(** ** Comparison of nodes *)

Section ynode_tree_ind.
Context (P : ynode → Prop) (Hs : ∀ s b, P (YScalar s b)) (Hq : ∀ l, Forall P l → P (YSeq l))
  (Hm : ∀ l, Forall (λ p, P p.2) l → P (YMap l)).

Fixpoint ynode_tree_ind (n : ynode) : P n :=
  match n with
  | YScalar s b => Hs s b
  | YSeq l => Hq l ((fix go l : Forall P l := match l with [] => List.Forall_nil _ | x :: l' => List.Forall_cons _ x _ (ynode_tree_ind x) (go l') end) l)
  | YMap l => Hm l ((fix go l : Forall (λ p, P p.2) l :=
                       match l with [] => List.Forall_nil _ | x :: l' => List.Forall_cons _ x _ (ynode_tree_ind x.2) (go l') end) l)
  end.
End ynode_tree_ind.

Definition plain_key (k : string) : Prop := boolean_text k = false.

Lemma cmp_plain a na b nb : plain_key a → boolean_aware_cmp a na b nb = String.compare a b.
Proof. unfold boolean_aware_cmp, plain_key. by intros ->. Qed.

Lemma string_compare_refl s : String.compare s s = Eq.
Proof. induction s as [|c s IH]; simpl; [done|]. unfold Ascii.compare. by rewrite N.compare_refl. Qed.

Lemma cmp_refl s na nb : boolean_aware_cmp s na s nb = Eq.
Proof. unfold boolean_aware_cmp. rewrite string_compare_refl. by destruct (_ && _), (bool_decide (s ∈ true_texts)). Qed.

#[export] Instance key_le_total : Total key_le.
Proof.
  intros [k v] [k' v']. unfold key_le, boolean_aware_cmp. simpl. rewrite !andb_true_r.
  rewrite (andb_comm (boolean_text k')). destruct (boolean_text k && boolean_text k').
  - destruct (bool_decide (k ∈ true_texts)), (bool_decide (k' ∈ true_texts)); (left + right); done.
  - rewrite (String.compare_antisym k' k). destruct (String.compare k k'); (left + right); done.
Qed.

Lemma compare_sorted_seq l m :
  compare_sorted (YSeq l) (YSeq m) = true ↔ Forall2 (λ x y, compare_sorted x y = true) l m.
Proof.
  revert m. induction l as [|x l IH]; intros [|y m]; simpl; [by split|split; [done|by inversion 1]..|].
  split.
  - intros [H1 H2]%andb_true_iff. constructor; [done|]. by apply IH.
  - inversion 1; subst. apply andb_true_iff. split; [done|]. by apply IH.
Qed.

Lemma compare_sorted_map l m :
  compare_sorted (YMap l) (YMap m) = true ↔
  Forall2 (λ p q, boolean_aware_cmp p.1 false q.1 false = Eq ∧ compare_sorted p.2 q.2 = true) l m.
Proof.
  revert m. induction l as [|[k x] l IH]; intros [|[k' y] m]; simpl; [by split|split; [done|by inversion 1]..|].
  split.
  - intros [[H1 H2]%andb_true_iff H3]%andb_true_iff. constructor; [|by apply IH].
    simpl. split; [|done]. by destruct (boolean_aware_cmp k false k' false).
  - inversion 1 as [|???? [Hc Hx]]; simplify_eq/=. rewrite Hc, Hx. by apply IH.
Qed.

Lemma compare_refl n : compare_sorted n n = true.
Proof.
  induction n as [s b|l IH|l IH] using ynode_tree_ind.
  - simpl. by rewrite cmp_refl.
  - apply compare_sorted_seq. induction IH; by constructor.
  - apply compare_sorted_map. induction IH; constructor; [|done]. split; [apply cmp_refl|done].
Qed.

(** *** Mappings *)

Lemma lookup_pair_Some k v l : NoDup l.*1 → lookup_pair k l = Some v ↔ (k, v) ∈ l.
Proof.
  induction l as [|[k' v'] l IH]; simpl; intros Hnd; [split; [done|by intros ?%not_elem_of_nil]|].
  apply NoDup_cons in Hnd as [Hk Hnd]. rewrite elem_of_cons. case_bool_decide as Hk'; simplify_eq/=.
  - split; [intros [= ->]; by left|]. intros [[= ->]|Hin]; [done|].
    destruct Hk. apply list_elem_of_fmap. by exists (k, v).
  - rewrite (IH Hnd). split; [by right|]. intros [[= -> ->]|?]; [done|done].
Qed.

Lemma lookup_pair_None k l : lookup_pair k l = None ↔ k ∉ l.*1.
Proof.
  induction l as [|[k' v'] l IH]; simpl; [split; [by intros _ ?%not_elem_of_nil|done]|].
  rewrite not_elem_of_cons. case_bool_decide; simplify_eq/=; [split; [done|by intros [? _]]|]. rewrite IH.
  split; [by intros; split|by intros [_ ?]].
Qed.

(** The pairs as they are compared *)
Definition in_order (l : list (string * ynode)) : list (string * ynode) :=
  merge_sort key_le (map (λ p, (p.1, sorted p.2)) l).

Lemma elem_of_in_order k x l : (k, x) ∈ in_order l ↔ ∃ v, (k, v) ∈ l ∧ x = sorted v.
Proof.
  unfold in_order. rewrite merge_sort_Permutation, list_elem_of_fmap. split.
  - intros [[k' v] [[= -> ->] ?]]. by exists v.
  - intros (v & ? & ->). by exists (k, v).
Qed.

Lemma keys_in_order l : (in_order l).*1 ≡ₚ l.*1.
Proof.
  unfold in_order. rewrite merge_sort_Permutation. by rewrite <- list_fmap_compose.
Qed.

Lemma keys_sorted l : Forall plain_key l.*1 → Sorted String.le (in_order l).*1.
Proof.
  intros Hp. rewrite <- keys_in_order in Hp. pose proof (Sorted_merge_sort key_le (map (λ p, (p.1, sorted p.2)) l)) as Hs.
  fold (in_order l) in Hs. induction Hs as [|[k x] l' Hs IH Hhd]; simpl in *; [constructor|].
  apply Forall_cons in Hp as [Hk Hp]. constructor; [by apply IH|].
  destruct Hhd as [|[k' x'] l'' Hle]; constructor. unfold key_le in Hle. simpl in Hle. rewrite cmp_plain in Hle by done.
  unfold String.le, String.leb. simpl. by destruct (String.compare k k'); [| |destruct Hle].
Qed.

Lemma same_key_at (l m : list (string * ynode)) j k k' x y :
  l.*1 = m.*1 → l !! j = Some (k, x) → m !! j = Some (k', y) → k' = k.
Proof.
  intros Hkeys H1 H2. assert (l.*1 !! j = Some k) as H1' by (by rewrite list_lookup_fmap, H1).
  assert (m.*1 !! j = Some k') as H2' by (by rewrite list_lookup_fmap, H2). congruence.
Qed.

Definition agrees (a b : option ynode) : Prop :=
  match a, b with Some x, Some y => fy_node_compare x y = true | None, None => True | _, _ => False end.

(** Mappings are equal when they have the same keys with equal values. *)
Lemma compare_mappings l m :
  Forall plain_key l.*1 → Forall plain_key m.*1 → NoDup l.*1 → NoDup m.*1 →
  fy_node_compare (YMap l) (YMap m) = true ↔ ∀ k, agrees (lookup_pair k l) (lookup_pair k m).
Proof.
  intros Hpl Hpm Hl Hm. unfold fy_node_compare. cbn [sorted]. fold (in_order l) (in_order m).
  rewrite compare_sorted_map. split.
  - intros HF k. unfold agrees.
    assert (Hkeys : (in_order l).*1 = (in_order m).*1).
    { rewrite <- keys_in_order in Hpl. clear -HF Hpl. induction HF as [|[k x] [k' y] l' m' [Hc _] _ IH]; simpl in *; [done|].
      apply Forall_cons in Hpl as [Hk Hpl]. rewrite cmp_plain in Hc by done.
      apply String.compare_eq_iff in Hc as ->. f_equal. by apply IH. }
    destruct (lookup_pair k l) as [v|] eqn:Hv.
    + apply lookup_pair_Some in Hv; [|done].
      assert ((k, sorted v) ∈ in_order l) as [j Hj]%list_elem_of_lookup by (apply elem_of_in_order; by exists v).
      destruct (Forall2_lookup_l _ _ _ _ _ HF Hj) as ([k' y] & Hj' & Hc & Hcmp). simpl in *.
      assert (k' = k) as -> by exact (same_key_at _ _ _ _ _ _ _ Hkeys Hj Hj').
      apply list_elem_of_lookup_2 in Hj'. apply elem_of_in_order in Hj' as (v' & Hv' & ->).
      apply lookup_pair_Some in Hv'; [|done]. by rewrite Hv'.
    + apply lookup_pair_None in Hv. rewrite <- keys_in_order, Hkeys, keys_in_order in Hv.
      apply lookup_pair_None in Hv. by rewrite Hv.
  - intros Ha.
    assert (Hperm : l.*1 ≡ₚ m.*1).
    { apply NoDup_Permutation; [done|done|]. intros k. specialize (Ha k). unfold agrees in Ha.
      destruct (decide (k ∈ l.*1)) as [H1|H1], (decide (k ∈ m.*1)) as [H2|H2]; [done| | |done].
      - apply lookup_pair_None in H2. rewrite H2 in Ha. destruct (lookup_pair k l) eqn:He; [done|]. by apply lookup_pair_None in He.
      - apply lookup_pair_None in H1. rewrite H1 in Ha. destruct (lookup_pair k m) eqn:He; [done|]. by apply lookup_pair_None in He. }
    assert (Hkeys : (in_order l).*1 = (in_order m).*1).
    { apply (Sorted_unique String.le); [by apply keys_sorted..|]. by rewrite !keys_in_order. }
    apply Forall2_same_length_lookup. split; [apply (f_equal length) in Hkeys; by rewrite !length_fmap in Hkeys|].
    intros j [k x] [k' y] H1 H2.
    assert (k' = k) as -> by exact (same_key_at _ _ _ _ _ _ _ Hkeys H1 H2).
    apply list_elem_of_lookup_2, elem_of_in_order in H1 as (v & Hv & ->).
    apply list_elem_of_lookup_2, elem_of_in_order in H2 as (v' & Hv' & ->).
    apply lookup_pair_Some in Hv; [|done]. apply lookup_pair_Some in Hv'; [|done].
    specialize (Ha k). rewrite Hv, Hv' in Ha. split; [apply cmp_refl|exact Ha].
Qed.

(** ** The verdict on a query *)

(** Documents that were read: no attributes, keys that differ and are no booleans *)
Definition fresh (l : list (string * ynode)) : Prop :=
  NoDup l.*1 ∧ Forall plain_key l.*1 ∧ fy_node_copy (YMap l) = YMap l.

Lemma lookup_remove k l : NoDup l.*1 → ∀ k', lookup_pair k' (remove_pair k l) = if bool_decide (k' = k) then None else lookup_pair k' l.
Proof.
  intros Hnd k'. induction l as [|[k0 v] l IH]; simpl; [by case_bool_decide|].
  apply NoDup_cons in Hnd as [Hk0 Hnd]. specialize (IH Hnd). destruct (decide (k0 = k)) as [Heq|Hne].
  - rewrite (bool_decide_true (k0 = k)) by done. destruct (decide (k' = k)) as [Heq'|Hne'].
    + rewrite (bool_decide_true (k' = k)) by done. apply lookup_pair_None. by subst.
    + rewrite (bool_decide_false (k' = k)), (bool_decide_false (k0 = k')) by congruence. done.
  - rewrite (bool_decide_false (k0 = k)) by done. simpl. rewrite IH.
    destruct (decide (k0 = k')) as [Heq'|Hne']; [|by rewrite (bool_decide_false (k0 = k'))].
    by rewrite !(bool_decide_true (k0 = k')), (bool_decide_false (k' = k)) by congruence.
Qed.

Lemma remove_keys k l : (remove_pair k l).*1 `sublist_of` l.*1.
Proof. induction l as [|p l IH]; simpl; [done|]. case_bool_decide; simpl; [by apply sublist_cons|by apply sublist_skip]. Qed.

Lemma lookup_append k v l k' :
  lookup_pair k' (l ++ [(k, v)]) = match lookup_pair k' l with Some x => Some x | None => if bool_decide (k' = k) then Some v else None end.
Proof.
  induction l as [|[k0 x] l IH]; simpl; [|by destruct (bool_decide (k0 = k'))].
  destruct (decide (k = k')); [rewrite !bool_decide_true by done|rewrite !bool_decide_false by congruence]; done.
Qed.

(** A mapping whose value at a key was removed and added again *)
Definition put (k : string) (v : ynode) (l : list (string * ynode)) : list (string * ynode) := remove_pair k l ++ [(k, v)].

Lemma remove_NoDup k l : NoDup l.*1 → NoDup (remove_pair k l).*1.
Proof. intros H. eapply sublist_NoDup; [exact H|apply remove_keys]. Qed.

Lemma remove_plain k l : Forall plain_key l.*1 → Forall plain_key (remove_pair k l).*1.
Proof.
  intros H. apply list.Forall_forall. intros x Hx. rewrite list.Forall_forall in H. apply H.
  eapply elem_of_submseteq; [exact Hx|apply sublist_submseteq, remove_keys].
Qed.

Lemma removed_key k l : NoDup l.*1 → k ∉ (remove_pair k l).*1.
Proof. intros H. apply lookup_pair_None. rewrite lookup_remove by done. by rewrite bool_decide_true. Qed.

Lemma append_removed k v l :
  NoDup l.*1 → fy_node_mapping_append (YMap (remove_pair k l)) k v = YMap (put k v l).
Proof. intros H. simpl. rewrite bool_decide_false by (by apply removed_key). done. Qed.

Lemma put_NoDup k v l : NoDup l.*1 → NoDup (put k v l).*1.
Proof.
  intros H. unfold put. rewrite fmap_app. apply list.NoDup_app. split_and!; [by apply remove_NoDup| |apply NoDup_singleton].
  intros x Hx ->%list_elem_of_singleton. by apply (removed_key k l).
Qed.

Lemma put_plain k v l : plain_key k → Forall plain_key l.*1 → Forall plain_key (put k v l).*1.
Proof. intros Hk H. unfold put. rewrite fmap_app. apply list.Forall_app. split; [by apply remove_plain|by constructor]. Qed.

Lemma lookup_put k v l : NoDup l.*1 → ∀ k', lookup_pair k' (put k v l) = if bool_decide (k' = k) then Some v else lookup_pair k' l.
Proof.
  intros H k'. unfold put. rewrite lookup_append, lookup_remove by done.
  destruct (bool_decide_reflect (k' = k)); [done|]. by destruct (lookup_pair k' l).
Qed.

(** A value is replaced where there is one. *)
Definition update (k : string) (v : ynode) (l : list (string * ynode)) : list (string * ynode) :=
  match lookup_pair k l with None => l | Some _ => put k v l end.

Lemma lookup_update k v l : NoDup l.*1 → ∀ k',
  lookup_pair k' (update k v l) = if bool_decide (k' = k) then (λ _, v) <$> lookup_pair k l else lookup_pair k' l.
Proof.
  intros H k'. unfold update. destruct (lookup_pair k l) eqn:Hk; [by rewrite lookup_put|].
  case_bool_decide; [by subst|done].
Qed.

Lemma update_NoDup k v l : NoDup l.*1 → NoDup (update k v l).*1.
Proof. intros H. unfold update. destruct (lookup_pair k l); [by apply put_NoDup|done]. Qed.

Lemma update_plain k v l : plain_key k → Forall plain_key l.*1 → Forall plain_key (update k v l).*1.
Proof. intros Hk H. unfold update. destruct (lookup_pair k l); [by apply put_plain|done]. Qed.

#[local] Hint Resolve remove_NoDup remove_plain put_NoDup put_plain update_NoDup update_plain : core.

Lemma compare_changed l l' :
  fresh l → NoDup l'.*1 → Forall plain_key l'.*1 →
  fy_node_compare (YMap l') (fy_node_copy (YMap l)) = true ↔ ∀ k, agrees (lookup_pair k l') (lookup_pair k l).
Proof. intros (Hn & Hp & ->) Hn' Hp'. by apply compare_mappings. Qed.

Lemma agrees_refl x : agrees x x.
Proof. destruct x; [|done]. apply compare_refl. Qed.

(** An observation is as expected, if anything is. *)
Definition met (expected : option ynode) (observed : ynode) : bool :=
  match expected with None => true | Some e => fy_node_compare observed e end.

Lemma met_agrees k v l : agrees ((λ _, v) <$> lookup_pair k l) (lookup_pair k l) ↔ met (lookup_pair k l) v = true.
Proof. by destruct (lookup_pair k l). Qed.

Definition absent (k : string) (l : list (string * ynode)) : bool :=
  match lookup_pair k l with None => true | Some _ => false end.

Definition notices_seq (ns : list string) : ynode := YSeq (map (λ s, scalar s) ns).

(** What is expected of a query that succeeds: no error, its rows, and its notices *)
Definition expects_rows (l : list (string * ynode)) (rows : list ynode) (notices : list string) : bool :=
  absent "error" l && met (lookup_pair "results" l) (YSeq rows) && met (lookup_pair "notices" l) (notices_seq notices).

Lemma verdict_changes l (ks : list string) (f : string → option ynode) l' :
  fresh l → NoDup l'.*1 → Forall plain_key l'.*1 →
  (∀ k, lookup_pair k l' = if bool_decide (k ∈ ks) then f k else lookup_pair k l) →
  fy_node_compare (YMap l') (fy_node_copy (YMap l)) = true ↔ Forall (λ k, agrees (f k) (lookup_pair k l)) ks.
Proof.
  intros Hf Hn Hp Hl. rewrite (compare_changed l l' Hf Hn Hp), list.Forall_forall. split.
  - intros H k Hk. specialize (H k). by rewrite Hl, bool_decide_true in H.
  - intros H k. rewrite Hl. case_bool_decide; [by apply H|apply agrees_refl].
Qed.

Lemma succeeded_shape build ty binary l res n :
  NoDup l.*1 → succeeded_node build ty binary (YMap l) res = Ok n →
  ∃ rows, (absent "results" l = false → rows_node build ty binary (columns res) (tuples res) = Ok rows) ∧
    n = YMap (update "results" (YSeq rows) (remove_pair "error" l)).
Proof.
  intros Hnd. unfold succeeded_node, absent. cbn [fy_node_mapping_remove_by_key fy_node_mapping_lookup].
  set (l1 := remove_pair "error" l). assert (Hn1 : NoDup l1.*1) by (unfold l1; auto).
  assert (Hl1 : lookup_pair "results" l1 = lookup_pair "results" l) by (unfold l1; by rewrite lookup_remove).
  unfold update. rewrite Hl1. destruct (lookup_pair "results" l); [|intros [= <-]; by exists []].
  destruct (rows_node build ty binary (columns res) (tuples res)) as [rows|e|w] eqn:Hr; [|done|done]. simpl.
  rewrite bool_decide_false by (by apply removed_key). intros [= <-]. by exists rows.
Qed.

Lemma notices_update l ns :
  NoDup l.*1 → notices_node (YMap l) ns = YMap (update "notices" (notices_seq ns) l).
Proof.
  intros Hn. unfold notices_node, update. cbn [fy_node_mapping_remove_by_key fy_node_mapping_lookup].
  destruct (lookup_pair "notices" l); [|done]. by apply append_removed.
Qed.

Lemma succeeded_verdict l rows ns :
  fresh l →
  fy_node_compare (notices_node (YMap (update "results" (YSeq rows) (remove_pair "error" l))) ns) (fy_node_copy (YMap l)) =
  expects_rows l rows ns.
Proof.
  intros Hf. pose proof Hf as (Hnd & Hp & _).
  set (l1 := remove_pair "error" l). set (l2 := update "results" (YSeq rows) l1).
  assert (Hn1 : NoDup l1.*1) by (unfold l1; auto). assert (Hn2 : NoDup l2.*1) by (unfold l2; auto).
  rewrite notices_update by done.
  apply eq_true_iff_eq. unfold expects_rows. rewrite !andb_true_iff.
  rewrite (verdict_changes l ["error"; "results"; "notices"]%string
    (λ k, if bool_decide (k = "error"%string) then None else
          if bool_decide (k = "results"%string) then (λ _, YSeq rows) <$> lookup_pair k l else (λ _, notices_seq ns) <$> lookup_pair k l)).
  - rewrite !list.Forall_cons. cbn [bool_decide]. rewrite <- !met_agrees. unfold absent.
    split.
    + intros (H1 & H2 & H3 & _). split_and!; [by destruct (lookup_pair "error" l)|exact H2|exact H3].
    + intros [[H1 H2] H3]. split_and!; [by destruct (lookup_pair "error" l)|exact H2|exact H3|done].
  - done.
  - by apply update_NoDup.
  - by apply update_plain; [|apply update_plain; [|apply remove_plain]].
  - intros k. unfold l2, l1. rewrite lookup_update, lookup_update, lookup_remove by auto.
    rewrite (lookup_update "results" _ (remove_pair "error" l)) by auto. rewrite !lookup_remove by done.
    destruct (decide (k = "notices"%string)) as [->|H1]; [done|].
    destruct (decide (k = "results"%string)) as [->|H2]; [done|].
    destruct (decide (k = "error"%string)) as [->|H3]; [done|].
    rewrite !bool_decide_false; [done|..]; try done. set_solver.
Qed.

(** What is expected of a query that fails: no results, the error in any of its forms, and
    the notices *)
Definition full_error (e : ynode) (res : PGresult) : ynode :=
  YMap (("severity"%string, scalar (default ""%string (severity res))) ::
        ("message"%string, scalar (trim_trailing_whitespace (default ""%string (message_primary res)))) ::
        match fy_node_mapping_lookup e "detail" with
        | Some _ => [("detail"%string, scalar (default ""%string (message_detail res)))]
        | None => []
        end).

Definition error_expected (l : list (string * ynode)) (res : PGresult) : bool :=
  match lookup_pair "error" l with
  | None => false
  | Some e =>
      if fy_node_is_boolean e then fy_node_get_boolean e else
      match e with
      | YScalar s _ => String.eqb s (trim_trailing_whitespace (default ""%string (message_primary res)))
      | _ => fy_node_compare (full_error e res) e
      end
  end.

Definition expects_error (l : list (string * ynode)) (res : PGresult) (notices : list string) : bool :=
  absent "results" l && error_expected l res && met (lookup_pair "notices" l) (notices_seq notices).

Lemma fresh_value l k v : fresh l → lookup_pair k l = Some v → fy_node_copy v = v.
Proof.
  intros (Hnd & _ & Hc) Hk. injection Hc as Hc. apply lookup_pair_Some in Hk; [|done].
  clear Hnd. induction l as [|[k' v'] l IH]; [by apply not_elem_of_nil in Hk|]. injection Hc as Hv Hl.
  apply elem_of_cons in Hk as [[= -> ->]|Hk]; [done|by apply IH].
Qed.

Lemma compare_scalars a b :
  fy_node_compare (scalar a) (scalar b) =
  if boolean_text a && boolean_text b then eqb (bool_decide (a ∈ true_texts)) (bool_decide (b ∈ true_texts)) else String.eqb a b.
Proof.
  unfold fy_node_compare. simpl. unfold boolean_aware_cmp. rewrite andb_true_r. destruct (_ && _).
  - by destruct (bool_decide (a ∈ true_texts)), (bool_decide (b ∈ true_texts)).
  - destruct (String.eqb_spec a b) as [->|Hne]; [by rewrite string_compare_refl|].
    destruct (String.compare a b) eqn:Hc; [|done|done]. by apply String.compare_eq_iff in Hc.
Qed.

Lemma failed_error l res n :
  fresh l → failed_node (YMap l) res = Ok n →
  ∃ e, n = YMap (put "error" e (remove_pair "results" l)) ∧
    (agrees (Some e) (lookup_pair "error" l) ↔ error_expected l res = true).
Proof.
  intros Hf Hn. pose proof Hf as (Hnd & _). set (l1 := remove_pair "results" l).
  assert (Hn1 : NoDup l1.*1) by (unfold l1; auto).
  assert (Hl1 : lookup_pair "error" l1 = lookup_pair "error" l) by (unfold l1; by rewrite lookup_remove).
  unfold failed_node in Hn. cbn [fy_node_is_scalar fy_node_mapping_remove_by_key fy_node_mapping_lookup] in Hn.
  fold l1 in Hn. rewrite Hl1 in Hn. unfold error_expected, agrees.
  destruct (lookup_pair "error" l) as [e|] eqn:He.
  2: { destruct (message_primary res) as [m|]; [|done]. simpl in Hn.
       rewrite bool_decide_false in Hn by (by apply removed_key). injection Hn as <-. by eexists. }
  pose proof (fresh_value _ _ _ Hf He) as Hc. destruct (fy_node_is_boolean e) eqn:Hb.
  { simpl in Hn. rewrite bool_decide_false in Hn by (by apply removed_key). injection Hn as <-. eexists. split; [done|].
    destruct e as [s b| |]; [|done|done]. injection Hc as <-. simpl in Hb. rewrite compare_scalars, Hb. simpl.
    by destruct (bool_decide (s ∈ true_texts)). }
  destruct (message_primary res) as [m|] eqn:Hm; [|done]. simpl in Hn. destruct e as [s b|q|q].
  - simpl in Hn. rewrite bool_decide_false in Hn by (by apply removed_key). injection Hn as <-. eexists. split; [done|].
    injection Hc as <-. simpl in Hb. rewrite compare_scalars, Hb, andb_false_r. by rewrite String.eqb_sym.
  - simpl in Hn. destruct (severity res) as [sv|] eqn:Hsv; [|done]. simpl in Hn.
    rewrite bool_decide_false in Hn by (by apply removed_key). injection Hn as <-. eexists. split; [done|].
    unfold full_error. by rewrite Hsv, Hm.
  - cbn [fy_node_is_scalar] in Hn. destruct (severity res) as [sv|] eqn:Hsv; [|done].
    unfold full_error. rewrite Hsv, Hm. simpl. cbn in Hn. destruct (lookup_pair "detail" q) as [d|].
    all: rewrite bool_decide_false in Hn by (by apply removed_key); injection Hn as <-; eexists; split; [done|]; done.
Qed.

Lemma failed_verdict l res ns n :
  fresh l → failed_node (YMap l) res = Ok n →
  fy_node_compare (notices_node n ns) (fy_node_copy (YMap l)) = expects_error l res ns.
Proof.
  intros Hf Hn. pose proof Hf as (Hnd & Hp & _). destruct (failed_error l res n Hf Hn) as (e & -> & He).
  set (l1 := remove_pair "results" l). set (l2 := put "error" e l1).
  assert (Hn1 : NoDup l1.*1) by (unfold l1; auto). assert (Hn2 : NoDup l2.*1) by (unfold l2; auto).
  rewrite notices_update by done.
  apply eq_true_iff_eq. unfold expects_error. rewrite !andb_true_iff, <- He, <- !met_agrees. unfold absent.
  rewrite (verdict_changes l ["results"; "error"; "notices"]%string
    (λ k, if bool_decide (k = "results"%string) then None else
          if bool_decide (k = "error"%string) then Some e else (λ _, notices_seq ns) <$> lookup_pair k l)).
  - rewrite !list.Forall_cons. split.
    + intros (H1 & H2 & H3 & _). split_and!; [by destruct (lookup_pair "results" l)|exact H2|exact H3].
    + intros [[H1 H2] H3]. split_and!; [by destruct (lookup_pair "results" l)|exact H2|exact H3|done].
  - done.
  - by apply update_NoDup.
  - by apply update_plain; [|apply put_plain; [|apply remove_plain]].
  - intros k. unfold l2, l1. rewrite lookup_update, !lookup_put by auto. rewrite !lookup_remove by done.
    destruct (decide (k = "notices"%string)) as [->|H1]; [done|].
    destruct (decide (k = "results"%string)) as [->|H2]; [done|].
    destruct (decide (k = "error"%string)) as [->|H3]; [done|].
    rewrite !bool_decide_false; [done|..]; try done. set_solver.
Qed.

(** ** Runs *)

(** What holds when a run returns *)
Definition ensures {S A} (m : M S A) (s : S) (Q : A → S → Prop) : Prop :=
  match m s with (Ok a, s') => Q a s' | _ => True end.

Lemma ensures_bind {S A B} (m : M S A) (f : A → M S B) s Q :
  ensures m s (λ a s', ensures (f a) s' Q) → ensures (m ≫= f) s Q.
Proof. unfold ensures, mbind, M_bind. by destruct (m s) as [[a|e|w] s']. Qed.

Lemma ensures_mono {S A} (m : M S A) s (Q R : A → S → Prop) :
  ensures m s Q → (∀ a s', Q a s' → R a s') → ensures m s R.
Proof. unfold ensures. destruct (m s) as [[a|e|w] s']; [|done|done]. intros H HR. by apply HR. Qed.

Lemma ensures_and {S A} (m : M S A) s (Q R : A → S → Prop) :
  ensures m s Q → ensures m s R → ensures m s (λ a s', Q a s' ∧ R a s').
Proof. unfold ensures. by destruct (m s) as [[a|e|w] s']. Qed.

Section ytest_tree_ind.
Context (P : ytest → Prop) (H : ∀ i n subs, Forall P subs → P (Ytest i n subs)).

Fixpoint ytest_tree_ind (t : ytest) : P t :=
  match t with
  | Ytest i n subs =>
      H i n subs ((fix go l : Forall P l :=
                     match l with [] => List.Forall_nil _ | x :: l' => List.Forall_cons _ x _ (ytest_tree_ind x) (go l') end) subs)
  end.
End ytest_tree_ind.

Section reports.
Context {E : Type} (L : lib E) (managed : bool).

(** *** The report

    A point with its number, after the points of its subtest, which are those
    that were planned for, numbered from one. *)
Inductive item : nat → Z → list line → Prop :=
  | item_point level n ok name d diag :
      Forall (λ l, l = Diagnostics level) diag → item level n (Point level ok n name d :: diag)
  | item_subtest level n title count ls ok name d diag :
      items (S level) 1 count ls → Forall (λ l, l = Diagnostics level) diag →
      item level n (Subtest level title :: Plan (S level) (Z.of_nat count) :: ls ++ Point level ok n name d :: diag)
with items : nat → Z → nat → list line → Prop :=
  | items_nil level n : items level n 0 []
  | items_cons level n count ls ls' :
      item level n ls → items level (n + 1) count ls' → items level n (S count) (ls ++ ls').

(** The lines that were added, and the counter *)
Definition adds (s s' : state E) (k : Z) (ls : list line) : Prop := tap s' = tap s ++ ls ∧ tap_counter s' = k.

Definition silent {A} (m : M (state E) A) : Prop := ∀ s, ensures m s (λ _ s', adds s s' (tap_counter s) []).

Lemma adds_nil s : adds s s (tap_counter s) [].
Proof. split; [by rewrite app_nil_r|done]. Qed.

Lemma adds_trans s1 s2 s3 k k' ls ls' : adds s1 s2 k ls → adds s2 s3 k' ls' → adds s1 s3 k' (ls ++ ls').
Proof. intros [H1 _] [H2 Hk]. split; [|done]. by rewrite H2, H1, app_assoc. Qed.

Lemma silent_bind {A B} (m : M (state E) A) (f : A → M (state E) B) :
  silent m → (∀ a, silent (f a)) → silent (m ≫= f).
Proof.
  intros Hm Hf s. apply ensures_bind. eapply ensures_mono; [apply Hm|]. intros a s1 H1.
  eapply ensures_mono; [apply Hf|]. intros b s2 H2. destruct H1 as [H1 Hk].
  rewrite app_nil_r in H1. destruct H2 as [H2 Hk']. split; [by rewrite H2, H1|by rewrite Hk', Hk].
Qed.

Lemma silent_ret {A} (a : A) : silent (mret a).
Proof. intros s. apply adds_nil. Qed.

Lemma silent_get : silent (get_st (S := state E)).
Proof. intros s. apply adds_nil. Qed.

Lemma silent_undefined {A} w : silent (undefined (A := A) w).
Proof. done. Qed.

Lemma silent_lift {A} (r : result A) : silent (lift_r r).
Proof. intros s. unfold ensures, lift_r. destruct r; [apply adds_nil|done|done]. Qed.

Lemma silent_env (f : state E → E) : silent (modify_st (λ s, set_env (f s) s)).
Proof. intros s. split; [by rewrite app_nil_r|done]. Qed.

Lemma silent_instance i f : silent (update_instance i f).
Proof. intros s. split; [by rewrite app_nil_r|done]. Qed.

Lemma silent_finish c : silent (finish L c).
Proof. intros s. split; [by rewrite app_nil_r|done]. Qed.

Lemma silent_live c : silent (live c).
Proof. apply silent_bind; [apply silent_get|]. intros s. destruct (bool_decide _); [apply silent_undefined|apply silent_ret]. Qed.

#[local] Hint Resolve silent_bind silent_ret silent_get silent_undefined silent_lift silent_env silent_instance
  silent_finish silent_live : core.

Lemma silent_exec c q : silent (exec L c q).
Proof.
  apply silent_bind; [auto|]. intros _. apply silent_bind; [auto|]. intros s.
  destruct (PQexec L c q (env s)) as [[r n] e]. apply silent_bind; [apply (silent_env (λ _, e))|auto].
Qed.
#[local] Hint Resolve silent_exec : core.

Lemma silent_exec_when b c q : silent (exec_when L b c q).
Proof. unfold exec_when. destruct b; auto. Qed.
#[local] Hint Resolve silent_exec_when : core.

Lemma silent_run_query c ty i n q b : silent (run_query L c ty i n q b).
Proof.
  unfold run_query. apply silent_bind; [auto|]. intros n1. destruct (binary_formats n) as [bp br].
  apply silent_bind; [destruct (fy_node_mapping_lookup n "params") as [[]|]; auto|]. intros vs.
  apply silent_bind; [auto|]. intros s. destruct (PQexecParams _ _ _ _ _ _ _) as [[res n2] e].
  apply silent_bind; [apply (silent_env (λ _, e))|]. intros _.
  apply silent_bind; [destruct b; auto|]. intros [[st r] n3]. apply silent_bind; auto.
Qed.

Lemma silent_end_of_test i c : silent (end_of_test L managed i c).
Proof. unfold end_of_test. destruct (if managed then database i else None); auto. Qed.

Lemma silent_connectdb i db : silent (connectdb L i db).
Proof. apply silent_bind; [auto|]. intros s. destruct (PQconnectdb L i db (env s)). apply silent_bind; [|auto].
  intros s'. split; [by rewrite app_nil_r|done].
Qed.

Lemma silent_between c b y o : silent (between L c b y o).
Proof. unfold between. destruct (passed o), (errored o), (negb b && commit (info_of y)); auto 8. Qed.

#[local] Hint Resolve silent_run_query silent_end_of_test silent_connectdb silent_between : core.

Lemma point_adds level ok name d s :
  ensures (point level ok name d) s
    (λ _ s', adds s s' (tap_counter s + 1) [Point level ok (tap_counter s + 1) name d]).
Proof. by split. Qed.

Lemma ensures_silent {A B} (m : M (state E) A) (f : A → M (state E) B) s (Q : state E → B → state E → Prop) :
  silent m → (∀ a s1, adds s s1 (tap_counter s) [] → ensures (f a) s1 (Q s)) → ensures (m ≫= f) s (Q s).
Proof. intros Hm Hf. apply ensures_bind. eapply ensures_mono; [apply Hm|]. apply Hf. Qed.

(** One item was added *)
Definition adds_item (level : nat) (s s' : state E) : Prop :=
  ∃ ls, adds s s' (tap_counter s + 1) ls ∧ item level (tap_counter s + 1) ls.

Lemma adds_item_silent level s s1 s2 : adds s s1 (tap_counter s) [] → adds_item level s1 s2 → adds_item level s s2.
Proof.
  intros [H1 Hk] (ls & Ha & Hi). exists ls. rewrite Hk in Ha. rewrite Hk in Hi. split; [|done]. destruct Ha as [Ha Hk2].
  rewrite app_nil_r in H1. split; [by rewrite Ha, H1|done].
Qed.

Lemma adds_item_then level s s1 s2 : adds_item level s s1 → adds s1 s2 (tap_counter s1) [] → adds_item level s s2.
Proof.
  intros (ls & [H1 Hk] & Hi) [H2 Hk2]. exists ls. split; [|done]. rewrite app_nil_r in H2.
  split; [by rewrite H2, H1|by rewrite Hk2, Hk].
Qed.

Lemma report_point i o n err level s :
  ensures (report i o n err level) s (λ _ s', ∃ ok name d diag, Forall (λ l, l = Diagnostics level) diag ∧
    adds s s' (tap_counter s + 1) (Point level ok (tap_counter s + 1) name d :: diag)).
Proof.
  unfold report. apply ensures_bind. eapply ensures_mono; [apply point_adds|]. intros [] s1 H1. apply ensures_bind.
  destruct H1 as [Ht Hk]. destruct (_ && _); unfold ensures; simpl; do 3 eexists.
  - exists [Diagnostics level]. split; [by repeat constructor|]. split; [simpl; by rewrite Ht, <- app_assoc|exact Hk].
  - exists []. split; [constructor|]. split; [exact Ht|exact Hk].
Qed.

(** The steps of a test are those its node lists. *)
Definition steps_key (i : info) : string := match kind i with ytest_kind_tests => "tests" | _ => "steps" end.

Fixpoint shaped (t : ytest) : bool :=
  match t with
  | Ytest i n subs =>
      match kind i with
      | ytest_kind_steps | ytest_kind_tests =>
          match fy_node_mapping_lookup n (steps_key i) with Some (YSeq l) => (length l =? length subs)%nat | _ => false end
      | _ => true
      end && forallb shaped subs
  end.

Lemma steps_items run c b level l :
  Forall (λ y, ∀ s, ensures (run y) s (λ _ s', adds_item (S level) s s')) l → ∀ failed s,
  ensures (steps L run c b level l failed) s (λ _ s', ∃ ls,
    adds s s' (tap_counter s + Z.of_nat (length l)) ls ∧ items (S level) (tap_counter s + 1) (length l) ls).
Proof.
  assert (Hcons : ∀ (y : ytest) (l' : list ytest) s s1 s2, adds_item (S level) s s1 →
    (∃ ls, adds s1 s2 (tap_counter s1 + Z.of_nat (length l')) ls ∧ items (S level) (tap_counter s1 + 1) (length l') ls) →
    ∃ ls, adds s s2 (tap_counter s + Z.of_nat (length (y :: l'))) ls ∧ items (S level) (tap_counter s + 1) (length (y :: l')) ls).
  { intros y l' s s1 s2 (ls & Ha & Hi) (ls' & Ha' & Hi'). exists (ls ++ ls'). pose proof Ha as [_ Hk]. rewrite Hk in Ha'. rewrite Hk in Hi'. split.
    - replace (tap_counter s + Z.of_nat (length (y :: l'))) with (tap_counter s + 1 + Z.of_nat (length l')) by (simpl; lia).
      by eapply adds_trans.
    - simpl. by constructor. }
  intros HF. induction HF as [|y l Hy HF IH]; intros failed s.
  { exists []. split; [|constructor]. simpl. rewrite Z.add_0_r. apply adds_nil. }
  cbn [steps]. destruct failed.
  - apply ensures_bind. eapply ensures_mono; [apply point_adds|]. intros [] s1 H1. apply ensures_bind.
    eapply ensures_mono; [apply IH|]. intros r s2 H2. eapply (Hcons _ _ _ s1); [|exact H2].
    eexists. split; [exact H1|]. by repeat constructor.
  - apply ensures_bind. eapply ensures_mono; [apply Hy|]. intros o s1 H1. apply ensures_bind.
    eapply ensures_mono; [apply silent_between|]. intros ns s2 H2. apply ensures_bind.
    eapply ensures_mono; [apply IH|]. intros r s3 H3. eapply (Hcons _ _ _ s2); [|exact H3].
    eapply adds_item_then; [exact H1|exact H2].
Qed.

(** Getting a connection prints nothing, or that there is none. *)
Definition connection_adds (level : nat) (s : state E) (oc : option Z) (s' : state E) : Prop :=
  match oc with Some _ => adds s s' (tap_counter s) [] | None => adds_item level s s' end.

Lemma connection_default connect i c level s :
  ensures (connection L managed connect i (Some c) level) s (connection_adds level s).
Proof.
  unfold connection. destruct (instance i) as [inst|]; [|done].
  destruct (if managed then database i else None) as [db|].
  - apply ensures_bind. eapply ensures_mono; [apply silent_connectdb|]. intros [c' ok] s1 H1. simpl. destruct ok; [exact H1|].
    apply ensures_bind. eapply ensures_mono; [apply point_adds|]. intros [] s2 H2.
    eapply adds_item_silent; [exact H1|]. eexists. split; [exact H2|]. by repeat constructor.
  - apply ensures_bind. eapply ensures_mono; [apply silent_live|]. intros [] s1 H1. exact H1.
Qed.

Lemma report_item i o n err level c s :
  ensures (x ← report i o n err level; _ ← end_of_test L managed i c; mret x) s (λ _ s', adds_item level s s').
Proof.
  apply ensures_bind. eapply ensures_mono; [apply report_point|]. intros x s1 (ok & name & d & diag & Hd & H1).
  apply ensures_bind. eapply ensures_mono; [apply silent_end_of_test|]. intros [] s2 H2.
  eapply adds_item_then; [|exact H2]. eexists. split; [exact H1|]. by constructor.
Qed.

(** A subtest: its lines before the report, with the counter set back *)
Lemma subtest_item i o n err level c s s1 name count ls :
  tap s1 = tap s ++ Subtest level name :: Plan (S level) (Z.of_nat count) :: ls → tap_counter s1 = tap_counter s →
  items (S level) 1 count ls →
  ensures (x ← report i o n err level; _ ← end_of_test L managed i c; mret x) s1 (λ _ s', adds_item level s s').
Proof.
  intros Ht Hk Hi. apply ensures_bind. eapply ensures_mono; [apply report_point|].
  intros x s2 (ok & nm & d & diag & Hd & H2). apply ensures_bind. eapply ensures_mono; [apply silent_end_of_test|].
  intros [] s3 H3. eapply adds_item_then; [|exact H3].
  exists (Subtest level name :: Plan (S level) (Z.of_nat count) :: ls ++ Point level ok (tap_counter s + 1) nm d :: diag). split.
  - destruct H2 as [H2 Hk2]. rewrite Hk in Hk2, H2. split; [|done]. rewrite H2, Ht, <- app_assoc. done.
  - by apply item_subtest.
Qed.

Lemma group_item run i (tests : bool) n (subs : list ytest) c b level s :
  (∃ l, fy_node_mapping_lookup n (if tests then "tests" else "steps") = Some (YSeq l) ∧ length l = length subs) →
  Forall (λ y, ∀ s, ensures (run y) s (λ _ s', adds_item (S level) s s')) subs →
  ensures (run_group L managed run i tests n subs c b level) s (λ _ s', adds_item level s s').
Proof.
  intros (l & Hl & Hlen) HF. unfold run_group. rewrite Hl, Hlen.
  apply ensures_bind. eapply ensures_mono; [apply silent_exec_when|]. intros n1 s1 [H1 Hk1]. rewrite app_nil_r in H1.
  do 4 (apply ensures_bind; unfold ensures at 1; cbn [taprintf get_st set_counter modify_st]).
  apply ensures_bind. eapply ensures_mono; [by apply steps_items|]. intros [nodes n2] s2 (ls & [H2 Hk2] & Hi).
  apply ensures_bind. unfold ensures at 1. cbn [set_counter modify_st].
  apply ensures_bind. eapply ensures_mono; [apply silent_live|]. intros [] s3 [H3 Hk3]. rewrite app_nil_r in H3.
  apply ensures_bind. eapply ensures_mono; [apply silent_exec_when|]. intros n3 s4 [H4 Hk4]. rewrite app_nil_r in H4.
  simpl in *. eapply (subtest_item _ _ _ _ _ _ s s4 (ytest_name i) (length subs) ls).
  - rewrite H4, H3, H2, H1. by rewrite <- !app_assoc.
  - by rewrite Hk4, Hk3.
  - exact Hi.
Qed.

Lemma run_item t : shaped t → ∀ connect dc b level s,
  ensures (connection L managed connect (info_of t) dc level) s (connection_adds level s) →
  ensures (ytest_run_internal L managed connect dc t b level) s (λ _ s', adds_item level s s').
Proof.
  induction t as [i n subs IH] using ytest_tree_ind. intros [Hsh Hsub]%andb_prop_elim connect dc b level s Hc.
  cbn [ytest_run_internal]. destruct (skipped L n) as [reason|].
  { apply ensures_bind. eapply ensures_mono; [apply point_adds|]. intros [] s1 H1. eexists. split; [exact H1|]. by repeat constructor. }
  apply ensures_bind. eapply ensures_mono; [exact Hc|]. intros [c|] s1 H1; [|exact H1].
  apply ensures_bind. eapply ensures_mono.
  { assert (Hr : silent (when (reset i && negb b) (modify_st (λ s, set_env (PQreset L c (env s)) s)))).
    { destruct (reset i && negb b); [apply silent_env|apply silent_ret]. } apply Hr. }
  intros [] s2 H2. apply (ensures_mono _ _ (λ _ s', adds_item level s2 s')).
  2: { intros o s' H3. eapply adds_item_silent; [exact H1|]. eapply adds_item_silent; [exact H2|exact H3]. }
  clear s s1 Hc H1 H2. rename s2 into s.
  assert (Hruns : ∀ b', Forall (λ y, ∀ s, ensures (ytest_run_internal L managed connect (Some c) y b' (S level)) s
    (λ _ s', adds_item (S level) s s')) subs).
  { intros b'. apply list.Forall_forall. intros y Hy s'. rewrite list.Forall_forall in IH. apply IH; [done| |apply connection_default].
    apply Is_true_true in Hsub. apply Is_true_true. rewrite forallb_forall in Hsub. apply Hsub. by apply list_elem_of_In. }
  apply ensures_bind. unfold ensures at 1. cbn [get_st].
  destruct (kind i) as [|q| | |] eqn:Hk.
  - apply report_item.
  - apply ensures_bind. eapply ensures_mono; [apply silent_run_query|]. intros [[err node] ns] s1 H1.
    eapply ensures_mono; [apply report_item|]. intros o s' H3. eapply adds_item_silent; [exact H1|exact H3].
  - apply group_item; [|apply Hruns]. unfold steps_key in Hsh. rewrite Hk in Hsh.
    destruct (fy_node_mapping_lookup n "steps") as [[| l |]|]; [done| |done..]. exists l. split; [done|]. by apply Nat.eqb_eq, Is_true_true.
  - apply group_item; [|apply Hruns]. unfold steps_key in Hsh. rewrite Hk in Hsh.
    destruct (fy_node_mapping_lookup n "tests") as [[| l |]|]; [done| |done..]. exists l. split; [done|]. by apply Nat.eqb_eq, Is_true_true.
  - apply ensures_bind. eapply ensures_mono; [apply silent_finish|]. intros [] s1 H1.
    apply ensures_bind. eapply ensures_mono; [apply silent_instance|]. intros [] s2 H2.
    apply ensures_bind. eapply ensures_mono; [apply point_adds|]. intros [] s3 H3.
    apply ensures_bind. eapply ensures_mono; [apply (silent_env (λ s, pg_ctl_restart L _ (env s)))|]. intros [] s4 H4.
    apply ensures_bind. eapply ensures_mono; [apply silent_instance|]. intros [] s5 H5.
    eapply adds_item_silent; [exact H1|]. eapply adds_item_silent; [exact H2|].
    eapply adds_item_then; [|exact H5]. eapply adds_item_then; [|exact H4].
    eexists. split; [exact H3|]. by repeat constructor.
Qed.

(** *** Tests that were read *)

Lemma populate_kind_seq m n k b :
  populate_kind m n = Some (k, b) →
  match k with
  | ytest_kind_steps => ∃ l, fy_node_mapping_lookup n "steps" = Some (YSeq l)
  | ytest_kind_tests => fy_node_mapping_lookup n "steps" = None ∧ ∃ l, fy_node_mapping_lookup n "tests" = Some (YSeq l)
  | _ => True
  end.
Proof.
  unfold populate_kind. intros H. apply bind_Some in H as ([k1 b1] & H1 & H).
  assert (Hk1 : b1 = false → k1 = ytest_kind_none).
  { destruct (fy_node_mapping_lookup n "query"); [|by injection H1 as <- <-].
    apply bind_Some in H1 as (s & _ & [= <- <-]). done. }
  assert (Hq : k1 = ytest_kind_none ∨ ∃ q, k1 = ytest_kind_query q).
  { destruct (fy_node_mapping_lookup n "query"); [|injection H1 as <- _; by left].
    apply bind_Some in H1 as (s & _ & [= <- <-]). right. by eexists. }
  apply bind_Some in H as ([k2 b2] & H2 & H). apply bind_Some in H as ([k3 b3] & H3 & H4).
  assert (k = k3 ∨ k = ytest_kind_restart) as [->| ->]; [|clear H4|done].
  { destruct (fy_node_mapping_lookup n "restart"), m; simplify_eq/=; auto. }
  destruct (fy_node_mapping_lookup n "steps") as [[| l |]|] eqn:Hs; [done| |done|]; simpl in H2.
  - destruct b1; [done|]. injection H2 as <- <-.
    destruct (fy_node_mapping_lookup n "tests") as [[| l' |]|]; [done|done|done|]. injection H3 as <- _. by eexists.
  - injection H2 as <- <-. destruct (fy_node_mapping_lookup n "tests") as [[| l' |]|] eqn:Ht; [done| |done|].
    + simpl in H3. destruct b1; [done|]. injection H3 as <- _. split; [done|by eexists].
    + injection H3 as <- _. by destruct Hq as [->|[q ->]].
Qed.

Lemma populate_shaped fuel is_ m : ∀ path n t,
  populate_ytest_from_fy_node fuel is_ m path n = Some t → shaped t = true ∧ node_of t = n.
Proof.
  induction fuel as [|fuel IH]; intros path n t; [done|]. cbn [populate_ytest_from_fy_node].
  destruct n as [s b|l|l]; [|by intros [= <-]|].
  { intros H. apply bind_Some in H as (i & _ & [= <-]). done. }
  set (n := YMap l). intros H. do 5 (apply bind_Some in H as (? & _ & H)). apply bind_Some in H as (i & _ & H).
  apply bind_Some in H as ([k b] & Hk & H). apply populate_kind_seq in Hk.
  destruct (match fy_node_mapping_lookup n "steps", fy_node_mapping_lookup n "tests" with
            | Some (YSeq l), _ => _ | _, Some (YSeq l) => _ | _, _ => _ end) as [key l'] eqn:Hl.
  apply bind_Some in H as (subs & Hsubs & H). destruct (_ || _); [|done]. injection H as <-. split; [|done].
  apply mapM_Some in Hsubs. cbn [shaped kind]. apply andb_true_intro. split.
  - apply Forall2_length in Hsubs. rewrite length_zip, length_seq in Hsubs. unfold steps_key. cbn [kind].
    destruct k; try done.
    + destruct Hk as [l0 Hk]. rewrite Hk in Hl |- *. injection Hl as _ <-. apply Nat.eqb_eq. lia.
    + destruct Hk as [Hn [l0 Hk]]. rewrite Hn, Hk in Hl. rewrite Hk. injection Hl as _ <-. apply Nat.eqb_eq. lia.
  - apply forallb_forall. intros y Hy%list_elem_of_In. apply list_elem_of_lookup in Hy as [j Hj].
    destruct (Forall2_lookup_r _ _ _ _ _ Hsubs Hj) as (z & _ & Hz). by apply IH in Hz as [? _].
Qed.

(** *** Connected instances *)

Definition connected (s : state E) (inst : nat) (c : Z) : Prop :=
  ∃ x, instances s !! inst = Some x ∧ i_conn x = Some c ∧ PQstatus L c (env s) = true.

Lemma connect_connected fuel inst c s :
  connected s inst c →
  yinstance_connect L managed (S fuel) inst s =
  (Ok yinstance_connect_success,
   State (env s) (freed s) (tap s) (tap_counter s) (alter (set_restarted false) inst (instances s))).
Proof.
  intros (x & Hx & Hc & Hok). cbn [yinstance_connect]. rewrite get_bind, Hx. cbn [connect_from].
  unfold update_instance. rewrite modify_bind, get_bind. cbn [instances env].
  rewrite list_lookup_alter, Hx. rewrite decide_True by done. simpl. by rewrite Hc, Hok.
Qed.

Lemma connection_connected fuel i inst c level s :
  instance i = Some inst → connected s inst c →
  ensures (connection L managed (yinstance_connect L managed (S fuel)) i None level) s (connection_adds level s).
Proof.
  intros Hi Hc. unfold connection. rewrite Hi. destruct (if managed then database i else None) as [db|] eqn:Hdb.
  { pose proof (connection_default (yinstance_connect L managed (S fuel)) i c level s) as H. unfold connection in H.
    by rewrite Hi, Hdb in H. }
  unfold ensures, mbind, M_bind. rewrite (connect_connected fuel inst c s Hc). cbn [get_st].
  destruct Hc as (x & Hx & Hc & _). cbn [instances]. rewrite list_lookup_alter, decide_True, Hx by done. simpl. rewrite Hc. simpl.
  split; [by rewrite app_nil_r|done].
Qed.

(** A test of a document adds one item to the report: its point, with the next number,
    behind the points of its subtests, of which there are as many as were
    planned, numbered from one. *)
Theorem test_reports_item depth is_ path n t fuel inst c s :
  populate_ytest_from_fy_node depth is_ managed path n = Some t → instance (info_of t) = Some inst → connected s inst c →
  ensures (run_test L managed (S fuel) t) s (λ _ s', adds_item 0 s s').
Proof.
  intros [Hs _]%populate_shaped Hi Hc. unfold run_test. apply run_item; [by rewrite Hs|].
  by eapply connection_connected.
Qed.
End reports.

(** ** Query tests *)

Section verdicts.
Context {E : Type} (L : lib E) (managed : bool).

(** What is observed of a query: its result or that of the end of its transaction, and the
    notices of all that was done *)
Definition observe (c : Z) (q : string) (vs : list string) (bp br in_transaction cm : bool) (e : E) :
  PGresult * list string :=
  if in_transaction then let '(res, ns, _) := PQexecParams L c q vs bp br e in (res, ns) else
  let '(_, n1, e1) := PQexec L c "begin" e in
  let '(res, n2, e2) := PQexecParams L c q vs bp br e1 in
  let '(tx, n3, _) := PQexec L c (if cm then "commit" else "rollback") e2 in
  (if success res && negb (success tx) then tx else res, n1 ++ n2 ++ n3).

(** What is expected of what was observed *)
Definition as_expected (ty : types) (br : bool) (l : list (string * ynode)) (res : PGresult) (ns : list string) : bool :=
  if success res then
    match (if absent "results" l then Ok [] else rows_node (fy_node_build_from_string L) ty br (columns res) (tuples res)) with
    | Ok rows => expects_rows l rows ns
    | _ => false
    end
  else expects_error l res ns.

Lemma mret_bind {S A B} (a : A) (f : A → M S B) s : (mret a ≫= f) s = f a s.
Proof. done. Qed.

Lemma exec_value c q s r ns s' :
  exec L c q s = (Ok (r, ns), s') → PQexec L c q (env s) = (r, ns, env s').
Proof.
  unfold exec, live. unfold mbind, M_bind, get_st. destruct (bool_decide _); [done|]. simpl.
  destruct (PQexec L c q (env s)) as [[r0 n0] e0]. by intros [= <- <- <-].
Qed.

Lemma node_verdict ty br l res ns st n :
  fresh l → st = success res →
  (if (st : bool) then succeeded_node (fy_node_build_from_string L) ty br (YMap l) res else failed_node (YMap l) res) = Ok n →
  fy_node_compare (notices_node n ns) (fy_node_copy (YMap l)) = as_expected ty br l res ns ∧
  is_todo (notices_node n ns) = is_todo (YMap l).
Proof.
  intros Hf -> Hn. pose proof Hf as (Hnd & _). unfold as_expected. destruct (success res).
  - destruct (succeeded_shape _ _ _ _ _ _ Hnd Hn) as (rows & Hr & ->). split.
    + rewrite succeeded_verdict by done. destruct (absent "results" l) eqn:Ha; [|by rewrite Hr].
      unfold expects_rows, absent in *. by destruct (lookup_pair "results" l).
    + rewrite notices_update by auto. unfold is_todo. cbn [fy_node_mapping_lookup].
      rewrite !lookup_update, !lookup_remove by auto. reflexivity.
  - destruct (failed_error l res n Hf Hn) as (e & -> & _). split; [by apply failed_verdict|].
    rewrite notices_update by auto. unfold is_todo. cbn [fy_node_mapping_lookup].
    rewrite lookup_update, !lookup_put, !lookup_remove by auto. reflexivity.
Qed.

Lemma run_query_verdict c ty i l q b s err n ns s' :
  fresh l → run_query L c ty i (YMap l) q b s = (Ok (err, n, ns), s') →
  ∃ vs, let '(bp, br) := binary_formats (YMap l) in
    match fy_node_mapping_lookup (YMap l) "params" with
    | None => vs = [] | Some (YSeq ps) => param_values L bp ps = Ok vs | Some _ => False end ∧
    let '(res, ns') := observe c q vs bp br b (commit i) (env s) in
    ns = ns' ∧ fy_node_compare (notices_node n ns) (fy_node_copy (YMap l)) = as_expected ty br l res ns ∧
    is_todo (notices_node n ns) = is_todo (YMap l).
Proof.
  intros Hf. unfold run_query. destruct (binary_formats (YMap l)) as [bp br].
  unfold mbind at 1, M_bind at 1. destruct (exec_when L (negb b) c "begin" s) as [[n1|e|x] s1] eqn:H1; [|done|done].
  unfold mbind at 1, M_bind at 1.
  destruct (match fy_node_mapping_lookup (YMap l) "params" with
            | None => mret [] | Some (YSeq ps) => lift_r (param_values L bp ps) | Some _ => undefined "result is not initialised"
            end s1) as [[vs|e|x] s2] eqn:H2; [|done|done].
  assert (Hs2 : s2 = s1 ∧ match fy_node_mapping_lookup (YMap l) "params" with
    | None => vs = [] | Some (YSeq ps) => param_values L bp ps = Ok vs | Some _ => False end).
  { destruct (fy_node_mapping_lookup (YMap l) "params") as [[| ps |]|]; try done; by injection H2. }
  destruct Hs2 as [-> Hvs]. clear H2. intros Hrun. exists vs. split; [exact Hvs|]. revert Hrun.
  rewrite get_bind. unfold observe. destruct b.
  - injection H1 as <- <-. destruct (PQexecParams L c q vs bp br (env s)) as [[res n2] e]. rewrite modify_bind.
    rewrite mret_bind. cbn beta iota. unfold mbind, M_bind, lift_r.
    destruct (if success res then _ else _) as [n'|e'|x'] eqn:Hn; [|done|done].
    intros [= _ <- <- _]. rewrite app_nil_r. split; [done|]. by apply (node_verdict _ _ _ _ _ (success res)).
  - cbn [negb exec_when] in H1. unfold mbind, M_bind in H1.
    destruct (exec L c "begin" s) as [[[r0 n0]|e|x] s0] eqn:Hbegin; [|done|done]. injection H1 as <- <-.
    apply exec_value in Hbegin. rewrite Hbegin. cbn [snd].
    destruct (PQexecParams L c q vs bp br (env s0)) as [[res n2] e]. rewrite modify_bind.
    unfold mbind at 1, M_bind at 1. unfold mbind at 1, M_bind at 1.
    destruct (exec L c (if commit i then "commit" else "rollback") (set_env e s0)) as [[[tx n3]|e'|x'] s3] eqn:Hend; [|done|done].
    apply exec_value in Hend. change (env (set_env e s0)) with e in Hend.
    replace (PQexec L c (if commit i then "commit" else "rollback") e) with (tx, n3, env s3) by (destruct (commit i); exact (eq_sym Hend)).
    cbn [fst snd mret M_ret]. set (final := if success res && negb (success tx) then tx else res).
    assert (Hr : (if success res then (success tx, if success tx then res else tx, n3) else (false, res, n3)) =
      (success final, final, n3)).
    { unfold final. destruct (success res) eqn:H1, (success tx) eqn:H2; simpl; by rewrite ?H1, ?H2. }
    rewrite Hr. unfold mbind, M_bind, lift_r.
    destruct (if success final then _ else _) as [n'|e'|x'] eqn:Hn; [|done|done].
    intros [= _ <- <- _]. split; [done|]. by apply (node_verdict _ _ _ _ _ (success final)).
Qed.

End verdicts.

(** ** Transactions *)

(** What is relied on of the server: which rows are committed, whether a connection is
    inside a transaction, and which queries leave that to others *)
Class Transactions {E D : Type} (L : lib E) (committed : E → D) (inside : E → Z → bool) (ordinary : string → bool) : Prop := {
  begin_inside c e : let e' := (PQexec L c "begin" e).2 in inside e' c = true ∧ committed e' = committed e;
  rollback_outside c e : let e' := (PQexec L c "rollback" e).2 in inside e' c = false ∧ committed e' = committed e;
  query_inside c q vs bp br e :
    ordinary q = true → inside e c = true →
    let e' := (PQexecParams L c q vs bp br e).2 in inside e' c = true ∧ committed e' = committed e;
  reset_outside c e : let e' := PQreset L c e in inside e' c = false ∧ committed e' = committed e
}.

Section isolation.
Context {E D : Type} (L : lib E) (managed : bool) (committed : E → D) (inside : E → Z → bool) (ordinary : string → bool).
Context `{!Transactions L committed inside ordinary}.

(** A test that is to be rolled back: it does not commit, stays on its connection, runs
    ordinary queries, and has no group of tests inside of steps. *)
Fixpoint confined (in_transaction : bool) (t : ytest) : bool :=
  match t with
  | Ytest i n subs =>
      negb (commit i) && match (if managed then database i else None) with None => true | Some _ => false end &&
      match kind i with
      | ytest_kind_none => true
      | ytest_kind_query q => ordinary q
      | ytest_kind_steps => forallb (confined true) subs
      | ytest_kind_tests => negb in_transaction && transaction i && forallb (confined false) subs
      | ytest_kind_restart => false
      end
  end.

(** Nothing is committed; a test inside a transaction leaves it open, another one does not
    open any. *)
Definition kept (c : Z) (b : bool) (s s' : state E) : Prop :=
  committed (env s') = committed (env s) ∧
  if b then inside (env s) c = true → inside (env s') c = true else inside (env s) c = false → inside (env s') c = false.

Lemma kept_refl c b s : kept c b s s.
Proof. split; [done|by destruct b]. Qed.

Lemma kept_env c b s s1 s2 : env s1 = env s → kept c b s1 s2 → kept c b s s2.
Proof. unfold kept. by intros ->. Qed.

Lemma kept_trans c b s s1 s2 : kept c b s s1 → kept c b s1 s2 → kept c b s s2.
Proof. intros [H1 H2] [H3 H4]. split; [congruence|]. destruct b; auto. Qed.

(** Steps that do not change the servers *)
Definition still {A} (m : M (state E) A) : Prop := ∀ s, ensures m s (λ _ s', env s' = env s).

Lemma still_point level ok name d : still (point level ok name d).
Proof. done. Qed.

Lemma still_report i o n err level : still (report i o n err level).
Proof. intros s. unfold report. apply ensures_bind. unfold ensures at 1. simpl. apply ensures_bind. by destruct (_ && _). Qed.

Lemma still_live c : still (live c).
Proof. intros s. unfold live, ensures. rewrite get_bind. by destruct (bool_decide _). Qed.

Lemma still_end i c : (if managed then database i else None) = None → still (end_of_test L managed i c).
Proof. intros H s. unfold end_of_test. by rewrite H. Qed.

Lemma exec_env c q s : ensures (exec L c q) s (λ _ s', env s' = (PQexec L c q (env s)).2).
Proof.
  unfold exec. apply ensures_bind. eapply ensures_mono; [apply still_live|]. intros [] s1 H1.
  unfold ensures. rewrite get_bind, H1. by destruct (PQexec L c q (env s)) as [[r ns] e].
Qed.

Lemma exec_when_env b c q s :
  ensures (exec_when L b c q) s (λ _ s', env s' = if b then (PQexec L c q (env s)).2 else env s).
Proof.
  unfold exec_when. destruct b; [|done]. apply ensures_bind. eapply ensures_mono; [apply exec_env|]. intros r s1 H1. exact H1.
Qed.

(** The part of [kept] that survives between tests *)
Definition carried (c : Z) (b : bool) (s s' : state E) : Prop :=
  committed (env s') = committed (env s) ∧ (b = true → inside (env s') c = true).

Lemma run_query_kept c ty i n q b s :
  ordinary q = true → commit i = false → (b = true → inside (env s) c = true) →
  ensures (run_query L c ty i n q b) s (λ _ s', committed (env s') = committed (env s) ∧ inside (env s') c = b).
Proof.
  intros Hq Hcm Hb. unfold run_query. apply ensures_bind. eapply ensures_mono; [apply exec_when_env|]. intros n1 s1 H1.
  assert (Hi1 : inside (env s1) c = true ∧ committed (env s1) = committed (env s)).
  { rewrite H1. destruct b; [by split; [apply Hb|]|apply begin_inside]. }
  destruct (binary_formats n) as [bp br]. apply ensures_bind.
  assert (Hv : still (match fy_node_mapping_lookup n "params" with
            | None => mret [] | Some (YSeq l) => lift_r (param_values L bp l) | Some _ => undefined "result is not initialised" end)).
  { intros s'. destruct (fy_node_mapping_lookup n "params") as [[| l |]|]; try done. unfold ensures, lift_r. by destruct (param_values L bp l). }
  eapply ensures_mono; [apply Hv|]. intros vs s2 H2. unfold ensures. rewrite get_bind.
  pose proof (query_inside c q vs bp br (env s2) Hq) as Hin. rewrite H2 in Hin.
  destruct Hi1 as [Hi1 Hc1]. specialize (Hin Hi1). rewrite H2.
  destruct (PQexecParams L c q vs bp br (env s1)) as [[res n2] e]. simpl in Hin. rewrite modify_bind.
  set (s3 := set_env e s2). change (env s3) with e in *.
  match goal with |- context [?m s3] => change (ensures m s3 (λ _ s', committed (env s') = committed (env s) ∧ inside (env s') c = b)) end.
  apply ensures_bind. destruct b.
  - unfold ensures at 1. cbn [mret M_ret]. unfold ensures. unfold lift_r, mbind, M_bind.
    destruct (if success res then _ else _); [|done|done]. simpl. destruct Hin as [-> ->]. by split.
  - apply ensures_bind. eapply ensures_mono; [apply exec_env|]. intros tx s4 H4. rewrite Hcm in H4.
    destruct (rollback_outside c (env s3)) as [Hi4 Hc4]. rewrite <- H4 in Hi4, Hc4.
    unfold ensures at 1. cbn [mret M_ret]. destruct (if success res then _ else _) as [[st r] n3].
    unfold ensures, lift_r, mbind, M_bind. destruct (if st then _ else _); [|done|done]. simpl.
    split; [|done]. destruct Hin. change (env s3) with e in Hc4. congruence.
Qed.

Lemma between_carried c bt bc y o s :
  commit (info_of y) = false → (bc = true → inside (env s) c = true) →
  ensures (between L c bt y o) s (λ _ s', carried c bc s s').
Proof.
  intros Hcm Hb. unfold between. rewrite Hcm, andb_false_r. destruct (passed o), (errored o); [|by split..].
  apply ensures_bind. eapply ensures_mono; [apply exec_env|]. intros m1 s1 H1.
  apply ensures_bind. eapply ensures_mono; [apply exec_env|]. intros m2 s2 H2. unfold ensures. simpl.
  destruct (rollback_outside c (env s)) as [_ Hc1]. destruct (begin_inside c (env s1)) as [Hi2 Hc2].
  rewrite <- H1 in Hc1. rewrite <- H2 in Hi2, Hc2. split; [congruence|done].
Qed.

Lemma steps_carried run c bt bc level l :
  Forall (λ y, commit (info_of y) = false ∧
    ∀ s, (bc = true → inside (env s) c = true) → ensures (run y) s (λ _ s', carried c bc s s')) l →
  ∀ failed s, (bc = true → inside (env s) c = true) →
  ensures (steps L run c bt level l failed) s (λ _ s', carried c bc s s').
Proof.
  intros HF. induction HF as [|y l [Hcm Hy] HF IH]; intros failed s Hb; [by split|]. cbn [steps]. destruct failed.
  - apply ensures_bind. eapply ensures_mono; [apply still_point|]. intros [] s1 H1. apply ensures_bind.
    eapply ensures_mono; [apply IH; by rewrite H1|]. intros r s2 [H2 H3]. split; [by rewrite H2, H1|done].
  - apply ensures_bind. eapply ensures_mono; [by apply Hy|]. intros o s1 [H1 Hi1]. apply ensures_bind.
    eapply ensures_mono; [by apply (between_carried c bt bc)|]. intros ns s2 [H2 Hi2]. apply ensures_bind.
    eapply ensures_mono; [by apply IH|]. intros r s3 [H3 Hi3]. split; [by rewrite H3, H2|done].
Qed.

(** A group, whose tests run inside its transaction or have their own *)
Lemma group_kept run i tests n subs c b level s :
  commit i = false → (if managed then database i else None) = None → (tests = true → b = false ∧ transaction i = true) →
  (b = true → inside (env s) c = true) →
  Forall (λ y, commit (info_of y) = false ∧
    ∀ s, (negb tests = true → inside (env s) c = true) → ensures (run y) s (λ _ s', carried c (negb tests) s s')) subs →
  ensures (run_group L managed run i tests n subs c b level) s
    (λ _ s', committed (env s') = committed (env s) ∧ inside (env s') c = b).
Proof.
  intros Hcm Hdb Ht Hb HF. unfold run_group. rewrite Hcm.
  assert (Hown : (tests && transaction i) || negb b = negb b).
  { destruct tests; [|done]. by destruct (Ht eq_refl) as [-> ->]. }
  rewrite Hown. apply ensures_bind. eapply ensures_mono; [apply exec_when_env|]. intros n1 s1 H1.
  assert (Hi1 : inside (env s1) c = true ∧ committed (env s1) = committed (env s)).
  { rewrite H1. destruct b; [by split; [apply Hb|]|apply begin_inside]. }
  do 4 (apply ensures_bind; unfold ensures at 1; cbn [taprintf get_st set_counter modify_st]).
  apply ensures_bind. eapply ensures_mono; [apply (steps_carried _ _ _ (negb tests)); [exact HF|intros _; apply Hi1]|].
  intros [nodes n2] s2 [H2 Hi2]. apply ensures_bind. unfold ensures at 1. cbn [set_counter modify_st].
  apply ensures_bind. eapply ensures_mono; [apply still_live|]. intros [] s3 H3.
  apply ensures_bind. eapply ensures_mono; [apply exec_when_env|]. intros n3 s4 H4.
  apply ensures_bind. eapply ensures_mono; [apply still_report|]. intros o s5 H5.
  apply ensures_bind. eapply ensures_mono; [by apply still_end|]. intros [] s6 H6. unfold ensures. simpl in *.
  rewrite H6, H5, H4. destruct Hi1 as [Hi1 Hc1]. destruct b; simpl.
  - rewrite H3, H2. split; [done|]. apply Hi2. destruct tests; [|done]. by destruct (Ht eq_refl).
  - destruct (rollback_outside c (env s3)) as [Hi4 Hc4]. split; [by rewrite Hc4, H3, H2|done].
Qed.

Lemma confined_info b t :
  confined b t = true → commit (info_of t) = false ∧ (if managed then database (info_of t) else None) = None.
Proof.
  destruct t as [i n subs]. cbn [confined info_of]. intros [[Hc Hd]%andb_prop _]%andb_prop. apply negb_true_iff in Hc.
  split; [done|]. by destruct (if managed then database i else None).
Qed.

Lemma connection_same connect i c level s :
  (if managed then database i else None) = None →
  ensures (connection L managed connect i (Some c) level) s (λ oc s', env s' = env s ∧ (oc = None ∨ oc = Some c)).
Proof.
  intros Hdb. unfold connection. destruct (instance i); [|done]. rewrite Hdb. apply ensures_bind.
  eapply ensures_mono; [apply still_live|]. intros [] s1 H1. split; [done|by right].
Qed.

Lemma run_kept t : ∀ connect dc c b level s, confined b t = true →
  ensures (connection L managed connect (info_of t) dc level) s (λ oc s', env s' = env s ∧ (oc = None ∨ oc = Some c)) →
  (b = true → inside (env s) c = true) →
  ensures (ytest_run_internal L managed connect dc t b level) s (λ _ s', kept c b s s').
Proof.
  induction t as [i n subs IH] using ytest_tree_ind. intros connect dc c b level s Hcf Hconn Hb.
  cbn [confined] in Hcf. apply andb_prop in Hcf as [[Hcm Hdb]%andb_prop Hk]. apply negb_true_iff in Hcm.
  destruct (if managed then database i else None) as [db|] eqn:Hdb'; [done|]. clear Hdb.
  cbn [ytest_run_internal]. destruct (skipped L n) as [reason|].
  { apply ensures_bind. eapply ensures_mono; [apply still_point|]. intros [] s1 H1. eapply kept_env; [|apply kept_refl]. by rewrite H1. }
  apply ensures_bind. eapply ensures_mono; [exact Hconn|]. intros oc s1 [H1 Hoc].
  destruct Hoc as [->| ->]; [eapply (kept_env _ _ s s1); [done|apply kept_refl]|].
  eapply (ensures_mono _ _ (λ _ s', kept c b s1 s')); [|intros o s' H; by eapply kept_env].
  rewrite <- H1 in Hb. clear s Hconn H1. rename s1 into s.
  apply ensures_bind. eapply (ensures_mono _ _ (λ _ s', kept c b s s')).
  { destruct b; [rewrite andb_false_r; apply kept_refl|]. rewrite andb_true_r. destruct (reset i); [|apply kept_refl].
    destruct (reset_outside c (env s)) as [H1 H2]. by split. }
  intros [] s1 H1. eapply (ensures_mono _ _ (λ _ s', kept c b s1 s')); [|intros o s' H; by eapply kept_trans].
  assert (Hb1 : b = true → inside (env s1) c = true).
  { destruct H1 as [_ H1]. destruct b; [|done]. intros _. apply H1. by apply Hb. }
  clear s Hb H1. rename s1 into s. apply ensures_bind. unfold ensures at 1. cbn [get_st].
  assert (Hsub : ∀ bc, forallb (confined bc) subs = true → Forall (λ y, commit (info_of y) = false ∧
    ∀ s, (bc = true → inside (env s) c = true) →
      ensures (ytest_run_internal L managed connect (Some c) y bc (S level)) s (λ _ s', carried c bc s s')) subs).
  { intros bc Hall. apply list.Forall_forall. intros y Hy. rewrite forallb_forall in Hall.
    specialize (Hall y (proj1 (list_elem_of_In _ _) Hy)). destruct (confined_info bc y Hall) as [Hcy Hdy]. split; [done|].
    intros s0 Hs0. rewrite list.Forall_forall in IH.
    eapply ensures_mono; [apply (IH y Hy connect (Some c) c bc); [done|by apply connection_same|done]|].
    intros o s' [H1 H2]. split; [done|]. intros ->. by apply H2, Hs0. }
  assert (Hfin : ∀ m : M (state E) outcome, ensures m s (λ _ s', committed (env s') = committed (env s) ∧ inside (env s') c = b) →
    ensures m s (λ _ s', kept c b s s')).
  { intros m Hm. eapply ensures_mono; [exact Hm|]. intros o s' [H1 H2]. split; [done|]. by destruct b. }
  destruct (kind i) as [|q| | |]; [| | | |done].
  - apply ensures_bind. eapply ensures_mono; [apply still_report|]. intros o s1 H1.
    apply ensures_bind. eapply ensures_mono; [by apply still_end|]. intros [] s2 H2.
    eapply kept_env; [|apply kept_refl]. by rewrite H2, H1.
  - apply Hfin. apply ensures_bind. eapply ensures_mono; [by apply run_query_kept|]. intros [[err node] ns] s1 [H1 H2].
    apply ensures_bind. eapply ensures_mono; [apply still_report|]. intros o s2 H3.
    apply ensures_bind. eapply ensures_mono; [by apply still_end|]. intros [] s3 H4. unfold ensures. simpl. by rewrite H4, H3.
  - apply Hfin, group_kept; [done..|]. by apply Hsub.
  - apply andb_prop in Hk as [[Hb Htr]%andb_prop Hall]. apply Hfin, group_kept; [done|done| |done|].
    + intros _. split; [by apply negb_true_iff|done].
    + rewrite Htr. by apply Hsub.
Qed.

End isolation.

Module Demo.
Local Open Scope string_scope.

(** A server with one table, of the statements that added to it; a transaction has its own
    version, and may have failed. *)
Record srv := Srv { rows : list string; txs : gmap Z (list string * bool); next : Z }.

Definition okr : PGresult := MkPGresult true None None None [] [].
Definition errr (m : string) : PGresult := MkPGresult false (Some m) (Some "ERROR") None [] [].

Definition exec_sql (c : Z) (q : string) (e : srv) : PGresult * list string * srv :=
  if bool_decide (q = "begin") then
    match txs e !! c with
    | Some _ => (okr, ["there is already a transaction in progress"], e)
    | None => (okr, [], Srv (rows e) (<[c := (rows e, false)]> (txs e)) (next e))
    end
  else if bool_decide (q = "commit") then
    match txs e !! c with
    | Some (d, false) => (okr, [], Srv d (delete c (txs e)) (next e))
    | Some (_, true) => (okr, [], Srv (rows e) (delete c (txs e)) (next e))
    | None => (okr, ["there is no transaction in progress"], e)
    end
  else if bool_decide (q = "rollback") then
    match txs e !! c with
    | Some _ => (okr, [], Srv (rows e) (delete c (txs e)) (next e))
    | None => (okr, ["there is no transaction in progress"], e)
    end
  else
    (MkPGresult true None None None [("oid", 26); ("typname", 19)]
       [[Some "16"; Some "bool"]; [Some "114"; Some "json"]; [Some "3802"; Some "jsonb"]], [], e).

Definition run_sql (c : Z) (q : string) (e : srv) : PGresult * list string * srv :=
  let '(d, failed, tx) := match txs e !! c with Some (d, f) => (d, f, true) | None => (rows e, false, false) end in
  let put d' := if (tx : bool) then Srv (rows e) (<[c := (d', false)]> (txs e)) (next e) else Srv d' (txs e) (next e) in
  if (failed : bool) then (errr "current transaction is aborted", [], e) else
  if String.prefix "add " q then (okr, [], put (d ++ [q])%list) else
  if bool_decide (q = "count") then
    (MkPGresult true None None None [("n", 20)] [[Some (pretty (length d))]], [], e) else
  if bool_decide (q = "null") then (MkPGresult true None None None [("b", 16)] [[None]], [], e) else
  if bool_decide (q = "bytes") then (MkPGresult true None None None [("b", 17)] [[Some (String "255" "")]], [], e) else
  (errr "syntax error ", [], if (tx : bool) then Srv (rows e) (<[c := (d, true)]> (txs e)) (next e) else e).

Definition L : lib srv := {|
  PQconnectdb := λ _ _ e, (next e, Srv (rows e) (txs e) (next e + 1)%Z);
  PQstatus := λ _ _, true;
  PQfinish := λ c e, Srv (rows e) (delete c (txs e)) (next e);
  PQreset := λ c e, Srv (rows e) (delete c (txs e)) (next e);
  PQexec := exec_sql;
  PQexecParams := λ c q _ _ _, run_sql c q;
  pg_ctl_restart := λ _ e, Srv (rows e) ∅ (next e);
  fy_node_build_from_string := λ s, Some (scalar s);
  fy_emit_node_to_string := λ _, "";
  sscanf_2hhx := λ s, if String.prefix "0" s then Some "000"%char else None;
  following := λ _, "";
  malloced := "000"%char
|}.

Definition inst : yinstance := MkYinstance "default" true [] None false (Types 0 0 0).
Definition s0 : state srv := State (Srv [] ∅ 1) [] [] 0 [inst].

Definition doc (l : list ynode) : list ytest :=
  default [] (mapM (populate_ytest_from_fy_node 10 [("default", false)] true "/tests") l).
(** The exit code, what was committed, and the report after the instance is up *)
Definition out (l : list ynode) :=
  let '(r, s) := execute_document L true 3 (doc l) s0 in (r, rows (env s), drop 5 (tap s)).
Definition qry (s : string) (l : list (string * ynode)) := YMap (("query", scalar s) :: l).

Lemma update_inside e c (d : list string) f : bool_decide (is_Some (<[c := (d, f)]> (txs e) !! c)) = true.
Proof. apply bool_decide_true. rewrite lookup_insert_eq. by eexists. Qed.

#[export] Instance demo_transactions : Transactions L rows (λ e c, bool_decide (is_Some (txs e !! c))) (λ _, true).
Proof.
  split.
  - intros c e. unfold L. cbn [PQexec]. unfold exec_sql. simpl. destruct (txs e !! c) eqn:Hc; simpl.
    + split; [apply bool_decide_true; by eexists|done].
    + split; [apply update_inside|done].
  - intros c e. unfold L. cbn [PQexec]. unfold exec_sql. simpl. destruct (txs e !! c) eqn:Hc; simpl.
    + split; [|done]. apply bool_decide_false. rewrite lookup_delete_eq. by intros [].
    + split; [|done]. apply bool_decide_false. rewrite Hc. by intros [].
  - intros c q vs bp br e _ Hin. apply bool_decide_eq_true in Hin as [[d f] Hc].
    unfold L. cbn [PQexecParams]. unfold run_sql. rewrite Hc.
    assert (Hin : bool_decide (is_Some (txs e !! c)) = true) by (apply bool_decide_true; by eexists).
    destruct f; [done|]. repeat (case_match; [by (split; [apply update_inside || apply Hin|])|]). split; [apply update_inside|done].
  - intros c e. unfold L. simpl. split; [|done]. apply bool_decide_false. rewrite lookup_delete_eq. by intros [].
Qed.

(** The state once the instance is up *)
Definition s1 : state srv :=
  State (Srv [] ∅ 2) [] [] 1 [MkYinstance "default" true [] (Some 1) false (Types 114 3802 16)].

Lemma s1_connected : connected L s1 0 1.
Proof. by eexists. Qed.

Definition group : ynode :=
  YMap [("steps", YSeq [qry "add 1" []; qry "bad" [("error", scalar "on")]; scalar "add 2";
                        qry "count" [("results", YSeq [YMap [("n", scalar "1")]])]])].
Definition group_test : ytest := default (Ytest (Info None "" None ytest_kind_none false false false false None) group []) (head (doc [group])).

Lemma test_reports_item_witness :
  ensures (run_test L true 1 group_test) s1 (λ _ s', adds_item 0 s1 s') ∧
  tap (run_test L true 1 group_test s1).2 =
  [Subtest 0 "/tests"; Plan 1 4; Point 1 true 1 "add 1" NoDirective; Point 1 true 2 "bad" NoDirective;
   Point 1 true 3 "add 2" NoDirective; Point 1 true 4 "count" NoDirective; Point 0 true 2 "/tests" NoDirective].
Proof.
  split; [|vm_compute; reflexivity].
  apply (test_reports_item L true 10 [("default", false)] "/tests" group group_test 0 0 1 s1);
    [vm_compute; reflexivity|vm_compute; reflexivity|].
  exact s1_connected.
Defined.


Definition count_pairs : list (string * ynode) :=
  [("name", scalar "counted"); ("query", scalar "count"); ("results", YSeq [YMap [("n", scalar "0")]])].
Definition count_info : info := Info (Some "counted") "" (Some O) (ytest_kind_query "count") false false false true None.
Definition run_count := ytest_run_internal L true (λ _, undefined "unused") (Some 1%Z) (Ytest count_info (YMap count_pairs) []) false 0 s1.


(** *** What the runner does beyond that *)

(** More points are planned than are reported. *)
Lemma plan_too_long :
  tap (execute_document L true 3 (doc [qry "count" []]) s0).2 =
  [Comment "TAP version 14"; Plan 0 3; Comment "Initializing instances"; Point 0 true 1 "default" NoDirective;
   Comment "Done initializing instances"; Point 0 true 2 "count" NoDirective].
Proof. vm_compute. reflexivity. Qed.

(** A test that is just a query is not rolled back. *)
Lemma short_test_kept :
  (out [scalar "add 1"]).1.2 = ["add 1"] ∧ (out [qry "add 1" []]).1.2 = [].
Proof. split; vm_compute; reflexivity. Qed.

(** A group of tests inside of steps ends their transaction: the steps that follow are
    committed. *)
Lemma tests_end_steps :
  (out [YMap [("steps", YSeq [qry "add 1" []; YMap [("tests", YSeq [qry "count" []])]; qry "add 2" []])]]).1 = (Ok 0%Z, ["add 2"]).
Proof. vm_compute. reflexivity. Qed.

(** In a group without a transaction, an error that is expected begins one that nobody
    ends: what follows in the group is lost with the next test. *)
Lemma expected_error_opens :
  (out [YMap [("transaction", scalar "no"); ("tests", YSeq [qry "bad" [("error", scalar "on")]; scalar "add 1"])];
        qry "count" []]).1 = (Ok 0%Z, []) ∧
  (out [YMap [("transaction", scalar "no"); ("tests", YSeq [scalar "add 1"])]; qry "count" []]).1 = (Ok 0%Z, ["add 1"]).
Proof. split; vm_compute; reflexivity. Qed.

(** A boolean that is NULL passes for false. *)
Lemma null_is_false : (out [qry "null" [("results", YSeq [YMap [("b", scalar "false")]])]]).1.1 = Ok 0%Z.
Proof. vm_compute. reflexivity. Qed.

(** Bytes above 127 are printed beyond the buffer. *)
Lemma bytes_overrun :
  (out [qry "bytes" [("binary", scalar "true"); ("results", YSeq [])]]).1.1 = Undefined "sprintf beyond the buffer".
Proof. vm_compute. reflexivity. Qed.

(** A parameter in hexadecimal is read beyond its text. *)
Lemma hex_param_overrun :
  (out [qry "count" [("binary", scalar "params"); ("params", YSeq [scalar "0x0102"])]]).1.1 = Undefined "read beyond the text".
Proof. vm_compute. reflexivity. Qed.

(** Parameters that are no list leave the result unset. *)
Lemma params_not_a_list :
  (out [qry "count" [("params", scalar "1")]]).1.1 = Undefined "result is not initialised".
Proof. vm_compute. reflexivity. Qed.

(** After a restart the steps go on with a connection that was freed. *)
Lemma restart_in_steps :
  (out [YMap [("steps", YSeq [YMap [("restart", scalar "")]; scalar "count"])]]).1.1 = Undefined "connection was freed".
Proof. vm_compute. reflexivity. Qed.

(** A step that is negative, and passes, fails its test, as does one that is to be done. *)
Lemma negative_step_fails :
  (out [YMap [("steps", YSeq [qry "count" [("negative", scalar "true"); ("results", YSeq [])]])]]) =
  (Ok 1%Z, [], [Subtest 0 "/tests"; Plan 1 1; Point 1 true 1 "count" NoDirective; Point 0 false 2 "/tests" NoDirective]).
Proof. vm_compute. reflexivity. Qed.

(** A test that is a list is read, and stops the runner. *)
Lemma list_is_a_test : (out [YSeq []]).1.1 = Undefined "assertion failed".
Proof. vm_compute. reflexivity. Qed.

(** A type whose name is the beginning of another one is taken for it. *)
Lemma type_by_prefix : fetch_type (Types 114 3802 16) [Some "99999"; Some "b"] = Types 114 3802 99999.
Proof. vm_compute. reflexivity. Qed.

(** Of columns with one name the first is returned. *)
Lemma columns_merged build ty v v' :
  value_node build ty false 20 (Some v) = Ok (YScalar v true) →
  value_node build ty false 20 (Some v') = Ok (YScalar v' true) →
  row_node build ty false (YMap []) [("a", 20); ("a", 20)]%Z [Some v; Some v'] = Ok (YMap [("a", YScalar v true)]).
Proof. intros H1 H2. cbn [row_node]. rewrite H1. cbn [mbind result_bind]. rewrite H2. reflexivity. Qed.
End Demo.
End Yregress.
