(* ===== verification/CText.v ===== *)
(** * Texts

    Texts as the C and C++ code has them, shared by the models of omni_sqlite
    and omni_csv.  A text is a list of characters; beyond its end the code
    reads the NUL that terminates it. *)

From stdpp Require Import base tactics list gmap strings numbers.
From Stdlib Require Import ZArith Lia Ascii.
From S2P Require Import Prelude.

Set Default Proof Using "Type".
Local Open Scope Z_scope.

Abbreviation text := (list ascii).

(** A C string literal. *)
Definition str (s : string) : text := String.list_ascii_of_string s.

Definition code (c : ascii) : Z := Z.of_N (N_of_ascii c).
Definition chr (z : Z) : ascii := ascii_of_N (Z.to_N z).

Definition NUL : ascii := chr 0.
Definition NL : ascii := chr 10.
Definition CR : ascii := chr 13.
Definition QUOT : ascii := chr 39.
Definition DQUOT : ascii := chr 34.

Abbreviation ceq := Ascii.eqb.

(** [z[i]], the terminating NUL beyond the end. *)
Definition at_ (z : text) (i : nat) : ascii := default NUL (z !! i).

(** What a [char *] to a text with NULs in it is read as. *)
Fixpoint cstr (z : text) : text :=
  match z with
  | [] => []
  | c :: z' => if ceq c NUL then [] else c :: cstr z'
  end.

(** [for(i=0; p(z[i]); i++){}] *)
Fixpoint count_while (p : ascii → bool) (z : text) : nat :=
  match z with
  | [] => O
  | c :: z' => if p c then S (count_while p z') else O
  end.

(** [memcmp(z, p, n) == 0], [n] the length of [p] *)
Fixpoint starts_with (p z : text) : bool :=
  match p, z with
  | [], _ => true
  | a :: p', b :: z' => ceq a b && starts_with p' z'
  | _ :: _, [] => false
  end.

(** A text with its quotes doubled, and between quotes. *)
Definition double_quotes (q : ascii) (z : text) : text :=
  z ≫= λ c, if ceq c q then [c; c] else [c].

Lemma double_quotes_cons q c z :
  double_quotes q (c :: z) = (if ceq c q then [c; c] else [c]) ++ double_quotes q z.
Proof. done. Qed.

Lemma double_quotes_app q a b : double_quotes q (a ++ b) = double_quotes q a ++ double_quotes q b.
Proof. unfold double_quotes. by rewrite bind_app. Qed.

Definition quoted (q : ascii) (z : text) : text := q :: double_quotes q z ++ [q].

(** ** Facts on characters, by enumeration *)

Ltac by_char c := destruct c as [[] [] [] [] [] [] [] []]; vm_compute; try done.

Lemma ceq_refl c : ceq c c = true.
Proof. apply Ascii.eqb_refl. Qed.

Lemma ceq_neq c d : c ≠ d → ceq c d = false.
Proof. apply Ascii.eqb_neq. Qed.

Lemma code_chr n : 0 <= n < 256 → code (chr n) = n.
Proof. intros H. unfold code, chr. rewrite N_ascii_embedding; lia. Qed.

Lemma chr_code c : chr (code c) = c.
Proof. unfold code, chr. rewrite N2Z.id. apply ascii_N_embedding. Qed.

Lemma code_range c : 0 <= code c < 256.
Proof. unfold code. pose proof (N_ascii_bounded c). lia. Qed.

Lemma at_0_app (c : ascii) (z r : text) : at_ ((c :: z) ++ r) 0 = c.
Proof. done. Qed.

Lemma at_app_r (a r : text) : at_ (a ++ r) (length a) = at_ r 0.
Proof. unfold at_. rewrite lookup_app_r by lia. by rewrite Nat.sub_diag. Qed.

Lemma count_while_app p (a r : text) : Forall (λ c, p c = true) a → p (at_ r 0) = false →
  count_while p (a ++ r) = length a.
Proof.
  intros Ha Hr. induction Ha as [|c a Hc Ha IH]; simpl.
  - destruct r as [|d r]; [done|]. simpl in *. unfold at_ in Hr. simpl in Hr. by rewrite Hr.
  - by rewrite Hc, IH.
Qed.

Lemma count_while_le p (a r : text) : p (at_ r 0) = false → (count_while p (a ++ r) <= length a)%nat.
Proof.
  intros Hr. induction a as [|c a IH]; simpl.
  - destruct r as [|d r]; [done|]. unfold at_ in Hr. simpl in *. by rewrite Hr.
  - destruct (p c); lia.
Qed.

Lemma count_while_all p (a : text) : Forall (λ c, p c = true) a → count_while p a = length a.
Proof. intros H. induction H as [|c a Hc _ IH]; simpl; [done|]. by rewrite Hc, IH. Qed.

Lemma cstr_id l : Forall (λ c, c ≠ NUL) l → cstr l = l.
Proof. induction 1 as [|c l Hc _ IH]; [done|]. cbn [cstr]. by rewrite ceq_neq, IH. Qed.
