(* ===== verification/SqliteReader.v ===== *)
(** * SQLite's reader of literals and names

    The part of deps/sqlite-3.48.0/sqlite3.c (compiled into omni_sqlite) that
    reads back what a dump writes: the tokenizer with its character classes and
    keyword hash table, the values of string, blob and number literals, and the
    SQL functions [replace] and [char].  The two statements a dump is made of,
    [INSERT INTO t(...) VALUES(...)] and [SELECT ... FROM t], are read from
    their tokens by [read_inserts] and [read_select].

    Texts are those of [CText].  The conversion of decimal text to a double ([sqlite3AtoF])
    is a parameter of the reader; a double is its 64 bits. *)

From stdpp Require Import base tactics list gmap strings numbers.
From Stdlib Require Import ZArith Lia Ascii.
From S2P Require Import Prelude CText.

Set Default Proof Using "Type".
Local Open Scope Z_scope.

Module Reader.

(** ** Character classes and keywords *)

Definition sqlite3CtypeMap : list Z := [
   0; 0; 0; 0; 0; 0; 0; 0; 0; 1; 1; 1; 1; 1; 0; 0;
   0; 0; 0; 0; 0; 0; 0; 0; 0; 0; 0; 0; 0; 0; 0; 0;
   1; 0; 128; 0; 64; 0; 0; 128; 0; 0; 0; 0; 0; 0; 0; 0;
   12; 12; 12; 12; 12; 12; 12; 12; 12; 12; 0; 0; 0; 0; 0; 0;
   0; 10; 10; 10; 10; 10; 10; 2; 2; 2; 2; 2; 2; 2; 2; 2;
   2; 2; 2; 2; 2; 2; 2; 2; 2; 2; 2; 128; 0; 0; 0; 64;
   128; 42; 42; 42; 42; 42; 42; 34; 34; 34; 34; 34; 34; 34; 34; 34;
   34; 34; 34; 34; 34; 34; 34; 34; 34; 34; 34; 0; 0; 0; 0; 0;
   64; 64; 64; 64; 64; 64; 64; 64; 64; 64; 64; 64; 64; 64; 64; 64;
   64; 64; 64; 64; 64; 64; 64; 64; 64; 64; 64; 64; 64; 64; 64; 64;
   64; 64; 64; 64; 64; 64; 64; 64; 64; 64; 64; 64; 64; 64; 64; 64;
   64; 64; 64; 64; 64; 64; 64; 64; 64; 64; 64; 64; 64; 64; 64; 64;
   64; 64; 64; 64; 64; 64; 64; 64; 64; 64; 64; 64; 64; 64; 64; 64;
   64; 64; 64; 64; 64; 64; 64; 64; 64; 64; 64; 64; 64; 64; 64; 64;
   64; 64; 64; 64; 64; 64; 64; 64; 64; 64; 64; 64; 64; 64; 64; 64;
   64; 64; 64; 64; 64; 64; 64; 64; 64; 64; 64; 64; 64; 64; 64; 64].

Definition aiClass_table : list Z := [
   29; 28; 28; 28; 28; 28; 28; 28; 28; 7; 7; 28; 7; 7; 28; 28;
   28; 28; 28; 28; 28; 28; 28; 28; 28; 28; 28; 28; 28; 28; 28; 28;
   7; 15; 8; 5; 4; 22; 24; 8; 17; 18; 21; 20; 23; 11; 26; 16;
   3; 3; 3; 3; 3; 3; 3; 3; 3; 3; 5; 19; 12; 14; 13; 6;
   5; 1; 1; 1; 1; 1; 1; 1; 1; 1; 1; 1; 1; 1; 1; 1;
   1; 1; 1; 1; 1; 1; 1; 1; 0; 2; 2; 9; 28; 28; 28; 2;
   8; 1; 1; 1; 1; 1; 1; 1; 1; 1; 1; 1; 1; 1; 1; 1;
   1; 1; 1; 1; 1; 1; 1; 1; 0; 2; 2; 28; 10; 28; 25; 28;
   27; 27; 27; 27; 27; 27; 27; 27; 27; 27; 27; 27; 27; 27; 27; 27;
   27; 27; 27; 27; 27; 27; 27; 27; 27; 27; 27; 27; 27; 27; 27; 27;
   27; 27; 27; 27; 27; 27; 27; 27; 27; 27; 27; 27; 27; 27; 27; 27;
   27; 27; 27; 27; 27; 27; 27; 27; 27; 27; 27; 27; 27; 27; 27; 27;
   27; 27; 27; 27; 27; 27; 27; 27; 27; 27; 27; 27; 27; 27; 27; 27;
   27; 27; 27; 27; 27; 27; 27; 27; 27; 27; 27; 27; 27; 27; 27; 27;
   27; 27; 27; 27; 27; 27; 27; 27; 27; 27; 27; 27; 27; 27; 27; 30;
   27; 27; 27; 27; 27; 27; 27; 27; 27; 27; 27; 27; 27; 27; 27; 27].

Definition zKWText : text := str (
   "REINDEXEDESCAPEACHECKEYBEFOREIGNOREGEXPLAINSTEADDATABASELECT" +:+
   "ABLEFTHENDEFERRABLELSEXCLUDELETEMPORARYISNULLSAVEPOINTERSECT" +:+
   "IESNOTNULLIKEXCEPTRANSACTIONATURALTERAISEXCLUSIVEXISTSCONSTR" +:+
   "AINTOFFSETRIGGERANGENERATEDETACHAVINGLOBEGINNEREFERENCESUNIQ" +:+
   "UERYWITHOUTERELEASEATTACHBETWEENOTHINGROUPSCASCADEFAULTCASEC" +:+
   "OLLATECREATECURRENT_DATEIMMEDIATEJOINSERTMATCHPLANALYZEPRAGM" +:+
   "ATERIALIZEDEFERREDISTINCTUPDATEVALUESVIRTUALWAYSWHENWHERECUR" +:+
   "SIVEABORTAFTERENAMEANDROPARTITIONAUTOINCREMENTCASTCOLUMNCOMM" +:+
   "ITCONFLICTCROSSCURRENT_TIMESTAMPRECEDINGFAILASTFILTEREPLACEF" +:+
   "IRSTFOLLOWINGFROMFULLIMITIFORDERESTRICTOTHERSOVERETURNINGRIG" +:+
   "HTROLLBACKROWSUNBOUNDEDUNIONUSINGVACUUMVIEWINDOWBYINITIALLYP" +:+
   "RIMARY").

Definition aKWHash : list Z := [
   84; 92; 134; 82; 105; 29; 0; 0; 94; 0; 85; 72; 0; 53; 35; 86;
   15; 0; 42; 97; 54; 89; 135; 19; 0; 0; 140; 0; 40; 129; 0; 22;
   107; 0; 9; 0; 0; 123; 80; 0; 78; 6; 0; 65; 103; 147; 0; 136;
   115; 0; 0; 48; 0; 90; 24; 0; 17; 0; 27; 70; 23; 26; 5; 60;
   142; 110; 122; 0; 73; 91; 71; 145; 61; 120; 74; 0; 49; 0; 11; 41;
   0; 113; 0; 0; 0; 109; 10; 111; 116; 125; 14; 50; 124; 0; 100; 0;
   18; 121; 144; 56; 130; 139; 88; 83; 37; 30; 126; 0; 0; 108; 51; 131;
   128; 0; 34; 0; 0; 132; 0; 98; 38; 39; 0; 20; 45; 117; 93].

Definition aKWNext : list Z := [
   0; 0; 0; 0; 0; 4; 0; 43; 0; 0; 106; 114; 0; 0; 0; 2;
   0; 0; 143; 0; 0; 0; 13; 0; 0; 0; 0; 141; 0; 0; 119; 52;
   0; 0; 137; 12; 0; 0; 62; 0; 138; 0; 133; 0; 0; 36; 0; 0;
   28; 77; 0; 0; 0; 0; 59; 0; 47; 0; 0; 0; 0; 0; 0; 0;
   0; 0; 0; 69; 0; 0; 0; 0; 0; 146; 3; 0; 58; 0; 1; 75;
   0; 0; 0; 31; 0; 0; 0; 0; 0; 127; 0; 104; 0; 64; 66; 63;
   0; 0; 0; 0; 0; 46; 0; 16; 8; 0; 0; 0; 0; 0; 0; 0;
   0; 0; 0; 81; 101; 0; 112; 21; 7; 67; 0; 79; 96; 118; 0; 0;
   68; 0; 0; 99; 44; 0; 55; 0; 76; 0; 95; 32; 33; 57; 25; 0;
   102; 0; 0; 87].

Definition aKWLen : list Z := [
   0; 7; 7; 5; 4; 6; 4; 5; 3; 6; 7; 3; 6; 6; 7; 7;
   3; 8; 2; 6; 5; 4; 4; 3; 10; 4; 7; 6; 9; 4; 2; 6;
   5; 9; 9; 4; 7; 3; 2; 4; 4; 6; 11; 6; 2; 7; 5; 5;
   9; 6; 10; 4; 6; 2; 3; 7; 5; 9; 6; 6; 4; 5; 5; 10;
   6; 5; 7; 4; 5; 7; 6; 7; 7; 6; 5; 7; 3; 7; 4; 7;
   6; 12; 9; 4; 6; 5; 4; 7; 6; 12; 8; 8; 2; 6; 6; 7;
   6; 4; 5; 9; 5; 5; 6; 3; 4; 9; 13; 2; 2; 4; 6; 6;
   8; 5; 17; 12; 7; 9; 4; 4; 6; 7; 5; 9; 4; 4; 5; 2;
   5; 8; 6; 4; 9; 5; 8; 4; 3; 9; 5; 5; 6; 4; 6; 2;
   2; 9; 3; 7].

Definition aKWOffset : list Z := [
   0; 0; 2; 2; 8; 9; 14; 16; 20; 23; 25; 25; 29; 33; 36; 41;
   46; 48; 53; 54; 59; 62; 65; 67; 69; 78; 81; 86; 90; 90; 94; 99;
   101; 105; 111; 119; 123; 123; 123; 126; 129; 132; 137; 142; 146; 147; 152; 156;
   160; 168; 174; 181; 184; 184; 187; 189; 195; 198; 206; 211; 216; 219; 222; 226;
   236; 239; 244; 244; 248; 252; 259; 265; 271; 277; 277; 283; 284; 288; 295; 299;
   306; 312; 324; 333; 335; 341; 346; 348; 355; 359; 370; 377; 378; 385; 391; 397;
   402; 408; 412; 415; 424; 429; 433; 439; 441; 444; 453; 455; 457; 466; 470; 476;
   482; 490; 495; 495; 495; 511; 520; 523; 527; 532; 539; 544; 553; 557; 560; 565;
   567; 571; 579; 585; 588; 597; 602; 610; 610; 614; 623; 628; 633; 639; 642; 645;
   648; 650; 655; 659].

Definition table (t : list Z) (i : Z) : Z := default 0 (t !! Z.to_nat i).

Definition aiClass (c : ascii) : Z := table aiClass_table (code c).

Definition ctype (c : ascii) (mask : Z) : bool :=
  negb (Z.land (table sqlite3CtypeMap (code c)) mask =? 0).

Definition sqlite3Isspace (c : ascii) : bool := ctype c 1.
Definition sqlite3Isdigit (c : ascii) : bool := ctype c 4.
Definition sqlite3Isxdigit (c : ascii) : bool := ctype c 8.
Definition sqlite3Isquote (c : ascii) : bool := ctype c 128.
Definition IdChar (c : ascii) : bool := ctype c 70.

(** The first 256 entries of [sqlite3UpperToLower]. *)
Definition UpperToLower (c : Z) : Z := if (65 <=? c) && (c <=? 90) then c + 32 else c.

Fixpoint sqlite3StrICmp (a b : text) : Z :=
  match a, b with
  | [], [] => 0
  | [], x :: _ => 0 - UpperToLower (code x)
  | c :: _, [] => UpperToLower (code c)
  | c :: a', x :: b' =>
      let d := UpperToLower (code c) - UpperToLower (code x) in
      if d =? 0 then sqlite3StrICmp a' b' else d
  end.

(** The characters of [z] against those of [zKW], up to case. *)
Fixpoint kw_chars (z zKW : text) : bool :=
  match z with
  | [] => true
  | c :: z' =>
      match zKW with
      | [] => false
      | k :: zKW' => (Z.land (code c) (Z.lnot 32) =? code k) && kw_chars z' zKW'
      end
  end.

(** The chain of keywords with the same hash, from index [i] on. *)
Fixpoint kw_chain (fuel : nat) (i : Z) (z : text) : option Z :=
  match fuel with
  | O => None
  | S fuel' =>
      if i <=? 0 then None
      else if (table aKWLen i =? Z.of_nat (length z))
              && kw_chars z (drop (Z.to_nat (table aKWOffset i)) zKWText)
      then Some i
      else kw_chain fuel' (table aKWNext i) z
  end.

(** The index of the keyword [z] in the tables, whose symbol the parser is
    given; [None] is [TK_ID]. *)
Definition keywordCode (z : text) : option Z :=
  let n := length z in
  let h := Z.lxor (Z.lxor (UpperToLower (code (at_ z 0)) * 4)
                          (UpperToLower (code (at_ z (n - 1))) * 3))
                  (Z.of_nat n) mod 127 in
  kw_chain 148 (table aKWHash h) z.

Definition sqlite3_keyword_check (z : text) : bool :=
  (2 <=? length z)%nat && bool_decide (keywordCode z ≠ None).

(** ** The tokenizer *)

Inductive token :=
  | TK_SPACE | TK_ILLEGAL | TK_MINUS | TK_PTR | TK_LP | TK_RP | TK_SEMI
  | TK_PLUS | TK_STAR | TK_SLASH | TK_REM | TK_EQ | TK_LE | TK_NE | TK_LSHIFT
  | TK_LT | TK_GE | TK_RSHIFT | TK_GT | TK_BITOR | TK_CONCAT | TK_COMMA
  | TK_BITAND | TK_BITNOT | TK_STRING | TK_ID | TK_DOT | TK_INTEGER | TK_FLOAT
  | TK_QNUMBER | TK_VARIABLE | TK_BLOB
  | TK_KEYWORD (i : Z).   (* aKWCode[i] *)

#[export] Instance token_eq_dec : EqDecision token.
Proof. solve_decision. Defined.

(** The end of a comment, from [z[i]] on, [c] the character before. *)
Fixpoint comment_loop (c : ascii) (z : text) (i : nat) : nat :=
  match z with
  | [] => i
  | d :: z' =>
      if ceq c "*" && ceq d "/" then S i
      else if ceq d NUL then i
      else comment_loop d z' (S i)
  end.

(** The closing quote, or the end of the text. *)
Fixpoint quote_loop (delim : ascii) (z : text) (i : nat) : nat * ascii :=
  match z with
  | [] => (i, NUL)
  | c :: z' =>
      if ceq c NUL then (i, NUL)
      else if ceq c delim then
        match z' with
        | d :: z'' => if ceq d delim then quote_loop delim z'' (S (S i)) else (i, c)
        | [] => (i, c)
        end
      else quote_loop delim z' (S i)
  end.

(** Digits and digit separators. *)
Fixpoint digit_loop (isd : ascii → bool) (z : text) (i : nat) (t : token) : nat * token :=
  match z with
  | [] => (i, t)
  | c :: z' =>
      if isd c then digit_loop isd z' (S i) t
      else if ceq c "_" then digit_loop isd z' (S i) TK_QNUMBER
      else (i, t)
  end.

Fixpoint bracket_loop (c : ascii) (z : text) (i : nat) : nat * ascii :=
  if ceq c "]" then (i, c)
  else match z with
       | [] => (i, NUL)
       | d :: z' => if ceq d NUL then (i, NUL) else bracket_loop d z' (S i)
       end.

(** The name of a variable: its length, type and number of characters. *)
Fixpoint var_loop (z : text) (i n : nat) : nat * token * nat :=
  match z with
  | [] => (i, TK_VARIABLE, n)
  | c :: z' =>
      if ceq c NUL then (i, TK_VARIABLE, n)
      else if IdChar c then var_loop z' (S i) (S n)
      else if ceq c "(" && (0 <? n)%nat then
        let k := count_while (λ d, negb (ceq d NUL) && negb (sqlite3Isspace d)
                                   && negb (ceq d ")")) z' in
        if ceq (at_ z' k) ")" then (S (S i + k)%nat, TK_VARIABLE, n)
        else ((S i + k)%nat, TK_ILLEGAL, n)
      else
        match z' with
        | d :: z'' => if ceq c ":" && ceq d ":" then var_loop z'' (S (S i)) n
                      else (i, TK_VARIABLE, n)
        | [] => (i, TK_VARIABLE, n)
        end
  end.

(** A number that begins with a digit or with "." and a digit. *)
Definition number_token (z : text) : nat * token :=
  let '(i, t) :=
    if ceq (at_ z 0) "0" && (ceq (at_ z 1) "x" || ceq (at_ z 1) "X")
       && sqlite3Isxdigit (at_ z 2)
    then digit_loop sqlite3Isxdigit (drop 3 z) 3 TK_INTEGER
    else
      let '(i, t) := digit_loop sqlite3Isdigit z 0 TK_INTEGER in
      let '(i, t) :=
        if ceq (at_ z i) "." then
          digit_loop sqlite3Isdigit (drop (S i) z) (S i)
                     (if decide (t = TK_INTEGER) then TK_FLOAT else t)
        else (i, t) in
      if (ceq (at_ z i) "e" || ceq (at_ z i) "E")
         && (sqlite3Isdigit (at_ z (i + 1))
             || (ceq (at_ z (i + 1)) "+" || ceq (at_ z (i + 1)) "-")
                && sqlite3Isdigit (at_ z (i + 2)))
      then digit_loop sqlite3Isdigit (drop (i + 2) z) (i + 2)
                      (if decide (t = TK_INTEGER) then TK_FLOAT else t)
      else (i, t) in
  let k := count_while IdChar (drop i z) in
  ((i + k)%nat, if decide (k = O) then t else TK_ILLEGAL).

(** [while( IdChar(z[i]) ){ i++; }] at the end of [sqlite3GetToken] *)
Definition ident_token (z : text) (i : nat) : nat * token :=
  ((i + count_while IdChar (drop i z))%nat, TK_ID).

Definition sqlite3GetToken (z : text) : nat * token :=
  let z1 := at_ z 1 in
  let z2 := at_ z 2 in
  match aiClass (at_ z 0) with
  | 7 (* CC_SPACE *) => (S (count_while sqlite3Isspace (drop 1 z)), TK_SPACE)
  | 11 (* CC_MINUS *) =>
      if ceq z1 "-" then
        ((2 + count_while (λ c, negb (ceq c NUL) && negb (ceq c NL)) (drop 2 z))%nat, TK_SPACE)
      else if ceq z1 ">" then ((2 + if ceq z2 ">" then 1 else 0)%nat, TK_PTR)
      else (1%nat, TK_MINUS)
  | 17 (* CC_LP *) => (1%nat, TK_LP)
  | 18 (* CC_RP *) => (1%nat, TK_RP)
  | 19 (* CC_SEMI *) => (1%nat, TK_SEMI)
  | 20 (* CC_PLUS *) => (1%nat, TK_PLUS)
  | 21 (* CC_STAR *) => (1%nat, TK_STAR)
  | 16 (* CC_SLASH *) =>
      if negb (ceq z1 "*") || ceq z2 NUL then (1%nat, TK_SLASH)
      else (comment_loop z2 (drop 3 z) 3, TK_SPACE)
  | 22 (* CC_PERCENT *) => (1%nat, TK_REM)
  | 14 (* CC_EQ *) => ((1 + if ceq z1 "=" then 1 else 0)%nat, TK_EQ)
  | 12 (* CC_LT *) =>
      if ceq z1 "=" then (2%nat, TK_LE)
      else if ceq z1 ">" then (2%nat, TK_NE)
      else if ceq z1 "<" then (2%nat, TK_LSHIFT)
      else (1%nat, TK_LT)
  | 13 (* CC_GT *) =>
      if ceq z1 "=" then (2%nat, TK_GE)
      else if ceq z1 ">" then (2%nat, TK_RSHIFT)
      else (1%nat, TK_GT)
  | 15 (* CC_BANG *) => if ceq z1 "=" then (2%nat, TK_NE) else (1%nat, TK_ILLEGAL)
  | 10 (* CC_PIPE *) => if ceq z1 "|" then (2%nat, TK_CONCAT) else (1%nat, TK_BITOR)
  | 23 (* CC_COMMA *) => (1%nat, TK_COMMA)
  | 24 (* CC_AND *) => (1%nat, TK_BITAND)
  | 25 (* CC_TILDA *) => (1%nat, TK_BITNOT)
  | 8 (* CC_QUOTE *) =>
      let '(i, c) := quote_loop (at_ z 0) (drop 1 z) 1 in
      if ceq c QUOT then (S i, TK_STRING)
      else if negb (ceq c NUL) then (S i, TK_ID)
      else (i, TK_ILLEGAL)
  | 26 (* CC_DOT *) =>
      if sqlite3Isdigit z1 then number_token z else (1%nat, TK_DOT)
  | 3 (* CC_DIGIT *) => number_token z
  | 9 (* CC_QUOTE2 *) =>
      let '(i, c) := bracket_loop (at_ z 0) (drop 1 z) 1 in
      (i, if ceq c "]" then TK_ID else TK_ILLEGAL)
  | 6 (* CC_VARNUM *) => (S (count_while sqlite3Isdigit (drop 1 z)), TK_VARIABLE)
  | 4 | 5 (* CC_DOLLAR, CC_VARALPHA *) =>
      let '(i, t, n) := var_loop (drop 1 z) 1 0 in
      (i, if decide (n = O) then TK_ILLEGAL else t)
  | 1 (* CC_KYWD0 *) =>
      if 2 <? aiClass z1 then ident_token z 1
      else
        let i := S (S (count_while (λ c, (aiClass c <=? 2)%Z) (drop 2 z))) in
        if IdChar (at_ z i) then ident_token z (S i)
        else (i, match keywordCode (take i z) with
                 | Some k => TK_KEYWORD k
                 | None => TK_ID
                 end)
  | 0 (* CC_X *) =>
      if ceq z1 QUOT then
        let i := (2 + count_while sqlite3Isxdigit (drop 2 z))%nat in
        let ok := ceq (at_ z i) QUOT && Nat.even i in
        let i := if ok then i
                 else (i + count_while (λ c, negb (ceq c NUL) && negb (ceq c QUOT)) (drop i z))%nat in
        ((if ceq (at_ z i) NUL then i else S i), if ok then TK_BLOB else TK_ILLEGAL)
      else ident_token z 1
  | 2 | 27 (* CC_KYWD, CC_ID *) => ident_token z 1
  | 30 (* CC_BOM *) =>
      if ceq z1 (chr 187) && ceq z2 (chr 191) then (3%nat, TK_SPACE)
      else ident_token z 1
  | 29 (* CC_NUL *) => (O, TK_ILLEGAL)
  | _ => (1%nat, TK_ILLEGAL)
  end.

(** The tokens handed to the parser: spaces and comments are skipped, an
    illegal token ends the reading.  FILTER, OVER and WINDOW (120, 131, 142),
    which are names or keywords by their context, are not read. *)
Fixpoint tokens (fuel : nat) (z : text) : option (list (token * text)) :=
  match fuel with
  | O => None
  | S fuel' =>
      if ceq (at_ z 0) NUL then Some []
      else
        let '(n, t) := sqlite3GetToken z in
        match t with
        | TK_SPACE => tokens fuel' (drop n z)
        | TK_ILLEGAL | TK_KEYWORD 120 | TK_KEYWORD 131 | TK_KEYWORD 142 => None
        | _ => cons (t, take n z) <$> tokens fuel' (drop n z)
        end
  end.

Definition tokenize (z : text) : option (list (token * text)) := tokens (S (length z)) z.

(** ** Values of literals *)

Inductive value :=
  | VNull
  | VInteger (i : Z)
  | VFloat (bits : Z)
  | VText (t : text)
  | VBlob (b : text).

#[export] Instance value_eq_dec : EqDecision value.
Proof. solve_decision. Defined.

(** The text between the quotes, doubled quotes taken once. *)
Fixpoint dequote_loop (quote : ascii) (z : text) : text :=
  match z with
  | [] => []
  | c :: z' =>
      if ceq c quote then
        match z' with
        | d :: z'' => if ceq d quote then quote :: dequote_loop quote z'' else []
        | [] => []
        end
      else c :: dequote_loop quote z'
  end.

Definition sqlite3Dequote (z : text) : text :=
  match z with
  | [] => []
  | q :: z' =>
      if sqlite3Isquote q
      then dequote_loop (if ceq q "[" then "]"%char else q) z'
      else z
  end.

Definition sqlite3HexToInt (h : ascii) : Z :=
  let h := code h in
  Z.land (h + 9 * Z.land 1 (Z.shiftr h 6)) 15.

(** The digits of a blob literal, the closing quote left out. *)
Fixpoint sqlite3HexToBlob (z : text) : text :=
  match z with
  | a :: b :: z' =>
      chr (Z.lor (Z.shiftl (sqlite3HexToInt a) 4) (sqlite3HexToInt b)) :: sqlite3HexToBlob z'
  | _ => []
  end.

Definition SMALLEST_INT64 : Z := - 2 ^ 63.
Definition LARGEST_INT64 : Z := 2 ^ 63 - 1.

Definition digit (c : ascii) : Z := code c - 48.
Definition is_dec (c : ascii) : bool := (48 <=? code c) && (code c <=? 57).

(** [u = u*10 + c - '0'] over the digits, in 64 bits *)
Definition dec_val (u : Z) (z : text) : Z :=
  fold_left (λ u c, wrap_u 64 (u * 10 + digit c)) z u.

Fixpoint compare_loop (c : Z) (z pow63 : text) : Z :=
  match pow63 with
  | [] => if c =? 0 then code (at_ z 0) - code "8" else c
  | p :: pow63' =>
      if c =? 0 then compare_loop ((code (at_ z 0) - code p) * 10) (drop 1 z) pow63'
      else c
  end.
Definition compare2pow63 (z : text) : Z := compare_loop 0 z (str "922337203685477580").

(** UTF-8 only; the result code and [*pNum]. *)
Definition sqlite3Atoi64 (zNum : text) : Z * Z :=
  let zNum := drop (count_while sqlite3Isspace zNum) zNum in
  let neg := ceq (at_ zNum 0) "-" in
  let zStart := if neg || ceq (at_ zNum 0) "+" then drop 1 zNum else zNum in
  let zeros := count_while (λ c, ceq c "0") zStart in
  let zNum := drop zeros zStart in
  let i := count_while is_dec zNum in
  let u := dec_val 0 (take i zNum) in
  let pNum := if LARGEST_INT64 <? u then (if neg then SMALLEST_INT64 else LARGEST_INT64)
              else if neg then - u else u in
  let rc := if decide (i = O ∧ zeros = O) then -1
            else if forallb sqlite3Isspace (drop i zNum) then 0 else 1 in
  if decide (i < 19)%nat then (rc, pNum)
  else
    let c := if decide (19 < i)%nat then 1 else compare2pow63 zNum in
    if c <? 0 then (rc, pNum)
    else
      let pNum := if neg then SMALLEST_INT64 else LARGEST_INT64 in
      if 0 <? c then (2, pNum) else ((if neg then rc else 3), pNum).

Definition hex_val (w u : Z) (z : text) : Z :=
  fold_left (λ u c, wrap_u w (u * 16 + sqlite3HexToInt c)) z u.

Definition has_0x (z : text) : bool :=
  ceq (at_ z 0) "0" && (ceq (at_ z 1) "x" || ceq (at_ z 1) "X").

Definition sqlite3DecOrHexToI64 (z : text) : Z * Z :=
  if has_0x z then
    let zi := drop (count_while (λ c, ceq c "0") (drop 2 z)) (drop 2 z) in
    let k := count_while sqlite3Isxdigit zi in
    let u := wrap_s 64 (hex_val 64 0 (take k zi)) in
    (if decide (16 < k)%nat then 2 else if decide (k < length zi)%nat then 1 else 0, u)
  else
    let n := count_while (λ c, is_dec c || existsb (ceq c) (str "+- ") || ceq c NL || ceq c (chr 9)) z in
    let n := if decide (n < length z)%nat then S n else n in
    sqlite3Atoi64 (take n z).

Definition sqlite3GetInt32 (zNum : text) : option Z :=
  if has_0x zNum && sqlite3Isxdigit (at_ zNum 2) then
    let zi := drop (count_while (λ c, ceq c "0") (drop 2 zNum)) (drop 2 zNum) in
    let i := min 8 (count_while sqlite3Isxdigit zi) in
    let u := hex_val 32 0 (take i zi) in
    if (Z.land u (2 ^ 31) =? 0) && negb (sqlite3Isxdigit (at_ zi i)) then Some u else None
  else
    let neg := ceq (at_ zNum 0) "-" in
    let zNum := if neg || ceq (at_ zNum 0) "+" then drop 1 zNum else zNum in
    if negb (sqlite3Isdigit (at_ zNum 0)) then None
    else
      let zNum := drop (count_while (λ c, ceq c "0") zNum) zNum in
      let i := min 11 (count_while is_dec zNum) in
      let v := dec_val 0 (take i zNum) in
      if decide (10 < i)%nat then None
      else if 2147483647 <? v - (if neg then 1 else 0) then None
      else Some (if neg then - v else v).

(** ** SQL functions *)

(** The loop of [replaceFunc]: [skip] characters belong to the last match. *)
Fixpoint replace_loop (zPattern zRep : text) (skip : nat) (zStr : text) : text :=
  match zStr with
  | [] => []
  | c :: z' =>
      match skip with
      | S k => replace_loop zPattern zRep k z'
      | O => if starts_with zPattern zStr
             then zRep ++ replace_loop zPattern zRep (length zPattern - 1) z'
             else c :: replace_loop zPattern zRep O z'
      end
  end.

Definition replaceFunc (zStr zPattern zRep : text) : text :=
  match zPattern with
  | [] => zStr
  | _ => replace_loop zPattern zRep O zStr
  end.

Definition utf8_bytes (x : Z) : text :=
  let x := if (x <? 0) || (1114111 <? x) then 65533 else x in
  let c := Z.land x 2097151 in
  let tail k := chr (128 + Z.land (Z.shiftr c k) 63) in
  if c <? 128 then [chr c]
  else if c <? 2048 then [chr (192 + Z.land (Z.shiftr c 6) 31); tail 0]
  else if c <? 65536 then [chr (224 + Z.land (Z.shiftr c 12) 15); tail 6; tail 0]
  else [chr (240 + Z.land (Z.shiftr c 18) 7); tail 12; tail 6; tail 0].

Definition charFunc (args : list Z) : text := args ≫= utf8_bytes.

(** ** Statements *)

Section Statements.
(** [sqlite3AtoF] and the sign of a double. *)
Variable AtoF : text → Z.
Variable float_neg : Z → Z.

Definition codeReal (z : text) (negateFlag : bool) : value :=
  let value := AtoF z in
  VFloat (if negateFlag then float_neg value else value).

(** A number literal; [None] is the error "hex literal too big". *)
Definition codeInteger (z : text) (negFlag : bool) : option value :=
  match sqlite3GetInt32 z with
  | Some i => Some (VInteger (if negFlag then - i else i))
  | None =>
      let '(c, value) := sqlite3DecOrHexToI64 z in
      if (c =? 3) && negb negFlag || (c =? 2) || negFlag && (value =? SMALLEST_INT64) then
        if has_0x z then None else Some (codeReal z negFlag)
      else Some (VInteger (if negFlag then (if c =? 3 then SMALLEST_INT64 else - value)
                           else value))
  end.

(** An expression of a VALUES list: a literal, or a call of [replace] or
    [char].  REPLACE (121) is a keyword that the grammar takes as a name here;
    NULL is 39. *)
Fixpoint read_expr (fuel : nat) (ts : list (token * text)) : option (value * list (token * text)) :=
  match fuel with
  | O => None
  | S fuel' =>
      match ts with
      | (TK_STRING, z) :: ts' => Some (VText (sqlite3Dequote z), ts')
      | (TK_BLOB, z) :: ts' => Some (VBlob (sqlite3HexToBlob (take (length z - 3) (drop 2 z))), ts')
      | (TK_INTEGER, z) :: ts' => (λ v, (v, ts')) <$> codeInteger z false
      | (TK_MINUS, _) :: (TK_INTEGER, z) :: ts' => (λ v, (v, ts')) <$> codeInteger z true
      | (TK_FLOAT, z) :: ts' => Some (codeReal z false, ts')
      | (TK_MINUS, _) :: (TK_FLOAT, z) :: ts' => Some (codeReal z true, ts')
      | (TK_KEYWORD 39, _) :: ts' => Some (VNull, ts')
      | (TK_KEYWORD 121, _) :: (TK_LP, _) :: ts1 =>
          match read_expr fuel' ts1 with
          | Some (VText s, (TK_COMMA, _) :: ts2) =>
              match read_expr fuel' ts2 with
              | Some (VText p, (TK_COMMA, _) :: ts3) =>
                  match read_expr fuel' ts3 with
                  | Some (VText r, (TK_RP, _) :: ts4) => Some (VText (replaceFunc s p r), ts4)
                  | _ => None
                  end
              | _ => None
              end
          | _ => None
          end
      | (TK_ID, n) :: (TK_LP, _) :: ts1 =>
          if sqlite3StrICmp n (str "char") =? 0 then
            match read_expr fuel' ts1 with
            | Some (VInteger i, (TK_RP, _) :: ts2) => Some (VText (charFunc [i]), ts2)
            | _ => None
            end
          else None
      | _ => None
      end
  end.

(** Expressions separated by commas, up to the closing parenthesis. *)
Fixpoint read_exprs (fuel : nat) (ts : list (token * text)) : option (list value * list (token * text)) :=
  match fuel with
  | O => None
  | S fuel' =>
      match read_expr fuel ts with
      | Some (v, (TK_COMMA, _) :: ts') =>
          match read_exprs fuel' ts' with
          | Some (vs, ts'') => Some (v :: vs, ts'')
          | None => None
          end
      | Some (v, (TK_RP, _) :: ts') => Some ([v], ts')
      | _ => None
      end
  end.

(** Names separated by commas, up to a token of type [stop]. *)
Fixpoint read_names (stop : token) (ts : list (token * text)) : option (list text * list (token * text)) :=
  match ts with
  | (TK_ID, n) :: (TK_COMMA, _) :: ts' =>
      match read_names stop ts' with
      | Some (ns, ts'') => Some (sqlite3Dequote n :: ns, ts'')
      | None => None
      end
  | (TK_ID, n) :: (t, _) :: ts' =>
      if decide (t = stop) then Some ([sqlite3Dequote n], ts') else None
  | _ => None
  end.

Record insert_stmt := InsertStmt {
  ins_table : text;
  ins_columns : option (list text);
  ins_values : list value
}.

(** [INSERT INTO t(names) VALUES(exprs);], the names left out or not (INSERT 84,
    INTO 51, VALUES 94). *)
Definition read_insert (ts : list (token * text)) : option (insert_stmt * list (token * text)) :=
  let values t cols ts :=
    match ts with
    | (TK_KEYWORD 94, _) :: (TK_LP, _) :: ts1 =>
        match read_exprs (length ts1) ts1 with
        | Some (vs, (TK_SEMI, _) :: ts2) => Some (InsertStmt t cols vs, ts2)
        | _ => None
        end
    | _ => None
    end in
  match ts with
  | (TK_KEYWORD 84, _) :: (TK_KEYWORD 51, _) :: (TK_ID, t) :: (TK_LP, _) :: ts1 =>
      match read_names TK_RP ts1 with
      | Some (ns, ts2) => values (sqlite3Dequote t) (Some ns) ts2
      | None => None
      end
  | (TK_KEYWORD 84, _) :: (TK_KEYWORD 51, _) :: (TK_ID, t) :: ts1 =>
      values (sqlite3Dequote t) None ts1
  | _ => None
  end.

Fixpoint read_insert_list (fuel : nat) (ts : list (token * text)) : option (list insert_stmt) :=
  match ts with
  | [] => Some []
  | _ =>
      match fuel with
      | O => None
      | S fuel' =>
          match read_insert ts with
          | Some (i, ts') => cons i <$> read_insert_list fuel' ts'
          | None => None
          end
      end
  end.

(** A text of INSERT statements. *)
Definition read_inserts (z : text) : option (list insert_stmt) :=
  ts ← tokenize z; read_insert_list (length ts) ts.

End Statements.

(** [SELECT names FROM t] (SELECT 19, FROM 124) *)
Definition read_select (z : text) : option (list text * text) :=
  match tokenize z with
  | Some ((TK_KEYWORD 19, _) :: ts) =>
      match read_names (TK_KEYWORD 124) ts with
      | Some (ns, [(TK_ID, t)]) => Some (ns, sqlite3Dequote t)
      | _ => None
      end
  | _ => None
  end.

(** ** Reading token by token *)

Definition skipped (t : token) : bool :=
  match t with
  | TK_SPACE | TK_ILLEGAL | TK_KEYWORD 120 | TK_KEYWORD 131 | TK_KEYWORD 142 => true
  | _ => false
  end.

Lemma tokens_step f z n t : ceq (at_ z 0) NUL = false → sqlite3GetToken z = (n, t) → skipped t = false →
  tokens (S f) z = cons (t, take n z) <$> tokens f (drop n z).
Proof.
  intros Hz E Hs. cbn [tokens]. rewrite Hz, E. destruct t; try done.
  unfold skipped in Hs. repeat (case_match; try done).
Qed.

Lemma tokens_mono f f' z ts : tokens f z = Some ts → (f <= f')%nat → tokens f' z = Some ts.
Proof.
  revert f' z ts. induction f as [|f IH]; intros f' z ts E Hf; [done|].
  destruct f' as [|f']; [lia|]. cbn [tokens] in *.
  destruct (ceq (at_ z 0) NUL); [done|]. destruct (sqlite3GetToken z) as [n t].
  assert (Hc : ∀ o, cons o <$> tokens f (drop n z) = Some ts →
               cons o <$> tokens f' (drop n z) = Some ts).
  { intros o Ho. apply fmap_Some in Ho as (ts' & Ht & ->). by rewrite (IH f' _ ts') by (done || lia). }
  repeat (case_match; try done); try (by apply IH; [done|lia]); by apply Hc.
Qed.

(** [z] is read as the tokens [ts]. *)
Definition lexes (z : text) (ts : list (token * text)) : Prop := tokenize z = Some ts.

Lemma lexes_nil : lexes [] [].
Proof. done. Qed.

Lemma lexes_tok a r t ts : a ≠ [] → at_ a 0 ≠ NUL → sqlite3GetToken (a ++ r) = (length a, t) →
  skipped t = false → lexes r ts → lexes (a ++ r) ((t, a) :: ts).
Proof.
  intros Ha H0 E Hs Hr. unfold lexes, tokenize in *.
  assert (Hz : ceq (at_ (a ++ r) 0) NUL = false) by (destruct a; [done|]; by apply ceq_neq).
  rewrite (tokens_step _ _ _ _ Hz E Hs).
  rewrite drop_app_length, take_app_length.
  rewrite (tokens_mono (S (length r)) _ _ ts Hr); [done|].
  rewrite length_app. destruct a; [done|]. simpl. lia.
Qed.

Lemma lexes_space a r ts : a ≠ [] → at_ a 0 ≠ NUL → sqlite3GetToken (a ++ r) = (length a, TK_SPACE) →
  lexes r ts → lexes (a ++ r) ts.
Proof.
  intros Ha H0 E Hr. unfold lexes, tokenize in *. cbn [tokens].
  rewrite E. replace (ceq (at_ (a ++ r) 0) NUL) with false
    by (symmetry; destruct a; [done|]; by apply ceq_neq).
  rewrite drop_app_length. apply (tokens_mono (S (length r))); [done|].
  rewrite length_app. destruct a; [done|]. simpl. lia.
Qed.

(** *** Punctuation and keywords *)

Definition punct (c : ascii) : option token :=
  match c with
  | "("%char => Some TK_LP
  | ")"%char => Some TK_RP
  | ","%char => Some TK_COMMA
  | ";"%char => Some TK_SEMI
  | _ => None
  end.

Lemma lexes_punct c r t ts : punct c = Some t → lexes r ts → lexes (c :: r) ((t, [c]) :: ts).
Proof.
  intros Hp Hr. apply (lexes_tok [c] r t ts); try done; destruct c as [[] [] [] [] [] [] [] []];
    vm_compute in Hp; simplify_eq; done.
Qed.

(** A character that no name, number or string goes on with. *)
Definition delim (c : ascii) : bool :=
  bool_decide (c = NUL ∨ c = ","%char ∨ c = ")"%char ∨ c = "("%char ∨ c = " "%char ∨ c = ";"%char).

Lemma delim_IdChar c : delim c = true → IdChar c = false.
Proof. by_char c. Qed.

Lemma delim_kywd c : delim c = true → (aiClass c <=? 2) = false.
Proof. by_char c. Qed.

Lemma delim_quote c : delim c = true → ceq c QUOT = false ∧ ceq c DQUOT = false.
Proof. by_char c. Qed.

(** *** Quoted names and strings *)

Lemma quote_loop_doubled q s r i : Forall (λ c, c ≠ NUL) s → q ≠ NUL → ceq (at_ r 0) q = false →
  quote_loop q (double_quotes q s ++ q :: r) i = ((i + length (double_quotes q s))%nat, q).
Proof.
  intros Hs Hq Hr. revert i. induction Hs as [|c s Hc Hs IH]; intros i.
  - change (double_quotes q []) with (@nil ascii). cbn [app quote_loop length].
    rewrite (ceq_neq q NUL), ceq_refl by done.
    rewrite Nat.add_0_r. destruct r as [|d r]; [done|]. unfold at_ in Hr. simpl in Hr. by rewrite Hr.
  - rewrite double_quotes_cons. destruct (Ascii.eqb_spec c q) as [->|Hcq]; cbn [app quote_loop].
    + rewrite (ceq_neq q NUL), ceq_refl by done. rewrite IH. f_equal. simpl. lia.
    + rewrite (ceq_neq c NUL), (ceq_neq c q) by done. rewrite IH. f_equal. simpl. lia.
Qed.

Lemma quoted_token q s r : q = QUOT ∨ q = DQUOT → Forall (λ c, c ≠ NUL) s → ceq (at_ r 0) q = false →
  sqlite3GetToken (quoted q s ++ r) = (length (quoted q s), if ceq q QUOT then TK_STRING else TK_ID).
Proof.
  intros Hq Hs Hr. unfold quoted. simpl app. rewrite <- app_assoc. simpl app.
  assert (E : aiClass q = 8) by (destruct Hq; subst; done).
  assert (q ≠ NUL) by (destruct Hq; subst; done).
  unfold sqlite3GetToken. change (at_ (q :: _) 0) with q. rewrite E.
  change (drop 1 (q :: ?l)) with l. rewrite quote_loop_doubled by done.
  cbn [length]. rewrite length_app. cbn [length]. destruct Hq; subst; simpl; f_equal; lia.
Qed.

Lemma dequote_doubled q s r : ceq (at_ r 0) q = false → dequote_loop q (double_quotes q s ++ q :: r) = s.
Proof.
  intros Hr. induction s as [|c s IH].
  - change (double_quotes q []) with (@nil ascii). simpl. rewrite ceq_refl.
    destruct r as [|d r]; [done|]. unfold at_ in Hr. simpl in Hr. by rewrite Hr.
  - rewrite double_quotes_cons. destruct (Ascii.eqb_spec c q) as [->|Hcq]; simpl.
    + rewrite ceq_refl. by rewrite IH.
    + rewrite (ceq_neq c q), IH by done. done.
Qed.

Lemma dequote_quoted q s : q = QUOT ∨ q = DQUOT → sqlite3Dequote (quoted q s) = s.
Proof.
  intros Hq. unfold quoted, sqlite3Dequote.
  assert (E : sqlite3Isquote q = true ∧ ceq q "[" = false) by (destruct Hq; subst; done).
  destruct E as [-> ->]. apply dequote_doubled. destruct Hq; by subst.
Qed.

Lemma lexes_quoted q s r ts : q = QUOT ∨ q = DQUOT → Forall (λ c, c ≠ NUL) s → ceq (at_ r 0) q = false →
  lexes r ts → lexes (quoted q s ++ r) ((if ceq q QUOT then TK_STRING else TK_ID, quoted q s) :: ts).
Proof.
  intros Hq Hs Hr Ht. apply lexes_tok; [done|destruct Hq; by subst|by apply quoted_token|by case_match|done].
Qed.

(** *** Names *)

Lemma ident_token_app s r i : (i <= length s)%nat → Forall (λ c, IdChar c = true) s →
  IdChar (at_ r 0) = false → ident_token (s ++ r) i = (length s, TK_ID).
Proof.
  intros Hi Hs Hr. unfold ident_token. rewrite drop_app_le by done.
  rewrite count_while_app; [|by apply Forall_drop|done].
  rewrite length_drop. f_equal. lia.
Qed.

(** A name that [sqlite3GetToken] reads as it is. *)
Record plain_name (s : text) : Prop := {
  pn_head : aiClass (at_ s 0) ∈ [0; 1; 2; 27; 30];
  pn_chars : Forall (λ c, IdChar c = true) s;
  pn_no_bom : take 3 s ≠ [chr 239; chr 187; chr 191];
  pn_no_keyword : sqlite3_keyword_check s = false
}.

Lemma plain_name_nonempty s : plain_name s → ∃ c s', s = c :: s'.
Proof. intros [H _ _ _]. destruct s as [|c s']; [|by eauto]. by vm_compute in H; repeat (apply elem_of_cons in H as [H|H]; [done|]); apply not_elem_of_nil in H. Qed.

Lemma class_bom c : aiClass c = 30 → c = chr 239.
Proof. by_char c. Qed.

Lemma keyword_name_token (c : ascii) (s r : text) :
  aiClass c = 1 → Forall (λ c, IdChar c = true) (c :: s) → sqlite3_keyword_check (c :: s) = false →
  delim (at_ r 0) = true → sqlite3GetToken (c :: s ++ r) = (S (length s), TK_ID).
Proof.
  intros Hc Hs Hk Hr. unfold sqlite3GetToken. change (at_ (c :: _) 0) with c. rewrite Hc.
  change (c :: s ++ r) with ((c :: s) ++ r). change (S (length s)) with (length (c :: s)).
  assert (Hi := delim_IdChar _ Hr). assert (Hd := delim_kywd _ Hr).
  destruct (Z.ltb_spec 2 (aiClass (at_ ((c :: s) ++ r) 1))) as [H|H].
  { apply ident_token_app; [simpl; lia|done|done]. }
  destruct s as [|d s].
  { change (at_ ([c] ++ r) 1) with (at_ r 0) in H. apply Z.leb_gt in Hd. lia. }
  set (p := λ c0 : ascii, _). change (drop 2 ((c :: d :: s) ++ r)) with (s ++ r).
  assert (Hle := count_while_le p s r Hd). set (k := count_while p (s ++ r)) in *.
  destruct (decide (k = length s)) as [->|Hne].
  - change (S (S (length s))) with (length (c :: d :: s)). rewrite at_app_r, Hi, take_app_length.
    unfold sqlite3_keyword_check in Hk. cbn [length] in Hk. simpl in Hk.
    destruct (keywordCode (c :: d :: s)); [by apply bool_decide_eq_false, dec_stable in Hk|done].
  - assert (Hlt : (S (S k) < length (c :: d :: s))%nat) by (simpl; lia).
    assert (Hin : IdChar (at_ ((c :: d :: s) ++ r) (S (S k))) = true).
    { unfold at_. rewrite lookup_app_l by done.
      destruct (lookup_lt_is_Some_2 (c :: d :: s) (S (S k)) Hlt) as [x Hx]. rewrite Hx.
      simpl. exact (Forall_lookup_1 _ _ _ _ Hs Hx). }
    rewrite Hin. apply ident_token_app; [lia|done|done].
Qed.

Lemma name_token s r : plain_name s → delim (at_ r 0) = true → sqlite3GetToken (s ++ r) = (length s, TK_ID).
Proof.
  intros Hp Hr. destruct (plain_name_nonempty s Hp) as (c & s' & ->).
  destruct Hp as [Hh Hc Hb Hk]. simpl in Hb. change (at_ (c :: s') 0) with c in Hh.
  assert (Hi := delim_IdChar _ Hr).
  assert (Hid : ident_token ((c :: s') ++ r) 1 = (length (c :: s'), TK_ID))
    by (apply ident_token_app; [simpl; lia|done|done]).
  repeat (apply elem_of_cons in Hh as [Hh|Hh]); [..|by apply not_elem_of_nil in Hh].
  2: { by apply keyword_name_token. }
  all: unfold sqlite3GetToken; change (at_ ((c :: s') ++ r) 0) with c; rewrite Hh; try done.
  - destruct (Ascii.eqb_spec (at_ ((c :: s') ++ r) 1) QUOT) as [E|]; [|done]. exfalso.
    destruct s' as [|d s']; [change (at_ r 0 = QUOT) in E; by rewrite E in Hr|].
    change (d = QUOT) in E. subst d. apply list.Forall_cons in Hc as [_ Hc]. by apply list.Forall_cons in Hc as [? _].
  - destruct (Ascii.eqb_spec (at_ ((c :: s') ++ r) 1) (chr 187)) as [E1|]; [|done].
    destruct (Ascii.eqb_spec (at_ ((c :: s') ++ r) 2) (chr 191)) as [E2|]; [|done]. exfalso.
    apply class_bom in Hh. subst c. destruct s' as [|d [|e s']].
    + change (at_ r 0 = chr 187) in E1. by rewrite E1 in Hr.
    + change (at_ r 0 = chr 191) in E2. by rewrite E2 in Hr.
    + change (d = chr 187) in E1. change (e = chr 191) in E2. by subst.
Qed.

Lemma IdChar_not_NUL c : IdChar c = true → c ≠ NUL.
Proof. by_char c. Qed.

Lemma lexes_name s r ts : plain_name s → delim (at_ r 0) = true → lexes r ts → lexes (s ++ r) ((TK_ID, s) :: ts).
Proof.
  intros Hp Hr Ht. destruct (plain_name_nonempty s Hp) as (c & s' & ->).
  apply lexes_tok; [done| |by apply name_token|done|done].
  apply IdChar_not_NUL. pose proof (pn_chars _ Hp) as Hc. by apply list.Forall_cons in Hc as [? _].
Qed.

Lemma IdChar_no_quote c : IdChar c = true → sqlite3Isquote c = false.
Proof. by_char c. Qed.

Lemma dequote_plain s : plain_name s → sqlite3Dequote s = s.
Proof.
  intros Hp. destruct (plain_name_nonempty s Hp) as (c & s' & ->). simpl.
  pose proof (pn_chars _ Hp) as Hc. apply list.Forall_cons in Hc as [Hc _]. by rewrite IdChar_no_quote.
Qed.

(** ** Formats of [sqlite3_mprintf] *)

Fixpoint dec_digits (fuel : nat) (n : Z) : text :=
  match fuel with
  | O => []
  | S fuel' => if n <? 10 then [chr (48 + n)]
               else dec_digits fuel' (n / 10) ++ [chr (48 + n mod 10)]
  end.

(** [%lld] and [%u]; 20 digits hold any 64-bit integer. *)
Definition fmt_u (n : Z) : text := dec_digits 20 n.
Definition fmt_lld (n : Z) : text := if n <? 0 then "-"%char :: dec_digits 20 (- n) else dec_digits 20 n.

(** [%q], [%Q] and [%w]; the argument of [%Q] may be NULL. *)
Definition fmt_q (z : text) : text := double_quotes QUOT z.
Definition fmt_Q (z : option text) : text :=
  match z with Some z => quoted QUOT z | None => str "NULL" end.
Definition fmt_w (z : text) : text := double_quotes DQUOT z.

(** *** Decimal numbers *)

Definition dval (u : Z) (z : text) : Z := fold_left (λ u c, u * 10 + digit c) z u.

Lemma is_dec_digit c : is_dec c = true → 0 <= digit c <= 9.
Proof. unfold is_dec, digit. lia. Qed.

Lemma is_dec_chr n : 0 <= n < 10 → is_dec (chr (48 + n)) = true ∧ digit (chr (48 + n)) = n.
Proof. intros. unfold is_dec, digit. rewrite code_chr by lia. lia. Qed.

Lemma dec_digits_dec f n : 0 <= n → Forall (λ c, is_dec c = true) (dec_digits f n).
Proof.
  revert n. induction f as [|f IH]; intros n Hn; simpl; [constructor|].
  destruct (Z.ltb_spec n 10); [repeat constructor; apply is_dec_chr; lia|].
  apply list.Forall_app. split; [apply IH, Z.div_pos; lia|].
  repeat constructor. apply is_dec_chr. pose proof (Z.mod_pos_bound n 10). lia.
Qed.

Lemma dval_app u a b : dval u (a ++ b) = dval (dval u a) b.
Proof. apply fold_left_app. Qed.

Lemma pow10_S f : 10 ^ Z.of_nat (S f) = 10 * 10 ^ Z.of_nat f.
Proof. rewrite Nat2Z.inj_succ, Z.pow_succ_r; lia. Qed.

Lemma dec_digits_val f n : 0 <= n < 10 ^ Z.of_nat f → dval 0 (dec_digits f n) = n.
Proof.
  revert n. induction f as [|f IH]; intros n Hn; [simpl in *; lia|].
  rewrite pow10_S in Hn. simpl. destruct (Z.ltb_spec n 10).
  - unfold dval. simpl. rewrite (proj2 (is_dec_chr n ltac:(lia))). lia.
  - pose proof (Z.mod_pos_bound n 10). pose proof (Z.div_mod n 10).
    rewrite dval_app, IH by (split; [apply Z.div_pos; lia|apply Z.div_lt_upper_bound; lia]).
    unfold dval. simpl. rewrite (proj2 (is_dec_chr (n mod 10) ltac:(lia))). lia.
Qed.

Lemma dec_digits_length f n : 0 <= n < 10 ^ Z.of_nat f → (0 < f)%nat →
  ∀ k, n < 10 ^ Z.of_nat k → (0 < k)%nat → (1 <= length (dec_digits f n) <= k)%nat.
Proof.
  revert n. induction f as [|f IH]; intros n Hn Hf k Hk Hk0; [lia|].
  rewrite pow10_S in Hn. simpl. destruct (Z.ltb_spec n 10); [simpl; lia|].
  rewrite length_app. simpl. destruct f as [|f]; [simpl in Hn; lia|].
  destruct k as [|[|k]]; [lia|simpl in Hk; lia|]. rewrite pow10_S in Hk.
  destruct (IH (n / 10)) with (k := S k); [|lia| |lia|lia].
  - split; [apply Z.div_pos; lia|apply Z.div_lt_upper_bound; lia].
  - apply Z.div_lt_upper_bound; lia.
Qed.

Lemma dec_digits_head f n : 0 < n < 10 ^ Z.of_nat f → ceq (at_ (dec_digits f n) 0) "0" = false.
Proof.
  revert n. induction f as [|f IH]; intros n Hn; [simpl in *; lia|].
  rewrite pow10_S in Hn. simpl. destruct (Z.ltb_spec n 10).
  - change (at_ [chr (48 + n)] 0) with (chr (48 + n)). apply ceq_neq. intros E.
    apply (f_equal code) in E. rewrite code_chr in E by lia. change (code "0") with 48 in E. lia.
  - assert (Hd : 0 < n / 10 < 10 ^ Z.of_nat f)
      by (split; [apply Z.div_str_pos; lia|apply Z.div_lt_upper_bound; lia]).
    specialize (IH _ Hd). destruct (dec_digits f (n / 10)) as [|c l] eqn:E; [|done].
    exfalso. assert (Hv := dec_digits_val f (n / 10) ltac:(lia)). rewrite E in Hv. unfold dval in Hv.
    simpl in Hv. lia.
Qed.

Lemma dval_bounds u z : 0 <= u → Forall (λ c, is_dec c = true) z →
  u * 10 ^ Z.of_nat (length z) <= dval u z < (u + 1) * 10 ^ Z.of_nat (length z).
Proof.
  intros Hu Hz. revert u Hu. induction Hz as [|c z Hc Hz IH]; intros u Hu; [unfold dval; simpl; lia|].
  apply is_dec_digit in Hc. cbn [length]. rewrite pow10_S.
  change (dval u (c :: z)) with (dval (u * 10 + digit c) z). specialize (IH (u * 10 + digit c) ltac:(lia)).
  pose proof (Z.pow_pos_nonneg 10 (Z.of_nat (length z)) ltac:(lia) ltac:(lia)). nia.
Qed.

Lemma dec_val_exact u z : 0 <= u → Forall (λ c, is_dec c = true) z → dval u z < 2 ^ 64 →
  dec_val u z = dval u z.
Proof.
  intros Hu Hz. revert u Hu. induction Hz as [|c z Hc Hz IH]; intros u Hu Hv; [done|].
  apply is_dec_digit in Hc.
  change (dval u (c :: z)) with (dval (u * 10 + digit c) z) in *.
  change (dec_val u (c :: z)) with (dec_val (wrap_u 64 (u * 10 + digit c)) z).
  pose proof (dval_bounds (u * 10 + digit c) z ltac:(lia) Hz).
  pose proof (Z.pow_pos_nonneg 10 (Z.of_nat (length z)) ltac:(lia) ltac:(lia)).
  assert (Hw : wrap_u 64 (u * 10 + digit c) = u * 10 + digit c).
  { apply wrap_u_id. split; [lia|]. assert (u * 10 + digit c <= dval (u * 10 + digit c) z) by nia. lia. }
  rewrite Hw. apply IH; [lia|done].
Qed.

Lemma compare_loop_nonzero c z p : c ≠ 0 → compare_loop c z p = c.
Proof. intros Hc. destruct p; simpl; by rewrite (proj2 (Z.eqb_neq c 0) Hc). Qed.

Lemma dval_cons c z : dval 0 (c :: z) = digit c * 10 ^ Z.of_nat (length z) + dval 0 z.
Proof.
  enough (H : ∀ u, dval u z = u * 10 ^ Z.of_nat (length z) + dval 0 z) by apply (H (digit c)).
  induction z as [|d z IH]; intros u; [unfold dval; simpl; lia|].
  change (dval u (d :: z)) with (dval (u * 10 + digit d) z).
  change (dval 0 (d :: z)) with (dval (digit d) z).
  rewrite (IH (u * 10 + digit d)), (IH (digit d)). cbn [length]. rewrite pow10_S. lia.
Qed.

(** The comparison digit by digit is that of the numbers. *)
Lemma compare_loop_sgn p z : length z = S (length p) → Forall (λ c, is_dec c = true) z →
  Forall (λ c, is_dec c = true) p →
  Z.sgn (compare_loop 0 z p) = Z.sgn (dval 0 z - dval 0 (p ++ ["8"%char])).
Proof.
  revert z. induction p as [|d p IH]; intros z Hl Hz Hp.
  - destruct z as [|c [|? ?]]; simpl in Hl; try lia. unfold dval, digit, at_. simpl. f_equal.
    change (at_ [c] 0) with c. change (code "8") with 56. lia.
  - destruct z as [|c z]; simpl in Hl; [lia|]. apply list.Forall_cons in Hz as [Hc Hz], Hp as [Hd Hp].
    cbn [compare_loop app]. rewrite Z.eqb_refl. change (at_ (c :: z) 0) with c.
    change (drop 1 (c :: z)) with z. rewrite !dval_cons, length_app. cbn [length].
    assert (H8 : Forall (λ c, is_dec c = true) (p ++ ["8"%char])) by (apply list.Forall_app; by split; [|repeat constructor]).
    pose proof (dval_bounds 0 z ltac:(lia) Hz) as B1. pose proof (dval_bounds 0 _ ltac:(lia) H8) as B2.
    rewrite length_app in B2. cbn [length] in B2. rewrite Nat.add_1_r in B2 |- *.
    assert (El : length z = S (length p)) by lia. rewrite El in B1 |- *.
    unfold digit. destruct (Z.eq_dec (code c) (code d)) as [E|E].
    + rewrite E, Z.sub_diag, IH by (done || lia). f_equal. lia.
    + rewrite compare_loop_nonzero by lia.
      set (A := 10 ^ Z.of_nat (S (length p))) in *.
      destruct (Z.lt_ge_cases (code c) (code d)).
      * assert ((code c - 48) * A + A <= (code d - 48) * A) by nia. rewrite !Z.sgn_neg by lia. done.
      * assert ((code d - 48) * A + A <= (code c - 48) * A) by nia. rewrite !Z.sgn_pos by lia. done.
Qed.

(** *** Integer literals *)

Lemma is_dec_Isdigit c : is_dec c = sqlite3Isdigit c.
Proof. by_char c. Qed.

Lemma is_dec_facts c : is_dec c = true →
  aiClass c = 3 ∧ IdChar c = true ∧ ceq c "x" = false ∧ ceq c "X" = false ∧ sqlite3Isspace c = false ∧
  ceq c "-" = false ∧ ceq c "+" = false ∧ c ≠ NUL ∧ ceq c ">" = false ∧ ceq c "(" = false ∧ ceq c "\" = false.
Proof. by_char c. Qed.

Lemma delim_number c : delim c = true →
  sqlite3Isdigit c = false ∧ ceq c "_" = false ∧ ceq c "." = false ∧ ceq c "e" = false ∧
  ceq c "E" = false ∧ ceq c "x" = false ∧ ceq c "X" = false.
Proof. by_char c. Qed.

Lemma digit_loop_app isd a r i t : Forall (λ c, isd c = true) a → isd (at_ r 0) = false →
  ceq (at_ r 0) "_" = false → digit_loop isd (a ++ r) i t = ((i + length a)%nat, t).
Proof.
  intros Ha H1 H2. revert i. induction Ha as [|c a Hc Ha IH]; intros i; simpl.
  - rewrite Nat.add_0_r. destruct r as [|d r]; [done|]. unfold at_ in *. simpl in *. by rewrite H1, H2.
  - rewrite Hc, IH. f_equal. lia.
Qed.

(** The second character of digits and what follows is no "x". *)
Lemma digits_no_x a r : a ≠ [] → Forall (λ c, is_dec c = true) a →
  ceq (at_ r 0) "x" = false → ceq (at_ r 0) "X" = false →
  ceq (at_ (a ++ r) 1) "x" = false ∧ ceq (at_ (a ++ r) 1) "X" = false.
Proof.
  intros Hne Ha H1 H2. destruct Ha as [|c a Hc Ha]; [done|].
  destruct Ha as [|d a Hd Ha]; [done|]. destruct (is_dec_facts d Hd) as (_ & _ & ? & ? & _). done.
Qed.

Lemma Forall_isdigit a : Forall (λ c, is_dec c = true) a → Forall (λ c, sqlite3Isdigit c = true) a.
Proof. intros H. eapply Forall_impl; [|exact H]. intros c. simpl. by rewrite is_dec_Isdigit. Qed.

Lemma digits_token a r : a ≠ [] → Forall (λ c, is_dec c = true) a → delim (at_ r 0) = true →
  sqlite3GetToken (a ++ r) = (length a, TK_INTEGER).
Proof.
  intros Hne Ha Hr. destruct (delim_number _ Hr) as (H1 & H2 & H3 & H4 & H5 & H6 & H7).
  assert (Hn : number_token (a ++ r) = (length a, TK_INTEGER)).
  { unfold number_token. destruct (digits_no_x a r Hne Ha H6 H7) as [-> ->].
    rewrite andb_false_r. simpl.
    rewrite digit_loop_app by (done || by apply Forall_isdigit). simpl.
    rewrite at_app_r, H3. cbn iota beta. rewrite at_app_r, H4, H5. cbn [orb andb].
    rewrite drop_app_length.
    assert (Hc : count_while IdChar r = O)
      by (destruct r; [done|]; simpl; apply delim_IdChar in Hr; unfold at_ in Hr; simpl in Hr; by rewrite Hr).
    rewrite Hc. simpl. f_equal. lia. }
  destruct a as [|c a]; [done|]. apply list.Forall_cons in Ha as [Hc _].
  unfold sqlite3GetToken. change (at_ ((c :: a) ++ r) 0) with c. by rewrite (proj1 (is_dec_facts c Hc)).
Qed.

Lemma digits_no_0x a : Forall (λ c, is_dec c = true) a → has_0x a = false.
Proof.
  intros Ha. unfold has_0x. destruct Ha as [|c a Hc Ha]; [done|].
  destruct (digits_no_x (c :: a) [] ltac:(done) (list.Forall_cons_2 _ _ _ Hc Ha) ltac:(done) ltac:(done)) as [H1 H2].
  rewrite app_nil_r in *. rewrite H1, H2. by rewrite andb_false_r.
Qed.

Section DecimalNumbers.
#[local] Set Default Proof Using "All".
Context (n : Z).
Hypothesis Hn : 0 < n <= 2 ^ 63.
Let s := dec_digits 20 n.

Local Lemma s_range : 0 <= n < 10 ^ Z.of_nat 20.
Proof. split; [lia|]. apply Z.le_lt_trans with (2 ^ 63); [lia|]. by vm_compute. Qed.

Local Lemma s_dec : Forall (λ c, is_dec c = true) s.
Proof. apply dec_digits_dec. lia. Qed.

Local Lemma s_val : dval 0 s = n.
Proof. apply dec_digits_val, s_range. Qed.

Local Lemma s_dec_val : dec_val 0 s = n.
Proof.
  rewrite dec_val_exact; [apply s_val|lia|apply s_dec|]. rewrite s_val.
  change (2 ^ 64) with (2 * 2 ^ 63). lia.
Qed.

Local Lemma s_len : (1 <= length s <= 19)%nat.
Proof.
  apply (dec_digits_length 20 n s_range ltac:(lia) 19); [|lia].
  apply Z.le_lt_trans with (2 ^ 63); [lia|]. by vm_compute.
Qed.

Local Lemma s_shape : ∃ c l, s = c :: l ∧ is_dec c = true ∧ ceq c "0" = false.
Proof.
  pose proof s_len as Hl. pose proof s_dec as Hd. pose proof (dec_digits_head 20 n) as Hh. fold s in Hh.
  destruct s as [|c l]; [simpl in Hl; lia|]. exists c, l. apply list.Forall_cons in Hd as [Hc _].
  split_and!; [done|done|]. apply Hh. pose proof s_range. lia.
Qed.

Lemma atoi64_digits : sqlite3Atoi64 s = if n =? 2 ^ 63 then (3, LARGEST_INT64) else (0, n).
Proof.
  unfold sqlite3Atoi64. cbv zeta. destruct s_shape as (c & l & Es & Hc & H0).
  destruct (is_dec_facts c Hc) as (_ & _ & _ & _ & Hsp & Hm & Hp & _).
  assert (E1 : count_while sqlite3Isspace s = O) by (rewrite Es; simpl; by rewrite Hsp).
  rewrite E1, drop_0. assert (E2 : at_ s 0 = c) by by rewrite Es. rewrite E2, Hm, Hp. cbn [orb].
  assert (E3 : count_while (λ c, ceq c "0") s = O) by (rewrite Es; simpl; by rewrite H0).
  rewrite E3, drop_0. rewrite (count_while_all is_dec s s_dec).
  rewrite firstn_all, s_dec_val, skipn_all. cbn [forallb].
  rewrite (decide_False (P := length s = 0%nat ∧ 0%nat = 0%nat)) by (pose proof s_len; lia).
  destruct (decide (length s < 19)%nat) as [Hlt|Hge].
  - assert (n < 10 ^ 18).
    { rewrite <- s_val. pose proof (dval_bounds 0 s ltac:(lia) s_dec) as [_ B].
      eapply Z.lt_le_trans; [exact B|]. rewrite Z.mul_1_l. apply Z.pow_le_mono_r; lia. }
    assert (10 ^ 18 < LARGEST_INT64) by by vm_compute.
    replace (LARGEST_INT64 <? n) with false by lia. replace (n =? 2 ^ 63) with false; [done|].
    unfold LARGEST_INT64 in *. lia.
  - assert (Hl : length s = 19%nat) by (pose proof s_len; lia). rewrite decide_False by lia.
    assert (Hs := compare_loop_sgn (str "922337203685477580") s Hl s_dec ltac:(repeat constructor)).
    fold (compare2pow63 s) in Hs. rewrite s_val in Hs.
    change (dval 0 (str "922337203685477580" ++ ["8"%char])) with (2 ^ 63) in Hs.
    destruct (Z.eqb_spec n (2 ^ 63)) as [->|Hne].
    + rewrite Z.sub_diag in Hs. apply (proj1 (Z.sgn_null_iff _)) in Hs. by rewrite Hs.
    + rewrite (Z.sgn_neg (n - 2 ^ 63)) in Hs by lia. apply (proj1 (Z.sgn_neg_iff _)) in Hs.
      replace (compare2pow63 s <? 0) with true by lia.
      replace (LARGEST_INT64 <? n) with false; [done|]. unfold LARGEST_INT64. lia.
Qed.

Lemma decorhex_digits : sqlite3DecOrHexToI64 s = sqlite3Atoi64 s.
Proof.
  unfold sqlite3DecOrHexToI64. cbv zeta. rewrite (digits_no_0x s s_dec).
  rewrite count_while_all.
  - rewrite decide_False by lia. by rewrite firstn_all.
  - eapply Forall_impl; [|exact s_dec]. intros c Hc. cbn beta in Hc |- *. by rewrite Hc.
Qed.

Lemma getint32_digits i : sqlite3GetInt32 s = Some i → i = n.
Proof.
  unfold sqlite3GetInt32. cbv zeta. rewrite (digits_no_0x s s_dec). cbn [andb].
  destruct s_shape as (c & l & Es & Hc & H0).
  destruct (is_dec_facts c Hc) as (_ & _ & _ & _ & Hsp & Hm & Hp & _).
  assert (E2 : at_ s 0 = c) by by rewrite Es. rewrite E2, Hm, Hp. cbn [orb].
  rewrite E2, <- is_dec_Isdigit, Hc. cbn [negb].
  assert (E3 : count_while (λ c, ceq c "0") s = O) by (rewrite Es; simpl; by rewrite H0).
  rewrite E3, drop_0. rewrite (count_while_all is_dec s s_dec).
  destruct (decide (10 < min 11 (length s))%nat) as [|Hle]; [done|].
  replace (min 11 (length s)) with (length s) by lia. rewrite firstn_all, s_dec_val.
  destruct (_ <? _); congruence.
Qed.

Lemma codeInteger_digits AtoF float_neg neg : (neg = false → n < 2 ^ 63) →
  codeInteger AtoF float_neg s neg = Some (VInteger (if neg then - n else n)).
Proof.
  intros Hneg. unfold codeInteger.
  destruct (sqlite3GetInt32 s) as [i|] eqn:E; [by rewrite (getint32_digits i E)|].
  rewrite decorhex_digits, atoi64_digits. destruct (Z.eqb_spec n (2 ^ 63)) as [->|Hne].
  - destruct neg; [done|]. specialize (Hneg eq_refl). lia.
  - replace (n =? SMALLEST_INT64) with false by (unfold SMALLEST_INT64; lia).
    destruct neg; simpl; by rewrite ?andb_false_r.
Qed.
End DecimalNumbers.

(** [r] goes on with a character no literal goes on with. *)
Lemma count_delim r : delim (at_ r 0) = true → count_while IdChar r = O.
Proof.
  intros Hr. apply delim_IdChar in Hr. destruct r as [|c r]; [done|].
  unfold at_ in Hr. simpl in *. by rewrite Hr.
Qed.

Lemma dec_digits_nonempty n : 0 <= n → dec_digits 20 n ≠ [].
Proof.
  intros Hn. change 20%nat with (S 19). cbn [dec_digits]. destruct (n <? 10); [done|].
  intros E. by apply app_eq_nil in E as [_ ?].
Qed.

(** The tokens of a printed integer. *)
Definition int_tokens (n : Z) : list (token * text) :=
  if n <? 0 then [(TK_MINUS, ["-"%char]); (TK_INTEGER, dec_digits 20 (- n))]
  else [(TK_INTEGER, dec_digits 20 n)].

Lemma lexes_digits n r ts : 0 <= n → delim (at_ r 0) = true → lexes r ts →
  lexes (dec_digits 20 n ++ r) ((TK_INTEGER, dec_digits 20 n) :: ts).
Proof.
  intros Hn Hr Ht. pose proof (dec_digits_dec 20 n Hn) as Hd. pose proof (dec_digits_nonempty n Hn) as Hne.
  apply lexes_tok; [done| |by apply digits_token|done|done].
  destruct (dec_digits 20 n) as [|c l]; [done|]. apply list.Forall_cons in Hd as [Hc _]. by destruct (is_dec_facts c Hc) as (_&_&_&_&_&_&_&?&_).
Qed.

Lemma lexes_minus r ts : (is_dec (at_ r 0) || ceq (at_ r 0) ".") = true → lexes r ts →
  lexes ("-"%char :: r) ((TK_MINUS, ["-"%char]) :: ts).
Proof.
  intros Hr Ht. apply (lexes_tok ["-"%char]); [done|done| |done|done].
  unfold sqlite3GetToken. change (aiClass (at_ (["-"%char] ++ r) 0)) with 11. cbn iota.
  change (at_ (["-"%char] ++ r) 1) with (at_ r 0).
  replace (ceq (at_ r 0) "-") with false. replace (ceq (at_ r 0) ">") with false; [done|].
  all: revert Hr; generalize (at_ r 0); intros c; by_char c.
Qed.

Lemma lexes_lld n r ts : delim (at_ r 0) = true → lexes r ts → lexes (fmt_lld n ++ r) (int_tokens n ++ ts).
Proof.
  intros Hr Ht. unfold fmt_lld, int_tokens. destruct (Z.ltb_spec n 0); [|by apply lexes_digits; [lia|..]].
  apply lexes_minus; [|by apply lexes_digits; [lia|..]].
  pose proof (dec_digits_dec 20 (- n) ltac:(lia)) as Hd. pose proof (dec_digits_nonempty (- n) ltac:(lia)).
  destruct (dec_digits 20 (- n)) as [|c l]; [done|]. apply list.Forall_cons in Hd as [Hc _].
  apply orb_true_intro. left. exact Hc.
Qed.

(** *** Blob literals *)

Definition hexdigit (n : Z) : ascii := at_ (str "0123456789abcdef") (Z.to_nat n).

Definition blob_hex (b : text) : text :=
  b ≫= λ c, [hexdigit (Z.land (Z.shiftr (code c) 4) 15); hexdigit (Z.land (code c) 15)].

Lemma hex_char c :
  let h := hexdigit (Z.land (Z.shiftr (code c) 4) 15) in
  let l := hexdigit (Z.land (code c) 15) in
  sqlite3Isxdigit h = true ∧ sqlite3Isxdigit l = true ∧
  chr (Z.lor (Z.shiftl (sqlite3HexToInt h) 4) (sqlite3HexToInt l)) = c.
Proof. by_char c. Qed.

Lemma blob_hex_digits b : Forall (λ c, sqlite3Isxdigit c = true) (blob_hex b).
Proof.
  induction b as [|c b IH]; [constructor|]. destruct (hex_char c) as (? & ? & _). by repeat constructor.
Qed.

Lemma blob_hex_read b : sqlite3HexToBlob (blob_hex b) = b.
Proof.
  induction b as [|c b IH]; [done|]. destruct (hex_char c) as (_ & _ & E).
  change (blob_hex (c :: b)) with (hexdigit (Z.land (Z.shiftr (code c) 4) 15)
    :: hexdigit (Z.land (code c) 15) :: blob_hex b).
  cbn [sqlite3HexToBlob]. by rewrite E, IH.
Qed.

Lemma blob_hex_length b : length (blob_hex b) = (2 * length b)%nat.
Proof. induction b as [|c b IH]; [done|]. simpl in *. lia. Qed.

Definition blob_literal (b : text) : text := "x"%char :: QUOT :: blob_hex b ++ [QUOT].

Lemma blob_token b r : sqlite3GetToken (blob_literal b ++ r) = (length (blob_literal b), TK_BLOB).
Proof.
  unfold blob_literal. simpl app. rewrite <- app_assoc. simpl app. set (z := "x"%char :: _).
  unfold sqlite3GetToken. change (aiClass (at_ z 0)) with 0. cbn iota.
  change (ceq (at_ z 1) QUOT) with true. cbn iota.
  change (drop 2 z) with (blob_hex b ++ QUOT :: r).
  rewrite count_while_app by (done || apply blob_hex_digits).
  assert (E : at_ z (2 + length (blob_hex b)) = QUOT).
  { change z with (("x"%char :: QUOT :: blob_hex b) ++ QUOT :: r).
    change (2 + length (blob_hex b))%nat with (length ("x"%char :: QUOT :: blob_hex b)).
    by rewrite at_app_r. }
  assert (Ev : Nat.even (2 + length (blob_hex b)) = true)
    by (rewrite blob_hex_length; apply Nat.even_spec; exists (1 + length b)%nat; lia).
  cbv zeta. rewrite E, Ev, ceq_refl. cbv [andb]. rewrite E.
  change (ceq QUOT NUL) with false. cbn [length]. rewrite length_app. cbn [length]. f_equal. lia.
Qed.

Lemma blob_literal_read b :
  sqlite3HexToBlob (take (length (blob_literal b) - 3) (drop 2 (blob_literal b))) = b.
Proof.
  change (drop 2 (blob_literal b)) with (blob_hex b ++ [QUOT]).
  replace (length (blob_literal b) - 3)%nat with (length (blob_hex b))
    by (simpl; rewrite length_app; simpl; lia).
  rewrite take_app_length. apply blob_hex_read.
Qed.

Lemma lexes_blob b r ts : lexes r ts → lexes (blob_literal b ++ r) ((TK_BLOB, blob_literal b) :: ts).
Proof. intros Ht. by apply lexes_tok; [..|apply blob_token|done|done]. Qed.

(** *** Floating point literals *)

(** What [%!.20g] writes after the sign: digits on both sides of a point, and
    an exponent or none. *)
Definition float_shape (s : text) : Prop :=
  ∃ a b e, s = a ++ "."%char :: b ++ e ∧ a ≠ [] ∧ Forall (λ c, is_dec c = true) a ∧
    Forall (λ c, is_dec c = true) b ∧
    (e = [] ∨ ∃ sg d, e = "e"%char :: sg :: d ∧ (sg = "+"%char ∨ sg = "-"%char) ∧ d ≠ [] ∧
                      Forall (λ c, is_dec c = true) d).

Lemma exponent_at z i sg d r : drop i z = "e"%char :: sg :: d ++ r → d ≠ [] → Forall (λ c, is_dec c = true) d →
  at_ z i = "e"%char ∧ at_ z (i + 1) = sg ∧ sqlite3Isdigit (at_ z (i + 2)) = true ∧
  drop (i + 2) z = d ++ r.
Proof.
  intros E Hne Hd. assert (Hat : ∀ k, at_ z (i + k) = at_ (drop i z) k)
    by (intros k; unfold at_; by rewrite lookup_drop).
  rewrite <- (Nat.add_0_r i) at 1. rewrite !Hat, E. split_and!; [done|done| |].
  - destruct Hd as [|c d Hc _]; [done|]. change (at_ _ 2) with c. by rewrite <- is_dec_Isdigit.
  - by rewrite <- drop_drop, E.
Qed.

Lemma number_token_float a b e r :
  a ≠ [] → Forall (λ c, is_dec c = true) a → Forall (λ c, is_dec c = true) b →
  (e = [] ∨ ∃ sg d, e = "e"%char :: sg :: d ∧ (sg = "+"%char ∨ sg = "-"%char) ∧ d ≠ [] ∧
                    Forall (λ c, is_dec c = true) d) →
  delim (at_ r 0) = true →
  number_token ((a ++ "."%char :: b ++ e) ++ r) = (length (a ++ "."%char :: b ++ e), TK_FLOAT).
Proof.
  intros Hne Ha Hb He Hr. destruct (delim_number _ Hr) as (H1 & H2 & H3 & H4 & H5 & H6 & H7).
  assert (Hz : (a ++ "."%char :: b ++ e) ++ r = a ++ "."%char :: b ++ e ++ r)
    by by rewrite <- !app_assoc; simpl; rewrite <- app_assoc.
  rewrite Hz. set (z := a ++ "."%char :: b ++ e ++ r).
  assert (Hd1 : drop (S (length a)) z = b ++ e ++ r).
  { unfold z. rewrite cons_middle, app_assoc. rewrite drop_app_length'; [done|]. rewrite length_app. simpl. lia. }
  assert (Hd2 : drop (S (length a) + length b) z = e ++ r) by by rewrite <- drop_drop, Hd1, drop_app_length.
  assert (Hat : at_ z (S (length a) + length b) = at_ (e ++ r) 0)
    by (rewrite <- Hd2; unfold at_; by rewrite lookup_drop, Nat.add_0_r).
  assert (Her : sqlite3Isdigit (at_ (e ++ r) 0) = false ∧ ceq (at_ (e ++ r) 0) "_" = false)
    by (destruct He as [->|(sg & d & -> & _)]; done).
  unfold number_token. destruct (digits_no_x a ("."%char :: b ++ e ++ r) Hne Ha eq_refl eq_refl) as [Hx1 Hx2].
  fold z in Hx1, Hx2. rewrite Hx1, Hx2, andb_false_r. cbn [andb]. unfold z at 1.
  rewrite digit_loop_app by (done || by apply Forall_isdigit). cbn [Nat.add].
  unfold z at 1. rewrite at_app_r. change (at_ ("."%char :: _) 0) with "."%char. rewrite ceq_refl.
  rewrite decide_True by done. rewrite Hd1. rewrite digit_loop_app by (by apply Forall_isdigit || apply Her).
  rewrite Hat.
  assert (Hlen : length (a ++ "."%char :: b ++ e) = (S (length a) + length b + length e)%nat)
    by (rewrite length_app; simpl; rewrite length_app; lia).
  rewrite Hlen. destruct He as [->|(sg & d & -> & Hsg & Hdn & Hdd)].
  - simpl app. rewrite H4, H5. cbn [orb andb]. rewrite Hd2. simpl app. rewrite (count_delim r Hr).
    rewrite decide_True by done. f_equal; simpl; lia.
  - destruct (exponent_at z _ sg d r Hd2 Hdn Hdd) as (E1 & E2 & E3 & E4).
    rewrite <- Hat, E1, E2, E3.
    replace ((ceq sg "+" || ceq sg "-") && true) with true by (destruct Hsg; by subst).
    rewrite orb_true_r, ceq_refl. cbn [orb andb].
    rewrite E4. rewrite decide_False by done. rewrite digit_loop_app by (done || by apply Forall_isdigit).
    replace (drop (S (length a) + length b + 2 + length d) z) with r
      by (by rewrite <- drop_drop, E4, drop_app_length).
    rewrite (count_delim r Hr), decide_True by done. f_equal; simpl; lia.
Qed.

Lemma lexes_float s r ts : float_shape s → delim (at_ r 0) = true → lexes r ts →
  lexes (s ++ r) ((TK_FLOAT, s) :: ts).
Proof.
  intros (a & b & e & -> & Hne & Ha & Hb & He) Hr Ht.
  pose proof (number_token_float a b e r Hne Ha Hb He Hr) as Hn.
  destruct Ha as [|c a Hc Ha]; [done|].
  destruct (is_dec_facts c Hc) as (Hcl & _ & _ & _ & _ & _ & _ & Hnul & _).
  apply lexes_tok; [done|done| |done|done].
  unfold sqlite3GetToken. change (at_ (((c :: a) ++ _) ++ r) 0) with c. rewrite Hcl. exact Hn.
Qed.

(** [1e999], the literal of an infinity. *)
Lemma lexes_1e999 r ts : delim (at_ r 0) = true → lexes r ts →
  lexes (str "1e999" ++ r) ((TK_FLOAT, str "1e999") :: ts).
Proof.
  intros Hr Ht. destruct (delim_number _ Hr) as (H1 & H2 & _).
  apply lexes_tok; [done|done| |done|done].
  unfold sqlite3GetToken. change (aiClass (at_ (str "1e999" ++ r) 0)) with 3. cbn iota.
  unfold number_token. change (str "1e999" ++ r) with ("1"%char :: "e"%char :: str "999" ++ r).
  change (ceq (at_ (_ :: _) 0) "0") with false. cbn [andb].
  change (digit_loop sqlite3Isdigit ("1"%char :: "e"%char :: str "999" ++ r) 0 TK_INTEGER) with (1%nat, TK_INTEGER).
  cbn beta iota. change (ceq (at_ ("1"%char :: "e"%char :: ?l) 1) ".") with false. cbn iota.
  change (drop (1 + 2) ("1"%char :: "e"%char :: str "999" ++ r)) with (str "99" ++ r).
  change (_ && _) with true. cbn iota. rewrite decide_True by done.
  rewrite digit_loop_app by first [done | by repeat constructor].
  change (drop (1 + 2 + length (str "99")) ("1"%char :: "e"%char :: str "999" ++ r)) with r.
  by rewrite (count_delim r Hr).
Qed.

End Reader.
