(* ===== verification/SqliteDump.v ===== *)
(** * Dump of an SQLite database

    omni_sqlite/sqlite3_db_dump.c, the text form of the type [sqlite]: the SQL
    statements that create a database again.  Modelled function by function:
    the growing text buffers ([appendText]), the choice of the rowid column
    ([tableColumnList]), the quoting of names and strings, and the statements
    written for tables, their rows and the rest of the schema.

    The connection is a record [database]: what SQLite answers to the queries
    the dump makes, by their text.  [holds_database] says what such a record is
    for a database with given tables, and [Mem] is one, in memory, that reads
    the queries with the tokenizer of [SqliteReader].  The text of a double
    ([%!.20g]) and the letters of the locale above 127 are parameters. *)

From stdpp Require Import base tactics list gmap strings numbers.
From Stdlib Require Import ZArith Lia Ascii.
From S2P Require Import Prelude CText SqliteReader.
Import Reader.

Set Default Proof Using "Type".
Local Open Scope Z_scope.

Module Dump.

(** ** Growing texts *)

Record DText := mkDText {
  dt_z : option (list (option ascii));   (* NULL, or the allocated bytes *)
  dt_n : Z;
  dt_nAlloc : Z
}.

Definition initText : DText := mkDText None 0 0.

(** A value of type [int]; arithmetic that leaves its range is undefined. *)
Definition int (z : Z) : result Z :=
  if decide (in_s 32 z) then Ok z else Undefined "signed integer overflow".

(** [z[i] = c] *)
Definition put (z : list (option ascii)) (i : Z) (c : ascii) : result (list (option ascii)) :=
  if decide (0 <= i < Z.of_nat (length z)) then Ok (<[Z.to_nat i := Some c]> z)
  else Undefined "write outside of the text".

Fixpoint memcpy (z : list (option ascii)) (i : Z) (l : text) : result (list (option ascii)) :=
  match l with
  | [] => Ok z
  | c :: l' => z' ← put z i c; memcpy z' (i + 1) l'
  end.

(** The loop that copies [zAppend] with its quotes doubled; returns [zCsr]. *)
Fixpoint quote_copy (z : list (option ascii)) (zCsr : Z) (quote : ascii) (l : text)
  : result (list (option ascii) * Z) :=
  match l with
  | [] => Ok (z, zCsr)
  | c :: l' =>
      z1 ← put z zCsr c;
      if ceq c quote then
        z2 ← put z1 (zCsr + 1) quote;
        quote_copy z2 (zCsr + 2) quote l'
      else quote_copy z1 (zCsr + 1) quote l'
  end.

(** [sqlite3_realloc], which keeps the bytes there are. *)
Definition realloc (z : option (list (option ascii))) (n : Z) : list (option ascii) :=
  let old := default [] z in
  take (Z.to_nat n) old ++ replicate (Z.to_nat n - length old) None.

(** The growth of the text when [len] bytes may not fit. *)
Definition grow (p : DText) (len : Z) : result DText :=
  need ← int (dt_n p + len);
  if dt_nAlloc p <=? need then
    nAlloc ← int (dt_nAlloc p * 2 + len + 20);
    Ok (mkDText (Some (realloc (dt_z p) nAlloc)) (dt_n p) nAlloc)
  else Ok p.

(** [quote] is NUL for a text that is not to be quoted. *)
Definition appendText (p : DText) (zAppend : text) (quote : ascii) : result DText :=
  let nAppend := Z.land (Z.of_nat (length zAppend)) 1073741823 in
  let zAppend := take (Z.to_nat nAppend) zAppend in
  let extra := if ceq quote NUL then 0
               else 2 + Z.of_nat (length (filter (λ c, c = quote) zAppend)) in
  len ← int (nAppend + dt_n p + 1 + extra);
  p ← grow p len;
  match dt_z p with
  | None => Undefined "NULL text"
  | Some z =>
      if ceq quote NUL then
        z ← memcpy z (dt_n p) zAppend;
        let n := dt_n p + nAppend in
        z ← put z n NUL;
        Ok (mkDText (Some z) n (dt_nAlloc p))
      else
        z ← put z (dt_n p) quote;
        '(z, zCsr) ← quote_copy z (dt_n p + 1) quote zAppend;
        z ← put z zCsr quote;
        z ← put z (zCsr + 1) NUL;
        Ok (mkDText (Some z) (zCsr + 1) (dt_nAlloc p))
  end.

(** A sequence of [appendText], each with its quote. *)
Fixpoint appendTexts (p : DText) (l : list (text * ascii)) : result DText :=
  match l with
  | [] => Ok p
  | (z, q) :: l' => p' ← appendText p z q; appendTexts p' l'
  end.

(** The C string in [p->z]. *)
Definition text_of (p : DText) : result text :=
  match dt_z p with
  | None => Undefined "NULL text"
  | Some z => match mapM id (take (Z.to_nat (dt_n p)) z) with
              | Some t => Ok t
              | None => Undefined "uninitialized text"
              end
  end.

(** ** The state of a dump, and the database *)

Record DState := mkDState {
  nErr : Z;
  rc : Z;
  writableSchema : bool;
  out : text          (* what the callback of [sqlite_out] has collected *)
}.

Definition SQLITE_OK : Z := 0.
Definition SQLITE_CORRUPT : Z := 11.

Abbreviation D := (M DState).

Definition xCallback (z : text) : D unit :=
  modify_st (λ s, mkDState (nErr s) (rc s) (writableSchema s) (out s ++ z)).
Definition add_error (rc' : Z) : D unit :=
  modify_st (λ s, mkDState (nErr s + 1) (if rc s =? SQLITE_OK then rc' else rc s)
                           (writableSchema s) (out s)).
Definition count_error : D unit :=
  modify_st (λ s, mkDState (nErr s + 1) (rc s) (writableSchema s) (out s)).
Definition set_writable : D unit :=
  modify_st (λ s, mkDState (nErr s) (rc s) true (out s)).

(** A row of [PRAGMA table_info]: its columns 1, 2 and 5. *)
Record column_info := mkColumn {
  ci_name : text;
  ci_type : text;
  ci_pk : Z
}.

(** What the connection answers to the queries of a dump, by their text. *)
Record database := mkDatabase {
  (* the rows of [PRAGMA table_info], [None] when it does not prepare *)
  db_table_info : text → option (list column_info);
  (* whether a query of [pragma_index_list] has a row *)
  db_index_list : text → option bool;
  (* [sqlite3_table_column_metadata(db, 0, table, column)] is SQLITE_OK *)
  db_column_metadata : text → text → bool;
  (* a SELECT: an error code when it does not prepare, or its rows *)
  db_select : text → Z + list (list value);
  (* [sqlite3_exec]: rows of name, type and sql, and the error message *)
  db_schema : text → list (text * text * text) * option text;
  (* the text columns of a query: an error of prepare, or rows and the code
     and message of finalize *)
  db_sql : text → (Z * text) + (list (list text) * Z * text);
  (* [sqlite3_exec(db, BEGIN)] *)
  db_begin : Z
}.

Section Dump.
(** [isalpha] and [isalnum] of the bytes above 127 in the locale. *)
Variable hi_alpha hi_alnum : ascii → bool.
(** [%!.20g] of a double. *)
Variable fmt_float : Z → text.
Variable db : database.

(** ** Names *)

Definition is_letter (c : Z) : bool := (65 <=? c) && (c <=? 90) || (97 <=? c) && (c <=? 122).
Definition isalpha (c : ascii) : bool := if code c <? 128 then is_letter (code c) else hi_alpha c.
Definition isalnum (c : ascii) : bool :=
  if code c <? 128 then is_letter (code c) || is_dec c else hi_alnum c.

(** The quote character a name needs, NUL for none. *)
Definition quoteChar (zName : text) : ascii :=
  if negb (isalpha (at_ zName 0)) && negb (ceq (at_ zName 0) "_") then DQUOT
  else if existsb (λ c, negb (isalnum c) && negb (ceq c "_")) zName then DQUOT
  else if sqlite3_keyword_check zName then DQUOT else NUL.

(** ** Columns *)

Record columns_state := mkCols {
  cs_nCol : Z;
  cs_nAlloc : Z;
  cs_cols : list text;
  cs_nPK : Z;
  cs_isIPK : bool
}.

(** [azCol[i]] is in the memory allocated for [azCol]. *)
Definition in_azCol (i nAlloc : Z) : result unit :=
  if decide (0 <= i < nAlloc) then Ok () else Undefined "write outside of azCol".

(** One row of [PRAGMA table_info]. *)
Definition column_step (s : columns_state) (c : column_info) : result columns_state :=
  let nAlloc := if cs_nAlloc s - 2 <=? cs_nCol s then cs_nAlloc s * 2 + cs_nCol s + 10
                else cs_nAlloc s in
  let nCol := cs_nCol s + 1 in
  _ ← in_azCol nCol nAlloc;
  let '(nPK, isIPK) :=
    if ci_pk c =? 0 then (cs_nPK s, cs_isIPK s)
    else (cs_nPK s + 1,
          (cs_nPK s + 1 =? 1) && (sqlite3StrICmp (ci_type c) (str "INTEGER") =? 0)) in
  Ok (mkCols nCol nAlloc (cs_cols s ++ [ci_name c]) nPK isIPK).

Fixpoint columns_loop (s : columns_state) (l : list column_info) : result columns_state :=
  match l with
  | [] => Ok s
  | c :: l' => s' ← column_step s c; columns_loop s' l'
  end.

Definition azRowid : list text := [str "rowid"; str "_rowid_"; str "oid"].

(** The first name of the rowid that is not the name of a column. *)
Fixpoint rowid_name (zTab : text) (names cols : list text) : option text :=
  match names with
  | [] => None
  | r :: names' =>
      if existsb (λ c, sqlite3StrICmp r c =? 0) cols then rowid_name zTab names' cols
      else if db_column_metadata db zTab r then Some r else None
  end.

(** [azCol[0]] and the columns from [azCol[1]] on; [None] is a NULL list. *)
Definition tableColumnList (zTab : text) : result (option (option text * list text)) :=
  match db_table_info db (str "PRAGMA table_info=" ++ fmt_Q (Some zTab)) with
  | None => Ok None
  | Some rows =>
      s ← columns_loop (mkCols 0 0 [] 0 false) rows;
      _ ← in_azCol (cs_nCol s + 1) (cs_nAlloc s);
      let finish (preserveRowid : bool) :=
        Ok (Some (if preserveRowid then rowid_name zTab azRowid (cs_cols s) else None, cs_cols s)) in
      if cs_isIPK s then
        match db_index_list db (str "SELECT 1 FROM pragma_index_list(" ++ fmt_Q (Some zTab)
                                ++ str ") WHERE origin='pk'") with
        | None => Ok None
        | Some row => finish row
        end
      else finish true
  end.

(** ** Strings *)

Fixpoint strstr (z p : text) : bool :=
  starts_with p z || match z with [] => false | _ :: z' => strstr z' p end.

(** [sqlite3_snprintf(20,zBuf,"(%s%u)", zA, i)] *)
Definition placeholder (zA : text) (i : Z) : text := take 19 (str "(" ++ zA ++ fmt_u i ++ str ")").

Fixpoint unused_loop (fuel : nat) (z zA : text) (i : Z) : result text :=
  match fuel with
  | O => Undefined "no string found"
  | S fuel' =>
      let zBuf := placeholder zA i in
      if strstr z zBuf then unused_loop fuel' z zA (wrap_u 32 (i + 1)) else Ok zBuf
  end.

Definition unused_string (z zA zB : text) : result text :=
  if negb (strstr z zA) then Ok zA
  else if negb (strstr z zB) then Ok zB
  else unused_loop (S (length z)) z zA 0.

Definition plain_char (c : ascii) : bool :=
  negb (ceq c NUL) && negb (ceq c NL) && negb (ceq c CR) && negb (ceq c QUOT).

(** The loop over [z] between the quotes: runs of plain characters with the
    quote that ends them, and the strings that stand for newlines. *)
Fixpoint escape_loop (fuel : nat) (z zNL zCR : text) : text :=
  match fuel with
  | O => []
  | S fuel' =>
      match z with
      | [] => []
      | _ =>
          let i := count_while plain_char z in
          let c := at_ z i in
          if ceq c QUOT then
            take (S i) z ++ str "'" ++ escape_loop fuel' (drop (S i) z) zNL zCR
          else
            take i z ++
            (if ceq c NUL then []
             else (if ceq c NL then zNL else zCR) ++ escape_loop fuel' (drop (S i) z) zNL zCR)
      end
  end.

Definition output_quoted_escaped_string (z : text) : D unit :=
  if ceq (at_ z (count_while plain_char z)) NUL then xCallback (str "'" ++ z ++ str "'")
  else
    let nNL := existsb (ceq NL) z in
    let nCR := existsb (ceq CR) z in
    _ ← when nNL (xCallback (str "replace("));
    zNL ← lift_r (if nNL then unused_string z (str "\n") (str "\012") else Ok []);
    _ ← when nCR (xCallback (str "replace("));
    zCR ← lift_r (if nCR then unused_string z (str "\r") (str "\015") else Ok []);
    _ ← xCallback (str "'");
    _ ← xCallback (escape_loop (S (length z)) z zNL zCR);
    _ ← xCallback (str "'");
    _ ← when nCR (xCallback (str ",'" ++ zCR ++ str "',char(13))"));
    when nNL (xCallback (str ",'" ++ zNL ++ str "',char(10))")).

(** ** Rows *)

Definition POS_INFINITY : Z := 9218868437227405312.   (* 0x7ff0000000000000 *)
Definition NEG_INFINITY : Z := 18442240474082181120.  (* 0xfff0000000000000 *)

Definition output_value (v : value) : D unit :=
  match v with
  | VInteger i => xCallback (fmt_lld i)
  | VFloat ur =>
      xCallback (if ur =? POS_INFINITY then str "1e999"
                 else if ur =? NEG_INFINITY then str "-1e999"
                 else fmt_float ur)
  | VNull => xCallback (str "NULL")
  | VText t => output_quoted_escaped_string (cstr t)
  | VBlob a =>
      _ ← xCallback (str "x'");
      _ ← for_each (λ c, xCallback [hexdigit (Z.land (Z.shiftr (code c) 4) 15);
                                    hexdigit (Z.land (code c) 15)]) a;
      xCallback (str "'")
  end.

(** Columns [i] to [nCol - 1] of a row. *)
Fixpoint output_columns (i : nat) (row : list value) (n : nat) : D unit :=
  match n with
  | O => mret ()
  | S n' =>
      _ ← when (0 <? i)%nat (xCallback (str ","));
      _ ← output_value (default VNull (row !! i));
      output_columns (S i) row n'
  end.

Definition output_row (sTable : text) (nCol : nat) (row : list value) : D unit :=
  _ ← xCallback sTable;
  _ ← output_columns 0 row nCol;
  xCallback (str ");" ++ [NL]).

(** The texts appended to [sTable] and to [sSelect]. *)
Definition insert_texts (zTable : text) (rowid : option text) (cols : list text) : list (text * ascii) :=
  [(str "INSERT INTO ", NUL); (zTable, quoteChar zTable)]
  ++ match rowid with
     | Some r => [(str "(", NUL); (r, NUL)]
                 ++ (cols ≫= λ c, [(str ",", NUL); (c, quoteChar c)])
                 ++ [(str ")", NUL)]
     | None => []
     end
  ++ [(str " VALUES(", NUL)].

Fixpoint select_columns (cols : list text) : list (text * ascii) :=
  match cols with
  | [] => []
  | c :: cols' => (c, quoteChar c)
                  :: match cols' with [] => [] | _ => (str ",", NUL) :: select_columns cols' end
  end.

Definition select_texts (zTable : text) (rowid : option text) (cols : list text) : list (text * ascii) :=
  [(str "SELECT ", NUL)]
  ++ match rowid with Some r => [(r, NUL); (str ",", NUL)] | None => [] end
  ++ select_columns cols
  ++ [(str " FROM ", NUL); (zTable, quoteChar zTable)].

(** The rows of table [zTable]. *)
Definition dump_table (zTable : text) : D unit :=
  azTCol ← lift_r (tableColumnList zTable);
  match azTCol with
  | None => mret ()
  | Some (rowid, cols) =>
      sTable ← lift_r (p ← appendTexts initText (insert_texts zTable rowid cols); text_of p);
      sSelect ← lift_r (p ← appendTexts initText (select_texts zTable rowid cols); text_of p);
      let nCol := (length cols + match rowid with Some _ => 1 | None => 0 end)%nat in
      match db_select db sSelect with
      | inl rc => add_error rc
      | inr rows => for_each (output_row sTable nCol) rows
      end
  end.

(** One UTF-8 character and nothing else. *)
Definition one_utf8 (z : text) : bool :=
  match z with
  | [] => false
  | c :: z' => if code c <? 192 then bool_decide (z' = [])
               else forallb (λ d, Z.land (code d) 192 =? 128) z'
  end.

(** [sqlite3_strglob("sqlite_stat?", z) == 0] *)
Definition glob_stat (z : text) : bool :=
  starts_with (str "sqlite_stat") z && one_utf8 (drop 11 z).

(** [sqlite3_strglob] with CREATE TABLE, a space, a quote and anything *)
Definition glob_create_quoted (z : text) : bool :=
  starts_with (str "CREATE TABLE ") z && (ceq (at_ z 13) QUOT || ceq (at_ z 13) DQUOT).

Definition dump_callback (zTable zType zSql : text) : D unit :=
  let rows := when (bool_decide (zType = str "table")) (dump_table zTable) in
  if bool_decide (zTable = str "sqlite_sequence") then
    _ ← xCallback (str "DELETE FROM sqlite_sequence;" ++ [NL]); rows
  else if glob_stat zTable then
    _ ← xCallback (str "ANALYZE sqlite_schema;" ++ [NL]); rows
  else if starts_with (str "sqlite_") zTable then mret ()
  else if starts_with (str "CREATE VIRTUAL TABLE") zSql then
    s ← get_st;
    _ ← when (negb (writableSchema s))
          (_ ← xCallback (str "PRAGMA writable_schema=ON;" ++ [NL]); set_writable);
    xCallback (str "INSERT INTO sqlite_schema(type,name,tbl_name,rootpage,sql)VALUES('table','"
               ++ fmt_q zTable ++ str "','" ++ fmt_q zTable ++ str "',0,'" ++ fmt_q zSql ++ str "');")
  else
    _ ← (if glob_create_quoted zSql then
           _ ← xCallback (str "CREATE TABLE IF NOT EXISTS "); xCallback (drop 13 zSql)
         else xCallback zSql);
    _ ← xCallback (str ";" ++ [NL]);
    rows.

(** ** The whole dump *)

Definition error_comment (rc : Z) (msg : text) : text :=
  str "/**** ERROR: (" ++ fmt_lld rc ++ str ") " ++ msg ++ str " *****/" ++ [NL].

(** Columns of a row separated by commas; the semicolon goes on a line of its
    own when the first column has a comment in it. *)
Definition output_sql_row (row : list text) : D unit :=
  match row with
  | [] => mret ()
  | z :: rest =>
      _ ← xCallback z;
      _ ← for_each (λ c, _ ← xCallback (str ","); xCallback c) rest;
      xCallback ((if strstr z (str "--") then [NL] else []) ++ str ";" ++ [NL])
  end.

Definition output_sql_from_query (zSelect : text) : D unit :=
  match db_sql db zSelect with
  | inl (rc, msg) => _ ← xCallback (error_comment rc msg); count_error
  | inr (rows, rc, msg) =>
      _ ← for_each output_sql_row rows;
      if rc =? SQLITE_OK then mret ()
      else
        _ ← xCallback (error_comment rc msg);
        when (negb (Z.land rc 255 =? SQLITE_CORRUPT)) count_error
  end.

Definition run_schema_dump_query (zQuery : text) : D unit :=
  let '(rows, zErr) := db_schema db zQuery in
  _ ← for_each (λ '(zTable, zType, zSql), dump_callback zTable zType zSql) rows;
  match zErr with
  | Some msg => _ ← xCallback (str "/****** " ++ msg ++ str " ******/" ++ [NL]); count_error
  | None => mret ()
  end.

Definition schema_query (zSchema where_ : text) : text :=
  str "SELECT name, type, sql FROM " ++ [DQUOT] ++ fmt_w zSchema ++ [DQUOT]
  ++ str ".sqlite_schema " ++ where_.

Definition dump_body (zSchema : text) (zTable : option text) : D unit :=
  match zTable with
  | None =>
      _ ← run_schema_dump_query (schema_query zSchema
            (str "WHERE sql NOT NULL AND type=='table' AND name!='sqlite_sequence'"));
      _ ← run_schema_dump_query (schema_query zSchema (str "WHERE name=='sqlite_sequence'"));
      output_sql_from_query (str "SELECT sql FROM sqlite_schema WHERE sql NOT NULL AND type IN ('index','trigger','view')")
  | Some t =>
      _ ← run_schema_dump_query (schema_query zSchema
            (str "WHERE tbl_name=" ++ fmt_Q (Some t) ++ str " COLLATE nocase AND type=='table'  AND sql NOT NULL"));
      output_sql_from_query
        (str "SELECT sql FROM " ++ [DQUOT] ++ fmt_w zSchema ++ [DQUOT]
         ++ str ".sqlite_schema WHERE sql NOT NULL  AND type IN ('index','trigger','view')  AND tbl_name="
         ++ fmt_Q (Some t) ++ str " COLLATE nocase")
  end.

(** The result code, and the text given to the callback. *)
Definition sqlite3_db_dump (zSchema : text) (zTable : option text) : result (Z * text) :=
  if negb (db_begin db =? SQLITE_OK) then Ok (db_begin db, [])
  else
    let run : D unit :=
      _ ← xCallback (str "PRAGMA foreign_keys=OFF;" ++ [NL] ++ str "BEGIN TRANSACTION;" ++ [NL]);
      _ ← dump_body zSchema zTable;
      s ← get_st;
      _ ← when (writableSchema s) (xCallback (str "PRAGMA writable_schema=OFF;" ++ [NL]));
      xCallback (if nErr s =? 0 then str "COMMIT;" ++ [NL]
                 else str "ROLLBACK; -- due to errors" ++ [NL]) in
    match run (mkDState 0 SQLITE_OK false []) with
    | (Ok _, s) => Ok (rc s, out s)
    | (Err e, _) => Err e
    | (Undefined w, _) => Undefined w
    end.

End Dump.

(** ** Texts stay in their memory *)

(** [p] holds the text [s] and its terminating NUL. *)
Definition holds (p : DText) (s : text) : Prop :=
  (p = initText ∧ s = []) ∨
  (∃ junk, dt_z p = Some (map Some (s ++ [NUL]) ++ junk) ∧
     dt_n p = Z.of_nat (length s) ∧
     dt_nAlloc p = Z.of_nat (length s + 1 + length junk) ∧
     dt_nAlloc p <= 6 * Z.of_nat (length s) + 64).

Lemma put_app (a b : list (option ascii)) x c :
  put (a ++ x :: b) (Z.of_nat (length a)) c = Ok (a ++ Some c :: b).
Proof.
  unfold put. rewrite decide_True by (rewrite length_app; simpl; lia).
  rewrite Nat2Z.id, insert_app_r_alt by lia. by rewrite Nat.sub_diag.
Qed.

Lemma memcpy_app (a b c : list (option ascii)) l : length b = length l →
  memcpy (a ++ b ++ c) (Z.of_nat (length a)) l = Ok (a ++ map Some l ++ c).
Proof.
  revert a b. induction l as [|x l IH]; intros a b Hb; destruct b as [|y b]; simpl in Hb; try lia; [done|].
  cbn [memcpy]. cbn [app]. rewrite put_app. cbn.
  replace (Z.of_nat (length a) + 1) with (Z.of_nat (length (a ++ [Some x])))
    by (rewrite length_app; simpl; lia).
  rewrite cons_middle, app_assoc. rewrite (IH (a ++ [Some x]) b) by lia.
  by rewrite <- app_assoc.
Qed.

(** Copying with doubled quotes is copying the text with its quotes doubled. *)
Lemma quote_copy_memcpy z i q l z' : memcpy z i (double_quotes q l) = Ok z' →
  quote_copy z i q l = Ok (z', i + Z.of_nat (length (double_quotes q l))).
Proof.
  revert z i. induction l as [|c l IH]; intros z i.
  - simpl. intros [= ->]. f_equal. f_equal. lia.
  - rewrite double_quotes_cons. cbn [quote_copy]. destruct (Ascii.eqb_spec c q) as [->|Hne].
    + cbn [app memcpy]. unfold mbind, result_bind. destruct (put z i q) as [z1| |]; [|done..].
      destruct (put z1 (i + 1) q) as [z2| |]; [|done..]. intros E.
      rewrite (IH z2 (i + 2)) by (by replace (i + 2) with (i + 1 + 1) by lia).
      f_equal. f_equal. simpl. lia.
    + cbn [app memcpy]. unfold mbind, result_bind. destruct (put z i c) as [z1| |]; [|done..]. intros E.
      rewrite (IH z1 (i + 1) E). f_equal. f_equal. simpl. lia.
Qed.

Lemma double_quotes_length q l :
  length (double_quotes q l) = (length l + length (filter (λ c, c = q) l))%nat.
Proof.
  induction l as [|c l IH]; [done|]. rewrite double_quotes_cons, length_app, IH.
  destruct (Ascii.eqb_spec c q) as [->|Hne];
    [rewrite filter_cons_True by done|rewrite filter_cons_False by done]; simpl; lia.
Qed.

(** What [appendText] adds. *)
Definition quote_with (q : ascii) (a : text) : text := if ceq q NUL then a else quoted q a.

Lemma int_ok z : in_s 32 z → int z = Ok z.
Proof. intros H. unfold int. by rewrite decide_True. Qed.

Lemma quote_with_length q a :
  length (quote_with q a)
  = (length a + if ceq q NUL then 0 else 2 + length (filter (λ c, c = q) a))%nat.
Proof.
  unfold quote_with, quoted. destruct (ceq q NUL); [lia|].
  cbn [length]. rewrite length_app, double_quotes_length. simpl. lia.
Qed.

Lemma filter_le {A} (P : A → Prop) `{∀ x, Decision (P x)} l : (length (filter P l) <= length l)%nat.
Proof. induction l as [|x l IH]; [done|]. rewrite filter_cons. destruct (decide (P x)); simpl; lia. Qed.


(** After the growth there is memory for [k] more bytes and a NUL. *)
Definition room (p : DText) (s : text) (k : nat) : Prop :=
  ∃ rest, dt_z p = Some (map Some s ++ rest) ∧ dt_n p = Z.of_nat (length s) ∧
    (k + 1 <= length rest)%nat ∧ dt_nAlloc p = Z.of_nat (length s + length rest) ∧
    dt_nAlloc p <= 6 * Z.of_nat (length s + k) + 64.

Lemma holds_cells p s : holds p s → ∃ tail : list (option ascii),
  default [] (dt_z p) = map Some s ++ tail ∧ dt_n p = Z.of_nat (length s) ∧
  dt_nAlloc p = Z.of_nat (length s + length tail) ∧ dt_nAlloc p <= 6 * Z.of_nat (length s) + 64 ∧
  (dt_z p = None → dt_nAlloc p = 0).
Proof.
  intros [[-> ->]|(junk & Hz & Hn & Ha & Hb)]; [by exists []|].
  exists (Some NUL :: junk). rewrite Hz. simpl default. rewrite map_app, <- app_assoc.
  split_and!; [done|done|simpl; lia|done|done].
Qed.

Lemma grow_room p s k : holds p s → Z.of_nat (length s + k) <= 2 ^ 27 →
  ∃ p', grow p (Z.of_nat k + dt_n p + 1) = Ok p' ∧ room p' s k.
Proof.
  intros Hp Hk. destruct (holds_cells p s Hp) as (tail & Hz & Hn & Ha & Hb & Hnone).
  unfold grow. rewrite (int_ok (dt_n p + _)) by (unfold in_s; simpl; lia). cbn.
  destruct (Z.leb_spec (dt_nAlloc p) (dt_n p + (Z.of_nat k + dt_n p + 1))) as [Hle|Hgt].
  - set (nA := dt_nAlloc p * 2 + (Z.of_nat k + dt_n p + 1) + 20).
    rewrite (int_ok nA) by (unfold in_s; simpl; unfold nA; lia). cbn.
    eexists. split; [done|]. unfold realloc. rewrite Hz.
    assert (Hl : length (map Some s ++ tail) = Z.to_nat (dt_nAlloc p)) by (rewrite length_app, length_map; lia).
    rewrite take_ge by (rewrite Hl; unfold nA; lia). rewrite Hl.
    exists (tail ++ replicate (Z.to_nat nA - Z.to_nat (dt_nAlloc p)) None). simpl.
    rewrite length_app, length_replicate. rewrite <- app_assoc.
    split_and!; [done|done|unfold nA; lia|unfold nA; lia|unfold nA; lia].
  - exists p. split; [done|]. exists tail. destruct (dt_z p) as [z|]; [|specialize (Hnone eq_refl); lia].
    simpl in Hz. subst z. split_and!; [done|done|lia|done|lia].
Qed.

(** Writing [l] and a NUL where there is room. *)
Lemma room_write p s l : room p s (length l) →
  ∃ z junk z1, dt_z p = Some z ∧ memcpy z (dt_n p) l = Ok z1 ∧
    put z1 (dt_n p + Z.of_nat (length l)) NUL = Ok (map Some ((s ++ l) ++ [NUL]) ++ junk) ∧
    dt_nAlloc p = Z.of_nat (length (s ++ l) + 1 + length junk).
Proof.
  intros (rest & Hz & Hn & Hr & Ha & _).
  destruct (decide (length l <= length rest)%nat) as [Hl|]; [|lia].
  rewrite <- (take_drop (length l) rest) in Hz.
  assert (Hd : (0 < length (drop (length l) rest))%nat) by (rewrite length_drop; lia).
  destruct (drop (length l) rest) as [|x junk] eqn:E; [simpl in Hd; lia|].
  assert (Hlen : length rest = (length l + 1 + length junk)%nat).
  { apply (f_equal length) in E. rewrite length_drop in E. simpl in E. lia. }
  eexists _, junk, (map Some s ++ map Some l ++ x :: junk). split_and!; [exact Hz| | |].
  - rewrite Hn. rewrite <- (length_map Some s). apply memcpy_app. rewrite length_take. lia.
  - rewrite Hn, <- Nat2Z.inj_add. rewrite app_assoc, <- map_app.
    rewrite <- length_app, <- (length_map Some (s ++ l)), put_app.
    by rewrite !map_app, <- !app_assoc.
  - rewrite Ha, length_app. lia.
Qed.

Lemma room_holds p s l z junk : room p s (length l) → z = map Some ((s ++ l) ++ [NUL]) ++ junk →
  dt_nAlloc p = Z.of_nat (length (s ++ l) + 1 + length junk) →
  holds (mkDText (Some z) (dt_n p + Z.of_nat (length l)) (dt_nAlloc p)) (s ++ l).
Proof.
  intros (rest & _ & Hn & _ & _ & Hb) -> Ha. right. exists junk. simpl.
  rewrite length_app in *. split_and!; [done|lia|done|lia].
Qed.

Lemma memcpy_app_list z i a b z1 : memcpy z i a = Ok z1 →
  memcpy z i (a ++ b) = memcpy z1 (i + Z.of_nat (length a)) b.
Proof.
  revert z i. induction a as [|c a IH]; intros z i; cbn [memcpy app].
  - intros [= ->]. f_equal. simpl. lia.
  - unfold mbind, result_bind. destruct (put z i c) as [z2| |]; [|done..]. intros E.
    rewrite (IH _ _ E). f_equal. cbn [length]. lia.
Qed.

Lemma memcpy_app_inv z i a b z2 : memcpy z i (a ++ b) = Ok z2 → ∃ z1, memcpy z i a = Ok z1 ∧
  memcpy z1 (i + Z.of_nat (length a)) b = Ok z2.
Proof.
  revert z i. induction a as [|c a IH]; intros z i; cbn [memcpy app].
  - intros E. exists z. split; [done|]. by rewrite Z.add_0_r.
  - unfold mbind, result_bind. destruct (put z i c) as [z3| |]; [|done..]. intros E.
    destruct (IH _ _ E) as (z1 & E1 & E2). exists z1. split; [done|].
    rewrite <- E2. f_equal. cbn [length]. lia.
Qed.

(** The quoted branch writes the quoted text. *)
Lemma quoted_writes z n q a z1 : memcpy z n (quoted q a) = Ok z1 →
  (z ← put z n q; '(z, zCsr) ← quote_copy z (n + 1) q a; z ← put z zCsr q; Ok (z, zCsr + 1))
  = Ok (z1, n + Z.of_nat (length (quoted q a))).
Proof.
  unfold quoted. cbn [memcpy]. unfold mbind, result_bind.
  destruct (put z n q) as [z2| |]; [|done..]. intros E.
  destruct (memcpy_app_inv _ _ _ _ _ E) as (z3 & E1 & E2).
  rewrite (quote_copy_memcpy _ _ _ _ _ E1). cbn [memcpy] in E2.
  unfold mbind, result_bind in E2. destruct (put z3 _ q) as [z4| |]; [|done..].
  injection E2 as ->. f_equal. f_equal. cbn [length]. rewrite length_app. simpl. lia.
Qed.

(** [appendText] writes inside of the memory it has, and the text is then what
    it was with the new text, quoted, behind it. *)
Lemma appendText_holds p s a q : holds p s →
  Z.of_nat (length s + length (quote_with q a)) <= 2 ^ 27 →
  ∃ p', appendText p a q = Ok p' ∧ holds p' (s ++ quote_with q a) ∧ dt_z p' ≠ None.
Proof.
  intros Hp Hk. set (l := quote_with q a) in *.
  pose proof (quote_with_length q a) as Hql. fold l in Hql.
  assert (Hna : Z.land (Z.of_nat (length a)) 1073741823 = Z.of_nat (length a)).
  { change 1073741823 with (Z.ones 30). rewrite Z.land_ones by lia. apply Z.mod_small.
    split; [lia|]. apply Z.le_lt_trans with (2 ^ 27); [|done]. lia. }
  unfold appendText. rewrite Hna, Nat2Z.id, firstn_all.
  set (extra := if ceq q NUL then 0 else _).
  assert (Hex : Z.of_nat (length l) = Z.of_nat (length a) + extra)
    by (unfold extra; rewrite Hql; destruct (ceq q NUL); lia).
  destruct (holds_cells p s Hp) as (tail & _ & Hn & _).
  replace (Z.of_nat (length a) + dt_n p + 1 + extra) with (Z.of_nat (length l) + dt_n p + 1) by lia.
  rewrite int_ok by (unfold in_s; simpl; lia).
  destruct (grow_room p s (length l) Hp Hk) as (p' & Hg & Hr).
  unfold mbind, result_bind. rewrite Hg.
  destruct (room_write p' s l Hr) as (z & junk & z1 & Hz & Hm & Hput & Hal). rewrite Hz.
  pose proof (room_holds p' s l _ junk Hr eq_refl Hal) as Hh.
  exists (mkDText (Some (map Some ((s ++ l) ++ [NUL]) ++ junk)) (dt_n p' + Z.of_nat (length l)) (dt_nAlloc p')).
  split; [|by split].
  unfold l, quote_with in Hm, Hput, Hex |- *. unfold extra in Hex. destruct (ceq q NUL).
  - by rewrite Hm, Hput.
  - pose proof (quoted_writes _ _ _ _ _ Hm) as Hw. unfold mbind, result_bind in Hw.
    destruct (put z (dt_n p') q) as [z2| |]; [|done..].
    destruct (quote_copy z2 (dt_n p' + 1) q a) as [[z3 csr]| |]; [|done..].
    destruct (put z3 csr q) as [z4| |]; [|done..]. injection Hw as Hz4 Hc.
    change (S (length (double_quotes q a ++ [q]))) with (length (quoted q a)) in Hc.
    by rewrite Hz4, Hc, Hput.
Qed.

Lemma holds_text p s : holds p s → dt_z p ≠ None → text_of p = Ok s.
Proof.
  intros [[-> _]|(junk & Hz & Hn & _)] Hne; [done|]. unfold text_of. rewrite Hz, Hn, Nat2Z.id.
  rewrite map_app, <- app_assoc, take_app_length' by by rewrite length_map.
  assert (E : mapM id (map Some s) = Some s); [|by rewrite E].
  clear. induction s as [|c s IH]; [done|]. cbn [map]. simpl. by rewrite IH.
Qed.

(** The text a sequence of [appendText] builds. *)
Definition text_built (l : list (text * ascii)) : text := l ≫= λ '(z, q), quote_with q z.

Lemma appendTexts_holds l p s : holds p s → l ≠ [] → Z.of_nat (length s + length (text_built l)) <= 2 ^ 27 →
  ∃ p', appendTexts p l = Ok p' ∧ holds p' (s ++ text_built l) ∧ text_of p' = Ok (s ++ text_built l).
Proof.
  revert p s. induction l as [|[z q] l IH]; intros p s Hp Hne Hl; [done|].
  change (text_built ((z, q) :: l)) with (quote_with q z ++ text_built l) in *. rewrite length_app in Hl.
  destruct (appendText_holds p s z q Hp ltac:(lia)) as (p1 & E1 & H1 & Hn1). cbn [appendTexts].
  rewrite E1. cbn. destruct l as [|x l].
  - exists p1. unfold text_built. simpl. rewrite app_nil_r. split_and!; [done|done|]. by apply holds_text.
  - destruct (IH p1 (s ++ quote_with q z) H1) as (p2 & E2 & H2 & Ht); [done|rewrite length_app; lia|].
    exists p2. rewrite <- app_assoc in H2, Ht. by split_and!.
Qed.

(** A text of at most 2^27 bytes is built with every write inside of its
    memory and no overflow. *)
Lemma appendTexts_built l : l ≠ [] → Z.of_nat (length (text_built l)) <= 2 ^ 27 →
  (p ← appendTexts initText l; text_of p) = Ok (text_built l).
Proof.
  intros Hne Hl. destruct (appendTexts_holds l initText [] (or_introl (conj eq_refl eq_refl)) Hne Hl)
    as (p & E & _ & Ht).
  rewrite E. exact Ht.
Qed.

(** ** Strings that stand for newlines *)

Lemma starts_with_prefix p z : starts_with p z = true ↔ ∃ r, z = p ++ r.
Proof.
  revert z. induction p as [|c p IH]; intros z; [split; [by exists z|done]|].
  destruct z as [|d z]; simpl; [split; [done|by intros [r ?]]|].
  rewrite andb_true_iff, IH, Ascii.eqb_eq. split.
  - intros [-> [r ->]]. by exists r.
  - intros [r E]. injection E as -> ->. split; [done|by exists r].
Qed.

Lemma strstr_occurs z p : strstr z p = true ↔ ∃ a b, z = a ++ p ++ b.
Proof.
  induction z as [|c z IH]; cbn [strstr]; rewrite orb_true_iff, starts_with_prefix.
  - split; [|].
    + intros [[r E]|?]; [|done]. by exists [], r.
    + intros (a & b & E). left. exists b. by destruct a.
  - rewrite IH. split.
    + intros [[r E]|(a & b & ->)]; [by exists [], r|by exists (c :: a), b].
    + intros (a & b & E). destruct a as [|d a]; [left; by exists b|].
      right. injection E as -> ->. by exists a, b.
Qed.

Definition zNL_choice (p : text) : Prop := p = str "\n" ∨ p = str "\012" ∨ ∃ i, 0 <= i < 2 ^ 32 ∧ p = placeholder (str "\n") i.
Definition zCR_choice (p : text) : Prop := p = str "\r" ∨ p = str "\015" ∨ ∃ i, 0 <= i < 2 ^ 32 ∧ p = placeholder (str "\r") i.

Lemma fmt_u_dec i : 0 <= i → Forall (λ c, is_dec c = true) (fmt_u i).
Proof. apply dec_digits_dec. Qed.

Lemma fmt_u_length i : 0 <= i < 2 ^ 32 → (1 <= length (fmt_u i) <= 10)%nat.
Proof.
  intros Hi. apply (dec_digits_length 20 i); [|lia| |lia].
  - split; [lia|]. apply Z.lt_trans with (2 ^ 32); [lia|by vm_compute].
  - apply Z.lt_trans with (2 ^ 32); [lia|by vm_compute].
Qed.

(** Nothing is cut off: 14 bytes at most go into the 20 of the buffer. *)
Lemma placeholder_eq zA i : length zA = 2%nat → 0 <= i < 2 ^ 32 →
  placeholder zA i = "("%char :: zA ++ fmt_u i ++ [")"%char].
Proof.
  intros HA Hi. unfold placeholder. apply take_ge. pose proof (fmt_u_length i Hi).
  simpl. rewrite !length_app. simpl. lia.
Qed.

Lemma fmt_u_inj i j : 0 <= i < 2 ^ 32 → 0 <= j < 2 ^ 32 → fmt_u i = fmt_u j → i = j.
Proof.
  intros Hi Hj E. apply (f_equal (dval 0)) in E. unfold fmt_u in E.
  assert (H : ∀ k, 0 <= k < 2 ^ 32 → dval 0 (dec_digits 20 k) = k).
  { intros k Hk. apply dec_digits_val. split; [lia|]. apply Z.lt_trans with (2 ^ 32); [lia|by vm_compute]. }
  by rewrite !H in E.
Qed.

(** Digits up to a closing parenthesis are determined by the text. *)
Lemma digits_prefix_inj a b r s : Forall (λ c, is_dec c = true) a → Forall (λ c, is_dec c = true) b →
  a ++ ")"%char :: r = b ++ ")"%char :: s → a = b.
Proof.
  intros Ha Hb. revert b Hb. induction Ha as [|c a Hc Ha IH]; intros b Hb E.
  - destruct Hb as [|d b Hd Hb]; [done|]. injection E as <- _. by vm_compute in Hd.
  - destruct Hb as [|d b Hd Hb]; [injection E as -> _; by vm_compute in Hc|].
    injection E as -> E. f_equal. by apply IH.
Qed.

(** Two numbered strings do not begin at the same place. *)
Lemma placeholder_prefix_inj zA i j r s : length zA = 2%nat → 0 <= i < 2 ^ 32 → 0 <= j < 2 ^ 32 →
  placeholder zA i ++ r = placeholder zA j ++ s → i = j.
Proof.
  intros HA Hi Hj. rewrite !placeholder_eq by done. intros E. injection E as E.
  rewrite <- !app_assoc in E. apply app_inv_head in E. simpl in E.
  apply fmt_u_inj; [done|done|]. by eapply digits_prefix_inj; [apply fmt_u_dec; lia..|].
Qed.

(** Where a string first occurs. *)
Fixpoint strpos (z p : text) : nat :=
  if starts_with p z then O else match z with [] => O | _ :: z' => S (strpos z' p) end.

Lemma strpos_spec z p : p ≠ [] → strstr z p = true →
  (strpos z p < length z)%nat ∧ ∃ r, drop (strpos z p) z = p ++ r.
Proof.
  intros Hp. induction z as [|c z IH]; cbn [strstr strpos].
  - rewrite orb_false_r. destruct p; [done|]. done.
  - destruct (starts_with p (c :: z)) eqn:E; cbn [orb].
    + intros _. split; [simpl; lia|]. by apply starts_with_prefix.
    + intros H. destruct (IH H) as [Hl Hr]. split; [simpl; lia|done].
Qed.

(** One of as many numbered strings as [z] has characters, and one more, does
    not occur in [z]. *)
Lemma placeholders_not_all z zA : length zA = 2%nat → Z.of_nat (length z) < 2 ^ 31 →
  ¬ ∀ j, (j < S (length z))%nat → strstr z (placeholder zA (Z.of_nat j)) = true.
Proof.
  intros HA Hz H. set (f j := strpos z (placeholder zA (Z.of_nat j))).
  assert (Hin : ∀ j, (j < S (length z))%nat → 0 <= Z.of_nat j < 2 ^ 32) by (intros; simpl in *; lia).
  assert (Hf : ∀ j, (j < S (length z))%nat →
    (f j < length z)%nat ∧ ∃ r, drop (f j) z = placeholder zA (Z.of_nat j) ++ r).
  { intros j Hj. apply strpos_spec; [|by apply H]. by rewrite placeholder_eq by auto. }
  assert (Hnd : NoDup (f <$> seq 0 (S (length z)))).
  { apply NoDup_fmap_2_strong; [|apply NoDup_seq]. intros x y Hx Hy E.
    apply elem_of_seq in Hx, Hy. destruct (Hf x) as (_ & r & Er); [lia|]. destruct (Hf y) as (_ & s & Es); [lia|].
    rewrite E, Es in Er. apply placeholder_prefix_inj in Er; [lia|done|apply Hin; lia|apply Hin; lia]. }
  assert (Hsub : (f <$> seq 0 (S (length z))) ⊆+ seq 0 (length z)).
  { apply NoDup_submseteq; [done|]. intros x Hx. apply list_elem_of_fmap in Hx as (j & -> & Hj).
    apply elem_of_seq in Hj. apply elem_of_seq. destruct (Hf j); lia. }
  apply submseteq_length in Hsub. rewrite length_fmap, !length_seq in Hsub. lia.
Qed.

Lemma unused_loop_spec fuel z zA i : Z.of_nat (i + fuel) < 2 ^ 32 →
  (∃ j, (i <= j < i + fuel)%nat ∧ unused_loop fuel z zA (Z.of_nat i) = Ok (placeholder zA (Z.of_nat j)) ∧
        strstr z (placeholder zA (Z.of_nat j)) = false) ∨
  (∀ j, (i <= j < i + fuel)%nat → strstr z (placeholder zA (Z.of_nat j)) = true).
Proof.
  revert i. induction fuel as [|fuel IH]; intros i Hi; [right; lia|]. cbn [unused_loop].
  destruct (strstr z (placeholder zA (Z.of_nat i))) eqn:E.
  - rewrite wrap_u_id by (unfold in_u; lia). replace (Z.of_nat i + 1) with (Z.of_nat (S i)) by lia.
    destruct (IH (S i) ltac:(lia)) as [(j & Hj & Ej & Ej2)|Hall].
    + left. exists j. split_and!; [lia|lia|done|done].
    + right. intros j Hj. destruct (decide (j = i)) as [->|]; [done|]. apply Hall. lia.
  - left. exists i. split_and!; [lia|lia|done|done].
Qed.

(** [unused_string] ends, with a string that does not occur in [z]. *)
Lemma unused_string_ends z zA zB : length zA = 2%nat → Z.of_nat (length z) < 2 ^ 31 →
  ∃ p, unused_string z zA zB = Ok p ∧ strstr z p = false ∧
    (p = zA ∨ p = zB ∨ ∃ i, 0 <= i < 2 ^ 32 ∧ p = placeholder zA i).
Proof.
  intros HA Hz. unfold unused_string. destruct (strstr z zA) eqn:EA; [|by exists zA; eauto].
  destruct (strstr z zB) eqn:EB; [|by exists zB; eauto]. cbn [negb].
  destruct (unused_loop_spec (S (length z)) z zA 0) as [(j & Hj & E & Ej)|Hall]; [lia| |].
  - eexists. split_and!; [exact E|done|]. right. right. exists (Z.of_nat j). split; [lia|done].
  - exfalso. apply (placeholders_not_all z zA HA Hz). intros j Hj. apply Hall. lia.
Qed.

(** ** [replace] undoes the encoding *)

(** No match of [p] that begins in front of [e] goes on into [e]. *)
Definition no_overlap (p e : text) : Prop :=
  ∀ l q r s, p = l ++ q → l ≠ [] → q ≠ [] → q ++ r = e ++ s → False.
(** No match of [p] begins inside of [e]. *)
Definition no_inner (p e : text) : Prop :=
  ∀ l q r s, e = l ++ q → q ≠ [] → q ++ r = p ++ s → False.

Lemma nonempty_cons (p : text) : p ≠ [] → ∃ a q, p = a :: q.
Proof. destruct p as [|a q]; [done|]. by exists a, q. Qed.

Section Encoding.
Context (enc : ascii → text) (p rep : text) (x : ascii).
Context (Hp : p ≠ []) (Hx : enc x = p) (Hself : no_overlap p p).

(** A character is its own encoding, or one that [p] does not meet. *)
Definition encodes (c : ascii) : Prop := enc c = [c] ∨ (no_inner p (enc c) ∧ no_overlap p (enc c)).

Lemma no_match_ahead l q w s : Forall (λ c, c = x ∨ encodes c) w → p = l ++ q → l ≠ [] → q ≠ [] →
  q ++ s = w ≫= enc → starts_with q w = true.
Proof using Hself Hx.
  intros Hw. revert l q. induction Hw as [|d w Hd Hw IH]; intros l q E Hl Hq Ew.
  - by apply app_eq_nil in Ew as [? _].
  - change ((d :: w) ≫= enc) with (enc d ++ (w ≫= enc)) in Ew. destruct Hd as [->|[Hd|[_ Hd]]].
    + rewrite Hx in Ew. exfalso. by eapply (Hself l q).
    + rewrite Hd in Ew. destruct q as [|d' q]; [done|]. injection Ew as -> Ew. simpl. rewrite ceq_refl. simpl.
      destruct (decide (q = [])) as [->|Hne]; [done|].
      apply (IH (l ++ [d]) q); [by rewrite <- app_assoc|by destruct l|done|done].
    + exfalso. by eapply (Hd l q).
Qed.

Lemma no_match_here c w : Forall (λ c, c = x ∨ encodes c) w → enc c = [c] → starts_with p (c :: w) = false →
  starts_with p (c :: (w ≫= enc)) = false.
Proof using Hself Hx Hp.
  intros Hw Hc Hn. apply not_true_is_false. intros [s E]%starts_with_prefix.
  destruct (nonempty_cons p Hp) as (c' & q & Ep). rewrite Ep in E, Hn. injection E as <- E.
  simpl in Hn. rewrite ceq_refl in Hn. simpl in Hn. destruct (decide (q = [])) as [->|Hq]; [done|].
  assert (H : starts_with q w = true); [|by rewrite H in Hn].
  by apply (no_match_ahead [c] q w s).
Qed.

Lemma replace_skip k w r : length w = k → replace_loop p rep k (w ++ r) = replace_loop p rep O r.
Proof. revert k. induction w as [|c w IH]; intros k <-; simpl; [by destruct r|]. by rewrite IH. Qed.

Lemma replace_pass e r : no_inner p e → replace_loop p rep O (e ++ r) = e ++ replace_loop p rep O r.
Proof.
  intros He. assert (H : ∀ l q, e = l ++ q → replace_loop p rep O (q ++ r) = q ++ replace_loop p rep O r).
  { intros l q. revert l. induction q as [|c q IH]; intros l E; [done|]. cbn [app replace_loop].
    replace (starts_with p (c :: q ++ r)) with false.
    - f_equal. apply (IH (l ++ [c])). by rewrite <- app_assoc.
    - symmetry. apply not_true_is_false. intros [s Es]%starts_with_prefix. by eapply (He l (c :: q)). }
  by apply (H [] e).
Qed.

Lemma replace_decodes z : Forall (λ c, c = x ∨ encodes c) z → strstr z p = false →
  replace_loop p rep O (z ≫= enc) = z ≫= (λ c, if ceq c x then rep else enc c).
Proof using Hself Hx Hp.
  intros Hz. induction Hz as [|c z Hc Hz IH]; intros Hs; [done|].
  cbn [strstr] in Hs. apply orb_false_iff in Hs as [Hs1 Hs2]. specialize (IH Hs2).
  change ((c :: z) ≫= enc) with (enc c ++ (z ≫= enc)).
  change ((c :: z) ≫= (λ c0, if ceq c0 x then rep else enc c0))
    with ((if ceq c x then rep else enc c) ++ (z ≫= (λ c0, if ceq c0 x then rep else enc c0))).
  rewrite <- IH. destruct (Ascii.eqb_spec c x) as [->|Hne].
  - rewrite Hx. destruct (nonempty_cons p Hp) as (a & q & Ep). rewrite Ep at 2. cbn [app replace_loop].
    replace (starts_with p (a :: q ++ (z ≫= enc))) with true
      by (symmetry; apply starts_with_prefix; exists (z ≫= enc); by rewrite Ep).
    f_equal. apply replace_skip. rewrite Ep. simpl. lia.
  - destruct Hc as [->|Hc]; [done|]. destruct Hc as [Hc|[Hi _]]; [|by apply replace_pass].
    rewrite Hc. cbn [app replace_loop]. by rewrite no_match_here.
Qed.
End Encoding.

(** *** The chosen strings do not meet *)

Definition special (c : ascii) : bool := ceq c "\" || ceq c "(".

Lemma no_overlap_tail c t e : Forall (λ d, special d = false) t → special (at_ e 0) = true → e ≠ [] →
  no_overlap (c :: t) e.
Proof.
  intros Ht He Hne l q r s E Hl Hq Eq. destruct l as [|c' l]; [done|]. injection E as -> ->.
  apply list.Forall_app in Ht as [_ Ht]. destruct q as [|d q]; [done|]. destruct e as [|d' e]; [done|].
  injection Eq as -> _. apply list.Forall_cons in Ht as [Hd _]. unfold at_ in He. simpl in He. congruence.
Qed.

Lemma no_overlap_paren c d t e : Forall (λ d, special d = false) (d :: t) → special (at_ e 0) = true →
  at_ e 0 = "("%char ∨ (∃ d' e', e = "\"%char :: d' :: e' ∧ d' ≠ d) → e ≠ [] →
  no_overlap (c :: "\"%char :: d :: t) e.
Proof.
  intros Ht He Hcase Hne l q r s E Hl Hq Eq. destruct l as [|c' [|c'' l]]; [done| |].
  - injection E as <- <-. destruct Hcase as [Hp|(d' & e' & -> & Hd)].
    + destruct e as [|x e]; [done|]. injection Eq as <- _. by vm_compute in Hp.
    + injection Eq as -> _. done.
  - injection E as <- <- E. apply (no_overlap_tail "\"%char (d :: t) e Ht He Hne ("\"%char :: l) q r s); [by rewrite E|done|done|done].
Qed.

Lemma no_inner_cons p c e : (∀ r s, c :: e ++ r = p ++ s → False) → no_inner p e → no_inner p (c :: e).
Proof.
  intros Hc He l q r s E Hq Eq. destruct l as [|c' l]; [|injection E as <- E; by eapply He].
  simpl in E. subst q. by eapply Hc.
Qed.

Lemma no_inner_plain p t : p ≠ [] → special (at_ p 0) = true → Forall (λ d, special d = false) t → no_inner p t.
Proof.
  intros Hp Hs Ht. induction Ht as [|c t Hc Ht IH].
  - intros l q r s E Hq _. by apply eq_sym, app_eq_nil in E as [_ ?].
  - apply no_inner_cons; [|done]. intros r s E. destruct p as [|d p]; [done|]. injection E as <- _.
    unfold at_ in Hs. simpl in Hs. congruence.
Qed.

Lemma dec_plain c : is_dec c = true → special c = false.
Proof. by_char c. Qed.

(** A numbered string: a parenthesis, a backslash, a letter and more. *)
Lemma placeholder_shape c i : 0 <= i < 2 ^ 32 → ∃ t, placeholder ["\"%char; c] i = "("%char :: "\"%char :: c :: t ∧
  Forall (λ d, special d = false) t ∧ Forall (λ d, d ≠ NUL) t ∧ Forall (λ d, d ≠ QUOT) t.
Proof.
  intros Hi. rewrite placeholder_eq by done. exists (fmt_u i ++ [")"%char]). split; [done|].
  pose proof (fmt_u_dec i ltac:(lia)) as Hd.
  assert (Hf : ∀ P : ascii → Prop, (∀ d, is_dec d = true → P d) → P ")"%char → Forall P (fmt_u i ++ [")"%char])).
  { intros P H1 H2. apply list.Forall_app. split; [by eapply Forall_impl; [exact H1|]|by repeat constructor]. }
  split_and!; apply Hf; try done; [apply dec_plain| |]; intros d; by_char d.
Qed.

Lemma nl_choice_self p : zNL_choice p → no_overlap p p.
Proof.
  intros [->|[->|(i & Hi & ->)]].
  1,2: apply no_overlap_tail; by repeat constructor.
  destruct (placeholder_shape "n" i Hi) as (t & E & Ht & _). unfold str. simpl. rewrite E.
  apply no_overlap_paren; [by constructor|done|by left|done].
Qed.

Lemma cr_choice_self p : zCR_choice p → no_overlap p p.
Proof.
  intros [->|[->|(i & Hi & ->)]].
  1,2: apply no_overlap_tail; by repeat constructor.
  destruct (placeholder_shape "r" i Hi) as (t & E & Ht & _). unfold str. simpl. rewrite E.
  apply no_overlap_paren; [by constructor|done|by left|done].
Qed.

Lemma cr_nl_overlap p e : zCR_choice p → zNL_choice e → no_overlap p e.
Proof.
  intros Hp He.
  assert (Hs : special (at_ e 0) = true ∧ e ≠ []).
  { destruct He as [->|[->|(i & Hi & ->)]]; [done|done|].
    destruct (placeholder_shape "n" i Hi) as (t & E & _). unfold str. simpl. by rewrite E. }
  destruct Hs as [Hs Hne]. destruct Hp as [->|[->|(i & Hi & ->)]].
  1,2: apply no_overlap_tail; by repeat constructor.
  destruct (placeholder_shape "r" i Hi) as (t & E & Ht & _). unfold str. simpl. rewrite E.
  apply no_overlap_paren; [by constructor|done| |done].
  destruct He as [->|[->|(j & Hj & ->)]]; [right; eexists _, _; by split|right; eexists _, _; by split|].
  left. destruct (placeholder_shape "n" j Hj) as (u & E' & _). unfold str. simpl. by rewrite E'.
Qed.

Lemma cr_nl_inner p e : zCR_choice p → zNL_choice e → no_inner p e.
Proof.
  intros Hp He.
  assert (Hs : special (at_ p 0) = true ∧ p ≠ [] ∧
    ((∃ d t, p = "\"%char :: d :: t ∧ (d = "r"%char ∨ d = "0"%char)) ∨ (∃ t, p = "("%char :: "\"%char :: "r"%char :: t))
    ∧ ∀ r s, str "\012" ++ r = p ++ s → False).
  { destruct Hp as [->|[->|(i & Hi & ->)]].
    - split_and!; [done|done|left; eexists _, _; by eauto|done].
    - split_and!; [done|done|left; eexists _, _; by eauto|done].
    - destruct (placeholder_shape "r" i Hi) as (t & E & _). unfold str. simpl. rewrite E.
      split_and!; [done|done|right; by exists t|done]. }
  destruct Hs as (Hs & Hne & Hshape & H012).
  destruct He as [->|[->|(j & Hj & ->)]].
  - apply no_inner_cons; [|by apply no_inner_plain; [| |repeat constructor]].
    intros r s E. destruct Hshape as [(d & t & -> & [-> | ->])|(t & ->)]; done.
  - apply no_inner_cons; [exact H012|by apply no_inner_plain; [| |repeat constructor]].
  - destruct (placeholder_shape "n" j Hj) as (u & E' & Hu & _). unfold str. simpl. rewrite E'.
    apply no_inner_cons; [|apply no_inner_cons; [|apply no_inner_plain; [done|done|by constructor]]];
      intros r s E; destruct Hshape as [(d & t & -> & [-> | ->])|(t & ->)]; done.
Qed.

Lemma choice_chars p : zNL_choice p ∨ zCR_choice p →
  p ≠ [] ∧ Forall (λ c, c ≠ NUL) p ∧ Forall (λ c, c ≠ QUOT) p.
Proof.
  assert (Hph : ∀ c i, c ≠ NUL → c ≠ QUOT → 0 <= i < 2 ^ 32 →
    placeholder ["\"%char; c] i ≠ [] ∧ Forall (λ c, c ≠ NUL) (placeholder ["\"%char; c] i) ∧
    Forall (λ c, c ≠ QUOT) (placeholder ["\"%char; c] i)).
  { intros c i H1 H2 Hi. destruct (placeholder_shape c i Hi) as (t & -> & _ & Ht1 & Ht2).
    split_and!; by repeat constructor. }
  intros [[->|[->|(i & Hi & ->)]]|[->|[->|(i & Hi & ->)]]]; try (split_and!; by repeat constructor); by apply Hph.
Qed.

(** ** String literals *)

Definition encode (zNL zCR : text) (c : ascii) : text :=
  if ceq c NL then zNL else if ceq c CR then zCR else [c].

Lemma plain_char_facts c : plain_char c = true →
  ceq c NUL = false ∧ ceq c NL = false ∧ ceq c CR = false ∧ ceq c QUOT = false.
Proof. by_char c. Qed.

Lemma encode_plain zNL zCR a : Forall (λ c, plain_char c = true) a →
  double_quotes QUOT (a ≫= encode zNL zCR) = a.
Proof.
  intros Ha. induction Ha as [|c a Hc Ha IH]; [done|].
  destruct (plain_char_facts c Hc) as (_ & H1 & H2 & H3).
  change ((c :: a) ≫= encode zNL zCR) with (encode zNL zCR c ++ (a ≫= encode zNL zCR)).
  unfold encode at 1. rewrite H1, H2. simpl app. rewrite double_quotes_cons, H3, IH. done.
Qed.

Lemma no_quote_doubled z : Forall (λ c, c ≠ QUOT) z → double_quotes QUOT z = z.
Proof.
  intros Hz. induction Hz as [|c z Hc Hz IH]; [done|]. rewrite double_quotes_cons, IH.
  by rewrite ceq_neq.
Qed.

(** A run of plain characters and what ends it. *)
Lemma split_plain z : ∃ a r, z = a ++ r ∧ Forall (λ c, plain_char c = true) a ∧
  count_while plain_char z = length a ∧ (r = [] ∨ ∃ c r', r = c :: r' ∧ plain_char c = false).
Proof.
  induction z as [|c z (a & r & -> & Ha & Hn & Hr)]; [by exists [], []; eauto|]. simpl.
  destruct (plain_char c) eqn:E.
  - exists (c :: a), r. rewrite Hn. split_and!; [done|by constructor|done|done].
  - exists [], (c :: a ++ r). split_and!; [done|constructor|done|]. right. by exists c, (a ++ r).
Qed.

Lemma escape_loop_encodes fuel z zNL zCR : (length z < fuel)%nat → Forall (λ c, c ≠ NUL) z →
  Forall (λ c, c ≠ QUOT) zNL → Forall (λ c, c ≠ QUOT) zCR →
  escape_loop fuel z zNL zCR = double_quotes QUOT (z ≫= encode zNL zCR).
Proof.
  intros Hf Hz H1 H2. revert z Hf Hz. induction fuel as [|fuel IH]; intros z Hf Hz; [lia|].
  cbn [escape_loop]. destruct (decide (z = [])) as [->|Hne]; [done|].
  assert (E : ∀ (X Y : text), match z with [] => X | _ :: _ => Y end = Y) by (by destruct z).
  rewrite E. clear E. destruct (split_plain z) as (a & r & -> & Ha & -> & Hr).
  rewrite at_app_r, bind_app, double_quotes_app, (encode_plain _ _ a Ha).
  destruct Hr as [->|(c & r' & -> & Hc)].
  - change (at_ [] 0) with NUL. rewrite ceq_refl. change (ceq NUL QUOT) with false.
    rewrite !app_nil_r. by rewrite firstn_all.
  - change (at_ (c :: r') 0) with c. apply list.Forall_app in Hz as [_ Hz]. apply list.Forall_cons in Hz as [Hc0 Hz].
    rewrite length_app in Hf. simpl in Hf.
    assert (Ez : a ++ c :: r' = (a ++ [c]) ++ r') by by rewrite <- app_assoc.
    assert (Ed : drop (S (length a)) (a ++ c :: r') = r')
      by (rewrite Ez; apply drop_app_length'; rewrite length_app; simpl; lia).
    assert (Et : take (S (length a)) (a ++ c :: r') = a ++ [c])
      by (rewrite Ez; apply take_app_length'; rewrite length_app; simpl; lia).
    rewrite Ed, Et, take_app_length, (IH r') by (done || lia).
    change ((c :: r') ≫= encode zNL zCR) with (encode zNL zCR c ++ (r' ≫= encode zNL zCR)).
    rewrite double_quotes_app.
    destruct (Ascii.eqb_spec c QUOT) as [->|Hq]; [by rewrite <- app_assoc|].
    rewrite (ceq_neq c NUL Hc0). f_equal. f_equal. unfold encode.
    destruct (Ascii.eqb_spec c NL); [by rewrite no_quote_doubled|].
    destruct (Ascii.eqb_spec c CR); [by rewrite no_quote_doubled|]. exfalso.
    unfold plain_char in Hc. rewrite !ceq_neq in Hc by done. done.
Qed.

(** The literal of [z]. *)
Definition has (c : ascii) (z : text) : bool := existsb (ceq c) z.

Definition call_tail (p : text) (n : text) : text := str "," ++ quoted QUOT p ++ str ",char(" ++ n ++ str "))".

Definition string_literal (z zNL zCR : text) : text :=
  (if has NL z then str "replace(" else []) ++ (if has CR z then str "replace(" else [])
  ++ quoted QUOT (z ≫= encode zNL zCR)
  ++ (if has CR z then call_tail zCR (str "13") else [])
  ++ (if has NL z then call_tail zNL (str "10") else []).

(** The strings chosen for newlines, where [z] has them. *)
Definition chosen (z zNL zCR : text) : Prop :=
  (has NL z = true → zNL_choice zNL ∧ strstr z zNL = false) ∧
  (has CR z = true → zCR_choice zCR ∧ strstr z zCR = false).

Lemma has_not c z : has c z = false → Forall (λ d, d ≠ c) z.
Proof.
  intros H. apply list.Forall_forall. intros d Hd ->.
  assert (E : has c z = true); [|congruence].
  apply existsb_exists. exists c. split; [by apply list_elem_of_In|apply ceq_refl].
Qed.

(** Decoding the carriage returns, then the newlines, gives [z] back. *)
Lemma decode_CR z zNL zCR : chosen z zNL zCR → has CR z = true →
  replaceFunc (z ≫= encode zNL zCR) zCR [CR] = z ≫= encode zNL [CR].
Proof.
  intros [HNL HCR] Hc. destruct (HCR Hc) as [Hch Hs].
  destruct (choice_chars zCR (or_intror Hch)) as (Hne & _ & _).
  unfold replaceFunc. destruct (nonempty_cons zCR Hne) as (a & q & E).
  assert (Em : ∀ (X Y : text), match zCR with [] => X | _ => Y end = Y) by by rewrite E.
  rewrite Em, (replace_decodes (encode zNL zCR) zCR [CR] CR Hne eq_refl (cr_choice_self _ Hch)); [| |done].
  - apply list_bind_ext; [|done]. intros c. unfold encode. destruct (Ascii.eqb_spec c CR) as [->|]; [done|].
    by destruct (ceq c NL).
  - apply list.Forall_forall. intros c Hin. unfold encodes, encode.
    destruct (Ascii.eqb_spec c NL) as [->|].
    + right. right. assert (Hn : has NL z = true).
      { apply existsb_exists. exists NL. split; [by apply list_elem_of_In|apply ceq_refl]. }
      destruct (HNL Hn) as [Hn1 _]. split; [by apply cr_nl_inner|by apply cr_nl_overlap].
    + destruct (Ascii.eqb_spec c CR) as [->|]; [by left|by right; left].
Qed.

Lemma encode_self z zNL : has NL z = false → z ≫= encode zNL [CR] = z.
Proof.
  intros H%has_not. induction H as [|c z Hc Hz IH]; [done|].
  change ((c :: z) ≫= encode zNL [CR]) with (encode zNL [CR] c ++ (z ≫= encode zNL [CR])).
  rewrite IH. unfold encode. rewrite (ceq_neq c NL Hc). by destruct (Ascii.eqb_spec c CR) as [->|].
Qed.

Lemma bind_singleton (z : text) : z ≫= (λ c, [c]) = z.
Proof. induction z as [|c z IH]; [done|]. cbn. f_equal. exact IH. Qed.

Lemma decode_NL z zNL zCR : chosen z zNL zCR → has NL z = true →
  replaceFunc (z ≫= encode zNL [CR]) zNL [NL] = z.
Proof.
  intros [HNL _] Hn. destruct (HNL Hn) as [Hch Hs].
  destruct (choice_chars zNL (or_introl Hch)) as (Hne & _ & _).
  unfold replaceFunc. destruct (nonempty_cons zNL Hne) as (a & q & E).
  assert (Em : ∀ (X Y : text), match zNL with [] => X | _ => Y end = Y) by by rewrite E.
  rewrite Em, (replace_decodes (encode zNL [CR]) zNL [NL] NL Hne eq_refl (nl_choice_self _ Hch)); [| |done].
  - etrans; [|apply bind_singleton]. apply list_bind_ext; [|done]. intros c. unfold encode.
    destruct (Ascii.eqb_spec c NL) as [->|]; [done|]. by destruct (Ascii.eqb_spec c CR) as [->|].
  - apply list.Forall_forall. intros c _. unfold encodes, encode.
    destruct (Ascii.eqb_spec c NL) as [->|]; [by left|].
    by destruct (Ascii.eqb_spec c CR) as [->|]; right; left.
Qed.

Lemma encode_no_CR z zNL zCR : has CR z = false → z ≫= encode zNL zCR = z ≫= encode zNL [CR].
Proof.
  intros H%has_not. induction H as [|c z Hc Hz IH]; [done|].
  change ((c :: z) ≫= encode zNL zCR) with (encode zNL zCR c ++ (z ≫= encode zNL zCR)).
  change ((c :: z) ≫= encode zNL [CR]) with (encode zNL [CR] c ++ (z ≫= encode zNL [CR])).
  rewrite IH. unfold encode. by rewrite (ceq_neq c CR Hc).
Qed.

(** *** Tokens of the literal *)

Definition tail_tokens (p n : text) : list (token * text) :=
  [(TK_COMMA, str ","); (TK_STRING, quoted QUOT p); (TK_COMMA, str ","); (TK_ID, str "char");
   (TK_LP, str "("); (TK_INTEGER, n); (TK_RP, str ")"); (TK_RP, str ")")].

Definition open_tokens : list (token * text) := [(TK_KEYWORD 121, str "replace"); (TK_LP, str "(")].

Definition string_tokens (z zNL zCR : text) : list (token * text) :=
  (if has NL z then open_tokens else []) ++ (if has CR z then open_tokens else [])
  ++ [(TK_STRING, quoted QUOT (z ≫= encode zNL zCR))]
  ++ (if has CR z then tail_tokens zCR (str "13") else [])
  ++ (if has NL z then tail_tokens zNL (str "10") else []).

Lemma lexes_replace r ts : lexes r ts → lexes (str "replace(" ++ r) (open_tokens ++ ts).
Proof.
  intros H. apply (lexes_tok (str "replace") ("("%char :: r)); [done|done|reflexivity|done|].
  by apply lexes_punct.
Qed.

Lemma plain_char_name : plain_name (str "char").
Proof. constructor; try done; [vm_compute; set_solver|by repeat constructor]. Qed.

Lemma lexes_call_tail p n r ts : Forall (λ c, c ≠ NUL) p → n = str "13" ∨ n = str "10" → lexes r ts →
  lexes (call_tail p n ++ r) (tail_tokens p n ++ ts).
Proof.
  intros Hp Hn H. unfold call_tail, tail_tokens. rewrite <- !app_assoc.
  apply lexes_punct; [done|]. change (str ",char(" ++ n ++ str "))" ++ r)
    with (","%char :: str "char" ++ "("%char :: n ++ ")"%char :: ")"%char :: r).
  apply (lexes_quoted QUOT p _ _ (or_introl eq_refl) Hp); [done|].
  apply lexes_punct; [done|]. apply lexes_name; [apply plain_char_name|done|].
  apply lexes_punct; [done|]. apply lexes_tok; [by destruct Hn; subst|by destruct Hn; subst| |done|].
  - apply digits_token; [by destruct Hn; subst|destruct Hn; subst; by repeat constructor|done].
  - apply lexes_punct; [done|]. by apply lexes_punct.
Qed.

Lemma encode_no_NUL z zNL zCR : chosen z zNL zCR → Forall (λ c, c ≠ NUL) z →
  Forall (λ c, c ≠ NUL) (z ≫= encode zNL zCR).
Proof.
  intros [HNL HCR] Hz. apply Forall_bind. apply list.Forall_forall. intros c Hc.
  change (Forall (λ d, d ≠ NUL) (encode zNL zCR c)). unfold encode.
  destruct (Ascii.eqb_spec c NL) as [->|].
  { apply (choice_chars zNL). left. apply HNL. apply existsb_exists. exists NL.
    split; [by apply list_elem_of_In|apply ceq_refl]. }
  destruct (Ascii.eqb_spec c CR) as [->|].
  { apply (choice_chars zCR). right. apply HCR. apply existsb_exists. exists CR.
    split; [by apply list_elem_of_In|apply ceq_refl]. }
  repeat constructor. rewrite list.Forall_forall in Hz. by apply Hz.
Qed.

Lemma lexes_string_literal z zNL zCR r ts : chosen z zNL zCR → Forall (λ c, c ≠ NUL) z →
  delim (at_ r 0) = true → lexes r ts →
  lexes (string_literal z zNL zCR ++ r) (string_tokens z zNL zCR ++ ts).
Proof.
  intros Hch Hz Hr H. pose proof (encode_no_NUL z zNL zCR Hch Hz) as He. destruct Hch as [HNL HCR].
  unfold string_literal, string_tokens. rewrite <- !app_assoc.
  assert (H1 : lexes ((if has NL z then call_tail zNL (str "10") else []) ++ r)
                     ((if has NL z then tail_tokens zNL (str "10") else []) ++ ts)).
  { destruct (has NL z); [|done]. apply lexes_call_tail; [|by right|done].
    apply (choice_chars zNL). left. by apply HNL. }
  assert (D1 : delim (at_ ((if has NL z then call_tail zNL (str "10") else []) ++ r) 0) = true)
    by (by destruct (has NL z)).
  assert (H2 : lexes ((if has CR z then call_tail zCR (str "13") else []) ++ (if has NL z then call_tail zNL (str "10") else []) ++ r)
                     ((if has CR z then tail_tokens zCR (str "13") else []) ++ (if has NL z then tail_tokens zNL (str "10") else []) ++ ts)).
  { destruct (has CR z); [|done]. apply lexes_call_tail; [|by left|done].
    apply (choice_chars zCR). right. by apply HCR. }
  assert (D2 : delim (at_ ((if has CR z then call_tail zCR (str "13") else []) ++ (if has NL z then call_tail zNL (str "10") else []) ++ r) 0) = true)
    by (by destruct (has CR z)).
  assert (H3 := lexes_quoted QUOT _ _ _ (or_introl eq_refl) He (proj1 (delim_quote _ D2)) H2).
  assert (H4 := lexes_replace _ _ H3).
  destruct (has CR z), (has NL z); [apply lexes_replace|..]; first [exact H4|exact H3].
Qed.

(** *** The value of the literal *)

Section Reading.
Context (AtoF : text → Z) (float_neg : Z → Z).
Abbreviation read := (read_expr AtoF float_neg).

Lemma read_string f z ts : read (S f) ((TK_STRING, quoted QUOT z) :: ts) = Some (VText z, ts).
Proof. cbn [read_expr]. by rewrite dequote_quoted by by left. Qed.

(** [replace(e, 'p', char(n))] *)
Lemma read_replace f es s p n c ts : (2 <= f)%nat → n = str "13" ∧ c = CR ∨ n = str "10" ∧ c = NL →
  (∀ ts', read f (es ++ ts') = Some (VText s, ts')) →
  read (S f) (open_tokens ++ es ++ tail_tokens p n ++ ts) = Some (VText (replaceFunc s p [c]), ts).
Proof.
  intros Hf Hn He. unfold open_tokens, tail_tokens. cbn [app read_expr]. rewrite He.
  destruct f as [|[|f]]; [lia|lia|]. rewrite read_string.
  by destruct Hn as [[-> ->]|[-> ->]].
Qed.

Lemma read_string_tokens f z zNL zCR ts : chosen z zNL zCR →
  (length (string_tokens z zNL zCR) <= f)%nat →
  read f (string_tokens z zNL zCR ++ ts) = Some (VText z, ts).
Proof.
  intros Hch Hf. unfold string_tokens in *.
  pose proof (decode_CR z zNL zCR Hch) as Hcr. pose proof (decode_NL z zNL zCR Hch) as Hnl.
  pose proof (encode_self z zNL) as Hs. pose proof (encode_no_CR z zNL zCR) as Hnc.
  set (inner := [(TK_STRING, quoted QUOT (z ≫= encode zNL zCR))]) in *.
  assert (Hin : ∀ g ts', (1 <= g)%nat → read g (inner ++ ts') = Some (VText (z ≫= encode zNL zCR), ts'))
    by (intros [|g] ts' Hg; [lia|apply read_string]).
  set (es := (if has CR z then open_tokens else []) ++ inner
             ++ (if has CR z then tail_tokens zCR (str "13") else [])) in *.
  assert (Hmid : ∀ g ts', (1 <= g)%nat → (has CR z = true → (4 <= g)%nat) →
    read g (es ++ ts') = Some (VText (z ≫= encode zNL [CR]), ts')).
  { intros g ts' Hg1 Hg. unfold es. rewrite <- !app_assoc. destruct (has CR z) eqn:Ec.
    - specialize (Hg eq_refl). destruct g as [|g]; [lia|].
      rewrite (read_replace g inner (z ≫= encode zNL zCR) zCR (str "13") CR); [|lia|by left|].
      + by rewrite Hcr.
      + intros ts''. apply Hin. lia.
    - rewrite <- Hnc by done. apply (Hin g ts'). lia. }
  rewrite (app_assoc inner), (app_assoc (if has CR z then open_tokens else [])) in Hf |- *. fold es in Hf |- *.
  assert (Hl : (1 <= length es)%nat ∧ (has CR z = true → (4 <= length es)%nat))
    by (unfold es; split; [|intros ->]; rewrite !length_app; simpl; lia).
  destruct (has NL z) eqn:En.
  - rewrite !length_app in Hf. simpl in Hf. destruct f as [|f]; [lia|].
    assert (Hg : has CR z = true → (4 <= f)%nat) by (intros H; apply Hl in H; lia).
    pose proof (read_replace f es _ zNL (str "10") NL ts ltac:(lia) (or_intror (conj eq_refl eq_refl))
                  (λ ts', Hmid f ts' ltac:(lia) Hg)) as Hr.
    rewrite Hnl in Hr by done. rewrite <- Hr. by rewrite <- !app_assoc.
  - rewrite !app_nil_l, app_nil_r in *. rewrite Hmid; [by rewrite Hs|lia|intros H; apply Hl in H; lia].
Qed.
End Reading.

(** ** What is written *)

Definition add_out (s : DState) (t : text) : DState :=
  mkDState (nErr s) (rc s) (writableSchema s) (out s ++ t).

(** [m] writes [t] and does nothing else. *)
Definition emits (m : D unit) (t : text) : Prop := ∀ s, m s = (Ok (), add_out s t).

Lemma add_out_app s a b : add_out (add_out s a) b = add_out s (a ++ b).
Proof. unfold add_out. simpl. by rewrite app_assoc. Qed.

Lemma add_out_nil s : add_out s [] = s.
Proof. unfold add_out. rewrite app_nil_r. by destruct s. Qed.

Lemma emits_callback t : emits (xCallback t) t.
Proof. done. Qed.

Lemma emits_ret : emits (mret ()) [].
Proof. intros s. by rewrite add_out_nil. Qed.

Lemma emits_bind m k a b : emits m a → emits k b → emits (_ ← m; k) (a ++ b).
Proof. intros Hm Hk s. rewrite (bind_ok _ _ _ _ _ (Hm s)), (Hk _). by rewrite add_out_app. Qed.

Lemma emits_when (b : bool) m t : (b = true → emits m t) → emits (when b m) (if b then t else []).
Proof. intros H. destruct b; [by apply H|apply emits_ret]. Qed.

Lemma emits_lift {A} (r : result A) a (k : A → D unit) t : r = Ok a → emits (k a) t →
  emits (x ← lift_r r; k x) t.
Proof. intros -> Hk s. apply Hk. Qed.

Lemma emits_for_each {A} (f : A → D unit) (g : A → text) l : Forall (λ x, emits (f x) (g x)) l →
  emits (for_each f l) (l ≫= g).
Proof.
  intros H. induction H as [|x l Hx _ IH]; [apply emits_ret|]. by apply emits_bind.
Qed.

Lemma all_plain z : Forall (λ c, plain_char c = true) z → has NL z = false ∧ has CR z = false.
Proof.
  intros Hz. unfold has. induction Hz as [|c z Hc Hz [IH1 IH2]]; [done|]. simpl.
  destruct (plain_char_facts c Hc) as (_ & H1 & H2 & _). rewrite IH1, IH2, !orb_false_r.
  rewrite Ascii.eqb_sym in H1. by rewrite Ascii.eqb_sym in H2.
Qed.

(** [output_quoted_escaped_string] writes a literal of its argument. *)
Lemma output_string_emits z : Forall (λ c, c ≠ NUL) z → Z.of_nat (length z) < 2 ^ 31 →
  ∃ zNL zCR, chosen z zNL zCR ∧ emits (output_quoted_escaped_string z) (string_literal z zNL zCR).
Proof.
  intros Hz Hl. unfold output_quoted_escaped_string, string_literal.
  destruct (Ascii.eqb_spec (at_ z (count_while plain_char z)) NUL) as [E|E].
  - exists [], []. destruct (split_plain z) as (a & r & -> & Ha & Hn & Hr).
    rewrite Hn, at_app_r in E. destruct Hr as [->|(c & r' & -> & Hc)].
    2: { apply list.Forall_app in Hz as [_ Hz]. by apply list.Forall_cons in Hz as [? _]. }
    rewrite app_nil_r. destruct (all_plain a Ha) as [Hnl Hcr]. rewrite Hnl, Hcr.
    split; [unfold chosen; rewrite Hnl, Hcr; by split|].
    unfold quoted. rewrite (encode_plain _ _ a Ha). rewrite !app_nil_r. apply emits_callback.
  - clear E. fold (has NL z). fold (has CR z).
    assert (Hnl : ∃ zNL, (if has NL z then unused_string z (str "\n") (str "\012") else Ok []) = Ok zNL ∧
              (has NL z = true → zNL_choice zNL ∧ strstr z zNL = false) ∧ Forall (λ c, c ≠ QUOT) zNL).
    { destruct (has NL z); [|by exists []].
      destruct (unused_string_ends z (str "\n") (str "\012") eq_refl Hl) as (p & Ep & Hs & Hc).
      exists p. split_and!; [done|done|]. by apply (choice_chars p); left. }
    assert (Hcr : ∃ zCR, (if has CR z then unused_string z (str "\r") (str "\015") else Ok []) = Ok zCR ∧
              (has CR z = true → zCR_choice zCR ∧ strstr z zCR = false) ∧ Forall (λ c, c ≠ QUOT) zCR).
    { destruct (has CR z); [|by exists []].
      destruct (unused_string_ends z (str "\r") (str "\015") eq_refl Hl) as (p & Ep & Hs & Hc).
      exists p. split_and!; [done|done|]. by apply (choice_chars p); right. }
    destruct Hnl as (zNL & ENL & CNL & QNL). destruct Hcr as (zCR & ECR & CCR & QCR).
    exists zNL, zCR. split; [by split|].
    assert (Htail : ∀ p n, Forall (λ c, c ≠ QUOT) p →
      call_tail p n = str ",'" ++ p ++ str "',char(" ++ n ++ str "))").
    { intros p n Hp. unfold call_tail, quoted. rewrite (no_quote_doubled p Hp).
      simpl. by rewrite <- app_assoc. }
    rewrite (Htail zCR (str "13") QCR), (Htail zNL (str "10") QNL).
    assert (Hq : ∀ b r, quoted QUOT b ++ r = str "'" ++ double_quotes QUOT b ++ str "'" ++ r).
    { intros b r. unfold quoted. simpl. by rewrite <- app_assoc. }
    rewrite Hq.
    apply emits_bind; [by apply emits_when|]. apply (emits_lift _ zNL); [done|].
    apply emits_bind; [by apply emits_when|]. apply (emits_lift _ zCR); [done|].
    apply emits_bind; [apply emits_callback|].
    apply emits_bind; [|apply emits_bind; [apply emits_callback|]].
    { rewrite escape_loop_encodes by (done || lia). apply emits_callback. }
    apply emits_bind; by apply emits_when.
Qed.

(** ** Literals of values *)

Section Values.
Context (fmt_float : Z → text) (AtoF : text → Z) (float_neg : Z → Z).
Abbreviation read := (read_expr AtoF float_neg).
Abbreviation output := (output_value fmt_float).

(** [t] is written for [v] and is read back as [v], through the tokens [ts]. *)
Record literal (v : value) (t : text) (ts : list (token * text)) : Prop := {
  lit_out : emits (output v) t;
  lit_lex : ∀ r ts', delim (at_ r 0) = true → lexes r ts' → lexes (t ++ r) (ts ++ ts');
  lit_read : ∀ f ts', (length ts <= f)%nat → read f (ts ++ ts') = Some (v, ts');
  lit_nonempty : ts ≠ []
}.

(** The text of a double, and that it is read back: its digits with a point,
    or the literal of an infinity. *)
Definition float_text (b : Z) : text :=
  if b =? POS_INFINITY then str "1e999" else if b =? NEG_INFINITY then str "-1e999" else fmt_float b.

Definition float_reads (b : Z) : Prop :=
  ∃ neg s, float_text b = (if neg : bool then str "-" else []) ++ s ∧ (float_shape s ∨ s = str "1e999") ∧
    codeReal AtoF float_neg s neg = VFloat b.

(** Values that a dump keeps. *)
Definition value_ok (v : value) : Prop :=
  match v with
  | VNull => True
  | VInteger i => in_s 64 i
  | VFloat b => float_reads b
  | VText t => Forall (λ c, c ≠ NUL) t ∧ Z.of_nat (length t) < 2 ^ 31
  | VBlob _ => True
  end.

Lemma literal_null : literal VNull (str "NULL") [(TK_KEYWORD 39, str "NULL")].
Proof.
  constructor; [done| |by intros [|f] ts' Hf; [simpl in Hf; lia|]|done].
  intros r ts' Hr Hts. apply lexes_tok; [done|done| |done|done].
  change (str "NULL" ++ r) with ("N"%char :: "U"%char :: str "LL" ++ r). set (z := "N"%char :: _).
  unfold sqlite3GetToken. change (aiClass (at_ z 0)) with 1. cbn iota.
  change (2 <? aiClass (at_ z 1)) with false. cbn iota.
  change (drop 2 z) with (str "LL" ++ r).
  rewrite count_while_app by (by repeat constructor || by apply delim_kywd).
  change (S (S (length (str "LL")))) with (length (str "NULL")). change z with (str "NULL" ++ r).
  rewrite at_app_r, (delim_IdChar _ Hr), take_app_length. done.
Qed.

Lemma literal_integer i : in_s 64 i → literal (VInteger i) (fmt_lld i) (int_tokens i).
Proof.
  intros [H1 H2]. change (2 ^ (64 - 1)) with (2 ^ 63) in *. constructor; [done| | |].
  - intros r ts' Hr Hts. by apply lexes_lld.
  - intros [|f] ts' Hf; [unfold int_tokens in Hf; destruct (i <? 0); simpl in Hf; lia|].
    unfold int_tokens. destruct (Z.ltb_spec i 0).
    + cbn [app read_expr]. rewrite codeInteger_digits by (lia || done). simpl. by rewrite Z.opp_involutive.
    + cbn [app read_expr]. destruct (Z.eq_dec i 0) as [->|].
      { by change (codeInteger AtoF float_neg (dec_digits 20 0) false) with (Some (VInteger 0)). }
      by rewrite codeInteger_digits by lia.
  - unfold int_tokens. by destruct (i <? 0).
Qed.

Lemma float_head s : float_shape s ∨ s = str "1e999" → ∀ r, is_dec (at_ (s ++ r) 0) = true.
Proof.
  intros [(a & b & e & -> & Hne & Ha & _)| ->] r; [|done].
  destruct Ha as [|c a Hc _]; [done|]. exact Hc.
Qed.

Lemma literal_float b : float_reads b → ∃ ts, literal (VFloat b) (float_text b) ts.
Proof.
  intros (neg & s & Et & Hs & Hv). exists ((if neg then [(TK_MINUS, str "-")] else []) ++ [(TK_FLOAT, s)]).
  constructor; [done| | |by destruct neg].
  - intros r ts' Hr Hts. rewrite Et, <- !app_assoc.
    assert (H : lexes (s ++ r) ([(TK_FLOAT, s)] ++ ts'))
      by (destruct Hs as [Hs| ->]; [by apply lexes_float|by apply lexes_1e999]).
    destruct neg; [|exact H]. apply lexes_minus; [|exact H]. by rewrite (float_head s Hs).
  - intros [|f] ts' Hf; [rewrite length_app in Hf; destruct neg; simpl in Hf; lia|].
    destruct neg; cbn [app read_expr]; by rewrite Hv.
Qed.

Lemma literal_blob b : literal (VBlob b) (blob_literal b) [(TK_BLOB, blob_literal b)].
Proof.
  constructor; [| | |done].
  - change (blob_literal b) with (str "x'" ++ blob_hex b ++ str "'").
    apply emits_bind; [apply emits_callback|]. apply emits_bind; [|apply emits_callback].
    apply emits_for_each. by apply list.Forall_forall.
  - intros r ts' _ Hts. by apply lexes_blob.
  - intros [|f] ts' Hf; [simpl in Hf; lia|]. cbn [app read_expr]. by rewrite blob_literal_read.
Qed.

Lemma literal_exists v : value_ok v → ∃ t ts, literal v t ts.
Proof.
  destruct v as [|i|b|t|b]; intros Hv.
  - eexists _, _. apply literal_null.
  - eexists _, _. by apply literal_integer.
  - destruct (literal_float b Hv) as [ts H]. by eauto.
  - destruct Hv as [Hz Hl]. destruct (output_string_emits t Hz Hl) as (zNL & zCR & Hch & Hem).
    exists (string_literal t zNL zCR), (string_tokens t zNL zCR). constructor.
    + unfold output_value. by rewrite cstr_id.
    + intros r ts' Hr Hts. by apply lexes_string_literal.
    + intros f ts' Hf. by apply read_string_tokens.
    + unfold string_tokens. by destruct (has NL t), (has CR t).
  - eexists _, _. apply literal_blob.
Qed.

(** ** Rows *)

(** Texts or tokens separated by commas. *)
Fixpoint sep {A} (comma : list A) (l : list (list A)) : list A :=
  match l with
  | [] => []
  | x :: l' => match l' with [] => x | _ => x ++ comma ++ sep comma l' end
  end.

Lemma sep_cons {A} (comma x : list A) l : l ≠ [] → sep comma (x :: l) = x ++ comma ++ sep comma l.
Proof. by destruct l. Qed.

Abbreviation sep_text := (sep (str ",")).
Abbreviation sep_tokens := (sep [(TK_COMMA, str ",")]).

Lemma output_columns_emits vs lits done_ :
  Forall2 (λ v '(t, ts), literal v t ts) vs lits → lits ≠ [] →
  emits (output_columns fmt_float (length done_) (done_ ++ vs) (length vs))
        ((if (0 <? length done_)%nat then str "," else []) ++ sep_text (fst <$> lits)).
Proof.
  intros H. revert done_. induction H as [|v [t ts] vs lits Hv H IH]; intros done_ Hne; [done|].
  cbn [length output_columns]. rewrite lookup_app_r, Nat.sub_diag by lia.
  change (default VNull ((v :: vs) !! 0%nat)) with v.
  specialize (IH (done_ ++ [v])). rewrite <- app_assoc in IH. rewrite length_app, Nat.add_1_r in IH.
  destruct lits as [|[t2 ts2] lits].
  - inversion H; subst. cbn [fmap list_fmap sep fst]. rewrite <- (app_nil_r t).
    apply emits_bind; [by apply emits_when|]. apply emits_bind; [apply Hv|apply emits_ret].
  - assert (Esep : sep_text (fst <$> ((t, ts) :: (t2, ts2) :: lits))
                   = t ++ str "," ++ sep_text (fst <$> ((t2, ts2) :: lits))) by done.
    rewrite Esep. apply emits_bind; [by apply emits_when|]. apply emits_bind; [apply Hv|].
    specialize (IH ltac:(done)). exact IH.
Qed.

Lemma lexes_sep vs lits r ts' : Forall2 (λ v '(t, ts), literal v t ts) vs lits → lits ≠ [] →
  delim (at_ r 0) = true → lexes r ts' →
  lexes (sep_text (fst <$> lits) ++ r) (sep_tokens (snd <$> lits) ++ ts').
Proof.
  intros H Hne Hr Hts. induction H as [|v [t ts] vs lits Hv H IH]; [done|].
  destruct lits as [|[t2 ts2] lits]; [by apply (lit_lex _ _ _ Hv)|].
  change (sep_text (fst <$> ((t, ts) :: (t2, ts2) :: lits)))
    with (t ++ str "," ++ sep_text (fst <$> ((t2, ts2) :: lits))).
  change (sep_tokens (snd <$> ((t, ts) :: (t2, ts2) :: lits)))
    with (ts ++ [(TK_COMMA, str ",")] ++ sep_tokens (snd <$> ((t2, ts2) :: lits))).
  rewrite <- !app_assoc. apply (lit_lex _ _ _ Hv); [done|]. apply lexes_punct; [done|]. by apply IH.
Qed.

Lemma read_exprs_sep vs lits f rest : Forall2 (λ v '(t, ts), literal v t ts) vs lits → lits ≠ [] →
  (length (sep_tokens (snd <$> lits)) < f)%nat →
  read_exprs AtoF float_neg f (sep_tokens (snd <$> lits) ++ (TK_RP, str ")") :: rest) = Some (vs, rest).
Proof.
  intros H. revert f. induction H as [|v [t ts] vs lits Hv H IH]; intros f Hne Hf; [done|].
  destruct f as [|f]; [lia|]. destruct lits as [|[t2 ts2] lits].
  - inversion H; subst. change (sep_tokens (snd <$> [(t, ts)])) with ts in *. cbn [read_exprs]. by rewrite (lit_read _ _ _ Hv) by lia.
  - change (sep_tokens (snd <$> ((t, ts) :: (t2, ts2) :: lits)))
      with (ts ++ [(TK_COMMA, str ",")] ++ sep_tokens (snd <$> ((t2, ts2) :: lits))) in *.
    rewrite !length_app in Hf. cbn [length] in Hf. rewrite <- !app_assoc. cbn [read_exprs].
    rewrite (lit_read _ _ _ Hv) by lia. cbn [app]. rewrite IH; [done|done|].
    assert (1 <= length ts)%nat by (pose proof (lit_nonempty _ _ _ Hv); destruct ts; [done|simpl; lia]). lia.
Qed.
End Values.

(** ** Names *)

Section Names.
Context (hi_alpha hi_alnum : ascii → bool).
Abbreviation quoteChar := (quoteChar hi_alpha hi_alnum).

(** A name as the dump writes it. *)
Definition written (s : text) : text := quote_with (quoteChar s) s.

(** A name is a C string, and no byte order mark, which SQLite skips. *)
Definition name_ok (s : text) : Prop :=
  Forall (λ c, c ≠ NUL) s ∧ take 3 s ≠ [chr 239; chr 187; chr 191].

Lemma high_IdChar c : 128 <= code c → IdChar c = true ∧ (aiClass c = 27 ∨ aiClass c = 30).
Proof. by_char c; tauto. Qed.

Lemma letter_class c : is_letter (code c) = true ∨ c = "_"%char → IdChar c = true ∧ aiClass c ∈ [0; 1; 2].
Proof.
  intros H. assert (E : (is_letter (code c) || ceq c "_") = true).
  { apply orb_true_iff. destruct H as [->| ->]; [by left|by right]. }
  revert E. clear. destruct c as [[] [] [] [] [] [] [] []]; vm_compute; intros E; try done;
    split; try done; repeat (apply elem_of_cons; (by left) || right); done.
Qed.

Lemma alnum_IdChar c : isalnum hi_alnum c = true ∨ c = "_"%char → IdChar c = true.
Proof.
  unfold isalnum. intros [H|H]; [|by apply letter_class; right].
  destruct (Z.ltb_spec (code c) 128); [|by apply high_IdChar].
  apply orb_true_iff in H as [H|H]; [by apply letter_class; left|]. by apply is_dec_facts.
Qed.

Lemma alpha_class c : isalpha hi_alpha c = true ∨ c = "_"%char → aiClass c ∈ [0; 1; 2; 27; 30].
Proof.
  unfold isalpha. intros H. assert (Hc : aiClass c ∈ [0; 1; 2] ∨ aiClass c = 27 ∨ aiClass c = 30).
  { destruct H as [H|H]; [|left; by apply letter_class; right].
    destruct (Z.ltb_spec (code c) 128); [left; by apply letter_class; left|right; by apply high_IdChar]. }
  change [0; 1; 2; 27; 30] with ([0; 1; 2] ++ [27; 30]). apply elem_of_app.
  destruct Hc as [Hc|[->| ->]]; [by left|right; by apply elem_of_cons; left|].
  right. apply elem_of_cons. right. by apply elem_of_cons; left.
Qed.

Lemma quoteChar_cases s : quoteChar s = DQUOT ∨
  (quoteChar s = NUL ∧ (isalpha hi_alpha (at_ s 0) = true ∨ at_ s 0 = "_"%char) ∧
   Forall (λ c, isalnum hi_alnum c = true ∨ c = "_"%char) s ∧ sqlite3_keyword_check s = false).
Proof.
  unfold Dump.quoteChar.
  destruct (isalpha hi_alpha (at_ s 0)) eqn:E1, (Ascii.eqb_spec (at_ s 0) "_") as [E2|E2];
    cbn [negb andb]; try (by left).
  all: destruct (existsb _ s) eqn:Ex; [by left|];
    destruct (sqlite3_keyword_check s) eqn:Ek; [by left|]; right; split_and!; try done; try tauto.
  all: apply list.Forall_forall; intros c Hc;
    destruct (isalnum hi_alnum c) eqn:Ea; [by left|];
    destruct (Ascii.eqb_spec c "_"); [by right|]; exfalso;
    assert (Ht : existsb (λ c, negb (isalnum hi_alnum c) && negb (ceq c "_")) s = true);
    [apply existsb_exists; exists c; split; [by apply list_elem_of_In|rewrite Ea, ceq_neq; done]|congruence].
Qed.

Lemma unquoted_plain s : name_ok s → quoteChar s = NUL → plain_name s.
Proof.
  intros [_ Hb] Hq. destruct (quoteChar_cases s) as [E|(_ & Hh & Hc & Hk)]; [rewrite E in Hq; done|].
  constructor; [by apply alpha_class| |done|done].
  eapply Forall_impl; [|exact Hc]. intros c. apply alnum_IdChar.
Qed.

(** Reading a written name gives the name. *)
Lemma lexes_written s r ts : name_ok s → delim (at_ r 0) = true → lexes r ts →
  lexes (written s ++ r) ((TK_ID, written s) :: ts).
Proof.
  intros Hs Hr Ht. unfold written, quote_with. destruct (quoteChar_cases s) as [E|(E & _)]; rewrite E.
  - change (ceq DQUOT NUL) with false. cbn iota.
    apply (lexes_quoted DQUOT s r ts (or_intror eq_refl) (proj1 Hs) (proj2 (delim_quote _ Hr)) Ht).
  - rewrite ceq_refl. apply lexes_name; [by apply unquoted_plain|done|done].
Qed.

Lemma dequote_written s : name_ok s → sqlite3Dequote (written s) = s.
Proof.
  intros Hs. unfold written, quote_with. destruct (quoteChar_cases s) as [E|(E & _)]; rewrite E.
  - apply dequote_quoted. by right.
  - rewrite ceq_refl. by apply dequote_plain, unquoted_plain.
Qed.

Lemma written_head s r : name_ok s → sqlite3Isspace (at_ (written s ++ r) 0) = false.
Proof.
  intros Hs. unfold written, quote_with. destruct (quoteChar_cases s) as [E|(E & Hh & _)]; rewrite E; [done|].
  rewrite ceq_refl. destruct (plain_name_nonempty s (unquoted_plain s Hs E)) as (c & s' & ->).
  change (at_ (c :: s') 0) with c in Hh. change (at_ ((c :: s') ++ r) 0) with c.
  apply alpha_class in Hh. clear -Hh. revert Hh.
  destruct c as [[] [] [] [] [] [] [] []]; intros Hh; try done; vm_compute in Hh; exfalso;
    repeat (apply elem_of_cons in Hh as [Hh|Hh]; [done|]); by apply not_elem_of_nil in Hh.
Qed.

(** ** Statements *)

Lemma lexes_blank c r ts : c = " "%char ∨ c = NL → sqlite3Isspace (at_ r 0) = false → lexes r ts →
  lexes (c :: r) ts.
Proof.
  intros Hc Hr Ht. apply (lexes_space [c]); [done|by destruct Hc; subst| |done].
  unfold sqlite3GetToken. change (at_ ([c] ++ r) 0) with c.
  replace (aiClass c) with 7 by (destruct Hc; by subst). cbn iota.
  change (drop 1 ([c] ++ r)) with ([] ++ r). by rewrite count_while_app.
Qed.

(** A keyword and the space behind it. *)
Lemma lexes_keyword k i r ts : sqlite3GetToken (k ++ " "%char :: r) = (length k, TK_KEYWORD i) →
  k ≠ [] → at_ k 0 ≠ NUL → skipped (TK_KEYWORD i) = false → sqlite3Isspace (at_ r 0) = false →
  lexes r ts → lexes (k ++ " "%char :: r) ((TK_KEYWORD i, k) :: ts).
Proof. intros E Hk H0 Hs Hr Ht. apply lexes_tok; [done|done|done|done|]. apply lexes_blank; [by left|done|done]. Qed.

Definition names_tokens (l : list text) : list (token * text) :=
  sep [(TK_COMMA, str ",")] ((λ n, [(TK_ID, n)]) <$> l).

Lemma lexes_names (l : list text) r ts : l ≠ [] →
  Forall (λ n, ∀ r ts, delim (at_ r 0) = true → lexes r ts → lexes (n ++ r) ((TK_ID, n) :: ts)) l →
  delim (at_ r 0) = true → lexes r ts → lexes (sep (str ",") l ++ r) (names_tokens l ++ ts).
Proof.
  intros Hne Hl Hr Ht. induction Hl as [|n l Hn Hl IH]; [done|]. destruct l as [|n2 l]; [by apply Hn|].
  change (sep (str ",") (n :: n2 :: l)) with (n ++ str "," ++ sep (str ",") (n2 :: l)).
  change (names_tokens (n :: n2 :: l))
    with ([(TK_ID, n)] ++ [(TK_COMMA, str ",")] ++ names_tokens (n2 :: l)).
  rewrite <- !app_assoc. apply Hn; [done|]. apply lexes_punct; [done|]. by apply IH.
Qed.

Lemma read_names_sep (l : list text) stop x ts : l ≠ [] → stop ≠ TK_COMMA →
  read_names stop (names_tokens l ++ (stop, x) :: ts) = Some (sqlite3Dequote <$> l, ts).
Proof.
  intros Hne Hs. induction l as [|n l IH]; [done|]. destruct l as [|n2 l].
  - cbn [names_tokens fmap list_fmap sep app read_names]. destruct stop; try done; by rewrite decide_True.
  - change (names_tokens (n :: n2 :: l))
      with ([(TK_ID, n)] ++ [(TK_COMMA, str ",")] ++ names_tokens (n2 :: l)).
    rewrite <- !app_assoc. cbn [app read_names]. by rewrite IH.
Qed.

(** The names a rowid is written with. *)
Lemma rowid_plain r : r ∈ azRowid → plain_name r.
Proof.
  intros Hr. unfold azRowid in Hr. repeat (apply elem_of_cons in Hr as [->|Hr]); [..|by apply not_elem_of_nil in Hr].
  all: constructor; [vm_compute; set_solver|by repeat constructor|done|by vm_compute].
Qed.

(** *** INSERT *)

Abbreviation insert_texts := (insert_texts hi_alpha hi_alnum).

Definition written_columns (rowid : option text) (cols : list text) : list text :=
  match rowid with Some r => r :: (written <$> cols) | None => written <$> cols end.

Definition insert_text (t : text) (rowid : option text) (cols : list text) : text :=
  str "INSERT INTO " ++ written t
  ++ match rowid with
     | Some r => str "(" ++ sep (str ",") (r :: (written <$> cols)) ++ str ")"
     | None => []
     end ++ str " VALUES(".

Lemma quote_with_NUL z : quote_with NUL z = z.
Proof. done. Qed.

Lemma text_built_cons z q l : text_built ((z, q) :: l) = quote_with q z ++ text_built l.
Proof. done. Qed.

Lemma text_built_app a b : text_built (a ++ b) = text_built a ++ text_built b.
Proof. unfold text_built. by rewrite bind_app. Qed.

Lemma built_columns r cols :
  r ++ text_built (cols ≫= λ c, [(str ",", NUL); (c, quoteChar c)]) = sep (str ",") (r :: (written <$> cols)).
Proof.
  revert r. induction cols as [|c cols IH]; intros r; [by rewrite app_nil_r|].
  rewrite (sep_cons (str ",") r) by done. cbn [fmap list_fmap]. rewrite <- IH.
  change ((c :: cols) ≫= λ c, [(str ",", NUL); (c, quoteChar c)])
    with ([(str ",", NUL); (c, quoteChar c)] ++ (cols ≫= λ c, [(str ",", NUL); (c, quoteChar c)])).
  rewrite text_built_app, !text_built_cons, quote_with_NUL. simpl. by rewrite app_nil_r.
Qed.

Lemma insert_texts_built t rowid cols : text_built (insert_texts t rowid cols) = insert_text t rowid cols.
Proof.
  unfold Dump.insert_texts, insert_text. rewrite !text_built_app, !text_built_cons, quote_with_NUL.
  change (text_built []) with (@nil ascii). rewrite !app_nil_r, <- !app_assoc. do 2 f_equal.
  destruct rowid as [r|]; [|done]. rewrite !text_built_app, !text_built_cons, !quote_with_NUL.
  change (text_built []) with (@nil ascii). rewrite !app_nil_r, <- !app_assoc.
  rewrite <- built_columns, <- !app_assoc. done.
Qed.

Definition insert_tokens (t : text) (rowid : option text) (cols : list text) : list (token * text) :=
  [(TK_KEYWORD 84, str "INSERT"); (TK_KEYWORD 51, str "INTO"); (TK_ID, written t)]
  ++ match rowid with
     | Some r => [(TK_LP, str "(")] ++ names_tokens (r :: (written <$> cols)) ++ [(TK_RP, str ")")]
     | None => []
     end ++ [(TK_KEYWORD 94, str "VALUES"); (TK_LP, str "(")].

Lemma rowid_reads r : plain_name r → ∀ x ts, delim (at_ x 0) = true → lexes x ts → lexes (r ++ x) ((TK_ID, r) :: ts).
Proof. intros Hr x ts. by apply lexes_name. Qed.

Lemma columns_read cols : Forall name_ok cols →
  Forall (λ n, ∀ r ts, delim (at_ r 0) = true → lexes r ts → lexes (n ++ r) ((TK_ID, n) :: ts)) (written <$> cols).
Proof.
  intros Hc. apply Forall_fmap. eapply Forall_impl; [|exact Hc]. intros c Hok r ts. by apply lexes_written.
Qed.

Lemma lexes_values r ts : lexes r ts →
  lexes (str " VALUES(" ++ r) ((TK_KEYWORD 94, str "VALUES") :: (TK_LP, str "(") :: ts).
Proof.
  intros Ht. apply (lexes_blank " "%char (str "VALUES(" ++ r)); [by left|done|].
  apply (lexes_tok (str "VALUES") ("("%char :: r)); [done|done|reflexivity|done|]. by apply lexes_punct.
Qed.

Lemma lexes_insert t rowid cols r ts : name_ok t → Forall name_ok cols →
  (∀ x, rowid = Some x → plain_name x) → lexes r ts →
  lexes (insert_text t rowid cols ++ r) (insert_tokens t rowid cols ++ ts).
Proof.
  intros Ht Hc Hr Hts. unfold insert_text, insert_tokens. rewrite <- !app_assoc.
  assert (Hv := lexes_values r ts Hts).
  change (str "INSERT INTO " ++ ?x) with (str "INSERT" ++ " "%char :: str "INTO" ++ " "%char :: x).
  apply lexes_keyword; [reflexivity|done|done|done|done|].
  assert (Hsp : ∀ x, sqlite3Isspace (at_ (written t ++ x) 0) = false) by (intros x; by apply written_head).
  apply lexes_keyword; [reflexivity|done|done|done|apply Hsp|].
  destruct rowid as [x|]; rewrite <- ?app_assoc.
  - apply lexes_written; [done|done|]. apply lexes_punct; [done|].
    apply lexes_names; [done| |done|by apply lexes_punct].
    constructor; [by apply rowid_reads, Hr|by apply columns_read].
  - by apply lexes_written.
Qed.

(** *** SELECT *)

Abbreviation select_texts := (select_texts hi_alpha hi_alnum).

Definition select_text (t : text) (rowid : option text) (cols : list text) : text :=
  str "SELECT " ++ sep (str ",") (written_columns rowid cols) ++ str " FROM " ++ written t.

Lemma built_select_columns cols :
  text_built (select_columns hi_alpha hi_alnum cols) = sep (str ",") (written <$> cols).
Proof.
  induction cols as [|c cols IH]; [done|]. cbn [select_columns]. rewrite text_built_cons.
  destruct cols as [|c2 cols]; [by rewrite app_nil_r|].
  rewrite text_built_cons, quote_with_NUL, IH. done.
Qed.

Lemma select_texts_built t rowid cols : cols ≠ [] →
  text_built (select_texts t rowid cols) = select_text t rowid cols.
Proof.
  intros Hne. unfold Dump.select_texts, select_text.
  rewrite !text_built_app, !text_built_cons, !quote_with_NUL, built_select_columns.
  change (text_built []) with (@nil ascii). rewrite !app_nil_r. f_equal. rewrite app_assoc. f_equal.
  destruct rowid as [r|]; [|done]. unfold written_columns. rewrite sep_cons by (by destruct cols).
  by rewrite !text_built_cons, !quote_with_NUL, <- !app_assoc.
Qed.

Lemma written_columns_read rowid cols : Forall name_ok cols → (∀ x, rowid = Some x → plain_name x) →
  Forall (λ n, ∀ r ts, delim (at_ r 0) = true → lexes r ts → lexes (n ++ r) ((TK_ID, n) :: ts))
         (written_columns rowid cols).
Proof.
  intros Hc Hr. destruct rowid as [x|]; [|by apply columns_read].
  constructor; [by apply rowid_reads, Hr|by apply columns_read].
Qed.

Lemma dequote_columns rowid cols : Forall name_ok cols → (∀ x, rowid = Some x → plain_name x) →
  sqlite3Dequote <$> written_columns rowid cols
  = match rowid with Some r => r :: cols | None => cols end.
Proof.
  intros Hc Hr. assert (E : sqlite3Dequote <$> (written <$> cols) = cols).
  { rewrite <- list_fmap_compose. rewrite <- (list_fmap_id cols) at 2. apply Forall_fmap_ext.
    eapply Forall_impl; [|exact Hc]. intros c Hok. by apply dequote_written. }
  destruct rowid as [x|]; [|done]. unfold written_columns. cbn [fmap list_fmap].
  rewrite dequote_plain by by apply Hr. f_equal. exact E.
Qed.

Lemma sep_head_space l r : l ≠ [] → Forall (λ n, ∀ x, sqlite3Isspace (at_ (n ++ x) 0) = false) l →
  sqlite3Isspace (at_ (sep (str ",") l ++ r) 0) = false.
Proof.
  intros Hne Hl. destruct Hl as [|n l Hn _]; [done|]. destruct l as [|n2 l]; [apply Hn|].
  rewrite sep_cons, <- app_assoc by done. apply Hn.
Qed.

Lemma plain_head s r : plain_name s → sqlite3Isspace (at_ (s ++ r) 0) = false.
Proof.
  intros Hp. destruct (plain_name_nonempty s Hp) as (c & s' & ->).
  change (at_ ((c :: s') ++ r) 0) with c. pose proof (pn_chars _ Hp) as Hc.
  apply list.Forall_cons in Hc as [Hc _]. revert Hc. clear. by_char c.
Qed.

Lemma read_select_text t rowid cols : name_ok t → Forall name_ok cols → cols ≠ [] →
  (∀ x, rowid = Some x → plain_name x) →
  read_select (select_text t rowid cols)
  = Some (match rowid with Some r => r :: cols | None => cols end, t).
Proof.
  intros Ht Hc Hne Hr. assert (Hwne : written_columns rowid cols ≠ []) by (by destruct rowid, cols).
  assert (Hlex : lexes (select_text t rowid cols)
    ((TK_KEYWORD 19, str "SELECT") :: names_tokens (written_columns rowid cols)
     ++ [(TK_KEYWORD 124, str "FROM"); (TK_ID, written t)])).
  { unfold select_text.
    change (str "SELECT " ++ ?x) with (str "SELECT" ++ " "%char :: x).
    apply lexes_keyword; [reflexivity|done|done|done| |].
    - apply sep_head_space; [done|]. destruct rowid as [x|]; unfold written_columns.
      + constructor; [intros y; by apply plain_head, Hr|].
        apply Forall_fmap. eapply Forall_impl; [|exact Hc]. intros c Hok y. by apply written_head.
      + apply Forall_fmap. eapply Forall_impl; [|exact Hc]. intros c Hok y. by apply written_head.
    - apply lexes_names; [done|by apply written_columns_read|done|].
      change (str " FROM " ++ written t) with (" "%char :: str "FROM" ++ " "%char :: written t).
      apply lexes_blank; [by left|done|].
      rewrite <- (app_nil_r (written t)).
      apply lexes_keyword; [reflexivity|done|done|done|by apply written_head|].
      rewrite (app_nil_r (written t)) at 2. apply lexes_written; [done|done|apply lexes_nil]. }
  unfold read_select. rewrite Hlex. rewrite read_names_sep by done.
  by rewrite dequote_columns, dequote_written.
Qed.
End Names.

(** ** Statements of rows *)

Section Rows.
Context (hi_alpha hi_alnum : ascii → bool) (fmt_float : Z → text) (AtoF : text → Z) (float_neg : Z → Z).
Abbreviation literal := (literal fmt_float AtoF float_neg).
Abbreviation value_ok := (value_ok fmt_float AtoF float_neg).
Abbreviation insert_text := (insert_text hi_alpha hi_alnum).
Abbreviation insert_tokens := (insert_tokens hi_alpha hi_alnum).
Context (t : text) (rowid : option text) (cols : list text).
Context (Ht : name_ok t) (Hcols : Forall name_ok cols) (Hrowid : ∀ x, rowid = Some x → plain_name x).

(** The columns an INSERT names. *)
Definition insert_columns : option (list text) := (λ r, r :: cols) <$> rowid.

Definition row_text (lits : list (text * list (token * text))) : text :=
  insert_text t rowid cols ++ sep (str ",") (fst <$> lits) ++ str ");" ++ [NL].

Definition row_tokens (lits : list (text * list (token * text))) : list (token * text) :=
  insert_tokens t rowid cols ++ sep [(TK_COMMA, str ",")] (snd <$> lits)
  ++ [(TK_RP, str ")"); (TK_SEMI, str ";")].

Lemma read_row vs lits rest : Forall2 (λ v '(x, ts), literal v x ts) vs lits → lits ≠ [] →
  read_insert AtoF float_neg (row_tokens lits ++ rest) = Some (InsertStmt t insert_columns vs, rest).
Proof using Ht Hcols Hrowid.
  intros Hl Hne. unfold row_tokens, Dump.insert_tokens. rewrite <- !app_assoc.
  set (es := sep [(TK_COMMA, str ",")] (snd <$> lits)).
  assert (He : ∀ f, (length es < f)%nat →
    read_exprs AtoF float_neg f (es ++ [(TK_RP, str ")"); (TK_SEMI, str ";")] ++ rest)
    = Some (vs, (TK_SEMI, str ";") :: rest)).
  { intros f Hf. by apply (read_exprs_sep fmt_float AtoF float_neg vs lits f). }
  assert (Hlen : (length es < length (es ++ [(TK_RP, str ")"); (TK_SEMI, str ";")] ++ rest))%nat)
    by (rewrite !length_app; simpl; lia).
  specialize (He _ Hlen). unfold insert_columns. destruct rowid as [x|] eqn:Er.
  - rewrite <- !app_assoc. cbn [app read_insert].
    rewrite (read_names_sep (x :: (written hi_alpha hi_alnum <$> cols)) TK_RP) by done.
    change (x :: (written hi_alpha hi_alnum <$> cols))
      with (written_columns hi_alpha hi_alnum (Some x) cols).
    rewrite dequote_columns by done. cbn [app] in He. rewrite He. by rewrite dequote_written.
  - cbn [app read_insert]. cbn [app] in He. rewrite He. by rewrite dequote_written.
Qed.

Lemma lexes_row vs lits r ts : Forall2 (λ v '(x, ts), literal v x ts) vs lits → lits ≠ [] →
  sqlite3Isspace (at_ r 0) = false → lexes r ts → lexes (row_text lits ++ r) (row_tokens lits ++ ts).
Proof using Ht Hcols Hrowid.
  intros Hl Hne Hr Hts. unfold row_text, row_tokens. rewrite <- !app_assoc.
  apply lexes_insert; [done|done|done|].
  apply (lexes_sep fmt_float AtoF float_neg vs lits); [done|done|done|].
  apply (lexes_punct ")"%char); [done|]. apply (lexes_punct ";"%char); [done|].
  apply lexes_blank; [by right|done|done].
Qed.

(** All rows: what is written for them is read as their statements. *)
Lemma rows_read rows all : Forall2 (λ vs lits, Forall2 (λ v '(x, ts), literal v x ts) vs lits ∧ lits ≠ []) rows all →
  read_inserts AtoF float_neg (all ≫= row_text) = Some (InsertStmt t insert_columns <$> rows).
Proof using Ht Hcols Hrowid.
  intros H. assert (Hlex : lexes (all ≫= row_text) (all ≫= row_tokens)).
  { induction H as [|vs lits rows all [Hl Hne] H IH]; [apply lexes_nil|].
    apply (lexes_row vs lits); [done|done| |done].
    destruct all as [|l2 all]; done. }
  unfold read_inserts. rewrite Hlex. simpl mbind. clear Hlex.
  assert (Hf : ∀ f, (length (all ≫= row_tokens) <= f)%nat →
    read_insert_list AtoF float_neg f (all ≫= row_tokens) = Some (InsertStmt t insert_columns <$> rows)); [|by apply Hf].
  induction H as [|vs lits rows all [Hl Hne] H IH]; intros f Hf; [by destruct f|].
  change ((lits :: all) ≫= row_tokens) with (row_tokens lits ++ (all ≫= row_tokens)) in *.
  rewrite length_app in Hf. assert (Hlen : (1 <= length (row_tokens lits))%nat)
    by (unfold row_tokens; rewrite !length_app; simpl; lia).
  destruct f as [|f]; [lia|].
  assert (Hr := read_row vs lits (all ≫= row_tokens) Hl Hne).
  destruct (row_tokens lits ++ (all ≫= row_tokens)) as [|x l] eqn:E.
  { apply app_eq_nil in E as [E _]. rewrite E in Hlen. simpl in Hlen. lia. }
  cbn [read_insert_list]. rewrite Hr. rewrite (IH f) by lia. done.
Qed.

Lemma output_row_emits vs lits : Forall2 (λ v '(x, ts), literal v x ts) vs lits → lits ≠ [] →
  emits (output_row fmt_float (insert_text t rowid cols) (length vs) vs) (row_text lits).
Proof.
  intros Hl Hne. apply emits_bind; [apply emits_callback|].
  apply emits_bind; [|apply emits_callback].
  exact (output_columns_emits fmt_float AtoF float_neg vs lits [] Hl Hne).
Qed.

(** What is written for rows of values that can be kept is read back as the
    statements that insert them. *)
Lemma output_rows_read rows n : (0 < n)%nat → Forall (λ vs, length vs = n ∧ Forall value_ok vs) rows →
  ∃ txt, emits (for_each (output_row fmt_float (insert_text t rowid cols) n) rows) txt ∧
    read_inserts AtoF float_neg txt = Some (InsertStmt t insert_columns <$> rows).
Proof using Ht Hcols Hrowid.
  intros Hn Hrows.
  assert (Hall : ∃ all, Forall2 (λ vs lits, (Forall2 (λ v '(x, ts), literal v x ts) vs lits ∧ lits ≠ []) ∧
                                            emits (output_row fmt_float (insert_text t rowid cols) n vs) (row_text lits)) rows all).
  { induction Hrows as [|vs rows [Hlen Hv] _ (all & IH)]; [by exists []|].
    assert (Hl : ∃ lits, Forall2 (λ v '(x, ts), literal v x ts) vs lits).
    { clear -Hv. induction Hv as [|v vs Hv _ (lits & IH)]; [by exists []|].
      destruct (literal_exists fmt_float AtoF float_neg v Hv) as (x & ts & H). exists ((x, ts) :: lits). by constructor. }
    destruct Hl as (lits & Hl). exists (lits :: all). constructor; [|done].
    assert (Hne : lits ≠ []) by (apply Forall2_length in Hl; destruct lits; [simpl in Hl; lia|done]).
    split; [done|]. rewrite <- Hlen. by apply output_row_emits. }
  destruct Hall as (all & Hall). exists (all ≫= row_text). split.
  - clear -Hall. induction Hall as [|vs lits rows all [_ He] _ IH]; [apply emits_ret|]. by apply emits_bind.
  - apply rows_read. eapply Forall2_impl; [|exact Hall]. by intros vs lits [? _].
Qed.
End Rows.

(** ** Columns and the rowid *)

(** A single column of the primary key, of type INTEGER. *)
Definition integer_pk (cols : list column_info) : bool :=
  match filter (λ c, ci_pk c ≠ 0) cols with
  | [c] => sqlite3StrICmp (ci_type c) (str "INTEGER") =? 0
  | _ => false
  end.

(** After the columns [seen]: their names and number, the primary key, and
    memory for them and the NULL behind them. *)
Definition cols_inv (seen : list column_info) (s : columns_state) : Prop :=
  cs_nCol s = Z.of_nat (length seen) ∧ cs_cols s = ci_name <$> seen ∧
  cs_nPK s = Z.of_nat (length (filter (λ c, ci_pk c ≠ 0) seen)) ∧ cs_isIPK s = integer_pk seen ∧
  (seen ≠ [] → cs_nCol s + 1 < cs_nAlloc s) ∧ (seen = [] → cs_nAlloc s = 0).

Lemma integer_pk_snoc seen c :
  integer_pk (seen ++ [c]) =
  if ci_pk c =? 0 then integer_pk seen
  else (Z.of_nat (length (filter (λ c, ci_pk c ≠ 0) seen)) + 1 =? 1)
       && (sqlite3StrICmp (ci_type c) (str "INTEGER") =? 0).
Proof.
  unfold integer_pk. rewrite list.filter_app, filter_cons, filter_nil.
  destruct (Z.eqb_spec (ci_pk c) 0) as [E|E]; [by rewrite decide_False, app_nil_r by tauto|].
  rewrite decide_True by done. destruct (filter _ seen) as [|d [|e l]]; [done| |];
    cbn [app length]; symmetry; apply andb_false_intro1, Z.eqb_neq; lia.
Qed.

Lemma column_step_inv seen s c : cols_inv seen s →
  ∃ s', column_step s c = Ok s' ∧ cols_inv (seen ++ [c]) s'.
Proof.
  intros (Hn & Hc & Hp & Hi & Ha & H0). unfold column_step.
  set (nAlloc := if _ <=? _ then _ else _).
  assert (Hroom : cs_nCol s + 2 < nAlloc).
  { unfold nAlloc. destruct (decide (seen = [])) as [E|E].
    - rewrite (H0 E), Hn. subst seen. done.
    - specialize (Ha E). destruct (Z.leb_spec (cs_nAlloc s - 2) (cs_nCol s)); lia. }
  unfold in_azCol. rewrite decide_True by lia. cbn.
  assert (Hpk := integer_pk_snoc seen c).
  destruct (Z.eqb_spec (ci_pk c) 0) as [E|E]; (eexists; split; [done|]); unfold cols_inv;
    rewrite Hpk, list.filter_app, filter_cons, filter_nil, !length_app, fmap_app;
    [rewrite decide_False by tauto|rewrite decide_True by done];
    cbn [cs_nCol cs_cols cs_nPK cs_isIPK cs_nAlloc length app];
    (split_and!; [lia|by rewrite Hc|lia|by rewrite ?Hp, ?Hi|lia|by destruct seen]).
Qed.

Lemma columns_loop_inv l seen s : cols_inv seen s →
  ∃ s', columns_loop s l = Ok s' ∧ cols_inv (seen ++ l) s'.
Proof.
  revert seen s. induction l as [|c l IH]; intros seen s Hs; [exists s; by rewrite app_nil_r|].
  destruct (column_step_inv seen s c Hs) as (s1 & E1 & H1). cbn [columns_loop]. rewrite E1. cbn.
  destruct (IH _ _ H1) as (s2 & E2 & H2). exists s2. split; [done|]. by rewrite <- app_assoc in H2.
Qed.

(** ** Tables *)

Record table := mkTable {
  tb_name : text;
  tb_sql : text;                      (* the statement that created it *)
  tb_columns : list column_info;
  tb_pk_index : bool;                 (* the primary key has an index of its own *)
  tb_rowid : bool;                    (* not a table WITHOUT ROWID *)
  tb_rows : list (Z * list value)     (* rowid and values *)
}.

Definition column_names (t : table) : list text := ci_name <$> tb_columns t.

Definition same_name (a b : text) : bool := sqlite3StrICmp a b =? 0.

(** The name under which the rowid is dumped: none if a column is the rowid,
    there is no rowid, or all its names are names of columns. *)
Definition dumped_rowid (t : table) : option text :=
  if integer_pk (tb_columns t) && negb (tb_pk_index t) then None
  else match filter (λ r, negb (existsb (same_name r) (column_names t)) = true) azRowid with
       | r :: _ => if tb_rowid t then Some r else None
       | [] => None
       end.

(** The value of the column or rowid called [n]. *)
Fixpoint column_value (n : text) (cols : list text) (row : Z * list value) : value :=
  match cols, row.2 with
  | c :: cols', v :: vs => if same_name n c then v else column_value n cols' (row.1, vs)
  | _, _ => VInteger row.1
  end.

(** What the queries of a dump answer for a table. *)
Record holds_table (db : database) (t : table) : Prop := {
  ht_info : db_table_info db (str "PRAGMA table_info=" ++ fmt_Q (Some (tb_name t))) = Some (tb_columns t);
  ht_index : db_index_list db (str "SELECT 1 FROM pragma_index_list(" ++ fmt_Q (Some (tb_name t))
                               ++ str ") WHERE origin='pk'") = Some (tb_pk_index t);
  ht_metadata : ∀ r, r ∈ azRowid → existsb (same_name r) (column_names t) = false →
    db_column_metadata db (tb_name t) r = tb_rowid t;
  ht_select : ∀ txt names, read_select txt = Some (names, tb_name t) →
    db_select db txt = inr ((λ row, (λ n, column_value n (column_names t) row) <$> names) <$> tb_rows t)
}.

Lemma rowid_name_filter db t : (∀ r, r ∈ azRowid → existsb (same_name r) (column_names t) = false →
    db_column_metadata db (tb_name t) r = tb_rowid t) →
  ∀ names, (∀ r, r ∈ names → r ∈ azRowid) →
  rowid_name db (tb_name t) names (column_names t)
  = match filter (λ r, negb (existsb (same_name r) (column_names t)) = true) names with
    | r :: _ => if tb_rowid t then Some r else None
    | [] => None
    end.
Proof.
  intros Hm names. induction names as [|r names IH]; intros Hin; [done|]. cbn [rowid_name].
  rewrite filter_cons. fold (same_name r).
  destruct (existsb (λ c, sqlite3StrICmp r c =? 0) (column_names t)) eqn:E.
  - change (existsb (same_name r) (column_names t) = true) in E. rewrite E.
    rewrite decide_False by done. apply IH. intros x Hx. apply Hin. by apply elem_of_cons; right.
  - change (existsb (same_name r) (column_names t) = false) in E. rewrite E.
    rewrite decide_True by done. rewrite Hm; [done| |done]. apply Hin. by apply elem_of_cons; left.
Qed.

(** [tableColumnList] stays inside of its memory, and finds the columns and
    the name of the rowid. *)
Lemma tableColumnList_spec db t : holds_table db t → tb_columns t ≠ [] →
  tableColumnList db (tb_name t) = Ok (Some (dumped_rowid t, column_names t)).
Proof.
  intros Hh Hne. unfold tableColumnList. rewrite (ht_info db t Hh).
  destruct (columns_loop_inv (tb_columns t) [] (mkCols 0 0 [] 0 false)) as (s & E & Hinv).
  { by split_and!. }
  change (cols_inv (tb_columns t) s) in Hinv. destruct Hinv as (Hn & Hc & _ & Hi & Ha & _).
  specialize (Ha Hne). unfold mbind, result_bind, in_azCol. rewrite E. rewrite decide_True by lia.
  rewrite Hc, Hi. fold (column_names t).
  rewrite (rowid_name_filter db t (ht_metadata db t Hh) azRowid) by done.
  unfold dumped_rowid. rewrite (ht_index db t Hh).
  by destruct (integer_pk (tb_columns t)), (tb_pk_index t).
Qed.

Lemma filter_head {A} (P : A → Prop) `{∀ x, Decision (P x)} l x r : filter P l = x :: r → x ∈ l ∧ P x.
Proof.
  intros E. assert (Hx : x ∈ filter P l) by (rewrite E; by apply elem_of_cons; left).
  apply list_elem_of_filter in Hx as [? ?]. done.
Qed.

Lemma dumped_rowid_plain t x : dumped_rowid t = Some x →
  plain_name x ∧ existsb (same_name x) (column_names t) = false.
Proof.
  unfold dumped_rowid. destruct (_ && _); [done|].
  destruct (filter _ azRowid) as [|r l] eqn:E; [done|]. destruct (tb_rowid t); [|done]. intros [= ->].
  apply filter_head in E as [Hin Hn]. apply negb_true_iff in Hn. split; [by apply rowid_plain|done].
Qed.

(** Names are different also up to case. *)
Fixpoint distinct_names (l : list text) : Prop :=
  match l with
  | [] => True
  | n :: l' => Forall (λ m, same_name m n = false) l' ∧ distinct_names l'
  end.

Lemma stricmp_refl a : sqlite3StrICmp a a = 0.
Proof. induction a as [|c a IH]; [done|]. cbn [sqlite3StrICmp]. by rewrite Z.sub_diag, IH. Qed.

Lemma column_values cols id vs : distinct_names cols → length vs = length cols →
  (λ n, column_value n cols (id, vs)) <$> cols = vs.
Proof.
  revert vs. induction cols as [|c cols IH]; intros vs Hd Hl; destruct vs as [|v vs]; simpl in Hl; try lia; [done|].
  destruct Hd as [Hc Hd]. cbn [fmap list_fmap column_value snd fst]. unfold same_name at 1.
  rewrite stricmp_refl. cbn. f_equal. etrans; [|apply (IH vs Hd); lia].
  apply list_fmap_ext. intros i n Hn. by rewrite (Forall_lookup_1 _ _ _ _ Hc Hn).
Qed.

Lemma column_value_rowid n cols row : existsb (same_name n) cols = false → column_value n cols row = VInteger row.1.
Proof.
  destruct row as [id vs]. revert vs. induction cols as [|c cols IH]; intros vs H; [done|].
  cbn [existsb] in H. apply orb_false_iff in H as [H1 H2]. destruct vs as [|v vs]; [done|].
  cbn [column_value snd fst]. rewrite H1. by apply (IH vs).
Qed.

Section Tables.
Context (hi_alpha hi_alnum : ascii → bool) (fmt_float : Z → text) (AtoF : text → Z) (float_neg : Z → Z).
Abbreviation value_ok := (value_ok fmt_float AtoF float_neg).

(** A table that a dump keeps. *)
Record table_ok (t : table) : Prop := {
  to_name : name_ok (tb_name t);
  to_columns : Forall name_ok (column_names t);
  to_some : tb_columns t ≠ [];
  to_distinct : distinct_names (column_names t);
  to_size : Z.of_nat (length (insert_text hi_alpha hi_alnum (tb_name t) (dumped_rowid t) (column_names t))) <= 2 ^ 27
            ∧ Z.of_nat (length (select_text hi_alpha hi_alnum (tb_name t) (dumped_rowid t) (column_names t))) <= 2 ^ 27;
  to_rows : Forall (λ row, length row.2 = length (tb_columns t) ∧ in_s 64 row.1 ∧ Forall value_ok row.2) (tb_rows t)
}.

(** The statement that inserts a row of [t] again. *)
Definition row_insert (t : table) (row : Z * list value) : insert_stmt :=
  match dumped_rowid t with
  | Some r => InsertStmt (tb_name t) (Some (r :: column_names t)) (VInteger row.1 :: row.2)
  | None => InsertStmt (tb_name t) None row.2
  end.

Lemma dump_table_emits db t : holds_table db t → table_ok t →
  ∃ txt, emits (dump_table hi_alpha hi_alnum fmt_float db (tb_name t)) txt ∧
    read_inserts AtoF float_neg txt = Some (row_insert t <$> tb_rows t).
Proof.
  intros Hh Hok. assert (Hne : column_names t ≠ []).
  { intros E. apply (to_some t Hok). by apply fmap_nil_inv in E. }
  pose proof (λ x, dumped_rowid_plain t x) as Hr.
  set (all := (λ row : Z * list value, match dumped_rowid t with Some _ => VInteger row.1 :: row.2 | None => row.2 end) <$> tb_rows t).
  set (n := (length (column_names t) + match dumped_rowid t with Some _ => 1 | None => 0 end)%nat).
  destruct (output_rows_read hi_alpha hi_alnum fmt_float AtoF float_neg (tb_name t) (dumped_rowid t) (column_names t)
              (to_name t Hok) (to_columns t Hok) (λ x H, proj1 (Hr x H)) all n) as (txt & He & Hread).
  { unfold n. destruct (column_names t); [done|simpl; lia]. }
  { unfold all, n, column_names. apply Forall_fmap. eapply Forall_impl; [|exact (to_rows t Hok)].
    intros [id vs] (Hl & Hid & Hvs). simpl in *. rewrite length_fmap.
    destruct (dumped_rowid t); simpl; (split; [lia|]); [by constructor|done]. }
  exists txt. split.
  - unfold dump_table. apply (emits_lift _ _ _ _ (tableColumnList_spec db t Hh (to_some t Hok))).
    apply (emits_lift _ (insert_text hi_alpha hi_alnum (tb_name t) (dumped_rowid t) (column_names t))).
    { rewrite <- insert_texts_built. apply appendTexts_built; [done|]. rewrite insert_texts_built. apply (to_size t Hok). }
    apply (emits_lift _ (select_text hi_alpha hi_alnum (tb_name t) (dumped_rowid t) (column_names t))).
    { rewrite <- select_texts_built by done. apply appendTexts_built; [done|].
      rewrite select_texts_built by done. apply (to_size t Hok). }
    rewrite (ht_select db t Hh _ _ (read_select_text hi_alpha hi_alnum (tb_name t) (dumped_rowid t) (column_names t)
      (to_name t Hok) (to_columns t Hok) Hne (λ x H, proj1 (Hr x H)))).
    assert (Eall : (λ row, (λ n, column_value n (column_names t) row) <$>
                     match dumped_rowid t with Some r => r :: column_names t | None => column_names t end) <$> tb_rows t = all).
    { unfold all. apply Forall_fmap_ext. eapply Forall_impl; [|exact (to_rows t Hok)].
      intros [id vs] (Hl & _ & _). simpl in Hl.
      assert (Hv : (λ n, column_value n (column_names t) (id, vs)) <$> column_names t = vs)
        by (apply column_values; [apply (to_distinct t Hok)|unfold column_names; by rewrite length_fmap]).
      destruct (dumped_rowid t) as [x|] eqn:Ex; [|exact Hv].
      cbn [fmap list_fmap]. f_equal; [|exact Hv]. apply (column_value_rowid x _ (id, vs)), (Hr x eq_refl). }
    rewrite Eall. exact He.
  - rewrite Hread. f_equal. unfold all. rewrite <- list_fmap_compose. apply list_fmap_ext.
    intros i row _. unfold row_insert, insert_columns. simpl. by destruct (dumped_rowid t).
Qed.
End Tables.

(** ** The whole dump *)

Definition tables_query : text :=
  schema_query (str "main") (str "WHERE sql NOT NULL AND type=='table' AND name!='sqlite_sequence'").
Definition sequence_query : text := schema_query (str "main") (str "WHERE name=='sqlite_sequence'").
Definition rest_query : text :=
  str "SELECT sql FROM sqlite_schema WHERE sql NOT NULL AND type IN ('index','trigger','view')".

(** [db] is a connection to a database with the tables [ts], the table of
    AUTOINCREMENT counters [seq] and the indexes, triggers and views [rest]. *)
Record holds_database (db : database) (ts : list table) (seq : option table) (rest : list text) : Prop := {
  hd_begin : db_begin db = SQLITE_OK;
  hd_tables : db_schema db tables_query = ((λ t, (tb_name t, str "table", tb_sql t)) <$> ts, None);
  hd_sequence : db_schema db sequence_query
    = (match seq with Some t => [(tb_name t, str "table", tb_sql t)] | None => [] end, None);
  hd_rest : db_sql db rest_query = inr ((λ z, [z]) <$> rest, SQLITE_OK, []);
  hd_each : Forall (holds_table db) ts;
  hd_seq : ∀ t, seq = Some t → holds_table db t ∧ tb_name t = str "sqlite_sequence"
}.

(** A table of the user that is not virtual. *)
Definition user_table (t : table) : Prop :=
  starts_with (str "sqlite_") (tb_name t) = false ∧ starts_with (str "CREATE VIRTUAL TABLE") (tb_sql t) = false.

Definition create_text (t : table) : text :=
  (if glob_create_quoted (tb_sql t) then str "CREATE TABLE IF NOT EXISTS " ++ drop 13 (tb_sql t)
   else tb_sql t) ++ str ";" ++ [NL].

(** A statement of the rest of the schema. *)
Definition rest_text (z : text) : text :=
  z ++ (if strstr z (str "--") then [NL] else []) ++ str ";" ++ [NL].

Lemma starts_with_app a b z : starts_with (a ++ b) z = true → starts_with a z = true.
Proof. intros [r ->]%starts_with_prefix. apply starts_with_prefix. exists (b ++ r). by rewrite app_assoc. Qed.

Lemma glob_stat_reserved z : starts_with (str "sqlite_") z = false → glob_stat z = false.
Proof.
  intros H. unfold glob_stat. apply andb_false_iff. left. apply not_true_is_false. intros E.
  change (str "sqlite_stat") with (str "sqlite_" ++ str "stat") in E. apply starts_with_app in E. congruence.
Qed.

Section Whole.
Context (hi_alpha hi_alnum : ascii → bool) (fmt_float : Z → text) (AtoF : text → Z) (float_neg : Z → Z).
Abbreviation table_ok := (table_ok hi_alpha hi_alnum fmt_float AtoF float_neg).
Abbreviation callback := (dump_callback hi_alpha hi_alnum fmt_float).

(** The text [txt] inserts the rows of [t]. *)
Definition inserts_rows (t : table) (txt : text) : Prop :=
  read_inserts AtoF float_neg txt = Some (row_insert t <$> tb_rows t).

Lemma dump_callback_table db t : holds_table db t → table_ok t → user_table t →
  ∃ txt, emits (callback db (tb_name t) (str "table") (tb_sql t)) (create_text t ++ txt) ∧ inserts_rows t txt.
Proof.
  intros Hh Hok [Hs Hv].
  destruct (dump_table_emits hi_alpha hi_alnum fmt_float AtoF float_neg db t Hh Hok) as (txt & He & Hr).
  exists txt. split; [|done]. unfold dump_callback.
  rewrite bool_decide_eq_false_2 by (intros E; by rewrite E in Hs).
  rewrite glob_stat_reserved, Hs, Hv by done. unfold create_text. rewrite <- app_assoc.
  apply emits_bind; [|apply emits_bind; [apply emits_callback|]].
  - destruct (glob_create_quoted (tb_sql t)); [|apply emits_callback].
    apply emits_bind; apply emits_callback.
  - rewrite bool_decide_eq_true_2 by done. exact He.
Qed.

Lemma dump_callback_sequence db t : holds_table db t → table_ok t → tb_name t = str "sqlite_sequence" →
  ∃ txt, emits (callback db (tb_name t) (str "table") (tb_sql t))
               (str "DELETE FROM sqlite_sequence;" ++ [NL] ++ txt) ∧ inserts_rows t txt.
Proof.
  intros Hh Hok Hn.
  destruct (dump_table_emits hi_alpha hi_alnum fmt_float AtoF float_neg db t Hh Hok) as (txt & He & Hr).
  exists txt. split; [|done]. unfold dump_callback. rewrite bool_decide_eq_true_2 by done.
  rewrite app_assoc. apply emits_bind; [apply emits_callback|].
  rewrite bool_decide_eq_true_2 by done. exact He.
Qed.

Lemma schema_query_emits db q rows txts : db_schema db q = (rows, None) →
  Forall2 (λ '(n, ty, sql) txt, emits (callback db n ty sql) txt) rows txts →
  emits (run_schema_dump_query hi_alpha hi_alnum fmt_float db q) (concat txts).
Proof.
  intros E H. unfold run_schema_dump_query. rewrite E. rewrite <- (app_nil_r (concat txts)).
  apply emits_bind; [|apply emits_ret]. clear E.
  induction H as [|[[n ty] sql] txt rows txts Hx _ IH]; [apply emits_ret|]. by apply emits_bind.
Qed.

Lemma rest_emits db rest : db_sql db rest_query = inr ((λ z, [z]) <$> rest, SQLITE_OK, []) →
  emits (output_sql_from_query db rest_query) (rest ≫= rest_text).
Proof.
  intros E. unfold output_sql_from_query. rewrite E. rewrite <- (app_nil_r (rest ≫= rest_text)).
  apply emits_bind; [|apply emits_ret]. clear E. induction rest as [|z rest IH]; [apply emits_ret|].
  change ((z :: rest) ≫= rest_text) with (rest_text z ++ (rest ≫= rest_text)).
  apply emits_bind; [|exact IH]. unfold output_sql_row, rest_text.
  apply emits_bind; [apply emits_callback|]. apply (emits_bind (mret ()) _ []); [apply emits_ret|].
  apply emits_callback.
Qed.

End Whole.

(** ** Strings, buffers and the search for a string, on their own *)

Lemma no_newline_choice p : zNL_choice p ∨ zCR_choice p → Forall (λ c, c ≠ NL ∧ c ≠ CR) p.
Proof.
  assert (Hph : ∀ c i, (c ≠ NL ∧ c ≠ CR) → 0 <= i < 2 ^ 32 → Forall (λ c, c ≠ NL ∧ c ≠ CR) (placeholder ["\"%char; c] i)).
  { intros c i [Hc1 Hc2] Hi. rewrite placeholder_eq by done. constructor; [done|]. apply list.Forall_app. split; [by repeat constructor|].
    apply list.Forall_app. split; [|by repeat constructor].
    eapply Forall_impl; [|apply fmt_u_dec; lia]. intros d. by_char d. }
  intros [[->|[->|(i & Hi & ->)]]|[->|[->|(i & Hi & ->)]]]; try (by repeat constructor); by apply Hph.
Qed.

Lemma doubled_Forall (P : ascii → Prop) z : Forall P z → Forall P (double_quotes QUOT z).
Proof.
  intros H. induction H as [|c z Hc _ IH]; [constructor|]. rewrite double_quotes_cons.
  apply list.Forall_app. split; [by case_match; repeat constructor|done].
Qed.

Lemma string_literal_one_line z zNL zCR : chosen z zNL zCR →
  Forall (λ c, c ≠ NL ∧ c ≠ CR) (string_literal z zNL zCR).
Proof.
  intros [HNL HCR]. assert (Hin : ∀ c, c ∈ z → has c z = true).
  { intros c Hc. apply existsb_exists. exists c. split; [by apply list_elem_of_In|apply ceq_refl]. }
  assert (Htail : ∀ p n, Forall (λ c, c ≠ NL ∧ c ≠ CR) p → n = str "13" ∨ n = str "10" →
    Forall (λ c, c ≠ NL ∧ c ≠ CR) (call_tail p n)).
  { intros p n Hp Hn. unfold call_tail, quoted. repeat (apply list.Forall_app; split); try by repeat constructor.
    - constructor; [done|]. apply list.Forall_app. split; [by apply doubled_Forall|by repeat constructor].
    - destruct Hn; subst; by repeat constructor. }
  unfold string_literal, quoted. repeat (apply list.Forall_app; split).
  - destruct (has NL z); by repeat constructor.
  - destruct (has CR z); by repeat constructor.
  - constructor; [done|]. apply list.Forall_app. split; [|by repeat constructor]. apply doubled_Forall.
    apply Forall_bind, list.Forall_forall. intros c Hc.
    change (Forall (λ d, d ≠ NL ∧ d ≠ CR) (encode zNL zCR c)). unfold encode.
    destruct (Ascii.eqb_spec c NL) as [->|]; [by apply no_newline_choice; left; apply HNL, Hin|].
    destruct (Ascii.eqb_spec c CR) as [->|]; [by apply no_newline_choice; right; apply HCR, Hin|].
    by repeat constructor.
  - destruct (has CR z) eqn:E; [|constructor]. apply Htail; [|by left]. by apply no_newline_choice; right; apply HCR.
  - destruct (has NL z) eqn:E; [|constructor]. apply Htail; [|by right]. by apply no_newline_choice; left; apply HNL.
Qed.

(** C11. [output_quoted_escaped_string] writes any text without NUL on one line
    and so that SQLite reads the text back: the quotes it doubles, and the
    strings it puts in the place of newlines and carriage returns, which it
    finds in bounded time and which meet neither the text nor each other, are
    undone by the tokenizer and the calls of [replace]. *)
Theorem quoted_string_reads_back AtoF float_neg z s :
  Forall (λ c, c ≠ NUL) z → Z.of_nat (length z) < 2 ^ 31 →
  ∃ t ts, output_quoted_escaped_string z s = (Ok (), add_out s t) ∧
    Forall (λ c, c ≠ NL ∧ c ≠ CR) t ∧
    tokenize t = Some ts ∧ read_expr AtoF float_neg (length ts) ts = Some (VText z, []).
Proof.
  intros Hz Hl. destruct (output_string_emits z Hz Hl) as (zNL & zCR & Hch & He).
  exists (string_literal z zNL zCR), (string_tokens z zNL zCR). split_and!.
  - apply He.
  - by apply string_literal_one_line.
  - rewrite <- (app_nil_r (string_literal z zNL zCR)), <- (app_nil_r (string_tokens z zNL zCR)).
    by apply lexes_string_literal.
  - rewrite <- (app_nil_r (string_tokens z zNL zCR)) at 2. by apply read_string_tokens.
Qed.

Lemma quoted_string_reads_back_witness :
  let z := str "it's\n" ++ [NL; CR] ++ str "\012(\n0)" in
  Forall (λ c, c ≠ NUL) z ∧
  ∃ t ts, output_quoted_escaped_string z (mkDState 0 0 false []) = (Ok (), mkDState 0 0 false t) ∧
    tokenize t = Some ts ∧ read_expr (λ _, 0) Z.opp (length ts) ts = Some (VText z, []).
Proof.
  intros z. assert (Hz : Forall (λ c, c ≠ NUL) z) by (by repeat constructor). split; [done|].
  destruct (quoted_string_reads_back (λ _, 0) Z.opp z (mkDState 0 0 false []) Hz) as (t & ts & H1 & _ & H2 & H3).
  { by vm_compute. }
  exists t, ts. by split_and!.
Defined.

(** The string chosen there is the second numbered one. *)
Example quoted_string_shown :
  output_quoted_escaped_string (str "a\n\012(\n0)" ++ [NL]) (mkDState 0 0 false [])
  = (Ok (), mkDState 0 0 false (str "replace('a\n\012(\n0)(\n1)','(\n1)',char(10))")).
Proof. by vm_compute. Qed.

(** C19. The buffers in which the dump builds its statements are never written
    outside of their memory, and their arithmetic never overflows, for
    statements of up to 2^27 bytes: a sequence of [appendText], with quotes or
    without, ends with the texts one behind the other, quoted. *)
Theorem appendText_in_bounds l : l ≠ [] → Z.of_nat (length (text_built l)) <= 2 ^ 27 →
  ∃ p, appendTexts initText l = Ok p ∧ text_of p = Ok (text_built l) ∧
    dt_n p = Z.of_nat (length (text_built l)) ∧ dt_n p < dt_nAlloc p.
Proof.
  intros Hne Hl. destruct (appendTexts_holds l initText [] (or_introl (conj eq_refl eq_refl)) Hne Hl)
    as (p & E & Hh & Ht).
  exists p. rewrite app_nil_l in *. destruct Hh as [[-> Hb]|(junk & _ & Hn & Ha & _)]; [done|].
  split_and!; [done|done|done|lia].
Qed.

Lemma appendText_in_bounds_witness :
  let l := [(str "INSERT INTO ", NUL); (str "t" ++ [DQUOT] ++ str "x", DQUOT)] in
  Z.of_nat (length (text_built l)) <= 2 ^ 27 ∧
  ∃ p, appendTexts initText l = Ok p ∧
       text_of p = Ok (str "INSERT INTO " ++ [DQUOT] ++ str "t" ++ [DQUOT; DQUOT] ++ str "x" ++ [DQUOT]).
Proof.
  intros l. assert (Hl : Z.of_nat (length (text_built l)) <= 2 ^ 27) by (by vm_compute). split; [done|].
  destruct (appendText_in_bounds l ltac:(done) Hl) as (p & E & Ht & _). by exists p.
Defined.

(** ** A database in memory *)

Module Mem.

Definition info_query (n : text) : text := str "PRAGMA table_info=" ++ fmt_Q (Some n).
Definition index_query (n : text) : text :=
  str "SELECT 1 FROM pragma_index_list(" ++ fmt_Q (Some n) ++ str ") WHERE origin='pk'".

(** The first table with a property. *)
Definition first_table (P : table → bool) (ts : list table) : option table := find P ts.

(** [rest] is the rest of the schema; a name is looked for in [temp], the
    temporary tables, before [main]. *)
Definition connection (main temp : list table) (seq : option table) (rest : list text) : database :=
  let visible := temp ++ main ++ match seq with Some t => [t] | None => [] end in
  mkDatabase
    (λ q, tb_columns <$> first_table (λ t, bool_decide (q = info_query (tb_name t))) visible)
    (λ q, tb_pk_index <$> first_table (λ t, bool_decide (q = index_query (tb_name t))) visible)
    (λ n _, match first_table (λ t, bool_decide (n = tb_name t)) visible with
            | Some t => tb_rowid t | None => false end)
    (λ q, match read_select q with
          | Some (names, n) =>
              match first_table (λ t, bool_decide (n = tb_name t)) visible with
              | Some t => inr ((λ row, (λ c, column_value c (column_names t) row) <$> names) <$> tb_rows t)
              | None => inl 1
              end
          | None => inl 1
          end)
    (λ q, if bool_decide (q = tables_query)
          then ((λ t, (tb_name t, str "table", tb_sql t)) <$> main, None)
          else (match seq with Some t => [(tb_name t, str "table", tb_sql t)] | None => [] end, None))
    (λ q, inr ((λ z, [z]) <$> rest, SQLITE_OK, []))
    SQLITE_OK.

Lemma find_by_name (P : table → bool) ts t : NoDup (tb_name <$> ts) → t ∈ ts → P t = true →
  (∀ u, P u = true → tb_name u = tb_name t) → find P ts = Some t.
Proof.
  intros Hnd Hin Ht Hu. induction ts as [|u ts IH]; [by apply not_elem_of_nil in Hin|].
  cbn [find]. apply list.NoDup_cons in Hnd as [Hn Hnd]. apply elem_of_cons in Hin as [<-|Hin]; [by rewrite Ht|].
  destruct (P u) eqn:E; [|by apply IH]. exfalso. apply Hn. rewrite (Hu u E). by apply list_elem_of_fmap_2.
Qed.

Lemma fmt_Q_inj a b : fmt_Q (Some a) = fmt_Q (Some b) → a = b.
Proof.
  intros E. cbn [fmt_Q] in E. rewrite <- (dequote_quoted QUOT a), <- (dequote_quoted QUOT b) by by left. by rewrite E.
Qed.

Lemma info_query_inj a b : info_query a = info_query b → a = b.
Proof. intros E. unfold info_query in E. apply app_inv_head in E. by apply fmt_Q_inj. Qed.

Lemma index_query_inj a b : index_query a = index_query b → a = b.
Proof.
  intros E. unfold index_query in E. apply app_inv_head, app_inv_tail in E. by apply fmt_Q_inj.
Qed.

Section Connection.
Context (main : list table) (seq : option table) (rest : list text).
Let tables := main ++ match seq with Some t => [t] | None => [] end.
Context (Hnd : NoDup (tb_name <$> tables)).

Lemma connection_holds_table t : t ∈ tables → holds_table (connection main [] seq rest) t.
Proof using Hnd.
  intros Ht. unfold connection. rewrite app_nil_l. fold tables.
  assert (Hname : find (λ u, bool_decide (tb_name t = tb_name u)) tables = Some t).
  { apply find_by_name; [done|done|by apply bool_decide_eq_true|]. intros u Hu%bool_decide_eq_true. done. }
  constructor; cbn [db_table_info db_index_list db_column_metadata db_select]; unfold first_table.
  - rewrite (find_by_name _ tables t); [done|done|done|by apply bool_decide_eq_true|].
    intros u Hu%bool_decide_eq_true. symmetry. by apply info_query_inj.
  - rewrite (find_by_name _ tables t); [done|done|done|by apply bool_decide_eq_true|].
    intros u Hu%bool_decide_eq_true. symmetry. by apply index_query_inj.
  - intros r _ _. by rewrite Hname.
  - intros txt names E. by rewrite E, Hname.
Qed.

Lemma connection_holds : (∀ t, seq = Some t → tb_name t = str "sqlite_sequence") →
  holds_database (connection main [] seq rest) main seq rest.
Proof using Hnd.
  intros Hs. constructor; try done.
  - apply list.Forall_forall. intros t Ht. apply connection_holds_table, elem_of_app. by left.
  - intros t E. split; [|by apply Hs]. apply connection_holds_table. unfold tables. rewrite E.
    apply elem_of_app. right. by apply elem_of_cons; left.
Qed.
End Connection.

(** A table with one row, a keyword as the name of a column, and all kinds of
    values. *)
Definition sample : table :=
  mkTable (str "user config") (str "CREATE TABLE 'user config'(key, v, n, b)")
    [mkColumn (str "key") (str "TEXT") 0; mkColumn (str "v") [] 0; mkColumn (str "n") [] 0;
     mkColumn (str "b") [] 0] false true
    [(7, [VText (str "it's" ++ [NL]); VNull; VInteger (- 9223372036854775808); VBlob [chr 0; chr 255]])].

Definition no_high (c : ascii) : bool := false.
Definition no_float (b : Z) : text := [].

Lemma sample_ok : table_ok no_high no_high no_float (λ _, 0) Z.opp sample.
Proof.
  constructor.
  - by split; [repeat constructor|].
  - repeat constructor; done.
  - done.
  - cbn. split_and!; by repeat constructor.
  - split; by vm_compute.
  - constructor; [|constructor]. split; [done|]. split; [by vm_compute|].
    repeat (apply list.Forall_cons; split); 
      first [done | by vm_compute | by split; [repeat constructor|]].
Qed.
End Mem.


(** What it looks like. *)
Example dump_shown :
  sqlite3_db_dump Mem.no_high Mem.no_high Mem.no_float (Mem.connection [Mem.sample] [] None []) (str "main") None
  = Ok (SQLITE_OK,
      str "PRAGMA foreign_keys=OFF;" ++ [NL] ++ str "BEGIN TRANSACTION;" ++ [NL]
      ++ str "CREATE TABLE IF NOT EXISTS 'user config'(key, v, n, b);" ++ [NL]
      ++ str "INSERT INTO " ++ [DQUOT] ++ str "user config" ++ [DQUOT] ++ str "(rowid," ++ [DQUOT] ++ str "key" ++ [DQUOT]
      ++ str ",v,n,b) VALUES(7,replace('it''s\n','\n',char(10)),NULL,-9223372036854775808,x'00ff');" ++ [NL]
      ++ str "COMMIT;" ++ [NL]).
Proof. by vm_compute. Qed.

(** ** What a dump loses *)

(** A text is dumped up to its first NUL. *)
Example text_with_NUL_is_cut s :
  output_value Mem.no_float (VText (str "ab" ++ [NUL] ++ str "cd")) s = (Ok (), add_out s (str "'ab'")).
Proof. done. Qed.

(** The rows are read by the name of the table alone: a temporary table hides
    the table of the schema that is dumped, and its rows are dumped. *)
Definition plain_t (v : Z) : table :=
  mkTable (str "t") (str "CREATE TABLE t(a)") [mkColumn (str "a") [] 0] false true [(1, [VInteger v])].

Example temp_table_hides_main :
  sqlite3_db_dump Mem.no_high Mem.no_high Mem.no_float (Mem.connection [plain_t 1] [plain_t 2] None []) (str "main") None
  = Ok (SQLITE_OK,
      str "PRAGMA foreign_keys=OFF;" ++ [NL] ++ str "BEGIN TRANSACTION;" ++ [NL]
      ++ str "CREATE TABLE t(a);" ++ [NL] ++ str "INSERT INTO t(rowid,a) VALUES(1,2);" ++ [NL]
      ++ str "COMMIT;" ++ [NL]).
Proof. by vm_compute. Qed.

(** A list of columns without columns is written through NULL. *)
Example no_columns_undefined :
  tableColumnList (mkDatabase (λ _, Some []) (λ _, None) (λ _ _, false) (λ _, inl 1) (λ _, ([], None))
                              (λ _, inl (1, [])) 0) (str "t")
  = Undefined "write outside of azCol".
Proof. done. Qed.

End Dump.
