(* ===== verification/SqliteType.v ===== *)
(** * The type [sqlite]

    omni_sqlite/sqlite.cpp and omni_sqlite.cpp, with the expanded objects of
    deps/cppgres.hpp: SQLite databases as values of a PostgreSQL type.

    A value is a pointer to an object in the memory of the backend
    ([Expanded]), or the bytes of a serialized database ([Flat]), as in a
    table.  The objects are the state, so that what is done to one of them is
    seen through every pointer to it.  What SQLite does to the contents of a
    database is a parameter, an [engine] over a type of contents.  Messages of
    errors are kept up to the text SQLite has for them. *)

From stdpp Require Import base tactics list gmap strings numbers.
From Stdlib Require Import ZArith Lia Ascii.
From S2P Require Import Prelude CText SqliteReader.
Import Reader.

Set Default Proof Using "Type".
Local Open Scope Z_scope.

Module Value.

(** ** SQLite, by what the extension calls *)

Record engine (DB : Type) := mkEngine {
  (* the database after [sqlite3_open] of ":memory:" *)
  e_empty : DB;
  (* [sqlite3_serialize] of "main": the bytes, or NULL and the size that was
     written nevertheless *)
  e_serialize : DB → Z + text;
  (* [sqlite3_deserialize] into "main" *)
  e_deserialize : text → option DB;
  (* [sqlite3_exec]: every statement of a text, and the error message *)
  e_exec : DB → text → DB * option string;
  (* [sqlite3_prepare_v2] of the first statement: an error message, or the
     names of its columns; [None] inside is a statement that is NULL *)
  e_prepare : DB → text → string + option (list text);
  (* the rows of that statement with its parameters bound, the code of the
     [sqlite3_step] behind them, and the database then *)
  e_run : DB → text → list value → list (list value) * Z * DB;
  (* [sqlite3_db_dump] of "main" *)
  e_dump : DB → result (Z * text)
}.
Arguments mkEngine {DB}.
Arguments e_empty {DB}.
Arguments e_serialize {DB}.
Arguments e_deserialize {DB}.
Arguments e_exec {DB}.
Arguments e_prepare {DB}.
Arguments e_run {DB}.
Arguments e_dump {DB}.

Definition SQLITE_ROW : Z := 100.
Definition SQLITE_DONE : Z := 101.
Definition SQLITE_MISUSE : Z := 21.

(** ** Objects *)

Record object (DB : Type) := mkObject { o_db : DB; o_flat_size : Z }.
Arguments mkObject {DB}.
Arguments o_db {DB}.
Arguments o_flat_size {DB}.

Inductive sqlite_datum :=
  | Expanded (id : nat)
  | Flat (bytes : list (option ascii)).   (* [None] is a byte that was not written *)

Record heap (DB : Type) := mkHeap { objects : gmap nat (object DB); next_object : nat }.
Arguments mkHeap {DB}.
Arguments objects {DB}.
Arguments next_object {DB}.

Section Type_.
Context {DB : Type} (E : engine DB).
Abbreviation H := (M (heap DB)).

Definition get_object (id : nat) : H (object DB) :=
  s ← get_st;
  match objects s !! id with
  | Some o => mret o
  | None => undefined "object that is gone"
  end.

Definition set_object (id : nat) (o : object DB) : H unit :=
  modify_st (λ s, mkHeap (<[id := o]> (objects s)) (next_object s)).

(** [allocate_expanded]: a new object with the database [db]. *)
Definition allocate_expanded (db : DB) : H nat :=
  s ← get_st;
  _ ← modify_st (λ s, mkHeap (<[next_object s := mkObject db 0]> (objects s)) (S (next_object s)));
  mret (next_object s).

Definition written_bytes (bytes : list (option ascii)) : result text :=
  match mapM id bytes with
  | Some b => Ok b
  | None => Undefined "bytes that were not written"
  end.

(** [sqlite::restore_from] *)
Definition restore_from (bytes : text) : H DB :=
  match e_deserialize E bytes with
  | Some db => mret db
  | None => ereport "can't deserialize SQLite"
  end.

(** [operator T &()] of an expanded varlena: the object, made from the bytes
    of a flat value when there is none yet. *)
Definition expanded_object (d : sqlite_datum) : H nat :=
  match d with
  | Expanded id => mret id
  | Flat bytes => b ← lift_r (written_bytes bytes); db ← restore_from b; allocate_expanded db
  end.

(** [sqlite::flat_size] *)
Definition flat_size (id : nat) : H Z :=
  o ← get_object id;
  if negb (o_flat_size o =? 0) then mret (wrap_u 64 (o_flat_size o))
  else
    match e_serialize E (o_db o) with
    | inl n => _ ← set_object id (mkObject (o_db o) n); ereport "Failed to serialize SQLite"
    | inr v =>
        let n := Z.of_nat (length v) in
        _ ← set_object id (mkObject (o_db o) n);
        mret n
    end.

(** [sqlite::flatten_into] a buffer of [size] bytes *)
Definition flatten_into (id : nat) (size : Z) : H (list (option ascii)) :=
  o ← get_object id;
  match e_serialize E (o_db o) with
  | inl n => _ ← set_object id (mkObject (o_db o) n); ereport "Failed to serialize SQLite"
  | inr v =>
      let n := Z.of_nat (length v) in
      _ ← set_object id (mkObject (o_db o) n);
      if n <=? size then mret (map Some v ++ replicate (Z.to_nat (size - n)) None)
      else undefined "write past the end of the flat value"
  end.

(** The methods of the expanded object, with the header of four bytes. *)
Definition get_flat_size (id : nat) : H Z :=
  n ← flat_size id; mret (wrap_u 64 (n + 4)).

Definition flatten_object (id : nat) (allocated_size : Z) : H sqlite_datum :=
  bytes ← flatten_into id (wrap_u 64 (allocated_size - 4)); mret (Flat bytes).

(** What PostgreSQL does to store a value in a tuple. *)
Definition flatten (d : sqlite_datum) : H sqlite_datum :=
  match d with
  | Flat bytes => mret d
  | Expanded id => allocated_size ← get_flat_size id; flatten_object id allocated_size
  end.

(** ** Functions on databases *)

Definition run_sql (id : nat) (stmt : text) : H unit :=
  o ← get_object id;
  let '(db, msg) := e_exec E (o_db o) stmt in
  _ ← set_object id (mkObject db (o_flat_size o));
  match msg with
  | Some msg => ereport ("Failed to create SQLite in-memory database: " +:+ msg)
  | None => mret ()
  end.

Definition sqlite_new (stmt : option text) : H sqlite_datum :=
  id ← allocate_expanded (e_empty E);
  _ ← match stmt with Some z => run_sql id (cstr z) | None => mret () end;
  mret (Expanded id).

Definition sqlite_in (query : text) : H sqlite_datum :=
  id ← allocate_expanded (e_empty E);
  _ ← run_sql id query;
  mret (Expanded id).

Definition sqlite_out (d : sqlite_datum) : H text :=
  id ← expanded_object d;
  o ← get_object id;
  '(rc, s) ← lift_r (e_dump E (o_db o));
  if rc =? 0 then mret s else ereport "Failed to dump SQLite".

Definition sqlite_deserialize (input : text) : H sqlite_datum :=
  id ← allocate_expanded (e_empty E);
  match e_deserialize E input with
  | Some db => _ ← set_object id (mkObject db 0); mret (Expanded id)
  | None => ereport "Could not deserialize SQLite database"
  end.

Definition sqlite_serialize (d : sqlite_datum) : H text :=
  id ← expanded_object d;
  o ← get_object id;
  match e_serialize E (o_db o) with
  | inr data => mret data
  | inl _ => ereport "Failed to serialize SQLite db"
  end.
End Type_.

(** ** Parameters *)

Definition BYTEAOID : Z := 17.
Definition INT8OID : Z := 20.
Definition INT2OID : Z := 21.
Definition INT4OID : Z := 23.
Definition TEXTOID : Z := 25.
Definition FLOAT4OID : Z := 700.
Definition FLOAT8OID : Z := 701.
Definition UNKNOWNOID : Z := 705.
Definition ANYOID : Z := 2276.

(** A datum: 64 bits, or a pointer to bytes. *)
Inductive pdatum :=
  | Word (bits : Z)
  | Bytes (b : text).

(** The outcome of [pg_do_encoding_conversion]: the text itself, which no NUL
    ends, a text of its own, or NULL. *)
Inductive conversion :=
  | Same
  | Converted (t : text)
  | NoText.

Definition is_nan (bits : Z) : bool :=
  (Z.land (Z.shiftr bits 52) 2047 =? 2047) && negb (Z.land bits (Z.ones 52) =? 0).

Section Bind.
(** Whether the database is in UTF-8, the conversion to it, and the output
    function of type unknown. *)
Context (utf8 : bool) (to_utf8 : text → conversion) (unknown_out : text → text).

(** One parameter; [VNull] is also what a parameter that is not bound is. *)
Definition bind_param (typoid : Z) (nd : option pdatum) : result value :=
  match nd with
  | None => Ok VNull
  | Some d =>
      if (typoid =? INT2OID) || (typoid =? INT4OID) || (typoid =? INT8OID) then
        match d with Word w => Ok (VInteger (wrap_s 64 w)) | Bytes _ => Undefined "datum by reference" end
      else if (typoid =? FLOAT4OID) || (typoid =? FLOAT8OID) then
        match d with
        | Word w => Ok (if is_nan w then VNull else VFloat w)
        | Bytes _ => Undefined "datum by reference"
        end
      else if typoid =? BYTEAOID then
        match d with Bytes b => Ok (VBlob b) | Word _ => Undefined "datum by value" end
      else if typoid =? TEXTOID then
        match d with
        | Bytes b =>
            if utf8 then Ok (VText b)
            else match to_utf8 b with
                 | Converted t => Ok (VText (cstr t))
                 | Same => Undefined "read past the end of the text"
                 | NoText => Ok (VText b)
                 end
        | Word _ => Undefined "datum by value"
        end
      else if typoid =? UNKNOWNOID then
        match d with Bytes b => Ok (VText (cstr (unknown_out b))) | Word _ => Undefined "datum by value" end
      else Ok VNull
  end.

Fixpoint bind_params (params : list (Z * option pdatum)) : result (list value) :=
  match params with
  | [] => Ok []
  | (typoid, nd) :: params' => v ← bind_param typoid nd; vs ← bind_params params'; Ok (v :: vs)
  end.

(** ** Statements *)

Context {DB : Type} (E : engine DB).
Abbreviation H := (M (heap DB)).

Definition bound (params : option (list (Z * option pdatum))) : result (list value) :=
  match params with Some ps => bind_params ps | None => Ok [] end.

(** A failed step formats [msg], which is NULL. *)
Definition sqlite_exec (d : sqlite_datum) (query : text) (params : option (list (Z * option pdatum)))
  : H sqlite_datum :=
  id ← expanded_object E d;
  o ← get_object id;
  match e_prepare E (o_db o) query with
  | inl msg => ereport ("Failed to prepare SQLite query: " +:+ msg)
  | inr stmt =>
      vs ← lift_r (bound params);
      rc ← match stmt with
           | None => mret SQLITE_MISUSE
           | Some _ =>
               let '(_, rc, db) := e_run E (o_db o) query vs in
               _ ← set_object id (mkObject db (o_flat_size o));
               mret rc
           end;
      if rc =? SQLITE_DONE then mret (Expanded id)
      else undefined "NULL message formatted"
  end.

(** [sqlite3_value_type] *)
Definition value_type (v : value) : Z :=
  match v with
  | VInteger _ => 1 | VFloat _ => 2 | VText _ => 3 | VBlob _ => 4 | VNull => 5
  end.
Definition SQLITE_NULL : Z := 5.

Definition type_printer (ty : Z) : string :=
  if ty =? 1 then "integer" else if ty =? 2 then "float" else if ty =? 4 then "blob"
  else if ty =? 3 then "text" else if ty =? 5 then "null" else "unknown".

Definition column_oid (ty : Z) : Z :=
  if ty =? 1 then INT8OID else if ty =? 2 then FLOAT8OID else if ty =? 4 then BYTEAOID
  else if ty =? 3 then TEXTOID else ANYOID.

(** [into_nullable_datum] of a column. *)
Definition into_datum (v : value) : option pdatum :=
  match v with
  | VInteger i => Some (Word (wrap_u 64 i))
  | VFloat b => Some (Word b)
  | VBlob b => Some (Bytes b)
  | VText t => Some (Bytes t)
  | VNull => None
  end.

Definition mismatch (i ty got : Z) : string :=
  "column " +:+ String.string_of_list_ascii (fmt_lld i) +:+ " type mismatch, expected " +:+ type_printer ty
  +:+ ", got " +:+ type_printer got.

Fixpoint record_of (i : Z) (types : list Z) (row : list value) : result (list (option pdatum)) :=
  match types with
  | [] => Ok []
  | ty :: types' =>
      let v := default VNull (head row) in
      if negb (value_type v =? SQLITE_NULL) && negb (value_type v =? ty)
      then raise (mismatch i ty (value_type v))
      else ds ← record_of (i + 1) types' (tail row); Ok (into_datum v :: ds)
  end.

(** The records, all of which are collected before the query returns. *)
Fixpoint query_results (types : list Z) (rows : list (list value)) : result (list (list (option pdatum))) :=
  match rows with
  | [] => Ok []
  | row :: rows' => r ← record_of 0 types row; rs ← query_results types rows'; Ok (r :: rs)
  end.

(** The types of the columns, and the records, of a query. *)
Definition sqlite_query (d : sqlite_datum) (query : text) (params : option (list (Z * option pdatum)))
  : H (list Z * list (list (option pdatum))) :=
  id ← expanded_object E d;
  o ← get_object id;
  match e_prepare E (o_db o) query with
  | inl msg => ereport ("Failed to prepare SQLite query: " +:+ msg)
  | inr None => _ ← lift_r (bound params); mret ([], [])
  | inr (Some names) =>
      vs ← lift_r (bound params);
      let '(rows, rc, db) := e_run E (o_db o) query vs in
      _ ← set_object id (mkObject db (o_flat_size o));
      let types := match rows with
                   | row :: _ => map value_type row
                   | [] => if rc =? SQLITE_DONE then map (λ _, SQLITE_NULL) names else []
                   end in
      recs ← lift_r (query_results types rows);
      mret (map column_oid types, recs)
  end.
End Bind.

(** ** Storing a value *)

Section Storage.
Context {DB : Type} (E : engine DB).

(** The cached size is that of the database, or there is none. *)
Definition cache_ok (o : object DB) : Prop :=
  o_flat_size o = 0 ∨ ∃ v, e_serialize E (o_db o) = inr v ∧ o_flat_size o = Z.of_nat (length v).

Lemma written_all v : written_bytes (map Some v) = Ok v.
Proof.
  unfold written_bytes. assert (H : mapM id (map Some v) = Some v); [|by rewrite H].
  induction v as [|c v IH]; [done|]. cbn [map]. simpl. by rewrite IH.
Qed.

Lemma get_object_ok id (h : heap DB) o : objects h !! id = Some o → get_object id h = (Ok o, h).
Proof. intros Ho. unfold get_object, get_st, mbind, M_bind. by rewrite Ho. Qed.

Lemma flat_size_ok id h o v : objects h !! id = Some o → e_serialize E (o_db o) = inr v → cache_ok o →
  Z.of_nat (length v) < 2 ^ 31 →
  ∃ h', flat_size E id h = (Ok (Z.of_nat (length v)), h') ∧
    objects h' !! id = Some (mkObject (o_db o) (Z.of_nat (length v))).
Proof.
  intros Ho Hv Hc Hl. unfold flat_size. rewrite (bind_ok _ _ _ _ _ (get_object_ok id h o Ho)).
  destruct (Z.eqb_spec (o_flat_size o) 0) as [E0|E0]; cbn [negb].
  - rewrite Hv. unfold set_object. rewrite modify_bind. eexists. split; [done|]. simpl. by rewrite lookup_insert_eq.
  - destruct Hc as [Hc|(v' & Hv' & Hs)]; [done|]. rewrite Hv' in Hv. injection Hv as ->.
    exists h. split; [|by rewrite Ho, <- Hs; destruct o]. rewrite Hs, wrap_u_id by (unfold in_u; lia). done.
Qed.

Lemma flatten_into_ok id h o v : objects h !! id = Some o → e_serialize E (o_db o) = inr v →
  ∃ h', flatten_into E id (Z.of_nat (length v)) h = (Ok (map Some v), h') ∧
    objects h' = <[id := mkObject (o_db o) (Z.of_nat (length v))]> (objects h) ∧ next_object h' = next_object h.
Proof.
  intros Ho Hv. unfold flatten_into. rewrite (bind_ok _ _ _ _ _ (get_object_ok id h o Ho)). rewrite Hv.
  unfold set_object. rewrite modify_bind, Z.leb_refl, Z.sub_diag. eexists. simpl. rewrite app_nil_r. done.
Qed.

Lemma flat_length n : 0 ≤ n < 2 ^ 31 → wrap_u 64 (wrap_u 64 (n + 4) - 4) = n.
Proof. intros Hn. rewrite (wrap_u_id 64 (n + 4)), wrap_u_id by (unfold in_u; lia). lia. Qed.

(** A value whose size is not cached, or cached since its database last
    changed, is stored as the serialization of its database. *)
Lemma flatten_complete id h o v : objects h !! id = Some o → e_serialize E (o_db o) = inr v → cache_ok o →
  Z.of_nat (length v) < 2 ^ 31 →
  ∃ h', flatten E (Expanded id) h = (Ok (Flat (map Some v)), h') ∧
    objects h' !! id = Some (mkObject (o_db o) (Z.of_nat (length v))).
Proof.
  intros Ho Hv Hc Hl. unfold flatten, get_flat_size, flatten_object.
  destruct (flat_size_ok id h o v Ho Hv Hc Hl) as (h1 & E1 & H1).
  destruct (flatten_into_ok id h1 _ v H1 Hv) as (h2 & E2 & H2 & _). exists h2.
  unfold mbind, M_bind, mret, M_ret. rewrite E1, flat_length by lia. rewrite E2, H2.
  by rewrite lookup_insert_eq.
Qed.

(** A database that has outgrown the size cached for it is written past the
    end of the memory PostgreSQL asked for. *)
Lemma flatten_outgrown id h o v : objects h !! id = Some o → e_serialize E (o_db o) = inr v →
  0 < o_flat_size o < Z.of_nat (length v) → Z.of_nat (length v) < 2 ^ 31 →
  (flatten E (Expanded id) h).1 = Undefined "write past the end of the flat value".
Proof.
  intros Ho Hv Hs Hl. unfold flatten, get_flat_size, flat_size, flatten_object, flatten_into.
  unfold mbind, M_bind. rewrite !(get_object_ok id h o Ho). replace (o_flat_size o =? 0) with false by lia.
  cbn [negb]. unfold mret, M_ret. rewrite (get_object_ok id h o Ho), Hv. unfold set_object, modify_st.
  rewrite (wrap_u_id 64 (o_flat_size o)), flat_length by (unfold in_u; lia).
  by replace (Z.of_nat (length v) <=? o_flat_size o) with false by lia.
Qed.
End Storage.

Section Statements.
Context (utf8 : bool) (to_utf8 : text → conversion) (unknown_out : text → text).
Context {DB : Type} (E : engine DB).
Abbreviation bound := (bound utf8 to_utf8 unknown_out).
Abbreviation sqlite_exec := (sqlite_exec utf8 to_utf8 unknown_out E).
Abbreviation sqlite_query := (sqlite_query utf8 to_utf8 unknown_out E).

Lemma exec_object id h o q ps vs cols rows db : objects h !! id = Some o →
  e_prepare E (o_db o) q = inr (Some cols) → bound ps = Ok vs → e_run E (o_db o) q vs = (rows, SQLITE_DONE, db) →
  sqlite_exec (Expanded id) q ps h
  = (Ok (Expanded id), mkHeap (<[id := mkObject db (o_flat_size o)]> (objects h)) (next_object h)).
Proof.
  intros Ho Hp Hb Hr. unfold Value.sqlite_exec, expanded_object, mret, M_ret, mbind, M_bind.
  rewrite (get_object_ok id h o Ho), Hp. unfold lift_r. rewrite Hb, Hr. done.
Qed.

Lemma expanded_flat b db h : e_deserialize E b = Some db →
  expanded_object E (Flat (map Some b)) h
  = (Ok (next_object h), mkHeap (<[next_object h := mkObject db 0]> (objects h)) (S (next_object h))).
Proof.
  intros Hd. unfold expanded_object, restore_from, mbind, M_bind, lift_r. rewrite written_all, Hd. done.
Qed.

(** C21. A database in a table is changed as in [update t set data =
    sqlite_exec(data, ...)]: the stored bytes are made into a database of its
    own, the statement runs with the parameters bound, and what is stored
    again are the bytes of the database after the statement, all of them and
    no more; no other object of the backend is touched. *)
Theorem stored_database_updated b0 db0 db1 v1 q ps vs cols rows h :
  e_deserialize E b0 = Some db0 → e_prepare E db0 q = inr (Some cols) → bound ps = Ok vs →
  e_run E db0 q vs = (rows, SQLITE_DONE, db1) → e_serialize E db1 = inr v1 → Z.of_nat (length v1) < 2 ^ 31 →
  objects h !! next_object h = None →
  ∃ d h1 h2, sqlite_exec (Flat (map Some b0)) q ps h = (Ok d, h1) ∧
    flatten E d h1 = (Ok (Flat (map Some v1)), h2) ∧
    ∀ id, id ≠ next_object h → objects h1 !! id = objects h !! id.
Proof.
  intros Hd Hp Hb Hr Hs Hl Hfree. set (id := next_object h).
  set (h0 := mkHeap (<[id := mkObject db0 0]> (objects h)) (S id)).
  assert (Ho : objects h0 !! id = Some (mkObject db0 0)) by (simpl; by rewrite lookup_insert_eq).
  pose proof (exec_object id h0 _ q ps vs cols rows db1 Ho Hp Hb Hr) as Hx.
  set (h1 := mkHeap (<[id := mkObject db1 0]> (objects h0)) (S id)).
  assert (Ho1 : objects h1 !! id = Some (mkObject db1 0)) by (simpl; by rewrite lookup_insert_eq).
  destruct (flatten_complete E id h1 _ v1 Ho1 Hs (or_introl eq_refl) Hl) as (h2 & Hf & _).
  exists (Expanded id), h1, h2. split_and!.
  - unfold Value.sqlite_exec in *. rewrite (bind_ok _ _ _ _ _ (expanded_flat b0 db0 h Hd)). exact Hx.
  - exact Hf.
  - intros j Hj. simpl. by rewrite !lookup_insert_ne by done.
Qed.

(** The size of a value is computed once and kept: when a value that has
    been stored is changed by [sqlite_exec] to a larger database and stored
    again, PostgreSQL allocates the old size and the new bytes are written
    past its end. *)
Theorem stored_twice_overruns id h o v0 q ps vs cols rows db1 v1 :
  objects h !! id = Some o → e_serialize E (o_db o) = inr v0 → cache_ok E o → (0 < length v0)%nat →
  e_prepare E (o_db o) q = inr (Some cols) → bound ps = Ok vs → e_run E (o_db o) q vs = (rows, SQLITE_DONE, db1) →
  e_serialize E db1 = inr v1 → (length v0 < length v1)%nat → Z.of_nat (length v1) < 2 ^ 31 →
  ∃ h1 h2, flatten E (Expanded id) h = (Ok (Flat (map Some v0)), h1) ∧
    sqlite_exec (Expanded id) q ps h1 = (Ok (Expanded id), h2) ∧
    (flatten E (Expanded id) h2).1 = Undefined "write past the end of the flat value".
Proof.
  intros Ho Hv0 Hc H0 Hp Hb Hr Hv1 Hlt Hl.
  destruct (flatten_complete E id h o v0 Ho Hv0 Hc ltac:(lia)) as (h1 & Hf & Ho1).
  pose proof (exec_object id h1 _ q ps vs cols rows db1 Ho1 Hp Hb Hr) as Hx.
  exists h1. eexists. split_and!; [exact Hf|exact Hx|].
  eapply flatten_outgrown; [simpl; by rewrite lookup_insert_eq|exact Hv1|simpl; lia|exact Hl].
Qed.

(** A statement that fails formats a message that is NULL. *)
Lemma failed_exec_undefined id h o q ps vs cols rows rc db : objects h !! id = Some o →
  e_prepare E (o_db o) q = inr (Some cols) → bound ps = Ok vs → e_run E (o_db o) q vs = (rows, rc, db) →
  rc ≠ SQLITE_DONE → (sqlite_exec (Expanded id) q ps h).1 = Undefined "NULL message formatted".
Proof.
  intros Ho Hp Hb Hr Hrc. unfold Value.sqlite_exec, expanded_object, mret, M_ret, mbind, M_bind.
  rewrite (get_object_ok id h o Ho), Hp. unfold lift_r. rewrite Hb, Hr. unfold set_object, modify_st.
  by replace (rc =? SQLITE_DONE) with false by lia.
Qed.

(** ** Records of a query *)

(** A datum of a column of type [oid], which may be NULL. *)
Definition datum_typed (oid : Z) (d : option pdatum) : Prop :=
  match d with
  | None => True
  | Some (Word w) => in_u 64 w ∧ (oid = INT8OID ∨ oid = FLOAT8OID)
  | Some (Bytes _) => oid = BYTEAOID ∨ oid = TEXTOID
  end.

Definition value_wf (v : value) : Prop :=
  match v with VFloat b => in_u 64 b | _ => True end.

(** The values of a row that are not NULL have the types of the columns. *)
Definition row_agrees (types : list Z) (row : list value) : Prop :=
  Forall2 (λ ty v, value_type v = SQLITE_NULL ∨ value_type v = ty) types row.

#[local] Instance row_agrees_dec types row : Decision (row_agrees types row).
Proof. unfold row_agrees. apply _. Defined.

Lemma value_checked v ty :
  negb (value_type v =? SQLITE_NULL) && negb (value_type v =? ty)
  = negb (bool_decide (value_type v = SQLITE_NULL ∨ value_type v = ty)).
Proof.
  destruct (Z.eqb_spec (value_type v) SQLITE_NULL), (Z.eqb_spec (value_type v) ty); case_bool_decide; naive_solver.
Qed.

Lemma record_of_row types : ∀ i row, length row = length types →
  if decide (row_agrees types row) then record_of i types row = Ok (map into_datum row)
  else ∃ e, record_of i types row = Err e.
Proof.
  induction types as [|ty types IH]; intros i [|v row] Hl; try done.
  cbn [record_of]. cbn [head default tail]. simpl default. rewrite value_checked.
  specialize (IH (i + 1) row ltac:(by injection Hl)). unfold row_agrees in *.
  destruct (decide (Forall2 _ (ty :: types) (v :: row))) as [Ha|Ha].
  - apply Forall2_cons_1 in Ha as [Hv Ha]. rewrite bool_decide_true by done.
    rewrite decide_True in IH by done. cbn [negb]. by rewrite IH.
  - case_bool_decide as Hv; cbn [negb]; [|by eexists]. rewrite decide_False in IH by (contradict Ha; by constructor).
    destruct IH as [e IH]. exists e. by rewrite IH.
Qed.

Lemma query_results_rows types rows : Forall (λ row, length row = length types) rows →
  if decide (Forall (row_agrees types) rows) then query_results types rows = Ok (map (map into_datum) rows)
  else ∃ e, query_results types rows = Err e.
Proof.
  induction 1 as [|row rows Hl _ IH]; [by rewrite decide_True by constructor|]. cbn [query_results].
  pose proof (record_of_row types 0 row Hl) as Hr.
  destruct (decide (Forall (row_agrees types) (row :: rows))) as [Ha|Ha].
  - apply list.Forall_cons in Ha as [Ha1 Ha2]. rewrite decide_True in Hr by done. rewrite decide_True in IH by done.
    by rewrite Hr, IH.
  - destruct (decide (row_agrees types row)); [|destruct Hr as [e ->]; by eexists].
    rewrite decide_False in IH by (contradict Ha; by constructor). destruct IH as [e IH]. exists e. by rewrite Hr, IH.
Qed.

Lemma row_typed types row : Forall value_wf row → row_agrees types row →
  Forall2 datum_typed (map column_oid types) (map into_datum row).
Proof.
  intros Hw Ha. induction Ha as [|ty v types row Hv _ IH]; [constructor|].
  apply list.Forall_cons in Hw as [Hw Hws]. cbn [map]. constructor; [|by apply IH].
  destruct v as [|n|b|t|b]; [done|..]; (destruct Hv as [Hv|Hv]; [done|]); subst ty; cbn.
  - split; [apply wrap_u_in; lia|by left].
  - split; [exact Hw|by right].
  - by right.
  - by left.
Qed.

(** The types of the columns: those of the first row, or NULL without rows. *)
Definition result_types (names : list text) (rows : list (list value)) : list Z :=
  match rows with row :: _ => map value_type row | [] => map (λ _, SQLITE_NULL) names end.


(** An error of the first step is not reported: the query has no records. *)
Lemma failed_query_is_empty id h o q ps vs names rc db : objects h !! id = Some o →
  e_prepare E (o_db o) q = inr (Some names) → bound ps = Ok vs → e_run E (o_db o) q vs = ([], rc, db) →
  rc ≠ SQLITE_DONE → (sqlite_query (Expanded id) q ps h).1 = Ok ([], []).
Proof.
  intros Ho Hp Hb Hr Hrc. unfold Value.sqlite_query, expanded_object, mret, M_ret, mbind, M_bind.
  rewrite (get_object_ok id h o Ho), Hp. unfold lift_r, set_object, modify_st. rewrite Hb, Hr.
  by replace (rc =? SQLITE_DONE) with false by lia.
Qed.

(** ** Parameters and results *)

(** The datum of an integer, sign-extended to 64 bits. *)
Definition int_datum (n : Z) : option pdatum := Some (Word (wrap_u 64 n)).

Abbreviation bind_param := (bind_param utf8 to_utf8 unknown_out).

Lemma bind_int n oid : oid = INT2OID ∨ oid = INT4OID ∨ oid = INT8OID → in_s 64 n →
  bind_param oid (int_datum n) = Ok (VInteger n).
Proof.
  intros Hoid Hn. unfold Value.bind_param, int_datum.
  replace ((oid =? INT2OID) || (oid =? INT4OID) || (oid =? INT8OID)) with true
    by (destruct Hoid as [->|[->| ->]]; done).
  f_equal. f_equal. rewrite <- (wrap_s_id 64 n) at 2 by (done || lia). apply wrap_s_cong; [lia|].
  unfold wrap_u. by rewrite Z.mod_mod.
Qed.

(** A parameter that is bound and selected comes back as it was: integers
    of all widths as bigint of the same value, double precision but NaN, byte
    strings, and texts of a database in UTF-8. *)
Theorem parameters_come_back :
  (∀ n oid, oid = INT2OID ∨ oid = INT4OID ∨ oid = INT8OID → in_s 64 n →
     (v ← bind_param oid (int_datum n); Ok (column_oid (value_type v), into_datum v))
     = Ok (INT8OID, int_datum n)) ∧
  (∀ bits, is_nan bits = false →
     (v ← bind_param FLOAT8OID (Some (Word bits)); Ok (column_oid (value_type v), into_datum v))
     = Ok (FLOAT8OID, Some (Word bits))) ∧
  (∀ b, (v ← bind_param BYTEAOID (Some (Bytes b)); Ok (column_oid (value_type v), into_datum v))
        = Ok (BYTEAOID, Some (Bytes b))) ∧
  (utf8 = true → ∀ t, (v ← bind_param TEXTOID (Some (Bytes t)); Ok (column_oid (value_type v), into_datum v))
                      = Ok (TEXTOID, Some (Bytes t))).
Proof.
  split_and!.
  - intros n oid Hoid Hn. by rewrite bind_int.
  - intros bits Hb. cbn. by rewrite Hb.
  - done.
  - intros -> t. done.
Qed.
End Statements.

(** ** A small engine

    A database is the list of the statements run on it, [select] apart, which
    returns its parameters as one row, and [fail], which fails. *)
Module Demo.

Definition header : ascii := "S"%char.

Definition restore (b : text) : option (list text) :=
  match b with c :: t => if (c =? header)%char then Some [t] else None | [] => None end.

Definition run (db : list text) (q : text) (vs : list value) : list (list value) * Z * list text :=
  if decide (q = str "select") then ([vs], SQLITE_DONE, db)
  else if decide (q = str "fail") then ([], 1, db)
  else ([], SQLITE_DONE, db ++ [q]).

Definition demo : engine (list text) :=
  mkEngine [] (λ db, inr (header :: concat db)) restore (λ db q, (db ++ [q], None))
    (λ _ q, if decide (q = []) then inr None else inr (Some [str "a"; str "b"]))
    run (λ db, Ok (0, concat db)).

Definition one : heap (list text) := mkHeap {[ 0%nat := mkObject [str "x"] 0 ]} 1.

Abbreviation exec := (sqlite_exec true (λ _, NoText) id demo).
Abbreviation query := (sqlite_query true (λ _, NoText) id demo).

(** A parameter of type real is read as double precision: the bits of 1.5 in
    single precision are those of a denormal double. *)
Example real_parameter_misread :
  bind_param true (λ _, NoText) id FLOAT4OID (Some (Word 0x3FC00000)) = Ok (VFloat 0x3FC00000).
Proof. done. Qed.

(** A parameter of a type that is not listed, as boolean, is not bound. *)
Example boolean_parameter_is_null :
  bind_param true (λ _, NoText) id 16 (Some (Word 1)) = Ok VNull.
Proof. done. Qed.

(** A column whose first value is NULL has no type, and a later value of any
    type is refused. *)
Example null_first_is_refused :
  query_results [SQLITE_NULL] [[VNull]; [VInteger 7]]
  = raise "column 0 type mismatch, expected null, got integer".
Proof. by vm_compute. Qed.

(** Of two names of one object, the statement run through one is seen through
    the other. *)
Example exec_changes_its_argument :
  (_ ← exec (Expanded 0) (str "y") None; sqlite_out demo (Expanded 0)) one
  = (Ok (str "xy"), mkHeap {[ 0%nat := mkObject [str "x"; str "y"] 0 ]} 1).
Proof. by vm_compute. Qed.

End Demo.
Import Demo.

Lemma stored_database_updated_witness :
  ∃ d h1 h2, exec (Flat (map Some (str "Sab"))) (str "c") (Some [(INT4OID, int_datum 7)]) one = (Ok d, h1) ∧
    flatten demo d h1 = (Ok (Flat (map Some (str "Sabc"))), h2) ∧
    ∀ id, id ≠ 1%nat → objects h1 !! id = objects one !! id.
Proof.
  apply (stored_database_updated true (λ _, NoText) id demo (str "Sab") [str "ab"] [str "ab"; str "c"] (str "Sabc")
           (str "c") (Some [(INT4OID, int_datum 7)]) [VInteger 7] [str "a"; str "b"] [] one); try by vm_compute.
Defined.

Lemma stored_twice_overruns_witness :
  ∃ h1 h2, flatten demo (Expanded 0) one = (Ok (Flat (map Some (str "Sx"))), h1) ∧
    exec (Expanded 0) (str "y") None h1 = (Ok (Expanded 0), h2) ∧
    (flatten demo (Expanded 0) h2).1 = Undefined "write past the end of the flat value".
Proof.
  apply (stored_twice_overruns true (λ _, NoText) id demo 0 one (mkObject [str "x"] 0) (str "Sx") (str "y") None []
           [str "a"; str "b"] [] [str "x"; str "y"] (str "Sxy")); try by vm_compute.
  - by left.
  - simpl. lia.
Defined.


Lemma parameters_come_back_witness :
  (v ← bind_param true (λ _, NoText) id INT2OID (int_datum (-5)); Ok (column_oid (value_type v), into_datum v))
  = Ok (INT8OID, int_datum (-5)).
Proof.
  apply (parameters_come_back true (λ _, NoText) id); [by left|]. unfold in_s. lia.
Defined.

End Value.
