(* ===== verification/Csv.v ===== *)
(** * omni_csv

    omni_csv/omni_csv.cpp with the parser and the writer of deps/csv.hpp: the
    names and the rows of a text of comma-separated values, and the aggregate
    that makes such a text.

    The format is that of [default_format]: three delimiters to choose from,
    the quote of CSVFormat, no characters to trim.  The parser follows the text
    character by character and keeps of a field its place in the data; fields
    are taken out of the data when a row is converted.  The blocks of a
    CSVFieldList are one list.  The thread that reads a chunk and the one that
    takes its rows are run one after the other. *)

From stdpp Require Import base tactics list gmap strings numbers relations.
From Stdlib Require Import ZArith Lia Ascii.
From S2P Require Import Prelude CText.

Set Default Proof Using "Type".
Local Open Scope Z_scope.

Module Format.

(** ** Flags of characters *)

(** [ParseFlags], as bits *)
Definition QUOTE_ESCAPE_QUOTE : Z := 0.
Definition QUOTE : Z := 3.
Definition NOT_SPECIAL : Z := 4.
Definition DELIMITER : Z := 6.
Definition NEWLINE : Z := 7.

Definition quote_escape_flag (flag : Z) (quote_escape : bool) : Z :=
  Z.land flag (Z.lnot (QUOTE * Z.b2z quote_escape)).

Definition quote_char : ascii := DQUOT.
Definition TAB : ascii := chr 9.

(** [make_parse_flags(delimiter, quote_char)] *)
Definition parse_flag (delimiter ch : ascii) : Z :=
  if ceq ch quote_char then QUOTE
  else if ceq ch delimiter then DELIMITER
  else if ceq ch CR || ceq ch NL then NEWLINE
  else NOT_SPECIAL.

(** ** Parser *)

Record RawCSVField := mkField { start : nat; length_ : nat; has_double_quote : bool }.

(** A row: where it starts in the data and in the fields, and its size. *)
Record CSVRow := mkRow { data_start : nat; fields_start : nat; row_length : nat }.

Record parser := mkParser {
  quote_escape : bool;
  field_has_double_quote : bool;
  data_pos : nat;
  field_start : option nat;          (* [None] is UNINITIALIZED_FIELD *)
  field_length : nat;
  current_row : CSVRow;
  fields : list RawCSVField;
  records : list CSVRow
}.

Definition with_pos (n : nat) (p : parser) : parser :=
  mkParser (quote_escape p) (field_has_double_quote p) (data_pos p + n) (field_start p) (field_length p)
           (current_row p) (fields p) (records p).
Definition with_escape (b : bool) (p : parser) : parser :=
  mkParser b (field_has_double_quote p) (data_pos p) (field_start p) (field_length p)
           (current_row p) (fields p) (records p).
Definition with_field (b : bool) (s : option nat) (l : nat) (p : parser) : parser :=
  mkParser (quote_escape p) b (data_pos p) s l (current_row p) (fields p) (records p).

Definition push_field (p : parser) : parser :=
  let r := current_row p in
  mkParser (quote_escape p) false (data_pos p) None 0
           (mkRow (data_start r) (fields_start r) (row_length r + 1))
           (fields p ++ [mkField (default 0%nat (field_start p)) (field_length p) (field_has_double_quote p)])
           (records p).

Definition push_row (p : parser) : parser :=
  let r := current_row p in
  let r := mkRow (data_start r) (fields_start r) (length (fields p) - fields_start r) in
  mkParser (quote_escape p) (field_has_double_quote p) (data_pos p) (field_start p) (field_length p)
           r (fields p) (records p ++ [r]).

(** [current_row = CSVRow(data_ptr, data_pos, fields->size())] *)
Definition new_row (p : parser) : parser :=
  mkParser (quote_escape p) (field_has_double_quote p) (data_pos p) (field_start p) (field_length p)
           (mkRow (data_pos p) (length (fields p)) 0) (fields p) (records p).

Section Parser.
Context (delimiter : ascii).

Definition compound_parse_flag (p : parser) (ch : ascii) : Z :=
  quote_escape_flag (parse_flag delimiter ch) (quote_escape p).

(** [z] is what is left of the data. *)
Definition parse_field (z : text) (p : parser) : text * parser :=
  let s := default (data_pos p - data_start (current_row p))%nat (field_start p) in
  let n := count_while (λ c, compound_parse_flag p c =? NOT_SPECIAL) z in
  let p := with_pos n p in
  (drop n z, with_field (field_has_double_quote p) (Some s) (data_pos p - (s + data_start (current_row p)))%nat p).

(** One turn of the loop of [parse] at [c :: z]; [None] is an early return. *)
Definition parse_step (c : ascii) (z : text) (p : parser) : option (text * parser) :=
  let flag := compound_parse_flag p c in
  if flag =? DELIMITER then Some (z, with_pos 1 (push_field p))
  else if flag =? NEWLINE then
    let n := count_while (λ c, parse_flag delimiter c =? NEWLINE) z in
    Some (drop n z, new_row (push_row (push_field (with_pos (1 + n) p))))
  else if flag =? NOT_SPECIAL then Some (parse_field (c :: z) p)
  else if flag =? QUOTE_ESCAPE_QUOTE then
    match z with
    | [] => None
    | next :: z' =>
        if DELIMITER <=? parse_flag delimiter next then Some (z, with_pos 1 (with_escape false p))
        else if parse_flag delimiter next =? QUOTE then
          Some (z', with_pos 2 (with_field true (field_start p) (field_length p + 2) p))
        else Some (z, with_pos 1 (with_field (field_has_double_quote p) (field_start p) (field_length p + 1) p))
    end
  else
    if (field_length p =? 0)%nat then
      let p := with_pos 1 (with_escape true p) in
      let s := match field_start p, z with
               | None, _ :: _ => Some (data_pos p - data_start (current_row p))%nat
               | s, _ => s
               end in
      Some (z, with_field (field_has_double_quote p) s (field_length p) p)
    else Some (z, with_pos 1 (with_field (field_has_double_quote p) (field_start p) (field_length p + 1) p)).

Fixpoint parse_loop (fuel : nat) (z : text) (p : parser) : parser :=
  match fuel, z with
  | S fuel', c :: z' =>
      match parse_step c z' p with
      | Some (z, p) => parse_loop fuel' z p
      | None => p
      end
  | _, _ => p
  end.

Definition BOM : text := [chr 239; chr 187; chr 191].

(** [trim_utf8_bom] and [parse], on the state [next] has reset; the mark is
    looked for in the first chunk that has three bytes. *)
Definition parse_data (bom_scanned double_quote : bool) (data : text) : parser :=
  let n := if negb bom_scanned && starts_with BOM data then 3%nat else 0%nat in
  parse_loop (S (length data)) (drop n data) (mkParser false double_quote n None 0 (mkRow 0 0 0) [] []).

Definition end_feed (data : text) (p : parser) : parser :=
  let empty_last_field :=
    match list.last data with
    | Some c => (parse_flag delimiter c =? DELIMITER) || (parse_flag delimiter c =? QUOTE)
    | None => false
    end in
  let p := if negb (field_length p =? 0)%nat || empty_last_field then push_field p else p in
  if negb (row_length (current_row p) =? 0)%nat then push_row p else p.

(** ** Rows *)

(** The characters of a field with doubled quotes, every second quote left
    out. *)
Fixpoint undouble (prev_ch_quote : bool) (z : text) : text :=
  match z with
  | [] => []
  | c :: z' =>
      if parse_flag delimiter c =? QUOTE then
        if prev_ch_quote then undouble false z' else c :: undouble true z'
      else c :: undouble prev_ch_quote z'
  end.

Definition get_field (data : text) (fields : list RawCSVField) (r : CSVRow) (index : nat) : result text :=
  if (row_length r <=? index)%nat then raise "Index out of bounds."
  else
    match fields !! (fields_start r + index)%nat with
    | None => Undefined "field that is not there"
    | Some f =>
        let field_str := drop (data_start r + start f) data in
        if (length field_str <? length_ f)%nat && has_double_quote f then Undefined "read past the end of the data"
        else if has_double_quote f then Ok (undouble false (take (length_ f) field_str))
        else Ok (take (length_ f) field_str)
    end.

(** [operator std::vector<std::string>] *)
Fixpoint get_fields (data : text) (fields : list RawCSVField) (r : CSVRow) (i n : nat) : result (list text) :=
  match n with
  | O => Ok []
  | S n' => v ← get_field data fields r i; vs ← get_fields data fields r (i + 1) n'; Ok (v :: vs)
  end.

Definition row_values (data : text) (fields : list RawCSVField) (r : CSVRow) : result (list text) :=
  get_fields data fields r 0 (row_length r).

(** ** Chunks *)

Definition ITERATION_CHUNK_SIZE : Z := 10000000.

Record stream := mkStream {
  stream_pos : Z;
  eof : bool;
  unicode_bom_scan : bool;
  double_quote_pending : bool;
  chunks : list (text * parser)      (* the data read and what was made of it *)
}.

(** [StreamParser::next] *)
Definition next (source : text) (bytes : Z) (s : stream) : stream :=
  if eof s then s
  else
    let source_size := Z.of_nat (length source) in
    let len := Z.min (source_size - stream_pos s) bytes in
    let data := take (Z.to_nat len) (drop (Z.to_nat (stream_pos s)) source) in
    let p := parse_data (unicode_bom_scan s) (double_quote_pending s) data in
    let remainder := Z.of_nat (data_start (current_row p)) in
    let pos := stream_pos s + len in
    let scanned := unicode_bom_scan s || (3 <=? Z.of_nat (length data)) in
    if (pos =? source_size) || (source_size <? ITERATION_CHUNK_SIZE) then
      let p := end_feed data p in
      mkStream pos true scanned (field_has_double_quote p) (chunks s ++ [(data, p)])
    else
      mkStream (pos - (len - remainder)) false scanned (field_has_double_quote p) (chunks s ++ [(data, p)]).
End Parser.

(** The reads of the whole source, one chunk after the other. *)
Fixpoint read_csv (delimiter : ascii) (fuel : nat) (source : text) (s : stream) : result (list (text * parser)) :=
  match fuel with
  | O => Undefined "reading does not end"
  | S fuel' =>
      if eof s then Ok (chunks s)
      else read_csv delimiter fuel' source (next delimiter source ITERATION_CHUNK_SIZE s)
  end.

Definition stream0 : stream := mkStream 0 false false false [].

(** ** The format *)

(** [std::getline] *)
Fixpoint get_csv_head (source : text) : text :=
  match source with
  | [] => []
  | c :: z => if ceq c NL then [] else c :: get_csv_head z
  end.

(** The order in which the elements of an unordered map come. *)
Section Reader.
Context (order : list (nat * (nat * nat)) → list (nat * (nat * nat))).

(** [row_tally] and [row_when]: sizes of rows with how many there are and the
    first one. *)
Fixpoint tally (i : nat) (rows : list CSVRow) (t : list (nat * (nat * nat))) : list (nat * (nat * nat)) :=
  match rows with
  | [] => t
  | r :: rows' =>
      let n := row_length r in
      tally (i + 1) rows'
        (if (n =? 0)%nat then t
         else match find (λ e, (fst e =? n)%nat) t with
              | Some _ => map (λ e, if (fst e =? n)%nat then (n, (fst (snd e) + 1, snd (snd e))%nat) else e) t
              | None => t ++ [(n, (1, i)%nat)]
              end)
  end.

Fixpoint best (t : list (nat * (nat * nat))) (final_score header_row : nat) : nat * nat :=
  match t with
  | [] => (final_score, header_row)
  | (row_size, (row_count, when)) :: t' =>
      if (final_score <? row_size * row_count)%nat then best t' (row_size * row_count) when
      else best t' final_score header_row
  end.

(** [head.data()] is read as a C string. *)
Definition calculate_score (head : text) (delimiter : ascii) : nat * nat :=
  let s := next delimiter (cstr head) ITERATION_CHUNK_SIZE stream0 in
  best (order (tally 0 (chunks s ≫= λ '(_, p), records p) [(0, (0, 0))%nat])) 0 0.

Fixpoint guess_loop (head : text) (delims : list ascii) (max_score header : nat) (current_delim : ascii)
  : ascii * nat :=
  match delims with
  | [] => (current_delim, header)
  | d :: delims' =>
      let '(score, h) := calculate_score head d in
      if (max_score <? score)%nat then guess_loop head delims' score h d
      else guess_loop head delims' max_score header current_delim
  end.

Definition _guess_format (head : text) (delims : list ascii) : ascii * nat :=
  guess_loop head delims 0 0 (default NUL (delims !! 0%nat)).

(** ** The functions of omni_csv *)

Definition default_delimiters : list ascii := ["|"%char; ","%char; TAB].

Fixpoint chunk_rows (delim : ascii) (data : text) (fields : list RawCSVField) (rs : list CSVRow)
  : result (list (list text)) :=
  match rs with
  | [] => Ok []
  | r :: rs' => vs ← row_values delim data fields r; vss ← chunk_rows delim data fields rs'; Ok (vs :: vss)
  end.

(** The rows of every chunk. *)
Fixpoint rows_of (delim : ascii) (l : list (text * parser)) : result (list (list (list text))) :=
  match l with
  | [] => Ok []
  | (data, p) :: l' => a ← chunk_rows delim data (fields p) (records p); b ← rows_of delim l'; Ok (a :: b)
  end.

(** The names and the rows behind them. *)
Definition trim_header (header : nat) (rows : list (list text)) : list text * list (list text) :=
  (default [] (rows !! header), drop (header + 1) rows).

(** [CSVReader]: the guess from the first line, the rows, and the header with
    the rows before it taken off those of the first chunk. *)
Definition CSVReader (source : text) : result (list text * list (list (list text))) :=
  let '(delim, header) := _guess_format (get_csv_head source) default_delimiters in
  chunks ← read_csv delim (S (S (length source))) source stream0;
  rows ← rows_of delim chunks;
  match rows with
  | [] => Ok ([], [])
  | first :: rest => let '(names, first) := trim_header header first in Ok (names, first :: rest)
  end.

(** The rows [read_row] returns one after the other. *)
Definition read_rows (n_cols : nat) (rows : list (list text)) : list (list text) :=
  List.filter (λ r, length r =? n_cols)%nat rows.

(** The iterator: [begin] looks at two chunks for a first row and takes it as
    it is, [read_row] leaves out the rows of another size. *)
Definition iterate (n_cols : nat) (rows : list (list (list text))) : list (list text) :=
  match rows with
  | [] :: [] :: _ => []
  | _ => match concat rows with
         | [] => []
         | r :: rows' => r :: read_rows n_cols rows'
         end
  end.

Definition csv_info (csv : text) : result (list text) :=
  '(names, _) ← CSVReader csv; Ok names.

(** [heap_form_tuple] of a descriptor with [n] attributes reads [n] values. *)
Definition record_of (n : nat) (values : list text) : result (list text) :=
  if (length values <? n)%nat then Undefined "read past the end of the values" else Ok (take n values).

Fixpoint records_of (n : nat) (rows : list (list text)) : result (list (list text)) :=
  match rows with
  | [] => Ok []
  | r :: rows' => v ← record_of n r; vs ← records_of n rows'; Ok (v :: vs)
  end.

Definition parse (csv : text) : result (list (list text)) :=
  '(names, rows) ← CSVReader csv; records_of (length names) (iterate (length names) rows).
End Reader.

(** ** The aggregate *)

Definition csv_escape (field : text) : text :=
  if existsb (λ ch, ceq ch quote_char || ceq ch ","%char || ceq ch CR || ceq ch NL) field
  then quote_char :: double_quotes quote_char field ++ [quote_char]
  else field.

Fixpoint join (l : list text) : text :=
  match l with
  | [] => []
  | [x] => x
  | x :: l' => x ++ ","%char :: join l'
  end.

Definition write_row (record : list text) : text := join (map csv_escape record) ++ [NL].

Record csv_aggregate := mkAgg { header_written : bool; buffer : text }.

(** The values of a record are those of the output functions of their types;
    there is none for NULL. *)
Fixpoint values_of (record : list (option text)) : result (list text) :=
  match record with
  | [] => Ok []
  | None :: _ => raise "passed datum is null"
  | Some v :: record' => vs ← values_of record'; Ok (v :: vs)
  end.

Definition update (names : list text) (record : list (option text)) (a : csv_aggregate) : result csv_aggregate :=
  let b := if header_written a then buffer a else buffer a ++ write_row names in
  vs ← values_of record;
  Ok (mkAgg true (b ++ write_row vs)).

Fixpoint updates (names : list text) (rs : list (list (option text))) (a : csv_aggregate) : result csv_aggregate :=
  match rs with
  | [] => Ok a
  | r :: rs' => a ← update names r a; updates names rs' a
  end.

Definition csv_agg (names : list text) (rs : list (list (option text))) : result text :=
  a ← updates names rs (mkAgg false []); Ok (buffer a).

(** ** Steps of the parser *)

Section Steps.
Context (delimiter : ascii).

(** One turn, as a relation. *)
Definition turn (a b : text * parser) : Prop :=
  match a with
  | (c :: z, p) => parse_step delimiter c z p = Some b
  | _ => False
  end.

Lemma flag_cases c :
  (c = quote_char ∧ parse_flag delimiter c = QUOTE) ∨
  (c = delimiter ∧ parse_flag delimiter c = DELIMITER) ∨
  ((c = CR ∨ c = NL) ∧ parse_flag delimiter c = NEWLINE) ∨
  (c ≠ quote_char ∧ c ≠ delimiter ∧ c ≠ CR ∧ c ≠ NL ∧ parse_flag delimiter c = NOT_SPECIAL).
Proof.
  unfold parse_flag.
  destruct (Ascii.eqb_spec c quote_char); [by left|].
  destruct (Ascii.eqb_spec c delimiter); [by right; left|].
  destruct (Ascii.eqb_spec c CR); [by right; right; left; split; [left|]|].
  destruct (Ascii.eqb_spec c NL); [by right; right; left; split; [right|]|].
  by right; right; right.
Qed.

(** A turn takes characters off. *)
Lemma parse_step_shorter c z p z' p' : parse_step delimiter c z p = Some (z', p') → (length z' <= length z)%nat.
Proof.
  unfold parse_step. intros H.
  destruct (compound_parse_flag delimiter p c =? DELIMITER); [by injection H as <- <-|].
  destruct (compound_parse_flag delimiter p c =? NEWLINE).
  { injection H as <- <-. rewrite length_drop. lia. }
  destruct (Z.eqb_spec (compound_parse_flag delimiter p c) NOT_SPECIAL) as [E|E].
  { unfold parse_field in H. injection H as <- <-. cbn [count_while]. rewrite E. simpl. rewrite length_drop. lia. }
  destruct (compound_parse_flag delimiter p c =? QUOTE_ESCAPE_QUOTE).
  - destruct z as [|n z]; [done|]. simpl.
    destruct (DELIMITER <=? parse_flag delimiter n); [by injection H as <- <-|].
    destruct (parse_flag delimiter n =? QUOTE); injection H as <- <-; simpl; lia.
  - destruct (field_length p =? 0)%nat; by injection H as <- <-.
Qed.

Lemma turns_loop a b : rtc turn a b → ∀ fuel, (length a.1 < fuel)%nat →
  ∃ fuel', (length b.1 < fuel')%nat ∧ parse_loop delimiter fuel a.1 a.2 = parse_loop delimiter fuel' b.1 b.2.
Proof.
  induction 1 as [a|a b c Hab _ IH]; intros fuel Hf; [by exists fuel|].
  destruct a as [[|x z] p]; [done|]. destruct b as [z' p']. simpl in Hab, Hf.
  destruct fuel as [|fuel]; [lia|]. pose proof (parse_step_shorter _ _ _ _ _ Hab) as Hl.
  destruct (IH fuel) as (f' & Hf' & E); [simpl; lia|]. exists f'. split; [done|].
  cbn [parse_loop fst snd]. rewrite Hab. exact E.
Qed.

(** The parser when everything is read, or at the early return. *)
Lemma turns_end z p z' p' : rtc turn (z, p) (z', p') →
  (z' = [] ∨ ∃ c z'', z' = c :: z'' ∧ parse_step delimiter c z'' p' = None) → ∀ fuel, (length z < fuel)%nat →
  parse_loop delimiter fuel z p = p'.
Proof.
  intros Ht He fuel Hf. destruct (turns_loop _ _ Ht fuel Hf) as (f' & Hf' & E). simpl in *. rewrite E.
  destruct f' as [|f']; [lia|]. destruct He as [->|(c & z'' & -> & Hs)]; simpl; [done|by rewrite Hs].
Qed.

Lemma compound_plain p c : quote_escape p = false → compound_parse_flag delimiter p c = parse_flag delimiter c.
Proof.
  intros E. unfold compound_parse_flag. rewrite E.
  by destruct (flag_cases c) as [[_ ->]|[[_ ->]|[[_ ->]|(_ & _ & _ & _ & ->)]]].
Qed.
End Steps.

Lemma count_run p (a r : text) : Forall (λ c, p c = true) a → (r = [] ∨ ∃ d r', r = d :: r' ∧ p d = false) →
  count_while p (a ++ r) = length a.
Proof.
  intros Ha [->|(d & r' & -> & Hd)]; [rewrite app_nil_r; by apply count_while_all|by apply count_while_app].
Qed.

(** ** Reading what was written *)

Section Written.
Abbreviation comma := (","%char).
Abbreviation flag := (parse_flag comma).
Abbreviation turn := (turn comma).
Abbreviation Q := quote_char.

Lemma compound_escaped p c : quote_escape p = true →
  compound_parse_flag comma p c = if ceq c Q then QUOTE_ESCAPE_QUOTE else NOT_SPECIAL.
Proof.
  intros E. unfold compound_parse_flag. rewrite E.
  destruct (flag_cases comma c) as [[-> ->]|[[-> ->]|[[[->| ->] ->]|(H & _ & _ & _ & ->)]]]; try done. by rewrite ceq_neq.
Qed.

(** *** One field *)

(** The parser before a field, and with a field in progress. *)
Definition fresh (p : parser) : Prop :=
  quote_escape p = false ∧ field_has_double_quote p = false ∧ field_start p = None ∧ field_length p = 0%nat ∧
  (data_start (current_row p) <= data_pos p)%nat.

Definition at_field (esc dq : bool) (pos : nat) (st : option nat) (len : nat) (p : parser) : parser :=
  mkParser esc dq pos st len (current_row p) (fields p) (records p).

Definition quotes (f : text) : bool := existsb (λ c, ceq c Q) f.

Lemma no_quotes_double f : quotes f = false → double_quotes Q f = f.
Proof.
  induction f as [|c f IH]; [done|]. cbn [quotes existsb]. rewrite double_quotes_cons, orb_false_iff.
  intros [-> H]. cbn [app]. f_equal. by apply IH.
Qed.

(** A text up to its first quote. *)
Lemma split_quote f : ∃ run rest, f = run ++ rest ∧ quotes run = false ∧ (rest = [] ∨ ∃ rest', rest = Q :: rest').
Proof.
  induction f as [|c f (run & rest & -> & Hr & Hs)]; [exists [], []; auto|].
  destruct (Ascii.eqb_spec c Q) as [->|Hc]; [by exists [], (Q :: run ++ rest); split_and!; [..|right; eexists]|].
  exists (c :: run), rest. split_and!; [done| |done]. cbn. by rewrite ceq_neq.
Qed.

Lemma escaped_inner p off ds z : ds = data_start (current_row p) → (ds <= off)%nat → ∀ k f dq n, (length f < k)%nat →
  rtc turn (double_quotes Q f ++ Q :: z, at_field true dq (off + n) (Some (off - ds)%nat) n p)
           (Q :: z, at_field true (dq || quotes f) (off + n + length (double_quotes Q f)) (Some (off - ds)%nat)
                             (n + length (double_quotes Q f)) p).
Proof.
  intros Hds Hoff. induction k as [|k IH]; intros f dq n Hk; [lia|].
  destruct f as [|c f]; [by rewrite orb_false_r, !Nat.add_0_r|].
  destruct (Ascii.eqb_spec c Q) as [->|Hc].
  - rewrite double_quotes_cons, ceq_refl. cbn [app]. eapply rtc_l.
    { unfold turn, parse_step. rewrite compound_escaped, ceq_refl by done. done. }
    replace (with_pos 2 _) with (at_field true true (off + (n + 2)) (Some (off - ds)%nat) (n + 2) p)
      by (unfold at_field, with_pos, with_field; cbn; f_equal; lia).
    simpl in Hk. replace (dq || quotes (Q :: f)) with (true || quotes f) by (simpl; by rewrite orb_true_r).
    replace (off + n + length (Q :: Q :: double_quotes Q f))%nat
      with (off + (n + 2) + length (double_quotes Q f))%nat by (simpl; lia).
    replace (n + length (Q :: Q :: double_quotes Q f))%nat
      with (n + 2 + length (double_quotes Q f))%nat by (simpl; lia).
    apply IH. lia.
  - destruct (split_quote (c :: f)) as (run & rest & E & Hr & Hs). rewrite E in *.
    assert (Hne : run ≠ []) by (intros ->; destruct Hs as [->|[r' ->]]; naive_solver).
    rewrite double_quotes_app, (no_quotes_double run Hr), <- app_assoc. destruct run as [|c' run]; [done|].
    eapply rtc_l.
    { cbn [app]. unfold turn, parse_step. rewrite compound_escaped by done.
      cbn [quotes existsb] in Hr. apply orb_false_iff in Hr as [-> _]. done. }
    assert (Hcount : count_while (λ c, compound_parse_flag comma (at_field true dq (off + n) (Some (off - ds)%nat) n p) c
                     =? NOT_SPECIAL) ((c' :: run) ++ double_quotes Q rest ++ Q :: z) = length (c' :: run)).
    { apply count_run.
      - apply list.Forall_forall. intros x Hx. rewrite compound_escaped by done. rewrite ceq_neq; [done|]. intros ->.
        assert (Ht : quotes (c' :: run) = true) by (apply existsb_exists; exists Q; split; [by apply list_elem_of_In|apply ceq_refl]).
        congruence.
      - right. exists Q. destruct Hs as [->|[r' ->]]; eexists; (split; [done|]); by rewrite compound_escaped, ceq_refl. }
    unfold parse_field. change (c' :: run ++ ?l) with ((c' :: run) ++ l). rewrite Hcount, drop_app_length.
    set (m := length (c' :: run)) in *.
    assert (Hm : (length rest < k)%nat) by (rewrite length_app in Hk; unfold m in *; simpl in *; lia).
    replace (with_field _ _ _ _) with (at_field true dq (off + (n + m)) (Some (off - ds)%nat) (n + m) p)
      by (unfold at_field, with_pos, with_field; cbn; rewrite <- Hds; f_equal; lia).
    replace (quotes ((c' :: run) ++ rest)) with (quotes rest) by (unfold quotes in *; rewrite existsb_app, Hr; done).
    rewrite length_app. fold m.
    replace (off + n + (m + length (double_quotes Q rest)))%nat with (off + (n + m) + length (double_quotes Q rest))%nat by lia.
    replace (n + (m + length (double_quotes Q rest)))%nat with (n + m + length (double_quotes Q rest))%nat by lia.
    by apply IH.
Qed.
(** What a field of the parser stands for in the data. *)
Definition field_ok (data : text) (ds : nat) (f : RawCSVField) (v : text) : Prop :=
  (ds + start f + length_ f <= length data)%nat ∧
  let s := take (length_ f) (drop (ds + start f) data) in
  (if has_double_quote f then undouble comma false s else s) = v.

Lemma undouble_double f : undouble comma false (double_quotes Q f) = f.
Proof.
  induction f as [|c f IH]; [done|]. rewrite double_quotes_cons.
  destruct (Ascii.eqb_spec c Q) as [->|Hc]; cbn [app undouble].
  - change (flag Q =? QUOTE) with true. cbn iota. by rewrite IH.
  - destruct (Z.eqb_spec (flag c) QUOTE) as [E|E]; [|by rewrite IH].
    by destruct (flag_cases comma c) as [[? _]|[[_ E']|[[_ E']|(_ & _ & _ & _ & E')]]]; [|rewrite E in E'..].
Qed.

(** A piece of the data. *)
Lemma data_piece (data a r : text) n : drop n data = a ++ r → (n <= length data)%nat →
  (n + length a <= length data)%nat ∧ take (length a) (drop n data) = a ∧ drop (n + length a) data = r.
Proof.
  intros E Hn. pose proof (f_equal length E) as Hl. rewrite length_drop, length_app in Hl.
  split_and!; [lia|by rewrite E, take_app_length|by rewrite <- drop_drop, E, drop_app_length].
Qed.

Definition unquoted (f : text) : bool :=
  negb (existsb (λ ch, ceq ch Q || ceq ch comma || ceq ch CR || ceq ch NL) f).

Lemma csv_escape_cases f :
  (unquoted f = true ∧ csv_escape f = f ∧ Forall (λ c, flag c = NOT_SPECIAL) f) ∨
  (unquoted f = false ∧ f ≠ [] ∧ csv_escape f = Q :: double_quotes Q f ++ [Q]).
Proof.
  unfold unquoted, csv_escape. change ","%char with comma. destruct (existsb _ f) eqn:E; [right|left].
  - split_and!; [done| |done]. by destruct f.
  - split_and!; [done..|]. apply list.Forall_forall. intros c Hc.
    destruct (flag_cases comma c) as [[E1 _]|[[E1 _]|[[E1 _]|(_ & _ & _ & _ & ?)]]]; [..|done]; exfalso;
      apply not_true_iff_false in E; apply E, existsb_exists; exists c; (split; [by apply list_elem_of_In|]);
      [rewrite E1; done..|destruct E1 as [E1|E1]; rewrite E1; done].
Qed.

(** A plain field is read in one turn. *)
Lemma plain_read f r p : fresh p → f ≠ [] → Forall (λ c, flag c = NOT_SPECIAL) f →
  (r = [] ∨ ∃ d r', r = d :: r' ∧ flag d ≠ NOT_SPECIAL) →
  rtc turn (f ++ r, p) (r, at_field false false (data_pos p + length f)
                             (Some (data_pos p - data_start (current_row p))%nat) (length f) p).
Proof.
  intros (H1 & H2 & H3 & H4 & H5) Hne Hf Hr. destruct f as [|c f]; [done|]. apply rtc_once. cbn [app].
  unfold turn, parse_step. rewrite compound_plain by done. pose proof Hf as Hf'. apply list.Forall_cons in Hf' as [-> _].
  cbn [Z.eqb NOT_SPECIAL DELIMITER NEWLINE Pos.eqb]. unfold parse_field.
  change (c :: f ++ r) with ((c :: f) ++ r). rewrite (count_run _ (c :: f) r).
  - rewrite drop_app_length. unfold with_pos, with_field, at_field. cbn. rewrite H1, H2, H3. cbn. do 2 f_equal. f_equal. lia.
  - eapply list.Forall_impl; [exact Hf|]. intros x Hx. rewrite compound_plain by done. by rewrite Hx.
  - destruct Hr as [->|(d & r' & -> & Hd)]; [by left|]. right. exists d, r'. split; [done|].
    rewrite compound_plain by done. by apply Z.eqb_neq.
Qed.

(** A quoted field is read up to its closing quote. *)
Lemma quoted_read f z p : fresh p → f ≠ [] →
  rtc turn (Q :: double_quotes Q f ++ Q :: z, p)
    (Q :: z, at_field true (quotes f) (data_pos p + 1 + length (double_quotes Q f))
               (Some (data_pos p + 1 - data_start (current_row p))%nat) (length (double_quotes Q f)) p).
Proof.
  intros (H1 & H2 & H3 & H4 & H5) Hne. eapply rtc_l.
  { unfold turn, parse_step. rewrite compound_plain by done. change (flag Q) with QUOTE.
    cbn -[quote_char with_field with_pos with_escape double_quotes]. rewrite H4. reflexivity. }
  change (field_start (with_pos 1 (with_escape true p))) with (field_start p). rewrite H3. destruct (double_quotes Q f ++ Q :: z) as [|x y] eqn:E; [by destruct (double_quotes Q f)|]. rewrite <- E.
  pose proof (escaped_inner p (data_pos p + 1) (data_start (current_row p)) z eq_refl ltac:(lia) (S (length f)) f false 0 ltac:(lia)) as Hi.
  rewrite !Nat.add_0_r in Hi. cbn [orb] in Hi. rewrite Nat.add_0_l in Hi.
  unfold with_pos, with_escape, with_field. cbn. rewrite H2, H4. exact Hi.
Qed.

(** A field that was written, up to the delimiter or newline behind it. *)
Lemma field_read f d z p data : fresh p → DELIMITER <= flag d → drop (data_pos p) data = csv_escape f ++ d :: z →
  (data_pos p <= length data)%nat →
  ∃ st len dq, rtc turn (csv_escape f ++ d :: z, p)
    (d :: z, at_field false dq (data_pos p + length (csv_escape f)) st len p) ∧
    field_ok data (data_start (current_row p)) (mkField (default 0%nat st) len dq) f.
Proof.
  intros Hp Hd Hdata Hpos. pose proof Hp as (H1 & H2 & H3 & H4 & H5).
  destruct (csv_escape_cases f) as [(_ & E & Hf)|(_ & Hne & E)]; rewrite E in *.
  - destruct f as [|c f].
    + exists None, 0%nat, false. split; [|split; [simpl; lia|done]].
      rewrite Nat.add_0_r. replace (at_field _ _ _ _ _ p) with p by (unfold at_field; destruct p; simpl in *; by subst).
      apply rtc_refl.
    + eexists _, _, _. split; [apply plain_read; [done..|]|].
      { right. exists d, z. split; [done|]. intros Hn. rewrite Hn in Hd. by apply Hd. }
      destruct (data_piece data (c :: f) (d :: z) _ Hdata Hpos) as (Hl & Ht & _).
      unfold field_ok. cbn [start length_ has_double_quote default from_option id].
      replace (data_start (current_row p) + (data_pos p - data_start (current_row p)))%nat with (data_pos p) by lia. done.
  - exists (Some (data_pos p + 1 - data_start (current_row p))%nat), (length (double_quotes Q f)), (quotes f).
    cbn [app]. rewrite <- app_assoc. cbn [app]. split.
    + eapply rtc_trans; [by apply quoted_read|]. apply rtc_once. unfold turn, parse_step.
      rewrite compound_escaped, ceq_refl by done. cbn -[parse_flag DELIMITER]. replace (DELIMITER <=? flag d) with true by lia.
      unfold with_pos, with_escape, at_field. cbn. do 2 f_equal. f_equal. rewrite length_app. simpl. lia.
    + cbn [app] in Hdata. rewrite <- app_assoc in Hdata. cbn [app] in Hdata.
      destruct (data_piece data [Q] (double_quotes Q f ++ Q :: d :: z) _ Hdata Hpos) as (Hl & _ & Hdata2).
      change (length [Q]) with 1%nat in *. destruct (data_piece data (double_quotes Q f) (Q :: d :: z) _ Hdata2 Hl) as (Hl2 & Ht & _).
      unfold field_ok. cbn [start length_ has_double_quote default from_option id].
      replace (data_start (current_row p) + (data_pos p + 1 - data_start (current_row p)))%nat with (data_pos p + 1)%nat by lia.
      split; [lia|]. rewrite Ht. destruct (quotes f) eqn:Eq; [apply undouble_double|by apply no_quotes_double].
Qed.
(** *** Rows *)

Lemma delim_turn p z : quote_escape p = false → turn (comma :: z, p) (z, with_pos 1 (push_field p)).
Proof. intros H. unfold turn, Format.turn, parse_step. by rewrite compound_plain. Qed.

Definition no_newline (z : text) : Prop := match z with c :: _ => flag c ≠ NEWLINE | [] => True end.

Lemma newline_turn p z : quote_escape p = false → no_newline z →
  turn (NL :: z, p) (z, new_row (push_row (push_field (with_pos 1 p)))).
Proof.
  intros H Hz. unfold turn, Format.turn, parse_step. rewrite compound_plain by done.
  assert (E : count_while (λ c, flag c =? NEWLINE) z = 0%nat).
  { destruct z as [|c z]; [done|]. cbn [count_while]. by rewrite (proj2 (Z.eqb_neq _ _) Hz). }
  by rewrite E.
Qed.

(** The parser behind a row with the fields [flds] that ends before [pos]. *)
Definition after_row (p : parser) (flds : list RawCSVField) (pos : nat) : parser :=
  let r := current_row p in
  mkParser false false pos None 0 (mkRow pos (length (fields p ++ flds)) 0) (fields p ++ flds)
    (records p ++ [mkRow (data_start r) (fields_start r) (length (fields p ++ flds) - fields_start r)]).

Lemma join_escaped v w vs : join (map csv_escape (v :: w :: vs)) = csv_escape v ++ comma :: join (map csv_escape (w :: vs)).
Proof. done. Qed.

Lemma row_read vs : vs ≠ [] → ∀ p z data, fresh p → no_newline z →
  drop (data_pos p) data = join (map csv_escape vs) ++ NL :: z → (data_pos p <= length data)%nat →
  ∃ flds, Forall2 (field_ok data (data_start (current_row p))) flds vs ∧
    rtc turn (join (map csv_escape vs) ++ NL :: z, p)
             (z, after_row p flds (data_pos p + length (join (map csv_escape vs)) + 1)).
Proof.
  induction vs as [|v vs IH]; [done|]. intros _ p z data Hp Hz Hdata Hpos. destruct vs as [|w vs].
  - change (join (map csv_escape [v])) with (csv_escape v) in *.
    destruct (field_read v NL z p data Hp ltac:(done) Hdata Hpos) as (st & len & dq & Ht & Hf).
    exists [mkField (default 0%nat st) len dq]. split; [by constructor|].
    eapply rtc_trans; [exact Ht|]. apply rtc_once. exact (newline_turn (at_field false dq _ st len p) z eq_refl Hz).
  - rewrite join_escaped, <- app_assoc in *. cbn [app] in *.
    destruct (field_read v comma _ p data Hp ltac:(done) Hdata Hpos) as (st & len & dq & Ht & Hf).
    set (p1 := with_pos 1 (push_field (at_field false dq (data_pos p + length (csv_escape v)) st len p))).
    assert (Hp1 : fresh p1) by (destruct Hp as (_ & _ & _ & _ & ?); unfold fresh, p1; simpl; split_and!; [done..|lia]).
    destruct (data_piece data _ _ _ Hdata Hpos) as (Hl & _ & Hd1).
    destruct (data_piece data [comma] _ _ Hd1 Hl) as (Hl1 & _ & Hd2).
    destruct (IH ltac:(done) p1 z data Hp1 Hz Hd2 Hl1) as (flds & Hok & Ht2).
    exists (mkField (default 0%nat st) len dq :: flds). split; [by constructor|].
    eapply rtc_trans; [exact Ht|]. eapply rtc_l; [by apply delim_turn|].
    assert (Epos : (data_pos p + length (csv_escape v ++ comma :: join (map csv_escape (w :: vs))) + 1
                    = data_pos p1 + length (join (map csv_escape (w :: vs))) + 1)%nat).
    { unfold p1. cbn [data_pos with_pos push_field at_field]. rewrite length_app. cbn [length]. lia. }
    rewrite Epos. replace (after_row p _ _) with
      (after_row p1 flds (data_pos p1 + length (join (map csv_escape (w :: vs))) + 1)); [exact Ht2|].
    unfold after_row, p1. cbn [current_row data_start fields_start fields records with_pos push_field at_field].
    by rewrite <- !app_assoc.
Qed.

(** The values of a row are those of its part of the fields. *)
Lemma get_fields_values data A B ds flds vs r : Forall2 (field_ok data ds) flds vs →
  data_start r = ds → fields_start r = length A → ∀ done_, row_length r = (length done_ + length flds)%nat →
  get_fields comma data (A ++ done_ ++ flds ++ B) r (length done_) (length flds) = Ok vs.
Proof.
  intros Hok Hds Hfs. induction Hok as [|f v flds vs Hf _ IH]; intros done_ Hr; [done|].
  cbn [length get_fields] in *. unfold get_field at 1.
  replace (row_length r <=? length done_)%nat with false by (symmetry; apply Nat.leb_gt; lia).
  rewrite Hfs, lookup_app_r, lookup_app_r by lia.
  replace (length A + length done_ - length A - length done_)%nat with 0%nat by lia. cbn [lookup list_lookup app].
  destruct Hf as [Hlen Hval]. rewrite Hds, length_drop.
  replace (length data - (ds + start f) <? length_ f)%nat with false by (symmetry; apply Nat.ltb_ge; lia). cbn [andb].
  specialize (IH (done_ ++ [f])). rewrite length_app in IH. cbn [length] in IH. rewrite <- app_assoc in IH. cbn [app] in IH.
  rewrite IH by lia. destruct (has_double_quote f); by rewrite Hval.
Qed.

Lemma row_values_ok data A flds B ds vs : Forall2 (field_ok data ds) flds vs →
  row_values comma data (A ++ flds ++ B) (mkRow ds (length A) (length flds)) = Ok vs.
Proof. intros Hok. exact (get_fields_values data A B ds flds vs (mkRow ds (length A) (length flds)) Hok eq_refl eq_refl [] eq_refl). Qed.
Lemma no_newline_row vs z : (2 <= length vs)%nat → no_newline (join (map csv_escape vs) ++ z).
Proof.
  intros Hl. destruct vs as [|v [|w vs]]; [simpl in Hl; lia..|]. rewrite join_escaped.
  destruct (csv_escape_cases v) as [(_ & -> & Hf)|(_ & _ & ->)]; [|done].
  destruct v as [|c v]; [done|]. apply list.Forall_cons in Hf as [Hc _]. simpl. by rewrite Hc.
Qed.

(** The parser at the start of a row. *)
Definition row_begins (p : parser) : Prop :=
  fresh p ∧ current_row p = mkRow (data_pos p) (length (fields p)) 0.

Lemma text_read rs : Forall (λ vs, 2 <= length vs)%nat rs → ∀ p data, row_begins p →
  drop (data_pos p) data = concat (map write_row rs) → (data_pos p <= length data)%nat →
  ∃ p' flds recs, rtc turn (concat (map write_row rs), p) ([], p') ∧ row_begins p' ∧
    fields p' = fields p ++ flds ∧ records p' = records p ++ recs ∧
    ∀ B, Forall2 (λ r vs, row_values comma data (fields p ++ flds ++ B) r = Ok vs) recs rs.
Proof.
  induction 1 as [|vs rs Hl Hls IH]; intros p data [Hp Hrow] Hdata Hpos.
  { exists p, [], []. rewrite !app_nil_r. split_and!; [apply rtc_refl|done..|intros B; constructor]. }
  cbn [map concat] in *. unfold write_row at 1 in Hdata. unfold write_row at 1. rewrite <- app_assoc in *. cbn [app] in *.
  assert (Hnn : no_newline (concat (map write_row rs))).
  { destruct Hls as [|w ws Hw _]; [exact I|]. cbn [map concat]. unfold write_row at 1. rewrite <- app_assoc. by apply no_newline_row. }
  destruct (row_read vs ltac:(intros ->; simpl in Hl; lia) p _ data Hp Hnn Hdata Hpos) as (flds & Hok & Ht).
  set (p1 := after_row p flds (data_pos p + length (join (map csv_escape vs)) + 1)) in *.
  destruct (data_piece data _ _ _ Hdata Hpos) as (Hl1 & _ & Hd1).
  destruct (data_piece data [NL] _ _ Hd1 Hl1) as (Hl2 & _ & Hd2).
  destruct (IH p1 data) as (p' & flds' & recs & Ht' & Hb & Hf & Hr & Hv); [|exact Hd2|exact Hl2|].
  { by split; [unfold fresh; split_and!|]. }
  exists p', (flds ++ flds'), (mkRow (data_start (current_row p)) (fields_start (current_row p)) (length flds) :: recs).
  split_and!; [by eapply rtc_trans|done| | |].
  - rewrite Hf. unfold p1. cbn. by rewrite app_assoc.
  - rewrite Hr. unfold p1. cbn. rewrite <- app_assoc. cbn. rewrite Hrow, length_app. cbn. do 3 f_equal. f_equal. lia.
  - intros B. specialize (Hv B). unfold p1 in Hv. cbn in Hv. rewrite <- !app_assoc in *. constructor; [|done].
    rewrite Hrow at 2. cbn. by apply row_values_ok.
Qed.

(** *** The first line *)

(** [parse] and [end_feed] over the first line: one row. *)
Lemma line_read vs : vs ≠ [] → ∀ p data, fresh p → drop (data_pos p) data = join (map csv_escape vs) →
  (data_pos p <= length data)%nat → (vs = [[]] → list.last data = Some comma) →
  ∃ p' z', rtc turn (join (map csv_escape vs), p) (z', p') ∧
    (z' = [] ∨ ∃ c z'', z' = c :: z'' ∧ parse_step comma c z'' p' = None) ∧
    records (end_feed comma data p')
    = records p ++ [mkRow (data_start (current_row p)) (fields_start (current_row p))
                          (length (fields p) + length vs - fields_start (current_row p))].
Proof.
  induction vs as [|v vs IH]; [done|]. intros _ p data Hp Hdata Hpos Hlast. destruct vs as [|w vs].
  - change (join (map csv_escape [v])) with (csv_escape v) in *. pose proof Hp as (H1 & H2 & H3 & H4 & H5).
    assert (Hpush : ∀ p', current_row p' = current_row p → fields p' = fields p → records p' = records p →
      field_length p' ≠ 0%nat ∨ list.last data = Some comma →
      records (end_feed comma data p') = records p ++ [mkRow (data_start (current_row p)) (fields_start (current_row p))
                          (length (fields p) + length [v] - fields_start (current_row p))]).
    { intros p' Hc Hf Hr Hne. unfold end_feed.
      set (e := match list.last data with Some c => _ | None => false end).
      assert (Hb : negb (field_length p' =? 0)%nat || e = true).
      { destruct Hne as [Hne|Hne]; [by rewrite (proj2 (Nat.eqb_neq _ _) Hne)|]. unfold e. rewrite Hne. by rewrite orb_true_r. }
      rewrite Hb. cbn [push_field current_row row_length]. rewrite Nat.add_1_r. cbn. rewrite Hc, Hf, Hr, length_app. done. }
    destruct (csv_escape_cases v) as [(_ & E & Hf)|(_ & Hne & E)]; rewrite E in *.
    + destruct v as [|c v].
      * exists p, []. split_and!; [apply rtc_refl|by left|]. apply Hpush; try done. right. by apply Hlast.
      * eexists _, []. split_and!; [|by left|].
        { rewrite <- (app_nil_r (c :: v)). apply plain_read; [done..|by left]. }
        apply Hpush; try done. by left.
    + eexists _, _. split_and!; [by apply quoted_read|right; exists Q, []; split; [done|]|].
      { unfold parse_step. by rewrite compound_escaped, ceq_refl. }
      apply Hpush; try done. left.
      destruct v as [|c v]; [done|]. change (length (double_quotes Q (c :: v)) ≠ 0%nat).
      rewrite double_quotes_cons. by destruct (ceq c Q).
  - rewrite join_escaped in *.
    destruct (field_read v comma _ p data Hp ltac:(done) Hdata Hpos) as (st & len & dq & Ht & Hf).
    set (p1 := with_pos 1 (push_field (at_field false dq (data_pos p + length (csv_escape v)) st len p))).
    assert (Hp1 : fresh p1) by (destruct Hp as (_ & _ & _ & _ & ?); unfold fresh, p1; simpl; split_and!; [done..|lia]).
    destruct (data_piece data _ _ _ Hdata Hpos) as (Hl & _ & Hd1).
    destruct (data_piece data [comma] _ _ Hd1 Hl) as (Hl1 & _ & Hd2).
    destruct (IH ltac:(done) p1 data Hp1 Hd2 Hl1) as (p' & z' & Ht2 & He & Hr).
    { intros [= -> ->]. rewrite <- (take_drop (data_pos p + length (csv_escape v)) data), Hd1. cbn. by rewrite last_snoc. }
    exists p', z'. split_and!; [|done|].
    + eapply rtc_trans; [exact Ht|]. eapply rtc_l; [by apply delim_turn|]. exact Ht2.
    + rewrite Hr. unfold p1. cbn. rewrite length_app. cbn. do 3 f_equal. lia.
Qed.
End Written.

(** ** The guess *)

(** Without delimiters and newlines, nothing but the field at the end is
    pushed. *)
Definition unsplit (d : ascii) (z : text) : Prop :=
  Forall (λ c, parse_flag d c = QUOTE ∨ parse_flag d c = NOT_SPECIAL) z.

Lemma unsplit_step d c z p z' p' : unsplit d (c :: z) → parse_step d c z p = Some (z', p') →
  unsplit d z' ∧ fields p' = fields p ∧ records p' = records p ∧ current_row p' = current_row p.
Proof.
  intros Hu H. pose proof Hu as Hu'. apply list.Forall_cons in Hu' as [Hc Hz]. unfold parse_step in H.
  assert (Hflag : compound_parse_flag d p c = QUOTE ∨ compound_parse_flag d p c = NOT_SPECIAL ∨
                  compound_parse_flag d p c = QUOTE_ESCAPE_QUOTE)
    by (unfold compound_parse_flag; destruct Hc as [-> | ->], (quote_escape p); auto).
  destruct Hflag as [E|[E|E]]; rewrite E in H; cbn -[parse_field with_pos with_field with_escape] in H.
  - destruct (field_length p =? 0)%nat; by injection H as <- <-.
  - injection H as <- <-. split; [by apply Forall_drop|done].
  - destruct z as [|n z]; [done|]. apply list.Forall_cons in Hz as [Hn Hz].
    destruct Hn as [Hn|Hn]; rewrite Hn in H; cbn -[parse_field with_pos with_field with_escape] in H;
      injection H as <- <-; (split; [|done]); [done|by constructor; [right|]].
Qed.

Lemma unsplit_loop d fuel : ∀ z p, unsplit d z →
  let p' := parse_loop d fuel z p in
  fields p' = fields p ∧ records p' = records p ∧ current_row p' = current_row p.
Proof.
  induction fuel as [|fuel IH]; intros [|c z] p Hz; try done. cbn [parse_loop].
  destruct (parse_step d c z p) as [[z' p']|] eqn:E; [|done].
  destruct (unsplit_step _ _ _ _ _ _ Hz E) as (Hz' & H1 & H2 & H3).
  destruct (IH z' p' Hz') as (H4 & H5 & H6). by rewrite H4, H5, H6.
Qed.

Lemma next_whole d src : Z.of_nat (length src) < ITERATION_CHUNK_SIZE →
  let p := end_feed d src (parse_data d false false src) in
  chunks (next d src ITERATION_CHUNK_SIZE stream0) = [(src, p)] ∧ eof (next d src ITERATION_CHUNK_SIZE stream0) = true.
Proof.
  intros Hl p. unfold next. cbn [eof stream0 stream_pos unicode_bom_scan double_quote_pending chunks].
  rewrite Z.sub_0_r, Z.min_l by lia. cbn [Z.to_nat]. rewrite Nat2Z.id. change (drop 0 src) with src. rewrite firstn_all.
  rewrite Z.add_0_l, Z.eqb_refl. done.
Qed.

Lemma unsplit_rows d src : unsplit d src →
  let recs := records (end_feed d src (parse_data d false false src)) in
  recs = [] ∨ ∃ ds, recs = [mkRow ds 0 1].
Proof.
  intros Hu. unfold parse_data. set (n := if negb false && _ then 3%nat else 0%nat).
  set (p := mkParser _ _ _ _ _ _ _ _).
  destruct (unsplit_loop d (S (length src)) (drop n src) p ltac:(by apply Forall_drop)) as (H1 & H2 & H3).
  set (p' := parse_loop d _ _ _) in *. clearbody p'. unfold end_feed. destruct (negb (field_length p' =? 0)%nat || _).
  - right. cbn [push_field current_row row_length]. rewrite H3. cbn. rewrite H1, H2, H3. cbn. by eexists.
  - left. rewrite H3. cbn. by rewrite H2.
Qed.

Lemma read_csv_whole d src fuel : Z.of_nat (length src) < ITERATION_CHUNK_SIZE →
  read_csv d (S (S fuel)) src stream0 = Ok [(src, end_feed d src (parse_data d false false src))].
Proof. intros Hl. destruct (next_whole d src Hl) as [Hc He]. cbn [read_csv eof stream0]. by rewrite He, Hc. Qed.

Section Guess.
Context (order : list (nat * (nat * nat)) → list (nat * (nat * nat))).
Hypothesis order_ok : ∀ t, order t ≡ₚ t.

Lemma best_one n r : row_length r = n → (1 <= n)%nat → best (order (tally 0 [r] [(0, (0, 0))%nat])) 0 0 = (n, 0)%nat.
Proof using order_ok.
  intros Hr Hn. cbn [tally]. rewrite Hr. replace (n =? 0)%nat with false by (symmetry; apply Nat.eqb_neq; lia).
  cbn [find fst]. replace (0 =? n)%nat with false by (symmetry; apply Nat.eqb_neq; lia). cbn [app].
  set (t := [(0, (0, 0)); (n, (1, 0))]%nat). destruct n as [|n]; [lia|].
  destruct (Permutation_length_2_inv (symmetry (order_ok t))) as [-> | ->]; cbn; by rewrite Nat.mul_1_r.
Qed.

Lemma best_none : best (order (tally 0 [] [(0, (0, 0))%nat])) 0 0 = (0, 0)%nat.
Proof using order_ok. cbn [tally]. by rewrite (Permutation_length_1_inv (symmetry (order_ok [(0, (0, 0))%nat]))). Qed.

Lemma score_unsplit d head : cstr head = head → Z.of_nat (length head) < ITERATION_CHUNK_SIZE → unsplit d head →
  (calculate_score order head d).2 = 0%nat ∧ ((calculate_score order head d).1 <= 1)%nat.
Proof using order_ok.
  intros Hc Hl Hu. unfold calculate_score. rewrite Hc, (proj1 (next_whole d head Hl)). cbn [mbind list_bind app].
  rewrite app_nil_r. destruct (unsplit_rows d head Hu) as [-> | [ds ->]]; [by rewrite best_none; split; [|simpl; lia]|].
  by rewrite (best_one 1) by (simpl; lia).
Qed.
(** Characters that are safe in the name of a column. *)
Definition name_char (c : ascii) : Prop :=
  c ≠ "|"%char ∧ c ≠ TAB ∧ c ≠ CR ∧ c ≠ NL ∧ c ≠ NUL.

Lemma Forall_double (P : ascii → Prop) q f : Forall P f → Forall P (double_quotes q f).
Proof.
  induction 1 as [|c f Hc _ IH]; [constructor|]. rewrite double_quotes_cons. apply list.Forall_app. split; [|done].
  destruct (ceq c q); by repeat constructor.
Qed.

Lemma Forall_escape (P : ascii → Prop) f : P quote_char → Forall P f → Forall P (csv_escape f).
Proof.
  intros Hq Hf. unfold csv_escape. destruct (existsb _ f); [|done]. constructor; [done|].
  apply list.Forall_app. split; [by apply Forall_double|by constructor].
Qed.

Lemma Forall_line (P : ascii → Prop) vs : P quote_char → P ","%char → Forall (Forall P) vs →
  Forall P (join (map csv_escape vs)).
Proof.
  intros Hq Hc. induction 1 as [|v vs Hv Hvs IH]; [constructor|]. destruct vs as [|w vs]; [by apply Forall_escape|].
  rewrite join_escaped. apply list.Forall_app. split; [by apply Forall_escape|by constructor].
Qed.

Lemma head_of_text l z : Forall (λ c, c ≠ NL) l → get_csv_head (l ++ NL :: z) = l.
Proof.
  induction 1 as [|c l Hc _ IH]; cbn [app get_csv_head]; [by rewrite ceq_refl|]. by rewrite ceq_neq, IH.
Qed.

Lemma starts_with_more q l z : starts_with q l = true → starts_with q (l ++ z) = true.
Proof.
  revert l. induction q as [|a q IH]; intros [|b l]; try done. cbn [app starts_with]. intros [H1 H2]%andb_true_iff.
  by rewrite H1, IH.
Qed.

Lemma unsplit_line d l : d ≠ quote_char → Forall (λ c, c ≠ d ∧ c ≠ CR ∧ c ≠ NL) l → unsplit d l.
Proof.
  intros Hd Hl. eapply list.Forall_impl; [exact Hl|]. intros c (H1 & H2 & H3).
  destruct (flag_cases d c) as [[_ ?]|[[? _]|[[[?|?] _]|(_ & _ & _ & _ & ?)]]]; auto; done.
Qed.

Lemma score_line names : (2 <= length names)%nat → let head := join (map csv_escape names) in
  cstr head = head → Z.of_nat (length head) < ITERATION_CHUNK_SIZE → starts_with BOM head = false →
  calculate_score order head ","%char = (length names, 0%nat).
Proof using order_ok.
  intros Hn head Hc Hl Hb. unfold calculate_score. rewrite Hc, (proj1 (next_whole _ head Hl)). cbn [mbind list_bind app].
  rewrite app_nil_r. unfold parse_data. rewrite Hb, andb_false_r. change (drop 0 head) with head.
  set (p0 := mkParser _ _ _ _ _ _ _ _).
  destruct (line_read names ltac:(intros ->; simpl in Hn; lia) p0 head) as (p' & z' & Ht & He & Hr);
    [by unfold fresh|done|simpl; lia|intros ->; simpl in Hn; lia|].
  rewrite (turns_end _ _ _ _ _ Ht He) by (fold head; lia). rewrite Hr. cbn [records p0 app fields_start current_row fields length].
  apply best_one; [simpl; lia|lia].
Qed.

Lemma guess_line names : (2 <= length names)%nat → Forall (Forall name_char) names →
  let head := join (map csv_escape names) in
  Z.of_nat (length head) < ITERATION_CHUNK_SIZE → starts_with BOM head = false →
  _guess_format order head default_delimiters = (","%char, 0%nat).
Proof using order_ok.
  intros Hn Hok head Hl Hb. assert (Hh : Forall name_char head) by (by apply Forall_line).
  assert (Hc : cstr head = head) by (apply cstr_id; eapply list.Forall_impl; [exact Hh|]; intros ? (_ & _ & _ & _ & ?); done).
  destruct (score_unsplit "|"%char head Hc Hl) as [H1 H2].
  { apply unsplit_line; [done|]. eapply list.Forall_impl; [exact Hh|]. intros ? (? & ? & ? & ? & ?). done. }
  destruct (score_unsplit TAB head Hc Hl) as [H3 H4].
  { apply unsplit_line; [done|]. eapply list.Forall_impl; [exact Hh|]. intros ? (? & ? & ? & ? & ?). done. }
  unfold _guess_format, default_delimiters. cbn [guess_loop lookup list_lookup default].
  pose proof (score_line names Hn Hc Hl Hb) as Hs. fold head in Hs. rewrite Hs.
  destruct (calculate_score order head "|"%char) as [s1 h1], (calculate_score order head TAB) as [s2 h2]. simpl in *. subst.
  replace (length names <? s2)%nat with false by (symmetry; apply Nat.ltb_ge; lia).
  destruct (0 <? s1)%nat.
  - by replace (s1 <? length names)%nat with true by (symmetry; apply Nat.ltb_lt; lia).
  - by replace (0 <? length names)%nat with true by (symmetry; apply Nat.ltb_lt; lia).
Qed.

Lemma values_of_some vs : values_of (map Some vs) = Ok vs.
Proof. induction vs as [|v vs IH]; [done|]. cbn [map values_of]. by rewrite IH. Qed.

Lemma updates_text names rs : ∀ b, updates names (map (map Some) rs) (mkAgg true b)
  = Ok (mkAgg true (b ++ concat (map write_row rs))).
Proof.
  induction rs as [|r rs IH]; intros b; cbn [map updates concat]; [by rewrite app_nil_r|].
  unfold update. rewrite values_of_some. cbn [header_written buffer]. change (updates names (map (map Some) rs)
    (mkAgg true (b ++ write_row r)) = Ok (mkAgg true (b ++ write_row r ++ concat (map write_row rs)))).
  by rewrite IH, app_assoc.
Qed.

Lemma csv_agg_text names rs : rs ≠ [] → csv_agg names (map (map Some) rs) = Ok (concat (map write_row (names :: rs))).
Proof.
  destruct rs as [|r rs]; [done|]. intros _. unfold csv_agg. cbn [map updates]. unfold update at 1.
  rewrite values_of_some. cbn [header_written buffer app].
  change ((a ← updates names (map (map Some) rs) (mkAgg true (write_row names ++ write_row r)); Ok (buffer a))
          = Ok (write_row names ++ write_row r ++ concat (map write_row rs))).
  rewrite updates_text. cbn. by rewrite app_assoc.
Qed.

Lemma records_of_id n rs : Forall (λ r, length r = n) rs → records_of n rs = Ok rs.
Proof.
  induction 1 as [|r rs Hr _ IH]; [done|]. cbn [records_of]. unfold record_of. rewrite Hr, Nat.ltb_irrefl, IH.
  by rewrite <- Hr, firstn_all.
Qed.

Lemma iterate_same n rs : Forall (λ r, length r = n) rs → iterate n [rs] = rs.
Proof.
  intros H. unfold iterate. cbn [concat]. rewrite app_nil_r. destruct H as [|r rs Hr H]; [done|]. f_equal.
  clear Hr. unfold read_rows. induction H as [|r' rs' Hr _ IH]; [done|]. cbn [List.filter]. by rewrite Hr, Nat.eqb_refl, IH.
Qed.
Lemma last_written vs rs : list.last (concat (map write_row (vs :: rs))) = Some NL.
Proof.
  revert vs. induction rs as [|r rs IH]; intros vs; cbn [map concat].
  - unfold write_row. by rewrite app_nil_r, last_snoc.
  - rewrite last_app. specialize (IH r). cbn [map concat] in IH. by rewrite IH.
Qed.

Lemma chunk_rows_ok d data F recs rs : Forall2 (λ r vs, row_values d data F r = Ok vs) recs rs →
  chunk_rows d data F recs = Ok rs.
Proof. induction 1 as [|r vs recs rs Hr _ IH]; [done|]. cbn [chunk_rows]. by rewrite Hr, IH. Qed.

(** What the reader makes of a text that was written. *)
Lemma reader_written names rows : (2 <= length names)%nat → Forall (Forall name_char) names →
  Forall (λ r, length r = length names) rows → let t := concat (map write_row (names :: rows)) in
  Z.of_nat (length t) < ITERATION_CHUNK_SIZE → starts_with BOM t = false →
  CSVReader order t = Ok (names, [rows]).
Proof using order_ok.
  intros Hn Hok Hrows t Hl Hb.
  assert (Et : t = join (map csv_escape names) ++ NL :: concat (map write_row rows))
    by (unfold t; cbn [map concat]; unfold write_row at 1; by rewrite <- app_assoc).
  assert (Hg : _guess_format order (get_csv_head t) default_delimiters = (","%char, 0%nat)).
  { rewrite Et, head_of_text.
    - apply guess_line; [done|done| |].
      + rewrite Et, length_app in Hl. lia.
      + apply not_true_iff_false. intros Hs. rewrite Et, (starts_with_more _ _ _ Hs) in Hb. done.
    - eapply list.Forall_impl; [by apply (Forall_line name_char)|]. intros ? (_ & _ & _ & ? & _). done. }
  set (p0 := mkParser false false 0 None 0 (mkRow 0 0 0) [] []).
  destruct (text_read (names :: rows)) with (p := p0) (data := t) as (p' & flds & recs & Ht & Hbeg & Hf & Hr & Hv);
    [|done|done|simpl; lia|].
  { constructor; [done|]. eapply list.Forall_impl; [exact Hrows|]. intros r Hr. simpl in Hr. lia. }
  assert (Ep : parse_data ","%char false false t = p').
  { unfold parse_data. rewrite Hb, andb_false_r. change (drop 0 t) with t.
    exact (turns_end _ _ _ _ _ Ht (or_introl eq_refl) _ (Nat.lt_succ_diag_r _)). }
  assert (Ee : end_feed ","%char t p' = p').
  { destruct Hbeg as [(_ & _ & _ & H4 & _) Hrow]. unfold end_feed. rewrite H4.
    replace (list.last t) with (Some NL); [cbv zeta; change (if negb (0 =? 0)%nat || _ then push_field p' else p') with p'; by rewrite Hrow|].
    symmetry. apply last_written. }
  unfold CSVReader. rewrite Hg.
  assert (Ert : read_csv ","%char (S (S (length t))) t stream0 = Ok [(t, p')])
    by (rewrite (read_csv_whole _ _ _ Hl); by rewrite Ep, Ee).
  specialize (Hv []). rewrite app_nil_r in Hv.
  assert (Hrows' : chunk_rows ","%char t (fields p') (records p') = Ok (names :: rows)).
  { rewrite Hf, Hr. by apply chunk_rows_ok. }
  assert (Ero : rows_of ","%char [(t, p')] = Ok [names :: rows]) by (cbn [rows_of]; by rewrite Hrows').
  rewrite Ert. unfold mbind, result_bind. by rewrite Ero.
Qed.

(** C12. Rows that are aggregated to a text and parsed again come back as they
    were, whatever their values, with commas, quotes, newlines or nothing in
    them: [csv_agg] returns a text, from which [csv_info] reads the names and
    [parse] the rows.  There are at least two columns, whose names have no
    other delimiters and no newlines in them, and the text is of one chunk and
    has no byte order mark. *)
Theorem csv_agg_parse_roundtrip names rows :
  (2 <= length names)%nat → Forall (Forall name_char) names → rows ≠ [] →
  Forall (λ r, length r = length names) rows →
  ∃ t, csv_agg names (map (map Some) rows) = Ok t ∧
    (Z.of_nat (length t) < ITERATION_CHUNK_SIZE → starts_with BOM t = false →
     csv_info order t = Ok names ∧ parse order t = Ok rows).
Proof using order_ok.
  intros Hn Hok Hne Hrows. exists (concat (map write_row (names :: rows))). split; [by apply csv_agg_text|].
  intros Hl Hb. unfold csv_info, parse. rewrite (reader_written names rows) by done. split; [done|].
  unfold mbind, result_bind. rewrite iterate_same by done. by apply records_of_id.
Qed.
End Guess.

(** ** Reading any text *)

Section Any.
Context (d : ascii) (data : text).

Definition within (ds : nat) (f : RawCSVField) : Prop := (ds + start f + length_ f <= length data)%nat.

(** A row whose fields are there and lie in the data. *)
Definition row_within (F : list RawCSVField) (r : CSVRow) : Prop :=
  ∃ A flds B, F = A ++ flds ++ B ∧ length A = fields_start r ∧ length flds = row_length r ∧
    Forall (within (data_start r)) flds.

Record inv (z : text) (p : parser) : Prop := {
  inv_left : (data_pos p + length z)%nat = length data;
  inv_field : (data_start (current_row p) + default 0%nat (field_start p) + field_length p <= data_pos p)%nat;
  inv_row : ∃ A flds, fields p = A ++ flds ∧ length A = fields_start (current_row p) ∧
              Forall (within (data_start (current_row p))) flds;
  inv_records : Forall (row_within (fields p)) (records p)
}.

Lemma row_within_app F f r : row_within F r → row_within (F ++ f) r.
Proof.
  intros (A & flds & B & -> & HA & Hf & Hw). exists A, flds, (B ++ f). by rewrite <- !app_assoc.
Qed.

(** Only the place in the data and the field in progress differ. *)
Lemma inv_field_only z p z' p' : inv z p → current_row p' = current_row p → fields p' = fields p → records p' = records p →
  (data_pos p' + length z')%nat = length data →
  (data_start (current_row p) + default 0%nat (field_start p') + field_length p' <= data_pos p')%nat → inv z' p'.
Proof. intros [H1 H2 H3 H4] Hc Hf Hr Hl Hd. split; rewrite ?Hc, ?Hf, ?Hr; done. Qed.

Lemma inv_push_field z p : inv z p → inv z (push_field p).
Proof.
  intros [H1 H2 (A & flds & HF & HA & Hw) H4]. split; cbn.
  - done.
  - lia.
  - exists A, (flds ++ [mkField (default 0%nat (field_start p)) (field_length p) (field_has_double_quote p)]).
    rewrite HF, <- app_assoc. split_and!; [done|done|]. apply list.Forall_app. split; [done|].
    constructor; [|constructor]. unfold within. cbn. lia.
  - eapply list.Forall_impl; [exact H4|]. intros r. apply row_within_app.
Qed.

Lemma inv_push_row z p : inv z p → inv z (push_row p).
Proof.
  intros [H1 H2 H3 H4]. split; cbn; [done..|]. apply list.Forall_app. split; [done|]. constructor; [|constructor].
  destruct H3 as (A & flds & HF & HA & Hw). exists A, flds, []. cbn. rewrite HF, app_nil_r, length_app.
  split_and!; [done|done|lia|done].
Qed.

Lemma inv_new_row z p : inv z p → field_start p = None → field_length p = 0%nat → inv z (new_row p).
Proof.
  intros [H1 H2 H3 H4] Hs Hl. split; cbn; [done| |by exists (fields p), []; rewrite app_nil_r|done]. rewrite Hs, Hl. simpl. lia.
Qed.

Lemma inv_skip n z p : inv z p → (n <= length z)%nat → inv (drop n z) (with_pos n p).
Proof. intros Hi Hn. pose proof Hi as [H1 H2 _ _]. eapply inv_field_only; [done..|cbn; rewrite length_drop; lia|cbn; lia]. Qed.

Lemma count_while_length q (z : text) : (count_while q z <= length z)%nat.
Proof. induction z as [|c z IH]; simpl; [lia|]. destruct (q c); lia. Qed.

Lemma inv_step c z p z' p' : inv (c :: z) p → parse_step d c z p = Some (z', p') → inv z' p'.
Proof.
  intros Hi H. pose proof Hi as [H1 H2 _ _]. cbn [length] in H1. unfold parse_step in H.
  destruct (compound_parse_flag d p c =? DELIMITER).
  { injection H as <- <-. apply (inv_skip 1 (c :: z)); [by apply inv_push_field|simpl; lia]. }
  destruct (compound_parse_flag d p c =? NEWLINE).
  { injection H as <- <-. set (n := count_while _ z).
    pose proof (count_while_length (λ c, parse_flag d c =? NEWLINE) z) as Hn. fold n in Hn.
    apply inv_new_row; [|done|done]. apply inv_push_row, inv_push_field.
    apply (inv_skip (1 + n) (c :: z)); [done|simpl; lia]. }
  destruct (compound_parse_flag d p c =? NOT_SPECIAL).
  { unfold parse_field in H. set (n := count_while _ (c :: z)) in *.
    pose proof (count_while_length (λ c, compound_parse_flag d p c =? NOT_SPECIAL) (c :: z)) as Hn. fold n in Hn.
    cbn [length] in Hn. injection H as <- <-. clearbody n.
    eapply inv_field_only; [exact Hi|done..| |]; cbn -[drop]; [rewrite length_drop; cbn [length]; lia|].
    destruct (field_start p); simpl in *; lia. }
  destruct (compound_parse_flag d p c =? QUOTE_ESCAPE_QUOTE).
  - destruct z as [|n z]; [done|]. cbn [length] in H1.
    destruct (DELIMITER <=? parse_flag d n); [injection H as <- <-; eapply inv_field_only; [exact Hi|done..|cbn; lia|cbn; lia]|].
    destruct (parse_flag d n =? QUOTE); injection H as <- <-; (eapply inv_field_only; [exact Hi|done..|cbn; lia|cbn; lia]).
  - destruct (Nat.eqb_spec (field_length p) 0) as [E|E]; injection H as <- <-;
      (eapply inv_field_only; [exact Hi|done..|cbn; lia|cbn]); [|lia].
    destruct (field_start p), z; simpl in *; lia.
Qed.

Lemma inv_loop fuel : ∀ z p, inv z p → ∃ z', inv z' (parse_loop d fuel z p).
Proof.
  induction fuel as [|fuel IH]; intros [|c z] p Hi; cbn [parse_loop]; [by eexists..|].
  destruct (parse_step d c z p) as [[z' p']|] eqn:E; [|by eexists]. eapply IH, inv_step; done.
Qed.

Lemma inv_end_feed z p : inv z p → inv z (end_feed d data p).
Proof.
  intros Hi. unfold end_feed.
  set (p' := if negb (field_length p =? 0)%nat || _ then push_field p else p).
  assert (Hi' : inv z p') by (unfold p'; destruct (_ || _); [by apply inv_push_field|done]).
  clearbody p'. destruct (negb (row_length (current_row p') =? 0)%nat); [by apply inv_push_row|done].
Qed.

Lemma starts_with_length q (z : text) : starts_with q z = true → (length q <= length z)%nat.
Proof.
  revert z. induction q as [|a q IH]; intros [|b z]; cbn [starts_with length]; try done; [lia..|].
  intros [_ H]%andb_true_iff. specialize (IH z H). lia.
Qed.

Lemma inv_parsed b dq : ∃ z, inv z (end_feed d data (parse_data d b dq data)).
Proof.
  unfold parse_data. set (n := if negb b && _ then 3%nat else 0%nat).
  assert (Hn : (n <= length data)%nat).
  { unfold n. destruct (negb b && starts_with BOM data) eqn:E; [|lia].
    apply andb_true_iff in E as [_ E]. apply (starts_with_length _ _ E). }
  destruct (inv_loop (S (length data)) (drop n data) (mkParser false dq n None 0 (mkRow 0 0 0) [] [])) as [z Hz].
  - split; cbn; [rewrite length_drop; lia|lia|by exists [], []|constructor].
  - exists z. by apply inv_end_feed.
Qed.

Lemma row_within_values F r : row_within F r → ∃ vs, row_values d data F r = Ok vs.
Proof.
  intros (A & flds & B & -> & HA & Hf & Hw). unfold row_values. rewrite <- Hf.
  assert (Hg : ∀ done_, row_length r = (length done_ + length flds)%nat →
    ∃ vs, get_fields d data (A ++ done_ ++ flds ++ B) r (length done_) (length flds) = Ok vs); [|exact (Hg [] (eq_sym Hf))].
  clear Hf. induction Hw as [|f flds Hf _ IH]; intros done_ Hr; [by exists []|].
  cbn [length get_fields] in *. unfold get_field at 1.
  replace (row_length r <=? length done_)%nat with false by (symmetry; apply Nat.leb_gt; lia).
  rewrite <- HA, lookup_app_r, lookup_app_r by lia.
  replace (length A + length done_ - length A - length done_)%nat with 0%nat by lia. cbn [lookup list_lookup app].
  unfold within in Hf. rewrite length_drop.
  replace (length data - (data_start r + start f) <? length_ f)%nat with false by (symmetry; apply Nat.ltb_ge; lia).
  destruct (IH (done_ ++ [f])) as [vs Hvs]; [rewrite length_app; simpl; lia|].
  rewrite length_app in Hvs. cbn [length] in Hvs. rewrite <- app_assoc in Hvs. cbn [app] in Hvs.
  destruct (has_double_quote f); cbn [andb]; rewrite Hvs; by eexists.
Qed.
End Any.

Lemma chunk_rows_some d data F recs : Forall (row_within data F) recs → ∃ rs, chunk_rows d data F recs = Ok rs.
Proof.
  induction 1 as [|r recs Hr _ [rs IH]]; [by exists []|]. destruct (row_within_values d data F r Hr) as [vs Hv].
  exists (vs :: rs). cbn [chunk_rows]. by rewrite Hv, IH.
Qed.

Lemma reader_ends order t : Z.of_nat (length t) < ITERATION_CHUNK_SIZE →
  ∃ names rows, CSVReader order t = Ok (names, [rows]).
Proof.
  intros Hl. unfold CSVReader. destruct (_guess_format _ _ _) as [dl header].
  rewrite (read_csv_whole dl t _ Hl). set (p := end_feed dl t (parse_data dl false false t)).
  destruct (inv_parsed dl t false false) as [z [_ _ _ Hr]]. fold p in Hr.
  destruct (chunk_rows_some dl t (fields p) (records p) Hr) as [rs Hrs].
  unfold mbind, result_bind. cbn [rows_of]. unfold mbind, result_bind. rewrite Hrs. by eexists _, _.
Qed.

Lemma filter_same_size n rs : Forall (λ r, length r = n) (read_rows n rs).
Proof.
  unfold read_rows. induction rs as [|r rs IH]; [constructor|]. cbn [List.filter].
  destruct (Nat.eqb_spec (length r) n); [by constructor|done].
Qed.


Lemma csv_agg_parse_roundtrip_witness :
  let names := [str "name"; str "note"] in
  let rows := [[str "a,b"; []]; [[DQUOT; NL; DQUOT; DQUOT]; str "x|y"]] in
  ∃ t, csv_agg names (map (map Some) rows) = Ok t ∧ csv_info id t = Ok names ∧ parse id t = Ok rows.
Proof.
  intros names rows. destruct (csv_agg_parse_roundtrip id (λ _, reflexivity _) names rows) as (t & Ht & Hp).
  - simpl. lia.
  - by repeat constructor.
  - done.
  - by repeat constructor.
  - exists t. vm_compute in Ht. injection Ht as <-. split; [by vm_compute|]. by apply Hp; vm_compute.
Defined.


(** ** What it looks like, and what is lost *)

Example parse_shown :
  parse id (str "a,b" ++ [NL] ++ str "1," ++ [DQUOT] ++ str "x,y" ++ [DQUOT; NL] ++ str "z," ++ [DQUOT; DQUOT; DQUOT; DQUOT])
  = Ok [[str "1"; str "x,y"]; [str "z"; [DQUOT]]].
Proof. by vm_compute. Qed.

Example agg_shown :
  csv_agg [str "column1"; str "column2"] [[Some (str "hello,"); Some (str "world")]; [Some (str "John"); Some (str "Doe")]]
  = Ok (str "column1,column2" ++ [NL; DQUOT] ++ str "hello," ++ [DQUOT] ++ str ",world" ++ [NL] ++ str "John,Doe" ++ [NL]).
Proof. by vm_compute. Qed.

(** NULL cannot be aggregated. *)
Example null_is_refused : csv_agg [str "a"; str "b"] [[Some (str "1"); None]] = raise "passed datum is null".
Proof. done. Qed.

(** A text of one column is read with the first of the delimiters, and the
    values are cut there. *)
Example one_column_cut : parse id (str "a" ++ [NL] ++ str "x|y" ++ [NL]) = Ok [[str "x"]].
Proof. by vm_compute. Qed.

(** Values that are empty make empty lines, which are passed over. *)
Example empty_line_lost :
  csv_agg [str "a"] [[Some []]; [Some (str "x")]] = Ok (str "a" ++ [NL; NL] ++ str "x" ++ [NL]) ∧
  parse id (str "a" ++ [NL; NL] ++ str "x" ++ [NL]) = Ok [[str "x"]].
Proof. split; by vm_compute. Qed.

(** A delimiter is guessed from the names alone, the first one on a tie. *)
Example bar_in_name :
  csv_info id (str "a|b,c" ++ [NL] ++ str "1,2" ++ [NL]) = Ok [str "a"; str "b,c"].
Proof. by vm_compute. Qed.

(** The first row is not compared with the number of columns: when it is
    shorter, values are read that are not there. *)
Example short_first_row : parse id (str "a,b" ++ [NL] ++ str "1" ++ [NL]) = Undefined "read past the end of the values".
Proof. by vm_compute. Qed.

(** A later row that is shorter is left out. *)
Example short_row_lost :
  parse id (str "a,b" ++ [NL] ++ str "1,2" ++ [NL] ++ str "3" ++ [NL] ++ str "4,5" ++ [NL])
  = Ok [[str "1"; str "2"]; [str "4"; str "5"]].
Proof. by vm_compute. Qed.

End Format.
